(* ===== verification/_CoqProject ===== *)
-Q . S2P
Prelude.v
Objects.v
Unicode.v
Base64.v
Hex.v
Frame.v
Authorize.v
TlsBuffer.v
SocketIo.v
HttpRedirect.v
JsonPrint.v
ClientCertificate.v
TlsConnection.v
Json.v
Conf.v
WebFilter.v
Http.v
WebResponse.v
WebResponseSent.v
WebResponseRead.v
WebFiles.v
WebServer.v
WebRequest.v
Creds.v
Auth.v
AuthSafety.v
AuthEvents.v
AuthRun.v
Transport.v
Channel.v
Pipe.v
Router.v
Paths.v
DBusRules.v
WebSocket.v
WebSocketDelivery.v
Handshake.v
WebService.v
