(* ===== verification/Prelude.v ===== *)
(** * Cockpit: a verification library for the C core

    Cockpit's C programs put a browser in charge of a session on a server.  A browser speaks
    to the TLS proxy ([src/tls]), the proxy to one web service per client certificate
    ([src/ws]), the web service starts a session process per login ([src/session], [src/ssh])
    and speaks with it over a pipe, and the session process runs the bridge ([src/bridge])
    with the rights of the user.  This library models the parts of these programs that decide
    who is let in, what is believed of a peer, and whether bytes arrive as they were sent.

    ** The files, and what they model

    - [Prelude]: bytes, C strings, machine words, computations that can fault, automation.
    - [Objects]: updates of the fields of an object, programs over objects and their Hoare
      rules; [Unicode]: [src/common/cockpitunicode.c].
    - [Base64], [Hex], [Frame], [Authorize]: [cockpitbase64.c], [cockpithex.c],
      [cockpitframe.c] and [cockpitauthorize.c] of [src/common], used by every program.
    - [JsonPrint], [Json]: [cockpitjsonprint.c] (metadata of the proxy and the session) and
      [cockpitjson.c] (control messages) of [src/common].
    - [TlsBuffer], [SocketIo], [HttpRedirect], [ClientCertificate], [TlsConnection]:
      [connection.c], [socket-io.c], [httpredirect.c] and [client-certificate.c] of
      [src/tls], the last with its counterpart in [src/session].
    - [Http]: the parsers of [src/websocket/websocket.c].
    - [WebSocket], [WebSocketDelivery], [Handshake]: [src/websocket/websocketconnection.c] and
      the handshake of [websocketserver.c] and [websocketclient.c].
    - [Conf]: [src/common/cockpitconf.c]; the class [Config] is its interface.
    - [WebFilter]: [cockpitwebfilter.c], [cockpitwebinject.c] and [cockpittemplate.c] of
      [src/common]; the class [WebFilter] is the interface of filters.
    - [WebResponse], [WebResponseSent], [WebResponseRead]: [src/common/cockpitwebresponse.c]:
      the life of a response, the bytes that are sent, and what a client reads of them;
      [WebFiles]: files, their variants and security policies, with [cockpitlocale.c].
    - [WebServer], [WebRequest]: [src/common/cockpitwebserver.c]: languages and cookies of a
      request; its connections, how a request is read from one, and what it is answered with.
    - [Creds], [Auth], [AuthSafety], [AuthEvents], [AuthRun]: [cockpitcreds.c] and
      [cockpitauth.c] of [src/ws]: the operations, the invariant of the sessions with what
      every operation does to it, every event, and what holds in every run.
    - [Transport], [WebService]: [cockpittransport.c] and [cockpitpipetransport.c] of
      [src/common], and [cockpitwebservice.c] of [src/ws] with its channels.
    - [Channel]: [cockpitchannel.c] and [cockpitflow.c] of [src/common], a channel of the bridge
      on the transport: its life, its options, its text, and its flow control.
    - [Pipe]: [src/common/cockpitpipe.c]: sockets and processes in the main loop.
    - [Router]: [src/bridge/cockpitrouter.c]: which channel of the bridge goes where, fences, the
      bridge of the superuser, and changes of the configuration.
    - [Paths], [DBusRules]: [cockpitpaths.c] and [cockpitdbusrules.c] of [src/bridge]: which signals
      of D-Bus a page has asked for; the class [Balanced] is what is relied on of GLib's trees.

    The components meet as in the code.  [TlsConnection] runs on the buffers of [TlsBuffer]
    and writes its metadata with [JsonPrint]; its certificate files are those of
    [ClientCertificate].  [Auth] parses headers with [Authorize], reads requests through
    [WebServer], messages through [Json], limits and programs through [Config] (which
    [Conf.config_of] provides), and keeps credentials of [Creds].  [WebService] has the
    connections of [WebSocket] on one side and the messages of [Transport] on the other, and
    the credentials that [Auth] has made.

    Responses queue blocks through the filters of [WebFilter] and are read back with the
    parsers of [Http].

    ** How programs are modelled

    A byte is an integer of [0 .. 255], a buffer or a C string is a list of them; machine words
    are integers with the wrap-around written out ([u8] to [u64]).  A function that can fail
    is a [comp]: [Ok], [Err] with what the code reports, or [Fault] for an access outside a
    buffer, the use of freed memory, a failed assertion or [abort].  Functions that change state
    are in a state monad over [comp] ([prog]).  What the environment does (the kernel,
    GnuTLS, GLib's main loop, PAM, systemd, random numbers, the contents of fresh memory) is
    an argument of the definitions that use it: a schedule, an event or a function.  Code outside
    [src/] is never given a definition of its own, except for the documented behaviour of C
    library functions on strings and of GLib's containers as lists and finite maps.

    ** What the theorems show

    - Nothing faults, whatever a peer sends, but for the cases that a theorem names with the lemma
      that shows the fault: the Base64 decoder, the header parsers, the frame
      reader, the relay loop, the WebSocket connection, and the sessions of the web service,
      for which every reference, task, timeout and signal handler is accounted for, and the
      routing of its channels, in which no WebSocket is used that is gone; and a response of the
      web server, which is not used when it has been freed and is done once; and a pipe.
    - What is sent arrives: Base64, frames, headers, HTTP requests, JSON (with [null] for doubles that are not finite), metadata, WebSocket
      messages across fragments, responses through filters and in chunks, messages on a pipe however it is cut up, those of frozen channels, and
      the proxy's relay, whose ring buffers refine a queue, and the text of channels, which is
      valid UTF-8 and the same however its source cuts it up.
    - A pipe is closed once, as long as [shutdown] does not fail on a socket, with every descriptor that it has, after its process has exited; what is
      queued is written in order, and all of it if the system takes it; a process gets the
      environment that was asked for.
    - The bridge opens a channel of its own only for its own host, and not for who requires the
      superuser; the channels that wait for a fence keep their order, and none gets past it; the
      rules follow the configuration, and bridges that are still configured keep theirs.
    - A signal of D-Bus is passed on exactly if a rule for it has been added more often than it has
      been removed, whatever shortcuts are taken, as long as the table can tell the rules apart.
    - A channel that has too much under way stops its source, and the answer to its last ping
      starts it again, if it has not been sent to in between; pings are answered in their order.
    - Who is let in: a TLS client reaches the instance of its own certificate, a plain client
      only the redirector when encryption is required; a session maps only the certificate
      of its own instance; a cookie opens the session that it was made for; the secret of a login
      goes to who asks for its type, once; logins are limited as configured; a channel
      belongs to the WebSocket that has opened it; the password of a session answers only
      challenges for its user, and none after it has been poisoned.
    - A request for a file opens only files below the roots, none hidden; the client reads the file,
      and its variant is the first that exists.
    - Injection finds the same markers whatever blocks a page comes in; templates are expanded as
      their variables say.
    - The client and the server of a WebSocket agree, on a protocol that both know, and the server
      agrees with nobody else.
    - A request is read the same whatever pieces it and its body come in; a connection keeps a bounded part
      of one; the first request of a plain connection is redirected when TLS is required; the
      languages that a browser wants are tried by their weights.
    - Nothing of a request is echoed as a line of its own; nothing follows a close frame;
      closing ends; input that is buffered is bounded.

    Findings of the modelling (bugs and divergences of documents) are lemmas where they can be
    stated; their doc comments say what goes wrong.

    ** Bounds and fuel

    Loops over a list recurse on it.  The others have fuel, and for each a lemma shows that the fuel
    given is enough: a cookie header is searched at most once per byte, the number of calls of
    [cockpit_session_reset] inside each other is at most five, a decimal
    number has at most as many digits as its value, [poll] loops consume a schedule.

    ** Not modelled

    Diagnostics; GObject class set-up; the bridge's D-Bus, stream, file, metrics and package
    channels, which are mostly calls of GDBus, GIO and PCP; the peers of the bridge, of which
    [Router] states what it relies on; the SSH relay, a client of libssh; [pam-ssh-add]; the
    session program, a client of PAM; the web server's sockets; the start of processes. *)

From stdpp Require Export base list strings gmap.
From Stdlib Require Export ZArith Lia.

#[global] Set Default Goal Selector "!".

(** ** Bytes and C strings

    A byte, and a C [char] once it has been cast to [unsigned char], is an
    integer of [0 .. 255]; a buffer or a string is a list of them.  The
    terminating NUL of a C string is not part of the list unless said so. *)

Declare Scope cockpit_scope.
Delimit Scope cockpit_scope with cockpit.
#[global] Open Scope Z_scope.

(** [lia] understands [/] and [mod]. *)
Ltac Zify.zify_post_hook ::= Z.div_mod_to_equations.

Definition is_byte (b : Z) : Prop := 0 ≤ b < 256.

#[export] Instance is_byte_dec b : Decision (is_byte b).
Proof. unfold is_byte. apply _. Defined.

(** String literals of the source as byte lists. *)
Fixpoint bs (s : string) : list Z :=
  match s with
  | EmptyString => []
  | String c s' => Z.of_nat (Ascii.nat_of_ascii c) :: bs s'
  end.

(** Length as the machine counts it. *)
Definition zlen {A} (l : list A) : Z := Z.of_nat (length l).

(** Machine words: [size_t] and [unsigned int] wrap-around. *)
Definition u8 (z : Z) : Z := z mod 2 ^ 8.
Definition u16 (z : Z) : Z := z mod 2 ^ 16.
Definition u32 (z : Z) : Z := z mod 2 ^ 32.
Definition u64 (z : Z) : Z := z mod 2 ^ 64.

(** ** C computations

    A C function either returns a value, reports an error (errno, or a negative
    status), or faults: an access outside a buffer, or a failed [assert]. *)

Inductive comp (E A : Type) : Type :=
| Ok (a : A)
| Err (e : E)
| Fault.
Arguments Ok {E A} a.
Arguments Err {E A} e.
Arguments Fault {E A}.

#[export] Instance comp_ret {E} : MRet (comp E) := fun A a => Ok a.
#[export] Instance comp_bind {E} : MBind (comp E) := fun A B f m =>
  match m with Ok a => f a | Err e => Err e | Fault => Fault end.

(** [assert (b)] *)
Definition cassert {E} (b : bool) : comp E unit := if b then Ok tt else Fault.

(** [if (b) return error] *)
Definition cfail_if {E} (b : bool) (e : E) : comp E unit :=
  if b then Err e else Ok tt.

(** The values of [errno] the source tells apart. *)
Inductive errno :=
| EAGAIN | EINTR | ECONNRESET | EBADMSG | ENOMEM | EINVAL | EOTHER (n : Z).

#[export] Instance errno_eq : EqDecision errno.
Proof. solve_decision. Defined.

(** Reads and writes of a buffer at an index, which fault out of range. *)
Definition buf_get {E} (buf : list Z) (i : Z) : comp E Z :=
  if decide (0 ≤ i) then
    match buf !! Z.to_nat i with Some b => Ok b | None => Fault end
  else Fault.

Definition buf_set {E} (buf : list Z) (i v : Z) : comp E (list Z) :=
  if decide (0 ≤ i < zlen buf) then Ok (<[Z.to_nat i := v]> buf) else Fault.

(** A computation that never faults. *)
Definition safe {E A} (m : comp E A) : Prop :=
  match m with Fault => False | _ => True end.

(** Computations over a state, for calls that change the outside world. *)
Definition prog (S E A : Type) : Type := S → comp E A * S.

#[export] Instance prog_ret {S E} : MRet (prog S E) := λ A a s, (Ok a, s).
#[export] Instance prog_bind {S E} : MBind (prog S E) := λ A B f m s,
  match m s with
  | (Ok a, s') => f a s'
  | (Err e, s') => (Err e, s')
  | (Fault, s') => (Fault, s')
  end.

Lemma prog_bind_eq {S E A B} (m : prog S E A) (f : A → prog S E B) s :
  (m ≫= f) s = match m s with
               | (Ok a, s') => f a s'
               | (Err e, s') => (Err e, s')
               | (Fault, s') => (Fault, s')
               end.
Proof. done. Qed.

Lemma prog_ret_eq {S E A} (a : A) s : mret (M := prog S E) a s = (Ok a, s).
Proof. done. Qed.

Definition lift {S E A} (m : comp E A) : prog S E A := λ s, (m, s).

(** ** The character classes of the C locale *)

Definition isspace (c : Z) : bool := (c =? 32) || ((9 <=? c) && (c <=? 13)).
Definition isdigit (c : Z) : bool := (48 <=? c) && (c <=? 57).
Definition isupper (c : Z) : bool := (65 <=? c) && (c <=? 90).
Definition islower (c : Z) : bool := (97 <=? c) && (c <=? 122).
Definition isalpha (c : Z) : bool := isupper c || islower c.
Definition isalnum (c : Z) : bool := isalpha c || isdigit c.
Definition tolower (c : Z) : Z := if isupper c then c + 32 else c.
Definition toupper (c : Z) : Z := if islower c then c - 32 else c.

(** ** The string functions of the C library the source calls *)

(** [strcasecmp (a, b) == 0] *)
Definition strcasecmp_eq (a b : list Z) : bool := bool_decide (tolower <$> a = tolower <$> b).

(** [strchr (s, c)] as the offset of the match: the terminating NUL of [s]
    counts, so [c = 0] is found at [strlen (s)]. *)
Fixpoint strchr (s : list Z) (c : Z) : option Z :=
  match s with
  | [] => if c =? 0 then Some 0 else None
  | x :: s' => if x =? c then Some 0 else Z.succ <$> strchr s' c
  end.

(** The initial segment of [s] up to its first NUL. *)
Fixpoint cstr (s : list Z) : list Z :=
  match s with
  | [] => []
  | x :: s' => if x =? 0 then [] else x :: cstr s'
  end.

(** [strcspn (s, reject)] and [strspn (s, accept)]. *)
Fixpoint strcspn (s reject : list Z) : nat :=
  match s with
  | [] => 0%nat
  | x :: s' => if bool_decide (x ∈ reject) || (x =? 0) then 0%nat
               else S (strcspn s' reject)
  end.

Fixpoint strspn (s accept : list Z) : nat :=
  match s with
  | [] => 0%nat
  | x :: s' => if bool_decide (x ∈ accept) && negb (x =? 0)
               then S (strspn s' accept) else 0%nat
  end.

(** [strncmp (s, p, strlen (p)) == 0] *)
Fixpoint prefixb (p s : list Z) : bool :=
  match p, s with
  | [], _ => true
  | x :: p', y :: s' => (x =? y) && prefixb p' s'
  | _ :: _, [] => false
  end.

(** [memmem (hay, n, needle, m)] as an offset. *)
Fixpoint memmem (hay needle : list Z) : option nat :=
  if prefixb needle hay then Some 0%nat
  else match hay with
       | [] => None
       | _ :: hay' => S <$> memmem hay' needle
       end.

(** [while ( *s == c) s++] *)
Fixpoint skip_char (c : Z) (s : list Z) : list Z :=
  match s with
  | [] => []
  | x :: s' => if x =? c then skip_char c s' else s
  end.

(** [fgets (buffer, n, stream)]: at most [n - 1] bytes, up to and including a
    newline; [None] at the end of the file. *)
Fixpoint fgets_take (n : nat) (stream : list Z) : list Z * list Z :=
  match n, stream with
  | S n', c :: stream' =>
      if c =? 10 then ([c], stream')
      else let '(l, rest) := fgets_take n' stream' in (c :: l, rest)
  | _, _ => ([], stream)
  end.

Definition fgets (n : Z) (stream : list Z) : option (list Z * list Z) :=
  match stream with
  | [] => None
  | _ => Some (fgets_take (Z.to_nat (n - 1)) stream)
  end.

(** Decimal rendering of [printf]'s ["%u"], with fuel for the digits. *)
Fixpoint digits_fuel (fuel : nat) (n : Z) : list Z :=
  match fuel with
  | O => []
  | S fuel' => (if n <? 10 then [] else digits_fuel fuel' (n / 10)) ++ [48 + n mod 10]
  end.

Definition render_u32 (n : Z) : list Z := digits_fuel 10 (u32 n).

(** ** Automation *)

Create HintDb cockpit.

Lemma comp_bind_Ok {E A B} (m : comp E A) (f : A → comp E B) b :
  m ≫= f = Ok b ↔ ∃ a, m = Ok a ∧ f a = Ok b.
Proof.
  destruct m; cbn; split; try done; [eauto|by intros (? & [= ->] & ?)|..];
    by intros (? & ? & ?).
Qed.

Lemma safe_bind {E A B} (m : comp E A) (f : A → comp E B) :
  safe m → (∀ a, m = Ok a → safe (f a)) → safe (m ≫= f).
Proof. destruct m; cbn; auto. Qed.

Lemma safe_Ok {E A} (a : A) : safe (Ok (E := E) a).
Proof. exact I. Qed.

Lemma safe_Err {E A} (e : E) : safe (Err (A := A) e).
Proof. exact I. Qed.

Lemma safe_assert {E} b : b = true → safe (cassert (E := E) b).
Proof. intros ->. exact I. Qed.

Lemma safe_fail_if {E} b (e : E) : safe (cfail_if b e).
Proof. destruct b; exact I. Qed.

#[export] Hint Resolve safe_Ok safe_Err safe_assert safe_fail_if : cockpit.

(** Splits the conditionals and matches of the goal, keeping the equations. *)
Ltac split_match :=
  match goal with
  | |- context [match ?x with _ => _ end] =>
      lazymatch x with context [match _ with _ => _ end] => fail | _ => destruct x eqn:? end
  end.

Ltac split_match_in H :=
  match type of H with
  | context [match ?x with _ => _ end] =>
      lazymatch x with context [match _ with _ => _ end] => fail | _ => destruct x eqn:? end
  end.

(** Turns the boolean tests of the context into propositions. *)
Ltac to_prop :=
  repeat match goal with
  | H : (_ && _) = true |- _ => apply andb_prop in H; destruct H
  | H : (_ && _) = false |- _ => apply andb_false_iff in H
  | H : (_ || _) = true |- _ => apply orb_true_iff in H
  | H : (_ || _) = false |- _ => apply orb_false_iff in H; destruct H
  | H : negb _ = true |- _ => apply negb_true_iff in H
  | H : negb _ = false |- _ => apply negb_false_iff in H
  | H : (_ =? _) = true |- _ => apply Z.eqb_eq in H
  | H : (_ =? _) = false |- _ => apply Z.eqb_neq in H
  | H : (_ <? _) = true |- _ => apply Z.ltb_lt in H
  | H : (_ <? _) = false |- _ => apply Z.ltb_ge in H
  | H : (_ <=? _) = true |- _ => apply Z.leb_le in H
  | H : (_ <=? _) = false |- _ => apply Z.leb_gt in H
  | H : (_ >=? _) = true |- _ => rewrite Z.geb_leb in H
  | H : (_ >? _) = true |- _ => rewrite Z.gtb_ltb in H
  | H : (_ >=? _) = false |- _ => rewrite Z.geb_leb in H
  | H : (_ >? _) = false |- _ => rewrite Z.gtb_ltb in H
  end.

(** ** Lists and their machine length *)

Lemma zlen_nil {A} : zlen (@nil A) = 0.
Proof. done. Qed.
Lemma zlen_cons {A} (x : A) l : zlen (x :: l) = 1 + zlen l.
Proof. unfold zlen. cbn. lia. Qed.
Lemma zlen_app {A} (l k : list A) : zlen (l ++ k) = zlen l + zlen k.
Proof. unfold zlen. rewrite length_app. lia. Qed.
Lemma zlen_nonneg {A} (l : list A) : 0 ≤ zlen l.
Proof. unfold zlen. lia. Qed.
Lemma zlen_insert {A} i (x : A) l : zlen (<[i := x]> l) = zlen l.
Proof. unfold zlen. by rewrite length_insert. Qed.
Lemma zlen_0_inv {A} (l : list A) : zlen l = 0 → l = [].
Proof. destruct l; [done|]. rewrite zlen_cons. pose proof (zlen_nonneg l). lia. Qed.
Lemma zlen_replicate {A} n (x : A) : zlen (replicate n x) = Z.of_nat n.
Proof. unfold zlen. by rewrite length_replicate. Qed.
Lemma zlen_take {A} n (l : list A) : zlen (take n l) = Z.min (Z.of_nat n) (zlen l).
Proof. unfold zlen. rewrite length_take. lia. Qed.
Lemma zlen_drop {A} n (l : list A) : zlen (drop n l) = Z.max 0 (zlen l - Z.of_nat n).
Proof. unfold zlen. rewrite length_drop. lia. Qed.

Create Rewrite HintDb zlen.

#[export] Hint Rewrite @zlen_nil @zlen_cons @zlen_app @zlen_insert @zlen_replicate
  @zlen_take @zlen_drop : zlen.

(** Normalises lengths and closes arithmetic goals about them. *)
Ltac zlen_solve :=
  autorewrite with zlen in *;
  repeat match goal with
  | l : list ?A |- _ =>
      lazymatch goal with
      | _ : 0 ≤ zlen l |- _ => fail
      | _ => pose proof (zlen_nonneg l)
      end
  end; lia.

(** Evaluates the lengths of literals. *)
Ltac lit_zlen :=
  repeat match goal with
  | |- context [zlen (bs ?s)] =>
      let v := eval vm_compute in (zlen (bs s)) in change (zlen (bs s)) with v
  | |- context [zlen [?x]] => change (zlen [x]) with 1
  end.

Lemma buf_set_Ok {E} buf i v :
  0 ≤ i < zlen buf → buf_set (E := E) buf i v = Ok (<[Z.to_nat i := v]> buf).
Proof. intros ?. unfold buf_set. by rewrite decide_True. Qed.

Lemma buf_get_app {E} l v r :
  buf_get (E := E) (l ++ v :: r) (zlen l) = Ok v.
Proof.
  unfold buf_get, zlen. rewrite decide_True by lia.
  by rewrite Nat2Z.id, list_lookup_middle.
Qed.

Lemma buf_set_app {E} l v r w :
  buf_set (E := E) (l ++ v :: r) (zlen l) w = Ok (l ++ w :: r).
Proof.
  rewrite buf_set_Ok by zlen_solve. unfold zlen.
  by rewrite Nat2Z.id, insert_app_r_alt, Nat.sub_diag by lia.
Qed.

(** ** Finite checks on bytes *)

Lemma byte_check (P : Z → bool) (n : nat) :
  forallb P (Z.of_nat <$> seq 0 n) = true → ∀ b, 0 ≤ b < Z.of_nat n → P b = true.
Proof.
  rewrite forallb_forall. intros H b Hb. apply H.
  rewrite <- list_elem_of_In. apply list_elem_of_fmap. exists (Z.to_nat b).
  split; [lia|]. apply elem_of_seq. lia.
Qed.

Lemma byte_check2 (P : Z → Z → bool) (n m : nat) :
  forallb (λ a, forallb (P a) (Z.of_nat <$> seq 0 m)) (Z.of_nat <$> seq 0 n) = true →
  ∀ a b, 0 ≤ a < Z.of_nat n → 0 ≤ b < Z.of_nat m → P a b = true.
Proof.
  intros Hall a b Ha Hb. apply byte_check with (n := m); [|done].
  by apply (byte_check (λ a, forallb (P a) (Z.of_nat <$> seq 0 m)) n Hall a Ha).
Qed.

Lemma byte_dec (P : Z → Prop) `{!∀ b, Decision (P b)} (n : nat) :
  forallb (λ b, bool_decide (P b)) (Z.of_nat <$> seq 0 n) = true →
  ∀ b, 0 ≤ b < Z.of_nat n → P b.
Proof.
  intros Hall b Hb.
  eapply bool_decide_eq_true, (byte_check (λ b, bool_decide (P b)) n Hall b Hb).
Qed.

Lemma byte_dec2 (P : Z → Z → Prop) `{!∀ a b, Decision (P a b)} (n m : nat) :
  forallb (λ a, forallb (λ b, bool_decide (P a b)) (Z.of_nat <$> seq 0 m))
    (Z.of_nat <$> seq 0 n) = true →
  ∀ a b, 0 ≤ a < Z.of_nat n → 0 ≤ b < Z.of_nat m → P a b.
Proof.
  intros Hall a b Ha Hb.
  eapply bool_decide_eq_true, (byte_check2 (λ a b, bool_decide (P a b)) n m Hall a b Ha Hb).
Qed.

(** Proves a decidable closed proposition by evaluation. *)
Ltac by_decide := refine (bool_decide_unpack _ _); vm_compute; exact I.

Lemma is_byte_u8 z : is_byte (u8 z).
Proof. apply Z.mod_pos_bound. lia. Qed.

Lemma u8_small z : is_byte z → u8 z = z.
Proof. apply Z.mod_small. Qed.

#[export] Hint Resolve is_byte_u8 : cockpit.

(** ** C strings *)

Lemma strchr_lookup s c o :
  c ≠ 0 → strchr s c = Some o → 0 ≤ o < zlen s ∧ s !! Z.to_nat o = Some c.
Proof.
  intros Hc. revert o. induction s as [|x s IH]; intros o; cbn [strchr].
  { destruct (c =? 0) eqn:E; to_prop; done. }
  destruct (x =? c) eqn:E.
  - to_prop. subst x. intros [= <-]. pose proof (zlen_nonneg s). split; [zlen_solve|done].
  - destruct (strchr s c) as [o'|]; cbn; [|done]. intros [= <-].
    destruct (IH o' eq_refl) as [Hr Hl]. split; [zlen_solve|].
    replace (Z.to_nat (Z.succ o')) with (S (Z.to_nat o')) by lia. done.
Qed.

(** ** Decimal numbers *)

(** The value of a string of digits, as the parsing loops accumulate it. *)
Definition dec_value (l : list Z) : Z := foldl (λ v c, v * 10 + (c - 48)) 0 l.

Lemma dec_value_snoc l c : dec_value (l ++ [c]) = dec_value l * 10 + (c - 48).
Proof. unfold dec_value. by rewrite foldl_app. Qed.

Lemma isdigit_range c : isdigit c = true ↔ 48 ≤ c ≤ 57.
Proof. unfold isdigit. rewrite andb_true_iff, !Z.leb_le. done. Qed.

Definition digits (l : list Z) : Prop := Forall (λ c, isdigit c = true) l.

Lemma dec_value_nonneg l : digits l → 0 ≤ dec_value l.
Proof.
  induction l as [|c l IH] using rev_ind; [done|].
  intros [Hl Hc]%Forall_app. rewrite dec_value_snoc.
  rewrite Forall_singleton, isdigit_range in Hc. specialize (IH Hl). lia.
Qed.

Lemma digits_fuel_digits fuel n : 0 ≤ n → digits (digits_fuel fuel n).
Proof.
  revert n. induction fuel as [|fuel IH]; intros n Hn; [constructor|].
  cbn. apply Forall_app. split.
  - destruct (n <? 10); [constructor|]. apply IH. lia.
  - apply Forall_singleton, isdigit_range. lia.
Qed.

Lemma digits_fuel_value fuel n :
  0 ≤ n < 10 ^ Z.of_nat fuel → dec_value (digits_fuel fuel n) = n.
Proof.
  revert n. induction fuel as [|fuel IH]; intros n Hn; [cbn in *; lia|].
  rewrite Nat2Z.inj_succ, Z.pow_succ_r in Hn by lia.
  cbn. rewrite dec_value_snoc. destruct (n <? 10) eqn:E; to_prop.
  - cbn. lia.
  - rewrite IH by lia. lia.
Qed.

Lemma digits_fuel_length fuel n k :
  (1 ≤ k)%nat → 0 ≤ n < 10 ^ Z.of_nat k → (length (digits_fuel fuel n) ≤ k)%nat.
Proof.
  revert n k. induction fuel as [|fuel IH]; intros n k Hk Hn; [cbn; lia|].
  cbn. rewrite length_app. destruct (n <? 10) eqn:E; to_prop; cbn; [lia|].
  destruct k as [|[|k]]; [lia|change (10 ^ Z.of_nat 1) with 10 in Hn; lia|].
  rewrite Nat2Z.inj_succ, Z.pow_succ_r in Hn by lia.
  specialize (IH (n / 10) (S k)). lia.
Qed.

(** A canonical numeral: digits, at least one, no leading zero. *)
Definition canonical (l : list Z) : Prop :=
  digits l ∧ ∃ c l', l = c :: l' ∧ c ≠ 48.

Lemma canonical_pos l : canonical l → 0 < dec_value l.
Proof.
  intros (Hd & c & l' & -> & Hc). revert Hd.
  induction l' as [|x l' IH] using rev_ind; intros Hd.
  - apply Forall_singleton, isdigit_range in Hd. cbn. lia.
  - rewrite app_comm_cons in *. apply Forall_app in Hd as [Hd Hx].
    rewrite dec_value_snoc. rewrite Forall_singleton, isdigit_range in Hx.
    specialize (IH Hd). lia.
Qed.

Lemma digits_fuel_canonical fuel n : 0 < n < 10 ^ Z.of_nat fuel → canonical (digits_fuel fuel n).
Proof.
  intros Hn. split; [apply digits_fuel_digits; lia|]. revert n Hn.
  induction fuel as [|fuel IH]; intros n Hn; [cbn in Hn; lia|].
  rewrite Nat2Z.inj_succ, Z.pow_succ_r in Hn by lia.
  cbn. destruct (n <? 10) eqn:E; to_prop.
  - exists (48 + n mod 10), []. split; [done|lia].
  - destruct (IH (n / 10)) as (c & l' & -> & Hc); [lia|]. eexists c, _. by split.
Qed.

Lemma digits_fuel_unique fuel l :
  canonical l → (length l ≤ fuel)%nat → digits_fuel fuel (dec_value l) = l.
Proof.
  revert fuel. induction l as [|x l IH] using rev_ind; intros fuel [Hd (c & l' & Hl & Hc)].
  { done. }
  rewrite length_app. cbn. intros Hf. destruct fuel as [|fuel]; [lia|]. cbn.
  apply Forall_app in Hd as [Hd Hx]. rewrite Forall_singleton, isdigit_range in Hx.
  rewrite dec_value_snoc. destruct l as [|y l].
  - cbn in *. injection Hl as -> <-. rewrite (proj2 (Z.ltb_lt _ _)) by lia.
    cbn. f_equal. lia.
  - cbn in Hl. injection Hl as -> <-.
    assert (Hcan : canonical (c :: l)) by (split; [done|by eexists _, _]).
    pose proof (canonical_pos _ Hcan).
    rewrite (proj2 (Z.ltb_ge _ _)) by lia.
    replace ((dec_value (c :: l) * 10 + (x - 48)) / 10) with (dec_value (c :: l)) by lia.
    rewrite IH by (done || cbn in *; lia). f_equal. f_equal. lia.
Qed.

Definition nul_free (s : list Z) : Prop := Forall (λ c, c ≠ 0) s.

Lemma cstr_nul_free s : nul_free (cstr s).
Proof.
  induction s as [|x s IH]; cbn; [constructor|].
  destruct (x =? 0) eqn:E; [constructor|]. to_prop. by constructor.
Qed.

Lemma cstr_id s : nul_free s → cstr s = s.
Proof.
  induction 1 as [|x s Hx _ IH]; [done|]. cbn. rewrite (proj2 (Z.eqb_neq _ _) Hx).
  by rewrite IH.
Qed.

Lemma cstr_prefix s : ∃ r, s = cstr s ++ r.
Proof.
  induction s as [|c s [r IH]]; [by exists []|]. cbn. destruct (c =? 0); [by eexists|].
  exists r. cbn. by rewrite <- IH.
Qed.

Lemma cstr_app_nul s r : nul_free s → cstr (s ++ 0 :: r) = s.
Proof.
  induction 1 as [|x s Hx _ IH]; [done|]. cbn. rewrite (proj2 (Z.eqb_neq _ _) Hx).
  by rewrite IH.
Qed.

(** The characters [strcspn] runs over. *)
Definition outside (reject s : list Z) : Prop := Forall (λ c, c ∉ reject ∧ c ≠ 0) s.

Lemma strcspn_app s c r reject :
  outside reject s → c ∈ reject ∨ c = 0 → strcspn (s ++ c :: r) reject = length s.
Proof.
  intros Hs Hc. induction Hs as [|x s [Hx Hx0] _ IH]; cbn.
  - destruct Hc as [Hc| ->]; [by rewrite bool_decide_eq_true_2|by rewrite orb_true_r].
  - rewrite bool_decide_eq_false_2, (proj2 (Z.eqb_neq _ _) Hx0) by done. cbn. by rewrite IH.
Qed.

Lemma strcspn_all s reject : outside reject s → strcspn s reject = length s.
Proof.
  induction 1 as [|x s [Hx Hx0] _ IH]; [done|]. cbn.
  rewrite bool_decide_eq_false_2, (proj2 (Z.eqb_neq _ _) Hx0) by done. cbn. by rewrite IH.
Qed.

Lemma strcspn_le s reject : (strcspn s reject ≤ length s)%nat.
Proof. induction s as [|x s IH]; cbn; [lia|]. destruct (_ || _); lia. Qed.

Lemma strcspn_spec s reject :
  outside reject (take (strcspn s reject) s) ∧
  (drop (strcspn s reject) s = [] ∨
   ∃ c r, drop (strcspn s reject) s = c :: r ∧ (c ∈ reject ∨ c = 0)).
Proof.
  induction s as [|x s [IH1 IH2]]; cbn; [split; [constructor|by left]|].
  destruct (bool_decide (x ∈ reject) || (x =? 0)) eqn:E; cbn.
  - split; [constructor|]. right. exists x, s. split; [done|]. to_prop.
    destruct E as [E|E]; to_prop; [left; by apply bool_decide_eq_true in E|by right].
  - to_prop. apply bool_decide_eq_false in H. split; [by constructor|done].
Qed.

Lemma prefixb_spec p s : prefixb p s = true ↔ ∃ r, s = p ++ r.
Proof.
  revert s. induction p as [|x p IH]; intros s; cbn; [split; [by eexists|done]|].
  destruct s as [|y s]; [split; [done|by intros [r ?]]|].
  rewrite andb_true_iff, Z.eqb_eq, IH. split.
  - intros [-> [r ->]]. by exists r.
  - intros [r [= -> ->]]. eauto.
Qed.

Lemma prefixb_app p r : prefixb p (p ++ r) = true.
Proof. apply prefixb_spec. by eexists. Qed.

Lemma fgets_take_split n s l r : fgets_take n s = (l, r) → s = l ++ r.
Proof.
  revert s l r. induction n as [|n IH]; intros [|c s] l r; cbn; try by intros [= <- <-].
  destruct (c =? 10); [by intros [= <- <-]|].
  destruct (fgets_take n s) as [l' r'] eqn:E. intros [= <- <-]. by rewrite (IH _ _ _ E).
Qed.

(** ** Searching *)

Lemma memmem_some hay needle i :
  memmem hay needle = Some i → ∃ a b, hay = a ++ needle ++ b ∧ length a = i.
Proof.
  revert i. induction hay as [|c hay IH]; intros i; cbn.
  - destruct (prefixb needle []) eqn:E; [|done]. intros [= <-].
    apply prefixb_spec in E as [r ->]. by exists [], r.
  - destruct (prefixb needle (c :: hay)) eqn:E.
    + intros [= <-]. apply prefixb_spec in E as [r ->]. by exists [], r.
    + destruct (memmem hay needle) as [j|]; [|done]. intros [= <-].
      destruct (IH j eq_refl) as (a & b & -> & <-). by exists (c :: a), b.
Qed.

(** The first occurrence is found. *)
Lemma memmem_first a needle b :
  (∀ x y z, a = x ++ y → y ≠ [] → y ++ needle ++ b ≠ needle ++ z) →
  memmem (a ++ needle ++ b) needle = Some (length a).
Proof.
  induction a as [|c a IH]; intros H; cbn [app length].
  - destruct needle as [|n needle]; [by destruct b|]. cbn [app memmem].
    by rewrite (prefixb_app (n :: needle) b : prefixb (n :: needle) (n :: needle ++ b) = true).
  - cbn [memmem]. destruct (prefixb needle (c :: a ++ needle ++ b)) eqn:E.
    + apply prefixb_spec in E as [r E]. by destruct (H [] (c :: a) r).
    + rewrite IH; [done|]. intros x y z -> Hy. apply (H (c :: x) y z); done.
Qed.

Lemma memmem_app a needle b : memmem (a ++ needle ++ b) needle ≠ None.
Proof.
  induction a as [|c a IH]; cbn [app].
  - destruct needle as [|n needle]; [by destruct b|]. cbn [app memmem].
    by rewrite (prefixb_app (n :: needle) b : prefixb (n :: needle) (n :: needle ++ b) = true).
  - cbn [memmem]. destruct (prefixb _ _); [done|].
    by destruct (memmem (a ++ needle ++ b) needle).
Qed.

(** A search that fails has looked everywhere, one that succeeds at every place before. *)
Lemma memmem_None hay needle : memmem hay needle = None ↔ ∀ a b, hay ≠ a ++ needle ++ b.
Proof.
  split.
  - intros H a b ->. by apply memmem_app in H.
  - intros H. destruct (memmem hay needle) as [i|] eqn:E; [|done].
    apply memmem_some in E as (a & b & E & _). by destruct (H a b).
Qed.

Lemma memmem_before hay needle i a b :
  memmem hay needle = Some i → hay = a ++ needle ++ b → (i ≤ length a)%nat.
Proof.
  revert i a. induction hay as [|c hay IH]; intros i a; cbn [memmem].
  - destruct (prefixb needle []); [intros [= <-]; lia|done].
  - destruct (prefixb needle (c :: hay)) eqn:E; [intros [= <-]; lia|].
    destruct (memmem hay needle) as [j|] eqn:Ej; [|done]. intros [= <-] H. destruct a as [|x a].
    + apply not_true_iff_false in E. destruct E. apply prefixb_spec. by exists b.
    + injection H as -> H. cbn. specialize (IH j a eq_refl H). lia.
Qed.

(** ** Splitting *)

(** The parts between the delimiters: [g_strsplit], the components of a path. *)
Fixpoint split_on (d : Z) (s : list Z) : list (list Z) :=
  match s with
  | [] => [[]]
  | c :: s =>
      if c =? d then [] :: split_on d s
      else match split_on d s with
           | part :: parts => (c :: part) :: parts
           | [] => [[c]]
           end
  end.

Lemma split_on_cons d s : ∃ part parts, split_on d s = part :: parts ∧ (part = [] ∨ head part = head s).
Proof.
  destruct s as [|c s]; [by exists [], []; auto|]. cbn [split_on]. destruct (c =? d); [by eexists [], _; auto|].
  destruct (split_on d s) as [|part parts]; [by exists [c], []; auto|]. eexists (c :: part), _. by auto.
Qed.
