(* ===== verification/Objects.v ===== *)
(** * Objects: fields, programs on a state, signals

    A library for components that are objects of GLib: records whose fields are changed one at a time,
    programs that change a state of which an object is a part, and what such a program ensures.
    A component's operations are programs on any state that has the component in it, so that the
    handlers of its signals can be programs that use the component, and others, themselves. *)

From S2P Require Import Prelude.
#[local] Open Scope Z_scope.

(** ** Fields

    [r <| f := v |>] is the record [r] with another value of the field [f].  A record type says what it is
    made of with an instance of [Settable]; the setters of its fields are found from that. *)

Class Settable (T : Type) := rebuilt : T → T.

Class Setter {T E : Type} (field : T → E) := update : (E → E) → T → T.
#[global] Arguments update {T E} field {_} f t /.

Ltac find_setter :=
  match goal with
  | |- @Setter ?T ?E ?field =>
      let inst := constr:(_ : Settable T) in
      let e := eval hnf in inst in
      match eval pattern field in e with
      | ?g _ =>
          let s := constr:(λ (f : E → E), g (λ r, f (field r))) in
          let s := eval cbv beta in s in
          exact s
      end
  end.
#[export] Hint Extern 2 (@Setter _ _ _) => find_setter : typeclass_instances.

Notation "r <| f := v |>" := (update f (λ _, v) r)
  (at level 1, left associativity, f at level 99, v at level 99, format "r  <| f  :=  v |>").
Notation "r <| f ::= g |>" := (update f g r)
  (at level 1, left associativity, f at level 99, g at level 99, format "r  <| f  ::=  g |>").

(** A field that a state has, whatever else it has. *)
Class Field {T E : Type} (field : T → E) `{!Setter field} : Prop :=
  field_update : ∀ f t, field (update field f t) = f (field t).

(** ** Programs *)

Definition get {S E A} (f : S → A) : prog S E A := λ s, (Ok (f s), s).
Definition modify {S E} (f : S → S) : prog S E unit := λ s, (Ok tt, f s).
Definition when {S E} (b : bool) (m : prog S E unit) : prog S E unit := if b then m else mret tt.
Definition fault {S E A} : prog S E A := λ s, (Fault, s).
(** [g_assert], and the use of memory that must not have been freed *)
Definition require {S E} (b : bool) : prog S E unit := if b then mret tt else fault.

(** The program ends without a fault or an error, in a state and with a result like that. *)
Definition ensures {S E A} (m : prog S E A) (Q : A → S → Prop) (s : S) : Prop :=
  match m s with (Ok a, s') => Q a s' | _ => False end.

Section Ensures.
Context {S E : Type}.
Implicit Types s : S.

Lemma ensures_ret {A} (a : A) (Q : A → S → Prop) s : Q a s → ensures (E := E) (mret a) Q s.
Proof. done. Qed.

Lemma ensures_bind {A B} (m : prog S E A) (k : A → prog S E B) Q s :
  ensures m (λ a, ensures (k a) Q) s → ensures (m ≫= k) Q s.
Proof. unfold ensures. rewrite prog_bind_eq. by destruct (m s) as [[a| |] s']. Qed.

Lemma ensures_mono {A} (m : prog S E A) (P Q : A → S → Prop) s :
  ensures m P s → (∀ a s', P a s' → Q a s') → ensures m Q s.
Proof. unfold ensures. destruct (m s) as [[a| |] s']; auto. Qed.

Lemma ensures_seq {A B} (m : prog S E A) (k : A → prog S E B) P Q s :
  ensures m P s → (∀ a s', P a s' → ensures (k a) Q s') → ensures (m ≫= k) Q s.
Proof. intros Hm Hk. apply ensures_bind. by eapply ensures_mono. Qed.

Lemma ensures_get {A} (f : S → A) Q s : Q (f s) s → ensures (E := E) (get f) Q s.
Proof. done. Qed.

Lemma ensures_modify (f : S → S) Q s : Q tt (f s) → ensures (E := E) (modify f) Q s.
Proof. done. Qed.

Lemma ensures_when (b : bool) (m : prog S E unit) Q s :
  (b = true → ensures m Q s) → (b = false → Q tt s) → ensures (when b m) Q s.
Proof. destruct b; cbn; auto. Qed.

Lemma ensures_require b Q s : b = true → Q tt s → ensures (E := E) (require b) Q s.
Proof. by intros ->. Qed.

Lemma ensures_after {A} (m : prog S E A) (P : S → Prop) s : ensures m (λ _ s', P s') s → P (m s).2.
Proof. unfold ensures. by destruct (m s) as [[] ?]. Qed.

(** A field of the state gets another value. *)
Lemma ensures_update {T} (field : S → T) `{!Setter field, !Field field} f (Q : unit → S → Prop) s :
  (∀ s', field s' = f (field s) → Q tt s') → ensures (E := E) (modify (update field f)) Q s.
Proof. intros HQ. apply HQ. apply field_update. Qed.

Lemma ensures_update_seq {T A} (field : S → T) `{!Setter field, !Field field} f (k : unit → prog S E A) (Q : A → S → Prop) s :
  (∀ s', field s' = f (field s) → ensures (k tt) Q s') → ensures (modify (update field f) ≫= k) Q s.
Proof. intros HQ. by apply ensures_bind, ensures_update. Qed.

Lemma ensures_Ok {A} (m : prog S E A) Q s a s' : ensures m Q s → m s = (Ok a, s') → Q a s'.
Proof. unfold ensures. by intros H E1; rewrite E1 in H. Qed.
End Ensures.
