(* ===== verification/Unicode.v ===== *)
(** * UTF-8: [src/common/cockpitunicode.c]

    Text that is sent to a browser must be valid UTF-8.  What is not valid is replaced; and a text
    that ends inside a character can wait for the rest of it.

    The validation, [g_utf8_validate], is behind the class [Utf8]: a function that finds the end of the
    valid part, with what is documented of it.  The table of RFC 3629, without NUL, is an instance.

    Shown: what has been forced is valid, and valid text is left alone; a text whose continuation can
    be valid is valid or is found to be incomplete. *)

From S2P Require Import Prelude.
#[local] Open Scope Z_scope.

(** ** Validation *)

(** [g_utf8_validate] goes through the text from the left; [valid_length] says where its [end] is. *)
Class Utf8 := {
  valid_length : list Z → nat;
  valid_length_le data : (valid_length data ≤ length data)%nat;
  valid_length_take data : valid_length (take (valid_length data) data) = valid_length data;
  valid_length_app a b : valid_length a = length a →
    valid_length (a ++ b) = (length a + valid_length b)%nat;
  valid_replacement : valid_length [239; 191; 189] = 3%nat;
  (* A character that is cut off has no valid part, and neither has what follows its first byte. *)
  valid_length_cut a b : valid_length (a ++ b) = length (a ++ b) →
    ∀ n, (valid_length a + n < length a)%nat → valid_length (drop (valid_length a + n) a) = O
}.

Section Unicode.
Context `{Utf8}.

Definition g_utf8_validate (data : list Z) : bool := (valid_length data =? length data)%nat.

Fixpoint incomplete_loop (fuel : nat) (data : list Z) : bool :=
  match fuel with
  | O => false
  | S fuel =>
      let data := drop (valid_length data + 1) data in
      if g_utf8_validate data then (length data =? 0)%nat else incomplete_loop fuel data
  end.

Definition cockpit_unicode_has_incomplete_ending (input : list Z) : bool :=
  if g_utf8_validate input then false else incomplete_loop (length input) input.

(** The replacement character *)
Definition replacement : list Z := [239; 191; 189].

Fixpoint force_loop (fuel : nat) (data string : list Z) : list Z :=
  match fuel with
  | O => string
  | S fuel =>
      let string := string ++ take (valid_length data) data ++ replacement in
      let data := drop (valid_length data + 1) data in
      if g_utf8_validate data then string ++ data else force_loop fuel data string
  end.

Definition cockpit_unicode_force_utf8 (input : list Z) : list Z :=
  if g_utf8_validate input then input else force_loop (length input) input [].

(** ** What is valid *)

Definition valid (data : list Z) : Prop := valid_length data = length data.

Lemma validate_spec data : g_utf8_validate data = true ↔ valid data.
Proof. apply Nat.eqb_eq. Qed.

Lemma validate_false data : g_utf8_validate data = false → (valid_length data < length data)%nat.
Proof. unfold g_utf8_validate. rewrite Nat.eqb_neq. pose proof (valid_length_le data). lia. Qed.

Lemma valid_nil : valid [].
Proof. pose proof (valid_length_le []). cbn in *. unfold valid. cbn. lia. Qed.

Lemma valid_app a b : valid a → valid b → valid (a ++ b).
Proof. unfold valid. intros Ha Hb. by rewrite valid_length_app, length_app, Hb. Qed.

Lemma valid_app_inv a b : valid a → valid (a ++ b) → valid b.
Proof. unfold valid. intros Ha. rewrite valid_length_app, length_app by done. lia. Qed.

Lemma valid_part data : valid (take (valid_length data) data).
Proof. unfold valid. rewrite valid_length_take, length_take. pose proof (valid_length_le data). lia. Qed.

Lemma force_loop_valid fuel data string : (length data ≤ fuel)%nat → g_utf8_validate data = false →
  valid string → valid (force_loop fuel data string).
Proof.
  revert data string. induction fuel as [|fuel IH]; intros data string Hf Hd Hs; [done|].
  pose proof (validate_false data Hd) as Hlt. cbn [force_loop].
  assert (Hs' : valid (string ++ take (valid_length data) data ++ replacement)).
  { apply valid_app, valid_app; [done|apply valid_part|exact valid_replacement]. }
  destruct (g_utf8_validate (drop _ data)) eqn:E.
  - apply valid_app; [done|]. by apply validate_spec.
  - apply IH; [rewrite length_drop; lia|done..].
Qed.

(** What has been forced is valid UTF-8. *)
Lemma force_utf8_valid input : valid (cockpit_unicode_force_utf8 input).
Proof.
  unfold cockpit_unicode_force_utf8. destruct (g_utf8_validate input) eqn:E; [by apply validate_spec|].
  apply force_loop_valid; [lia|done|apply valid_nil].
Qed.

Lemma force_utf8_id input : valid input → cockpit_unicode_force_utf8 input = input.
Proof. intros E%validate_spec. unfold cockpit_unicode_force_utf8. by rewrite E. Qed.

(** ** Text that is cut *)

Lemma incomplete_loop_cut fuel data : (0 < length data ≤ fuel)%nat → 
  (∀ n, (n < length data)%nat → valid_length (drop n data) = O) → incomplete_loop fuel data = true.
Proof.
  revert data. induction fuel as [|fuel IH]; intros data Hl Hd; [lia|]. cbn [incomplete_loop].
  pose proof (Hd O ltac:(lia)) as H0. rewrite drop_0 in H0. rewrite H0. cbn [Nat.add].
  destruct data as [|x data]; [cbn in Hl; lia|]. cbn [drop]. rewrite drop_0. cbn [length] in *.
  destruct (g_utf8_validate data) eqn:E.
  - apply validate_spec in E. destruct data as [|y data]; [done|].
    specialize (Hd 1%nat ltac:(cbn; lia)). cbn [drop] in Hd. unfold valid in E. rewrite Hd in E. done.
  - apply IH.
    + destruct data as [|y data]; [|cbn in *; lia]. by rewrite (proj2 (validate_spec []) valid_nil) in E.
    + intros n Hn. apply (Hd (S n)). lia.
Qed.

(** A text that can go on to a valid one is valid, or ends inside a character. *)
Lemma incomplete_ending a b : valid (a ++ b) → valid a ∨ cockpit_unicode_has_incomplete_ending a = true.
Proof.
  intros Hv. destruct (g_utf8_validate a) eqn:E; [left; by apply validate_spec|right].
  unfold cockpit_unicode_has_incomplete_ending. rewrite E. pose proof (validate_false a E) as Hlt.
  destruct (length a) as [|fuel] eqn:Ef; [lia|]. cbn [incomplete_loop].
  pose proof (valid_length_cut a b Hv) as Hcut. destruct (g_utf8_validate (drop _ a)) eqn:E'.
  - apply validate_spec in E'. apply Nat.eqb_eq. unfold valid in E'. rewrite length_drop in *.
    destruct (decide (valid_length a + 1 < length a)%nat) as [Hn|Hn]; [|lia].
    rewrite (Hcut 1%nat Hn) in E'. lia.
  - apply incomplete_loop_cut.
    + rewrite length_drop. destruct (decide (length a = valid_length a + 1)%nat) as [Hn|Hn]; [|lia].
      rewrite drop_ge in E' by lia. by rewrite (proj2 (validate_spec []) valid_nil) in E'.
    + intros n Hn. rewrite length_drop in Hn. rewrite drop_drop. replace (valid_length a + 1 + n)%nat with (valid_length a + (1 + n))%nat by lia.
      apply Hcut. lia.
Qed.

Lemma valid_complete input : valid input → cockpit_unicode_has_incomplete_ending input = false.
Proof. intros E%validate_spec. unfold cockpit_unicode_has_incomplete_ending. by rewrite E. Qed.

(** What it is to replace what is not valid: the valid part stays, the byte after it is replaced. *)
Inductive forced : list Z → list Z → Prop :=
| forced_valid data : valid data → forced data data
| forced_replaced data out : ¬ valid data → forced (drop (valid_length data + 1) data) out →
    forced data (take (valid_length data) data ++ replacement ++ out).

Lemma force_loop_forced fuel data string : (length data ≤ fuel)%nat → g_utf8_validate data = false →
  ∃ out, force_loop fuel data string = string ++ out ∧ forced data out.
Proof.
  revert data string. induction fuel as [|fuel IH]; intros data string Hf Hd; pose proof (validate_false data Hd) as Hlt; [lia|].
  cbn [force_loop]. assert (Hn : ¬ valid data) by (rewrite <- validate_spec; congruence).
  destruct (g_utf8_validate (drop _ data)) eqn:E.
  - eexists. split; [by rewrite <- !app_assoc|]. apply forced_replaced, forced_valid; [done|]. by apply validate_spec.
  - destruct (IH (drop (valid_length data + 1) data) (string ++ take (valid_length data) data ++ replacement)) as (out & -> & Ho);
      [rewrite length_drop; lia|done|].
    eexists. split; [by rewrite <- !app_assoc|]. by apply forced_replaced.
Qed.

(** The loop ends, and does that. *)
Lemma force_utf8_forced input : forced input (cockpit_unicode_force_utf8 input).
Proof.
  unfold cockpit_unicode_force_utf8. destruct (g_utf8_validate input) eqn:E.
  - apply forced_valid. by apply validate_spec.
  - by destruct (force_loop_forced (length input) input [] (le_n _) E) as (out & -> & Ho).
Qed.
End Unicode.

(** ** The UTF-8 of RFC 3629 *)

Definition in_range (c : Z) (r : Z * Z) : bool := (r.1 <=? c) && (c <=? r.2).

Definition tail_byte : Z * Z := (128, 191).

(** The ranges of the bytes that follow a first byte. *)
Definition utf8_tail (c : Z) : option (list (Z * Z)) :=
  if in_range c (1, 127) then Some []
  else if in_range c (194, 223) then Some [tail_byte]
  else if c =? 224 then Some [(160, 191); tail_byte]
  else if c =? 237 then Some [(128, 159); tail_byte]
  else if in_range c (225, 239) then Some [tail_byte; tail_byte]
  else if c =? 240 then Some [(144, 191); tail_byte; tail_byte]
  else if in_range c (241, 243) then Some [tail_byte; tail_byte; tail_byte]
  else if c =? 244 then Some [(128, 143); tail_byte; tail_byte]
  else None.

Fixpoint tail_matches (tail : list (Z * Z)) (data : list Z) : bool :=
  match tail, data with
  | [], _ => true
  | r :: tail, c :: data => in_range c r && tail_matches tail data
  | _ :: _, [] => false
  end.

(** How long the first character is; zero when there is none. *)
Definition char_length (data : list Z) : nat :=
  match data with
  | [] => O
  | c :: data =>
      match utf8_tail c with
      | Some tail => if tail_matches tail data then S (length tail) else O
      | None => O
      end
  end.

Fixpoint utf8_fuel (fuel : nat) (data : list Z) : nat :=
  match fuel with
  | O => O
  | S fuel => match char_length data with O => O | n => n + utf8_fuel fuel (drop n data) end
  end.

Definition utf8_length (data : list Z) : nat := utf8_fuel (length data) data.

Lemma tail_matches_length tail data : tail_matches tail data = true → (length tail ≤ length data)%nat.
Proof.
  revert data. induction tail as [|r tail IH]; intros [|c data]; cbn; try lia; try done.
  intros [_ E]%andb_true_iff. apply IH in E. lia.
Qed.

Lemma tail_matches_app tail a b : tail_matches tail a = true → tail_matches tail (a ++ b) = true.
Proof.
  revert a. induction tail as [|r tail IH]; intros [|c a]; cbn; try done.
  intros [-> E]%andb_true_iff. by apply IH.
Qed.

Lemma tail_matches_take tail a b : tail_matches tail (a ++ b) = true → (length tail ≤ length a)%nat →
  tail_matches tail a = true.
Proof.
  revert a. induction tail as [|r tail IH]; intros [|c a]; cbn; try done; try lia.
  intros [-> E]%andb_true_iff Hl. apply IH; [done|lia].
Qed.

Lemma char_length_le data : (char_length data ≤ length data)%nat.
Proof.
  destruct data as [|c data]; cbn; [lia|]. destruct (utf8_tail c); [|lia].
  destruct (tail_matches _ _) eqn:E; [|lia]. apply tail_matches_length in E. lia.
Qed.

Lemma char_length_app a b : char_length a ≠ O → char_length (a ++ b) = char_length a.
Proof.
  destruct a as [|c a]; [done|]. cbn. destruct (utf8_tail c); [|done].
  destruct (tail_matches l a) eqn:E; [|done]. by rewrite tail_matches_app.
Qed.

Lemma char_length_take a b : (char_length (a ++ b) ≤ length a)%nat → char_length a = char_length (a ++ b).
Proof.
  destruct a as [|c a]; cbn; [lia|]. destruct (utf8_tail c); [|done].
  destruct (tail_matches l (a ++ b)) eqn:E.
  - intros Hl. by rewrite (tail_matches_take l a b E) by lia.
  - destruct (tail_matches l a) eqn:E'; [|done]. apply (tail_matches_app _ _ b) in E'. congruence.
Qed.

Lemma utf8_fuel_enough fuel data : (length data ≤ fuel)%nat → utf8_fuel fuel data = utf8_length data.
Proof.
  unfold utf8_length. revert data. induction fuel as [fuel IH] using lt_wf_ind. intros data Hl.
  destruct fuel as [|fuel]; [by destruct data; [|cbn in Hl; lia]|]. cbn [utf8_fuel].
  pose proof (char_length_le data) as Hc. destruct (char_length data) as [|n] eqn:E.
  - destruct data; [done|]. cbn [length utf8_fuel]. by rewrite E.
  - destruct (length data) as [|m] eqn:Em; [lia|]. cbn [utf8_fuel]. rewrite E. f_equal.
    rewrite (IH fuel), (IH m); [done|lia|rewrite length_drop; lia..|lia|rewrite length_drop; lia].
Qed.

Lemma utf8_length_step data : utf8_length data =
  match char_length data with O => O | S n => (S n + utf8_length (drop (S n) data))%nat end.
Proof.
  unfold utf8_length at 1. destruct data as [|c data]; [done|]. cbn [length utf8_fuel].
  pose proof (char_length_le (c :: data)) as Hc. destruct (char_length (c :: data)) as [|n] eqn:E; [done|].
  rewrite utf8_fuel_enough; [done|]. rewrite length_drop. cbn. lia.
Qed.

(** Induction over characters. *)
Lemma utf8_ind (P : list Z → Prop) :
  (∀ data, (char_length data ≠ O → P (drop (char_length data) data)) → P data) → ∀ data, P data.
Proof.
  intros Hs data. remember (length data) as n eqn:En. revert data En.
  induction n as [n IH] using lt_wf_ind. intros data ->. apply Hs. intros Hc.
  apply (IH (length (drop (char_length data) data))); [|done]. rewrite length_drop. pose proof (char_length_le data). lia.
Qed.

Lemma utf8_length_le data : (utf8_length data ≤ length data)%nat.
Proof.
  induction data as [data IH] using utf8_ind. rewrite utf8_length_step. pose proof (char_length_le data) as Hc.
  destruct (char_length data) as [|n]; [lia|]. specialize (IH ltac:(done)). rewrite length_drop in IH. lia.
Qed.

Lemma utf8_length_app a b : utf8_length a = length a → utf8_length (a ++ b) = (length a + utf8_length b)%nat.
Proof.
  induction a as [a IH] using utf8_ind. rewrite (utf8_length_step a). pose proof (char_length_le a) as Hc.
  destruct (char_length a) as [|n] eqn:E; [by destruct a|]. intros Hl. specialize (IH ltac:(done)).
  rewrite length_drop in IH. rewrite (utf8_length_step (a ++ b)), char_length_app, E by congruence.
  rewrite drop_app_le by lia. rewrite IH by lia. lia.
Qed.

Lemma utf8_length_take data : utf8_length (take (utf8_length data) data) = utf8_length data.
Proof.
  induction data as [data IH] using utf8_ind. pose proof (utf8_length_le data) as Hl. rewrite (utf8_length_step data) in *.
  destruct (char_length data) as [|n] eqn:E; [done|]. specialize (IH ltac:(done)). set (m := utf8_length (drop (S n) data)) in *.
  rewrite utf8_length_step. rewrite (char_length_take _ (drop (S n + m) data)); rewrite take_drop, E.
  - rewrite <- IH at 2. do 2 f_equal. by rewrite take_drop_commute.
  - rewrite length_take. lia.
Qed.

Lemma utf8_tail_range c tail : utf8_tail c = Some tail → ¬ 128 ≤ c ≤ 191 ∧ Forall (λ r, 128 ≤ r.1 ∧ r.2 ≤ 191) tail.
Proof.
  unfold utf8_tail, in_range. cbn [fst snd]. intros E.
  repeat (case_match; [injection E as <-; to_prop; split; [lia|repeat constructor; cbn; lia]|]). done.
Qed.

Lemma tail_matches_bytes tail data : tail_matches tail data = true → Forall (λ r, 128 ≤ r.1 ∧ r.2 ≤ 191) tail →
  ∀ n, (n < length tail)%nat → char_length (drop n data) = O.
Proof.
  revert data. induction tail as [|r tail IH]; intros [|c data]; cbn [length tail_matches]; try lia; try done.
  intros [Hr E]%andb_true_iff [H Ht]%Forall_cons [|n] Hn; [|cbn [drop]; apply IH; try done; lia].
  rewrite drop_0. cbn [char_length]. destruct (utf8_tail c) eqn:Et; [|done]. apply utf8_tail_range in Et as [Et _].
  unfold in_range in Hr. to_prop. lia.
Qed.

Lemma utf8_length_none data : char_length data = O → utf8_length data = O.
Proof. intros E. by rewrite utf8_length_step, E. Qed.

Lemma utf8_length_cut a b : utf8_length (a ++ b) = length (a ++ b) →
  ∀ n, (utf8_length a + n < length a)%nat → utf8_length (drop (utf8_length a + n) a) = O.
Proof.
  induction a as [a IH] using utf8_ind. intros Hv n. rewrite (utf8_length_step a).
  destruct (char_length a) as [|m] eqn:E.
  - cbn [Nat.add]. intros Hn. destruct a as [|c a]; [cbn in Hn; lia|]. destruct n as [|n]; [by apply utf8_length_none|].
    rewrite utf8_length_step in Hv. cbn [app char_length] in Hv, E.
    destruct (utf8_tail c) as [tail|] eqn:Et; [|cbn in Hv; lia].
    destruct (tail_matches tail (a ++ b)) eqn:Em; [|cbn in Hv; lia].
    destruct (decide (length tail ≤ length a)%nat) as [Hl|Hl]; [by rewrite (tail_matches_take _ _ _ Em Hl) in E|].
    cbn [drop length] in *. apply utf8_length_none.
    pose proof (tail_matches_bytes tail (a ++ b) Em (proj2 (utf8_tail_range c tail Et)) n ltac:(lia)) as Hz.
    rewrite drop_app_le in Hz by lia. destruct (decide (char_length (drop n a) = O)) as [|Hne]; [done|].
    by rewrite <- (char_length_app _ b Hne), Hz in Hne.
  - intros Hn. pose proof (char_length_le a) as Hc. specialize (IH ltac:(done)).
    replace (S m + utf8_length (drop (S m) a) + n)%nat with (S m + (utf8_length (drop (S m) a) + n))%nat by lia.
    rewrite <- drop_drop. apply IH; [|rewrite length_drop; lia].
    rewrite <- drop_app_le by lia. rewrite utf8_length_step, char_length_app, E in Hv by congruence.
    rewrite !length_drop in *. rewrite length_app in *. lia.
Qed.

#[export] Program Instance rfc3629 : Utf8 := {| valid_length := utf8_length |}.
Next Obligation. exact utf8_length_le. Qed.
Next Obligation. exact utf8_length_take. Qed.
Next Obligation. exact utf8_length_app. Qed.
Next Obligation. reflexivity. Qed.
Next Obligation. exact utf8_length_cut. Qed.
