(* ===== verification/Base64.v ===== *)
(** * Base64: [src/common/cockpitbase64.c]

    [cockpit_base64_pton] decodes by a four-state automaton that writes into a
    caller's buffer, [cockpit_base64_ntop] encodes three bytes at a time.  Both
    are modelled with the buffer accesses of the code; an access outside the
    buffer, a failed [assert] and [abort] are [Fault].  The theorems show that
    neither ever faults, that decoding inverts encoding, and what the decoder
    accepts after the padding. *)

From S2P Require Import Prelude.

Definition Base64 : list Z :=
  bs "ABCDEFGHIJKLMNOPQRSTUVWXYZabcdefghijklmnopqrstuvwxyz0123456789+/".

Definition Pad64 : Z := 61.

(** [cockpit_base64_size (len)] of cockpitbase64.h *)
Definition cockpit_base64_size (len : Z) : Z := len * 4 / 3 + 9.

(** ** Decoding *)

(** The locals of the decoder: the target (possibly [NULL]), the index of the
    byte being assembled and the position in the group of four. *)
Record pton_st := PtonSt {
  pt_target : option (list Z);
  pt_tarindex : Z;
  pt_state : Z
}.

(** The macro [next_char]: NUL at the end of the input. *)
Definition next_char (src : list Z) : Z * list Z :=
  match src with [] => (0, []) | c :: src' => (c, src') end.

(** [target[i] |= v] *)
Definition buf_or (buf : list Z) (i v : Z) : comp unit (list Z) :=
  x ← buf_get buf i; buf_set buf i (u8 (Z.lor x v)).

(** The [switch (state)] of the decoding loop for the 6-bit value [p]. *)
Definition pton_step (targsize p : Z) (st : pton_st) : comp unit pton_st :=
  let i := pt_tarindex st in
  let with_target (need : Z) (f : list Z → comp unit (list Z)) :=
    match pt_target st with
    | None => Ok None
    | Some buf => _ ← cfail_if (need >=? targsize) tt; buf' ← f buf; Ok (Some buf')
    end in
  if pt_state st =? 0 then
    t ← with_target i (λ buf, buf_set buf i (u8 (Z.shiftl p 2)));
    Ok (PtonSt t i 1)
  else if pt_state st =? 1 then
    t ← with_target (i + 1) (λ buf,
          buf1 ← buf_or buf i (Z.shiftr p 4);
          buf_set buf1 (i + 1) (u8 (Z.shiftl (Z.land p 15) 4)));
    Ok (PtonSt t (i + 1) 2)
  else if pt_state st =? 2 then
    t ← with_target (i + 1) (λ buf,
          buf1 ← buf_or buf i (Z.shiftr p 2);
          buf_set buf1 (i + 1) (u8 (Z.shiftl (Z.land p 3) 6)));
    Ok (PtonSt t (i + 1) 3)
  else if pt_state st =? 3 then
    t ← with_target i (λ buf, buf_or buf i p);
    Ok (PtonSt t (i + 1) 0)
  else Fault.

(** The [while] loop: the character that ended it, what follows it, and the
    locals. *)
Fixpoint pton_loop (targsize : Z) (src : list Z) (st : pton_st)
    : comp unit (Z * list Z * pton_st) :=
  match src with
  | [] => Ok (0, [], st)
  | ch :: src' =>
      if ch =? 0 then Ok (ch, src', st)
      else if isspace ch then pton_loop targsize src' st
      else if ch =? Pad64 then Ok (ch, src', st)
      else match strchr Base64 ch with
           | None => Err tt
           | Some p => st' ← pton_step targsize p st; pton_loop targsize src' st'
           end
  end.

(** [for (; ch != '\0'; ch = next_char) if (!isspace (ch)) break;] *)
Fixpoint skip_spaces (ch : Z) (src : list Z) : Z * list Z :=
  if ch =? 0 then (ch, src)
  else if negb (isspace ch) then (ch, src)
  else match src with [] => (0, []) | c :: src' => skip_spaces c src' end.

(** [for (; src != end; ch = next_char) if (!isspace (ch)) return -1;] *)
Fixpoint trailing_spaces (ch : Z) (src : list Z) : bool :=
  match src with
  | [] => true
  | c :: src' => if negb (isspace ch) then false else trailing_spaces c src'
  end.

(** The case of two data bytes, into which the case of one falls through. *)
Definition pton_last (ch : Z) (src : list Z) (st : pton_st) : comp unit unit :=
  _ ← cfail_if (negb (trailing_spaces ch src)) tt;
  match pt_target st with
  | None => Ok tt
  | Some buf => x ← buf_get buf (pt_tarindex st); cfail_if (negb (x =? 0)) tt
  end.

(** What follows the loop. *)
Definition pton_finish (ch : Z) (src : list Z) (st : pton_st) : comp unit unit :=
  if ch =? Pad64 then
    let '(ch, src) := next_char src in
    if (pt_state st =? 0) || (pt_state st =? 1) then Err tt
    else if pt_state st =? 2 then
      let '(ch, src) := skip_spaces ch src in
      _ ← cfail_if (negb (ch =? Pad64)) tt;
      let '(ch, src) := next_char src in
      pton_last ch src st
    else if pt_state st =? 3 then pton_last ch src st
    else Ok tt
  else cfail_if (negb (pt_state st =? 0)) tt.

(** Returns the number of bytes decoded and the target after the call; [Err] is
    the status -1. *)
Definition cockpit_base64_pton (src : list Z) (target : option (list Z)) (targsize : Z)
    : comp unit (Z * option (list Z)) :=
  r ← pton_loop targsize src (PtonSt target 0 0);
  let '(ch, rest, st) := r in
  _ ← pton_finish ch rest st;
  Ok (pt_tarindex st, pt_target st).

(** ** Encoding *)

(** The four output indices of a group of one to three bytes; 255 stands for
    padding. *)
Definition ntop_group (input : list Z) : list Z :=
  let a := default 0 (input !! 0%nat) in
  let b := default 0 (input !! 1%nat) in
  let c := default 0 (input !! 2%nat) in
  [ Z.shiftr a 2;
    Z.shiftl (Z.land a 3) 4 + Z.shiftr b 4;
    if zlen input =? 1 then 255 else Z.shiftl (Z.land b 15) 2 + Z.shiftr c 6;
    if zlen input <? 3 then 255 else Z.land c 63 ].

(** [for (i = 0; i < 4; i++)]: the asserts, then one character. *)
Fixpoint ntop_emit (targsize : Z) (output : list Z) (target : list Z) (len : Z)
    : comp unit (list Z * Z) :=
  match output with
  | [] => Ok (target, len)
  | o :: output' =>
      _ ← cassert ((o =? 255) || (o <? 64));
      _ ← cassert (len + 1 <? targsize);
      c ← (if o =? 255 then Ok Pad64 else buf_get Base64 o);
      target' ← buf_set target len c;
      ntop_emit targsize output' target' (len + 1)
  end.

(** [while (srclength > 0)] *)
Fixpoint ntop_loop (targsize : Z) (src : list Z) (target : list Z) (len : Z)
    : comp unit (list Z * Z) :=
  match src with
  | [] => Ok (target, len)
  | a :: b :: c :: src' =>
      r ← ntop_emit targsize (ntop_group [a; b; c]) target len;
      ntop_loop targsize src' r.1 r.2
  | _ => ntop_emit targsize (ntop_group src) target len
  end.

(** Returns the length without the NUL, and the target. *)
Definition cockpit_base64_ntop (src : list Z) (target : list Z) (targsize : Z)
    : comp unit (Z * list Z) :=
  r ← ntop_loop targsize src target 0;
  _ ← cassert (r.2 <? targsize);
  target' ← buf_set r.1 r.2 0;
  Ok (r.2, target').

(** ** Reference encoding *)

Definition b64c (o : Z) : Z :=
  if o =? 255 then Pad64 else default 0 (Base64 !! Z.to_nat o).

Fixpoint encode (src : list Z) : list Z :=
  match src with
  | [] => []
  | a :: b :: c :: src' => (b64c <$> ntop_group [a; b; c]) ++ encode src'
  | _ => b64c <$> ntop_group src
  end.

(** Induction on a list by threes. *)
Lemma list_ind3 {A} (P : list A → Prop) :
  P [] → (∀ a, P [a]) → (∀ a b, P [a; b]) →
  (∀ a b c l, P l → P (a :: b :: c :: l)) → ∀ l, P l.
Proof.
  intros H0 H1 H2 H3 l. induction l as [l IH] using (induction_ltof1 _ length).
  destruct l as [|a [|b [|c l]]]; [done..|].
  apply H3, IH. unfold ltof. cbn. lia.
Qed.

Lemma ntop_group_range input :
  Forall is_byte input → (1 ≤ length input ≤ 3)%nat →
  Forall (λ o, o = 255 ∨ 0 ≤ o < 64) (ntop_group input).
Proof.
  intros Hb Hl.
  assert (Hd : ∀ i, is_byte (default 0 (input !! i))).
  { intros i. destruct (input !! i) eqn:E; cbn; [|by unfold is_byte].
    by eapply Forall_lookup_1 in E. }
  assert (Ha := Hd 0%nat). assert (Hb' := Hd 1%nat). assert (Hc := Hd 2%nat).
  unfold ntop_group.
  generalize (default 0 (input !! 0%nat)) (default 0 (input !! 1%nat)) (default 0 (input !! 2%nat)) Ha Hb' Hc. clear. intros a b c Ha Hb Hc.
  unfold is_byte in *.
  change 3 with (Z.ones 2). change 15 with (Z.ones 4). change 63 with (Z.ones 6).
  rewrite !Z.land_ones, !Z.shiftl_mul_pow2, !Z.shiftr_div_pow2 by lia.
  change (2 ^ 2) with 4. change (2 ^ 4) with 16. change (2 ^ 6) with 64.
  repeat apply Forall_cons_2; [right; lia|right; lia| | |constructor];
    (case_match; [by left|right; lia]).
Qed.

Lemma b64c_64 o : 0 ≤ o < 64 → buf_get (E := unit) Base64 o = Ok (b64c o).
Proof.
  intros Ho. unfold b64c. destruct (o =? 255) eqn:E; to_prop; [lia|].
  unfold buf_get. rewrite decide_True by lia.
  destruct (Base64 !! Z.to_nat o) eqn:El; [done|].
  apply lookup_ge_None in El. cbn in El. lia.
Qed.

Lemma ntop_emit_ok ts out l old r :
  Forall (λ o, o = 255 ∨ 0 ≤ o < 64) out → length old = length out →
  zlen (l ++ old) < ts →
  ntop_emit ts out (l ++ old ++ r) (zlen l)
  = Ok ((l ++ (b64c <$> out)) ++ r, zlen (l ++ (b64c <$> out))).
Proof.
  intros Hout. revert l old.
  induction Hout as [|o out Ho _ IH]; intros l old Hlen Hts.
  { destruct old; [|done]. cbn. by rewrite !app_nil_r. }
  destruct old as [|x old]; [done|]. cbn in Hlen. cbn [ntop_emit].
  assert (Ho1 : ((o =? 255) || (o <? 64)) = true) by
    (apply orb_true_iff; destruct Ho; [left; by apply Z.eqb_eq|right; apply Z.ltb_lt; lia]).
  rewrite Ho1. cbn [cassert mbind comp_bind].
  assert (Hl1 : zlen l + 1 <? ts = true) by
    (apply Z.ltb_lt; revert Hts; autorewrite with zlen; pose proof (zlen_nonneg old); lia).
  rewrite Hl1. cbn [cassert mbind comp_bind].
  assert (Hc : (if o =? 255 then Ok Pad64 else buf_get Base64 o) = Ok (E := unit) (b64c o)).
  { destruct (o =? 255) eqn:E; [unfold b64c; by rewrite E|]. to_prop.
    apply b64c_64. lia. }
  rewrite Hc. cbn [mbind comp_bind app]. rewrite buf_set_app. cbn [mbind comp_bind].
  specialize (IH (l ++ [b64c o]) old).
  rewrite <- !app_assoc in IH. cbn [app] in IH.
  replace (zlen l + 1) with (zlen (l ++ [b64c o])) by zlen_solve.
  rewrite IH; [|lia|zlen_solve]. cbn [fmap list_fmap]. by rewrite <- !app_assoc.
Qed.

(** ** Encoding is the reference encoding *)

Lemma encode_length src : zlen (encode src) = 4 * ((zlen src + 2) / 3).
Proof.
  induction src as [|a|a b|a b c src IH] using list_ind3; try done.
  cbn [encode]. rewrite zlen_app, IH. autorewrite with zlen.
  replace (zlen (b64c <$> ntop_group [a; b; c])) with 4 by done.
  pose proof (zlen_nonneg src). lia.
Qed.

Lemma split_buffer {A} (n : nat) (l : list A) :
  (n ≤ length l)%nat → ∃ k r, l = k ++ r ∧ length k = n.
Proof.
  intros H. exists (take n l), (drop n l).
  by rewrite take_drop, length_take, Nat.min_l.
Qed.

Lemma ntop_loop_ok ts src l buf :
  Forall is_byte src → ts ≤ zlen (l ++ buf) → zlen (l ++ encode src) < ts →
  ntop_loop ts src (l ++ buf) (zlen l)
  = Ok ((l ++ encode src) ++ drop (length (encode src)) buf, zlen (l ++ encode src)).
Proof.
  revert l buf. induction src as [|a|a b|a b c src IH] using list_ind3;
    intros l buf Hb Hts Hlen.
  { cbn. by rewrite !app_nil_r, drop_0. }
  3: {
    change (a :: b :: c :: src) with ([a; b; c] ++ src) in Hb.
    apply Forall_app in Hb as [Hb3 Hb].
    cbn [ntop_loop encode] in *.
    assert (Hg : length (b64c <$> ntop_group [a; b; c]) = 4%nat) by done.
    destruct (split_buffer 4 buf) as (old & r & -> & Hold).
    { autorewrite with zlen in *. unfold zlen in *. lia. }
    rewrite ntop_emit_ok; [| |done|].
    2: { apply ntop_group_range; [done|cbn; lia]. }
    2: { autorewrite with zlen in *. unfold zlen in *. lia. }
    cbn [mbind comp_bind fst snd].
    rewrite IH; [| | |].
    - rewrite length_app, Hg, <- drop_drop, drop_app_length' by done.
      by rewrite !app_assoc.
    - done.
    - revert Hts. autorewrite with zlen. unfold zlen. lia.
    - by rewrite <- app_assoc. }
  all: cbn [ntop_loop encode] in *;
    destruct (split_buffer 4 buf) as (old & r & -> & Hold);
    [autorewrite with zlen in *; unfold zlen in *; cbn in *; lia|];
    (rewrite ntop_emit_ok;
      [|apply ntop_group_range; [done|cbn; lia]|done
       |autorewrite with zlen in *; unfold zlen in *; cbn in *; lia]);
    by rewrite drop_app_length'.
Qed.

Lemma ntop_spec src target targsize :
  Forall is_byte src → targsize ≤ zlen target → zlen (encode src) < targsize →
  cockpit_base64_ntop src target targsize
  = Ok (zlen (encode src),
        encode src ++ 0 :: drop (S (length (encode src))) target).
Proof.
  intros Hb Ht Hl. unfold cockpit_base64_ntop.
  pose proof (ntop_loop_ok targsize src [] target Hb Ht Hl) as Hloop.
  cbn [app] in Hloop. rewrite zlen_nil in Hloop. rewrite Hloop.
  cbn [mbind comp_bind fst snd app].
  rewrite (proj2 (Z.ltb_lt _ _) Hl). cbn [cassert mbind comp_bind].
  destruct (drop (length (encode src)) target) as [|x r] eqn:Hd.
  { exfalso. apply (f_equal length) in Hd. rewrite length_drop in Hd.
    unfold zlen in *. cbn in Hd. lia. }
  rewrite buf_set_app. cbn [mbind comp_bind].
  replace (S (length (encode src))) with (length (encode src) + 1)%nat by lia.
  by rewrite <- drop_drop, Hd.
Qed.

Lemma encode_fits src : zlen (encode src) < cockpit_base64_size (zlen src).
Proof.
  rewrite encode_length. unfold cockpit_base64_size.
  pose proof (zlen_nonneg src). lia.
Qed.

(** ** One decoding step *)

Lemma b64c_decode o :
  0 ≤ o < 64 →
  (b64c o =? 0) = false ∧ isspace (b64c o) = false ∧ (b64c o =? Pad64) = false ∧
  strchr Base64 (b64c o) = Some o.
Proof.
  intros Ho.
  assert (H := byte_check
    (λ o, negb (b64c o =? 0) && negb (isspace (b64c o)) && negb (b64c o =? Pad64)
          && bool_decide (strchr Base64 (b64c o) = Some o)) 64 eq_refl o Ho).
  cbn beta in H. rewrite !andb_true_iff, !negb_true_iff, bool_decide_eq_true in H. tauto.
Qed.

Lemma pton_loop_char ts o src st :
  0 ≤ o < 64 →
  pton_loop ts (b64c o :: src) st = (st' ← pton_step ts o st; pton_loop ts src st').
Proof.
  intros Ho. destruct (b64c_decode o Ho) as (E1 & E2 & E3 & E4).
  cbn [pton_loop]. by rewrite E1, E2, E3, E4.
Qed.

Lemma pton_step0 ts p l x r :
  zlen l < ts →
  pton_step ts p (PtonSt (Some (l ++ x :: r)) (zlen l) 0)
  = Ok (PtonSt (Some (l ++ u8 (Z.shiftl p 2) :: r)) (zlen l) 1).
Proof.
  intros H. unfold pton_step. cbn [pt_state pt_tarindex pt_target Z.eqb].
  rewrite Z.geb_leb, (proj2 (Z.leb_gt _ _) H). cbn [cfail_if mbind comp_bind].
  by rewrite buf_set_app.
Qed.

Lemma pton_step1 ts p l x y r :
  zlen l + 1 < ts →
  pton_step ts p (PtonSt (Some (l ++ x :: y :: r)) (zlen l) 1)
  = Ok (PtonSt (Some ((l ++ [u8 (Z.lor x (Z.shiftr p 4))])
                      ++ u8 (Z.shiftl (Z.land p 15) 4) :: r))
               (zlen (l ++ [u8 (Z.lor x (Z.shiftr p 4))])) 2).
Proof.
  intros H. unfold pton_step. cbn [pt_state pt_tarindex pt_target Z.eqb Pos.eqb].
  rewrite Z.geb_leb, (proj2 (Z.leb_gt _ _) H). cbn [cfail_if mbind comp_bind].
  unfold buf_or. rewrite buf_get_app. cbn [mbind comp_bind]. rewrite buf_set_app.
  cbn [mbind comp_bind].
  set (v := u8 (Z.lor x (Z.shiftr p 4))).
  replace (zlen l + 1) with (zlen (l ++ [v])) by zlen_solve.
  change (l ++ v :: y :: r) with (l ++ [v] ++ y :: r). rewrite app_assoc.
  by rewrite buf_set_app.
Qed.

Lemma pton_step2 ts p l x y r :
  zlen l + 1 < ts →
  pton_step ts p (PtonSt (Some (l ++ x :: y :: r)) (zlen l) 2)
  = Ok (PtonSt (Some ((l ++ [u8 (Z.lor x (Z.shiftr p 2))])
                      ++ u8 (Z.shiftl (Z.land p 3) 6) :: r))
               (zlen (l ++ [u8 (Z.lor x (Z.shiftr p 2))])) 3).
Proof.
  intros H. unfold pton_step. cbn [pt_state pt_tarindex pt_target Z.eqb Pos.eqb].
  rewrite Z.geb_leb, (proj2 (Z.leb_gt _ _) H). cbn [cfail_if mbind comp_bind].
  unfold buf_or. rewrite buf_get_app. cbn [mbind comp_bind]. rewrite buf_set_app.
  cbn [mbind comp_bind].
  set (v := u8 (Z.lor x (Z.shiftr p 2))).
  replace (zlen l + 1) with (zlen (l ++ [v])) by zlen_solve.
  change (l ++ v :: y :: r) with (l ++ [v] ++ y :: r). rewrite app_assoc.
  by rewrite buf_set_app.
Qed.

Lemma pton_step3 ts p l x r :
  zlen l < ts →
  pton_step ts p (PtonSt (Some (l ++ x :: r)) (zlen l) 3)
  = Ok (PtonSt (Some ((l ++ [u8 (Z.lor x p)]) ++ r)) (zlen (l ++ [u8 (Z.lor x p)])) 0).
Proof.
  intros H. unfold pton_step. cbn [pt_state pt_tarindex pt_target Z.eqb Pos.eqb].
  rewrite Z.geb_leb, (proj2 (Z.leb_gt _ _) H). cbn [cfail_if mbind comp_bind].
  unfold buf_or. rewrite buf_get_app. cbn [mbind comp_bind]. rewrite buf_set_app.
  cbn [mbind comp_bind]. rewrite <- app_assoc. f_equal. f_equal. zlen_solve.
Qed.

(** The bits of the bytes come back from the 6-bit groups. *)
Lemma group_bits1 a b :
  is_byte a → is_byte b →
  u8 (Z.lor (u8 (Z.shiftl (Z.shiftr a 2) 2))
            (Z.shiftr (Z.shiftl (Z.land a 3) 4 + Z.shiftr b 4) 4)) = a.
Proof.
  intros Ha Hb. apply Z.eqb_eq.
  assert (H := byte_check2 (λ a h,
    u8 (Z.lor (u8 (Z.shiftl (Z.shiftr a 2) 2)) (Z.shiftr (Z.shiftl (Z.land a 3) 4 + h) 4))
    =? a) 256 16 ltac:(vm_compute; reflexivity) a (Z.shiftr b 4) Ha).
  apply H. rewrite Z.shiftr_div_pow2 by lia. unfold is_byte in Hb. lia.
Qed.

Lemma group_bits2 a b c :
  is_byte a → is_byte b → is_byte c →
  u8 (Z.lor (u8 (Z.shiftl (Z.land (Z.shiftl (Z.land a 3) 4 + Z.shiftr b 4) 15) 4))
            (Z.shiftr (Z.shiftl (Z.land b 15) 2 + Z.shiftr c 6) 2)) = b.
Proof.
  intros Ha Hb Hc.
  assert (E1 : Z.land (Z.shiftl (Z.land a 3) 4 + Z.shiftr b 4) 15 = Z.shiftr b 4).
  { change 15 with (Z.ones 4). change 3 with (Z.ones 2). unfold is_byte in *.
    rewrite !Z.land_ones, Z.shiftl_mul_pow2, Z.shiftr_div_pow2 by lia.
    change (2 ^ 4) with 16. change (2 ^ 2) with 4. lia. }
  rewrite E1. apply Z.eqb_eq.
  assert (H := byte_check2 (λ b h,
    u8 (Z.lor (u8 (Z.shiftl (Z.shiftr b 4) 4)) (Z.shiftr (Z.shiftl (Z.land b 15) 2 + h) 2))
    =? b) 256 4 ltac:(vm_compute; reflexivity) b (Z.shiftr c 6) Hb).
  apply H. rewrite Z.shiftr_div_pow2 by lia. unfold is_byte in Hc. lia.
Qed.

Lemma group_bits3 b c :
  is_byte b → is_byte c →
  u8 (Z.lor (u8 (Z.shiftl (Z.land (Z.shiftl (Z.land b 15) 2 + Z.shiftr c 6) 3) 6))
            (Z.land c 63)) = c.
Proof.
  intros Hb Hc.
  assert (E1 : Z.land (Z.shiftl (Z.land b 15) 2 + Z.shiftr c 6) 3 = Z.shiftr c 6).
  { change 15 with (Z.ones 4). change 3 with (Z.ones 2). unfold is_byte in *.
    rewrite !Z.land_ones, Z.shiftl_mul_pow2, Z.shiftr_div_pow2 by lia.
    change (2 ^ 4) with 16. change (2 ^ 2) with 4. change (2 ^ 6) with 64. lia. }
  rewrite E1. apply Z.eqb_eq.
  exact (byte_check (λ c,
    u8 (Z.lor (u8 (Z.shiftl (Z.shiftr c 6) 6)) (Z.land c 63)) =? c) 256
    ltac:(vm_compute; reflexivity) c Hc).
Qed.

(** ** Round trip *)

Definition pton_run (ts : Z) (src : list Z) (st : pton_st)
    : comp unit (Z * option (list Z)) :=
  r ← pton_loop ts src st;
  let '(ch, rest, st) := r in
  _ ← pton_finish ch rest st;
  Ok (pt_tarindex st, pt_target st).

Lemma pton_run_unfold src target ts :
  cockpit_base64_pton src target ts = pton_run ts src (PtonSt target 0 0).
Proof. done. Qed.

Lemma group_index_range a b c :
  is_byte a → is_byte b → is_byte c →
  0 ≤ Z.shiftr a 2 < 64 ∧ 0 ≤ Z.shiftl (Z.land a 3) 4 + Z.shiftr b 4 < 64 ∧
  0 ≤ Z.shiftl (Z.land b 15) 2 + Z.shiftr c 6 < 64 ∧ 0 ≤ Z.land c 63 < 64.
Proof.
  unfold is_byte. intros.
  change 3 with (Z.ones 2). change 15 with (Z.ones 4). change 63 with (Z.ones 6).
  rewrite !Z.land_ones, !Z.shiftl_mul_pow2, !Z.shiftr_div_pow2 by lia.
  change (2 ^ 2) with 4. change (2 ^ 4) with 16. change (2 ^ 6) with 64. lia.
Qed.

Lemma is_byte_0 : is_byte 0.
Proof. by unfold is_byte. Qed.
#[export] Hint Resolve is_byte_0 : cockpit.

(** The first two characters of a group, as the decoder consumes them. *)
Lemma pton_run_two ts a b l x y r k :
  is_byte a → is_byte b → zlen l + 1 < ts →
  pton_run ts (b64c (Z.shiftr a 2) ::
               b64c (Z.shiftl (Z.land a 3) 4 + Z.shiftr b 4) :: k)
           (PtonSt (Some (l ++ x :: y :: r)) (zlen l) 0)
  = pton_run ts k
      (PtonSt (Some ((l ++ [a]) ++
         u8 (Z.shiftl (Z.land (Z.shiftl (Z.land a 3) 4 + Z.shiftr b 4) 15) 4) :: r))
         (zlen (l ++ [a])) 2).
Proof.
  intros Ha Hb Hl.
  destruct (group_index_range a b 0 Ha Hb is_byte_0) as (R1 & R2 & _ & _).
  unfold pton_run.
  rewrite pton_loop_char, pton_step0 by (done || lia). cbn [mbind comp_bind].
  rewrite pton_loop_char, pton_step1 by (done || lia). cbn [mbind comp_bind].
  by rewrite group_bits1.
Qed.

Lemma pton_run_third ts a b c l x r k :
  is_byte a → is_byte b → is_byte c → zlen l + 2 < ts →
  pton_run ts (b64c (Z.shiftl (Z.land b 15) 2 + Z.shiftr c 6) :: k)
    (PtonSt (Some ((l ++ [a]) ++
       u8 (Z.shiftl (Z.land (Z.shiftl (Z.land a 3) 4 + Z.shiftr b 4) 15) 4) :: x :: r))
       (zlen (l ++ [a])) 2)
  = pton_run ts k
      (PtonSt (Some (((l ++ [a]) ++ [b]) ++
         u8 (Z.shiftl (Z.land (Z.shiftl (Z.land b 15) 2 + Z.shiftr c 6) 3) 6) :: r))
         (zlen ((l ++ [a]) ++ [b])) 3).
Proof.
  intros Ha Hb Hc Hl.
  destruct (group_index_range a b c Ha Hb Hc) as (_ & _ & R3 & _).
  unfold pton_run.
  rewrite pton_loop_char, pton_step2 by (done || zlen_solve). cbn [mbind comp_bind].
  by rewrite group_bits2.
Qed.

Lemma pton_run_fourth ts b c l r k :
  is_byte b → is_byte c → zlen l < ts →
  pton_run ts (b64c (Z.land c 63) :: k)
    (PtonSt (Some (l ++
       u8 (Z.shiftl (Z.land (Z.shiftl (Z.land b 15) 2 + Z.shiftr c 6) 3) 6) :: r))
       (zlen l) 3)
  = pton_run ts k (PtonSt (Some ((l ++ [c]) ++ r)) (zlen (l ++ [c])) 0).
Proof.
  intros Hb Hc Hl.
  destruct (group_index_range 0 b c is_byte_0 Hb Hc) as (_ & _ & _ & R4).
  unfold pton_run.
  rewrite pton_loop_char, pton_step3 by done. cbn [mbind comp_bind].
  by rewrite group_bits3.
Qed.

(** The bits beyond the last byte are zero. *)
Lemma group_low4 a :
  u8 (Z.shiftl (Z.land (Z.shiftl (Z.land a 3) 4 + Z.shiftr 0 4) 15) 4) = 0.
Proof.
  change 15 with (Z.ones 4). rewrite Z.land_ones, !Z.shiftl_mul_pow2 by lia.
  rewrite Z.shiftr_0_l, Z.add_0_r, Z.mod_mul by lia. done.
Qed.

Lemma group_low2 b :
  u8 (Z.shiftl (Z.land (Z.shiftl (Z.land b 15) 2 + Z.shiftr 0 6) 3) 6) = 0.
Proof.
  change 3 with (Z.ones 2). rewrite Z.land_ones, !Z.shiftl_mul_pow2 by lia.
  rewrite Z.shiftr_0_l, Z.add_0_r, Z.mod_mul by lia. done.
Qed.

Lemma pton_run_encode ts src k l buf :
  Forall is_byte src → ts ≤ zlen (l ++ buf) → zlen l + zlen src < ts →
  k = [] ∨ (zlen src mod 3 ≠ 0 ∧ ∃ c, k = [c]) →
  ∃ rest,
    pton_run ts (encode src ++ k) (PtonSt (Some (l ++ buf)) (zlen l) 0)
    = Ok (zlen (l ++ src), Some ((l ++ src) ++ rest)) ∧
    zlen ((l ++ src) ++ rest) = zlen (l ++ buf).
Proof.
  revert l buf. induction src as [|a|a b|a b c src IH] using list_ind3;
    intros l buf Hb Hts Hlen Hk.
  - destruct Hk as [->|[[] _]]; [|done]. exists buf. by rewrite !app_nil_r.
  - rewrite Forall_singleton in Hb.
    destruct (split_buffer 2 buf) as (old & r & -> & Hold);
      [unfold zlen in *; rewrite length_app in *; cbn in *; lia|].
    destruct old as [|x [|y [|]]]; try done.
    exists (0 :: r). split; [|revert Hts; autorewrite with zlen; lia].
    change (encode [a]) with [b64c (Z.shiftr a 2);
      b64c (Z.shiftl (Z.land a 3) 4 + Z.shiftr 0 4); Pad64; Pad64].
    cbn [app]. rewrite (pton_run_two ts a 0); [|done|auto with cockpit|].
    2: { revert Hlen. autorewrite with zlen. lia. }
    rewrite group_low4. by destruct Hk as [->|[_ [c ->]]];
      unfold pton_run; cbn; rewrite buf_get_app.
  - apply Forall_cons in Hb as [Ha Hb]. rewrite Forall_singleton in Hb.
    destruct (split_buffer 3 buf) as (old & r & -> & Hold);
      [unfold zlen in *; rewrite length_app in *; cbn in *; lia|].
    destruct old as [|x [|y [|z [|]]]]; try done.
    exists (0 :: r). split; [|revert Hts; autorewrite with zlen; lia].
    change (encode [a; b]) with [b64c (Z.shiftr a 2);
      b64c (Z.shiftl (Z.land a 3) 4 + Z.shiftr b 4);
      b64c (Z.shiftl (Z.land b 15) 2 + Z.shiftr 0 6); Pad64].
    cbn [app]. rewrite (pton_run_two ts a b); [|done|done|].
    2: { revert Hlen. autorewrite with zlen. lia. }
    rewrite (pton_run_third ts a b 0); [|done|done|auto with cockpit|].
    2: { revert Hlen. autorewrite with zlen. lia. }
    rewrite group_low2, <- (app_assoc l [a] [b]). cbn [app].
    by destruct Hk as [->|[_ [c ->]]]; unfold pton_run; cbn; rewrite buf_get_app.
  - change (a :: b :: c :: src) with ([a; b; c] ++ src) in Hb.
    apply Forall_app in Hb as [Hb3 Hb].
    apply Forall_cons in Hb3 as [Ha Hb3]. apply Forall_cons in Hb3 as [Hb' Hb3].
    rewrite Forall_singleton in Hb3.
    destruct (split_buffer 3 buf) as (old & r & -> & Hold);
      [unfold zlen in *; rewrite length_app in *; cbn in *; lia|].
    destruct old as [|x [|y [|z [|]]]]; try done.
    change (encode (a :: b :: c :: src)) with (b64c (Z.shiftr a 2) ::
      b64c (Z.shiftl (Z.land a 3) 4 + Z.shiftr b 4) ::
      b64c (Z.shiftl (Z.land b 15) 2 + Z.shiftr c 6) :: b64c (Z.land c 63) :: encode src).
    cbn [app]. rewrite (pton_run_two ts a b); [|done|done|].
    2: { revert Hlen. autorewrite with zlen. pose proof (zlen_nonneg src). lia. }
    rewrite (pton_run_third ts a b c); [|done|done|done|].
    2: { revert Hlen. autorewrite with zlen. pose proof (zlen_nonneg src). lia. }
    rewrite pton_run_fourth; [|done|done|].
    2: { revert Hlen. autorewrite with zlen. pose proof (zlen_nonneg src). lia. }
    destruct (IH (l ++ [a; b; c]) r) as (rest & Hrest & Hlen').
    + done.
    + revert Hts. autorewrite with zlen. lia.
    + revert Hlen. autorewrite with zlen. lia.
    + revert Hk. rewrite !zlen_cons. intros [?|[H ?]]; [by left|right; split; [|done]].
      intros E. apply H. rewrite !Z.add_assoc. change (1 + 1 + 1) with (1 * 3).
      by rewrite Z.add_comm, Z.mod_add.
    + exists rest. split; [|revert Hlen'; autorewrite with zlen; lia].
      repeat rewrite <- app_assoc in Hrest. repeat rewrite <- app_assoc.
      by cbn [app] in *.
Qed.

(** The contents of the encoder's buffer up to its NUL decode to the input. *)
Lemma pton_encode src k target targsize :
  Forall is_byte src → targsize ≤ zlen target → zlen src < targsize →
  k = [] ∨ (zlen src mod 3 ≠ 0 ∧ ∃ c, k = [c]) →
  ∃ rest, cockpit_base64_pton (encode src ++ k) (Some target) targsize
          = Ok (zlen src, Some (src ++ rest)) ∧ zlen (src ++ rest) = zlen target.
Proof.
  intros Hb Ht Hl Hk.
  destruct (pton_run_encode targsize src k [] target Hb Ht) as (rest & Hr & Hlen); [done..|].
  exists rest. split; [exact Hr|exact Hlen].
Qed.

(** ** Memory safety of the decoder *)

Definition pton_inv (m : option Z) (ts : Z) (st : pton_st) : Prop :=
  0 ≤ pt_state st ≤ 3 ∧ zlen <$> pt_target st = m ∧
  match pt_target st with
  | None => True
  | Some buf => ts ≤ zlen buf ∧ 0 ≤ pt_tarindex st ≤ ts ∧
                (pt_state st ≠ 0 → pt_tarindex st < ts)
  end.

Lemma buf_get_in {E} buf i : 0 ≤ i < zlen buf → ∃ v, buf_get (E := E) buf i = Ok v.
Proof.
  intros H. unfold buf_get. rewrite decide_True by lia.
  destruct (lookup_lt_is_Some_2 buf (Z.to_nat i)) as [v Hv]; [unfold zlen in *; lia|].
  exists v. by rewrite Hv.
Qed.

Lemma buf_or_Ok buf i v :
  0 ≤ i < zlen buf → ∃ buf', buf_or buf i v = Ok buf' ∧ zlen buf' = zlen buf.
Proof.
  intros H. unfold buf_or. destruct (buf_get_in (E := unit) buf i H) as [x ->].
  cbn. rewrite buf_set_Ok by done. eexists. split; [done|apply zlen_insert].
Qed.

Lemma pton_step_inv n ts p st :
  pton_inv n ts st →
  safe (pton_step ts p st) ∧ ∀ st', pton_step ts p st = Ok st' → pton_inv n ts st'.
Proof.
  destruct st as [t i s]. intros (Hs & <- & Ht). cbn in *. unfold pton_step. cbn.
  assert (s = 0 ∨ s = 1 ∨ s = 2 ∨ s = 3) as [->|[->|[->| ->]]] by lia; cbn;
    (destruct t as [buf|]; cbn; [|split; [done|by intros ? [= <-]; unfold pton_inv; cbn]]);
    (destruct Ht as (Hts & Hi & Hlt));
    (match goal with |- context [cfail_if (?n >=? ?m)] => destruct (n >=? m) eqn:E end;
      [done|]); to_prop; cbn.
  - rewrite buf_set_Ok by lia. cbn. split; [done|]. intros ? [= <-].
    unfold pton_inv; cbn. rewrite zlen_insert. split_and!; congruence || lia.
  - destruct (buf_or_Ok buf i (Z.shiftr p 4)) as (b1 & -> & Hb1); [lia|]. cbn.
    rewrite buf_set_Ok by lia. cbn. split; [done|]. intros ? [= <-].
    unfold pton_inv; cbn. rewrite zlen_insert. split_and!; congruence || lia.
  - destruct (buf_or_Ok buf i (Z.shiftr p 2)) as (b1 & -> & Hb1); [lia|]. cbn.
    rewrite buf_set_Ok by lia. cbn. split; [done|]. intros ? [= <-].
    unfold pton_inv; cbn. rewrite zlen_insert. split_and!; congruence || lia.
  - destruct (buf_or_Ok buf i p) as (b1 & -> & Hb1); [lia|]. cbn.
    split; [done|]. intros ? [= <-]. unfold pton_inv; cbn. split_and!; congruence || lia.
Qed.

Lemma pton_loop_inv n ts src st :
  pton_inv n ts st →
  safe (pton_loop ts src st) ∧
  ∀ ch rest st', pton_loop ts src st = Ok (ch, rest, st') → pton_inv n ts st'.
Proof.
  revert st. induction src as [|c src IH]; intros st Hinv; cbn [pton_loop].
  { split; [done|]. by intros ??? [= <- <- <-]. }
  destruct (c =? 0); [split; [done|by intros ??? [= <- <- <-]]|].
  destruct (isspace c); [by apply IH|].
  destruct (c =? Pad64); [split; [done|by intros ??? [= <- <- <-]]|].
  destruct (strchr Base64 c) as [p|]; [|done].
  destruct (pton_step_inv n ts p st Hinv) as [Hsafe Hst].
  destruct (pton_step ts p st) as [st'| |]; cbn; [|done|done].
  by apply IH, Hst.
Qed.

Lemma pton_last_safe n ts ch src st :
  pton_inv n ts st → pt_state st ≠ 0 → safe (pton_last ch src st).
Proof.
  intros (_ & _ & Hi) Hs. unfold pton_last. apply safe_bind; [auto with cockpit|]. intros _ _.
  destruct (pt_target st) as [buf|]; [|done]. destruct Hi as (Hts & Hi & Hlt).
  destruct (buf_get_in (E := unit) buf (pt_tarindex st)) as [x ->]; [specialize (Hlt Hs); lia|].
  cbn. auto with cockpit.
Qed.

Lemma pton_finish_safe n ts ch src st : pton_inv n ts st → safe (pton_finish ch src st).
Proof.
  intros Hinv. unfold pton_finish.
  destruct (ch =? Pad64); [|auto with cockpit].
  destruct (next_char src) as [c1 s1].
  destruct ((pt_state st =? 0) || (pt_state st =? 1)) eqn:E; [done|]. to_prop.
  destruct (pt_state st =? 2).
  - destruct (skip_spaces c1 s1) as [c2 s2]. apply safe_bind; [auto with cockpit|].
    intros _ _. destruct (next_char s2). by eapply pton_last_safe.
  - destruct (pt_state st =? 3); [|done]. by eapply pton_last_safe.
Qed.

Lemma pton_safe_bounds src target ts :
  0 ≤ ts → (∀ buf, target = Some buf → ts ≤ zlen buf) →
  safe (cockpit_base64_pton src target ts) ∧
  ∀ n target', cockpit_base64_pton src target ts = Ok (n, target') →
    zlen <$> target' = zlen <$> target ∧ (is_Some target → 0 ≤ n ≤ ts).
Proof.
  intros Hts Ht.
  assert (Hinv : pton_inv (zlen <$> target) ts (PtonSt target 0 0)).
  { split_and!; [cbn; lia..|done|]. destruct target as [buf|]; cbn; [|done].
    specialize (Ht buf eq_refl). lia. }
  destruct (pton_loop_inv _ ts src _ Hinv) as [Hs Hl]. unfold cockpit_base64_pton.
  destruct (pton_loop ts src _) as [[[ch rest] st]| |]; cbn; [|done|done].
  specialize (Hl _ _ _ eq_refl). assert (Hf := pton_finish_safe _ _ ch rest _ Hl).
  destruct (pton_finish ch rest st); cbn; [|done|done]. split; [done|].
  intros n target' [= <- <-]. destruct Hl as (_ & Hl & Hi). split; [done|].
  intros [buf ->]. destruct (pt_target st); [lia|done].
Qed.

(** ** Properties *)

(** Decoding inverts encoding.  Encoding any bytes into a buffer of
    [cockpit_base64_size] never trips an assert; the characters it leaves before
    the NUL decode, in any target with one byte to spare, to exactly the input. *)
Theorem base64_roundtrip src cbuf target targsize :
  Forall is_byte src →
  zlen cbuf = cockpit_base64_size (zlen src) →
  targsize ≤ zlen target → zlen src < targsize →
  ∃ len cbuf' rest,
    cockpit_base64_ntop src cbuf (cockpit_base64_size (zlen src)) = Ok (len, cbuf') ∧
    cbuf' !! Z.to_nat len = Some 0 ∧
    cockpit_base64_pton (take (Z.to_nat len) cbuf') (Some target) targsize
    = Ok (zlen src, Some (src ++ rest)).
Proof.
  intros Hb Hc Ht Hl.
  destruct (pton_encode src [] target targsize) as (rest & Hrest & _); [by auto..|].
  eexists _, _, rest. split; [apply ntop_spec; [done|lia|apply encode_fits]|].
  unfold zlen. rewrite Nat2Z.id, take_app_length, list_lookup_middle by done.
  split; [done|]. by rewrite app_nil_r in Hrest.
Qed.

Example base64_roundtrip_witness :
  ∃ len cbuf' rest,
    cockpit_base64_ntop [0; 255; 65; 10] (replicate 14 1) (cockpit_base64_size 4)
      = Ok (len, cbuf') ∧
    cbuf' !! Z.to_nat len = Some 0 ∧
    cockpit_base64_pton (take (Z.to_nat len) cbuf') (Some (replicate 5 9)) 5
    = Ok (4, Some ([0; 255; 65; 10] ++ rest)).
Proof.
  apply (base64_roundtrip [0; 255; 65; 10] (replicate 14 1) (replicate 5 9) 5);
    [by repeat constructor|reflexivity..].
Defined.

(** The decoder is memory safe on every input.  It never reads or writes
    outside a target at least as large as it is told, never reaches [abort], and on
    success reports a length within the size it was told. *)
Theorem base64_pton_safe src target targsize :
  0 ≤ targsize → (∀ buf, target = Some buf → targsize ≤ zlen buf) →
  safe (cockpit_base64_pton src target targsize) ∧
  ∀ n buf buf', target = Some buf →
    cockpit_base64_pton src target targsize = Ok (n, Some buf') →
    0 ≤ n ≤ targsize ∧ zlen buf' = zlen buf.
Proof.
  intros Hts Ht. destruct (pton_safe_bounds src target targsize Hts Ht) as [Hs Hr].
  split; [done|]. intros n buf buf' -> H.
  destruct (Hr n (Some buf') H) as [[= Hl] Hn]. by split; [apply Hn|].
Qed.

Example base64_pton_safe_witness :
  safe (cockpit_base64_pton (bs "SGVsbG8=") (Some (replicate 3 0)) 3).
Proof.
  apply (base64_pton_safe (bs "SGVsbG8=") (Some (replicate 3 0)) 3); [done|].
  by intros buf [= <-].
Defined.

(** One arbitrary character after the padding goes unnoticed: the trailing
    loop tests [src != end] before it looks at the character already fetched, so a
    padded encoding followed by any one byte still decodes to the same data. *)
Theorem base64_trailing_accepted src c target targsize :
  Forall is_byte src → zlen src mod 3 ≠ 0 →
  targsize ≤ zlen target → zlen src < targsize →
  ∃ rest, cockpit_base64_pton (encode src ++ [c]) (Some target) targsize
          = Ok (zlen src, Some (src ++ rest)).
Proof.
  intros. destruct (pton_encode src [c] target targsize) as (rest & ? & _); eauto.
Qed.

Example base64_trailing_accepted_witness :
  ∃ rest, cockpit_base64_pton (bs "YQ==!") (Some [0; 0]) 2
          = Ok (1, Some (bs "a" ++ rest)).
Proof.
  apply (base64_trailing_accepted (bs "a") 33 [0; 0] 2);
    [by repeat constructor|done|done|done].
Defined.
