(* ===== verification/Hex.v ===== *)
(** * Hexadecimal: [src/common/cockpithex.c]

    Encoding to and decoding from lower-case hexadecimal, with the buffer reads of
    the code.  A negative length means that the argument is a C string.  The
    theorem shows that the two functions are inverse bijections between byte
    strings and the strings of digits the decoder accepts. *)

From S2P Require Import Prelude.

Definition HEX : list Z := bs "0123456789abcdef".

(** The [for] loop over [n] input bytes from index [i]. *)
Fixpoint hex_encode_loop (n : nat) (i : Z) (data : list Z) : comp unit (list Z) :=
  match n with
  | O => Ok []
  | S n' =>
      b ← buf_get data i;
      hi ← buf_get HEX (Z.shiftr b 4);
      lo ← buf_get HEX (Z.land b 15);
      rest ← hex_encode_loop n' (i + 1) data;
      Ok (hi :: lo :: rest)
  end.

(** The characters of the string returned, without its NUL. *)
Definition cockpit_hex_encode (data : list Z) (length : Z) : comp unit (list Z) :=
  let length := if length <? 0 then zlen (cstr data) else length in
  hex_encode_loop (Z.to_nat length) 0 data.

(** The loop over [n] output bytes from index [i]; [Err] is a [NULL] result.  The
    terminating NUL of [HEX] is a character [strchr] finds, at offset 16. *)
Fixpoint hex_decode_loop (n : nat) (i : Z) (hex : list Z) : comp unit (list Z) :=
  match n with
  | O => Ok []
  | S n' =>
      h ← buf_get hex (i * 2);
      l ← buf_get hex (i * 2 + 1);
      match strchr HEX h, strchr HEX l with
      | Some hpos, Some lpos =>
          rest ← hex_decode_loop n' (i + 1) hex;
          Ok (u8 (Z.lor (Z.shiftl hpos 4) (Z.land lpos 15)) :: rest)
      | _, _ => Err tt
      end
  end.

Definition cockpit_hex_decode (hex : list Z) (hexlen : Z) : comp unit (list Z) :=
  let hexlen := if hexlen <? 0 then zlen (cstr hex) else hexlen in
  if negb (Z.rem hexlen 2 =? 0) then Err tt
  else hex_decode_loop (Z.to_nat (hexlen / 2)) 0 hex.

(** ** Reference encoding *)

Definition hexc (o : Z) : Z := default 0 (HEX !! Z.to_nat o).

Definition hex_of (l : list Z) : list Z :=
  l ≫= λ b, [hexc (Z.shiftr b 4); hexc (Z.land b 15)].

Lemma hexc_get o : 0 ≤ o < 16 → buf_get (E := unit) HEX o = Ok (hexc o).
Proof.
  intros Ho. unfold buf_get, hexc. rewrite decide_True by lia.
  destruct (HEX !! Z.to_nat o) eqn:El; [done|].
  apply lookup_ge_None in El. cbn in El. lia.
Qed.

Lemma hexc_chr o : 0 ≤ o < 16 → strchr HEX (hexc o) = Some o ∧ hexc o ≠ 0.
Proof.
  revert o. apply (byte_dec (λ o, strchr HEX (hexc o) = Some o ∧ hexc o ≠ 0) 16).
  vm_compute. reflexivity.
Qed.

Lemma strchr_hexc c o : c ≠ 0 → strchr HEX c = Some o → 0 ≤ o < 16 ∧ hexc o = c.
Proof.
  intros Hc Hs. apply strchr_lookup in Hs as [Ho Hl]; [|done].
  split; [exact Ho|]. unfold hexc. by rewrite Hl.
Qed.

Lemma nibbles b :
  is_byte b →
  0 ≤ Z.shiftr b 4 < 16 ∧ 0 ≤ Z.land b 15 < 16 ∧
  u8 (Z.lor (Z.shiftl (Z.shiftr b 4) 4) (Z.land (Z.land b 15) 15)) = b.
Proof.
  revert b. apply (byte_dec (λ b, 0 ≤ Z.shiftr b 4 < 16 ∧ 0 ≤ Z.land b 15 < 16 ∧
    u8 (Z.lor (Z.shiftl (Z.shiftr b 4) 4) (Z.land (Z.land b 15) 15)) = b) 256).
  vm_compute. reflexivity.
Qed.

Lemma from_nibbles h l :
  0 ≤ h < 16 → 0 ≤ l < 16 →
  is_byte (u8 (Z.lor (Z.shiftl h 4) (Z.land l 15))) ∧
  Z.shiftr (u8 (Z.lor (Z.shiftl h 4) (Z.land l 15))) 4 = h ∧
  Z.land (u8 (Z.lor (Z.shiftl h 4) (Z.land l 15))) 15 = l.
Proof.
  revert h l. apply (byte_dec2 (λ h l,
    is_byte (u8 (Z.lor (Z.shiftl h 4) (Z.land l 15))) ∧
    Z.shiftr (u8 (Z.lor (Z.shiftl h 4) (Z.land l 15))) 4 = h ∧
    Z.land (u8 (Z.lor (Z.shiftl h 4) (Z.land l 15))) 15 = l) 16 16).
  vm_compute. reflexivity.
Qed.

Lemma hex_of_cons b l :
  hex_of (b :: l) = hexc (Z.shiftr b 4) :: hexc (Z.land b 15) :: hex_of l.
Proof. done. Qed.

Lemma hex_of_length l : zlen (hex_of l) = 2 * zlen l.
Proof. induction l as [|b l IH]; [done|]. rewrite hex_of_cons. zlen_solve. Qed.

Lemma hex_encode_loop_ok p l :
  Forall is_byte l → hex_encode_loop (length l) (zlen p) (p ++ l) = Ok (hex_of l).
Proof.
  intros Hl. revert p. induction Hl as [|b l Hb _ IH]; intros p; [done|].
  cbn [hex_encode_loop length]. rewrite buf_get_app. cbn.
  destruct (nibbles b Hb) as (H1 & H2 & _). rewrite !hexc_get by done. cbn.
  specialize (IH (p ++ [b])). rewrite <- app_assoc in IH. cbn in IH.
  replace (zlen p + 1) with (zlen (p ++ [b])) by zlen_solve. by rewrite IH.
Qed.

Lemma hex_decode_loop_ok p l :
  Forall is_byte l →
  hex_decode_loop (length l) (zlen p) (hex_of p ++ hex_of l) = Ok l.
Proof.
  intros Hl. revert p. induction Hl as [|b l Hb _ IH]; intros p; [done|].
  cbn [hex_decode_loop length]. rewrite hex_of_cons.
  replace (zlen p * 2) with (zlen (hex_of p)) by (rewrite hex_of_length; lia).
  rewrite buf_get_app. cbn [mbind comp_bind].
  change (hex_of p ++ ?x :: ?r) with (hex_of p ++ [x] ++ r). rewrite app_assoc.
  replace (zlen (hex_of p) + 1) with (zlen (hex_of p ++ [hexc (Z.shiftr b 4)])) by zlen_solve.
  rewrite buf_get_app. cbn [mbind comp_bind].
  destruct (nibbles b Hb) as (H1 & H2 & H3).
  destruct (hexc_chr _ H1) as [-> _]. destruct (hexc_chr _ H2) as [-> _].
  rewrite <- app_assoc. cbn [app].
  specialize (IH (p ++ [b])). unfold hex_of in IH at 1. rewrite bind_app in IH.
  fold (hex_of p) in IH. cbn in IH. rewrite <- app_assoc in IH. cbn in IH.
  replace (zlen p + 1) with (zlen (p ++ [b])) by zlen_solve.
  rewrite IH. cbn. by rewrite H3.
Qed.

(** Whatever the loop accepts is the encoding of what it returns. *)
Lemma hex_decode_loop_inv n p hex out :
  hex_decode_loop n (zlen p) (hex_of p ++ hex) = Ok out →
  Forall (λ c, c ≠ 0) hex → zlen hex = 2 * Z.of_nat n →
  hex = hex_of out ∧ Forall is_byte out.
Proof.
  revert p hex out. induction n as [|n IH]; intros p hex out; cbn [hex_decode_loop].
  { intros [= <-] _ Hlen. split; [|done]. by apply zlen_0_inv. }
  intros H Hnz Hlen.
  destruct hex as [|h [|l hex]]; [rewrite zlen_nil in Hlen; lia|
    rewrite zlen_cons, zlen_nil in Hlen; lia|].
  inversion Hnz as [|?? Hh Hnz']. inversion Hnz' as [|?? Hlo Hnz'']. subst.
  replace (zlen p * 2) with (zlen (hex_of p)) in H by (rewrite hex_of_length; lia).
  rewrite buf_get_app in H. cbn [mbind comp_bind] in H.
  change (hex_of p ++ h :: l :: hex) with (hex_of p ++ [h] ++ l :: hex) in H.
  rewrite app_assoc in H.
  replace (zlen (hex_of p) + 1) with (zlen (hex_of p ++ [h])) in H by zlen_solve.
  rewrite buf_get_app in H. cbn [mbind comp_bind] in H.
  destruct (strchr HEX h) as [hp|] eqn:Eh; [|done].
  destruct (strchr HEX l) as [lp|] eqn:El; [|done].
  apply strchr_hexc in Eh as [Rh <-]; [|done]. apply strchr_hexc in El as [Rl <-]; [|done].
  set (b := u8 (Z.lor (Z.shiftl hp 4) (Z.land lp 15))) in *.
  destruct (from_nibbles hp lp Rh Rl) as (Hb & E1 & E2). fold b in Hb, E1, E2.
  apply comp_bind_Ok in H as (rest & Hrest & [= <-]).
  destruct (IH (p ++ [b]) hex rest) as [-> Hby]; [|done|rewrite !zlen_cons in Hlen; lia|].
  - unfold hex_of at 1. rewrite bind_app. fold (hex_of p). cbn.
    rewrite <- Hrest, E1, E2, <- !app_assoc. f_equal. zlen_solve.
  - rewrite hex_of_cons, E1, E2. auto.
Qed.

(** ** Properties *)

(** Hexadecimal is a bijection.  Every byte string encodes, its encoding
    decodes back to it, and any NUL-free string the decoder accepts is the encoding
    of what it returns (so upper-case digits are rejected). *)
Theorem hex_bijection data hex out :
  Forall is_byte data → Forall (λ c, c ≠ 0) hex →
  cockpit_hex_encode data (zlen data) = Ok (hex_of data) ∧
  cockpit_hex_decode (hex_of data) (zlen (hex_of data)) = Ok data ∧
  (cockpit_hex_decode hex (zlen hex) = Ok out →
   cockpit_hex_encode out (zlen out) = Ok hex).
Proof.
  intros Hd Hh.
  assert (Henc : ∀ l, Forall is_byte l → cockpit_hex_encode l (zlen l) = Ok (hex_of l)).
  { intros l Hl. unfold cockpit_hex_encode. rewrite (proj2 (Z.ltb_ge _ _) (zlen_nonneg l)).
    unfold zlen. rewrite Nat2Z.id. exact (hex_encode_loop_ok [] l Hl). }
  split_and!.
  - by apply Henc.
  - unfold cockpit_hex_decode. rewrite (proj2 (Z.ltb_ge _ _) (zlen_nonneg _)).
    rewrite hex_of_length, Z.mul_comm, Z.rem_mul, Z.div_mul by lia. cbn.
    unfold zlen. rewrite Nat2Z.id. exact (hex_decode_loop_ok [] data Hd).
  - unfold cockpit_hex_decode. rewrite (proj2 (Z.ltb_ge _ _) (zlen_nonneg _)).
    destruct (Z.rem (zlen hex) 2 =? 0) eqn:E; [|done]. to_prop. cbn. intros H.
    rewrite Z.rem_mod_nonneg in E by (pose proof (zlen_nonneg hex); lia).
    destruct (hex_decode_loop_inv _ [] hex out H) as [-> Hb]; [done| |by apply Henc].
    pose proof (zlen_nonneg hex). lia.
Qed.

Example hex_bijection_witness :
  cockpit_hex_encode [0; 171; 255] 3 = Ok (bs "00abff") ∧
  cockpit_hex_decode (bs "00abff") 6 = Ok [0; 171; 255] ∧
  (cockpit_hex_decode (bs "10fe") 4 = Ok [16; 254] →
   cockpit_hex_encode [16; 254] 2 = Ok (bs "10fe")).
Proof.
  apply (hex_bijection [0; 171; 255] (bs "10fe") [16; 254]);
    by repeat constructor.
Defined.
