(* ===== verification/Frame.v ===== *)
(** * Message framing: [src/common/cockpitframe.c]

    The blocking reader and writer of length-prefixed frames, used by the session
    helpers.  A file descriptor is the list of bytes still to be read together with
    a schedule of what each [read] or [write] will do (short counts, [EINTR],
    errors); when the schedule is used up every call transfers all it can.  The
    theorems show that reading never faults and never consumes a byte past the
    frame, and that a frame written under any interruptions is read back under any
    others. *)

From S2P Require Import Prelude.

Definition MAX_FRAME_SIZE_BYTES : nat := 8.

(** ** Parsing the length prefix *)

(** The [for] loop: the size accumulated and the index it stopped at.  The size
    stays below 10^8, so [size_t] does not wrap. *)
Fixpoint frame_scan (input : list Z) (i : nat) (size : Z) : Z * nat :=
  match input with
  | [] => (size, i)
  | c :: input' =>
      if (MAX_FRAME_SIZE_BYTES <=? i)%nat || (c <? 48) || (c >? 57) then (size, i)
      else frame_scan input' (S i) (size * 10 + (c - 48))
  end.

(** The result, and [*consumed] where it is assigned: -1 is an error, 0 asks for
    more data. *)
Definition cockpit_frame_parse (input : list Z) : Z * option nat :=
  let '(size, i) := frame_scan input 0 0 in
  if (i =? length input)%nat then (0, None)
  else if (size =? 0) || negb (default 0 (input !! i) =? 10)
          || (default 0 (input !! 0%nat) =? 48) then (-1, None)
  else (size, Some (S i)).

(** ** Writing *)

Inductive wr_event :=
| WrSome (n : nat)    (** [write] accepts at most [n] bytes *)
| WrFail (e : errno).

Record wfd := WFd { w_out : list Z; w_sched : list wr_event }.

(** [write (fd, data, length)]: the count. *)
Definition sys_write (data : list Z) : prog wfd errno nat := λ f,
  match w_sched f with
  | [] => (Ok (length data), WFd (w_out f ++ data) [])
  | WrSome n :: s =>
      let k := Nat.min n (length data) in (Ok k, WFd (w_out f ++ take k data) s)
  | WrFail e :: s => (Err e, WFd (w_out f) s)
  end.

(** [while (length > 0)].  An iteration uses up an event or finishes; the fuel
    is never exhausted (see [write_all_ok] and [write_all_safe]). *)
Fixpoint write_all_loop (fuel : nat) (data : list Z) (written : Z) : prog wfd errno Z := λ f,
  match fuel with
  | O => (Fault, f)
  | S fuel' =>
      match data with
      | [] => (Ok written, f)
      | _ =>
          match sys_write data f with
          | (Ok res, f') => write_all_loop fuel' (drop res data) (written + Z.of_nat res) f'
          | (Err e, f') =>
              if decide (e = EAGAIN ∨ e = EINTR) then write_all_loop fuel' data written f'
              else (Err e, f')
          | (Fault, f') => (Fault, f')
          end
      end
  end.

Definition cockpit_fd_write_all (data : list Z) : prog wfd errno Z := λ f,
  write_all_loop (length (w_sched f) + 2) data 0 f.

Definition cockpit_frame_write (input : list Z) : prog wfd errno Z :=
  _ ← lift (cassert (0 <? zlen input));
  ret ← cockpit_fd_write_all (render_u32 (zlen input) ++ [10]);
  if ret >? 0 then cockpit_fd_write_all input else mret ret.

(** ** Reading *)

Inductive rd_event :=
| RdSome (n : nat)    (** [read] returns at most [S n] bytes *)
| RdFail (e : errno).

Record rfd := RFd { r_in : list Z; r_sched : list rd_event }.

(** [read (fd, buffer, req)]: the bytes stored; none at the end of the file. *)
Definition sys_read (req : nat) : prog rfd errno (list Z) := λ f,
  match r_sched f with
  | [] => (Ok (take req (r_in f)), RFd (drop req (r_in f)) [])
  | RdSome n :: s =>
      let k := Nat.min (S n) req in (Ok (take k (r_in f)), RFd (drop k (r_in f)) s)
  | RdFail e :: s => (Err e, RFd (r_in f) s)
  end.

(** [while (offset < required_size)] with [buf] the bytes read so far; the
    boolean result is [*was_eof], which only a caller that passes it may see set. *)
Fixpoint read_exactly_loop (fuel : nat) (req : nat) (has_eof : bool) (buf : list Z)
    : prog rfd errno (list Z * bool) := λ f,
  match fuel with
  | O => (Fault, f)
  | S fuel' =>
      if (length buf <? req)%nat then
        let at_eof f' :=
          if has_eof && (length buf =? 0)%nat then (Ok (buf, true), f')
          else (Err EBADMSG, f') in
        match sys_read (req - length buf) f with
        | (Ok [], f') => at_eof f'
        | (Ok got, f') => read_exactly_loop fuel' req has_eof (buf ++ got) f'
        | (Err e, f') =>
            if decide (e = EINTR) then read_exactly_loop fuel' req has_eof buf f'
            else if decide (e = ECONNRESET) then at_eof f'
            else (Err e, f')
        | (Fault, f') => (Fault, f')
        end
      else (Ok (buf, false), f)
  end.

Definition read_exactly (req : nat) (has_eof : bool) : prog rfd errno (list Z * bool) := λ f,
  read_exactly_loop (length (r_sched f) + 3) req has_eof [] f.

(** What follows the header: [malloc (size)], the copy of the bytes read with the
    header (which must fit), and the rest of the body. *)
Definition frame_body (size : Z) (header : list Z) (n_consumed : nat)
    : prog rfd errno (option (list Z)) :=
  let from_header := drop n_consumed header in
  _ ← lift (cassert (zlen from_header <=? size));
  '(rest, _) ← read_exactly (Z.to_nat (size - zlen from_header)) false;
  mret (Some (from_header ++ rest)).

(** [None] is the result 0 at the end of the file. *)
Definition cockpit_frame_read : prog rfd errno (option (list Z)) :=
  '(header, eof) ← read_exactly 3 true;
  if (eof : bool) then mret None
  else
    let '(size, consumed) := cockpit_frame_parse header in
    '(header, size, consumed) ←
      (if size =? 0 then
         '(more, _) ← read_exactly (MAX_FRAME_SIZE_BYTES + 1 - 3) false;
         let header := header ++ more in
         let '(size, consumed) := cockpit_frame_parse header in
         _ ← lift (cassert (negb (size =? 0)));
         mret (header, size, consumed)
       else mret (header, size, consumed));
    if size =? -1 then lift (Err EBADMSG)
    else frame_body size header (default 0%nat consumed).

Example frame_parse_ex : cockpit_frame_parse (bs "11" ++ [10] ++ bs "abc") = (11, Some 3%nat).
Proof. reflexivity. Qed.

Example frame_read_ex :
  cockpit_frame_read (RFd (bs "5" ++ [10] ++ bs "helloX") [RdSome 0; RdFail EINTR; RdSome 1])
  = (Ok (Some (bs "hello")), RFd (bs "X") []).
Proof. reflexivity. Qed.

(** ** The reading loop *)

Definition benign_rd (ev : rd_event) : Prop :=
  match ev with RdSome _ => True | RdFail e => e = EINTR end.

(** A read of a positive count either makes progress or is at the end. *)
Lemma sys_read_Ok req f got f' :
  sys_read req f = (Ok got, f') → (0 < req)%nat →
  r_in f = got ++ r_in f' ∧ (length got ≤ req)%nat ∧ (got = [] → r_in f = []) ∧
  ((r_sched f = [] ∧ r_sched f' = [] ∧ (length got = req ∨ r_in f' = [])) ∨
   (∃ n, r_sched f = RdSome n :: r_sched f')).
Proof.
  intros H Hreq. destruct req as [|req]; [lia|]. revert H.
  assert (Hnil : ∀ k (d : list Z), (0 < k)%nat → take k d = [] → d = []).
  { intros k d Hk H%(f_equal length). rewrite length_take in H.
    destruct d; [done|cbn [length] in H; lia]. }
  destruct f as [data [|[n|e] s]]; unfold sys_read; cbn [r_sched r_in]; [| |done];
    intros [= <- <-]; cbn [r_sched r_in]; rewrite take_drop, length_take;
    (split_and!; [done|lia|apply Hnil; lia|]).
  - left. split_and!; [done..|].
    destruct (decide (S req ≤ length data)%nat); [left; lia|right; apply drop_ge; lia].
  - right. by exists n.
Qed.

Definition fuel_ok (fuel req : nat) (buf : list Z) (f : rfd) : Prop :=
  (length (r_sched f) + 2 ≤ fuel)%nat ∨
  ((length (r_sched f) + 1 ≤ fuel)%nat ∧ (r_in f = [] ∨ (req ≤ length buf)%nat)).

Lemma read_loop_spec fuel req he buf f r f' :
  fuel_ok fuel req buf f → (length buf ≤ req)%nat →
  read_exactly_loop fuel req he buf f = (r, f') →
  r ≠ Fault ∧
  (∀ out b, r = Ok (out, b) →
     (b = false ∧ ∃ got, r_in f = got ++ r_in f' ∧ out = buf ++ got ∧ length out = req) ∨
     (b = true ∧ he = true ∧ out = [] ∧ buf = [] ∧ r_in f = r_in f')) ∧
  (Forall benign_rd (r_sched f) → (req ≤ length buf + length (r_in f))%nat →
     Forall benign_rd (r_sched f') ∧ ∃ out, r = Ok (out, false)).
Proof.
  revert buf f. induction fuel as [|fuel IH]; intros buf f Hfuel Hbuf.
  { destruct Hfuel as [|[]]; lia. }
  cbn [read_exactly_loop]. destruct (Nat.ltb_spec (length buf) req) as [Hlt|Hge].
  2: { intros [= <- <-]. split_and!; [done| |by eauto].
       intros out b [= <- <-]. left. split; [done|]. exists []. rewrite app_nil_r.
       split_and!; [done..|lia]. }
  assert (Hat : ∀ f0, r_in f = r_in f0 →
    (if he && (length buf =? 0)%nat then (Ok (buf, true), f0) else (Err EBADMSG, f0)) = (r, f') →
    r ≠ Fault ∧
    (∀ out b, r = Ok (out, b) →
     (b = false ∧ ∃ got, r_in f = got ++ r_in f' ∧ out = buf ++ got ∧ length out = req) ∨
     (b = true ∧ he = true ∧ out = [] ∧ buf = [] ∧ r_in f = r_in f'))).
  { intros f0 Hf0. destruct (he && _) eqn:E; intros [= <- <-]; [|done]. split; [done|].
    intros out b [= <- <-]. right. to_prop. destruct buf; [|done]. done. }
  destruct (sys_read (req - length buf) f) as [[got|e|] f1] eqn:Hsys; cbn [fst snd].
  - destruct (sys_read_Ok _ _ _ _ Hsys) as (Hin & Hlen & Hnil & Hs); [lia|].
    destruct got as [|g got].
    { intros Hr. destruct (Hat f1) as [H1 H2]; [done|done|].
      split_and!; [done|done|]. intros _ Hl. rewrite (Hnil eq_refl) in Hl. cbn in Hl. lia. }
    intros Hr. apply IH in Hr as (H1 & H2 & H3).
    + split_and!; [done| |].
      * intros out b Ho. destruct (H2 out b Ho) as [(-> & g2 & E1 & -> & E2)|(-> & ? & ? & E & ?)].
        -- left. split; [done|]. exists ((g :: got) ++ g2). rewrite Hin, E1, <- !app_assoc.
           by rewrite <- app_assoc in E2.
        -- by apply app_nil in E as [_ ?].
      * intros Hb Hl. apply H3.
        -- destruct Hs as [(_ & -> & _)|[n Hn]]; [done|]. rewrite Hn in Hb. by inversion Hb.
        -- rewrite Hin in Hl. rewrite length_app in Hl |- *. lia.
    + unfold fuel_ok in *. rewrite length_app.
      destruct Hs as [(E0 & E1 & Hor)|[n Hn]].
      * rewrite E0 in Hfuel. rewrite E1. cbn in *. right.
        split; [|destruct Hor; [right; lia|by left]].
        destruct Hfuel as [|[? [Hd|]]]; [lia|by rewrite Hd in Hin|lia].
      * rewrite Hn in Hfuel. cbn in Hfuel. destruct Hfuel as [|[? [Hd|]]]; [left; lia| |lia].
        by rewrite Hd in Hin.
    + rewrite length_app. lia.
  - assert (Hf1 : r_in f1 = r_in f ∧ r_sched f = RdFail e :: r_sched f1).
    { destruct f as [data [|[n|e'] s]]; cbn in Hsys; try done. by injection Hsys as -> <-. }
    destruct Hf1 as [Hin Hs].
    destruct (decide (e = EINTR)) as [->|Hne].
    + intros Hr. rewrite <- Hin. apply IH in Hr as (H1 & H2 & H3); [| |done].
      * split_and!; [done|done|]. rewrite Hs. intros Hb. apply H3. by inversion Hb.
      * unfold fuel_ok in *. rewrite Hs in Hfuel. rewrite Hin. cbn in Hfuel.
        destruct Hfuel as [|[]]; [left; lia|right; split; [lia|done]].
    + assert (Hnb : ¬ Forall benign_rd (r_sched f)) by (rewrite Hs; by inversion 1).
      destruct (decide (e = ECONNRESET)).
      * intros Hr. destruct (Hat f1) as [H1 H2]; [done|done|]. by split_and!.
      * intros [= <- <-]. by split_and!.
  - destruct f as [data [|[n|e'] s]]; cbn in Hsys; done.
Qed.

Lemma read_exactly_spec req he f r f' :
  read_exactly req he f = (r, f') →
  r ≠ Fault ∧
  (∀ out b, r = Ok (out, b) →
     (b = false ∧ r_in f = out ++ r_in f' ∧ length out = req) ∨
     (b = true ∧ he = true ∧ out = [] ∧ r_in f = r_in f')) ∧
  (Forall benign_rd (r_sched f) → (req ≤ length (r_in f))%nat →
     Forall benign_rd (r_sched f') ∧ ∃ out, r = Ok (out, false)).
Proof.
  intros H. apply read_loop_spec in H as (H1 & H2 & H3); [| |cbn; lia].
  - split_and!; [done| |done]. intros out b Ho.
    destruct (H2 out b Ho) as [(-> & got & E & -> & ?)|(-> & ? & -> & _ & ?)]; [left|right]; done.
  - unfold fuel_ok. left. lia.
Qed.

(** ** The writing loop *)

Definition benign_wr (ev : wr_event) : Prop :=
  match ev with WrSome _ => True | WrFail e => e = EAGAIN ∨ e = EINTR end.

Lemma sys_write_Ok data f n f' :
  sys_write data f = (Ok n, f') →
  w_out f' = w_out f ++ take n data ∧ (n ≤ length data)%nat ∧
  ((w_sched f = [] ∧ w_sched f' = [] ∧ n = length data) ∨
   ∃ k, w_sched f = WrSome k :: w_sched f').
Proof.
  destruct f as [out [|[k|e] s]]; unfold sys_write; cbn [w_out w_sched]; [| |done];
    intros [= <- <-]; cbn [w_out w_sched].
  - rewrite take_ge by done. split_and!; [done..|by left].
  - split_and!; [done|lia|right; by exists k].
Qed.

Lemma write_loop_spec fuel data w f r f' :
  (length (w_sched f) + 2 ≤ fuel)%nat ∨ (data = [] ∧ (1 ≤ fuel)%nat) →
  write_all_loop fuel data w f = (r, f') →
  r ≠ Fault ∧
  (∀ n, r = Ok n → w_out f' = w_out f ++ data ∧ n = w + zlen data) ∧
  (Forall benign_wr (w_sched f) → Forall benign_wr (w_sched f') ∧ ∃ n, r = Ok n).
Proof.
  revert data w f. induction fuel as [|fuel IH]; intros data w f Hfuel; [lia|].
  cbn [write_all_loop]. destruct data as [|d data].
  { intros [= <- <-]. split_and!; [done| |by eauto].
    intros n [= <-]. rewrite app_nil_r, zlen_nil. split; [done|lia]. }
  destruct Hfuel as [Hfuel|[]]; [|done].
  destruct (sys_write (d :: data) f) as [[n|e|] f1] eqn:Hsys.
  - destruct (sys_write_Ok _ _ _ _ Hsys) as (Hout & Hn & Hs). intros Hr.
    apply IH in Hr as (H1 & H2 & H3).
    + split_and!; [done| |].
      * intros m Hm. destruct (H2 m Hm) as [-> ->]. rewrite Hout, <- app_assoc, take_drop.
        split; [done|]. rewrite zlen_drop. unfold zlen. lia.
      * intros Hb. apply H3. destruct Hs as [(_ & -> & _)|[k Hk]]; [done|].
        rewrite Hk in Hb. by inversion Hb.
    + destruct Hs as [(Hs & _ & ->)|[k Hk]].
      * right. split; [by apply drop_ge|]. rewrite Hs in Hfuel. cbn in Hfuel. lia.
      * left. rewrite Hk in Hfuel. cbn in Hfuel. lia.
  - assert (Hf1 : w_out f1 = w_out f ∧ w_sched f = WrFail e :: w_sched f1).
    { destruct f as [out [|[k|e'] s]]; cbn in Hsys; try done. by injection Hsys as -> <-. }
    destruct Hf1 as [Hout Hs]. destruct (decide (e = EAGAIN ∨ e = EINTR)) as [He|He].
    + intros Hr. apply IH in Hr as (H1 & H2 & H3); [|left; rewrite Hs in Hfuel; cbn in Hfuel; lia].
      rewrite <- Hout. split_and!; [done|done|]. rewrite Hs. intros Hb. apply H3. by inversion Hb.
    + intros [= <- <-]. split_and!; [done|done|]. rewrite Hs. by inversion 1.
  - destruct f as [out [|[k|e'] s]]; cbn in Hsys; done.
Qed.

Lemma fd_write_all_spec data f r f' :
  cockpit_fd_write_all data f = (r, f') →
  r ≠ Fault ∧
  (∀ n, r = Ok n → w_out f' = w_out f ++ data ∧ n = zlen data) ∧
  (Forall benign_wr (w_sched f) → Forall benign_wr (w_sched f') ∧ ∃ n, r = Ok n).
Proof.
  intros H. apply write_loop_spec in H as (H1 & H2 & H3); [|by left].
  split_and!; [done|intros n Hn; destruct (H2 n Hn); split; [done|lia]|done].
Qed.

(** ** The length prefix *)

Lemma frame_scan_digits ds c rest i size :
  digits ds → (i + length ds ≤ 8)%nat → isdigit c = false →
  frame_scan (ds ++ c :: rest) i size
  = (foldl (λ v c, v * 10 + (c - 48)) size ds, (i + length ds)%nat).
Proof.
  intros Hd Hi Hc. revert i size Hi. induction Hd as [|d ds Hd _ IH]; intros i size Hi.
  - cbn [app frame_scan foldl length]. rewrite Nat.add_0_r.
    assert (((c <? 48) || (c >? 57)) = true) as Hn.
    { unfold isdigit in Hc. rewrite Z.gtb_ltb. apply andb_false_iff in Hc as [Hc|Hc]; to_prop.
      - by rewrite (proj2 (Z.ltb_lt _ _)).
      - by rewrite (proj2 (Z.ltb_lt 57 _)), orb_true_r. }
    by rewrite <- orb_assoc, Hn, orb_true_r.
  - cbn [app frame_scan foldl length] in *. apply isdigit_range in Hd.
    destruct (Nat.leb_spec MAX_FRAME_SIZE_BYTES i); [unfold MAX_FRAME_SIZE_BYTES in *; lia|].
    rewrite Z.gtb_ltb, !(proj2 (Z.ltb_ge _ _)) by lia. cbn.
    rewrite IH by lia. by rewrite Nat.add_succ_r.
Qed.

Lemma frame_scan_all ds i size :
  digits ds → (i + length ds ≤ 8)%nat → (frame_scan ds i size).2 = (i + length ds)%nat.
Proof.
  intros Hd. revert i size. induction Hd as [|d ds Hd _ IH]; intros i size Hi.
  - cbn. lia.
  - cbn [frame_scan length] in *. apply isdigit_range in Hd.
    destruct (Nat.leb_spec MAX_FRAME_SIZE_BYTES i); [unfold MAX_FRAME_SIZE_BYTES in *; lia|].
    rewrite Z.gtb_ltb, !(proj2 (Z.ltb_ge _ _)) by lia. cbn. rewrite IH; lia.
Qed.

Lemma frame_parse_digits ds :
  digits ds → (length ds ≤ 8)%nat → cockpit_frame_parse ds = (0, None).
Proof.
  intros Hd Hl. unfold cockpit_frame_parse.
  pose proof (frame_scan_all ds 0 0 Hd Hl) as Hs. destruct (frame_scan ds 0 0) as [v i].
  cbn in Hs. subst i. by rewrite Nat.eqb_refl.
Qed.

Lemma frame_scan_inv input i size v j :
  frame_scan input i size = (v, j) →
  ∃ ds rest, input = ds ++ rest ∧ digits ds ∧ j = (i + length ds)%nat ∧
    v = foldl (λ v c, v * 10 + (c - 48)) size ds ∧ (ds = [] ∨ (j ≤ 8)%nat).
Proof.
  revert i size. induction input as [|c input IH]; intros i size; cbn [frame_scan].
  { intros [= <- <-]. exists [], []. cbn. split_and!; auto. constructor. }
  destruct (_ || (c >? 57)) eqn:E.
  { intros [= <- <-]. exists [], (c :: input). cbn. split_and!; auto. constructor. }
  intros H. apply IH in H as (ds & rest & -> & Hd & -> & -> & Hj).
  to_prop. apply Nat.leb_gt in H. unfold MAX_FRAME_SIZE_BYTES in H.
  exists (c :: ds), rest. cbn. split_and!; [done| |lia|done|].
  - constructor; [|done]. apply isdigit_range. lia.
  - right. destruct Hj as [->|]; cbn; lia.
Qed.

Inductive parse_result (input : list Z) : Z → option nat → Prop :=
| ParseMore : digits input → (length input ≤ 8)%nat → parse_result input 0 None
| ParseError : parse_result input (-1) None
| ParseSize ds rest :
    input = ds ++ 10 :: rest → canonical ds → (length ds ≤ 8)%nat →
    parse_result input (dec_value ds) (Some (S (length ds))).

Lemma frame_parse_spec input size consumed :
  cockpit_frame_parse input = (size, consumed) → parse_result input size consumed.
Proof.
  unfold cockpit_frame_parse. destruct (frame_scan input 0 0) as [v j] eqn:Hs.
  apply frame_scan_inv in Hs as (ds & rest & -> & Hd & -> & Hv & Hj).
  fold (dec_value ds) in Hv. subst v. cbn in *.
  destruct (Nat.eqb_spec (length ds) (length (ds ++ rest))) as [E|E].
  - intros [= <- <-]. rewrite length_app in E. destruct rest; [|cbn in E; lia].
    rewrite app_nil_r. constructor; [done|]. destruct Hj as [->|]; cbn; lia.
  - destruct rest as [|c rest]; [by rewrite app_nil_r in E|].
    rewrite list_lookup_middle by done. cbn.
    destruct (_ || _) eqn:Et; intros [= <- <-]; [constructor|]. to_prop.
    assert (c = 10) as -> by lia.
    econstructor; [done| |destruct Hj as [->|]; cbn; lia]. split; [done|].
    destruct ds as [|d ds]; [done|]. exists d, ds. cbn in *. split; [done|].
    by intros ->.
Qed.

Lemma frame_parse_complete ds rest :
  canonical ds → (length ds ≤ 8)%nat →
  cockpit_frame_parse (ds ++ 10 :: rest) = (dec_value ds, Some (S (length ds))).
Proof.
  intros Hc Hl. assert (Hp := canonical_pos ds Hc). destruct Hc as (Hd & c & l & E & Hc).
  unfold cockpit_frame_parse. rewrite frame_scan_digits by done. fold (dec_value ds).
  cbn [plus]. rewrite list_lookup_middle by done. cbn [default].
  destruct (Nat.eqb_spec (length ds) (length (ds ++ 10 :: rest))) as [El|_].
  { rewrite length_app in El. cbn in El. lia. }
  rewrite (proj2 (Z.eqb_neq _ _)) by lia. subst ds. cbn.
  by rewrite (proj2 (Z.eqb_neq _ _)).
Qed.

Lemma dec_value_lower ds : canonical ds → (3 ≤ length ds)%nat → 100 ≤ dec_value ds.
Proof.
  intros (Hd & c & l & -> & Hc) Hl. destruct l as [|a [|b l]]; cbn in Hl; [lia..|]. clear Hl.
  induction l as [|x l IH] using rev_ind.
  - unfold digits in Hd. rewrite !Forall_cons, !isdigit_range in Hd. cbn. lia.
  - rewrite !app_comm_cons in *. apply Forall_app in Hd as [Hd Hx].
    rewrite dec_value_snoc. rewrite Forall_singleton, isdigit_range in Hx.
    specialize (IH Hd). lia.
Qed.

Lemma render_canonical n :
  0 < n < 10 ^ 8 →
  canonical (render_u32 n) ∧ (length (render_u32 n) ≤ 8)%nat ∧ dec_value (render_u32 n) = n.
Proof.
  intros Hn. unfold render_u32. assert (u32 n = n) as -> by (apply Z.mod_small; lia).
  split_and!.
  - apply digits_fuel_canonical. change (Z.of_nat 10) with 10. lia.
  - apply digits_fuel_length; [lia|]. change (Z.of_nat 8) with 8. lia.
  - apply digits_fuel_value. change (Z.of_nat 10) with 10. lia.
Qed.

(** ** Reading a frame *)

Lemma frame_prefix_unique ds ds' a b :
  digits ds → digits ds' → ds ++ 10 :: a = ds' ++ 10 :: b → ds = ds' ∧ a = b.
Proof.
  intros Hd. revert ds'. induction Hd as [|d ds Hd _ IH]; intros [|d' ds'] Hd'; cbn.
  - by intros [= ->].
  - intros [= <- _]. by inversion Hd'.
  - intros [= -> _]. done.
  - intros [= <- E]. inversion Hd'. by destruct (IH ds') as [-> ->].
Qed.

Lemma frame_body_spec size header n f r f' :
  zlen (drop n header) ≤ size →
  frame_body size header n f = (r, f') →
  r ≠ Fault ∧
  (∀ o, r = Ok o → ∃ got, o = Some (drop n header ++ got) ∧ r_in f = got ++ r_in f' ∧
                          zlen (drop n header ++ got) = size) ∧
  (Forall benign_rd (r_sched f) → size ≤ zlen (drop n header) + zlen (r_in f) →
   ∃ p, r = Ok (Some p)).
Proof.
  intros Hle. unfold frame_body. rewrite (proj2 (Z.leb_le _ _) Hle).
  rewrite prog_bind_eq. cbn [lift cassert]. rewrite prog_bind_eq.
  destruct (read_exactly (Z.to_nat (size - zlen (drop n header))) false f) as [[[rest b]|e|] f1] eqn:E;
    apply read_exactly_spec in E as (H1 & H2 & H3); rewrite ?prog_ret_eq; intros [= <- <-].
  - destruct (H2 rest b eq_refl) as [(-> & Hin & Hl)|(_ & ? & _)]; [|done].
    split_and!; [done| |by eauto]. intros o [= <-]. exists rest. split_and!; [done..|].
    rewrite zlen_app. unfold zlen at 2. rewrite Hl. lia.
  - split_and!; [done|done|]. intros Hb Hs. destruct (H3 Hb) as [_ [out Ho]]; [|done].
    unfold zlen in *. lia.
  - done.
Qed.

Definition frame_of (ds p : list Z) : Prop :=
  canonical ds ∧ (length ds ≤ 8)%nat ∧ dec_value ds = zlen p.

Lemma frame_of_pos ds p : frame_of ds p → 0 < zlen p.
Proof. intros (Hc & _ & <-). by apply canonical_pos. Qed.

(** What follows once the header has been parsed, from a state [f1] where [header]
    has been taken off the input. *)
Definition frame_tail (header : list Z) (size : Z) (consumed : option nat)
    : prog rfd errno (option (list Z)) :=
  if size =? -1 then lift (Err EBADMSG)
  else frame_body size header (default 0%nat consumed).

Lemma frame_tail_spec header size consumed f r f' :
  cockpit_frame_parse header = (size, consumed) → size ≠ 0 →
  (∀ ds rest, header = ds ++ 10 :: rest → canonical ds → zlen rest ≤ dec_value ds) →
  frame_tail header size consumed f = (r, f') →
  r ≠ Fault ∧ r ≠ Ok None ∧
  (∀ p, r = Ok (Some p) → ∃ ds, frame_of ds p ∧ header ++ r_in f = ds ++ 10 :: p ++ r_in f') ∧
  (Forall benign_rd (r_sched f) → ∀ ds p rest, frame_of ds p →
     header ++ r_in f = ds ++ 10 :: p ++ rest → (length ds < length header)%nat →
     ∃ p', r = Ok (Some p')).
Proof.
  intros Hp Hnz Hfit. unfold frame_tail.
  destruct (frame_parse_spec _ _ _ Hp) as [| |ds rest -> Hc Hl]; [done| |].
  - intros [= <- <-]. split_and!; [done..|]. intros _ ds p rest (Hc & Hl & _) E Hlt. exfalso.
    apply app_eq_inv in E as [(k & -> & E)|(k & -> & _)];
      [|rewrite length_app in Hlt; lia].
    destruct k as [|x k]; [rewrite app_nil_r in Hlt; lia|]. injection E as <- _.
    rewrite frame_parse_complete in Hp by done. injection Hp as Hv _.
    pose proof (canonical_pos ds Hc). lia.
  - pose proof (canonical_pos ds Hc). rewrite (proj2 (Z.eqb_neq _ _)) by lia.
    cbn [default]. intros Hr.
    assert (Hdrop : drop (S (length ds)) (ds ++ 10 :: rest) = rest).
    { rewrite <- Nat.add_1_r, <- drop_drop, drop_app_length. done. }
    pose proof (frame_body_spec (dec_value ds) (ds ++ 10 :: rest) (S (length ds)) f r f') as Hb.
    rewrite Hdrop in Hb. destruct Hb as (H1 & H2 & H3); [by eapply Hfit|done|].
    split_and!; [done| | |].
    + intros ->. destruct (H2 _ eq_refl) as (? & ? & _). done.
    + intros p ->. destruct (H2 _ eq_refl) as (got & [= ->] & -> & Hlen).
      exists ds. split; [by split_and!|]. by rewrite <- !app_assoc.
    + intros Hbn ds' p rest' (Hc' & Hl' & Hv) E _. apply H3; [done|].
      rewrite <- app_assoc in E. cbn in E.
      apply frame_prefix_unique in E as [-> E]; [|by destruct Hc|by destruct Hc'].
      apply (f_equal zlen) in E. rewrite !zlen_app in E. pose proof (zlen_nonneg rest'). lia.
Qed.

Lemma frame_min_length ds p rest :
  frame_of ds p → (3 ≤ length (ds ++ 10%Z :: p ++ rest))%nat.
Proof.
  intros Hf. pose proof (frame_of_pos _ _ Hf). destruct Hf as ((_ & c & l & -> & _) & _).
  unfold zlen in *. rewrite length_app. cbn. rewrite length_app. lia.
Qed.

(** The first three bytes being digits, at least six more follow. *)
Lemma frame_more_length ds p rest h tl :
  frame_of ds p → h ++ tl = ds ++ 10 :: p ++ rest → digits h → length h = 3%nat →
  (3 ≤ length ds)%nat ∧ (6 ≤ length tl)%nat.
Proof.
  intros (Hc & Hl & Hv) E Hd Hh.
  apply app_eq_inv in E as [(k & -> & E)|(k & -> & ->)].
  - destruct k as [|x k].
    + rewrite app_nil_r in *. cbn in E. subst tl. cbn.
      pose proof (dec_value_lower ds Hc). unfold zlen in *. rewrite length_app. lia.
    + injection E as <- _. apply Forall_app in Hd as [_ Hd]. by inversion Hd.
  - pose proof (dec_value_lower (h ++ k) Hc) as Hlow. rewrite !length_app in *.
    specialize (Hlow ltac:(lia)). unfold zlen in *. cbn. rewrite length_app. lia.
Qed.

Lemma header_fits header ds rest n :
  header = ds ++ 10 :: rest → canonical ds → (length header ≤ n)%nat →
  (n = 3)%nat ∨ ((n = 9)%nat ∧ (3 ≤ length ds)%nat) → zlen rest ≤ dec_value ds.
Proof.
  intros -> Hc Hn Hor. pose proof (canonical_pos ds Hc).
  pose proof (dec_value_lower ds Hc) as Hlow.
  assert (1 ≤ length ds)%nat by (destruct Hc as (_ & ? & ? & -> & _); cbn; lia).
  unfold zlen. rewrite length_app in Hn. cbn in Hn. lia.
Qed.

(** The second read and parse, when the first asked for more data. *)
Lemma frame_read_more_spec h f r f' :
  digits h → length h = 3%nat →
  ('(header, size, consumed) ←
     ('(more, _) ← read_exactly (MAX_FRAME_SIZE_BYTES + 1 - 3) false;
      let header := h ++ more in
      let '(size, consumed) := cockpit_frame_parse header in
      _ ← lift (cassert (negb (size =? 0)));
      mret (header, size, consumed));
   frame_tail header size consumed) f = (r, f') →
  r ≠ Fault ∧ r ≠ Ok None ∧
  (∀ p, r = Ok (Some p) → ∃ ds, frame_of ds p ∧ h ++ r_in f = ds ++ 10 :: p ++ r_in f') ∧
  (Forall benign_rd (r_sched f) → ∀ ds p rest, frame_of ds p →
     h ++ r_in f = ds ++ 10 :: p ++ rest → ∃ p', r = Ok (Some p')).
Proof.
  intros Hd Hh. rewrite !prog_bind_eq.
  destruct (read_exactly (MAX_FRAME_SIZE_BYTES + 1 - 3) false f) as [[[more b]|e|] f1] eqn:E1;
    apply read_exactly_spec in E1 as (A1 & A2 & A3); [|intros [= <- <-]|done].
  2: { split_and!; [done..|]. intros Hb ds p rest Hf E.
       destruct (frame_more_length _ _ _ _ _ Hf E Hd Hh). by destruct (A3 Hb) as [_ [? ?]]. }
  destruct (A2 more b eq_refl) as [(-> & Hin & Hm)|(_ & ? & _)]; [|done].
  destruct (cockpit_frame_parse (h ++ more)) as [size consumed] eqn:Hp.
  assert (Hlen : length (h ++ more) = 9%nat) by by rewrite length_app, Hh, Hm.
  assert (Hnz : size ≠ 0).
  { intros ->. apply frame_parse_spec in Hp. inversion Hp as [? Hl| |ds ? _ Hc _ Hv].
    - rewrite Hlen in Hl. lia.
    - pose proof (canonical_pos ds Hc). lia. }
  cbn zeta. rewrite Hp. rewrite prog_bind_eq, (proj2 (Z.eqb_neq _ _) Hnz).
  cbn [negb lift cassert]. rewrite prog_ret_eq. intros Hr.
  apply (frame_tail_spec _ _ _ _ _ _ Hp Hnz) in Hr as (B1 & B2 & B3 & B4).
  - assert (Heq : h ++ r_in f = (h ++ more) ++ r_in f1) by by rewrite Hin, app_assoc.
    rewrite Heq. split_and!; [done..|]. intros Hb ds p rest Hf E.
    destruct (A3 Hb) as [Hb1 _]; [rewrite Hin, length_app; lia|].
    eapply B4; [done..|]. destruct Hf as (_ & ? & _). lia.
  - intros ds rest E Hc. eapply (header_fits _ _ _ 9); [done|done|lia|]. right. split; [done|].
    apply app_eq_inv in E as [(k & -> & E)|(k & -> & E)].
    + destruct k as [|x k]; [rewrite app_nil_r in Hh; lia|]. injection E as <- _.
      apply Forall_app in Hd as [_ Hd]. by inversion Hd.
    + rewrite length_app. lia.
Qed.

Lemma frame_read_spec f r f' :
  cockpit_frame_read f = (r, f') →
  r ≠ Fault ∧
  (r = Ok None → r_in f' = r_in f) ∧
  (∀ p, r = Ok (Some p) → ∃ ds, frame_of ds p ∧ r_in f = ds ++ 10 :: p ++ r_in f') ∧
  (Forall benign_rd (r_sched f) → ∀ ds p rest, frame_of ds p →
     r_in f = ds ++ 10 :: p ++ rest → ∃ p', r = Ok (Some p')).
Proof.
  unfold cockpit_frame_read. rewrite prog_bind_eq.
  destruct (read_exactly 3 true f) as [[[h eof]|e|] f1] eqn:E1;
    apply read_exactly_spec in E1 as (A1 & A2 & A3); [|intros [= <- <-]|done].
  2: { split_and!; [done..|]. intros Hb ds p rest Hf E.
       destruct (A3 Hb) as [_ [? ?]]; [rewrite E; by apply frame_min_length|done]. }
  destruct (A2 h eof eq_refl) as [(-> & Hin & Hh)|(-> & _ & -> & Hin)].
  2: { rewrite prog_ret_eq. intros [= <- <-]. split_and!; [done..|].
       intros Hb ds p rest Hf E.
       destruct (A3 Hb) as [_ [? ?]]; [rewrite E; by apply frame_min_length|done]. }
  assert (Hb1 : Forall benign_rd (r_sched f) → ∀ ds p rest, frame_of ds p →
    h ++ r_in f1 = ds ++ 10 :: p ++ rest → Forall benign_rd (r_sched f1)).
  { intros Hb ds p rest Hf E. apply A3; [done|]. rewrite Hin, E. by apply frame_min_length. }
  destruct (cockpit_frame_parse h) as [size consumed] eqn:Hp.
  destruct (Z.eqb_spec size 0) as [->|Hnz]; intros Hr.
  - assert (Hd : digits h).
    { apply frame_parse_spec in Hp. inversion Hp as [? _| |ds ? _ Hc _ Hv]; [done|].
      pose proof (canonical_pos ds Hc). lia. }
    apply (frame_read_more_spec h f1) in Hr as (B1 & B2 & B3 & B4); [|done..].
    rewrite Hin. split_and!; [done..|]. intros Hb ds p rest Hf E. eauto.
  - rewrite prog_bind_eq, prog_ret_eq in Hr.
    apply (frame_tail_spec _ _ _ _ _ _ Hp Hnz) in Hr as (B1 & B2 & B3 & B4).
    + rewrite Hin. split_and!; [done..|]. intros Hb ds p rest Hf E.
      eapply B4; [by eauto|done|done|].
      destruct (decide (length ds < length h)%nat) as [|Hge]; [done|exfalso].
      assert (Hpre : h = take 3 ds).
      { apply (f_equal (take 3)) in E. rewrite take_app_le in E by lia.
        rewrite (take_app_le ds) in E by lia. rewrite <- E. by rewrite take_ge by lia. }
      destruct Hf as ((Hc & _) & _). rewrite frame_parse_digits in Hp; [by injection Hp| |lia].
      rewrite Hpre. by apply Forall_take.
    + intros ds rest E Hc. eapply (header_fits _ _ _ 3); [done|done|lia|by left].
Qed.

(** ** Properties *)

(** Reading a frame is safe and exact.  Whatever the input and however [read]
    interrupts it, [cockpit_frame_read] terminates without tripping its assertion
    or overflowing the body buffer; a frame it returns is preceded on the input by
    its own length and a newline, and not one byte after it has been consumed. *)
Theorem frame_read_safe f r f' :
  cockpit_frame_read f = (r, f') →
  r ≠ Fault ∧
  (r = Ok None → r_in f' = r_in f) ∧
  (∀ p, r = Ok (Some p) → ∃ ds,
     canonical ds ∧ dec_value ds = zlen p ∧ r_in f = ds ++ [10] ++ p ++ r_in f').
Proof.
  intros H. destruct (frame_read_spec _ _ _ H) as (H1 & H2 & H3 & _). split_and!; [done..|].
  intros p Hp. destruct (H3 p Hp) as (ds & (? & _ & ?) & ?). by exists ds.
Qed.

Example frame_read_safe_witness :
  (Ok (Some (bs "hello")) : comp errno (option (list Z))) ≠ Fault.
Proof.
  apply (frame_read_safe (RFd (bs "5" ++ [10] ++ bs "helloX") [RdSome 0]) _ (RFd (bs "X") [])
           eq_refl).
Defined.

(** C5: frames survive the trip through a pipe.  A payload of 1 to 99999999 bytes
    written under any short writes and [EAGAIN]/[EINTR] interruptions, followed by
    anything, is read back under any short reads and interruptions as exactly that
    payload, leaving exactly what followed. *)
Theorem frame_roundtrip payload wsched rsched rest :
  0 < zlen payload < 10 ^ 8 →
  Forall benign_wr wsched → Forall benign_rd rsched →
  ∃ out wsched' rsched',
    cockpit_frame_write payload (WFd [] wsched) = (Ok (zlen payload), WFd out wsched') ∧
    cockpit_frame_read (RFd (out ++ rest) rsched) = (Ok (Some payload), RFd rest rsched').
Proof.
  intros Hlen Hw Hr. destruct (render_canonical _ Hlen) as (Hc & Hl & Hv).
  assert (Hf : frame_of (render_u32 (zlen payload)) payload) by by split_and!.
  unfold cockpit_frame_write. rewrite prog_bind_eq, (proj2 (Z.ltb_lt _ _)) by lia.
  cbn [lift cassert]. rewrite prog_bind_eq.
  destruct (cockpit_fd_write_all (render_u32 (zlen payload) ++ [10]) (WFd [] wsched))
    as [r1 f1] eqn:E1.
  destruct (fd_write_all_spec _ _ _ _ E1) as (_ & H2 & H3).
  destruct (H3 Hw) as [Hw1 [n1 ->]]. destruct (H2 n1 eq_refl) as [Ho1 ->].
  rewrite (proj2 (Z.gtb_lt _ _)) by
    (pose proof (zlen_nonneg (render_u32 (zlen payload))); autorewrite with zlen; lia).
  destruct (cockpit_fd_write_all payload f1) as [r2 [out ws2]] eqn:E2.
  destruct (fd_write_all_spec _ _ _ _ E2) as (_ & H5 & H6).
  destruct (H6 Hw1) as [_ [n2 ->]]. destruct (H5 n2 eq_refl) as [Ho2 ->].
  cbn [w_out app] in Ho1, Ho2. rewrite Ho1 in Ho2. exists out, ws2. subst out.
  destruct (cockpit_frame_read (RFd (((render_u32 (zlen payload) ++ [10]) ++ payload) ++ rest)
    rsched)) as [r [rin rs]] eqn:E3.
  destruct (frame_read_spec _ _ _ E3) as (_ & _ & B3 & B4). cbn [r_in r_sched] in B3, B4.
  rewrite <- !app_assoc in B3, B4. cbn [app] in B3, B4.
  destruct (B4 Hr _ _ _ Hf eq_refl) as [p' ->]. destruct (B3 p' eq_refl) as (ds & Hf' & E).
  assert (Hd : digits ds) by apply Hf'. apply frame_prefix_unique in E as [<- E];
    [|apply Hc|done].
  destruct Hf' as (_ & _ & Hv'). rewrite Hv in Hv'.
  apply app_inj_1 in E as [<- <-]; [|unfold zlen in Hv'; lia]. by exists rs.
Qed.

Example frame_roundtrip_witness :
  ∃ out wsched' rsched',
    cockpit_frame_write (bs "hi") (WFd [] [WrSome 1; WrFail EAGAIN; WrSome 0])
      = (Ok 2, WFd out wsched') ∧
    cockpit_frame_read (RFd (out ++ bs "12") [RdFail EINTR; RdSome 0; RdSome 1])
      = (Ok (Some (bs "hi")), RFd (bs "12") rsched').
Proof.
  apply (frame_roundtrip (bs "hi") [WrSome 1; WrFail EAGAIN; WrSome 0]
           [RdFail EINTR; RdSome 0; RdSome 1] (bs "12"));
    [by split|repeat constructor; auto|repeat constructor; auto].
Defined.
