(* ===== verification/Authorize.v ===== *)
(** * HTTP authorization headers: [src/common/cockpitauthorize.c]

    Parsing and building of the Basic, Negotiate and X-Conversation headers that
    carry logins between the web server and the session.  Strings are NUL-free byte
    lists; [NULL] pointers are [None]; a failing function reports its [errno].
    Allocation is taken to succeed, and the contents of freshly allocated memory
    are a parameter ([malloc]).  Logging has no effect on the results and is left
    out. *)

From S2P Require Import Prelude Base64 Frame.

(** [strcspn (challenge, ": ")] separators *)
Definition COLON_SPACE : list Z := [58; 32].

(** [strndup (s, n)] of a NUL-free string is its prefix. *)
Definition strndup (s : list Z) (n : nat) : list Z := cstr (take n s).

(** Returns the lower-cased type and what follows it. *)
Definition cockpit_authorize_type (challenge : option (list Z))
    : comp errno (list Z * list Z) :=
  let len := match challenge with Some s => strcspn s COLON_SPACE | None => 0%nat end in
  match challenge with
  | None => Err EINVAL
  | Some s =>
      if (len =? 0)%nat then Err EINVAL
      else
        let type := tolower <$> strndup s len in
        let rest := match drop len s with [] => [] | _ :: r => r end in
        Ok (type, skip_char 32 rest)
  end.

(** Returns the subject and what follows it. *)
Definition cockpit_authorize_subject (challenge : option (list Z))
    : comp errno (list Z * list Z) :=
  '(_, challenge) ← cockpit_authorize_type challenge;
  let len := strcspn challenge COLON_SPACE in
  if (len =? 0)%nat then Err EINVAL
  else
    let rest := match drop len challenge with [] => [] | _ :: r => r end in
    Ok (strndup challenge len, skip_char 32 rest).

(** [cockpit_authorize_nonce]: the reads from /dev/urandom.  [opened] is whether
    [open] succeeded; [errno] is 0 when the file ends early. *)
Fixpoint nonce_loop (fuel : nat) (length_ : nat) (key : list Z) : prog rfd errno (list Z) :=
  λ f,
  match fuel with
  | O => (Fault, f)
  | S fuel' =>
      let continue key f :=
        if (length key <? length_)%nat then nonce_loop fuel' length_ key f
        else (Ok key, f) in
      match sys_read (length_ - length key) f with
      | (Ok [], f') => if (length key <? length_)%nat then (Err (EOTHER 0), f') else (Ok key, f')
      | (Ok got, f') => continue (key ++ got) f'
      | (Err e, f') =>
          if decide (e = EAGAIN ∨ e = EINTR) then continue key f'
          else if (length key <? length_)%nat then (Err e, f') else (Ok key, f')
      | (Fault, f') => (Fault, f')
      end
  end.

Definition cockpit_authorize_nonce (opened : option errno) (length_ : nat)
    : prog rfd errno (list Z) := λ f,
  match opened with
  | Some e => (Err e, f)
  | None => nonce_loop (length (r_sched f) + 3) length_ [] f
  end.

(** The number of bytes [pton] decoded is an index into the buffer. *)
Definition pton_errno (r : comp unit (Z * option (list Z))) : comp errno (Z * list Z) :=
  match r with
  | Ok (n, Some buf) => Ok (n, buf)
  | Ok (n, None) => Fault
  | Err _ => Err EINVAL
  | Fault => Fault
  end.

Definition ntop_errno (r : comp unit (Z * list Z)) : comp errno (list Z) :=
  match r with Ok (_, buf) => Ok (cstr buf) | Err _ => Err EINVAL | Fault => Fault end.

Section Authorize.
Context (malloc : nat → list Z).

(** Returns the buffer that holds the password as a C string, and [*user]. *)
Definition cockpit_authorize_parse_basic (challenge : option (list Z))
    : comp errno (list Z * option (list Z)) :=
  '(type, challenge) ← cockpit_authorize_type challenge;
  _ ← cfail_if (bool_decide (type ≠ bs "basic")) EINVAL;
  let len := strcspn challenge [32] in
  let buf := malloc (len + 1) in
  if (len =? 0)%nat then
    buf ← buf_set buf 0 0; Ok (buf, None)
  else
    '(res, buf) ← pton_errno (cockpit_base64_pton (take len challenge) (Some buf) (Z.of_nat len));
    _ ← cassert (res <=? Z.of_nat len);
    buf ← buf_set buf res 0;
    let off := strcspn buf [58] in
    _ ← cfail_if (Z.of_nat off =? res) EINVAL;
    let user := strndup buf off in
    let n := Z.to_nat (res - Z.of_nat off) in
    _ ← cassert (Z.of_nat off + 1 + Z.of_nat n <=? zlen buf);
    Ok (take n (drop (off + 1) buf) ++ drop n buf, Some user).

Definition cockpit_authorize_build_basic (user password : option (list Z))
    : comp errno (list Z) :=
  let content := default [] user ++ [58] ++ default [] password in
  let clen := zlen content in
  let elen := cockpit_base64_size clen in
  encoded ← ntop_errno (cockpit_base64_ntop content (malloc (Z.to_nat (elen + 1))) elen);
  Ok (bs "Basic " ++ encoded).

(** Returns the [length] bytes decoded. *)
Definition cockpit_authorize_parse_negotiate (challenge : option (list Z))
    : comp errno (list Z) :=
  '(type, challenge) ← cockpit_authorize_type challenge;
  _ ← cfail_if (bool_decide (type ≠ bs "negotiate")) EINVAL;
  let len := strcspn challenge [32] in
  let buf := malloc (len + 1) in
  '(res, buf) ← pton_errno (cockpit_base64_pton (take len challenge) (Some buf) (Z.of_nat len));
  Ok (take (Z.to_nat res) buf).

Definition cockpit_authorize_build_negotiate (input : option (list Z)) : comp errno (list Z) :=
  let input := default [] input in
  let length_ := zlen input in
  if length_ >? 0 then
    let elen := cockpit_base64_size length_ in
    encoded ← ntop_errno (cockpit_base64_ntop input (malloc (Z.to_nat elen)) elen);
    Ok (bs "Negotiate" ++ [32] ++ encoded)
  else Ok (bs "Negotiate").

(** Returns the prompt and [*conversation]. *)
Definition cockpit_authorize_parse_x_conversation (challenge : option (list Z))
    : comp errno (list Z * list Z) :=
  '(type, _) ← cockpit_authorize_type challenge;
  _ ← cfail_if (bool_decide (type ≠ bs "x-conversation")) EINVAL;
  '(conversation, challenge) ← cockpit_authorize_subject challenge;
  let len := strcspn challenge [32] in
  let buf := malloc (len + 1) in
  '(res, buf) ← pton_errno (cockpit_base64_pton (take len challenge) (Some buf) (Z.of_nat len));
  buf ← buf_set buf res 0;
  Ok (cstr buf, conversation).

(** [conversation] is the value of [*conversation], [nonce] the random bytes or
    the error that kept them from being read.  Returns the header and the value
    left in [*conversation]. *)
Definition cockpit_authorize_build_x_conversation (prompt conversation : option (list Z))
    (nonce : comp errno (list Z)) : comp errno (list Z * list Z) :=
  let prompt := default [] prompt in
  conv ← match conversation with
         | Some conv => Ok conv
         | None =>
             key ← nonce;
             let clen := cockpit_base64_size 128 in
             ntop_errno (cockpit_base64_ntop key (malloc (Z.to_nat clen)) clen)
         end;
  _ ← cfail_if (zlen conv =? 0) EINVAL;
  let plen := zlen prompt in
  encoded ←
    (if plen >? 0 then
       let elen := cockpit_base64_size plen in
       e ← ntop_errno (cockpit_base64_ntop prompt (malloc (Z.to_nat elen)) elen);
       Ok (Some e)
     else Ok None);
  Ok (bs "X-Conversation " ++ conv ++
      match encoded with Some e => [32] ++ e | None => [] end, conv).
End Authorize.

Example parse_basic_ex :
  cockpit_authorize_parse_basic (λ n, replicate n 205) (Some (bs "Basic c2NydWZmeTp6ZXJvZw=="))
  = Ok (bs "zerog" ++ [0] ++ drop 6 (bs "scruffy:zerog" ++ [0] ++ replicate 7 205),
        Some (bs "scruffy")).
Proof. vm_compute. reflexivity. Qed.

(** ** Encoded text in headers *)

Definition plain (c : Z) : Prop := c ∉ COLON_SPACE ∧ c ≠ 0.

#[export] Instance plain_dec c : Decision (plain c).
Proof. unfold plain. apply _. Defined.

Lemma encode_plain src : Forall is_byte src → Forall plain (encode src).
Proof.
  assert (Hc : ∀ o, o = 255 ∨ 0 ≤ o < 64 → plain (b64c o)).
  { intros o [->|Ho]; [by_decide|].
    revert o Ho. apply (byte_dec (λ o, b64c o ∉ COLON_SPACE ∧ b64c o ≠ 0) 64).
    vm_compute. reflexivity. }
  assert (Hg : ∀ g, Forall is_byte g → (1 ≤ length g ≤ 3)%nat →
                    Forall plain (b64c <$> ntop_group g)).
  { intros g Hb Hl. apply Forall_fmap. eapply Forall_impl; [by apply ntop_group_range|].
    intros o Ho. by apply Hc. }
  induction src as [|a|a b|a b c src IH] using list_ind3; intros Hb;
    [constructor|apply Hg; [done|cbn; lia]..|].
  change (a :: b :: c :: src) with ([a; b; c] ++ src) in Hb. apply Forall_app in Hb as [H3 Hb].
  cbn [encode]. apply Forall_app. split; [apply Hg; [done|cbn; lia]|by apply IH].
Qed.

Lemma plain_nul_free s : Forall plain s → nul_free s.
Proof. intros H. eapply Forall_impl; [done|]. by intros c []. Qed.

Lemma plain_outside s reject :
  (∀ c, c ∈ reject → c ∈ COLON_SPACE) → Forall plain s → outside reject s.
Proof. intros Hr H. eapply Forall_impl; [done|]. intros c [Hc Hz]. eauto. Qed.

Lemma encode_nonempty src : (0 < length src)%nat → zlen src < zlen (encode src).
Proof. intros H. rewrite encode_length. unfold zlen. lia. Qed.

Lemma skip_char_plain s : Forall plain s → skip_char 32 s = s.
Proof.
  destruct 1 as [|c s [Hc _] _]; [done|]. cbn.
  destruct (c =? 32) eqn:E; [|done]. to_prop. subst c. destruct Hc. by do 2 constructor.
Qed.

(** Encoding into a fresh buffer yields the reference encoding. *)
Lemma ntop_fresh src buf size :
  Forall is_byte src → cockpit_base64_size (zlen src) = size → size ≤ zlen buf →
  ntop_errno (cockpit_base64_ntop src buf size) = Ok (encode src).
Proof.
  intros Hb <- Hbuf. rewrite ntop_spec; [|done|lia|apply encode_fits].
  cbn. rewrite cstr_app_nul; [done|by apply plain_nul_free, encode_plain].
Qed.

(** Decoding an encoding into a buffer one byte larger than the encoding. *)
Lemma pton_fresh src buf :
  Forall is_byte src → zlen buf = zlen (encode src) + 1 →
  ∃ rest, pton_errno (cockpit_base64_pton (encode src) (Some buf) (zlen (encode src)))
          = Ok (zlen src, src ++ rest) ∧ zlen (src ++ rest) = zlen buf.
Proof.
  intros Hb Hbuf. destruct src as [|a src].
  { by exists buf. }
  destruct (pton_encode (a :: src) [] buf (zlen (encode (a :: src)))) as (rest & Hr & Hlen);
    [done|lia|apply encode_nonempty; cbn; lia|by left|].
  exists rest. rewrite app_nil_r in Hr. by rewrite Hr.
Qed.

Lemma strndup_app a b : nul_free a → strndup (a ++ b) (length a) = a.
Proof. intros H. unfold strndup. rewrite take_app_length. by apply cstr_id. Qed.

(** A header whose type is [ty], in any case, followed by a space. *)
Lemma authorize_type_spec ty rest :
  Forall plain ty → ty ≠ [] →
  cockpit_authorize_type (Some (ty ++ 32 :: rest)) = Ok (tolower <$> ty, skip_char 32 rest).
Proof.
  intros Ht Hne. unfold cockpit_authorize_type.
  rewrite strcspn_app; [|by apply plain_outside|left; by do 2 constructor].
  assert ((length ty =? 0)%nat = false) as -> by by destruct ty.
  rewrite strndup_app by by apply plain_nul_free. by rewrite drop_app_length.
Qed.

Lemma authorize_subject_spec ty subj rest :
  Forall plain ty → ty ≠ [] → Forall plain subj → subj ≠ [] →
  cockpit_authorize_subject (Some (ty ++ 32 :: subj ++ 32 :: rest))
  = Ok (subj, skip_char 32 rest) ∧
  cockpit_authorize_subject (Some (ty ++ 32 :: subj)) = Ok (subj, []).
Proof.
  intros Ht Hte Hs Hse. unfold cockpit_authorize_subject.
  rewrite !authorize_type_spec by done. cbn [mbind comp_bind].
  assert (Hsk : ∀ r, skip_char 32 (subj ++ r) = subj ++ r).
  { intros r. apply skip_char_plain in Hs. destruct subj as [|x subj]; [done|].
    cbn in *. destruct (x =? 32); [|done]. exfalso.
    apply (f_equal length) in Hs. assert (∀ l, length (skip_char 32 l) ≤ length l)%nat as Hl.
    { intros l. induction l as [|y l IH]; cbn; [lia|]. destruct (y =? 32); cbn; lia. }
    specialize (Hl subj). cbn in Hs. lia. }
  assert (Hsk' : skip_char 32 subj = subj) by by apply skip_char_plain.
  assert ((length subj =? 0)%nat = false) as Hl0 by by destruct subj.
  rewrite Hsk, Hsk', strcspn_app, strcspn_all;
    [|by apply plain_outside..|left; by do 2 constructor].
  rewrite Hl0, strndup_app by by apply plain_nul_free.
  rewrite drop_app_length, drop_all. split; [done|]. unfold strndup.
  rewrite firstn_all, cstr_id by by apply plain_nul_free. done.
Qed.

Lemma strcspn_nul s reject i : s !! i = Some 0 → (strcspn s reject ≤ i)%nat.
Proof.
  revert i. induction s as [|x s IH]; intros [|i] Hi; cbn in *; try done.
  - injection Hi as ->. by rewrite orb_true_r.
  - destruct (_ || _); [lia|]. specialize (IH i Hi). lia.
Qed.

Section Properties.
Context (malloc : nat → list Z) (malloc_length : ∀ n, length (malloc n) = n).

Lemma malloc_zlen n : zlen (malloc n) = Z.of_nat n.
Proof using malloc_length. unfold zlen. by rewrite malloc_length. Qed.

Lemma pton_malloc challenge len :
  len = strcspn challenge [32] →
  match pton_errno (cockpit_base64_pton (take len challenge)
                      (Some (malloc (len + 1))) (Z.of_nat len)) with
  | Ok (n, buf) => 0 ≤ n ≤ Z.of_nat len ∧ zlen buf = Z.of_nat len + 1
  | Err _ => True
  | Fault => False
  end.
Proof using malloc_length.
  intros _.
  destruct (pton_safe_bounds (take len challenge) (Some (malloc (len + 1))) (Z.of_nat len))
    as [Hs Hr]; [lia|intros ? [= <-]; rewrite malloc_zlen; lia|].
  destruct (cockpit_base64_pton _ _ _) as [[n b]|e|]; [|done|done].
  destruct (Hr n b eq_refl) as [Hb Hn]. destruct b as [buf|]; cbn in *; [|done].
  injection Hb as Hb. rewrite malloc_zlen in Hb. specialize (Hn ltac:(done)). lia.
Qed.

(** Decoding the encoded tail of a header. *)
Lemma header_decode src :
  Forall is_byte src →
  ∃ rest, strcspn (encode src) [32] = length (encode src) ∧
    pton_errno (cockpit_base64_pton (take (length (encode src)) (encode src))
                  (Some (malloc (length (encode src) + 1)))
                  (Z.of_nat (length (encode src))))
    = Ok (zlen src, src ++ rest) ∧
    zlen (src ++ rest) = zlen (encode src) + 1.
Proof using malloc_length.
  intros Hb.
  destruct (pton_fresh src (malloc (length (encode src) + 1)) Hb) as (rest & Hr & Hl).
  { rewrite malloc_zlen. unfold zlen. lia. }
  exists rest. rewrite malloc_zlen in Hl. split_and!.
  - apply strcspn_all, plain_outside, encode_plain; [|done].
    intros c [->|[]%elem_of_nil]%elem_of_cons. by do 2 constructor.
  - rewrite firstn_all. exact Hr.
  - rewrite Hl. unfold zlen. lia.
Qed.

Lemma parse_basic_encoded user pass :
  Forall is_byte user → Forall is_byte pass → nul_free user → nul_free pass → 58 ∉ user →
  ∃ buf, cockpit_authorize_parse_basic malloc
           (Some (bs "Basic" ++ 32 :: encode (user ++ 58 :: pass))) = Ok (buf, Some user) ∧
         cstr buf = pass.
Proof using malloc_length.
  intros Hu Hp Hun Hpn Hc. set (content := user ++ 58 :: pass).
  assert (Hb : Forall is_byte content) by (apply Forall_app; split; [done|by constructor]).
  assert (Hlen : (0 < length content)%nat) by (unfold content; rewrite length_app; cbn; lia).
  pose proof (encode_nonempty content Hlen) as Henc.
  destruct (header_decode content Hb) as (rest & Hs & Hd & Hl).
  unfold cockpit_authorize_parse_basic.
  rewrite authorize_type_spec; [|by_decide|done].
  cbn [mbind comp_bind]. rewrite (skip_char_plain _ (encode_plain _ Hb)).
  rewrite bool_decide_eq_false_2 by (by intros []). cbn [cfail_if mbind comp_bind].
  rewrite Hs, Hd. cbn [mbind comp_bind].
  assert ((length (encode content) =? 0)%nat = false) as ->.
  { apply Nat.eqb_neq. unfold zlen in Henc. lia. }
  rewrite (proj2 (Z.leb_le _ _)) by (unfold zlen in *; lia). cbn [cassert mbind comp_bind].
  destruct rest as [|x rest]; [rewrite app_nil_r in Hl; lia|].
  rewrite buf_set_app. cbn [mbind comp_bind].
  assert (Hoff : strcspn (content ++ 0 :: rest) [58] = length user).
  { unfold content. rewrite <- app_assoc. apply strcspn_app; [|left; by constructor].
    apply Forall_forall. intros c Hin. split.
    - by intros [->|[]%elem_of_nil]%elem_of_cons.
    - by apply (proj1 (Forall_forall _ _) Hun). }
  rewrite Hoff.
  assert (Hclen : zlen content = Z.of_nat (length user) + 1 + zlen pass).
  { unfold content. autorewrite with zlen. unfold zlen. lia. }
  pose proof (zlen_nonneg pass).
  rewrite (proj2 (Z.eqb_neq _ _)) by lia. cbn [cfail_if mbind comp_bind].
  rewrite (proj2 (Z.leb_le _ _)); [|autorewrite with zlen in *; lia].
  cbn [cassert mbind comp_bind]. eexists. split.
  - f_equal. f_equal. f_equal. unfold content. rewrite <- app_assoc. by apply strndup_app.
  - replace (Z.to_nat (zlen content - Z.of_nat (length user))) with (length pass + 1)%nat
      by (unfold zlen in *; lia).
    unfold content. rewrite <- app_assoc. cbn [app].
    assert (drop (length user + 1) (user ++ 58 :: pass ++ 0 :: rest)
            = (pass ++ [0]) ++ rest) as ->.
    { rewrite <- drop_drop, drop_app_length, <- app_assoc. done. }
    rewrite take_app_length' by (rewrite length_app; done). rewrite <- app_assoc. cbn [app].
    by apply cstr_app_nul.
Qed.

(** Basic credentials survive the header.  For any user name without a colon
    and any password, the header built from them is parsed back to exactly that
    user and password, whatever the heap contained. *)
Theorem basic_roundtrip user pass :
  Forall is_byte user → Forall is_byte pass → nul_free user → nul_free pass → 58 ∉ user →
  ∃ header buf,
    cockpit_authorize_build_basic malloc (Some user) (Some pass) = Ok header ∧
    cockpit_authorize_parse_basic malloc (Some header) = Ok (buf, Some user) ∧
    cstr buf = pass.
Proof using malloc_length.
  intros Hu Hp Hun Hpn Hc.
  destruct (parse_basic_encoded user pass) as (buf & Hparse & Hbuf); [done..|].
  eexists _, buf. split; [|split; [exact Hparse|done]].
  unfold cockpit_authorize_build_basic.
  change (default [] (Some user) ++ [58] ++ default [] (Some pass)) with (user ++ [58] ++ pass).
  rewrite ntop_fresh with (src := user ++ [58] ++ pass); [done| |done|].
  - apply Forall_app. split; [done|]. by constructor.
  - rewrite malloc_zlen. unfold cockpit_base64_size.
    pose proof (zlen_nonneg (user ++ [58] ++ pass)). lia.
Qed.

(** Binary Negotiate tokens survive the header, the empty token included. *)
Theorem negotiate_roundtrip token :
  Forall is_byte token →
  ∃ header,
    cockpit_authorize_build_negotiate malloc (Some token) = Ok header ∧
    cockpit_authorize_parse_negotiate malloc (Some header) = Ok token.
Proof using malloc_length.
  intros Hb. unfold cockpit_authorize_build_negotiate.
  change (default [] (Some token)) with token.
  destruct (zlen token >? 0) eqn:E; to_prop.
  - rewrite ntop_fresh with (src := token); [|done|done|rewrite malloc_zlen; unfold cockpit_base64_size; lia].
    eexists. split; [done|].
    destruct (header_decode token Hb) as (rest & Hs & Hd & Hl).
    unfold cockpit_authorize_parse_negotiate.
    change (bs "Negotiate" ++ [32] ++ encode token)
      with (bs "Negotiate" ++ 32 :: encode token).
    rewrite authorize_type_spec; [|by_decide|done].
    cbn [mbind comp_bind]. rewrite (skip_char_plain _ (encode_plain _ Hb)).
    rewrite bool_decide_eq_false_2 by (by intros []). cbn [cfail_if mbind comp_bind].
    rewrite Hs, Hd. cbn. unfold zlen. by rewrite Nat2Z.id, take_app_length.
  - pose proof (zlen_nonneg token). rewrite (zlen_0_inv token) by lia.
    by eexists.
Qed.

Lemma parse_conversation_encoded conv prompt :
  Forall plain conv → conv ≠ [] → Forall is_byte prompt → nul_free prompt →
  cockpit_authorize_parse_x_conversation malloc
    (Some (bs "X-Conversation" ++ 32 :: conv ++
           match prompt with [] => [] | _ => [32] ++ encode prompt end))
  = Ok (prompt, conv).
Proof using malloc_length.
  intros Hc Hne Hb Hn. unfold cockpit_authorize_parse_x_conversation.
  destruct (authorize_subject_spec (bs "X-Conversation") conv (encode prompt)) as [Hs1 Hs2];
    [by_decide|done|done|done|].
  rewrite authorize_type_spec; [|by_decide|done]. cbn [mbind comp_bind].
  rewrite bool_decide_eq_false_2 by (by intros []). cbn [cfail_if mbind comp_bind].
  destruct (header_decode prompt Hb) as (rest & Hs & Hd & Hl).
  assert (Hdec : cockpit_authorize_subject (Some (bs "X-Conversation" ++ 32 :: conv ++
     match prompt with [] => [] | _ => [32] ++ encode prompt end))
     = Ok (conv, encode prompt)).
  { destruct prompt as [|p prompt].
    - by rewrite app_nil_r, Hs2.
    - cbn [app] in *. rewrite Hs1. f_equal. f_equal. by apply skip_char_plain, encode_plain. }
  rewrite Hdec. cbn [mbind comp_bind]. rewrite Hs, Hd. cbn [mbind comp_bind].
  destruct rest as [|x rest].
  { rewrite app_nil_r in Hl. pose proof (encode_length prompt).
    pose proof (zlen_nonneg prompt). lia. }
  rewrite buf_set_app. cbn. by rewrite cstr_app_nul.
Qed.

(** A conversation survives its headers.  Whether the conversation id is one
    received before or a nonce of 128 fresh bytes, the header built for a prompt
    is parsed back to the same prompt and the same id, which is what lets the
    answer be matched to the question. *)
Theorem conversation_roundtrip prompt conversation nonce :
  Forall is_byte prompt → nul_free prompt →
  match conversation with
  | Some conv => Forall plain conv ∧ conv ≠ []
  | None => ∃ key, nonce = Ok key ∧ Forall is_byte key ∧ zlen key = 128
  end →
  ∃ header conv,
    cockpit_authorize_build_x_conversation malloc (Some prompt) conversation nonce
      = Ok (header, conv) ∧
    (∀ c, conversation = Some c → conv = c) ∧
    cockpit_authorize_parse_x_conversation malloc (Some header) = Ok (prompt, conv).
Proof using malloc_length.
  intros Hb Hn Hconv. unfold cockpit_authorize_build_x_conversation.
  change (default [] (Some prompt)) with prompt.
  assert (∃ conv, Forall plain conv ∧ conv ≠ [] ∧ (∀ c, conversation = Some c → conv = c) ∧
    match conversation with
    | Some conv => Ok conv
    | None => key ← nonce; ntop_errno (cockpit_base64_ntop key
        (malloc (Z.to_nat (cockpit_base64_size 128))) (cockpit_base64_size 128))
    end = Ok (E := errno) conv) as (conv & Hp & Hne & Heq & ->).
  { destruct conversation as [conv|].
    - destruct Hconv. exists conv. split_and!; try done. by intros ? [= ->].
    - destruct Hconv as (key & -> & Hkb & Hkl). exists (encode key). split_and!.
      + by apply encode_plain.
      + pose proof (encode_length key). intros Hnil. rewrite Hnil, Hkl in H. done.
      + done.
      + cbn [mbind comp_bind]. apply ntop_fresh; [done|by rewrite Hkl|].
        rewrite malloc_zlen. done. }
  cbn [mbind comp_bind].
  rewrite (proj2 (Z.eqb_neq _ _)); [|intros H; by apply zlen_0_inv in H].
  cbn [cfail_if mbind comp_bind].
  pose proof (parse_conversation_encoded conv prompt Hp Hne Hb Hn) as Hparse.
  exists (bs "X-Conversation" ++ 32 :: conv ++
           match prompt with [] => [] | _ => [32] ++ encode prompt end), conv.
  split; [|done]. destruct prompt as [|p prompt]; [done|].
  rewrite (proj2 (Z.gtb_lt _ _)) by (rewrite zlen_cons; pose proof (zlen_nonneg prompt); lia).
  rewrite ntop_fresh with (src := p :: prompt); [done|done|done|].
  rewrite malloc_zlen. unfold cockpit_base64_size. pose proof (zlen_nonneg (p :: prompt)). lia.
Qed.

Lemma authorize_type_safe c : safe (cockpit_authorize_type c).
Proof. destruct c as [s|]; [|done]. unfold cockpit_authorize_type. by destruct (_ =? 0)%nat. Qed.

Lemma buf_end_safe buf n : 0 ≤ n < zlen buf → safe (buf_set (E := errno) buf n 0).
Proof. intros Hn. by rewrite buf_set_Ok. Qed.

Lemma parse_basic_safe challenge : safe (cockpit_authorize_parse_basic malloc challenge).
Proof using malloc_length.
  apply safe_bind; [apply authorize_type_safe|]. intros [ty r] _. apply safe_bind; [auto with cockpit|].
  intros _ _. cbv zeta. destruct (strcspn r [32%Z] =? 0)%nat eqn:E.
  { apply safe_bind; [|done]. apply buf_end_safe. rewrite malloc_zlen. lia. }
  pose proof (pton_malloc r _ eq_refl) as Hp. unfold mbind at 1, comp_bind at 1.
  destruct (pton_errno _) as [[n buf]|e|]; [|done|done].
  destruct Hp as [Hn Hl]. rewrite (proj2 (Z.leb_le _ _)) by lia.
  cbn [cassert mbind comp_bind]. rewrite buf_set_Ok by lia. cbn [mbind comp_bind].
  set (buf' := <[Z.to_nat n := 0]> buf).
  assert (Hoff : (strcspn buf' [58%Z] ≤ Z.to_nat n)%nat).
  { apply strcspn_nul, list_lookup_insert_eq. unfold zlen in Hl. lia. }
  destruct (Z.eqb_spec (Z.of_nat (strcspn buf' [58])) n); [done|]. cbn [cfail_if mbind comp_bind].
  rewrite (proj2 (Z.leb_le _ _)); [done|].
  assert (zlen buf' = zlen buf) by apply zlen_insert. lia.
Qed.

(** The header parsers are memory safe on every header: the decoded length
    never exceeds the buffer, and the splitting of "user:password" and the
    [memmove] that follows stay inside it. *)
Theorem authorize_parsers_safe challenge :
  safe (cockpit_authorize_parse_basic malloc challenge) ∧
  safe (cockpit_authorize_parse_negotiate malloc challenge) ∧
  safe (cockpit_authorize_parse_x_conversation malloc challenge).
Proof using malloc_length.
  assert (Ht := authorize_type_safe).
  assert (Hs : ∀ c, safe (cockpit_authorize_subject c)).
  { intros c. unfold cockpit_authorize_subject. apply safe_bind; [done|].
    intros [t r] _. by destruct (_ =? 0)%nat. }
  split_and!; [apply parse_basic_safe| |].
  - apply safe_bind; [done|]. intros [ty r] _. apply safe_bind; [auto with cockpit|].
    intros _ _. pose proof (pton_malloc r _ eq_refl) as Hp. unfold mbind, comp_bind.
    by destruct (pton_errno _) as [[n buf]|e|].
  - apply safe_bind; [done|]. intros [ty ?] _. apply safe_bind; [auto with cockpit|].
    intros _ _. apply safe_bind; [done|]. intros [conv r] _.
    pose proof (pton_malloc r _ eq_refl) as Hp. unfold mbind at 1, comp_bind at 1.
    destruct (pton_errno _) as [[n buf]|e|]; [|done|done].
    apply safe_bind; [apply buf_end_safe; lia|done].
Qed.
End Properties.

Example basic_roundtrip_witness :
  ∃ header buf,
    cockpit_authorize_build_basic (λ n, replicate n 205) (Some (bs "root")) (Some (bs "a:b"))
      = Ok header ∧
    cockpit_authorize_parse_basic (λ n, replicate n 205) (Some header)
      = Ok (buf, Some (bs "root")) ∧
    cstr buf = bs "a:b".
Proof.
  apply (basic_roundtrip (λ n, replicate n 205) (λ n, length_replicate n 205)); by_decide.
Defined.

Example negotiate_roundtrip_witness :
  ∃ header,
    cockpit_authorize_build_negotiate (λ n, replicate n 205) (Some [0; 1; 255]) = Ok header ∧
    cockpit_authorize_parse_negotiate (λ n, replicate n 205) (Some header) = Ok [0; 1; 255].
Proof.
  apply (negotiate_roundtrip (λ n, replicate n 205) (λ n, length_replicate n 205)); by_decide.
Defined.

Example conversation_roundtrip_witness :
  ∃ header conv,
    cockpit_authorize_build_x_conversation (λ n, replicate n 205) (Some (bs "PIN:")) None
      (Ok (replicate 128 7)) = Ok (header, conv) ∧
    (∀ c, None = Some c → conv = c) ∧
    cockpit_authorize_parse_x_conversation (λ n, replicate n 205) (Some header)
      = Ok (bs "PIN:", conv).
Proof.
  apply (conversation_roundtrip (λ n, replicate n 205) (λ n, length_replicate n 205));
    [by_decide|by_decide|].
  exists (replicate 128 7). split_and!; [done|by_decide|done].
Defined.

Example authorize_parsers_safe_witness :
  safe (cockpit_authorize_parse_basic (λ n, replicate n 205) (Some (bs "Basic YQ=="))).
Proof.
  apply (authorize_parsers_safe (λ n, replicate n 205) (λ n, length_replicate n 205)
           (Some (bs "Basic YQ=="))).
Defined.
