(* ===== verification/TlsBuffer.v ===== *)
(** * The proxy's ring buffers: [src/tls/connection.c], lines 71-379

    cockpit-tls shuttles bytes between a browser and a web service instance through
    two 16 KiB ring buffers whose [start] and [end] are free-running [unsigned]
    counters.  The buffers are modelled with their storage, the counters at their
    width, the scatter/gather vectors built over the storage and the outcome of the
    system or GnuTLS call as an argument.  The abstract specification is a FIFO
    queue, [contents]; the theorems show that the operations implement it across
    the wrap-around of the counters, and when they lose data. *)

From S2P Require Import Prelude.

Definition BUFFER_SIZE : Z := 16 * 2 ^ 10.
Definition BUFFER_MASK : Z := BUFFER_SIZE - 1.

Record Buffer := mkBuffer {
  buffer : list Z;
  start : Z;
  end_ : Z;
  eof : bool;
  shut_rd : bool;
  shut_wr : bool
}.

(** [self->end - self->start] as [unsigned] *)
Definition buffer_used (self : Buffer) : Z := u32 (end_ self - start self).

Definition buffer_full (self : Buffer) : bool := buffer_used self =? BUFFER_SIZE.
Definition buffer_empty (self : Buffer) : bool := end_ self =? start self.
Definition buffer_can_read (self : Buffer) : bool := negb (shut_rd self) && negb (buffer_full self).
Definition buffer_can_write (self : Buffer) : bool := negb (shut_wr self) && negb (buffer_empty self).
Definition buffer_needs_shut_rd (self : Buffer) : bool := eof self && negb (shut_rd self).
Definition buffer_needs_shut_wr (self : Buffer) : bool :=
  eof self && buffer_empty self && negb (shut_wr self).
Definition buffer_alive (self : Buffer) : bool := negb (shut_rd self) || negb (shut_wr self).
Definition buffer_shut_rd (self : Buffer) : Buffer :=
  mkBuffer (buffer self) (start self) (end_ self) (eof self) true (shut_wr self).
Definition buffer_shut_wr (self : Buffer) : Buffer :=
  mkBuffer (buffer self) (start self) (end_ self) (eof self) (shut_rd self) true.
Definition buffer_eof (self : Buffer) : Buffer :=
  mkBuffer (buffer self) (start self) (end_ self) true (shut_rd self) (shut_wr self).
Definition buffer_epipe (self : Buffer) : Buffer :=
  mkBuffer (buffer self) (end_ self) (end_ self) true (shut_rd self) (shut_wr self).
Definition buffer_valid (self : Buffer) : bool := buffer_used self <=? BUFFER_SIZE.

(** The bits of [poll]. *)
Definition POLLIN : Z := 1.
Definition POLLOUT : Z := 4.

Definition calculate_events (reader writer : Buffer) : Z :=
  Z.lor (Z.b2z (buffer_can_read reader) * POLLIN) (Z.b2z (buffer_can_write writer) * POLLOUT).

Definition calculate_revents (reader writer : Buffer) : Z :=
  Z.lor (Z.b2z (buffer_needs_shut_rd reader) * POLLIN)
        (Z.b2z (buffer_needs_shut_wr writer) * POLLOUT).

(** ** Scatter/gather vectors

    A vector is a list of (offset into the storage, length). *)

Fixpoint iovec_loop (n : nat) (start end_ : Z) : list (Z * Z) :=
  match n with
  | O => []
  | S n' =>
      if start =? end_ then []
      else
        let start_offset := Z.land start BUFFER_MASK in
        let len := Z.min (BUFFER_SIZE - start_offset) (u32 (end_ - start)) in
        (start_offset, len) :: iovec_loop n' (u32 (start + len)) end_
  end.

Definition get_iovecs (iov_length : nat) (start end_ : Z) : comp unit (list (Z * Z)) :=
  _ ← cassert (u32 (end_ - start) <=? BUFFER_SIZE);
  Ok (iovec_loop iov_length start end_).

(** The bytes the vector designates, in order. *)
Definition gather (buf : list Z) (iov : list (Z * Z)) : list Z :=
  iov ≫= λ '(off, len), take (Z.to_nat len) (drop (Z.to_nat off) buf).

(** [memcpy (buf + off, d, length (d))] *)
Definition overlay (buf : list Z) (off : nat) (d : list Z) : list Z :=
  take off buf ++ d ++ drop (off + length d) buf.

(** What [readv] does to the storage when it returns the bytes [d]. *)
Fixpoint scatter (buf : list Z) (iov : list (Z * Z)) (d : list Z) : list Z :=
  match iov with
  | [] => buf
  | (off, len) :: iov' =>
      scatter (overlay buf (Z.to_nat off) (take (Z.to_nat len) d)) iov' (drop (Z.to_nat len) d)
  end.

Definition iov_total (iov : list (Z * Z)) : Z := foldr (λ v n, v.2 + n) 0 iov.

(** ** Transfers

    The result of a call, after the loop that retries interrupted calls: bytes
    accepted (at most what was offered), bytes delivered (none at the end of the
    stream; at most what there is room for), "try again", or another error. *)

Inductive io_send := SendSome (n : nat) | SendAgain | SendError.
Inductive io_recv := RecvSome (d : list Z) | RecvAgain | RecvError.

Definition set_start (self : Buffer) (s : Z) : Buffer :=
  mkBuffer (buffer self) s (end_ self) (eof self) (shut_rd self) (shut_wr self).

Definition set_data (self : Buffer) (buf : list Z) (e : Z) : Buffer :=
  mkBuffer buf (start self) e (eof self) (shut_rd self) (shut_wr self).

(** The effects of a transfer on the outside. *)
Record wrote := Wrote {
  w_sent : list Z;         (** bytes handed to the peer *)
  w_fd_sent : option Z;    (** the file descriptor passed along, then closed *)
  w_shutdown : bool        (** [shutdown (SHUT_WR)] or [gnutls_bye] *)
}.

Record took := Took {
  r_received : list Z;     (** bytes that the call has taken from the peer *)
  r_shutdown : bool        (** [shutdown (SHUT_RD)] *)
}.

(** [if (buffer_needs_shut_wr (self)) ...; assert (buffer_valid (self));] *)
Definition buffer_write_tail (self : Buffer) (sent : list Z) (fd_sent : option Z)
    : comp unit (Buffer * wrote) :=
  let shut := buffer_needs_shut_wr self in
  let self := if shut then buffer_shut_wr self else self in
  _ ← cassert (buffer_valid self);
  Ok (self, Wrote sent fd_sent shut).

(** [fd_to_send] is [*fd_to_send], [None] standing for -1 or a [NULL] pointer; the
    last result is its value afterwards. *)
Definition buffer_write_to_fd (self : Buffer) (fd_to_send : option Z) (result : io_send)
    : comp unit (Buffer * wrote * option Z) :=
  iov ← get_iovecs 2 (start self) (end_ self);
  if (length iov =? 0)%nat then
    '(self, w) ← buffer_write_tail self [] None; Ok (self, w, fd_to_send)
  else
    match result with
    | SendSome n =>
        let s := Nat.min n (Z.to_nat (iov_total iov)) in
        '(self', w) ← buffer_write_tail (set_start self (u32 (start self + Z.of_nat s)))
                        (take s (gather (buffer self) iov)) fd_to_send;
        Ok (self', w, None)
    | SendAgain => '(self, w) ← buffer_write_tail self [] None; Ok (self, w, fd_to_send)
    | SendError =>
        '(self, w) ← buffer_write_tail (buffer_epipe self) [] None; Ok (self, w, fd_to_send)
    end.

(** What [readv] or [gnutls_record_recv] takes from the peer: as much as there is room for in the vector *)
Definition io_received (iov : list (Z * Z)) (result : io_recv) : list Z :=
  match result with RecvSome d => take (Z.to_nat (iov_total iov)) d | _ => [] end.

Definition buffer_read_from_fd (self : Buffer) (result : io_recv) : comp unit (Buffer * took) :=
  if buffer_needs_shut_rd self then Ok (buffer_shut_rd self, Took [] true)
  else
    iov ← get_iovecs 2 (end_ self) (u32 (start self + BUFFER_SIZE));
    _ ← cassert (0 <? length iov)%nat;
    let self' :=
      match result with
      | RecvSome _ =>
          let d := io_received iov result in
          if (length d =? 0)%nat then buffer_eof self
          else set_data self (scatter (buffer self) iov d) (u32 (end_ self + zlen d))
      | RecvAgain => self
      | RecvError => buffer_eof self
      end in
    _ ← cassert (buffer_valid self');
    Ok (self', Took (io_received iov result) false).

Definition buffer_write_to_tls (self : Buffer) (result : io_send) : comp unit (Buffer * wrote) :=
  iov ← get_iovecs 1 (start self) (end_ self);
  if (length iov =? 0)%nat then buffer_write_tail self [] None
  else
    match result with
    | SendSome n =>
        let s := Nat.min n (Z.to_nat (iov_total iov)) in
        buffer_write_tail (set_start self (u32 (start self + Z.of_nat s)))
          (take s (gather (buffer self) iov)) None
    | SendAgain => buffer_write_tail self [] None
    | SendError => buffer_write_tail (buffer_epipe self) [] None
    end.

(** The end of a TLS stream takes the error branch: [s <= 0] and not "again". *)
Definition buffer_read_from_tls (self : Buffer) (result : io_recv) : comp unit (Buffer * took) :=
  if buffer_needs_shut_rd self then Ok (buffer_shut_rd self, Took [] true)
  else
    iov ← get_iovecs 1 (end_ self) (u32 (start self + BUFFER_SIZE));
    _ ← cassert (length iov =? 1)%nat;
    let self' :=
      match result with
      | RecvSome _ =>
          let d := io_received iov result in
          if (length d =? 0)%nat then buffer_epipe self
          else set_data self (scatter (buffer self) iov d) (u32 (end_ self + zlen d))
      | RecvAgain => self
      | RecvError => buffer_epipe self
      end in
    _ ← cassert (buffer_valid self');
    Ok (self', Took (io_received iov result) false).

(** ** The abstract queue *)

Definition contents (self : Buffer) : list Z :=
  (λ i, default 0 (buffer self !! Z.to_nat ((start self + Z.of_nat i) mod BUFFER_SIZE)))
    <$> seq 0 (Z.to_nat (buffer_used self)).

(** Well-formed buffers: the storage has its size, the counters are [unsigned] and
    at most one storage apart. *)
Definition buffer_ok (self : Buffer) : Prop :=
  zlen (buffer self) = BUFFER_SIZE ∧
  0 ≤ start self < 2 ^ 32 ∧ 0 ≤ end_ self < 2 ^ 32 ∧
  buffer_used self ≤ BUFFER_SIZE.

(** ** Reading the ring *)

Definition ring (buf : list Z) (s : Z) (n : nat) : list Z :=
  (λ i, default 0 (buf !! Z.to_nat ((s + Z.of_nat i) mod 16384))) <$> seq 0 n.

Lemma contents_ring self : contents self = ring (buffer self) (start self) (Z.to_nat (buffer_used self)).
Proof. done. Qed.

Lemma ring_length buf s n : length (ring buf s n) = n.
Proof. unfold ring. by rewrite length_fmap, length_seq. Qed.

Lemma ring_lookup buf s n i :
  (i < n)%nat → ring buf s n !! i = Some (default 0 (buf !! Z.to_nat ((s + Z.of_nat i) mod 16384))).
Proof. intros Hi. unfold ring. by rewrite list_lookup_fmap, lookup_seq_lt. Qed.

Lemma ring_ext buf buf' s s' n :
  (∀ i, (i < n)%nat → buf !! Z.to_nat ((s + Z.of_nat i) mod 16384)
                      = buf' !! Z.to_nat ((s' + Z.of_nat i) mod 16384)) →
  ring buf s n = ring buf' s' n.
Proof.
  intros H. unfold ring. apply list_fmap_ext. intros i x Hx.
  apply lookup_seq in Hx as [-> Hi]. cbn. by rewrite H.
Qed.

Lemma ring_u32 buf s n : ring buf (u32 s) n = ring buf s n.
Proof. apply ring_ext. intros i _. unfold u32. f_equal. f_equal. lia. Qed.

Lemma ring_app buf s n m :
  ring buf s (n + m) = ring buf s n ++ ring buf (s + Z.of_nat n) m.
Proof.
  unfold ring. rewrite seq_app, fmap_app. f_equal. cbn.
  rewrite <- (Nat.add_0_r n) at 1. rewrite <- fmap_add_seq, <- list_fmap_compose.
  apply list_fmap_ext. intros i x _. cbn. f_equal. f_equal. f_equal. lia.
Qed.

(** A part that does not wrap around is a slice of the storage. *)
Lemma ring_slice buf s n :
  zlen buf = 16384 → s mod 16384 + Z.of_nat n ≤ 16384 →
  ring buf s n = take n (drop (Z.to_nat (s mod 16384)) buf).
Proof.
  intros Hb Hn. apply list_eq. intros i. destruct (decide (i < n)%nat) as [Hi|Hi].
  - rewrite ring_lookup, lookup_take_lt, lookup_drop by done.
    replace (Z.to_nat (s mod 16384) + i)%nat with (Z.to_nat ((s + Z.of_nat i) mod 16384)) by lia.
    destruct (lookup_lt_is_Some_2 buf (Z.to_nat ((s + Z.of_nat i) mod 16384))) as [x ->];
      [unfold zlen in Hb; lia|done].
  - rewrite !lookup_ge_None_2; [done|rewrite length_take; lia|rewrite ring_length; lia].
Qed.

(** ** The vectors *)

Lemma mask_mod x : Z.land x BUFFER_MASK = x mod 16384.
Proof. change BUFFER_MASK with (Z.ones 14). rewrite Z.land_ones; [done|lia]. Qed.

Definition u32_range (z : Z) : Prop := 0 ≤ z < 2 ^ 32.

Lemma u32_sub_0 s e : u32_range s → u32_range e → u32 (e - s) = 0 ↔ s = e.
Proof. unfold u32_range, u32. lia. Qed.

Lemma get_iovecs_2 s e :
  u32_range s → u32_range e → u32 (e - s) ≤ 16384 →
  get_iovecs 2 s e = Ok (
    let n := u32 (e - s) in
    if decide (n = 0) then []
    else if decide (s mod 16384 + n ≤ 16384) then [(s mod 16384, n)]
    else [(s mod 16384, 16384 - s mod 16384); (0, n - (16384 - s mod 16384))]).
Proof.
  intros Hs He Hn. unfold get_iovecs. change BUFFER_SIZE with 16384.
  rewrite (proj2 (Z.leb_le _ _)) by done. cbn [cassert mbind comp_bind iovec_loop]. f_equal.
  change BUFFER_SIZE with 16384. rewrite !mask_mod. cbv zeta.
  pose proof (u32_sub_0 s e Hs He) as H0.
  destruct (decide (u32 (e - s) = 0)) as [E|E].
  { rewrite (proj1 H0 E), Z.eqb_refl. done. }
  rewrite (proj2 (Z.eqb_neq s e)) by tauto.
  unfold u32_range, u32 in *. destruct (decide _) as [Hc|Hc].
  - rewrite Z.min_r by lia.
    replace ((s + (e - s) mod 2 ^ 32) mod 2 ^ 32) with e by lia. by rewrite Z.eqb_refl.
  - rewrite Z.min_l by lia. f_equal.
    rewrite (proj2 (Z.eqb_neq _ e)) by lia. f_equal. f_equal; [lia|].
    rewrite Z.min_r by lia. lia.
Qed.

Lemma get_iovecs_1 s e :
  u32_range s → u32_range e → u32 (e - s) ≤ 16384 →
  get_iovecs 1 s e = Ok (
    if decide (u32 (e - s) = 0) then []
    else [(s mod 16384, Z.min (16384 - s mod 16384) (u32 (e - s)))]).
Proof.
  intros Hs He Hn. unfold get_iovecs. change BUFFER_SIZE with 16384.
  rewrite (proj2 (Z.leb_le _ _)) by done. cbn [cassert mbind comp_bind iovec_loop]. f_equal.
  change BUFFER_SIZE with 16384. rewrite !mask_mod.
  pose proof (u32_sub_0 s e Hs He) as H0.
  destruct (decide (u32 (e - s) = 0)) as [E|E].
  - by rewrite (proj1 H0 E), Z.eqb_refl.
  - by rewrite (proj2 (Z.eqb_neq s e)) by tauto.
Qed.

(** What a vector over [n] bytes from [s] gathers. *)
Lemma gather_ring buf s e k iov :
  zlen buf = 16384 → u32_range s → u32_range e → u32 (e - s) ≤ 16384 →
  (k = 1 ∨ k = 2)%nat → get_iovecs k s e = Ok iov →
  0 ≤ iov_total iov ≤ u32 (e - s) ∧
  (k = 2%nat → iov_total iov = u32 (e - s)) ∧
  (iov = [] ↔ s = e) ∧
  gather buf iov = ring buf s (Z.to_nat (iov_total iov)).
Proof.
  intros Hb Hs He Hn Hk Hiov. pose proof (u32_sub_0 s e Hs He) as H0.
  assert (Hpos : 0 ≤ u32 (e - s)) by (unfold u32; lia).
  destruct Hk as [-> | ->].
  - rewrite get_iovecs_1 in Hiov by done. injection Hiov as <-.
    destruct (decide _) as [E|E]; cbn [iov_total foldr snd].
    + split_and!; [lia..|done| |done]. by rewrite <- H0.
    + split_and!; [lia..|done|split; [done|tauto]|].
      unfold gather. cbn [mbind list_bind]. rewrite app_nil_r, Z.add_0_r.
      rewrite ring_slice; [done|done|lia].
  - rewrite get_iovecs_2 in Hiov by done. injection Hiov as <-. cbv zeta.
    destruct (decide _) as [E|E]; [|destruct (decide _) as [Hc|Hc]]; cbn [iov_total foldr snd].
    + split_and!; [lia..| |done]. by rewrite <- H0.
    + split_and!; [lia..|split; [done|tauto]|].
      unfold gather. cbn [mbind list_bind]. rewrite app_nil_r, Z.add_0_r.
      rewrite ring_slice; [done|done|lia].
    + split_and!; [lia..|split; [done|tauto]|].
      unfold gather. cbn [mbind list_bind]. rewrite app_nil_r, Z.add_0_r.
      set (a := 16384 - s mod 16384). set (b := u32 (e - s) - a).
      replace (Z.to_nat (a + b)) with (Z.to_nat a + Z.to_nat b)%nat by lia.
      rewrite ring_app. f_equal.
      * rewrite ring_slice; [done|done|lia].
      * rewrite ring_slice; [|done|lia].
        replace ((s + Z.of_nat (Z.to_nat a)) mod 16384) with 0 by lia. done.
Qed.

(** ** Storing into the ring *)

Lemma overlay_length buf off d :
  (off + length d ≤ length buf)%nat → length (overlay buf off d) = length buf.
Proof. intros H. unfold overlay. rewrite !length_app, length_take, length_drop. lia. Qed.

Lemma overlay_lookup buf off d j :
  (off + length d ≤ length buf)%nat →
  overlay buf off d !! j
  = if decide (off ≤ j < off + length d)%nat then d !! (j - off)%nat else buf !! j.
Proof.
  intros H. unfold overlay. destruct (decide (off ≤ j < off + length d)%nat) as [[H1 H2]|Hn].
  - rewrite lookup_app_r by (rewrite length_take; lia).
    rewrite length_take, Nat.min_l by lia. by rewrite lookup_app_l by lia.
  - destruct (decide (j < off)%nat).
    + rewrite lookup_app_l by (rewrite length_take; lia). by rewrite lookup_take_lt.
    + rewrite lookup_app_r by (rewrite length_take; lia).
      rewrite length_take, Nat.min_l, lookup_app_r, lookup_drop by lia. f_equal. lia.
Qed.

Lemma overlay_nil buf off : overlay buf off [] = buf.
Proof. unfold overlay. cbn. by rewrite Nat.add_0_r, take_drop. Qed.

Lemma get_iovecs_scatter buf s e k iov d :
  zlen buf = 16384 → u32_range s → u32_range e → u32 (e - s) ≤ 16384 →
  (k = 1 ∨ k = 2)%nat → get_iovecs k s e = Ok iov → zlen d ≤ iov_total iov →
  length (scatter buf iov d) = length buf ∧
  ∀ j, Z.of_nat j < 16384 →
    scatter buf iov d !! j
    = if decide ((Z.of_nat j - s) mod 16384 < zlen d)
      then d !! Z.to_nat ((Z.of_nat j - s) mod 16384) else buf !! j.
Proof.
  intros Hb Hs He Hn Hk Hiov.
  assert (Hlen : Z.of_nat (length buf) = 16384) by done.
  assert (Hone : ∀ len d, s mod 16384 + len ≤ 16384 → zlen d ≤ len →
    length (overlay buf (Z.to_nat (s mod 16384)) d) = length buf ∧
    ∀ j, Z.of_nat j < 16384 → overlay buf (Z.to_nat (s mod 16384)) d !! j
    = if decide ((Z.of_nat j - s) mod 16384 < zlen d)
      then d !! Z.to_nat ((Z.of_nat j - s) mod 16384) else buf !! j).
  { clear d. intros len d Hl Hd. unfold zlen in *. split; [apply overlay_length; lia|].
    intros j Hj. rewrite overlay_lookup by lia.
    destruct (decide _) as [E1|E1], (decide _) as [E2|E2]; [f_equal; lia|lia|lia|done]. }
  assert (Hnil : length buf = length buf ∧ ∀ j, Z.of_nat j < 16384 → buf !! j
    = if decide ((Z.of_nat j - s) mod 16384 < 0)
      then @nil Z !! Z.to_nat ((Z.of_nat j - s) mod 16384) else buf !! j).
  { split; [done|]. intros j _. rewrite decide_False by lia. done. }
  destruct Hk as [-> | ->].
  - rewrite get_iovecs_1 in Hiov by done. injection Hiov as <-.
    destruct (decide _) as [E|E]; cbn [iov_total foldr snd scatter]; intros Hd.
    { pose proof (zlen_nonneg d). rewrite (zlen_0_inv d) by lia. exact Hnil. }
    rewrite take_ge by (unfold zlen in Hd; lia). apply (Hone (zlen d)); lia.
  - rewrite get_iovecs_2 in Hiov by done. injection Hiov as <-. cbv zeta.
    destruct (decide _) as [E|E]; [|destruct (decide _) as [Hc|Hc]];
      cbn [iov_total foldr snd scatter]; intros Hd.
    + pose proof (zlen_nonneg d). rewrite (zlen_0_inv d) by lia. exact Hnil.
    + rewrite take_ge by (unfold zlen in Hd; lia). apply (Hone (zlen d)); lia.
    + set (a := Z.to_nat (16384 - s mod 16384)) in *.
      rewrite (take_ge (drop a d)) by (rewrite length_drop; unfold zlen in Hd; lia).
      destruct (Hone (16384 - s mod 16384) (take a d)) as [Hl1 Hj1]; [lia|rewrite zlen_take; lia|].
      split; [rewrite overlay_length; [done|rewrite Hl1, length_drop; unfold zlen in Hd; lia]|].
      intros j Hj. rewrite overlay_lookup by (rewrite Hl1, length_drop; unfold zlen in Hd; lia).
      rewrite Hj1, zlen_take, length_drop by done. unfold zlen in *.
      destruct (decide _) as [E1|E1].
      * rewrite lookup_drop, decide_True by lia. f_equal. lia.
      * destruct (decide ((Z.of_nat j - s) mod 16384 < Z.of_nat (length d))) as [E2|E2].
        -- rewrite decide_True, lookup_take_lt by lia. done.
        -- rewrite decide_False by lia. done.
Qed.

(** Storing [d] after [n] bytes appends it to what the ring holds. *)
Lemma ring_store buf buf' s n d :
  zlen buf = 16384 → Z.of_nat n + zlen d ≤ 16384 →
  (∀ j, Z.of_nat j < 16384 → buf' !! j
    = if decide ((Z.of_nat j - (s + Z.of_nat n)) mod 16384 < zlen d)
      then d !! Z.to_nat ((Z.of_nat j - (s + Z.of_nat n)) mod 16384) else buf !! j) →
  ring buf' s (n + length d) = ring buf s n ++ d.
Proof.
  intros Hb Hn H. unfold zlen in *. rewrite ring_app. f_equal.
  - apply ring_ext. intros i Hi. rewrite H by lia. rewrite decide_False by lia. done.
  - apply list_eq. intros i. destruct (decide (i < length d)%nat) as [Hi|Hi].
    + rewrite ring_lookup, H by lia. rewrite decide_True by lia.
      replace (Z.to_nat _) with i by lia.
      destruct (lookup_lt_is_Some_2 d i Hi) as [x ->]. done.
    + rewrite !lookup_ge_None_2; [done|lia|rewrite ring_length; lia].
Qed.

(** ** Abstract specification: a bounded FIFO with three flags *)

Record queue := Queue {
  q_data : list Z;
  q_eof : bool;
  q_shut_rd : bool;
  q_shut_wr : bool
}.

Definition abs (self : Buffer) : queue :=
  Queue (contents self) (eof self) (shut_rd self) (shut_wr self).

(** [Some n]: [n] bytes leave at the front; [None]: the reader is gone, so the data
    is dropped and the stream is at its end.  An exhausted stream is shut down. *)
Definition queue_send (q : queue) (r : option nat) : queue * list Z :=
  let '(q, sent) :=
    match r with
    | Some n => (Queue (drop n (q_data q)) (q_eof q) (q_shut_rd q) (q_shut_wr q),
                 take n (q_data q))
    | None => (Queue [] true (q_shut_rd q) (q_shut_wr q), [])
    end in
  let done := q_eof q && bool_decide (q_data q = []) in
  (Queue (q_data q) (q_eof q) (q_shut_rd q) (done || q_shut_wr q), sent).

Inductive queue_input :=
| QData (d : list Z)    (** bytes arrive *)
| QNothing
| QEof                  (** no more bytes will arrive *)
| QBroken.              (** the stream is at its end and what is queued is dropped *)

Definition queue_recv (q : queue) (i : queue_input) : queue :=
  if q_eof q && negb (q_shut_rd q) then Queue (q_data q) (q_eof q) true (q_shut_wr q)
  else
    match i with
    | QData d => Queue (q_data q ++ d) (q_eof q) (q_shut_rd q) (q_shut_wr q)
    | QNothing => q
    | QEof => Queue (q_data q) true (q_shut_rd q) (q_shut_wr q)
    | QBroken => Queue [] true (q_shut_rd q) (q_shut_wr q)
    end.

Lemma contents_length self : zlen (contents self) = buffer_used self.
Proof. rewrite contents_ring. unfold zlen. rewrite ring_length. unfold buffer_used, u32. lia. Qed.

Lemma used_bounds self : 0 ≤ buffer_used self < 2 ^ 32.
Proof. unfold buffer_used, u32. lia. Qed.

Lemma buffer_empty_contents self :
  buffer_ok self → buffer_empty self = bool_decide (contents self = []).
Proof.
  intros (_ & Hs & He & _). unfold buffer_empty. destruct (Z.eqb_spec (end_ self) (start self)) as [E|E].
  - symmetry. apply bool_decide_eq_true, zlen_0_inv. rewrite contents_length.
    unfold buffer_used, u32. lia.
  - symmetry. apply bool_decide_eq_false. intros Hn. apply (f_equal zlen) in Hn.
    rewrite contents_length in Hn. unfold buffer_used, u32 in Hn. rewrite zlen_nil in Hn. lia.
Qed.

Lemma buffer_valid_ok self : buffer_ok self → buffer_valid self = true.
Proof. intros (_ & _ & _ & H). unfold buffer_valid. by apply Z.leb_le. Qed.

Lemma used_set_start self n :
  buffer_ok self → 0 ≤ n ≤ buffer_used self →
  buffer_used (set_start self (u32 (start self + n))) = buffer_used self - n.
Proof. intros (_ & Hs & He & Hu) Hn. unfold buffer_used, u32 in *. cbn. lia. Qed.

(** Consuming [n] bytes from the front. *)
Lemma set_start_spec self n :
  buffer_ok self → Z.of_nat n ≤ buffer_used self →
  let self' := set_start self (u32 (start self + Z.of_nat n)) in
  buffer_ok self' ∧
  contents self = ring (buffer self) (start self) n ++ contents self'.
Proof.
  intros Hok Hn self'. pose proof (used_set_start self (Z.of_nat n) Hok) as Hu.
  destruct Hok as (Hb & Hs & He & Hle). split.
  - split_and!; [done|unfold u32_range, u32; cbn; unfold u32; lia..|].
    unfold self'. rewrite Hu by lia. lia.
  - rewrite !contents_ring. unfold self'. rewrite Hu by lia. cbn [set_start buffer start].
    rewrite ring_u32.
    replace (Z.to_nat (buffer_used self)) with (n + Z.to_nat (buffer_used self - Z.of_nat n))%nat by lia.
    by rewrite ring_app.
Qed.

Lemma epipe_spec self :
  buffer_ok self → buffer_ok (buffer_epipe self) ∧ contents (buffer_epipe self) = [].
Proof.
  intros (Hb & Hs & He & Hu).
  assert (Hz : buffer_used (buffer_epipe self) = 0)
    by (unfold buffer_used, u32; cbn; by rewrite Z.sub_diag).
  split; [unfold buffer_ok; rewrite Hz; cbn [buffer_epipe buffer start end_]; change BUFFER_SIZE with 16384 in *; lia|].
  apply zlen_0_inv. by rewrite contents_length.
Qed.

Lemma write_tail_spec self sent fd :
  buffer_ok self →
  ∃ self' w, buffer_write_tail self sent fd = Ok (self', w) ∧ buffer_ok self' ∧
    w_sent w = sent ∧ w_fd_sent w = fd ∧
    w_shutdown w = buffer_needs_shut_wr self ∧
    abs self' = Queue (contents self) (eof self) (shut_rd self)
                  ((eof self && bool_decide (contents self = [])) || shut_wr self).
Proof.
  intros Hok. unfold buffer_write_tail, buffer_needs_shut_wr.
  rewrite (buffer_empty_contents self Hok).
  destruct (eof self && _ && negb (shut_wr self)) eqn:E.
  - rewrite buffer_valid_ok by exact Hok. eexists _, _. split; [done|].
    split_and!; try done; try by rewrite E. to_prop. unfold abs. cbn.
    destruct (shut_wr self); [done|]. by rewrite H, H1.
  - rewrite buffer_valid_ok by done. eexists _, _. split; [done|].
    split_and!; try done; try by rewrite E. unfold abs. f_equal.
    destruct (shut_wr self); [by rewrite orb_true_r|].
    by rewrite andb_true_r in E; rewrite E.
Qed.

Lemma iovecs_send k self :
  buffer_ok self → (k = 1 ∨ k = 2)%nat →
  ∃ iov, get_iovecs k (start self) (end_ self) = Ok iov ∧
    0 ≤ iov_total iov ≤ buffer_used self ∧
    (k = 2%nat → iov_total iov = buffer_used self) ∧
    ((length iov =? 0)%nat = bool_decide (contents self = [])) ∧
    gather (buffer self) iov = ring (buffer self) (start self) (Z.to_nat (iov_total iov)).
Proof.
  intros Hok Hk. pose proof (buffer_empty_contents self Hok) as Hemp.
  destruct Hok as (Hb & Hs & He & Hu). unfold buffer_used in *.
  destruct (get_iovecs k (start self) (end_ self)) as [iov| |] eqn:E.
  - destruct (gather_ring (buffer self) _ _ k iov Hb Hs He Hu Hk E) as (H1 & H2 & H3 & H4).
    exists iov. split_and!; [done|lia|lia|done| |done]. rewrite <- Hemp. unfold buffer_empty.
    destruct iov; cbn.
    + symmetry. apply Z.eqb_eq. symmetry. by apply H3.
    + symmetry. apply Z.eqb_neq. intros Heq. symmetry in Heq. by apply H3 in Heq.
  - unfold get_iovecs in E. rewrite (proj2 (Z.leb_le _ _) Hu) in E. done.
  - unfold get_iovecs in E. rewrite (proj2 (Z.leb_le _ _) Hu) in E. done.
Qed.

Lemma queue_send_nothing self :
  (Queue (contents self) (eof self) (shut_rd self)
     (eof self && bool_decide (contents self = []) || shut_wr self), [])
  = queue_send (abs self) (Some 0%nat).
Proof. done. Qed.

(** The three outcomes of a send, for a vector of [total] bytes. *)
Lemma send_cases self iov fd result :
  buffer_ok self → 0 ≤ iov_total iov ≤ buffer_used self →
  gather (buffer self) iov = ring (buffer self) (start self) (Z.to_nat (iov_total iov)) →
  contents self ≠ [] →
  let out :=
    match result with
    | SendSome n =>
        let s := Nat.min n (Z.to_nat (iov_total iov)) in
        buffer_write_tail (set_start self (u32 (start self + Z.of_nat s)))
          (take s (gather (buffer self) iov)) fd
    | SendAgain => buffer_write_tail self [] None
    | SendError => buffer_write_tail (buffer_epipe self) [] None
    end in
  let r :=
    match result with
    | SendSome n => Some (Nat.min n (Z.to_nat (iov_total iov)))
    | SendAgain => Some 0%nat
    | SendError => None
    end in
  ∃ self' w, out = Ok (self', w) ∧ buffer_ok self' ∧ (abs self', w_sent w) = queue_send (abs self) r.
Proof.
  intros Hok Htot Hg Hne. cbv zeta. destruct result as [n| |].
  - set (s := Nat.min n (Z.to_nat (iov_total iov))).
    destruct (set_start_spec self s Hok) as [Hok' Hc]; [lia|].
    destruct (write_tail_spec _ (take s (gather (buffer self) iov)) fd Hok')
      as (self' & w & -> & Hok'' & Hsent & _ & _ & Habs).
    exists self', w. split_and!; [done..|]. unfold queue_send. cbn [q_data abs]. rewrite Habs, Hsent.
    rewrite Hc, drop_app_length', take_app_length' by by rewrite ring_length.
    cbn [q_eof q_shut_rd q_shut_wr q_data eof shut_rd shut_wr set_start]. f_equal.
    rewrite Hg. subst s.
    rewrite <- (Nat.min_l (Nat.min n (Z.to_nat (iov_total iov))) (Z.to_nat (iov_total iov))) at 1 by lia.
    replace (Z.to_nat (iov_total iov)) with
      (Nat.min n (Z.to_nat (iov_total iov)) + (Z.to_nat (iov_total iov) - Nat.min n (Z.to_nat (iov_total iov))))%nat
      at 3 by lia.
    rewrite ring_app, take_app_length' by (rewrite ring_length; lia). done.
  - destruct (write_tail_spec self [] None Hok) as (self' & w & -> & Hok' & Hsent & _ & _ & Habs).
    exists self', w. split_and!; [done..|]. by rewrite Habs, Hsent, queue_send_nothing.
  - destruct (epipe_spec self Hok) as [Hok' Hc].
    destruct (write_tail_spec _ [] None Hok') as (self' & w & -> & Hok'' & Hsent & _ & _ & Habs).
    exists self', w. split_and!; [done..|]. rewrite Habs, Hsent, Hc. done.
Qed.

Definition fd_send_amount (self : Buffer) (result : io_send) : option nat :=
  match result with
  | SendSome n => Some (Nat.min n (length (contents self)))
  | SendAgain => Some 0%nat
  | SendError => if bool_decide (contents self = []) then Some 0%nat else None
  end.

Lemma write_to_fd_refines self fd result :
  buffer_ok self →
  ∃ self' w fd', buffer_write_to_fd self fd result = Ok (self', w, fd') ∧ buffer_ok self' ∧
    (abs self', w_sent w) = queue_send (abs self) (fd_send_amount self result).
Proof.
  intros Hok. destruct (iovecs_send 2 self Hok) as (iov & Hiov & Htot & Htot2 & Hl & Hg); [by right|].
  specialize (Htot2 eq_refl). unfold buffer_write_to_fd. rewrite Hiov. cbn [mbind comp_bind].
  rewrite Hl. case_bool_decide as Hc.
  - destruct (write_tail_spec self [] None Hok) as (self' & w & -> & Hok' & Hsent & _ & _ & Habs).
    exists self', w, fd. split_and!; [done..|]. rewrite Habs, Hsent, queue_send_nothing.
    unfold fd_send_amount. rewrite Hc. destruct result; [by rewrite Nat.min_0_r|done|done].
  - destruct (send_cases self iov fd result Hok Htot Hg Hc) as (self' & w & Hout & Hok' & Hq).
    assert (Hn : Z.to_nat (iov_total iov) = length (contents self)).
    { rewrite Htot2, <- contents_length. unfold zlen. by rewrite Nat2Z.id. }
    unfold fd_send_amount. rewrite (bool_decide_eq_false_2 _ Hc).
    destruct result; cbv zeta in Hout; rewrite ?Hn in Hout, Hq |- *; rewrite Hout;
      cbn [mbind comp_bind]; by eauto 10.
Qed.

Lemma write_to_tls_refines self result :
  buffer_ok self →
  ∃ self' w r, buffer_write_to_tls self result = Ok (self', w) ∧ buffer_ok self' ∧
    (abs self', w_sent w) = queue_send (abs self) r ∧
    (r = None ↔ result = SendError ∧ contents self ≠ []) ∧
    (∀ n, r = Some n → (n ≤ length (contents self))%nat).
Proof.
  intros Hok. destruct (iovecs_send 1 self Hok) as (iov & Hiov & Htot & _ & Hl & Hg); [by left|].
  unfold buffer_write_to_tls. rewrite Hiov. cbn [mbind comp_bind]. rewrite Hl. case_bool_decide as Hc.
  - destruct (write_tail_spec self [] None Hok) as (self' & w & -> & Hok' & Hsent & _ & _ & Habs).
    exists self', w, (Some 0%nat). rewrite Habs, Hsent, queue_send_nothing.
    split_and!; [done..|split; [done|tauto]|]. intros n [= <-]. lia.
  - destruct (send_cases self iov None result Hok Htot Hg Hc) as (self' & w & Hout & Hok' & Hq).
    eexists self', w, _. split_and!; [exact Hout|exact Hok'|exact Hq| |].
    { destruct result; split; try done; by intros [? _]. }
    rewrite <- contents_length in Htot. unfold zlen in Htot.
    intros n. destruct result; intros [= <-]; lia.
Qed.

(** ** Receiving *)

Lemma iovecs_recv k self :
  buffer_ok self → (k = 1 ∨ k = 2)%nat → buffer_full self = false →
  ∃ iov, get_iovecs k (end_ self) (u32 (start self + BUFFER_SIZE)) = Ok iov ∧
    (0 < length iov ≤ k)%nat ∧
    0 < iov_total iov ≤ BUFFER_SIZE - buffer_used self ∧
    (k = 2%nat → iov_total iov = BUFFER_SIZE - buffer_used self).
Proof.
  intros (Hb & Hs & He & Hu) Hk Hf. unfold buffer_full in Hf. to_prop.
  change BUFFER_SIZE with 16384 in *. pose proof (used_bounds self).
  assert (Hn : u32 (u32 (start self + 16384) - end_ self) = 16384 - buffer_used self)
    by (unfold buffer_used, u32 in *; lia).
  assert (Hr : u32_range (u32 (start self + 16384))) by (unfold u32_range, u32; lia).
  destruct Hk as [-> | ->].
  - rewrite get_iovecs_1; [|done|done|rewrite Hn; lia]. eexists. split; [done|].
    rewrite Hn. rewrite decide_False by lia. cbn. lia.
  - rewrite get_iovecs_2; [|done|done|rewrite Hn; lia]. eexists. split; [done|]. cbv zeta.
    rewrite Hn. rewrite decide_False by lia. destruct (decide _); cbn; lia.
Qed.

Lemma recv_store k self iov d :
  buffer_ok self → (k = 1 ∨ k = 2)%nat →
  get_iovecs k (end_ self) (u32 (start self + BUFFER_SIZE)) = Ok iov →
  zlen d ≤ iov_total iov → iov_total iov ≤ BUFFER_SIZE - buffer_used self →
  let self' := set_data self (scatter (buffer self) iov d) (u32 (end_ self + zlen d)) in
  buffer_ok self' ∧ contents self' = contents self ++ d.
Proof.
  intros (Hb & Hs & He & Hu) Hk Hiov Hd Htot self'.
  change BUFFER_SIZE with 16384 in *. pose proof (zlen_nonneg d).
  assert (Hn : u32 (u32 (start self + 16384) - end_ self) ≤ 16384)
    by (unfold buffer_used, u32 in *; lia).
  assert (Hr : u32_range (u32 (start self + 16384))) by (unfold u32_range, u32; lia).
  destruct (get_iovecs_scatter (buffer self) _ _ k iov d Hb He Hr Hn Hk Hiov Hd) as [Hl Hj].
  assert (Hused : buffer_used self' = buffer_used self + zlen d).
  { unfold self', buffer_used, u32 in *. cbn. lia. }
  split.
  - unfold buffer_ok. rewrite Hused. change BUFFER_SIZE with 16384.
    cbn [self' set_data buffer start end_]. unfold zlen, u32 in *. lia.
  - rewrite !contents_ring, Hused. pose proof (used_bounds self).
    replace (Z.to_nat (buffer_used self + zlen d))
      with (Z.to_nat (buffer_used self) + length d)%nat by (unfold zlen; lia).
    cbn [self' set_data buffer start]. apply ring_store; [done|lia|].
    intros j Hjb. rewrite Hj by done.
    replace ((Z.of_nat j - (start self + Z.of_nat (Z.to_nat (buffer_used self)))) mod 16384)
      with ((Z.of_nat j - end_ self) mod 16384) by (unfold buffer_used, u32 in *; lia).
    done.
Qed.

Definition fd_recv_input (self : Buffer) (result : io_recv) : queue_input :=
  match result with
  | RecvSome d =>
      match take (Z.to_nat (BUFFER_SIZE - zlen (contents self))) d with
      | [] => QEof
      | d' => QData d'
      end
  | RecvAgain => QNothing
  | RecvError => QEof
  end.

Lemma eof_ok self : buffer_ok self → buffer_ok (buffer_eof self).
Proof. done. Qed.

(** What a read of the queue takes *)
Definition queue_received (i : queue_input) : list Z := match i with QData d => d | _ => [] end.

Lemma read_from_fd_refines self result :
  buffer_ok self → buffer_needs_shut_rd self = true ∨ buffer_full self = false →
  ∃ self' t, buffer_read_from_fd self result = Ok (self', t) ∧ buffer_ok self' ∧
    abs self' = queue_recv (abs self) (fd_recv_input self result) ∧
    r_received t = if buffer_needs_shut_rd self then [] else queue_received (fd_recv_input self result).
Proof.
  intros Hok Hpre. unfold buffer_read_from_fd, queue_recv. cbn [q_eof q_shut_rd abs].
  fold (buffer_needs_shut_rd self). destruct (buffer_needs_shut_rd self) eqn:E.
  { eexists _, _. by split_and!. }
  destruct Hpre as [|Hf]; [done|].
  destruct (iovecs_recv 2 self Hok) as (iov & Hiov & Hl & Htot & Htot2); [by right|done|].
  specialize (Htot2 eq_refl). rewrite Hiov. cbn [mbind comp_bind].
  rewrite (proj2 (Nat.ltb_lt _ _)) by lia. cbn [cassert mbind comp_bind].
  unfold fd_recv_input. rewrite contents_length, <- Htot2.
  destruct result as [d| |]; cbn [io_received].
  - set (d' := take (Z.to_nat (iov_total iov)) d).
    destruct d' as [|x d''] eqn:Ed; cbn [length Nat.eqb].
    + rewrite buffer_valid_ok by by apply eof_ok. eexists _, _. by split_and!.
    + rewrite <- Ed. assert (Hd : zlen d' ≤ iov_total iov).
      { unfold d'. rewrite zlen_take. lia. }
      destruct (recv_store 2 self iov d' Hok) as [Hok' Hc]; [by right|done|done|lia|].
      rewrite buffer_valid_ok by exact Hok'. eexists _, _. split_and!; [done|done| |].
      * unfold abs. rewrite Hc. by rewrite Ed.
      * cbn [r_received]. fold d'. by rewrite Ed.
  - rewrite buffer_valid_ok by done. eexists _, _. by split_and!.
  - rewrite buffer_valid_ok by by apply eof_ok. eexists _, _. by split_and!.
Qed.

(** One TLS read: a non-empty prefix of what the library holds, or the end. *)
Definition tls_recv_input (result : io_recv) (i : queue_input) : Prop :=
  match result with
  | RecvSome [] => i = QBroken
  | RecvSome d => ∃ n, i = QData (take (S n) d)
  | RecvAgain => i = QNothing
  | RecvError => i = QBroken
  end.

Lemma read_from_tls_refines self result :
  buffer_ok self → buffer_needs_shut_rd self = true ∨ buffer_full self = false →
  ∃ self' t i, buffer_read_from_tls self result = Ok (self', t) ∧ buffer_ok self' ∧
    tls_recv_input result i ∧ abs self' = queue_recv (abs self) i ∧
    r_received t = if buffer_needs_shut_rd self then [] else queue_received i.
Proof.
  intros Hok Hpre. unfold buffer_read_from_tls, queue_recv. cbn [q_eof q_shut_rd abs].
  fold (buffer_needs_shut_rd self). destruct (buffer_needs_shut_rd self) eqn:E.
  { destruct result as [[|x d]| |]; eexists _, _, _; split_and!; try done. by exists 0%nat. }
  destruct Hpre as [|Hf]; [done|]. destruct (epipe_spec self Hok) as [Hep Hec].
  destruct (iovecs_recv 1 self Hok) as (iov & Hiov & Hl & Htot & _); [by left|done|].
  rewrite Hiov. cbn [mbind comp_bind]. rewrite (proj2 (Nat.eqb_eq (length iov) 1)) by lia.
  cbn [cassert mbind comp_bind].
  assert (Hbroken : buffer_valid (buffer_epipe self) = true ∧
    abs (buffer_epipe self) = Queue [] true (shut_rd self) (shut_wr self)).
  { split; [by apply buffer_valid_ok|]. unfold abs. by rewrite Hec. }
  destruct Hbroken as [Hbv Hba]. destruct result as [d| |]; cbn [io_received].
  - destruct d as [|x d]; [rewrite take_nil; cbn [length Nat.eqb]|].
    { rewrite Hbv. eexists _, _, QBroken. by split_and!. }
    destruct (Z.to_nat (iov_total iov)) as [|n] eqn:En; [lia|].
    change ((length (take (S n) (x :: d)) =? 0)%nat) with false. cbv iota.
    assert (Hd : zlen (take (S n) (x :: d)) ≤ iov_total iov) by (rewrite zlen_take; lia).
    destruct (recv_store 1 self iov (take (S n) (x :: d)) Hok) as [Hok' Hc];
      [by left|done|done|lia|].
    rewrite buffer_valid_ok by exact Hok'. eexists _, _, (QData (take (S n) (x :: d))).
    split_and!; [done|done|by exists n| |done]. unfold abs. rewrite Hc. done.
  - rewrite buffer_valid_ok by done. eexists _, _, QNothing. by split_and!.
  - rewrite Hbv. eexists _, _, QBroken. by split_and!.
Qed.

(** ** Properties *)

(** The buffer of a new connection. *)
Definition buffer_init : Buffer :=
  mkBuffer (replicate (Z.to_nat BUFFER_SIZE) 0) 0 0 false false false.

(** A buffer whose counters are about to wrap around. *)
Definition buffer_near_wrap : Buffer :=
  mkBuffer (replicate (Z.to_nat BUFFER_SIZE) 7) (2 ^ 32 - 2) 1 false false false.

(** C4: the ring buffer implements the FIFO on plain sockets.  From any
    well-formed buffer, wherever its counters are in their 32-bit range and whatever
    the socket does, a write hands the oldest bytes to the peer and keeps the rest, a
    read into a buffer with room (or due for shutdown) appends the bytes that
    arrived, no assertion fails and the result is well formed. *)
Theorem ring_refines_fifo self fd send recv :
  buffer_ok self →
  (∃ self' w fd', buffer_write_to_fd self fd send = Ok (self', w, fd') ∧ buffer_ok self' ∧
     (abs self', w_sent w) = queue_send (abs self) (fd_send_amount self send)) ∧
  (buffer_needs_shut_rd self = true ∨ buffer_full self = false →
   ∃ self' t, buffer_read_from_fd self recv = Ok (self', t) ∧ buffer_ok self' ∧
     abs self' = queue_recv (abs self) (fd_recv_input self recv) ∧
     r_received t = if buffer_needs_shut_rd self then [] else queue_received (fd_recv_input self recv)).
Proof.
  intros Hok. split; [by apply write_to_fd_refines|]. intros H. by apply read_from_fd_refines.
Qed.

Example ring_refines_fifo_witness :
  ∃ self' w fd', buffer_write_to_fd buffer_near_wrap None (SendSome 2) = Ok (self', w, fd') ∧
    buffer_ok self' ∧
    (abs self', w_sent w)
    = queue_send (abs buffer_near_wrap) (fd_send_amount buffer_near_wrap (SendSome 2)).
Proof.
  apply (ring_refines_fifo buffer_near_wrap None (SendSome 2) RecvAgain).
  split_and!; vm_compute; done.
Defined.

(** A TLS client that ends its stream loses what it had sent.  When the TLS
    read reports the end of the stream the buffer is emptied, so bytes received but
    not yet passed to the web service are dropped, whereas the plain-socket reader
    keeps them for delivery. *)
Theorem tls_eof_drops_data self :
  buffer_ok self → buffer_needs_shut_rd self = false → buffer_full self = false →
  (∃ self', buffer_read_from_tls self (RecvSome []) = Ok (self', Took [] false) ∧ contents self' = []) ∧
  (∃ self', buffer_read_from_fd self (RecvSome []) = Ok (self', Took [] false) ∧
            contents self' = contents self).
Proof.
  intros Hok Hn Hf. destruct (epipe_spec self Hok) as [Hep Hec].
  unfold buffer_read_from_tls, buffer_read_from_fd. rewrite Hn.
  destruct (iovecs_recv 1 self Hok) as (iov & -> & Hl & _); [by left|done|].
  destruct (iovecs_recv 2 self Hok) as (iov2 & -> & Hl2 & _); [by right|done|].
  cbn [mbind comp_bind]. rewrite (proj2 (Nat.eqb_eq (length iov) 1)) by lia.
  rewrite (proj2 (Nat.ltb_lt 0 _)) by lia. cbn [cassert mbind comp_bind].
  cbn [io_received]. rewrite !take_nil. cbn [length Nat.eqb].
  rewrite !buffer_valid_ok by done. by split; eexists.
Qed.

Example tls_eof_drops_data_witness :
  (∃ self', buffer_read_from_tls buffer_near_wrap (RecvSome []) = Ok (self', Took [] false) ∧
            contents self' = []) ∧
  (∃ self', buffer_read_from_fd buffer_near_wrap (RecvSome []) = Ok (self', Took [] false) ∧
            contents self' = contents buffer_near_wrap).
Proof.
  apply (tls_eof_drops_data buffer_near_wrap); [split_and!; vm_compute; done|reflexivity..].
Defined.
