(* ===== verification/SocketIo.v ===== *)
(** * Socket helpers with a global timeout: [src/tls/socket-io.c]

    [recv_all]/[send_all] move a whole short message over a stream socket under one
    timeout.  The environment is a script with one [tick] per turn of the loop: the
    clock, what [poll] answers, and what the socket call does.  A script that ends
    is a peer that never becomes ready again, so [poll] times out. *)

From S2P Require Import Prelude.

Record timespec := Timespec { tv_sec : Z; tv_nsec : Z }.

(** [ENOENT] and [EINTR] are what the [poll] loop tells apart. *)
Inductive poll_result := PollReady | PollTimeout | PollErr (e : errno).

Inductive sock_result :=
| SockSome (d : list Z)    (** [recv]: the bytes; [send]: their number is the count *)
| SockErr (e : errno).

Record tick := Tick {
  t_now : timespec;
  t_poll : list poll_result;    (** successive answers of [poll] *)
  t_sock : sock_result
}.

(** [ENOENT] as an [errno] of its own. *)
Definition ENOENT : errno := EOTHER 2.

(** Returns [*start] afterwards and the elapsed microseconds; the assert is on a
    monotonic clock. *)
Definition get_elapsed_time (start now : timespec) : comp unit (timespec * Z) :=
  let start := if (tv_sec start =? 0) && (tv_nsec start =? 0) then now else start in
  let elapsed := (tv_sec now - tv_sec start) * 1000000
                 + Z.quot (tv_nsec now - tv_nsec start) 1000 in
  _ ← cassert (elapsed >=? 0);
  Ok (start, elapsed).

(** [None] is the result [false]. *)
Definition get_remaining_timeout (start now : timespec) (timeout_us : Z)
    : comp unit (timespec * option Z) :=
  '(start, elapsed) ← get_elapsed_time start now;
  Ok (start, if timeout_us <? elapsed then None else Some (timeout_us - elapsed)).

(** [do r = poll (...) while (r == -1 && errno == ENOENT)]: the loop repeats on
    ENOENT, so an interrupted [poll] is a failure. *)
Fixpoint poll_loop (answers : list poll_result) : poll_result :=
  match answers with
  | [] => PollTimeout
  | PollErr e :: answers' => if decide (e = ENOENT) then poll_loop answers' else PollErr e
  | r :: _ => r
  end.

Definition wait_for_io (start : timespec) (t : tick) (timeout_us : Z)
    : comp unit (timespec * poll_result) :=
  '(start, remaining) ← get_remaining_timeout start (t_now t) timeout_us;
  match remaining with
  | None => Ok (start, PollTimeout)
  | Some _ => Ok (start, poll_loop (t_poll t))
  end.

(** [Some n] is the count returned, [None] the status -1; [buf] is what has been
    stored so far.  The terminating NUL is written at index [count] of a buffer of
    [size] bytes. *)
Fixpoint recv_all_loop (script : list tick) (start : timespec) (size timeout : Z)
    (buf : list Z) : comp unit (option (list Z)) :=
  if negb (zlen buf <? size) then Ok None
  else
    match script with
    | [] => Ok None
    | t :: script' =>
        '(start, r) ← wait_for_io start t timeout;
        match r with
        | PollReady =>
            match t_sock t with
            | SockErr e =>
                if decide (e = EINTR ∨ e = EAGAIN)
                then recv_all_loop script' start size timeout buf
                else Ok None
            | SockSome d =>
                match take (Z.to_nat (size - zlen buf)) d with
                | [] => _ ← cassert (zlen buf <? size); Ok (Some buf)
                | d' => recv_all_loop script' start size timeout (buf ++ d')
                end
            end
        | _ => Ok None
        end
    end.

Definition recv_all (script : list tick) (size timeout : Z) : comp unit (option (list Z)) :=
  recv_all_loop script (Timespec 0 0) size timeout [].

(** The string received, or [None] for the result [false]. *)
Definition recv_alnum (script : list tick) (size timeout : Z) : comp unit (option (list Z)) :=
  r ← recv_all script size timeout;
  Ok (match r with
      | None => None
      | Some s => if (zlen s <? 1) || negb (forallb isalnum s) then None else Some s
      end).

(** What [send] accepted so far is [sent]; [shut] is whether the final
    [shutdown (SHUT_WR)] succeeds.  Returns the bytes sent and the result. *)
Fixpoint send_all_loop (script : list tick) (start : timespec) (timeout : Z) (shut : bool)
    (sent rest : list Z) : comp unit (list Z * bool) :=
  match rest with
  | [] => Ok (sent, shut)
  | _ =>
      match script with
      | [] => Ok (sent, false)
      | t :: script' =>
          '(start, r) ← wait_for_io start t timeout;
          match r with
          | PollReady =>
              match t_sock t with
              | SockErr e =>
                  if decide (e = EINTR ∨ e = EAGAIN)
                  then send_all_loop script' start timeout shut sent rest
                  else Ok (sent, false)
              | SockSome d =>
                  let n := Nat.min (length d) (length rest) in
                  send_all_loop script' start timeout shut (sent ++ take n rest) (drop n rest)
              end
          | _ => Ok (sent, false)
          end
      end
  end.

Definition send_all (script : list tick) (buffer : list Z) (timeout : Z) (shut : bool)
    : comp unit (list Z * bool) :=
  send_all_loop script (Timespec 0 0) timeout shut [] buffer.

(** [sizeof addr->sun_path] *)
Definition SUN_PATH_MAX : Z := 108.
Definition AT_FDCWD : Z := -100.

(** The path filled in; [None] is the result [false] (ENOMEM).  [render] prints a
    decimal number. *)
Definition af_unix_fill_sockaddr_at (dirfd : Z) (pathname : list Z) : option (list Z) :=
  let path :=
    if negb (default 0 (pathname !! 0%nat) =? 47) && negb (dirfd =? AT_FDCWD)
    then bs "/proc/self/fd/" ++ render_u32 dirfd ++ [47] ++ pathname
    else pathname in
  if (0 <? zlen path) && (zlen path <? SUN_PATH_MAX) then Some path else None.

(** [connect] is the outcome of the system call on the address built. *)
Definition af_unix_connectat (connect : list Z → comp errno unit) (dirfd : Z) (pathname : list Z)
    : comp errno unit :=
  match af_unix_fill_sockaddr_at dirfd pathname with
  | None => Err ENOMEM
  | Some path => connect path
  end.

Definition af_unix_bindat (bind_ : list Z → comp errno unit) (dirfd : Z) (pathname : list Z)
    : comp errno unit :=
  match af_unix_fill_sockaddr_at dirfd pathname with
  | None => Err ENOMEM
  | Some path => bind_ path
  end.

(** ** Lemmas *)

(** The data a script delivers, in order. *)
Definition script_data (script : list tick) : list Z :=
  script ≫= λ t, match t_sock t with SockSome d => d | SockErr _ => [] end.

(** A clock that does not run backwards. *)
Fixpoint monotonic (last : Z) (script : list tick) : Prop :=
  match script with
  | [] => True
  | t :: script' =>
      let us := tv_sec (t_now t) * 1000000000 + tv_nsec (t_now t) in
      last ≤ us ∧ 0 ≤ tv_nsec (t_now t) < 1000000000 ∧ monotonic us script'
  end.

Definition ns (t : timespec) : Z := tv_sec t * 1000000000 + tv_nsec t.

Definition valid_time (t : timespec) : Prop := 0 ≤ tv_nsec t < 1000000000.

Lemma elapsed_safe start now :
  ns start ≤ ns now → valid_time start → valid_time now →
  ∃ start' e, get_elapsed_time start now = Ok (start', e) ∧ 0 ≤ e ∧
    ns start' ≤ ns now ∧ valid_time start'.
Proof.
  intros Hs Hn1 Hn2. unfold get_elapsed_time, valid_time in *.
  destruct start as [s sn], now as [w wn]. unfold ns in *. cbn [tv_sec tv_nsec] in *.
  destruct ((s =? 0) && (sn =? 0)); cbn [tv_sec tv_nsec].
  - rewrite !Z.sub_diag. cbn. eexists _, _. split; [done|]. split; [done|]. cbn. lia.
  - assert (0 ≤ (w - s) * 1000000 + Z.quot (wn - sn) 1000).
    { pose proof (Z.quot_rem' (wn - sn) 1000).
      assert (Hrem : Z.abs (Z.rem (wn - sn) 1000) < Z.abs 1000) by by apply Z.rem_bound_abs.
      revert H Hrem. generalize (Z.quot (wn - sn) 1000) (Z.rem (wn - sn) 1000). lia. }
    rewrite Z.geb_leb, (proj2 (Z.leb_le _ _)) by done. cbn [cassert mbind comp_bind].
    eexists _, _. split; [done|]. cbn. lia.
Qed.

Lemma wait_safe start t timeout :
  ns start ≤ ns (t_now t) → valid_time start → valid_time (t_now t) →
  ∃ start' r, wait_for_io start t timeout = Ok (start', r) ∧
    ns start' ≤ ns (t_now t) ∧ valid_time start'.
Proof.
  intros Hs Hn1 Hn2. destruct (elapsed_safe start (t_now t) Hs Hn1 Hn2) as (s' & e & He & _ & H1 & H2).
  unfold wait_for_io, get_remaining_timeout. rewrite He. cbn [mbind comp_bind].
  destruct (timeout <? e); cbn; by eexists _, _.
Qed.

Lemma monotonic_weaken a b script : a ≤ b → monotonic b script → monotonic a script.
Proof. destruct script; cbn; [done|]. intros ? (? & ? & ?). split_and!; lia || done. Qed.

(** A completed reception: the data of the turns before the one that saw the end. *)
Definition received (script : list tick) (d : list Z) : Prop :=
  ∃ pre t post, script = pre ++ t :: post ∧ d = script_data pre ∧ t_sock t = SockSome [].

Lemma received_cons t script d d' :
  received script d → (d' = match t_sock t with SockSome x => x | SockErr _ => [] end ++ d) →
  received (t :: script) d'.
Proof.
  intros (pre & u & post & -> & -> & Hu) ->. exists (t :: pre), u, post. by split_and!.
Qed.

Lemma recv_loop_spec script start size timeout buf :
  monotonic (ns start) script → valid_time start → zlen buf ≤ size →
  ∃ r, recv_all_loop script start size timeout buf = Ok r ∧
    ∀ s, r = Some s → zlen s < size ∧ ∃ d, s = buf ++ d ∧ received script d.
Proof.
  revert start buf. induction script as [|t script IH]; intros start buf Hm Hv Hb.
  { cbn. destruct (negb _); by exists None. }
  cbn [recv_all_loop]. destruct (zlen buf <? size) eqn:E; cbn [negb]; [to_prop|by exists None].
  destruct Hm as (Hle & Hn & Hm).
  destruct (wait_safe start t timeout Hle Hv Hn) as (s' & r & -> & Hs' & Hv').
  cbn [mbind comp_bind]. destruct r; try by exists None.
  assert (Hm' : monotonic (ns s') script) by by eapply monotonic_weaken.
  destruct (t_sock t) as [d|e] eqn:Et.
  - destruct (take (Z.to_nat (size - zlen buf)) d) as [|x d'] eqn:Ed.
    + cbn. eexists. split; [done|].
      intros s [= <-]. split; [done|]. exists []. split; [by rewrite app_nil_r|].
      exists [], t, script. split_and!; [done|done|]. rewrite Et. f_equal.
      apply (f_equal length) in Ed. rewrite length_take in Ed. cbn in Ed.
      apply length_zero_iff_nil. lia.
    + assert (Hlen : zlen (x :: d') ≤ size - zlen buf) by (rewrite <- Ed, zlen_take; lia).
      destruct (IH s' (buf ++ x :: d') Hm' Hv') as (r & Hr & H); [rewrite zlen_app; lia|].
      exists r. split; [done|]. intros s Hs. destruct (H s Hs) as (H1 & d2 & -> & H3).
      split; [done|]. exists ((x :: d') ++ d2). split; [by rewrite app_assoc|].
      eapply received_cons; [done|]. rewrite Et. f_equal.
      rewrite <- Ed in H1 |- *. apply take_ge.
      autorewrite with zlen in H1. pose proof (zlen_nonneg d2). unfold zlen in *. lia.
  - destruct (decide _); [|by exists None].
    destruct (IH s' buf Hm' Hv' Hb) as (r & Hr & H). exists r. split; [done|].
    intros s Hs. destruct (H s Hs) as (H1 & d2 & -> & H3). split; [done|]. exists d2.
    split; [done|]. eapply received_cons; [done|]. by rewrite Et.
Qed.

Lemma send_loop_spec script start timeout shut sent rest :
  monotonic (ns start) script → valid_time start →
  ∃ sent' ok, send_all_loop script start timeout shut sent rest = Ok (sent', ok) ∧
    (∃ d r, sent' = sent ++ d ∧ rest = d ++ r) ∧
    (ok = true → sent' = sent ++ rest ∧ shut = true).
Proof.
  revert start sent rest. induction script as [|t script IH]; intros start sent rest Hm Hv.
  { destruct rest as [|x rest]; cbn.
    - eexists _, _. split; [done|]. rewrite !app_nil_r.
      split; [by exists [], []; rewrite app_nil_r|done].
    - eexists _, _. split; [done|]. split; [|done]. exists [], (x :: rest).
      by rewrite app_nil_r. }
  destruct rest as [|x rest].
  { cbn. eexists _, _. split; [done|]. rewrite !app_nil_r.
    split; [by exists [], []; rewrite app_nil_r|done]. }
  set (l := x :: rest). assert (Hnil : ∃ d r, sent = sent ++ d ∧ l = d ++ r).
  { exists [], l. by rewrite app_nil_r. }
  cbn [send_all_loop l]. fold l. destruct Hm as (Hle & Hn & Hm).
  destruct (wait_safe start t timeout Hle Hv Hn) as (s' & r & -> & Hs' & Hv').
  cbn [mbind comp_bind]. destruct r; try by (eexists _, _; split_and!).
  assert (Hm' : monotonic (ns s') script) by by eapply monotonic_weaken.
  destruct (t_sock t) as [d|e].
  - set (n := Nat.min (length d) (length l)).
    destruct (IH s' (sent ++ take n l) (drop n l) Hm' Hv') as (st & ok & Hr & (d1 & r1 & -> & Hd) & Hok).
    eexists _, ok. split; [exact Hr|].
    assert (Hl : l = take n l ++ d1 ++ r1) by by rewrite <- Hd, take_drop.
    split; [exists (take n l ++ d1), r1; by rewrite <- !app_assoc|].
    intros Ho. destruct (Hok Ho) as [E ->]. split; [|done].
    by rewrite E, <- app_assoc, take_drop.
  - destruct (decide _); [|by eexists _, _; split_and!]. by apply IH.
Qed.

(** ** Properties *)

(** A message received is complete and fits.  On a monotonic clock the
    receiver never fails an assertion; when it reports success the peer had closed
    its side, the string is every byte that was delivered up to then, and it is
    short enough for its terminating NUL to fit in the buffer. *)
Theorem recv_all_complete script size timeout :
  0 ≤ size → monotonic 0 script →
  ∃ r, recv_all script size timeout = Ok r ∧
    ∀ s, r = Some s → zlen s + 1 ≤ size ∧
      ∃ pre t post, script = pre ++ t :: post ∧ s = script_data pre ∧ t_sock t = SockSome [].
Proof.
  intros Hsz Hm. destruct (recv_loop_spec script (Timespec 0 0) size timeout []) as (r & Hr & H);
    [done|by unfold valid_time|done|].
  exists r. split; [done|]. intros s Hs. destruct (H s Hs) as (Hl & d & -> & Hd).
  split; [lia|]. exact Hd.
Qed.

Definition script_ex : list tick :=
  [Tick (Timespec 1 0) [PollReady] (SockSome (bs "do"));
   Tick (Timespec 1 5) [PollReady] (SockErr EAGAIN);
   Tick (Timespec 2 0) [PollReady] (SockSome (bs "ne"));
   Tick (Timespec 2 1) [PollReady] (SockSome [])].

Example recv_all_complete_witness :
  ∃ r, recv_all script_ex 20 30000000 = Ok r ∧
    ∀ s, r = Some s → zlen s + 1 ≤ 20 ∧
      ∃ pre t post, script_ex = pre ++ t :: post ∧ s = script_data pre ∧ t_sock t = SockSome [].
Proof. apply recv_all_complete; [done|]. cbn. lia. Defined.

(** An interrupted wait aborts the transfer.  The loop around [poll] repeats
    on ENOENT and not on EINTR, so a signal that arrives while waiting makes
    [recv_all] and [send_all] fail although the peer is ready. *)
Theorem interrupted_poll_fails t script answers size timeout shut buffer :
  0 < size → buffer ≠ [] → valid_time (t_now t) → 0 ≤ timeout →
  t_poll t = PollErr EINTR :: answers →
  recv_all (t :: script) size timeout = Ok None ∧
  send_all (t :: script) buffer timeout shut = Ok ([], false).
Proof.
  intros Hsz Hb Hv Hto Hp. unfold recv_all, send_all. cbn [recv_all_loop send_all_loop].
  rewrite zlen_nil, (proj2 (Z.ltb_lt _ _)) by done. cbn [negb].
  assert (∃ s', wait_for_io (Timespec 0 0) t timeout = Ok (s', PollErr EINTR)) as [s' ->].
  { assert (He : get_elapsed_time (Timespec 0 0) (t_now t) = Ok (t_now t, 0)).
    { unfold get_elapsed_time. cbn. by rewrite !Z.sub_diag. }
    unfold wait_for_io, get_remaining_timeout. rewrite He. cbn [mbind comp_bind].
    rewrite (proj2 (Z.ltb_ge _ _)) by done. cbn [mbind comp_bind]. rewrite Hp. by eexists. }
  cbn. split; [done|]. by destruct buffer.
Qed.

Example interrupted_poll_fails_witness :
  recv_all [Tick (Timespec 1 0) [PollErr EINTR; PollReady] (SockSome (bs "done"))] 20 30000000
    = Ok None ∧
  send_all [Tick (Timespec 1 0) [PollErr EINTR; PollReady] (SockSome (bs "done"))] (bs "abc")
    30000000 true = Ok ([], false).
Proof.
  apply (interrupted_poll_fails
    (Tick (Timespec 1 0) [PollErr EINTR; PollReady] (SockSome (bs "done"))) [] [PollReady]
    20 _ _ _); done.
Defined.
