(* ===== verification/HttpRedirect.v ===== *)
(** * The HTTP-to-HTTPS redirector: [src/tls/httpredirect.c]

    When only TLS connections are allowed, a plain HTTP client is connected to this
    small responder instead of a web service instance.  It reads the request line by
    line into one 10000-byte buffer and answers with a redirect or an error.  Input
    and output streams are byte lists; [fgets], [strchr] and friends follow the C
    standard, embedded NULs included.  The theorems show what is answered to every
    request, and that nothing of the request can end up on a line of its own in the
    answer. *)

From S2P Require Import Prelude.

Definition CRLF : list Z := [13; 10].

(** Returns the line without its ending, the rest of the stream and [*offset]. *)
Definition read_line (stream : list Z) (sizeof_buffer offset : Z)
    : option (list Z * list Z * Z) :=
  if offset >=? sizeof_buffer then None
  else
    '(line, stream) ← fgets (sizeof_buffer - offset) stream;
    let line := cstr line in
    let line_length := strcspn line CRLF in
    let ending := drop line_length line in
    if negb (bool_decide (ending = CRLF)) && negb (bool_decide (ending = [10])) then None
    else Some (take line_length line, stream, offset + (Z.of_nat line_length + 1)).

Definition ERROR_TEXT : list Z :=
  bs "HTTP/1.1 400 Client Error" ++ CRLF ++ CRLF ++ bs "Incorrect request." ++ CRLF.

(** The output written and the result. *)
Definition write_error : list Z * bool := (ERROR_TEXT, false).

Definition HOST_HEADER : list Z := bs "Host:".

(** [strchr (s, ' ')] splits a string at its first space. *)
Fixpoint split_space (s : list Z) : option (list Z * list Z) :=
  match s with
  | [] => None
  | c :: s' =>
      if c =? 32 then Some ([], s')
      else '(a, b) ← split_space s'; Some (c :: a, b)
  end.

(** The header loop: the value of [host] when the empty line is reached, or [None]
    when an error is written.  Every turn consumes input, so fuel of the length of
    the input is enough (see [redirect_loop_fuel]). *)
Fixpoint redirect_loop (fuel : nat) (stream : list Z) (offset : Z) (host : option (list Z))
    : option (option (list Z)) :=
  match fuel with
  | O => None
  | S fuel' =>
      match read_line stream 10000 offset with
      | None => None
      | Some (header, stream, offset) =>
          let host' :=
            if prefixb HOST_HEADER header then
              match host with
              | Some _ => None
              | None =>
                  let v := drop (length HOST_HEADER) header in
                  Some (Some (drop (strspn v [32; 9]) v))
              end
            else Some host in
          match host' with
          | None => None
          | Some host => if bool_decide (header = []) then Some host
                         else redirect_loop fuel' stream offset host
          end
      end
  end.

Definition redirect_text (host path : list Z) : list Z :=
  bs "HTTP/1.1 301 Moved Permanently" ++ CRLF ++ bs "Content-Type: text/html" ++ CRLF ++
  bs "Location: https://" ++ host ++ path ++ CRLF ++ CRLF.

Definition http_redirect (input : list Z) : list Z * bool :=
  match read_line input 10000 0 with
  | None => write_error
  | Some (request_line, stream, offset) =>
      match split_space request_line with
      | None => write_error
      | Some (_, path) =>
          match split_space path with
          | None => write_error
          | Some (path, _) =>
              match redirect_loop (S (length stream)) stream offset None with
              | None => write_error
              | Some None => write_error
              | Some (Some host) => (redirect_text host path, true)
              end
          end
      end
  end.

(** ** Lines *)

Definition no_eol (s : list Z) : Prop := Forall (λ c, c ≠ 13 ∧ c ≠ 10 ∧ c ≠ 0) s.

#[export] Instance no_eol_dec s : Decision (no_eol s).
Proof. unfold no_eol. apply _. Defined.

Lemma no_eol_outside s : no_eol s ↔ outside CRLF s.
Proof.
  unfold no_eol, outside. rewrite !Forall_forall. split; intros H c Hc; specialize (H c Hc).
  - split; [|tauto]. unfold CRLF. rewrite !elem_of_cons, elem_of_nil. tauto.
  - unfold CRLF in H. rewrite !elem_of_cons, elem_of_nil in H. tauto.
Qed.

Lemma no_eol_app a b : no_eol (a ++ b) ↔ no_eol a ∧ no_eol b.
Proof. apply Forall_app. Qed.

Lemma no_eol_drop n s : no_eol s → no_eol (drop n s).
Proof. apply Forall_drop. Qed.

Lemma read_line_spec stream size offset line rest offset' :
  read_line stream size offset = Some (line, rest, offset') →
  no_eol line ∧ (length rest < length stream)%nat ∧ offset' = offset + zlen line + 1.
Proof.
  unfold read_line, fgets. destruct (offset >=? size); [done|].
  destruct stream as [|c stream]; [done|].
  destruct (fgets_take _ (c :: stream)) as [l r] eqn:E. cbn [mbind option_bind].
  apply fgets_take_split in E. destruct (strcspn_spec (cstr l) CRLF) as [H1 _].
  destruct (cstr_prefix l) as [r' Hr'].
  destruct (_ && _) eqn:Et; intros [= <- <- <-]. split_and!.
  - by apply no_eol_outside.
  - rewrite E, length_app. apply andb_false_iff in Et.
    destruct (cstr l) as [|x l'] eqn:Ec.
    + cbn in Et. by destruct Et.
    + rewrite Hr'. cbn. rewrite length_app. lia.
  - pose proof (strcspn_le (cstr l) CRLF). rewrite zlen_take. unfold zlen. lia.
Qed.

(** A complete line, within the space left, is read as is. *)
Lemma read_line_ok line rest size offset :
  no_eol line → 0 ≤ offset → offset + zlen line + 2 < size →
  read_line (line ++ CRLF ++ rest) size offset = Some (line, rest, offset + zlen line + 1).
Proof.
  intros Hl Ho Hs. unfold read_line. rewrite Z.geb_leb.
  pose proof (zlen_nonneg line). rewrite (proj2 (Z.leb_gt _ _)) by lia.
  assert (Hf : ∀ n, (length line + 2 ≤ n)%nat →
    fgets_take n (line ++ CRLF ++ rest) = (line ++ CRLF, rest)).
  { clear -Hl. induction Hl as [|c line (H1 & H2 & H3) _ IH]; intros n Hn.
    - destruct n as [|[|n]]; cbn in Hn; [lia..|]. done.
    - cbn in Hn. destruct n as [|n]; [lia|]. cbn. rewrite (proj2 (Z.eqb_neq _ _) H2).
      change (13 :: 10 :: rest) with (CRLF ++ rest). by rewrite IH by lia. }
  assert (Hfg : ∀ n st, st ≠ [] → fgets n st = Some (fgets_take (Z.to_nat (n - 1)) st))
    by by intros n [].
  rewrite Hfg by (by intros [_ ?]%app_nil).
  rewrite Hf by (unfold zlen in *; lia). cbn [mbind option_bind].
  rewrite cstr_id.
  2: { apply Forall_app. split; [|by_decide]. eapply Forall_impl; [done|]. cbn. tauto. }
  assert (Hc : strcspn (line ++ CRLF) CRLF = length line).
  { apply (strcspn_app line 13 [10] CRLF); [by apply no_eol_outside|left; by constructor]. }
  rewrite Hc.
  rewrite drop_app_length, take_app_length. cbn. f_equal. f_equal. unfold zlen. lia.
Qed.

Lemma redirect_loop_fuel fuel fuel' stream offset host :
  (length stream < fuel)%nat → (length stream < fuel')%nat →
  redirect_loop fuel stream offset host = redirect_loop fuel' stream offset host.
Proof.
  revert fuel' stream offset host. induction fuel as [|fuel IH]; intros fuel' stream offset host H1 H2;
    [lia|]. destruct fuel' as [|fuel']; [lia|]. cbn [redirect_loop].
  destruct (read_line stream 10000 offset) as [[[h s] o]|] eqn:E; [|done].
  apply read_line_spec in E as (_ & Hlt & _).
  case_match; [|done]. case_bool_decide; [done|]. apply IH; lia.
Qed.

Lemma redirect_loop_host fuel stream offset host h :
  (∀ v, host = Some v → no_eol v) →
  redirect_loop fuel stream offset host = Some (Some h) → no_eol h.
Proof.
  revert stream offset host. induction fuel as [|fuel IH]; intros stream offset host Hh; [done|].
  cbn [redirect_loop]. destruct (read_line stream 10000 offset) as [[[l s] o]|] eqn:E; [|done].
  apply read_line_spec in E as (Hl & _ & _).
  assert (Hnew : ∀ k, no_eol (drop k (drop (length HOST_HEADER) l))) by (intros; by do 2 apply no_eol_drop).
  destruct (prefixb HOST_HEADER l); [destruct host as [v|]; [done|]|].
  - case_bool_decide; [intros [= <-]; apply Hnew|]. apply IH. intros v [= <-]. apply Hnew.
  - case_bool_decide; [intros [= ->]; by apply Hh|]. by apply IH.
Qed.

Lemma split_space_spec s a b : split_space s = Some (a, b) → s = a ++ 32 :: b ∧ 32 ∉ a.
Proof.
  revert a b. induction s as [|c s IH]; intros a b; cbn; [done|].
  destruct (c =? 32) eqn:E; to_prop.
  - intros [= <- <-]. subst c. split; [done|]. apply not_elem_of_nil.
  - destruct (split_space s) as [[a' b']|]; cbn; [|done]. intros [= <- <-].
    destruct (IH _ _ eq_refl) as [-> Hn]. split; [done|]. by rewrite not_elem_of_cons.
Qed.

Lemma split_space_app a b : 32 ∉ a → split_space (a ++ 32 :: b) = Some (a, b).
Proof.
  induction a as [|c a IH]; cbn; [done|]. rewrite not_elem_of_cons. intros [Hc Ha].
  rewrite (proj2 (Z.eqb_neq c 32)) by congruence. by rewrite IH.
Qed.

(** ** Properties *)

(** Nothing of the request escapes its line in the answer.  Whatever bytes a
    client sends, the answer is the fixed error text, or the redirect for some host
    and path of the request, neither of which contains a carriage return, a newline
    or a NUL (and the path no space): a request cannot inject headers. *)
Theorem redirect_no_injection input :
  http_redirect input = (ERROR_TEXT, false) ∨
  ∃ host path, http_redirect input = (redirect_text host path, true) ∧
    no_eol host ∧ no_eol path ∧ 32 ∉ path.
Proof.
  unfold http_redirect, write_error.
  destruct (read_line input 10000 0) as [[[l s] o]|] eqn:E; [|by left].
  apply read_line_spec in E as (Hl & _ & _).
  destruct (split_space l) as [[m p]|] eqn:E1; [|by left].
  destruct (split_space p) as [[path v]|] eqn:E2; [|by left].
  apply split_space_spec in E1 as [-> _]. apply split_space_spec in E2 as [-> Hp].
  destruct (redirect_loop _ s o None) as [[host|]|] eqn:E3; [|by left..].
  apply redirect_loop_host in E3; [|done]. right. exists host, path.
  apply no_eol_app in Hl as [_ Hl]. apply (no_eol_drop 1) in Hl.
  change (drop 1 (32 :: path ++ 32 :: v)) with (path ++ 32 :: v) in Hl.
  apply no_eol_app in Hl as [Hl _]. done.
Qed.

(** Lines with their endings. *)
Fixpoint crlf_lines (hs : list (list Z)) : list Z :=
  match hs with
  | [] => []
  | h :: hs' => h ++ CRLF ++ crlf_lines hs'
  end.

Definition no_host (h : list Z) : Prop := prefixb HOST_HEADER h = false.

Lemma redirect_loop_headers hs stream fuel offset host :
  Forall no_eol hs → Forall no_host hs → Forall (λ h, h ≠ []) hs →
  0 ≤ offset → offset + zlen (crlf_lines hs) + 2 < 10000 →
  (length (crlf_lines hs ++ stream) < fuel)%nat →
  ∃ offset', offset ≤ offset' ≤ offset + zlen (crlf_lines hs) ∧
    redirect_loop fuel (crlf_lines hs ++ stream) offset host
    = redirect_loop (S (length stream)) stream offset' host.
Proof.
  intros Hl Hh Hn. revert fuel offset.
  induction hs as [|h hs IH]; intros fuel offset Ho Hs Hf.
  { exists offset. cbn [crlf_lines] in *. rewrite zlen_nil in *. cbn [app] in *.
    split; [lia|]. apply redirect_loop_fuel; lia. }
  apply Forall_cons in Hl as [Hl1 Hl]. apply Forall_cons in Hh as [Hh1 Hh].
  apply Forall_cons in Hn as [Hn1 Hn]. cbn [crlf_lines] in *.
  pose proof (zlen_nonneg (crlf_lines hs)).
  pose proof (zlen_nonneg h).
  destruct fuel as [|fuel]; [lia|]. cbn [redirect_loop]. rewrite <- !app_assoc.
  rewrite !zlen_app in Hs. change (zlen CRLF) with 2 in Hs.
  rewrite read_line_ok by (done || lia). rewrite Hh1, bool_decide_eq_false_2 by done.
  destruct (IH Hl Hh Hn fuel (offset + zlen h + 1)) as (o & Ho' & Heq).
  - lia.
  - lia.
  - rewrite <- !app_assoc in Hf. rewrite !length_app in *. cbn [length CRLF] in Hf. lia.
  - exists o. split; [|exact Heq]. rewrite !zlen_app. change (zlen CRLF) with 2. lia.
Qed.

(** A well-formed request is redirected to the same host and path.  A request
    line with a method and a path, header lines that fit in the buffer and exactly
    one of which is "Host:", then an empty line, are answered by the permanent
    redirect to https on that host and path. *)
Theorem redirect_complete method path version before host after tail :
  let request := (method ++ 32 :: path ++ 32 :: version) ++ CRLF ++
                 crlf_lines before ++ (bs "Host: " ++ host) ++ CRLF ++
                 crlf_lines after ++ CRLF ++ tail in
  no_eol (method ++ 32 :: path ++ 32 :: version) → 32 ∉ method → 32 ∉ path →
  no_eol host → strspn host [32; 9] = 0%nat →
  Forall no_eol (before ++ after) → Forall no_host (before ++ after) →
  Forall (λ h, h ≠ []) (before ++ after) →
  zlen request < 10000 + zlen tail →
  http_redirect request = (redirect_text host path, true).
Proof.
  intros request Hreq Hm Hp Hhost Hsp Hl Hh Hn Hlen.
  apply Forall_app in Hl as [Hl1 Hl2]. apply Forall_app in Hh as [Hh1 Hh2].
  apply Forall_app in Hn as [Hn1 Hn2].
  unfold request in *. rewrite !zlen_app in Hlen. change (zlen CRLF) with 2 in Hlen.
  change (zlen (bs "Host: ")) with 6 in Hlen.
  pose proof (zlen_nonneg (crlf_lines before)).
  pose proof (zlen_nonneg (crlf_lines after)). pose proof (zlen_nonneg host).
  pose proof (zlen_nonneg method). pose proof (zlen_nonneg (32 :: path ++ 32 :: version)).
  unfold http_redirect. rewrite read_line_ok; [|done|lia|rewrite zlen_app; lia].
  rewrite split_space_app, split_space_app by done.
  edestruct (redirect_loop_headers before) as (o1 & Ho1 & ->); [done..| | |lia|].
  { rewrite zlen_app. lia. }
  { rewrite zlen_app. lia. }
  cbn [redirect_loop]. rewrite read_line_ok; [| |rewrite !zlen_app in *; lia|].
  2: { apply no_eol_app. split; [by_decide|done]. }
  2: { rewrite !zlen_app in *. change (zlen (bs "Host: ")) with 6. lia. }
  change (prefixb HOST_HEADER (bs "Host: " ++ host)) with true. cbv iota.
  rewrite (bool_decide_eq_false_2 (bs "Host: " ++ host = [])) by done.
  change (drop (length HOST_HEADER) (bs "Host: " ++ host)) with (32 :: host).
  change (strspn (32 :: host) [32; 9]) with (S (strspn host [32; 9])). rewrite Hsp.
  change (drop 1 (32 :: host)) with host.
  edestruct (redirect_loop_headers after) as (o2 & Ho2 & ->); [done..| | | |].
  { rewrite !zlen_app in *. change (zlen (bs "Host: ")) with 6. lia. }
  { rewrite !zlen_app in *. change (zlen (bs "Host: ")) with 6. lia. }
  { rewrite !length_app. change (length CRLF) with 2%nat. lia. }
  cbn [redirect_loop].
  pose proof (read_line_ok [] tail 10000 o2) as Hr. cbn [app] in Hr. rewrite Hr; [done|by constructor| |].
  - rewrite !zlen_app in *. change (zlen (bs "Host: ")) with 6 in *. lia.
  - rewrite !zlen_app in *. change (zlen (bs "Host: ")) with 6 in *. rewrite zlen_nil. lia.
Qed.

Lemma redirect_complete_witness :
  http_redirect (bs "GET /a HTTP/1.1" ++ CRLF ++ bs "Accept: x" ++ CRLF ++ bs "Host: h:1" ++
                 CRLF ++ CRLF) = (redirect_text (bs "h:1") (bs "/a"), true).
Proof.
  apply (redirect_complete (bs "GET") (bs "/a") (bs "HTTP/1.1") [bs "Accept: x"] (bs "h:1") [] []);
    try by_decide; repeat constructor; done.
Defined.
