(* ===== verification/JsonPrint.v ===== *)
(** * Printing JSON messages: [src/common/cockpitjsonprint.c]

    The TLS proxy and the session program report their metadata as a flat JSON object
    written to a sealed memfd.  A stdio stream is modelled by the bytes written so far
    and the number of bytes the stream still takes before it fails.  The theorems show
    that what a value holds can never end its string early, and that the object reads
    back, with a reader written from the JSON grammar, as the properties printed. *)

From S2P Require Import Prelude.

(** ** Streams *)

Record FILE := mk_FILE { f_out : list Z; f_room : nat }.

(** [fwrite (bytes, 1, length, stream)] *)
Definition fwrite (bytes : list Z) (f : FILE) : Z * FILE :=
  let n := Nat.min (f_room f) (length bytes) in
  (Z.of_nat n, mk_FILE (f_out f ++ take n bytes) (f_room f - n)).

Definition EOF : Z := -1.

(** The result of the calls that report a failure as EOF or a negative number. *)
Definition or_eof (bytes : list Z) (ok : Z) (f : FILE) : Z * FILE :=
  let '(n, f) := fwrite bytes f in (if n =? zlen bytes then ok else EOF, f).

Definition fputs (s : list Z) (f : FILE) : Z * FILE := or_eof s 1 f.
Definition fputc (c : Z) (f : FILE) : Z * FILE := or_eof [c] c f.

(** [fprintf (stream, ...)] with the text it formats. *)
Definition fprintf (text : list Z) (f : FILE) : Z * FILE := or_eof text (zlen text) f.

(** ** The printer *)

Definition char_needs_json_escape (c : Z) : bool :=
  (c <? 32) || (c =? 92) || (c =? 34) || (c >=? 127).

(** A digit of ["%x"]. *)
Definition xdigit (n : Z) : Z := if n <? 10 then 48 + n else 87 + n.

(** ["\\u%04x"] for a character. *)
Definition u04x (c : Z) : list Z :=
  bs "\u" ++ [xdigit (c / 4096 mod 16); xdigit (c / 256 mod 16);
              xdigit (c / 16 mod 16); xdigit (c mod 16)].

Definition json_escape_char (c : Z) (f : FILE) : bool * FILE :=
  if c =? 92 then let '(r, f) := fputs [92; 92] f in (r >=? 0, f)
  else if c =? 34 then let '(r, f) := fputs [92; 34] f in (r >=? 0, f)
  else if c >=? 128 then let '(r, f) := fputc 63 f in (r >=? 0, f)
  else let '(r, f) := fprintf (u04x c) f in (r =? 6, f).

(** [offset < maxlen && str[offset]] *)
Definition has_char (str : list Z) (maxlen offset : Z) : comp unit bool :=
  if offset <? maxlen then c ← buf_get str offset; Ok (negb (c =? 0)) else Ok false.

(** The inner loop: the offset of the first character that needs an escape. *)
Fixpoint json_span (fuel : nat) (str : list Z) (maxlen offset : Z) : comp unit Z :=
  match fuel with
  | O => Fault
  | S fuel' =>
      more ← has_char str maxlen offset;
      if more : bool then
        c ← buf_get str offset;
        if char_needs_json_escape c then Ok offset
        else json_span fuel' str maxlen (offset + 1)
      else Ok offset
  end.

Definition slice (str : list Z) (start length : Z) : list Z :=
  take (Z.to_nat length) (drop (Z.to_nat start) str).

Fixpoint json_escape_loop (fuel : nat) (str : list Z) (maxlen offset : Z)
    : prog FILE unit bool :=
  match fuel with
  | O => lift Fault
  | S fuel' =>
      more ← lift (has_char str maxlen offset);
      if more : bool then
        let start := offset in
        offset ← lift (json_span (S (length str)) str maxlen offset);
        ok ← (λ f, if negb (offset =? start) then
                     let len := offset - start in
                     let '(n, f) := fwrite (slice str start len) f in (Ok (n =? len), f)
                   else (Ok true, f));
        if negb ok then mret false
        else
          more ← lift (has_char str maxlen offset);
          if more : bool then
            c ← lift (buf_get str offset);
            ok ← (λ f, let '(ok, f) := json_escape_char c f in (Ok ok, f));
            if negb ok then mret false
            else json_escape_loop fuel' str maxlen (offset + 1)
          else json_escape_loop fuel' str maxlen offset
      else mret true
  end.

Definition json_escape_string (str : list Z) (maxlen : Z) : prog FILE unit bool :=
  json_escape_loop (S (S (length str))) str maxlen 0.

(** The conversion of an [int] to [size_t] that the comparisons imply. *)
Definition cockpit_json_print_string_property (key value : list Z) (maxlen : Z)
    : prog FILE unit bool := λ f,
  let expected := zlen key + 7 in
  let '(n, f) := fprintf (bs ", " ++ [34] ++ key ++ [34] ++ bs ": " ++ [34]) f in
  if negb (u64 n =? expected) then (Ok false, f)
  else
    match json_escape_string value (u64 maxlen) f with
    | (Ok true, f) => let '(r, f) := fputc 34 f in (Ok (r >=? 0), f)
    | r => r
    end.

Definition cockpit_json_print_bool_property (key : list Z) (value : bool)
    : prog FILE unit bool := λ f,
  let expected := 6 + zlen key + (if value then 4 else 5) in
  let '(n, f) := fprintf (bs ", " ++ [34] ++ key ++ [34] ++ bs ": " ++
                          (if value then bs "true" else bs "false")) f in
  (Ok (u64 n =? expected), f).

Definition render_u64 (n : Z) : list Z := digits_fuel 20 (u64 n).

Definition cockpit_json_print_integer_property (key : list Z) (value : Z)
    : prog FILE unit bool := λ f,
  let '(n, f) := fprintf (bs ", " ++ [34] ++ key ++ [34] ++ bs ": " ++ render_u64 value) f in
  (Ok (n >? 6), f).

(** ** Memory files *)

Record memfd := mk_memfd {
  m_name : list Z;
  m_noexec : bool;
  m_sealed : bool;
  m_readonly : bool;
  m_data : list Z
}.

(** [memfd_create (name, MFD_ALLOW_SEALING | MFD_CLOEXEC [| MFD_NOEXEC_SEAL])] is given
    by the kernel's answer with and without the last flag. *)
Definition cockpit_json_print_open_memfd (memfd_create : bool → option errno)
    (room : nat) (name : list Z) (version : Z) : comp unit (memfd * FILE) :=
  let file noexec := mk_memfd (bs "cockpit login messages") noexec false false [] in
  let fd :=
    match memfd_create true with
    | None => Some (file true)
    | Some EINVAL =>
        match memfd_create false with None => Some (file false) | Some _ => None end
    | Some _ => None
    end in
  match fd with
  | None => Fault
  | Some m =>
      let f := mk_FILE [] room in
      Ok (m, if version >=? 0
             then (fprintf ([123; 34] ++ bs "version" ++ [34] ++ bs ": " ++
                            digits_fuel 10 version) f).2
             else (fputc 123 f).2)
  end.

(** [flush] and [open] tell whether [fflush] and the reopening succeed. *)
Definition cockpit_json_print_finish_memfd (flush_ok seal_ok open_ok : bool)
    (m : memfd) (f : FILE) : comp unit memfd :=
  let '(r, f) := fputc 125 f in
  _ ← cassert (r =? 125);
  _ ← cassert flush_ok;
  _ ← cassert seal_ok;
  _ ← cassert open_ok;
  Ok (mk_memfd (m_name m) (m_noexec m) true true (f_out f)).

(** ** What is written *)

(** A stream that takes all the bytes or the longest prefix it can. *)
Definition fput (bytes : list Z) (f : FILE) : bool * FILE :=
  (bool_decide (length bytes ≤ f_room f)%nat,
   mk_FILE (f_out f ++ take (f_room f) bytes) (f_room f - length bytes)).

Lemma fwrite_fput bytes f :
  fwrite bytes f = (Z.of_nat (Nat.min (f_room f) (length bytes)), (fput bytes f).2).
Proof.
  unfold fwrite, fput. f_equal. cbn [snd]. f_equal; [|lia]. f_equal.
  destruct (decide (f_room f ≤ length bytes)%nat).
  - by rewrite Nat.min_l.
  - rewrite Nat.min_r by lia. by rewrite !take_ge by lia.
Qed.

Lemma or_eof_fput bytes ok f :
  or_eof bytes ok f = (if (fput bytes f).1 then ok else EOF, (fput bytes f).2).
Proof.
  unfold or_eof. rewrite fwrite_fput. cbn [fst fput]. f_equal. unfold zlen.
  case_bool_decide.
  - rewrite (proj2 (Z.eqb_eq _ _)) by lia. done.
  - rewrite (proj2 (Z.eqb_neq _ _)) by lia. done.
Qed.

Lemma fput_app a b f :
  fput (a ++ b) f = (let '(ok, f') := fput a f in if ok then fput b f' else (false, f')).
Proof.
  unfold fput. rewrite length_app. destruct (decide (length a ≤ f_room f)%nat) as [Ha|Ha].
  - rewrite (bool_decide_eq_true_2 (length a ≤ f_room f)%nat) by done. cbn [f_out f_room].
    apply pair_eq. split; [apply bool_decide_ext; lia|]. f_equal; [|lia].
    by rewrite take_app, (take_ge a), <- app_assoc by lia.
  - rewrite !bool_decide_eq_false_2 by lia. apply pair_eq. split; [done|]. f_equal; [|lia].
    rewrite take_app. replace (f_room f - length a)%nat with 0%nat by lia.
    by rewrite take_0, app_nil_r.
Qed.

Lemma fput_nil f : fput [] f = (true, f).
Proof.
  unfold fput. cbn. rewrite bool_decide_eq_true_2 by lia. destruct f as [o r]. cbn.
  by rewrite take_nil, app_nil_r, Nat.sub_0_r.
Qed.

Definition escape_char (c : Z) : list Z :=
  if char_needs_json_escape c then
    if c =? 92 then [92; 92] else if c =? 34 then [92; 34]
    else if c >=? 128 then [63] else u04x c
  else [c].

Fixpoint escaped (s : list Z) : list Z :=
  match s with [] => [] | c :: s' => escape_char c ++ escaped s' end.

Lemma escaped_app a b : escaped (a ++ b) = escaped a ++ escaped b.
Proof. induction a as [|c a IH]; cbn; [done|]. by rewrite IH, app_assoc. Qed.

Lemma escaped_clean s : Forall (λ c, char_needs_json_escape c = false) s → escaped s = s.
Proof.
  induction 1 as [|c s Hc _ IH]; cbn; [done|]. unfold escape_char. by rewrite Hc, IH.
Qed.

Lemma json_escape_char_fput c f :
  is_byte c → char_needs_json_escape c = true → json_escape_char c f = fput (escape_char c) f.
Proof.
  intros Hc He. unfold json_escape_char, escape_char. rewrite He.
  unfold fputs, fputc, fprintf. unfold is_byte in Hc.
  destruct (c =? 92); [|destruct (c =? 34); [|destruct (c >=? 128)]];
    rewrite or_eof_fput; unfold fput; cbn [fst snd].
  all: case_bool_decide; try done.
Qed.

(** The text of a value: up to its first NUL, and at most [maxlen] bytes. *)
Definition text_of (value : list Z) (maxlen : Z) : list Z :=
  cstr (if maxlen <? zlen value then take (Z.to_nat maxlen) value else value).

Lemma text_of_take value maxlen : text_of value maxlen = cstr (take (Z.to_nat maxlen) value).
Proof.
  unfold text_of. destruct (maxlen <? zlen value) eqn:E; [done|]. to_prop.
  by rewrite take_ge by (unfold zlen in E; lia).
Qed.

(** A value whose reads stay inside it. *)
Definition terminated (value : list Z) (maxlen : Z) : Prop :=
  Exists (λ c, c = 0) value ∨ maxlen ≤ zlen value.

Definition split_at (value : list Z) (maxlen : Z) (text r : list Z) : Prop :=
  value = text ++ r ∧ nul_free text ∧ zlen text ≤ maxlen ∧
  (zlen text = maxlen ∨ ∃ r', r = 0 :: r').

Lemma cstr_take_split n s :
  (∃ r, s = cstr (take n s) ++ 0 :: r) ∨
  cstr (take n s) = take n s.
Proof.
  revert s. induction n as [|n IH]; intros [|x s]; cbn; [by right..|].
  destruct (x =? 0) eqn:E; to_prop; [subst x; left; by exists s|].
  destruct (IH s) as [[r Hr]| ->]; [|by right]. left. exists r. cbn. by rewrite <- Hr.
Qed.

Lemma nul_free_no_nul s : nul_free s → ¬ Exists (λ c, c = 0) s.
Proof. intros H. by apply Forall_Exists_neg. Qed.

Lemma text_split value maxlen :
  terminated value maxlen → 0 ≤ maxlen →
  ∃ r, split_at value maxlen (text_of value maxlen) r.
Proof.
  intros Ht Hm. rewrite text_of_take. unfold split_at. set (n := Z.to_nat maxlen).
  assert (Hle : zlen (cstr (take n value)) ≤ Z.of_nat n).
  { destruct (cstr_prefix (take n value)) as [q Hq].
    assert (Hl : zlen (take n value) ≤ Z.of_nat n) by (rewrite zlen_take; lia).
    rewrite Hq, zlen_app in Hl. pose proof (zlen_nonneg q). lia. }
  destruct (cstr_take_split n value) as [[r Hr]|Hc].
  - eexists. split_and!; [exact Hr|apply cstr_nul_free|lia|right; by eexists].
  - exists (drop n value). rewrite Hc in *.
    assert (Hn : nul_free (take n value)) by (rewrite <- Hc; apply cstr_nul_free).
    split_and!; [by rewrite take_drop|done|lia|]. destruct Ht as [Ht|Ht].
    + rewrite <- (take_drop n value), Exists_app in Ht.
      destruct Ht as [Ht|Ht]; [by apply nul_free_no_nul in Ht|].
      left. rewrite zlen_take. destruct (drop n value) as [|y d] eqn:E; [by apply Exists_nil in Ht|].
      assert (Hlt : (n < length value)%nat).
      { destruct (decide (n < length value)%nat); [done|]. rewrite drop_ge in E by lia. done. }
      unfold zlen. lia.
    + left. rewrite zlen_take. lia.
Qed.

Section Loop.
Context (value : list Z) (maxlen : Z) (text r : list Z).
Context (Hs : split_at value maxlen text r).

Lemma get_inside pre c t :
  text = pre ++ c :: t →
  buf_get (E := unit) value (zlen pre) = Ok c ∧ has_char value maxlen (zlen pre) = Ok true.
Proof.
  intros Ht. destruct Hs as (Hv & Hn & Hl & _). rewrite Ht in *.
  assert (Hg : buf_get (E := unit) value (zlen pre) = Ok c).
  { rewrite Hv, <- app_assoc. cbn. apply buf_get_app. }
  split; [done|]. unfold has_char. rewrite zlen_app, zlen_cons in Hl.
  pose proof (zlen_nonneg t). rewrite (proj2 (Z.ltb_lt _ _)), Hg by lia. cbn.
  apply Forall_app in Hn as [_ Hn]. apply Forall_cons in Hn as [Hc _].
  by rewrite (proj2 (Z.eqb_neq _ _) Hc).
Qed.

Lemma get_end : has_char value maxlen (zlen text) = Ok false.
Proof.
  destruct Hs as (Hv & Hn & Hl & Hr). unfold has_char.
  destruct (zlen text <? maxlen) eqn:E; [|done]. to_prop. destruct Hr as [Hr|[r' Hr]]; [lia|].
  rewrite Hv, Hr, buf_get_app. done.
Qed.

Lemma json_span_ok fuel pre t :
  text = pre ++ t → (length t < fuel)%nat →
  ∃ a b, t = a ++ b ∧ Forall (λ c, char_needs_json_escape c = false) a ∧
    json_span fuel value maxlen (zlen pre) = Ok (zlen (pre ++ a)) ∧
    match b with [] => True | c :: _ => char_needs_json_escape c = true end.
Proof.
  revert pre t. induction fuel as [|fuel IH]; intros pre t Ht Hf; [lia|]. cbn [json_span].
  destruct t as [|c t].
  - rewrite app_nil_r in Ht. exists [], []. rewrite (app_nil_r pre). subst pre. rewrite get_end.
    split_and!; [done|apply Forall_nil_2|done|done].
  - destruct (get_inside _ _ _ Ht) as [Hg ->]. cbn [mbind comp_bind]. rewrite Hg.
    cbn [mbind comp_bind]. destruct (char_needs_json_escape c) eqn:Ec.
    + exists [], (c :: t). rewrite app_nil_r. split_and!; [done|apply Forall_nil_2|done|done].
    + destruct (IH (pre ++ [c]) t) as (a & b & -> & Ha & Hj & Hb).
      { by rewrite <- app_assoc. } { cbn in Hf. lia. }
      exists (c :: a), b. rewrite <- app_assoc in Hj. rewrite zlen_app in Hj.
      split_and!; [done|by constructor|exact Hj|done].
Qed.

Lemma segment_fput pre a b f :
  text = pre ++ a ++ b →
  (if negb (zlen pre + zlen a =? zlen pre)
   then let '(n, f) := fwrite (slice value (zlen pre) (zlen pre + zlen a - zlen pre)) f in
        (Ok (E := unit) (n =? zlen pre + zlen a - zlen pre), f)
   else (Ok true, f)) = (let '(ok, f) := fput a f in (Ok ok, f)).
Proof.
  intros Ht. destruct a as [|x a].
  { rewrite zlen_nil, (proj2 (Z.eqb_eq _ _)) by lia. by rewrite fput_nil. }
  pose proof (zlen_nonneg a). rewrite (proj2 (Z.eqb_neq _ _)) by (rewrite zlen_cons; lia).
  replace (zlen pre + zlen (x :: a) - zlen pre) with (zlen (x :: a)) by lia.
  assert (Hsl : slice value (zlen pre) (zlen (x :: a)) = x :: a).
  { destruct Hs as (-> & _). rewrite Ht, <- !app_assoc. unfold slice, zlen.
    by rewrite !Nat2Z.id, drop_app_length, take_app_length. }
  cbn [negb]. rewrite Hsl, fwrite_fput. unfold fput. cbn [fst snd].
  do 2 f_equal. unfold zlen. case_bool_decide; [apply Z.eqb_eq|apply Z.eqb_neq]; lia.
Qed.

Lemma json_escape_loop_fput fuel pre t f :
  Forall is_byte text → text = pre ++ t → (length t < fuel)%nat →
  json_escape_loop fuel value maxlen (zlen pre) f =
    (let '(ok, f') := fput (escaped t) f in (Ok ok, f')).
Proof.
  intros Hb. revert pre t f. induction fuel as [|fuel IH]; intros pre t f Ht Hf; [lia|].
  cbn [json_escape_loop]. rewrite prog_bind_eq. unfold lift at 1.
  destruct t as [|c0 t0].
  { rewrite app_nil_r in Ht. rewrite <- Ht, get_end. cbn [escaped]. by rewrite fput_nil. }
  destruct (get_inside _ _ _ Ht) as [_ ->]. rewrite prog_bind_eq. unfold lift at 1.
  destruct (json_span_ok (S (length value)) pre (c0 :: t0) Ht) as (a & b & Hab & Ha & -> & Hbh).
  { destruct Hs as (-> & _). rewrite Ht, !length_app. lia. }
  assert (Hne : a ++ b ≠ []) by (by rewrite <- Hab).
  rewrite Hab. rewrite Hab in Ht, Hf. clear c0 t0 Hab. rewrite prog_bind_eq.
  rewrite zlen_app. rewrite escaped_app, fput_app, (escaped_clean a) by done.
  rewrite (segment_fput _ _ _ _ Ht). destruct (fput a f) as [[] f1]; [cbn [negb]|done].
  rewrite prog_bind_eq. unfold lift at 1. rewrite <- zlen_app. destruct b as [|c b].
  - rewrite app_nil_r in Ht. rewrite <- Ht, get_end.
    rewrite Ht, (IH (pre ++ a) []); [done|by rewrite app_nil_r, Ht|].
    destruct a; [done|cbn in *; lia].
  - rewrite app_assoc in Ht. destruct (get_inside _ _ _ Ht) as [Hg ->].
    rewrite prog_bind_eq. unfold lift at 1. rewrite Hg, prog_bind_eq.
    assert (Hcb : is_byte c).
    { rewrite Ht, Forall_app in Hb. destruct Hb as [_ Hb]. by inversion_clear Hb. }
    cbn [escaped]. rewrite fput_app, json_escape_char_fput; [|done|done].
    destruct (fput (escape_char c) f1) as [[] f2]; [cbn [negb]|done].
    change 1 with (zlen [c]). rewrite <- zlen_app.
    rewrite length_app in Hf. cbn in Hf. apply IH; [by rewrite Ht, <- (app_assoc (pre ++ a))|lia].
Qed.
End Loop.

(** The value is written escaped, or the longest prefix of that the stream takes. *)
Lemma json_escape_string_fput value maxlen f :
  Forall is_byte value → terminated value maxlen → 0 ≤ maxlen →
  json_escape_string value maxlen f =
    (let '(ok, f') := fput (escaped (text_of value maxlen)) f in (Ok ok, f')).
Proof.
  intros Hb Ht Hm. destruct (text_split _ _ Ht Hm) as [r Hr].
  unfold json_escape_string. change 0 with (zlen (@nil Z)).
  pose proof Hr as (Hv & _). rewrite Hv, Forall_app in Hb. destruct Hb as [Hb _].
  apply (json_escape_loop_fput _ _ _ _ Hr _ [] (text_of value maxlen)); [done..|].
  rewrite Hv at 2. rewrite length_app. lia.
Qed.

(** ** Messages *)

(** A message as its users print it: open, properties, finish. *)
Inductive property :=
| PString (key value : list Z) (maxlen : Z)
| PBool (key : list Z) (value : bool)
| PInteger (key : list Z) (value : Z).

Definition print_property (p : property) : prog FILE unit bool :=
  match p with
  | PString key value maxlen => cockpit_json_print_string_property key value maxlen
  | PBool key value => cockpit_json_print_bool_property key value
  | PInteger key value => cockpit_json_print_integer_property key value
  end.

Fixpoint print_properties (ps : list property) : prog FILE unit unit :=
  match ps with
  | [] => mret tt
  | p :: ps' => ok ← print_property p;
                if ok : bool then print_properties ps' else lift (Err tt)
  end.

Definition print_message (room : nat) (version : Z) (ps : list property) : comp unit memfd :=
  '(m, f) ← cockpit_json_print_open_memfd (λ _, None) room [] version;
  match print_properties ps f with
  | (Ok _, f) => cockpit_json_print_finish_memfd true true true m f
  | (Err e, _) => Err e
  | (Fault, _) => Fault
  end.

(** ** A reader for flat JSON objects *)

Inductive jvalue := JString (s : list Z) | JBool (b : bool) | JNumber (n : Z).

#[export] Instance jvalue_eq : EqDecision jvalue.
Proof. solve_decision. Defined.

Definition unxdigit (c : Z) : option Z :=
  if isdigit c then Some (c - 48)
  else if (97 <=? c) && (c <=? 102) then Some (c - 87)
  else if (65 <=? c) && (c <=? 70) then Some (c - 55) else None.

(** The characters of a string, after the opening quote. *)
Fixpoint read_string (s : list Z) : option (list Z * list Z) :=
  match s with
  | [] => None
  | c :: s1 =>
      if c =? 34 then Some ([], s1)
      else if c =? 92 then
        match s1 with
        | e :: s2 =>
            if (e =? 92) || (e =? 34) then '(t, r) ← read_string s2; Some (e :: t, r)
            else if e =? 117 then
              match s2 with
              | h3 :: h2 :: h1 :: h0 :: s3 =>
                  a ← unxdigit h3; b ← unxdigit h2; c ← unxdigit h1; d ← unxdigit h0;
                  '(t, r) ← read_string s3; Some (((a * 16 + b) * 16 + c) * 16 + d :: t, r)
              | _ => None
              end
            else None
        | [] => None
        end
      else if c >=? 32 then '(t, r) ← read_string s1; Some (c :: t, r)
      else None
  end.

Fixpoint read_digits (s : list Z) : list Z * list Z :=
  match s with
  | c :: s' => if isdigit c then let '(d, r) := read_digits s' in (c :: d, r) else ([], s)
  | [] => ([], [])
  end.

Definition expect (p s : list Z) : option (list Z) :=
  if prefixb p s then Some (drop (length p) s) else None.

Definition read_value (s : list Z) : option (jvalue * list Z) :=
  match s with
  | 34 :: r => '(t, r) ← read_string r; Some (JString t, r)
  | 116 :: _ => r ← expect (bs "true") s; Some (JBool true, r)
  | 102 :: _ => r ← expect (bs "false") s; Some (JBool false, r)
  | _ => match read_digits s with
         | ([], _) => None
         | (d, r) => Some (JNumber (dec_value d), r)
         end
  end.

Definition read_member (s : list Z) : option (list Z * jvalue * list Z) :=
  s ← expect [34] s; '(k, s) ← read_string s; s ← expect (bs ": ") s;
  '(v, s) ← read_value s; Some (k, v, s).

Fixpoint read_members (fuel : nat) (s : list Z) : option (list (list Z * jvalue)) :=
  match fuel with
  | O => None
  | S fuel' =>
      '(k, v, s) ← read_member s;
      match s with
      | [125] => Some [(k, v)]
      | _ => s ← expect (bs ", ") s; l ← read_members fuel' s; Some ((k, v) :: l)
      end
  end.

Definition read_object (s : list Z) : option (list (list Z * jvalue)) :=
  s ← expect [123] s; read_members (length s) s.

(** What a property reads back as. *)
Definition ascii (c : Z) : Z := if c >=? 128 then 63 else c.

Definition meaning (p : property) : list Z * jvalue :=
  match p with
  | PString key value maxlen => (key, JString (ascii <$> text_of value (u64 maxlen)))
  | PBool key value => (key, JBool value)
  | PInteger key value => (key, JNumber value)
  end.

Definition clean (s : list Z) : Prop := Forall (λ c, char_needs_json_escape c = false) s.

Definition printable (p : property) : Prop :=
  match p with
  | PString key value maxlen =>
      clean key ∧ zlen key < 2 ^ 31 - 7 ∧ Forall is_byte value ∧
      terminated value (u64 maxlen)
  | PBool key _ => clean key ∧ zlen key < 2 ^ 31 - 11
  | PInteger key value => clean key ∧ zlen key < 2 ^ 31 - 11 ∧ 0 ≤ value < 2 ^ 64
  end.

(** The text of a property, comma apart. *)
Definition value_text (p : property) : list Z :=
  match p with
  | PString _ value maxlen => [34] ++ escaped (text_of value (u64 maxlen)) ++ [34]
  | PBool _ value => if value then bs "true" else bs "false"
  | PInteger _ value => render_u64 value
  end.

Definition member_text (p : property) : list Z :=
  [34] ++ (meaning p).1 ++ [34] ++ bs ": " ++ value_text p.

Lemma fprintf_expected text n f :
  zlen text = n → n < 2 ^ 31 →
  (u64 (fprintf text f).1 =? n) = (fput text f).1 ∧ (fprintf text f).2 = (fput text f).2.
Proof.
  intros <- Hn. unfold fprintf. rewrite or_eof_fput. cbn [fst snd]. split; [|done].
  pose proof (zlen_nonneg text).
  destruct (fput text f).1; [apply Z.eqb_eq, Z.mod_small; lia|apply Z.eqb_neq].
  change (u64 EOF) with (2 ^ 64 - 1). lia.
Qed.

Lemma zlen_pos {A} (x : A) l : 0 < zlen (x :: l).
Proof. zlen_solve. Qed.

Lemma digits_fuel_nonempty fuel n : ∃ c l, digits_fuel (S fuel) n = c :: l.
Proof.
  cbn. destruct (if n <? 10 then [] else digits_fuel fuel (n / 10)) as [|c l]; cbn; by eexists _, _.
Qed.

Lemma print_property_fput p f :
  printable p →
  print_property p f = (let '(ok, f') := fput (bs ", " ++ member_text p) f in (Ok ok, f')).
Proof.
  destruct p as [key value maxlen|key value|key value]; cbn [print_property printable].
  - intros (_ & Hk & Hb & Ht). unfold cockpit_json_print_string_property, member_text.
    set (head := bs ", " ++ [34] ++ key ++ [34] ++ bs ": " ++ [34]).
    change (bs ", " ++ [34] ++ (meaning (PString key value maxlen)).1 ++ [34] ++ bs ": " ++ _)
      with (bs ", " ++ [34] ++ key ++ [34] ++ bs ": " ++
            [34] ++ escaped (text_of value (u64 maxlen)) ++ [34]).
    replace (bs ", " ++ [34] ++ key ++ [34] ++ bs ": " ++ [34] ++ escaped _ ++ [34])
      with (head ++ escaped (text_of value (u64 maxlen)) ++ [34])
      by (unfold head; by rewrite <- !app_assoc).
    destruct (fprintf_expected head (zlen key + 7) f) as [H1 H2].
    { unfold head. rewrite !zlen_app. lit_zlen. lia. } { lia. }
    destruct (fprintf head f) as [n f1]. cbn [fst snd] in *. rewrite H1, fput_app.
    destruct (fput head f) as [[] f1']; cbn [fst snd] in *; subst f1'; [cbn [negb]|done].
    rewrite json_escape_string_fput; [|done|done|apply Z.mod_pos_bound; lia].
    rewrite fput_app. destruct (fput (escaped _) f1) as [[] f2]; [|done].
    unfold fputc. rewrite or_eof_fput. by destruct (fput [34] f2) as [[] f3].
  - intros (_ & Hk). unfold cockpit_json_print_bool_property, member_text. cbn [meaning fst value_text].
    set (text := bs ", " ++ _).
    destruct (fprintf_expected text (6 + zlen key + (if value then 4 else 5)) f) as [H1 H2].
    { unfold text. rewrite !zlen_app. destruct value; lit_zlen; lia. } { destruct value; lia. }
    destruct (fprintf text f) as [n f1]. cbn [fst snd] in *. rewrite H1, H2. by destruct (fput text f).
  - intros (_ & Hk & Hv). unfold cockpit_json_print_integer_property, member_text.
    cbn [meaning fst value_text]. set (text := bs ", " ++ _).
    unfold fprintf. rewrite or_eof_fput. destruct (fput text f) as [ok f1]. cbn [fst snd].
    f_equal. f_equal. destruct ok; [|done]. rewrite Z.gtb_ltb. apply Z.ltb_lt.
    unfold text, render_u64. destruct (digits_fuel_nonempty 19 (u64 value)) as (c & l & ->).
    rewrite !zlen_app. pose proof (zlen_pos c l). pose proof (zlen_nonneg key). lit_zlen. lia.
Qed.

Lemma unxdigit_xdigit n : 0 ≤ n < 16 → unxdigit (xdigit n) = Some n.
Proof. apply (byte_dec (λ n, unxdigit (xdigit n) = Some n) 16). by_decide. Qed.

Lemma read_string_char c t :
  is_byte c →
  read_string (escape_char c ++ t) = ('(x, r) ← read_string t; Some (ascii c :: x, r)).
Proof.
  intros Hc. unfold is_byte in Hc. unfold escape_char, ascii, char_needs_json_escape.
  destruct (c =? 92) eqn:E1; to_prop; [subst c; done|].
  destruct (c =? 34) eqn:E2; to_prop; [subst c; done|].
  destruct (c >=? 128) eqn:E3; to_prop.
  { rewrite (proj2 (Z.ltb_ge _ _)) by lia. cbn [orb]. rewrite (proj2 (Z.geb_ge c 127)) by lia. done. }
  destruct ((c <? 32) || false || false || (c >=? 127)) eqn:E4; to_prop.
  - change (read_string (u04x c ++ t)) with
      (a ← unxdigit (xdigit (c / 4096 mod 16)); b ← unxdigit (xdigit (c / 256 mod 16));
       c' ← unxdigit (xdigit (c / 16 mod 16)); d ← unxdigit (xdigit (c mod 16));
       '(t, r) ← read_string t; Some (((a * 16 + b) * 16 + c') * 16 + d :: t, r)).
    rewrite !unxdigit_xdigit by lia. cbn [mbind option_bind].
    replace ((((c / 4096) mod 16 * 16 + (c / 256) mod 16) * 16 + (c / 16) mod 16) * 16 + c mod 16)
      with c by lia. done.
  - assert (32 ≤ c < 127) by lia.
    cbn [app read_string]. rewrite (proj2 (Z.eqb_neq c 34)), (proj2 (Z.eqb_neq c 92)) by done.
    by rewrite (proj2 (Z.geb_ge c 32)) by lia.
Qed.

Lemma read_string_escaped s r :
  Forall is_byte s → read_string (escaped s ++ 34 :: r) = Some (ascii <$> s, r).
Proof.
  induction 1 as [|c s Hc _ IH]; [done|]. cbn [escaped]. rewrite <- app_assoc.
  rewrite read_string_char, IH by done. done.
Qed.

Lemma ascii_clean s : clean s → ascii <$> s = s.
Proof.
  induction 1 as [|c s Hc _ IH]; [done|]. cbn. rewrite IH. f_equal. unfold ascii.
  unfold char_needs_json_escape in Hc. to_prop. by rewrite Z.geb_leb, (proj2 (Z.leb_gt _ _)) by lia.
Qed.

Definition ends_number (r : list Z) : Prop :=
  match r with [] => False | c :: _ => isdigit c = false end.

Lemma read_digits_app d r : digits d → ends_number r → read_digits (d ++ r) = (d, r).
Proof.
  intros Hd Hr. induction Hd as [|c d Hc _ IH].
  - destruct r as [|c r]; [done|]. cbn in *. by rewrite Hr.
  - cbn. by rewrite Hc, IH.
Qed.

Lemma read_value_digits c d r :
  digits (c :: d) → ends_number r → read_value ((c :: d) ++ r) = Some (JNumber (dec_value (c :: d)), r).
Proof.
  intros Hd Hr. pose proof (read_digits_app _ _ Hd Hr) as Hrd.
  apply Forall_cons in Hd as [Hc _]. apply isdigit_range in Hc.
  change ((c :: d) ++ r) with (c :: (d ++ r)) in *. unfold read_value. rewrite Hrd.
  assert (Hcs : c = 48 ∨ c = 49 ∨ c = 50 ∨ c = 51 ∨ c = 52 ∨ c = 53 ∨ c = 54 ∨ c = 55 ∨
                c = 56 ∨ c = 57) by lia.
  by repeat destruct Hcs as [-> | Hcs]; [..|subst c].
Qed.

Lemma text_of_bytes value maxlen : Forall is_byte value → Forall is_byte (text_of value maxlen).
Proof.
  intros Hb. rewrite text_of_take. destruct (cstr_prefix (take (Z.to_nat maxlen) value)) as [q Hq].
  apply (Forall_take _ (Z.to_nat maxlen)) in Hb. rewrite Hq in Hb. by apply Forall_app in Hb as [Hb _].
Qed.

Lemma read_value_text p r :
  printable p → ends_number r →
  read_value (value_text p ++ r) = Some ((meaning p).2, r).
Proof.
  destruct p as [key value maxlen|key value|key value]; cbn [printable]; intros Hp Hr.
  - destruct Hp as (_ & _ & Hb & _). cbn [value_text meaning snd].
    change (([34] ++ escaped (text_of value (u64 maxlen)) ++ [34]) ++ r)
      with (34 :: ((escaped (text_of value (u64 maxlen)) ++ [34]) ++ r)).
    rewrite <- app_assoc. unfold read_value.
    change ([34] ++ r) with (34 :: r).
    rewrite read_string_escaped by by apply text_of_bytes. done.
  - by destruct value.
  - destruct Hp as (_ & _ & Hv). cbn [value_text meaning snd]. unfold render_u64.
    assert (Hu : u64 value = value) by (apply Z.mod_small; lia). rewrite Hu.
    assert (Hd : digits (digits_fuel 20 value)) by (apply digits_fuel_digits; lia).
    rewrite <- (digits_fuel_value 20 value) at 2 by lia.
    destruct (digits_fuel_nonempty 19 value) as (c & l & Hcl). rewrite Hcl in *.
    by apply read_value_digits.
Qed.

Lemma escaped_key p : printable p → clean (meaning p).1 ∧ Forall is_byte (meaning p).1.
Proof.
  intros Hp. assert (Hc : clean (meaning p).1) by (destruct p; cbn in *; tauto).
  split; [done|]. eapply Forall_impl; [exact Hc|]. cbn. unfold char_needs_json_escape, is_byte.
  intros c H. to_prop. lia.
Qed.

Lemma expect_app p r : expect p (p ++ r) = Some r.
Proof. unfold expect. by rewrite prefixb_app, drop_app_length. Qed.

Lemma read_member_text p r :
  printable p → ends_number r →
  read_member (member_text p ++ r) = Some ((meaning p).1, (meaning p).2, r).
Proof.
  intros Hp Hr. destruct (escaped_key p Hp) as [Hc Hb].
  unfold read_member, member_text. rewrite <- !app_assoc, expect_app.
  cbn [mbind option_bind]. rewrite <- (escaped_clean (meaning p).1) at 1 by done.
  change ([34] ++ ?x) with (34 :: x).
  rewrite read_string_escaped, (ascii_clean _ Hc) by done. cbn [mbind option_bind].
  rewrite expect_app. cbn [mbind option_bind]. by rewrite read_value_text.
Qed.

Fixpoint more_text (ps : list property) : list Z :=
  match ps with
  | [] => []
  | p :: ps' => (bs ", " ++ member_text p) ++ more_text ps'
  end.

Lemma read_members_text fuel p ps :
  Forall printable (p :: ps) → (length ps < fuel)%nat →
  read_members fuel (member_text p ++ more_text ps ++ [125]) = Some (meaning <$> p :: ps).
Proof.
  revert p ps. induction fuel as [|fuel IH]; intros p ps Hp Hf; [lia|].
  apply Forall_cons in Hp as [Hp Hps]. cbn [read_members].
  rewrite read_member_text by (done || by destruct ps).
  cbn [mbind option_bind]. destruct ps as [|q ps].
  - cbn. by destruct (meaning p).
  - cbn [more_text]. rewrite <- !app_assoc.
    change (bs ", " ++ member_text q ++ more_text ps ++ [125])
      with (44 :: 32 :: (member_text q ++ more_text ps ++ [125])) at 1.
    cbv iota. change (44 :: 32 :: ?x) with (bs ", " ++ x). rewrite expect_app.
    cbn [mbind option_bind]. rewrite IH by (done || cbn in Hf; lia). cbn. by destruct (meaning p).
Qed.

Lemma print_properties_fput ps f :
  Forall printable ps →
  print_properties ps f =
    (let '(ok, f') := fput (more_text ps) f in (if ok then Ok tt else Err tt, f')).
Proof.
  intros Hp. revert f. induction Hp as [|p ps Hp _ IH]; intros f; cbn [print_properties more_text].
  - by rewrite fput_nil.
  - rewrite prog_bind_eq, print_property_fput, (fput_app (bs ", " ++ member_text p)) by done.
    destruct (fput _ f) as [[] f1]; [apply IH|done].
Qed.

Lemma digits_fuel_more f f' n :
  0 ≤ n < 10 ^ Z.of_nat (S f) → n < 10 ^ Z.of_nat (S f') →
  digits_fuel (S f) n = digits_fuel (S f') n.
Proof.
  revert f' n. induction f as [|f IH]; intros f' n H1 H2.
  - change (10 ^ Z.of_nat 1) with 10 in H1. cbn. by rewrite (proj2 (Z.ltb_lt _ _)) by lia.
  - rewrite (Nat2Z.inj_succ (S f)), Z.pow_succ_r in H1 by lia.
    destruct f' as [|f'].
    + change (10 ^ Z.of_nat 1) with 10 in H2. cbn. by rewrite (proj2 (Z.ltb_lt _ _)) by lia.
    + rewrite (Nat2Z.inj_succ (S f')), Z.pow_succ_r in H2 by lia.
      change (digits_fuel (S ?k) n) with
        ((if n <? 10 then [] else digits_fuel k (n / 10)) ++ [48 + n mod 10]).
      destruct (n <? 10); [done|]. by rewrite (IH f') by lia.
Qed.

(** The text of a whole message. *)
Definition message_text (version : Z) (ps : list property) : list Z :=
  [123] ++ member_text (PInteger (bs "version") version) ++ more_text ps ++ [125].

Lemma print_message_spec room version ps :
  0 ≤ version < 2 ^ 31 → Forall printable ps →
  match print_message room version ps with
  | Ok m => (length (message_text version ps) ≤ room)%nat ∧
            m = mk_memfd (bs "cockpit login messages") true true true (message_text version ps)
  | _ => (room < length (message_text version ps))%nat
  end.
Proof.
  intros Hv Hp. unfold print_message, cockpit_json_print_open_memfd. cbn [mbind comp_bind].
  rewrite Z.geb_leb, (proj2 (Z.leb_le _ _)) by lia. unfold fprintf. rewrite or_eof_fput. cbn [snd].
  set (head := [123; 34] ++ _). rewrite print_properties_fput by done.
  assert (Ht : message_text version ps = head ++ more_text ps ++ [125]).
  { unfold message_text, member_text, head. cbn [meaning fst value_text]. unfold render_u64.
    assert (Hu : u64 version = version) by (apply Z.mod_small; lia).
    rewrite Hu, (digits_fuel_more 19 9) by lia. rewrite <- !app_assoc. done. }
  rewrite Ht. clearbody head. clear Ht.
  unfold fput at 2. cbn [snd f_out f_room app].
  unfold fput. cbn [f_out f_room]. rewrite !length_app. cbn [length].
  case_bool_decide as H1; [|lia].
  unfold cockpit_json_print_finish_memfd, fputc. rewrite or_eof_fput. unfold fput.
  cbn [f_out f_room fst snd length]. case_bool_decide as H2.
  - cbn. split; [lia|]. f_equal. rewrite !take_ge by (cbn; lia). by rewrite <- !app_assoc.
  - cbn. lia.
Qed.

(** The text reads back as the properties. *)
Lemma read_message_text version ps :
  0 ≤ version < 2 ^ 31 → Forall printable ps →
  read_object (message_text version ps) = Some ((bs "version", JNumber version) :: (meaning <$> ps)).
Proof.
  intros Hv Hp. unfold read_object, message_text. rewrite expect_app. cbn [mbind option_bind].
  rewrite read_members_text; [done| |].
  - constructor; [|done]. cbn. split_and!; [by_decide|by cbn|lia|lia].
  - rewrite !length_app. cbn. assert (length ps ≤ length (more_text ps))%nat; [|lia].
    clear Hp. induction ps as [|p ps IH]; cbn; lia || (rewrite length_app; lia).
Qed.

(** ** Properties *)

(** Printing then reading a message gives back its properties.  For printable
    properties the sealed, read-only memory file holds a JSON object of the version and
    exactly those properties in order, strings cut at their NUL or maximum length and
    with a question mark for each byte outside ASCII; that is so whenever the stream
    takes the whole text, and the functions never report success otherwise. *)
Theorem json_message_roundtrip version ps :
  0 ≤ version < 2 ^ 31 → Forall printable ps →
  ∃ text, read_object text = Some ((bs "version", JNumber version) :: (meaning <$> ps)) ∧
    ∀ room, match print_message room version ps with
            | Ok m => (length text ≤ room)%nat ∧ m_data m = text ∧
                      m_sealed m = true ∧ m_readonly m = true
            | _ => (room < length text)%nat
            end.
Proof.
  intros Hv Hp. exists (message_text version ps). split.
  - by apply read_message_text.
  - intros room. pose proof (print_message_spec room version ps Hv Hp) as H.
    destruct (print_message room version ps) as [m|[]|]; [|done..].
    by destruct H as [? ->].
Qed.

Lemma json_message_roundtrip_witness :
  ∃ text, read_object text = Some [(bs "version", JNumber 1); (bs "a", JString [34; 10; 63]);
                                   (bs "b", JBool true); (bs "n", JNumber 42)] ∧
    ∀ room, match print_message room 1 [PString (bs "a") [34; 10; 200; 0; 65] (-1);
                                        PBool (bs "b") true; PInteger (bs "n") 42] with
            | Ok m => (length text ≤ room)%nat ∧ m_data m = text ∧
                      m_sealed m = true ∧ m_readonly m = true
            | _ => (room < length text)%nat
            end.
Proof.
  apply (json_message_roundtrip 1 [PString (bs "a") [34; 10; 200; 0; 65] (-1);
                                   PBool (bs "b") true; PInteger (bs "n") 42]); [lia|].
  repeat (apply Forall_cons; split); try apply Forall_nil_2;
    cbn [printable]; split_and!; try by_decide; try lia.
Defined.
