(* ===== verification/ClientCertificate.v ===== *)
(** * Client certificates: [src/tls/client-certificate.c] and
    [src/session/client-certificate.c]

    The proxy writes the certificate of a TLS client, after the name of the cgroup that
    may use it, to a file with a random name; the session program reads the file back,
    checks the cgroup against its own and maps the certificate to a user.  The directory
    of certificate files is a finite map from names to contents.  GnuTLS ([fingerprint],
    [pem_encode]) and sssd are parameters.  The theorems show that the two programs
    agree: a session maps exactly the certificate presented, and only in the cgroup of
    the web service instance of that certificate. *)

From S2P Require Import Prelude Hex.

Abbreviation directory := (gmap (list Z) (list Z)).

(** ** Verification of the peer *)

Section Verify.
(** Status bits of GnuTLS. *)
Context (GNUTLS_CERT_INVALID GNUTLS_CERT_SIGNER_NOT_FOUND GNUTLS_CERT_SIGNER_NOT_CA : Z).

(** Answers of [gnutls_certificate_verify_peers2] and results of the function, each
    standing for its error code. *)
Inductive verify_answer := VOk (status : Z) | VInterrupted | VNoCertificate | VError (r : Z).

Inductive verify_result := VerifySuccess | VerifyCertificateError | VerifyError (r : Z).

Fixpoint client_certificate_verify (answers : list verify_answer) : option verify_result :=
  match answers with
  | [] => None
  | VInterrupted :: answers' => client_certificate_verify answers'
  | VOk status :: _ =>
      let mask := Z.lor (Z.lor GNUTLS_CERT_INVALID GNUTLS_CERT_SIGNER_NOT_FOUND)
                        GNUTLS_CERT_SIGNER_NOT_CA in
      Some (if negb (Z.land status (Z.lnot mask) =? 0)
            then VerifyCertificateError else VerifySuccess)
  | VNoCertificate :: _ => Some VerifySuccess
  | VError r :: _ => Some (VerifyError r)
  end.
End Verify.

(** ** The proxy's side *)

(** What the calls of the operating system answer. *)
Record accept_env := AcceptEnv {
  ae_tmpfile : bool;                 (** [openat (O_TMPFILE)] *)
  ae_write : list Z → Z;             (** [write]: bytes written, or -1 *)
  ae_random : option (list Z);       (** [getrandom] *)
  ae_linkat : bool
}.

Definition SHA256_NIL : list Z :=
  bs "e3b0c44298fc1c149afbf4c8996fb92427ae41e4649b934ca495991b7852b855".

Section Accept.
Context {certificate : Type}.
(** [gnutls_fingerprint (GNUTLS_DIG_SHA256)] and [gnutls_pem_base64_encode2]. *)
Context (fingerprint : certificate → option (list Z)).
Context (pem_encode : certificate → option (list Z)).

(** [Err] is an exit of the program. *)
Definition client_certificate_get_wsinstance (cert : certificate) : comp unit (list Z) :=
  match fingerprint cert with
  | None => Err tt
  | Some digest => _ ← cassert (zlen digest =? 256 / 8); cockpit_hex_encode digest (zlen digest)
  end.

Definition client_certificate_random_filename (env : accept_env) : comp unit (list Z) :=
  match ae_random env with
  | None => Err tt
  | Some data => if negb (zlen data =? 256 / 8) then Err tt
                 else cockpit_hex_encode data (zlen data)
  end.

(** [file] is what the temporary file holds; a call that writes less than it was
    given leaves that much there. *)
Definition client_certificate_write_data (env : accept_env) (file data : list Z)
    : list Z * bool :=
  let s := ae_write env data in
  (file ++ take (Z.to_nat s) data, s =? zlen data).

Definition cgroup_header (wsinstance : list Z) : list Z :=
  bs "0::/system.slice/system-cockpithttps.slice/cockpit-wsinstance-https@" ++
  wsinstance ++ bs ".service" ++ [10].

Definition client_certificate_write_cgroup_header (env : accept_env)
    (file wsinstance : list Z) : comp unit (list Z * bool) :=
  let header := cgroup_header wsinstance in
  _ ← cassert (zlen header <? 200);
  Ok (client_certificate_write_data env file header).

Definition client_certificate_write_pem (env : accept_env) (file : list Z) (cert : certificate)
    : list Z * bool :=
  match pem_encode cert with
  | None => (file, false)
  | Some pem => client_certificate_write_data env file pem
  end.

(** [linkat] fails on a name that exists, or for other reasons. *)
Definition linkat (env : accept_env) (file filename : list Z) : prog directory unit bool :=
  λ dir, if ae_linkat env && bool_decide (dir !! filename = None)
         then (Ok true, <[filename := file]> dir) else (Ok false, dir).

Definition client_certificate_link_fd_to_random_name (env : accept_env) (file : list Z)
    : prog directory unit (option (list Z)) :=
  filename ← lift (client_certificate_random_filename env);
  linked ← linkat env file filename;
  mret (if linked : bool then Some filename else None).

Definition client_certificate_create_tmpfile (env : accept_env) : bool := ae_tmpfile env.

(** The instance and the file name, or [None] for the result [false]. *)
Definition client_certificate_accept (env : accept_env) (peer : option certificate)
    : prog directory unit (option (list Z * option (list Z))) :=
  match peer with
  | None => mret (Some (SHA256_NIL, None))
  | Some cert =>
      wsinstance ← lift (client_certificate_get_wsinstance cert);
      if negb (client_certificate_create_tmpfile env) then mret None
      else
        '(file, ok) ← lift (client_certificate_write_cgroup_header env [] wsinstance);
        if negb ok then mret None
        else
          let '(file, ok) := client_certificate_write_pem env file cert in
          if negb ok then mret None
          else
            filename ← client_certificate_link_fd_to_random_name env file;
            mret (match filename with
                  | None => None
                  | Some filename => Some (wsinstance, Some filename)
                  end)
  end.

(** A failure ends the program. *)
Definition client_certificate_unlink_and_free (filename : list Z) : prog directory unit unit :=
  λ dir, match dir !! filename with
         | None => (Err tt, dir)
         | Some _ => (Ok tt, delete filename dir)
         end.
End Accept.

(** ** The session's side *)

Definition MAX_PEER_CERT_SIZE : Z := 100000.

(** The [while] loop over the lines of /proc/self/cgroup. *)
Fixpoint cgroup_loop (fuel : nat) (fp : list Z) : option (list Z) :=
  match fuel with
  | O => None
  | S fuel' =>
      match fgets 1024 fp with
      | None => None
      | Some (line, fp) =>
          let buffer := cstr line in
          if prefixb (bs "0::") buffer then Some buffer
          else if prefixb (bs "1:name=systemd:") buffer then Some (bs "0::" ++ drop 15 buffer)
          else cgroup_loop fuel' fp
      end
  end.

(** [fopen] failing is [None]; so is then the result. *)
Definition read_proc_self_cgroup (fp : option (list Z)) : comp unit (option (list Z)) :=
  match fp with
  | None => Ok None
  | Some fp =>
      match cgroup_loop (S (length fp)) fp with
      | None => Fault
      | Some result =>
          _ ← cassert (zlen result >=? 5);
          c ← buf_get result (zlen result - 1);
          _ ← cassert (c =? 10);
          Ok (Some result)
      end
  end.

Definition valid_256_bit_hex_string (str : list Z) : bool :=
  let length := strspn str (bs "0123456789abcdef") in
  (default 0 (str !! length) =? 0) && (Z.of_nat length =? 64).

Inductive pread_answer := PreadErr (e : errno) | PreadSome (n : nat).

(** [do r = pread (...) while (r == -1 && errno == EINTR)]: the number of bytes read. *)
Fixpoint pread_loop (answers : list pread_answer) : option nat :=
  match answers with
  | [] => None
  | PreadErr EINTR :: answers' => pread_loop answers'
  | PreadErr _ :: _ => None
  | PreadSome n :: _ => Some n
  end.

Record session_env := SessionEnv {
  se_opendir : bool;
  se_fstat : bool;
  se_regular : bool;
  se_pread : list pread_answer
}.

(** The contents read, or [None] for the result -1. *)
Definition read_cert_file (env : session_env) (dir : directory) (filename : list Z)
    (contents_size : Z) : option (list Z) :=
  if negb (valid_256_bit_hex_string filename) then None
  else if negb (se_opendir env) then None
  else
    data ← dir !! filename;
    if negb (se_fstat env) then None
    else if negb (se_regular env) then None
    else
      let st_size := zlen data in
      if st_size =? 0 then None
      else if negb (st_size <? contents_size) then None
      else
        r ← pread_loop (se_pread env);
        let contents := take r data in
        if negb (zlen contents =? st_size) then None
        else if negb (zlen (cstr contents) =? st_size) then None
        else Some contents.

Section Session.
(** sssd on the system bus: the object path of the user of a certificate, and the
    name of a user object. *)
Context (find_by_valid_certificate : list Z → option (list Z)).
Context (user_name : list Z → option (list Z)).

Definition sssd_map_certificate (bus : bool) (certificate : list Z) : option (list Z) :=
  if negb bus then None
  else user_obj_path ← find_by_valid_certificate certificate; user_name user_obj_path.

Definition cockpit_session_client_certificate_map_user (env : session_env) (bus : bool)
    (cgroup : option (list Z)) (dir : directory) (filename : list Z)
    : comp unit (option (list Z)) :=
  match read_cert_file env dir filename MAX_PEER_CERT_SIZE with
  | None => Ok None
  | Some cert_pem =>
      my_cgroup ← read_proc_self_cgroup cgroup;
      match my_cgroup with
      | None => Ok None
      | Some my_cgroup =>
          if negb (prefixb my_cgroup cert_pem) then Ok None
          else Ok (sssd_map_certificate bus (drop (length my_cgroup) cert_pem))
      end
  end.
End Session.

(** ** Lemmas *)

Lemma strspn_all s accept :
  Forall (λ c, c ∈ accept ∧ c ≠ 0) s → strspn s accept = length s.
Proof.
  induction 1 as [|c s [Hc H0] _ IH]; [done|]. cbn.
  by rewrite bool_decide_eq_true_2, (proj2 (Z.eqb_neq _ _) H0), IH by done.
Qed.

(** Spanning a whole C string. *)
Lemma strspn_end s accept :
  default 0 (s !! strspn s accept) = 0 →
  length (cstr s) = strspn s accept ∧ Forall (λ c, c ∈ accept) (cstr s).
Proof.
  induction s as [|c s IH]; cbn [strspn cstr]; [done|].
  destruct (bool_decide (c ∈ accept) && negb (c =? 0)) eqn:E; cbn.
  - intros H. to_prop. apply bool_decide_eq_true in H0.
    rewrite (proj2 (Z.eqb_neq _ _) H1). destruct (IH H) as [H2 H3]. split; [cbn; lia|by constructor].
  - intros ->. cbn. done.
Qed.

Lemma hex_of_digits data : Forall is_byte data → Forall (λ c, c ∈ HEX ∧ c ≠ 0) (hex_of data).
Proof.
  assert (Hd : ∀ o, 0 ≤ o < 16 → hexc o ∈ HEX ∧ hexc o ≠ 0).
  { apply (byte_dec (λ o, hexc o ∈ HEX ∧ hexc o ≠ 0) 16). by_decide. }
  induction 1 as [|b data Hb _ IH]; [constructor|]. rewrite hex_of_cons.
  destruct (nibbles b Hb) as (H1 & H2 & _). apply Forall_cons; split; [by apply Hd|]. apply Forall_cons. split; [by apply Hd|done].
Qed.

Lemma hex_encode_bytes data :
  Forall is_byte data → cockpit_hex_encode data (zlen data) = Ok (hex_of data).
Proof.
  intros Hd. unfold cockpit_hex_encode. pose proof (zlen_nonneg data).
  rewrite (proj2 (Z.ltb_ge _ _)) by lia. unfold zlen at 1. rewrite Nat2Z.id.
  by apply (hex_encode_loop_ok [] data).
Qed.

(** The digits of 32 bytes are a file name the session accepts. *)
Lemma hex_of_valid data :
  Forall is_byte data → zlen data = 32 → valid_256_bit_hex_string (hex_of data) = true.
Proof.
  intros Hd Hl. unfold valid_256_bit_hex_string.
  rewrite strspn_all by by apply hex_of_digits. rewrite lookup_ge_None_2 by done.
  pose proof (hex_of_length data) as H. unfold zlen in *. cbn. apply Z.eqb_eq. lia.
Qed.

(** A line: its only newline is the last character. *)
Definition is_line (l : list Z) : Prop := ∃ a, l = a ++ [10] ∧ 10 ∉ a.

Lemma line_prefix a b r : 10 ∉ a → is_line b → prefixb b (a ++ 10 :: r) = true → b = a ++ [10].
Proof.
  intros Ha (b' & -> & Hb) (r' & Hr)%prefixb_spec. rewrite <- app_assoc in Hr. cbn in Hr.
  f_equal. revert b' Hb Hr. induction a as [|x a IH]; intros [|y b'] Hb Hr; [done|..];
    cbn in Hr; injection Hr as Hxy Hr.
  - rewrite not_elem_of_cons in Hb. by destruct Hb.
  - rewrite not_elem_of_cons in Ha. by destruct Ha.
  - rewrite not_elem_of_cons in Ha, Hb. rewrite Hxy. f_equal. apply IH; tauto.
Qed.

(** What [fgets] reads has a newline at most at its end. *)
Lemma fgets_take_line n s l r :
  fgets_take n s = (l, r) → 10 ∉ l ∨ is_line l.
Proof.
  revert s l r. induction n as [|n IH]; intros [|c s] l r; cbn;
    try by (intros [= <- <-]; left; apply not_elem_of_nil).
  destruct (c =? 10) eqn:E; to_prop.
  { intros [= <- <-]. right. exists []. subst c. split; [done|apply not_elem_of_nil]. }
  destruct (fgets_take n s) as [l' r'] eqn:E'. intros [= <- <-].
  destruct (IH _ _ _ E') as [H|(a & -> & H)].
  - left. by rewrite not_elem_of_cons.
  - right. exists (c :: a). by rewrite not_elem_of_cons.
Qed.

Lemma line_sub l p r : 10 ∉ l ∨ is_line l → l = p ++ r → 10 ∉ p ∨ is_line p.
Proof.
  intros [H|(a & -> & H)] Hr.
  - rewrite Hr, not_elem_of_app in H. tauto.
  - destruct r as [|x r _] using rev_ind.
    + rewrite app_nil_r in Hr. subst p. right. by exists a.
    + rewrite app_assoc in Hr. apply app_inj_tail in Hr as [-> _].
      rewrite not_elem_of_app in H. tauto.
Qed.

Lemma line_drop n l : 10 ∉ l ∨ is_line l → 10 ∉ drop n l ∨ is_line (drop n l).
Proof.
  intros [H|(a & -> & H)].
  - left. rewrite list_elem_of_lookup. intros [i Hi]. rewrite lookup_drop in Hi.
    apply H, list_elem_of_lookup. eauto.
  - rewrite drop_app. destruct (n - length a)%nat eqn:E; cbn.
    + right. eexists. split; [done|]. intros Hin. apply H.
      rewrite <- (take_drop n a). apply elem_of_app. by right.
    + left. rewrite drop_nil, app_nil_r, drop_ge by lia. apply not_elem_of_nil.
Qed.

Lemma cgroup_loop_line fuel fp r : cgroup_loop fuel fp = Some r → 10 ∉ r ∨ is_line r.
Proof.
  revert fp. induction fuel as [|fuel IH]; intros fp; [done|]. cbn [cgroup_loop].
  unfold fgets. destruct fp as [|c fp]; [done|].
  destruct (fgets_take _ (c :: fp)) as [l fp'] eqn:E. apply fgets_take_line in E.
  destruct (cstr_prefix l) as [q Hq]. pose proof (line_sub _ _ _ E Hq) as Hl.
  destruct (prefixb (bs "0::") (cstr l)); [by intros [= <-]|].
  destruct (prefixb (bs "1:name=systemd:") (cstr l)); [|apply IH].
  intros Hr. assert (r = bs "0::" ++ drop 15 (cstr l)) as -> by congruence. clear Hr.
  destruct (line_drop 15 _ Hl) as [H|(a & -> & H)].
  - left. rewrite not_elem_of_app. split; [by_decide|done].
  - right. exists (bs "0::" ++ a). split; [by rewrite <- app_assoc|].
    rewrite not_elem_of_app. split; [by_decide|done].
Qed.

Lemma read_cgroup_line fp my : read_proc_self_cgroup fp = Ok (Some my) → is_line my.
Proof.
  unfold read_proc_self_cgroup. destruct fp as [fp|]; [|done].
  destruct (cgroup_loop _ fp) as [r|] eqn:E; [|done]. apply cgroup_loop_line in E.
  intros (_ & _ & H)%comp_bind_Ok. apply comp_bind_Ok in H as (c & Hc & H).
  apply comp_bind_Ok in H as ([] & Ha & [= <-]). destruct E as [E|E]; [|done].
  exfalso. apply E. unfold buf_get in Hc. destruct (decide _); [|done].
  destruct (r !! _) as [x|] eqn:Ex; [|done]. injection Hc as ->.
  destruct (c =? 10) eqn:E10; [|done]. to_prop. subst c.
  by eapply list_elem_of_lookup_2.
Qed.

(** What the calls report when they are given what they can take. *)
Definition good_reads (env : session_env) (size : nat) : Prop :=
  se_opendir env = true ∧ se_fstat env = true ∧ se_regular env = true ∧
  pread_loop (se_pread env) = Some size.

Lemma read_cert_file_ok env dir filename data size :
  valid_256_bit_hex_string filename = true → dir !! filename = Some data →
  good_reads env (length data) → data ≠ [] → zlen data < size → nul_free data →
  read_cert_file env dir filename size = Some data.
Proof.
  intros Hv Hd (H1 & H2 & H3 & H4) Hne Hl Hn. unfold read_cert_file.
  rewrite Hv, H1, Hd. cbn [negb mbind option_bind]. rewrite H2, H3, H4. cbn [negb].
  destruct data as [|x data]; [done|].
  rewrite (proj2 (Z.eqb_neq _ _)), (proj2 (Z.ltb_lt _ _)) by (done || zlen_solve).
  cbn [negb mbind option_bind]. rewrite take_ge by done.
  by rewrite cstr_id, Z.eqb_refl.
Qed.

Section Both.
Context {certificate : Type}.
Context (fingerprint pem_encode : certificate → option (list Z)).
Context (find user_name : list Z → option (list Z)).

(** GnuTLS's answers and the kernel's random numbers are bytes. *)
Definition byte_answers (env : accept_env) (cert : certificate) : Prop :=
  (∀ d, fingerprint cert = Some d → Forall is_byte d) ∧
  (∀ r, ae_random env = Some r → Forall is_byte r).

Lemma accept_inv env cert dir ws name dir' :
  byte_answers env cert →
  client_certificate_accept fingerprint pem_encode env (Some cert) dir
    = (Ok (Some (ws, name)), dir') →
  ∃ digest pem random, fingerprint cert = Some digest ∧ pem_encode cert = Some pem ∧
    Forall is_byte digest ∧ ws = hex_of digest ∧
    Forall is_byte random ∧ zlen random = 32 ∧ name = Some (hex_of random) ∧
    dir !! hex_of random = None ∧ dir' = <[hex_of random := cgroup_header ws ++ pem]> dir.
Proof.
  intros [Hd Hr]. unfold client_certificate_accept. rewrite prog_bind_eq. unfold lift at 1.
  unfold client_certificate_get_wsinstance.
  destruct (fingerprint cert) as [digest|]; [|done]. specialize (Hd _ eq_refl).
  destruct (cassert _); [|done..]. cbn [mbind comp_bind]. rewrite hex_encode_bytes by done.
  destruct (client_certificate_create_tmpfile env); [cbn [negb]|done].
  unfold client_certificate_write_cgroup_header. rewrite prog_bind_eq. unfold lift at 1.
  destruct (cassert _); [|done..]. cbn [mbind comp_bind].
  unfold client_certificate_write_data at 1.
  destruct (ae_write env (cgroup_header _) =? _) eqn:E1; [cbn [negb]|done]. to_prop. rewrite E1.
  unfold client_certificate_write_pem. destruct (pem_encode cert) as [pem|]; [|done].
  unfold client_certificate_write_data. destruct (ae_write env pem =? _) eqn:E2; [cbn [negb]|done].
  to_prop. rewrite E2. unfold zlen at 1 2. rewrite !Nat2Z.id, !take_ge by done. cbn [app].
  unfold client_certificate_link_fd_to_random_name. rewrite !prog_bind_eq. unfold lift at 1.
  unfold client_certificate_random_filename.
  destruct (ae_random env) as [random|]; [|done]. specialize (Hr _ eq_refl).
  destruct (zlen random =? 256 / 8) eqn:E3; [cbn [negb]|done]. to_prop.
  rewrite hex_encode_bytes by done. rewrite prog_bind_eq. unfold linkat.
  destruct (ae_linkat env && bool_decide (dir !! hex_of random = None)) eqn:E4; [|done]. to_prop.
  intros [= <- <- <-]. exists digest, pem, random. apply bool_decide_eq_true in H0. by split_and!.
Qed.

(** The directory gains the file returned, or is left alone. *)
Lemma accept_dir env peer dir r dir' :
  client_certificate_accept fingerprint pem_encode env peer dir = (r, dir') →
  match r with
  | Ok (Some (_, Some name)) => dir !! name = None ∧ ∃ file, dir' = <[name := file]> dir
  | _ => dir' = dir
  end.
Proof.
  unfold client_certificate_accept. destruct peer as [cert|]; [|by intros [= <- <-]].
  rewrite prog_bind_eq. unfold lift at 1.
  destruct (client_certificate_get_wsinstance fingerprint cert); [|by intros [= <- <-]..].
  destruct (negb _); [by intros [= <- <-]|]. rewrite prog_bind_eq. unfold lift at 1.
  destruct (client_certificate_write_cgroup_header env [] _) as [[f []]| |]; cbn [negb];
    [|by intros [= <- <-]..].
  destruct (client_certificate_write_pem pem_encode env f cert) as [f' []]; cbn [negb];
    [|by intros [= <- <-]].
  unfold client_certificate_link_fd_to_random_name. rewrite !prog_bind_eq. unfold lift at 1.
  destruct (client_certificate_random_filename env) as [name| |]; [|by intros [= <- <-]..].
  rewrite prog_bind_eq. unfold linkat. destruct (ae_linkat env && _) eqn:E; [|by intros [= <- <-]].
  to_prop. apply bool_decide_eq_true in H0. intros [= <- <-]. split; [done|by eexists].
Qed.

Lemma header_shape ws : ∃ h, cgroup_header ws = h ++ [10] ∧ (10 ∉ ws → 10 ∉ h) ∧
  (nul_free ws → nul_free h).
Proof.
  eexists (bs _ ++ ws ++ bs ".service"). split; [unfold cgroup_header; by rewrite <- !app_assoc|].
  split; intros H.
  - rewrite !not_elem_of_app. split; [by_decide|split; [done|by_decide]].
  - unfold nul_free. rewrite !Forall_app. split; [by_decide|split; [done|by_decide]].
Qed.

(** C3: a client certificate can be used only by the web service instance it was
    presented to.  When the proxy accepts a certificate it has added one file, under
    a new name; a session that is given that name, and that can read it, maps exactly
    the certificate presented to a user when its own cgroup is the one of the
    instance, and maps nothing in any other cgroup. *)
Theorem certificate_belongs_to_instance env cert dir ws name dir' senv bus cgroup :
  byte_answers env cert →
  client_certificate_accept fingerprint pem_encode env (Some cert) dir
    = (Ok (Some (ws, Some name)), dir') →
  ∃ pem, pem_encode cert = Some pem ∧ dir !! name = None ∧
    dir' = <[name := cgroup_header ws ++ pem]> dir ∧
    (nul_free pem → zlen (cgroup_header ws ++ pem) < MAX_PEER_CERT_SIZE →
     good_reads senv (length (cgroup_header ws ++ pem)) →
     cockpit_session_client_certificate_map_user find user_name senv bus cgroup dir' name
     = (my ← read_proc_self_cgroup cgroup;
        Ok (if decide (my = Some (cgroup_header ws))
            then sssd_map_certificate find user_name bus pem else None))).
Proof.
  intros Hb H. destruct (accept_inv _ _ _ _ _ _ Hb H)
    as (digest & pem & random & _ & Hpem & Hdig & -> & Hran & Hlen & [= ->] & Hnew & ->).
  exists pem. split_and!; [done..|]. intros Hn Hs Hg.
  pose proof (hex_of_digits _ Hdig) as Hhex.
  assert (10 ∉ hex_of digest ∧ nul_free (hex_of digest)) as [Hw1 Hw2].
  { split; [|eapply Forall_impl; [exact Hhex|]; cbn; tauto].
    intros Hin. rewrite Forall_forall in Hhex. destruct (Hhex _ Hin) as [Hc _]. revert Hc. by_decide. }
  destruct (header_shape (hex_of digest)) as (h & Hh & Hh1 & Hh2).
  unfold cockpit_session_client_certificate_map_user.
  rewrite (read_cert_file_ok _ _ _ (cgroup_header (hex_of digest) ++ pem));
    [|by apply hex_of_valid|apply lookup_insert_eq|done| |done|].
  2: { rewrite Hh, <- app_assoc. by destruct h. }
  2: { rewrite Hh, <- app_assoc. unfold nul_free. rewrite !Forall_app.
       split; [by apply Hh2|split; [by_decide|done]]. }
  destruct (read_proc_self_cgroup cgroup) as [[my|]| |] eqn:Ec; cbn [mbind comp_bind];
    [|by rewrite decide_False|done..].
  apply read_cgroup_line in Ec. rewrite Hh, <- app_assoc. cbn [app].
  destruct (decide _) as [[= ->]|Hne].
  - change (h ++ 10 :: pem) with (h ++ [10] ++ pem). rewrite app_assoc, prefixb_app. cbn [negb].
    by rewrite drop_app_length.
  - destruct (prefixb my (h ++ 10 :: pem)) eqn:E; [|done].
    apply line_prefix in E; [|by apply Hh1|done]. by subst my.
Qed.

(** A session's user comes from a file of the certificate directory for its own
    cgroup.  Whatever name the session is given, when it maps to a user then the name
    is 64 hexadecimal digits, so it designates an entry of the directory, and that
    entry holds the line of the session's own cgroup followed by a certificate that
    sssd maps to that user. *)
Theorem session_user_sound senv bus cgroup dir name user :
  cockpit_session_client_certificate_map_user find user_name senv bus cgroup dir name
    = Ok (Some user) →
  zlen (cstr name) = 64 ∧ Forall (λ c, c ∈ HEX) (cstr name) ∧
  ∃ my pem, dir !! name = Some (my ++ pem) ∧ read_proc_self_cgroup cgroup = Ok (Some my) ∧
    bus = true ∧ (path ← find pem; user_name path) = Some user.
Proof.
  unfold cockpit_session_client_certificate_map_user.
  destruct (read_cert_file senv dir name MAX_PEER_CERT_SIZE) as [data|] eqn:E; [|done].
  intros H. apply comp_bind_Ok in H as ([my|] & Hmy & H); [|done].
  destruct (prefixb my data) eqn:Ep; [|done]. apply prefixb_spec in Ep as [pem ->].
  cbn [negb] in H. rewrite drop_app_length in H. unfold sssd_map_certificate in H.
  destruct bus; [|done]. injection H as H. unfold read_cert_file in E.
  destruct (valid_256_bit_hex_string name) eqn:Ev; [|done].
  destruct (negb (se_opendir senv)); [done|].
  destruct (dir !! name) as [file|] eqn:Ef; [cbn [mbind option_bind] in E|done].
  destruct (negb (se_fstat senv)); [done|]. destruct (negb (se_regular senv)); [done|].
  destruct (zlen file =? 0); [done|]. destruct (negb (zlen file <? _)); [done|].
  destruct (pread_loop _) as [r|]; [cbn [mbind option_bind] in E|done].
  destruct (zlen (take r file) =? zlen file) eqn:El; [cbn [negb] in E|done].
  destruct (zlen (cstr _) =? _); [cbn [negb] in E|done]. injection E as E. to_prop.
  rewrite zlen_take in El. unfold zlen in El. rewrite take_ge in E by lia. subst file.
  unfold valid_256_bit_hex_string in Ev. to_prop.
  destruct (strspn_end name HEX) as [Hl Hh]; [done|]. unfold zlen. rewrite Hl.
  split_and!; [done|done|]. exists my, pem. by split_and!.
Qed.
End Both.

(** Verification leaves the question of trust to sssd and nothing else.  However
    often GnuTLS is interrupted, a peer passes exactly when it shows no certificate, or
    one whose only problems are those of its trust chain (invalid, signer not found,
    signer not an authority): expiry, revocation or a weak algorithm is refused. *)
Theorem verify_accepts_iff inv not_found not_ca n answer rest :
  answer ≠ VInterrupted →
  client_certificate_verify inv not_found not_ca (replicate n VInterrupted ++ answer :: rest)
    = Some VerifySuccess ↔
  answer = VNoCertificate ∨
  ∃ status, answer = VOk status ∧
    ∀ i, 0 ≤ i → Z.testbit status i = true →
         Z.testbit inv i || Z.testbit not_found i || Z.testbit not_ca i = true.
Proof.
  intros Ha. induction n as [|n IH]; [cbn [replicate app]|exact IH].
  destruct answer as [status| | |r]; cbn [client_certificate_verify]; [|done|by split; [left|]|].
  2: { split; [done|]. by intros [?|(? & ? & _)]. }
  destruct (Z.eqb_spec (Z.land status (Z.lnot (Z.lor (Z.lor inv not_found) not_ca))) 0) as [E|E];
    cbn [negb].
  - split; [intros _|done]. right. exists status. split; [done|]. intros i Hi Hb.
    apply (f_equal (λ z, Z.testbit z i)) in E. rewrite Z.bits_0, Z.land_spec, Hb in E.
    rewrite Z.lnot_spec, !Z.lor_spec in E by done. by apply negb_false_iff in E.
  - split; [done|]. intros [?|(s & [= <-] & H)]; [done|]. exfalso. apply E.
    apply Z.bits_inj'. intros i Hi. rewrite Z.bits_0, Z.land_spec, Z.lnot_spec, !Z.lor_spec by done.
    specialize (H i Hi). destruct (Z.testbit status i); [|done]. by rewrite H.
Qed.

Lemma verify_accepts_iff_witness :
  client_certificate_verify 2 64 128 [VInterrupted; VOk 66] = Some VerifySuccess ↔
  VOk 66 = VNoCertificate ∨
  ∃ status, VOk 66 = VOk status ∧
    ∀ i, 0 ≤ i → Z.testbit status i = true → Z.testbit 2 i || Z.testbit 64 i || Z.testbit 128 i = true.
Proof. apply (verify_accepts_iff 2 64 128 1 (VOk 66) []). done. Defined.

(** A concrete certificate, its PEM text and the calls around it. *)
Definition ex_fingerprint (cert : list Z) : option (list Z) := Some (replicate 32 171).
Definition ex_pem (cert : list Z) : option (list Z) := Some (bs "PEM").
Definition ex_accept_env : accept_env :=
  AcceptEnv true (λ data, zlen data) (Some (replicate 32 7)) true.
Definition ex_name : list Z := hex_of (replicate 32 7).
Definition ex_instance : list Z := hex_of (replicate 32 171).
Definition ex_dir : directory := {[ ex_name := cgroup_header ex_instance ++ bs "PEM" ]}.
Definition ex_session_env : session_env :=
  SessionEnv true true true
    [PreadErr EINTR; PreadSome (length (cgroup_header ex_instance ++ bs "PEM"))].

Lemma certificate_belongs_to_instance_witness :
  ∃ pem, ex_pem [1] = Some pem ∧ (∅ : directory) !! ex_name = None ∧
    ex_dir = <[ex_name := cgroup_header ex_instance ++ pem]> ∅ ∧
    (nul_free pem → zlen (cgroup_header ex_instance ++ pem) < MAX_PEER_CERT_SIZE →
     good_reads ex_session_env (length (cgroup_header ex_instance ++ pem)) →
     cockpit_session_client_certificate_map_user Some Some ex_session_env true
       (Some (cgroup_header ex_instance)) ex_dir ex_name
     = (my ← read_proc_self_cgroup (Some (cgroup_header ex_instance));
        Ok (if decide (my = Some (cgroup_header ex_instance))
            then sssd_map_certificate Some Some true pem else None))).
Proof.
  apply (certificate_belongs_to_instance ex_fingerprint ex_pem Some Some ex_accept_env [1] ∅).
  - split; intros ? [= <-]; by_decide.
  - vm_compute. reflexivity.
Defined.

Lemma session_user_sound_witness :
  zlen (cstr ex_name) = 64 ∧ Forall (λ c, c ∈ HEX) (cstr ex_name) ∧
  ∃ my pem, ex_dir !! ex_name = Some (my ++ pem) ∧
    read_proc_self_cgroup (Some (cgroup_header ex_instance)) = Ok (Some my) ∧
    true = true ∧ (path ← Some pem; Some path) = Some (bs "PEM").
Proof.
  apply (session_user_sound Some Some ex_session_env true (Some (cgroup_header ex_instance))
           ex_dir ex_name (bs "PEM")).
  vm_compute. reflexivity.
Defined.
