(* ===== verification/TlsConnection.v ===== *)
(** * A connection of the TLS proxy: [src/tls/connection.c], from line 381

    A thread serves one client: it decides from the first byte whether the client speaks
    TLS, writes the metadata of the connection, connects to the web service instance (or
    to the redirector) and then moves bytes both ways through the ring buffers of
    [TlsBuffer] until both directions are closed.  What the kernel, GnuTLS and systemd
    answer is an environment record per step.  The theorems show that the loop never
    fails an assertion and relays both streams without loss, duplication or reordering
    up to a peer's failure, that an unencrypted client can only reach the redirector when
    encryption is required, and that a TLS client reaches the instance of its own
    certificate only. *)

From S2P Require Import Prelude Hex TlsBuffer SocketIo JsonPrint ClientCertificate.

(** ** Parameters and the connection *)

(** The certificate is reduced to whether one was loaded. *)
Record Parameters := mkParameters {
  certificate_loaded : bool;
  require_https : bool;
  wsinstance_sockdir : Z;
  cert_session_dir : Z
}.

(** The other end of [ws_fd]. *)
Inductive ws_end :=
| WsUnconnected
| WsRedirect                 (** [http_redirect_connect] *)
| WsSocket (path : list Z).  (** the address of the last [connect] that succeeded *)

#[export] Instance ws_end_eq : EqDecision ws_end.
Proof. solve_decision. Defined.

Record Connection := mkConnection {
  ws_fd : option ws_end;
  tls : bool;
  client_to_ws_buffer : Buffer;
  ws_to_client_buffer : Buffer;
  client_cert_filename : option (list Z);
  wsinstance : option (list Z);
  metadata_fd : option Z;
  metadata : option memfd      (** what [metadata_fd] refers to, once it is created *)
}.

Definition connection_init : Connection :=
  mkConnection None false buffer_init buffer_init None None None None.

Definition set_ws (self : Connection) (w : option ws_end) : Connection :=
  mkConnection w (tls self) (client_to_ws_buffer self) (ws_to_client_buffer self)
    (client_cert_filename self) (wsinstance self) (metadata_fd self) (metadata self).

Definition set_tls (self : Connection) (cert ws : option (list Z)) : Connection :=
  mkConnection (ws_fd self) true (client_to_ws_buffer self) (ws_to_client_buffer self)
    cert ws (metadata_fd self) (metadata self).

Definition set_metadata (self : Connection) (fd : option Z) (m : option memfd) : Connection :=
  mkConnection (ws_fd self) (tls self) (client_to_ws_buffer self) (ws_to_client_buffer self)
    (client_cert_filename self) (wsinstance self) fd m.

Definition set_buffers (self : Connection) (c w : Buffer) (fd : option Z) : Connection :=
  mkConnection (ws_fd self) (tls self) c w
    (client_cert_filename self) (wsinstance self) fd (metadata self).

(** ** Connecting to the web service *)

Record request_env := RequestEnv {
  rq_socket : bool;
  rq_connect : list Z → comp errno unit;
  rq_send : list tick;
  rq_shutdown : bool;
  rq_recv : list tick
}.

Definition request_dynamic_wsinstance (params : Parameters) (env : request_env)
    (fingerprint : list Z) : comp unit bool :=
  if negb (rq_socket env) then Ok false
  else
    match af_unix_connectat (rq_connect env) (wsinstance_sockdir params)
            (bs "https-factory.sock") with
    | Ok _ =>
        '(_, sent) ← send_all (rq_send env) fingerprint (5 * 1000000) (rq_shutdown env);
        if negb sent then Ok false
        else
          reply ← recv_alnum (rq_recv env) 20 (30 * 1000000);
          Ok (bool_decide (reply = Some (bs "done")))
    | _ => Ok false
    end.

Record connect_env := ConnectEnv {
  ce_redirect : bool;                      (** [http_redirect_connect] *)
  ce_socket : bool;
  ce_connect1 : list Z → comp errno unit;  (** the first attempt *)
  ce_request : request_env;
  ce_connect2 : list Z → comp errno unit
}.

(** An attempt to connect [self->ws_fd]. *)
Definition try_connect (params : Parameters) (connect : list Z → comp errno unit)
    (self : Connection) (name : list Z) : Connection * bool :=
  match af_unix_connectat connect (wsinstance_sockdir params) name with
  | Ok _ => match af_unix_fill_sockaddr_at (wsinstance_sockdir params) name with
            | Some path => (set_ws self (Some (WsSocket path)), true)
            | None => (self, false)
            end
  | _ => (self, false)
  end.

Definition https_sockname (wsinstance : list Z) : list Z :=
  bs "https@" ++ wsinstance ++ bs ".sock".

Definition connection_connect_to_dynamic_wsinstance (params : Parameters) (env : connect_env)
    (self : Connection) : comp unit (Connection * bool) :=
  _ ← cassert (tls self);
  let instance := default (bs "(null)") (wsinstance self) in
  let sockname := https_sockname instance in
  _ ← cassert ((0 <? zlen sockname) && (zlen sockname <? 80));
  let '(self, ok) := try_connect params (ce_connect1 env) self sockname in
  if ok : bool then Ok (self, true)
  else
    requested ← request_dynamic_wsinstance params (ce_request env) instance;
    if negb requested then Ok (self, false)
    else Ok (try_connect params (ce_connect2 env) self sockname).

(** Addresses, as the kernel reports them: bytes in network order. *)
Inductive sockaddr :=
| AF_UNIX
| AF_INET (addr port : list Z)
| AF_INET6 (addr port : list Z) (scope_id : Z)
| AF_OTHER.

Definition connection_is_to_localhost (sockname : option sockaddr) : bool :=
  match sockname with
  | None => false
  | Some AF_UNIX => true
  | Some (AF_INET addr _) => bool_decide (addr = [127; 0; 0; 1])
  | Some (AF_INET6 addr _ _) =>
      bool_decide (addr = replicate 15 0 ++ [1]) ||
      bool_decide (addr = replicate 10 0 ++ [255; 255; 127; 0; 0; 1])
  | Some AF_OTHER => false
  end.

Definition connection_connect_to_wsinstance (params : Parameters) (env : connect_env)
    (sockname : option sockaddr) (self : Connection) : comp unit (Connection * bool) :=
  if negb (tls self) && require_https params && negb (connection_is_to_localhost sockname) then
    if ce_redirect env then Ok (set_ws self (Some WsRedirect), true) else Ok (self, false)
  else if negb (ce_socket env) then Ok (self, false)
  else
    let self := set_ws self (Some WsUnconnected) in
    if negb (tls self) then Ok (try_connect params (ce_connect1 env) self (bs "http.sock"))
    else connection_connect_to_dynamic_wsinstance params env self.

(** ** The handshake *)

Inductive peek_result := PeekErr | PeekEof | PeekByte (b : Z).

Inductive handshake_answer := HsSuccess | HsInterrupted | HsError.

Record handshake_env := HandshakeEnv {
  he_poll : list poll_result;
  he_peek : peek_result;
  he_init : bool;             (** [gnutls_init] *)
  he_priority : bool;
  he_credentials : bool;
  he_handshake : list handshake_answer;
  he_accept : accept_env
}.

(** [do ret = poll () while (ret == -1 && errno == EINTR)] *)
Fixpoint handshake_poll (answers : list poll_result) : poll_result :=
  match answers with
  | [] => PollTimeout
  | PollErr EINTR :: answers' => handshake_poll answers'
  | r :: _ => r
  end.

Fixpoint gnutls_handshake_loop (answers : list handshake_answer) : bool :=
  match answers with
  | HsInterrupted :: answers' => gnutls_handshake_loop answers'
  | HsSuccess :: _ => true
  | _ => false
  end.

Section Handshake.
Context {certificate : Type}.
Context (fingerprint pem_encode : certificate → option (list Z)).

(** [peer] is the certificate the client presents; [Err] is an exit. *)
Definition connection_handshake (params : Parameters) (env : handshake_env)
    (peer : option certificate) (self : Connection)
    : prog directory unit (Connection * bool) :=
  _ ← lift (cassert (bool_decide (ws_fd self = None)));
  match handshake_poll (he_poll env) with
  | PollErr _ => lift (Err tt)
  | PollTimeout => mret (self, false)
  | PollReady =>
      match he_peek env with
      | PeekErr | PeekEof => mret (self, false)
      | PeekByte b =>
          if b =? 22 then
            if negb (certificate_loaded params) then mret (self, false)
            else if negb (he_init env) then mret (self, false)
            else
              let self := set_tls self (client_cert_filename self) (wsinstance self) in
              if negb (he_priority env) then mret (self, false)
              else if negb (he_credentials env) then mret (self, false)
              else if negb (gnutls_handshake_loop (he_handshake env)) then mret (self, false)
              else
                accepted ← client_certificate_accept fingerprint pem_encode
                             (he_accept env) peer;
                mret (match accepted with
                      | None => (self, false)
                      | Some (ws, filename) => (set_tls self filename (Some ws), true)
                      end)
          else mret (self, true)
      end
  end.
End Handshake.

(** ** Metadata *)

Record metadata_env := MetadataEnv {
  me_peername : option sockaddr;
  me_ntop4 : list Z → list Z;             (** [inet_ntop] *)
  me_ntop6 : list Z → list Z;
  me_indextoname : Z → option (list Z);   (** [if_indextoname] *)
  me_room : nat;                          (** space for the memfd *)
  me_fd : Z
}.

Definition INET6_ADDRSTRLEN : Z := 46.
Definition IF_NAMESIZE : Z := 16.

(** An [in_port_t] read as a number on a little-endian machine. *)
Definition raw_port (port : list Z) : Z :=
  match port with [hi; lo] => hi + 256 * lo | _ => 0 end.

(** The address text and the port, or [None] for an unknown family. *)
Definition metadata_origin (env : metadata_env) (addr : sockaddr)
    : comp unit (option (list Z * Z)) :=
  let sizeof_ip := INET6_ADDRSTRLEN + 1 + IF_NAMESIZE + 1 in
  match addr with
  | AF_INET a port => Ok (Some (me_ntop4 env a, raw_port port))
  | AF_INET6 a port scope =>
      let ip := me_ntop6 env a in
      if scope =? 0 then Ok (Some (ip, raw_port port))
      else
        let iplen := zlen ip + 1 in
        _ ← cassert (IF_NAMESIZE <? sizeof_ip - iplen);
        match me_indextoname env scope with
        | Some name => Ok (Some (ip ++ bs "%" ++ name, raw_port port))
        | None =>
            let index := render_u32 scope in
            _ ← cassert (zlen index <? IF_NAMESIZE);
            Ok (Some (ip ++ bs "%" ++ index, raw_port port))
        end
  | AF_UNIX => Ok (Some ([], 0))
  | AF_OTHER => Ok None
  end.

(** The results of the three printers are ignored. *)
Definition ignore_result (p : prog FILE unit bool) (f : FILE) : comp unit FILE :=
  match p f with
  | (Ok _, f) => Ok f
  | (Err e, _) => Err e
  | (Fault, _) => Fault
  end.

Definition connection_create_metadata (env : metadata_env) (self : Connection)
    : comp unit (Connection * bool) :=
  match me_peername env with
  | None => Ok (self, false)
  | Some addr =>
      origin ← metadata_origin env addr;
      match origin with
      | None => Ok (self, false)
      | Some (ip, port) =>
          '(m, f) ← cockpit_json_print_open_memfd (λ _, None) (me_room env)
                      (bs "cockpit-tls metadata") 1;
          f ← ignore_result (cockpit_json_print_string_property (bs "origin-ip") (ip ++ [0]) (-1)) f;
          f ← ignore_result (cockpit_json_print_integer_property (bs "origin-port") port) f;
          f ← match client_cert_filename self with
              | Some filename =>
                  ignore_result (cockpit_json_print_string_property (bs "client-certificate")
                                   (filename ++ [0]) (-1)) f
              | None => Ok f
              end;
          m ← cockpit_json_print_finish_memfd true true true m f;
          Ok (set_metadata self (Some (me_fd env)) (Some m), true)
      end
  end.

(** ** The loop *)

(** An answer of [poll]: the events of the two descriptors, or an error. *)
Inductive poll_answer := Polled (client ws : Z) | PollFailed (e : errno).

Record turn := Turn {
  tn_pending : Z;                (** [gnutls_record_check_pending] *)
  tn_poll : list poll_answer;
  tn_client_in : io_recv;
  tn_client_out : io_send;
  tn_ws_in : io_recv;
  tn_ws_out : io_send
}.

(** The events polled for, and whether [poll] may block. *)
Record poll_request := PollRequest { pr_client : Z; pr_ws : Z; pr_block : bool }.

(** What a turn did to the outside: the calls made, in order. *)
Inductive action :=
| ReadClient (t : took)
| WriteClient (w : wrote)
| ReadWs (t : took)
| WriteWs (w : wrote).

(** POLLERR, POLLHUP and POLLNVAL, which are reported unasked. *)
Definition POLL_ALWAYS : Z := 8 + 16 + 32.

(** The [revents] of a descriptor: nothing for the descriptor -1 that stands for no
    events, otherwise events that were asked for or that are always reported. *)
Definition poll_revents (events raw : Z) : Z :=
  if events =? 0 then 0 else Z.land raw (Z.lor events POLL_ALWAYS).

(** The [do ... while (n_ready == -1 && errno == EINTR)] loop: the revents. *)
Fixpoint poll_turn (answers : list poll_answer) (client_events ws_events : Z)
    (client_revents ws_revents : Z) : poll_answer :=
  match answers with
  | [] => Polled client_revents ws_revents
  | PollFailed EINTR :: answers' =>
      poll_turn answers' client_events ws_events client_revents ws_revents
  | PollFailed e :: _ => PollFailed e
  | Polled c w :: _ => Polled (Z.lor client_revents (poll_revents client_events c))
                              (Z.lor ws_revents (poll_revents ws_events w))
  end.

Definition client_events (self : Connection) : Z :=
  calculate_events (client_to_ws_buffer self) (ws_to_client_buffer self).
Definition ws_events (self : Connection) : Z :=
  calculate_events (ws_to_client_buffer self) (client_to_ws_buffer self).

(** [client_revents] before polling; the product is stored in a [short]. *)
Definition client_revents_before (self : Connection) (t : turn) : Z :=
  let r := calculate_revents (client_to_ws_buffer self) (ws_to_client_buffer self) in
  if tls self && buffer_can_read (client_to_ws_buffer self)
  then u16 (Z.lor r (POLLIN * tn_pending t)) else r.

Definition ws_revents_before (self : Connection) : Z :=
  calculate_revents (ws_to_client_buffer self) (client_to_ws_buffer self).

Definition loop_request (self : Connection) (t : turn) : poll_request :=
  PollRequest (client_events self) (ws_events self)
    (Z.lor (client_revents_before self t) (ws_revents_before self) =? 0).

Definition has_bit (revents bit : Z) : bool := negb (Z.land revents bit =? 0).

(** The four transfers of a turn. *)
Definition client_read (self : Connection) (t : turn) (revents : Z)
    : comp unit (Connection * list action) :=
  if has_bit revents POLLIN then
    '(b, s) ← (if tls self then buffer_read_from_tls else buffer_read_from_fd)
                (client_to_ws_buffer self) (tn_client_in t);
    Ok (set_buffers self b (ws_to_client_buffer self) (metadata_fd self), [ReadClient s])
  else Ok (self, []).

Definition client_write (self : Connection) (t : turn) (revents : Z)
    : comp unit (Connection * list action) :=
  if has_bit revents POLLOUT then
    '(b, w) ← (if tls self then buffer_write_to_tls (ws_to_client_buffer self) (tn_client_out t)
               else '(b, w, _) ← buffer_write_to_fd (ws_to_client_buffer self) None
                                   (tn_client_out t); Ok (b, w));
    Ok (set_buffers self (client_to_ws_buffer self) b (metadata_fd self), [WriteClient w])
  else Ok (self, []).

Definition ws_read (self : Connection) (t : turn) (revents : Z)
    : comp unit (Connection * list action) :=
  if has_bit revents POLLIN then
    '(b, s) ← buffer_read_from_fd (ws_to_client_buffer self) (tn_ws_in t);
    Ok (set_buffers self (client_to_ws_buffer self) b (metadata_fd self), [ReadWs s])
  else Ok (self, []).

Definition ws_write (self : Connection) (t : turn) (revents : Z)
    : comp unit (Connection * list action) :=
  if has_bit revents POLLOUT then
    '(b, w, fd) ← buffer_write_to_fd (client_to_ws_buffer self) (metadata_fd self) (tn_ws_out t);
    Ok (set_buffers self b (ws_to_client_buffer self) fd, [WriteWs w])
  else Ok (self, []).

Inductive loop_error := LoopReturn | LoopExit.

Definition lift_fault {A} (m : comp unit A) : comp loop_error A :=
  match m with Ok a => Ok a | Err _ => Fault | Fault => Fault end.

(** One turn of the body of the loop. *)
Definition loop_turn (self : Connection) (t : turn)
    : comp loop_error (Connection * list action) :=
  match poll_turn (tn_poll t) (client_events self) (ws_events self)
          (client_revents_before self t) (ws_revents_before self) with
  | PollFailed EINVAL => Err LoopReturn
  | PollFailed _ => Err LoopExit
  | Polled client_revents ws_revents =>
      lift_fault (
        '(self, a1) ← client_read self t client_revents;
        '(self, a2) ← client_write self t client_revents;
        '(self, a3) ← ws_read self t ws_revents;
        '(self, a4) ← ws_write self t ws_revents;
        Ok (self, a1 ++ a2 ++ a3 ++ a4))
  end.

Definition loop_alive (self : Connection) : bool :=
  buffer_alive (client_to_ws_buffer self) || buffer_alive (ws_to_client_buffer self).

(** The loop over the turns the environment plays; when they run out the loop is
    observed where it stands. *)
Fixpoint connection_thread_loop (self : Connection) (turns : list turn)
    : comp unit (Connection * list action) :=
  if negb (loop_alive self) then Ok (self, [])
  else
    match turns with
    | [] => Ok (self, [])
    | t :: turns' =>
        match loop_turn self t with
        | Ok (self, a) => '(self, b) ← connection_thread_loop self turns'; Ok (self, a ++ b)
        | Err LoopReturn => Ok (self, [])
        | Err LoopExit => Err tt
        | Fault => Fault
        end
    end.

(** ** The thread *)

Record main_env := MainEnv {
  mn_handshake : handshake_env;
  mn_metadata : metadata_env;
  mn_sockname : option sockaddr;
  mn_connect : connect_env;
  mn_turns : list turn
}.

Section Main.
Context {certificate : Type}.
Context (fingerprint pem_encode : certificate → option (list Z)).

(** The part that may fail or end early: the connection when it is over, and what
    the loop did.  [Err] is an exit of the program. *)
Definition connection_thread_run (params : Parameters) (env : main_env)
    (peer : option certificate) (self : Connection)
    : prog directory unit (Connection * list action) :=
  '(self, ok) ← connection_handshake fingerprint pem_encode params (mn_handshake env) peer self;
  if negb ok then mret (self, [])
  else
    '(self, ok) ← lift (connection_create_metadata (mn_metadata env) self);
    if negb ok then mret (self, [])
    else
      '(self, ok) ← lift (connection_connect_to_wsinstance params (mn_connect env)
                            (mn_sockname env) self);
      if negb ok then mret (self, [])
      else
        lift (connection_thread_loop self (mn_turns env)).

(** The certificate file is removed at the end of the thread. *)
Definition connection_thread_main (params : Parameters) (env : main_env)
    (peer : option certificate) : prog directory unit (Connection * list action) :=
  let self := connection_init in
  _ ← lift (cassert (negb (buffer_can_write (client_to_ws_buffer self))));
  _ ← lift (cassert (negb (buffer_can_write (ws_to_client_buffer self))));
  _ ← lift (cassert (negb (tls self)));
  '(self, a) ← connection_thread_run params env peer self;
  _ ← match client_cert_filename self with
      | Some filename => client_certificate_unlink_and_free filename
      | None => mret tt
      end;
  mret (self, a).
End Main.

(** ** One direction of the relay *)

(** [inp] is what was read so far, [out] what was written, [lost] what was dropped:
    data is dropped only when the stream ends, at most what fits in the buffer, and a
    closed writer has written all. *)
Record flow (b : Buffer) (inp out lost : list Z) : Prop := Flow {
  fl_ok : buffer_ok b;
  fl_data : inp = out ++ contents b ++ lost;
  fl_bound : zlen lost ≤ BUFFER_SIZE;
  fl_lost : lost ≠ [] → eof b = true ∧ contents b = [];
  fl_rd : shut_rd b = true → eof b = true;
  fl_wr : shut_wr b = true → eof b = true ∧ contents b = []
}.

(** Reading is allowed: there is room, or the end of the stream to handle. *)
Definition may_read (b : Buffer) : Prop :=
  shut_rd b = false ∧ (eof b = true ∨ buffer_full b = false).

Lemma flow_init : flow buffer_init [] [] [].
Proof.
  assert (Hc : contents buffer_init = []) by by_decide.
  split; [split_and!; by_decide|by rewrite Hc|by_decide|done|done|done].
Qed.

Lemma contents_bound b : buffer_ok b → zlen (contents b) ≤ BUFFER_SIZE.
Proof. intros Hok. rewrite contents_length. by destruct Hok as (_ & _ & _ & ?). Qed.

Lemma can_read_may_read b : buffer_can_read b = true → may_read b.
Proof. unfold buffer_can_read, may_read. intros. to_prop. tauto. Qed.

Lemma needs_shut_rd_may_read b : buffer_needs_shut_rd b = true → may_read b.
Proof. unfold buffer_needs_shut_rd, may_read. intros. to_prop. tauto. Qed.

Lemma may_read_pre b : may_read b → buffer_needs_shut_rd b = true ∨ buffer_full b = false.
Proof. unfold may_read, buffer_needs_shut_rd. intros [-> [-> | ?]]; [by left|by right]. Qed.

Lemma abs_fields b q :
  abs b = q → contents b = q_data q ∧ eof b = q_eof q ∧ shut_rd b = q_shut_rd q ∧
              shut_wr b = q_shut_wr q.
Proof. by intros <-. Qed.

(** A write moves bytes to the output, or drops them when it fails. *)
Lemma flow_send b b' inp out lost sent r :
  flow b inp out lost → buffer_ok b' → (abs b', sent) = queue_send (abs b) r →
  ∃ lost', flow b' inp (out ++ sent) lost' ∧ (r ≠ None → lost' = lost) ∧
    (may_read b → may_read b').
Proof.
  intros [Hok Hd Hb Hl Hr Hw] Hok'. unfold queue_send. destruct r as [n|]; intros Ha; apply (pair_eq (abs b')) in Ha as [Ha ->];
    apply abs_fields in Ha as (Hc & He & Hsr & Hsw); cbn in Hc, He, Hsr, Hsw.
  - exists lost. split; [split|split; [done|]].
    + done.
    + rewrite Hc, <- app_assoc, (app_assoc (take n _)), take_drop. done.
    + done.
    + intros H. destruct (Hl H) as [H1 H2]. by rewrite He, Hc, H1, H2, drop_nil.
    + rewrite Hsr, He. done.
    + rewrite Hsw, He, Hc. intros H. apply orb_true_iff in H as [H|H].
      * apply andb_prop in H as [H1 H2]. by apply bool_decide_eq_true in H2.
      * destruct (Hw H) as [-> ->]. by rewrite drop_nil.
    + unfold may_read. rewrite Hsr, He. intros [H1 [H2|H2]]; [tauto|]. split; [done|].
      right. unfold buffer_full in *. to_prop. apply Z.eqb_neq. rewrite <- contents_length in *.
      rewrite Hc, zlen_drop. destruct Hok as (_ & _ & _ & Hu). rewrite <- contents_length in Hu.
      pose proof (zlen_nonneg (contents b)). change BUFFER_SIZE with 16384 in *. lia.
  - exists (contents b ++ lost). split; [split|split; [done|]].
    + done.
    + by rewrite Hc, app_nil_r.
    + destruct lost as [|x l]; [rewrite app_nil_r; by apply contents_bound|].
      by destruct (Hl ltac:(done)) as [_ ->].
    + done.
    + by rewrite He.
    + done.
    + unfold may_read. rewrite Hsr, He. intros [H1 _]. tauto.
Qed.

(** A read appends what it took to the input, or ends the stream. *)
Lemma flow_recv b b' inp out lost i d :
  flow b inp out lost → may_read b → buffer_ok b' → abs b' = queue_recv (abs b) i →
  d = (if buffer_needs_shut_rd b then [] else queue_received i) →
  ∃ lost', flow b' (inp ++ d) out lost' ∧ (i ≠ QBroken → lost' = lost).
Proof.
  intros [Hok Hd Hb Hl Hr Hw] [Hsr _] Hok'. unfold queue_recv, buffer_needs_shut_rd.
  cbn [abs q_eof q_shut_rd].
  destruct (eof b) eqn:He; rewrite Hsr; cbn [negb andb]; intros Ha ->.
  { apply abs_fields in Ha as (Hc & He' & Hsr' & Hsw); cbn in Hc, He', Hsr', Hsw.
    exists lost. rewrite app_nil_r. split; [|tauto].
    split; rewrite ?Hc, ?He', ?Hsr', ?Hsw; done. }
  assert (lost = []) as ->.
  { destruct lost as [|x l]; [done|]. by destruct Hl. }
  assert (Hwf : shut_wr b = false).
  { destruct (shut_wr b); [by destruct Hw|done]. }
  destruct i as [d| | |]; apply abs_fields in Ha as (Hc & He' & Hsr' & Hsw);
    cbn in Hc, He', Hsr', Hsw; cbn [queue_received].
  - exists []. split; [|tauto]. split; rewrite ?Hc, ?He', ?Hsr', ?Hsw, ?Hwf, ?Hsr; try done.
    by rewrite Hd, !app_nil_r, app_assoc.
  - exists []. rewrite app_nil_r. split; [|tauto].
    split; rewrite ?Hc, ?He', ?Hsr', ?Hsw, ?Hwf, ?Hsr; done.
  - exists []. rewrite app_nil_r. split; [|tauto].
    split; rewrite ?Hc, ?He', ?Hsr', ?Hsw, ?Hwf, ?Hsr; done.
  - exists (contents b). rewrite app_nil_r. split; [|tauto].
    split; rewrite ?Hc, ?He', ?Hsr', ?Hsw, ?Hwf, ?Hsr; try done; [by rewrite Hd, app_nil_r|].
    by apply contents_bound.
Qed.

(** ** Events *)

Lemma has_bit_in r : has_bit r POLLIN = Z.testbit r 0.
Proof.
  unfold has_bit. change POLLIN with (Z.ones 1). rewrite Z.land_ones by lia.
  change (2 ^ 1) with 2. rewrite <- Z.bit0_mod. by destruct (Z.testbit r 0).
Qed.

Lemma calculate_events_in a b : Z.testbit (calculate_events a b) 0 = buffer_can_read a.
Proof.
  unfold calculate_events. by destruct (buffer_can_read a), (buffer_can_write b).
Qed.

Lemma calculate_revents_in a b : Z.testbit (calculate_revents a b) 0 = buffer_needs_shut_rd a.
Proof.
  unfold calculate_revents. by destruct (buffer_needs_shut_rd a), (buffer_needs_shut_wr b).
Qed.

Lemma poll_revents_in events raw :
  Z.testbit (poll_revents events raw) 0 = true → Z.testbit events 0 = true.
Proof.
  unfold poll_revents. destruct (events =? 0); [done|].
  rewrite Z.land_spec, Z.lor_spec. change (Z.testbit POLL_ALWAYS 0) with false.
  rewrite orb_false_r. intros. by to_prop.
Qed.

Lemma poll_turn_spec answers ce we c w :
  match poll_turn answers ce we c w with
  | Polled c' w' => ∃ rc rw, c' = Z.lor c (poll_revents ce rc) ∧ w' = Z.lor w (poll_revents we rw)
  | PollFailed e => e ≠ EINTR ∧ PollFailed e ∈ answers
  end.
Proof.
  induction answers as [|[rc rw|e] answers IH]; cbn.
  - exists 0, 0. unfold poll_revents. destruct (ce =? 0), (we =? 0); by rewrite ?Z.land_0_l, !Z.lor_0_r.
  - by exists rc, rw.
  - destruct (decide (e = EINTR)) as [-> | He].
    + destruct (poll_turn answers ce we c w); [done|]. rewrite elem_of_cons. tauto.
    + assert (Hf : poll_turn (PollFailed e :: answers) ce we c w = PollFailed e) by by destruct e.
      cbn in Hf. rewrite Hf. rewrite elem_of_cons. tauto.
Qed.

(** Readiness to read implies that reading is allowed. *)
Lemma client_ready self t rc :
  has_bit (Z.lor (client_revents_before self t) (poll_revents (client_events self) rc)) POLLIN
    = true → may_read (client_to_ws_buffer self).
Proof.
  rewrite has_bit_in, Z.lor_spec. intros [H|H]%orb_true_iff.
  - unfold client_revents_before in H. destruct (tls self && _) eqn:E; to_prop.
    + by apply can_read_may_read.
    + rewrite calculate_revents_in in H. by apply needs_shut_rd_may_read.
  - apply poll_revents_in in H. unfold client_events in H. rewrite calculate_events_in in H.
    by apply can_read_may_read.
Qed.

Lemma ws_ready self rw :
  has_bit (Z.lor (ws_revents_before self) (poll_revents (ws_events self) rw)) POLLIN = true →
  may_read (ws_to_client_buffer self).
Proof.
  rewrite has_bit_in, Z.lor_spec. intros [H|H]%orb_true_iff.
  - unfold ws_revents_before in H. rewrite calculate_revents_in in H.
    by apply needs_shut_rd_may_read.
  - apply poll_revents_in in H. unfold ws_events in H. rewrite calculate_events_in in H.
    by apply can_read_may_read.
Qed.

(** ** One turn *)

Definition offered (r : io_recv) : list Z := match r with RecvSome d => d | _ => [] end.

Definition sent_to_client (acts : list action) : list Z :=
  acts ≫= λ a, match a with WriteClient w => w_sent w | _ => [] end.
Definition sent_to_ws (acts : list action) : list Z :=
  acts ≫= λ a, match a with WriteWs w => w_sent w | _ => [] end.

(** What was read from the two sides *)
Definition read_from_client (acts : list action) : list Z :=
  acts ≫= λ a, match a with ReadClient t => r_received t | _ => [] end.
Definition read_from_ws (acts : list action) : list Z :=
  acts ≫= λ a, match a with ReadWs t => r_received t | _ => [] end.

(** The writes to the web service. *)
Definition ws_writes (acts : list action) : list wrote :=
  acts ≫= λ a, match a with WriteWs w => [w] | _ => [] end.

Lemma sent_to_client_app a b : sent_to_client (a ++ b) = sent_to_client a ++ sent_to_client b.
Proof. apply bind_app. Qed.
Lemma sent_to_ws_app a b : sent_to_ws (a ++ b) = sent_to_ws a ++ sent_to_ws b.
Proof. apply bind_app. Qed.
Lemma read_from_client_app a b :
  read_from_client (a ++ b) = read_from_client a ++ read_from_client b.
Proof. apply bind_app. Qed.
Lemma read_from_ws_app a b : read_from_ws (a ++ b) = read_from_ws a ++ read_from_ws b.
Proof. apply bind_app. Qed.
Lemma ws_writes_app a b : ws_writes (a ++ b) = ws_writes a ++ ws_writes b.
Proof. apply bind_app. Qed.

Lemma prefix_of_take n (l : list Z) : take n l `prefix_of` l.
Proof. exists (drop n l). by rewrite take_drop. Qed.

Lemma fd_recv_offered b r : queue_received (fd_recv_input b r) `prefix_of` offered r.
Proof.
  unfold fd_recv_input. destruct r as [x| |]; try done. cbn [offered].
  destruct (take _ x) as [|y l] eqn:E; [apply prefix_nil|]. rewrite <- E. apply prefix_of_take.
Qed.

Lemma tls_recv_offered r i : tls_recv_input r i → queue_received i `prefix_of` offered r.
Proof.
  destruct r as [[|x l]| |]; cbn; try by intros ->. intros [n ->]. apply (prefix_of_take (S n)).
Qed.

Lemma shut_prefix (b : bool) (d o : list Z) : d `prefix_of` o → (if b then [] else d) `prefix_of` o.
Proof. intros H. destruct b; [apply prefix_nil|done]. Qed.

(** GnuTLS ends the stream: the peer closed it, or the session failed. *)
Definition tls_ends (r : io_recv) : Prop := r = RecvError ∨ r = RecvSome [].

Lemma tls_recv_broken r i : tls_recv_input r i → ¬ tls_ends r → i ≠ QBroken.
Proof.
  unfold tls_ends. destruct r as [[|x l]| |]; cbn; [tauto| |by intros ->|tauto].
  by intros [n ->].
Qed.

Lemma fd_recv_broken b r : fd_recv_input b r ≠ QBroken.
Proof. unfold fd_recv_input. destruct r; try done. by destruct (take _ _). Qed.

(** The client side of a turn: a read into one buffer, a write from the other. *)
Lemma client_read_ok self t revents inp out lost :
  flow (client_to_ws_buffer self) inp out lost →
  (has_bit revents POLLIN = true → may_read (client_to_ws_buffer self)) →
  ∃ b acts lost',
    client_read self t revents
      = Ok (set_buffers self b (ws_to_client_buffer self) (metadata_fd self), acts) ∧
    sent_to_client acts = [] ∧ ws_writes acts = [] ∧ read_from_ws acts = [] ∧
    read_from_client acts `prefix_of` offered (tn_client_in t) ∧
    flow b (inp ++ read_from_client acts) out lost' ∧
    ((tls self = true → ¬ tls_ends (tn_client_in t)) → lost' = lost).
Proof.
  intros Hf Hr. unfold client_read. destruct (has_bit revents POLLIN).
  2: { exists (client_to_ws_buffer self), [], lost. cbn. rewrite app_nil_r.
       split_and!; try done; [by destruct self|apply prefix_nil]. }
  specialize (Hr eq_refl). destruct (tls self) eqn:Etls.
  - destruct (read_from_tls_refines _ (tn_client_in t) (fl_ok _ _ _ _ Hf) (may_read_pre _ Hr))
      as (b & s & i & -> & Hok & Hi & Ha & Hs).
    destruct (flow_recv _ _ _ _ _ _ _ Hf Hr Hok Ha Hs) as (lost' & Hf' & Hl).
    exists b, [ReadClient s], lost'. cbn. rewrite app_nil_r. split_and!; try done.
    + rewrite Hs. by apply shut_prefix, tls_recv_offered.
    + intros Hn. apply Hl. eapply tls_recv_broken; [exact Hi|by apply Hn].
  - destruct (read_from_fd_refines _ (tn_client_in t) (fl_ok _ _ _ _ Hf) (may_read_pre _ Hr))
      as (b & s & -> & Hok & Ha & Hs).
    destruct (flow_recv _ _ _ _ _ _ _ Hf Hr Hok Ha Hs) as (lost' & Hf' & Hl).
    exists b, [ReadClient s], lost'. cbn. rewrite app_nil_r. split_and!; try done.
    + rewrite Hs. by apply shut_prefix, fd_recv_offered.
    + intros _. apply Hl, fd_recv_broken.
Qed.

Lemma client_write_ok self t revents inp out lost :
  flow (ws_to_client_buffer self) inp out lost →
  ∃ b acts lost',
    client_write self t revents
      = Ok (set_buffers self (client_to_ws_buffer self) b (metadata_fd self), acts) ∧
    ws_writes acts = [] ∧ read_from_client acts = [] ∧ read_from_ws acts = [] ∧
    flow b inp (out ++ sent_to_client acts) lost' ∧
    (tn_client_out t ≠ SendError → lost' = lost) ∧
    (may_read (ws_to_client_buffer self) → may_read b).
Proof.
  intros Hf. unfold client_write. destruct (has_bit revents POLLOUT).
  2: { exists (ws_to_client_buffer self), [], lost. cbn. rewrite app_nil_r.
       split_and!; try done. by destruct self. }
  destruct (tls self).
  - destruct (write_to_tls_refines _ (tn_client_out t) (fl_ok _ _ _ _ Hf))
      as (b & w & r & -> & Hok & Hq & Hr & _).
    destruct (flow_send _ _ _ _ _ _ _ Hf Hok Hq) as (lost' & Hf' & Hl & Hm).
    exists b, [WriteClient w], lost'. unfold sent_to_client. cbn. rewrite app_nil_r.
    split_and!; try done. intros Hs. apply Hl. intros Hn. apply Hr in Hn. tauto.
  - destruct (write_to_fd_refines _ None (tn_client_out t) (fl_ok _ _ _ _ Hf))
      as (b & w & fd & -> & Hok & Hq).
    destruct (flow_send _ _ _ _ _ _ _ Hf Hok Hq) as (lost' & Hf' & Hl & Hm).
    exists b, [WriteClient w], lost'. unfold sent_to_client. cbn. rewrite app_nil_r.
    split_and!; try done. intros Hs. apply Hl. by destruct (tn_client_out t).
Qed.

Lemma ws_read_ok self t revents inp out lost :
  flow (ws_to_client_buffer self) inp out lost →
  (has_bit revents POLLIN = true → may_read (ws_to_client_buffer self)) →
  ∃ b acts,
    ws_read self t revents
      = Ok (set_buffers self (client_to_ws_buffer self) b (metadata_fd self), acts) ∧
    sent_to_client acts = [] ∧ ws_writes acts = [] ∧ read_from_client acts = [] ∧
    read_from_ws acts `prefix_of` offered (tn_ws_in t) ∧
    flow b (inp ++ read_from_ws acts) out lost.
Proof.
  intros Hf Hr. unfold ws_read. destruct (has_bit revents POLLIN).
  2: { exists (ws_to_client_buffer self), []. cbn. rewrite app_nil_r.
       split_and!; try done; [by destruct self|apply prefix_nil]. }
  specialize (Hr eq_refl).
  destruct (read_from_fd_refines _ (tn_ws_in t) (fl_ok _ _ _ _ Hf) (may_read_pre _ Hr))
    as (b & s & -> & Hok & Ha & Hs).
  destruct (flow_recv _ _ _ _ _ _ _ Hf Hr Hok Ha Hs) as (lost' & Hf' & Hl).
  rewrite (Hl (fd_recv_broken _ _)) in Hf'.
  exists b, [ReadWs s]. cbn. rewrite app_nil_r. split_and!; try done.
  rewrite Hs. by apply shut_prefix, fd_recv_offered.
Qed.

Lemma ws_writes_sent acts : sent_to_ws acts = ws_writes acts ≫= w_sent.
Proof.
  induction acts as [|[| | |] acts IH]; cbn; try exact IH; [done|].
  unfold sent_to_ws, ws_writes in *. cbn. by rewrite IH.
Qed.

(** The write to the web service passes the metadata along with the first data. *)
Definition write_fd (fd : option Z) (w : wrote) (fd' : option Z) : Prop :=
  (w_sent w = [] ∧ w_fd_sent w = None ∧ fd' = fd) ∨ (w_fd_sent w = fd ∧ fd' = None).

Lemma buffer_write_to_fd_fd b fd r b' w fd' :
  buffer_ok b → buffer_write_to_fd b fd r = Ok (b', w, fd') → write_fd fd w fd'.
Proof.
  intros Hok. unfold buffer_write_to_fd.
  destruct (iovecs_send 2 b Hok) as (iov & -> & Htot & _ & _ & Hg); [by right|].
  cbn [mbind comp_bind]. destruct (length iov =? 0)%nat.
  - destruct (write_tail_spec b [] None Hok) as (x & y & -> & _ & H1 & H2 & _).
    cbn. intros [= <- <- <-]. by left.
  - destruct r as [n| |].
    + set (s := Nat.min n (Z.to_nat (iov_total iov))).
      destruct (set_start_spec b s Hok) as [Hok' _]; [lia|].
      destruct (write_tail_spec _ (take s (gather (buffer b) iov)) fd Hok')
        as (x & y & -> & _ & H1 & H2 & _). cbn. intros [= <- <- <-]. by right.
    + destruct (write_tail_spec b [] None Hok) as (x & y & -> & _ & H1 & H2 & _).
      cbn. intros [= <- <- <-]. by left.
    + destruct (epipe_spec b Hok) as [Hok' _].
      destruct (write_tail_spec _ [] None Hok') as (x & y & -> & _ & H1 & H2 & _).
      cbn. intros [= <- <- <-]. by left.
Qed.

Lemma ws_write_ok self t revents inp out lost :
  flow (client_to_ws_buffer self) inp out lost →
  ∃ b fd acts lost',
    ws_write self t revents = Ok (set_buffers self b (ws_to_client_buffer self) fd, acts) ∧
    sent_to_client acts = [] ∧ read_from_client acts = [] ∧ read_from_ws acts = [] ∧
    flow b inp (out ++ sent_to_ws acts) lost' ∧
    (tn_ws_out t ≠ SendError → lost' = lost) ∧
    ((ws_writes acts = [] ∧ fd = metadata_fd self) ∨
     ∃ w, ws_writes acts = [w] ∧ write_fd (metadata_fd self) w fd).
Proof.
  intros Hf. unfold ws_write. destruct (has_bit revents POLLOUT).
  2: { exists (client_to_ws_buffer self), (metadata_fd self), [], lost. cbn. rewrite app_nil_r.
       split_and!; try done; [by destruct self|by left]. }
  destruct (write_to_fd_refines _ (metadata_fd self) (tn_ws_out t) (fl_ok _ _ _ _ Hf))
    as (b & w & fd & Hw & Hok & Hq).
  destruct (flow_send _ _ _ _ _ _ _ Hf Hok Hq) as (lost' & Hf' & Hl & Hm).
  pose proof (buffer_write_to_fd_fd _ _ _ _ _ _ (fl_ok _ _ _ _ Hf) Hw) as Hfd.
  rewrite Hw. exists b, fd, [WriteWs w], lost'. unfold sent_to_ws. cbn. rewrite app_nil_r.
  split_and!; try done; [|by right; exists w]. intros Hs. apply Hl. by destruct (tn_ws_out t).
Qed.

(** Both directions at once. *)
Record relay (self : Connection) (ci co cl wi wo wl : list Z) : Prop := Relay {
  rl_client : flow (client_to_ws_buffer self) ci co cl;
  rl_ws : flow (ws_to_client_buffer self) wi wo wl
}.

(** The connection but for its buffers and metadata descriptor. *)
Definition same_peers (self self' : Connection) : Prop :=
  tls self' = tls self ∧ ws_fd self' = ws_fd self ∧
  client_cert_filename self' = client_cert_filename self ∧
  wsinstance self' = wsinstance self ∧ metadata self' = metadata self.

Definition poll_fails (t : turn) : Prop :=
  ∃ e, PollFailed e ∈ tn_poll t ∧ e ≠ EINTR ∧ e ≠ EINVAL.

Lemma turn_relay self t ci co cl wi wo wl :
  relay self ci co cl wi wo wl →
  match loop_turn self t with
  | Ok (self', acts) => ∃ cl' wl',
      relay self' (ci ++ read_from_client acts) (co ++ sent_to_ws acts) cl'
                  (wi ++ read_from_ws acts) (wo ++ sent_to_client acts) wl' ∧
      read_from_client acts `prefix_of` offered (tn_client_in t) ∧
      read_from_ws acts `prefix_of` offered (tn_ws_in t) ∧
      (tn_ws_out t ≠ SendError ∧ (tls self = true → ¬ tls_ends (tn_client_in t)) → cl' = cl) ∧
      (tn_client_out t ≠ SendError → wl' = wl) ∧ same_peers self self' ∧
      ((ws_writes acts = [] ∧ metadata_fd self' = metadata_fd self) ∨
       ∃ w, ws_writes acts = [w] ∧ write_fd (metadata_fd self) w (metadata_fd self'))
  | Err LoopReturn => True
  | Err LoopExit => poll_fails t
  | Fault => False
  end.
Proof.
  intros [Hc Hw]. unfold loop_turn.
  pose proof (poll_turn_spec (tn_poll t) (client_events self) (ws_events self)
                (client_revents_before self t) (ws_revents_before self)) as Hp.
  destruct (poll_turn _ _ _ _ _) as [cr wr|e].
  2: { destruct Hp as [He Hin]. destruct e; try done; by eexists. }
  destruct Hp as (rc & rw & -> & ->).
  destruct (client_read_ok self t _ _ _ _ Hc (client_ready self t rc))
    as (b1 & a1 & cl1 & -> & Ha1 & Hb1 & Hc1 & Hdc & Hf1 & Hl1).
  cbn [lift_fault mbind comp_bind]. set (self1 := set_buffers self b1 _ _).
  assert (Hw1 : flow (ws_to_client_buffer self1) wi wo wl) by exact Hw.
  destruct (client_write_ok self1 t (Z.lor (client_revents_before self t)
             (poll_revents (client_events self) rc)) _ _ _ Hw1)
    as (b2 & a2 & wl2 & -> & Hb2 & Hc2 & Hd2 & Hf2 & Hl2 & Hm2).
  cbn [lift_fault mbind comp_bind]. set (self2 := set_buffers self1 _ b2 _).
  destruct (ws_read_ok self2 t (Z.lor (ws_revents_before self) (poll_revents (ws_events self) rw))
              wi (wo ++ sent_to_client a2) wl2 Hf2)
    as (b3 & a3 & -> & Ha3 & Hb3 & Hc3 & Hdw & Hf3).
  { intros Hr. apply Hm2. exact (ws_ready self rw Hr). }
  cbn [lift_fault mbind comp_bind]. set (self3 := set_buffers self2 _ b3 _).
  destruct (ws_write_ok self3 t (Z.lor (ws_revents_before self) (poll_revents (ws_events self) rw))
              (ci ++ read_from_client a1) co cl1 Hf1)
    as (b4 & fd & a4 & cl4 & -> & Ha4 & Hc4 & Hd4 & Hf4 & Hl4 & Hfd).
  cbn [lift_fault mbind comp_bind]. exists cl4, wl2.
  assert (Hwr : ws_writes (a1 ++ a2 ++ a3 ++ a4) = ws_writes a4).
  { by rewrite !ws_writes_app, Hb1, Hb2, Hb3. }
  assert (Hsw : sent_to_ws (a1 ++ a2 ++ a3 ++ a4) = sent_to_ws a4).
  { by rewrite !ws_writes_sent, Hwr. }
  assert (Hsc : sent_to_client (a1 ++ a2 ++ a3 ++ a4) = sent_to_client a2).
  { by rewrite !sent_to_client_app, Ha1, Ha3, Ha4, !app_nil_r. }
  assert (Hrc : read_from_client (a1 ++ a2 ++ a3 ++ a4) = read_from_client a1).
  { by rewrite !read_from_client_app, Hc2, Hc3, Hc4, !app_nil_r. }
  assert (Hrw : read_from_ws (a1 ++ a2 ++ a3 ++ a4) = read_from_ws a3).
  { by rewrite !read_from_ws_app, Hc1, Hd2, Hd4, app_nil_r. }
  rewrite Hwr, Hsw, Hsc, Hrc, Hrw.
  split_and!; [split; [exact Hf4|exact Hf3]|exact Hdc|exact Hdw| |exact Hl2|done|exact Hfd].
  intros [Hs Ht]. rewrite (Hl4 Hs). by apply Hl1.
Qed.

(** What was accepted of what a peer offered, turn by turn. *)
Definition accepted (offers : list (list Z)) (inp : list Z) : Prop :=
  ∃ ds, inp = concat ds ∧ (length ds ≤ length offers)%nat ∧
    ∀ i d o, ds !! i = Some d → offers !! i = Some o → d `prefix_of` o.

Lemma accepted_nil offers : accepted offers [].
Proof. exists []. split_and!; [done|cbn; lia|]. intros i d o Hd. by rewrite lookup_nil in Hd. Qed.

Lemma accepted_cons o offers d inp :
  d `prefix_of` o → accepted offers inp → accepted (o :: offers) (d ++ inp).
Proof.
  intros Hd (ds & -> & Hl & H). exists (d :: ds). split_and!; [done|cbn; lia|].
  intros [|i] x y; cbn; [by intros [= <-] [= <-]|apply H].
Qed.

(** The metadata goes with the first data, and nothing goes before it. *)
Definition metadata_first (fd : option Z) (ws : list wrote) (fd' : option Z) : Prop :=
  (Forall (λ w, w_sent w = [] ∧ w_fd_sent w = None) ws ∧ fd' = fd) ∨
  (∃ pre w post, ws = pre ++ w :: post ∧ Forall (λ w, w_sent w = [] ∧ w_fd_sent w = None) pre ∧
     w_fd_sent w = fd ∧ Forall (λ w, w_fd_sent w = None) post ∧ fd' = None).

Lemma metadata_first_none ws fd' : metadata_first None ws fd' → Forall (λ w, w_fd_sent w = None) ws.
Proof.
  intros [[H _]|(pre & w & post & -> & Hp & Hw & Hq & _)].
  - eapply Forall_impl; [exact H|]. cbn. tauto.
  - apply Forall_app. split; [eapply Forall_impl; [exact Hp|]; cbn; tauto|]. by constructor.
Qed.

Lemma metadata_first_none_fd ws fd' : metadata_first None ws fd' → fd' = None.
Proof. intros [[_ H]|(pre & w & post & _ & _ & _ & _ & H)]; done. Qed.

Lemma metadata_first_cons fd w fd1 ws fd' :
  write_fd fd w fd1 → metadata_first fd1 ws fd' → metadata_first fd (w :: ws) fd'.
Proof.
  intros [(H1 & H2 & ->)|[H1 ->]] Hr.
  - destruct Hr as [[Ha ->]|(pre & x & post & -> & Hp & Hx)].
    + left. by split; [constructor|].
    + right. exists (w :: pre), x, post. by split; [|split; [constructor|]].
  - right. exists [], w, ws. split_and!; [done|constructor|done|by eapply metadata_first_none|].
    by eapply metadata_first_none_fd.
Qed.

(** The turn drops nothing that came from the client: the web service accepts what is
    written, and if the client is encrypted its stream does not end. *)
Definition client_side_kept (is_tls : bool) (t : turn) : Prop :=
  tn_ws_out t ≠ SendError ∧ (is_tls = true → ¬ tls_ends (tn_client_in t)).

Lemma loop_relay turns self ci co cl wi wo wl :
  relay self ci co cl wi wo wl →
  match connection_thread_loop self turns with
  | Ok (self', acts) => ∃ cl' wl',
      relay self' (ci ++ read_from_client acts) (co ++ sent_to_ws acts) cl'
                  (wi ++ read_from_ws acts) (wo ++ sent_to_client acts) wl' ∧
      accepted ((λ t, offered (tn_client_in t)) <$> turns) (read_from_client acts) ∧
      accepted ((λ t, offered (tn_ws_in t)) <$> turns) (read_from_ws acts) ∧
      (Forall (client_side_kept (tls self)) turns → cl' = cl) ∧
      (Forall (λ t, tn_client_out t ≠ SendError) turns → wl' = wl) ∧
      same_peers self self' ∧ metadata_first (metadata_fd self) (ws_writes acts) (metadata_fd self')
  | Err _ => Exists poll_fails turns
  | Fault => False
  end.
Proof.
  assert (Hnil : ∀ s c1 c2 c3 w1 w2 w3 ts, relay s c1 c2 c3 w1 w2 w3 → ∃ cl' wl',
    relay s (c1 ++ read_from_client []) (c2 ++ sent_to_ws []) cl'
            (w1 ++ read_from_ws []) (w2 ++ sent_to_client []) wl' ∧
    accepted ((λ t, offered (tn_client_in t)) <$> ts) (read_from_client []) ∧
    accepted ((λ t, offered (tn_ws_in t)) <$> ts) (read_from_ws []) ∧
    (Forall (client_side_kept (tls s)) ts → cl' = c3) ∧
    (Forall (λ t, tn_client_out t ≠ SendError) ts → wl' = w3) ∧
    same_peers s s ∧ metadata_first (metadata_fd s) (ws_writes []) (metadata_fd s)).
  { intros. exists c3, w3. cbn. rewrite !app_nil_r.
    split_and!; try done; try apply accepted_nil. by left. }
  revert self ci co cl wi wo wl.
  induction turns as [|t turns IH]; intros self ci co cl wi wo wl Hr; cbn [connection_thread_loop];
    destruct (loop_alive self); cbn [negb]; try by apply Hnil.
  pose proof (turn_relay self t _ _ _ _ _ _ Hr) as Ht.
  destruct (loop_turn self t) as [[self1 a]|[]|]; [|by apply Hnil|by left|done].
  destruct Ht as (cl1 & wl1 & Hr1 & Hdc & Hdw & Hc1 & Hw1 & Hs1 & Hfd).
  specialize (IH self1 _ _ _ _ _ _ Hr1).
  destruct (connection_thread_loop self1 turns) as [[self2 b]|e|]; cbn [mbind comp_bind];
    [|by right|done].
  destruct IH as (cl2 & wl2 & Hr2 & Hdc2 & Hdw2 & Hc2 & Hw2 & Hs2 & Hfd2).
  exists cl2, wl2.
  rewrite sent_to_ws_app, sent_to_client_app, read_from_client_app, read_from_ws_app, ws_writes_app.
  rewrite <- !app_assoc in Hr2.
  split_and!; [exact Hr2|by apply accepted_cons|by apply accepted_cons| | | |].
  - intros [H2 H3]%Forall_cons. rewrite Hc2; [by apply Hc1|]. by destruct Hs1 as [-> _].
  - intros [H2 H3]%Forall_cons. rewrite Hw2 by done. by apply Hw1.
  - unfold same_peers in *. intuition congruence.
  - destruct Hfd as [[-> <-]|(w & -> & Hw)]; [exact Hfd2|]. cbn. by eapply metadata_first_cons.
Qed.

(** ** Properties *)

(** A connection about to start its loop. *)
Definition loop_start (ws : option ws_end) (is_tls : bool) (fd : option Z) : Connection :=
  mkConnection ws is_tls buffer_init buffer_init None None fd None.

Lemma relay_start ws is_tls fd : relay (loop_start ws is_tls fd) [] [] [] [] [] [].
Proof. split; apply flow_init. Qed.

(** C1: the proxy relays both streams faithfully.  Whatever the kernel, GnuTLS and the
    peers answer, in any number of turns, the loop never fails an assertion or leaves a
    buffer.  The bytes its reads took from one side are, in order and without gaps or
    duplicates, those its writes gave to the other side, then those in the ring buffer,
    then those dropped; a read takes the first bytes of what the peer offers in that turn.
    Bytes are dropped only at the end of a stream, at most one buffer of them and then
    the buffer is empty: none of those of the web service unless a write to the client
    failed, and none of those of the client unless a write to the web service failed or
    GnuTLS reported the end or a failure of the session.  Once the loop has ended
    by itself, all that was not dropped has been delivered.  It fails only if [poll]
    does. *)
Theorem relay_faithful ws is_tls fd turns :
  match connection_thread_loop (loop_start ws is_tls fd) turns with
  | Ok (self, acts) => ∃ lost_c lost_w,
      read_from_client acts = sent_to_ws acts ++ contents (client_to_ws_buffer self) ++ lost_c ∧
      read_from_ws acts = sent_to_client acts ++ contents (ws_to_client_buffer self) ++ lost_w ∧
      accepted ((λ t, offered (tn_client_in t)) <$> turns) (read_from_client acts) ∧
      accepted ((λ t, offered (tn_ws_in t)) <$> turns) (read_from_ws acts) ∧
      (lost_c ≠ [] → eof (client_to_ws_buffer self) = true ∧
                     contents (client_to_ws_buffer self) = []) ∧
      (lost_w ≠ [] → eof (ws_to_client_buffer self) = true ∧
                     contents (ws_to_client_buffer self) = []) ∧
      zlen lost_c ≤ BUFFER_SIZE ∧ zlen lost_w ≤ BUFFER_SIZE ∧
      (Forall (client_side_kept is_tls) turns → lost_c = []) ∧
      (Forall (λ t, tn_client_out t ≠ SendError) turns → lost_w = []) ∧
      (loop_alive self = false →
       contents (client_to_ws_buffer self) = [] ∧ contents (ws_to_client_buffer self) = [])
  | Err _ => Exists poll_fails turns
  | Fault => False
  end.
Proof.
  pose proof (loop_relay turns _ _ _ _ _ _ _ (relay_start ws is_tls fd)) as H.
  destruct (connection_thread_loop _ turns) as [[self acts]|e|]; [|done|done].
  destruct H as (cl & wl & [Hc Hw] & Hdc & Hdw & Hlc & Hlw & _).
  exists cl, wl. split_and!; try done; try apply Hc; try apply Hw.
  unfold loop_alive, buffer_alive. intros H. to_prop.
  split; [by apply (fl_wr _ _ _ _ Hc)|by apply (fl_wr _ _ _ _ Hw)].
Qed.

(** The web service gets the metadata with the first data and only then.  Of the
    writes to the web service, those before the one that passes the metadata descriptor
    carry no data, those after it carry no descriptor, and the descriptor is closed
    exactly when it was passed. *)
Theorem metadata_with_first_data ws is_tls fd turns self acts :
  connection_thread_loop (loop_start ws is_tls (Some fd)) turns = Ok (self, acts) →
  (Forall (λ w, w_sent w = [] ∧ w_fd_sent w = None) (ws_writes acts) ∧ metadata_fd self = Some fd) ∨
  (∃ pre w post, ws_writes acts = pre ++ w :: post ∧
     Forall (λ w, w_sent w = [] ∧ w_fd_sent w = None) pre ∧ w_fd_sent w = Some fd ∧
     Forall (λ w, w_fd_sent w = None) post ∧ metadata_fd self = None).
Proof.
  intros H. pose proof (loop_relay turns _ _ _ _ _ _ _ (relay_start ws is_tls (Some fd))) as Hr.
  rewrite H in Hr. by destruct Hr as (_ & _ & _ & _ & _ & _ & _ & _ & Hm).
Qed.

(** ** Where a connection goes *)

Section Routing.
Context {certificate : Type}.
Context (fingerprint pem_encode : certificate → option (list Z)).

(** The outcome of the handshake: plain, TLS that failed, or TLS with an instance. *)
Definition handshake_outcome (params : Parameters) (env : handshake_env)
    (peer : option certificate) (dir : directory) (self : Connection) (ok : bool)
    (dir' : directory) : Prop :=
  (self = connection_init ∧ dir' = dir) ∨
  (∃ fn ws, self = set_tls connection_init fn ws ∧ certificate_loaded params = true ∧
     if ok then ∃ w, ws = Some w ∧
       client_certificate_accept fingerprint pem_encode (he_accept env) peer dir
         = (Ok (Some (w, fn)), dir')
     else fn = None ∧ dir' = dir).

Lemma handshake_inv params env peer dir self ok dir' :
  connection_handshake fingerprint pem_encode params env peer connection_init dir
    = (Ok (self, ok), dir') →
  handshake_outcome params env peer dir self ok dir'.
Proof.
  unfold connection_handshake. rewrite prog_bind_eq. cbn [ws_fd connection_init].
  unfold lift at 1. cbn [cassert bool_decide].
  destruct (handshake_poll _) as [| |e]; [|by intros [= <- <- <-]; left|done].
  destruct (he_peek env) as [| |b]; [by intros [= <- <- <-]; left..|].
  destruct (b =? 22); [|by intros [= <- <- <-]; left].
  destruct (certificate_loaded params) eqn:Ec; cbn [negb]; [|by intros [= <- <- <-]; left].
  destruct (he_init env); cbn [negb]; [|by intros [= <- <- <-]; left].
  assert (Hfail : ∀ s o d, (Ok (E := unit) (set_tls connection_init None None, false), dir)
      = (Ok (s, o), d) → handshake_outcome params env peer dir s o d).
  { intros s o d [= <- <- <-]. right. by exists None, None. }
  destruct (he_priority env); cbn [negb]; [|apply Hfail].
  destruct (he_credentials env); cbn [negb]; [|apply Hfail].
  destruct (gnutls_handshake_loop _); cbn [negb]; [|apply Hfail].
  rewrite prog_bind_eq.
  destruct (client_certificate_accept _ _ _ _ _) as [[[[w fn]|]| |] d] eqn:E; [| |done..].
  - intros [= <- <- <-]. right. exists fn, (Some w). split_and!; [done|done|]. by exists w.
  - apply accept_dir in E. cbn in E. subst d. apply Hfail.
Qed.

Lemma metadata_inv env self self' ok :
  connection_create_metadata env self = Ok (self', ok) →
  ∃ fd m, self' = set_metadata self fd m.
Proof.
  unfold connection_create_metadata.
  assert (Hself : ∃ fd m, self = set_metadata self fd m).
  { exists (metadata_fd self), (metadata self). by destruct self. }
  destruct (me_peername env) as [addr|]; [|by intros [= <- <-]].
  intros H. apply comp_bind_Ok in H as ([[ip port]|] & _ & H); [|by injection H as <- <-].
  apply comp_bind_Ok in H as ([m f] & _ & H). do 3 apply comp_bind_Ok in H as (? & _ & H).
  apply comp_bind_Ok in H as (m' & _ & [= <- <-]). by eexists _, _.
Qed.

(** The end of a connection that may be reached by a client in the state of [self]. *)
Definition allowed_end (params : Parameters) (sockname : option sockaddr) (self : Connection)
    (w : ws_end) : Prop :=
  match w with
  | WsUnconnected => False
  | WsRedirect => tls self = false ∧ require_https params = true ∧
                  connection_is_to_localhost sockname = false
  | WsSocket path =>
      if tls self
      then af_unix_fill_sockaddr_at (wsinstance_sockdir params)
             (https_sockname (default (bs "(null)") (wsinstance self))) = Some path
      else (require_https params = false ∨ connection_is_to_localhost sockname = true) ∧
           af_unix_fill_sockaddr_at (wsinstance_sockdir params) (bs "http.sock") = Some path
  end.

Lemma try_connect_inv params connect self name self' ok :
  try_connect params connect self name = (self', ok) →
  if ok then ∃ path, self' = set_ws self (Some (WsSocket path)) ∧
                     af_unix_fill_sockaddr_at (wsinstance_sockdir params) name = Some path
  else self' = self.
Proof.
  unfold try_connect. destruct (af_unix_connectat _ _ _); [|by intros [= <- <-]..].
  destruct (af_unix_fill_sockaddr_at _ _) as [path|]; intros [= <- <-]; [by exists path|done].
Qed.

Lemma connect_inv params env sockname self self' ok :
  ws_fd self = None →
  connection_connect_to_wsinstance params env sockname self = Ok (self', ok) →
  ∃ w, self' = set_ws self w ∧
    if ok then ∃ e, w = Some e ∧ allowed_end params sockname self e
    else w = None ∨ w = Some WsUnconnected.
Proof.
  intros Hn. unfold connection_connect_to_wsinstance.
  assert (Hself : self = set_ws self None) by (destruct self; cbn in *; by subst).
  destruct (negb (tls self) && require_https params && negb (connection_is_to_localhost sockname))
    eqn:E.
  { to_prop. destruct (ce_redirect env); intros [= <- <-].
    - exists (Some WsRedirect). split; [done|]. by exists WsRedirect.
    - exists None. split; [done|]. by left. }
  destruct (ce_socket env); cbn [negb]; [|intros [= <- <-]; exists None; by split; [|left]].
  change (tls (set_ws self (Some WsUnconnected))) with (tls self).
  destruct (tls self) eqn:Et; cbn [negb].
  - unfold connection_connect_to_dynamic_wsinstance. cbn [tls set_ws wsinstance].
    intros H. apply comp_bind_Ok in H as (? & _ & H). apply comp_bind_Ok in H as (? & _ & H).
    destruct (try_connect params (ce_connect1 env) _ _) as [s1 []] eqn:E1; apply try_connect_inv in E1.
    + destruct E1 as (path & -> & Hp). injection H as <- <-. eexists. split; [done|].
      eexists. split; [done|]. unfold allowed_end. by rewrite Et.
    + subst s1. apply comp_bind_Ok in H as (req & _ & H).
      destruct req; cbn [negb] in H; [|injection H as <- <-; eexists; split; [done|by right]].
      injection H as H. apply try_connect_inv in H. destruct ok.
      * destruct H as (path & -> & Hp). eexists. split; [done|].
        eexists. split; [done|]. unfold allowed_end. by rewrite Et.
      * subst. eexists. split; [done|by right].
  - intros H. injection H as H. apply try_connect_inv in H. destruct ok.
    + destruct H as (path & -> & Hp). eexists. split; [done|].
      eexists. split; [done|]. unfold allowed_end. rewrite Et. split; [|done].
      cbn in E. destruct (require_https params); [|by left]. right. by apply negb_false_iff.
    + subst. eexists. split; [done|by right].
Qed.

Lemma allowed_end_ext params sockname s s' e :
  tls s' = tls s → wsinstance s' = wsinstance s →
  allowed_end params sockname s e → allowed_end params sockname s' e.
Proof. intros H1 H2. unfold allowed_end. by rewrite H1, H2. Qed.

Lemma run_inv params env peer dir self acts dir1 :
  connection_thread_run fingerprint pem_encode params env peer connection_init dir
    = (Ok (self, acts), dir1) →
  ∃ s0 ok, handshake_outcome params (mn_handshake env) peer dir s0 ok dir1 ∧
    tls self = tls s0 ∧ client_cert_filename self = client_cert_filename s0 ∧
    wsinstance self = wsinstance s0 ∧
    ((acts = [] ∧ (ws_fd self = None ∨ ws_fd self = Some WsUnconnected)) ∨
     (ok = true ∧ ∃ e, ws_fd self = Some e ∧ allowed_end params (mn_sockname env) self e)).
Proof.
  unfold connection_thread_run. rewrite prog_bind_eq.
  destruct (connection_handshake _ _ _ _ _ _ dir) as [[[s0 ok]| |] d1] eqn:E0; [|done..].
  apply handshake_inv in E0.
  assert (Hinit : ws_fd s0 = None ∧ client_to_ws_buffer s0 = buffer_init ∧
                  ws_to_client_buffer s0 = buffer_init).
  { destruct E0 as [[-> _]|(fn & ws & -> & _)]; done. }
  destruct Hinit as (Hw & Hb1 & Hb2).
  destruct ok; cbn [negb].
  2: { intros [= <- <- <-]. exists s0, false. split_and!; try done. left. split; [done|by left]. }
  rewrite prog_bind_eq. unfold lift at 1.
  destruct (connection_create_metadata _ s0) as [[s1 ok1]| |] eqn:E1; [|done..].
  apply metadata_inv in E1 as (fd & m & ->). destruct ok1; cbn [negb].
  2: { intros [= <- <- <-]. exists s0, true. split_and!; try done. left. split; [done|by left]. }
  rewrite prog_bind_eq. unfold lift at 1.
  destruct (connection_connect_to_wsinstance _ _ _ _) as [[s2 ok2]| |] eqn:E2; [|done..].
  apply connect_inv in E2; [|done]. destruct E2 as (w & -> & Hok2). destruct ok2; cbn [negb].
  2: { intros [= <- <- <-]. exists s0, true. split_and!; try done. by left. }
  destruct Hok2 as (e & -> & He). unfold lift.
  pose proof (loop_relay (mn_turns env) (set_ws (set_metadata s0 fd m) (Some e)) [] [] [] [] [] [])
    as Hl.
  destruct (connection_thread_loop _ _) as [[s3 a]| |]; [|done..].
  intros [= <- <- <-]. destruct Hl as (_ & _ & _ & _ & _ & _ & _ & Hsame & _).
  { split; cbn; rewrite ?Hb1, ?Hb2; apply flow_init. }
  destruct Hsame as (Ht & Hws & Hcf & Hwi & _). cbn in Ht, Hws, Hcf, Hwi.
  exists s0, true. split_and!; try done. right. split; [done|]. exists e. split; [done|].
  eapply allowed_end_ext; [| |exact He]; done.
Qed.

(** Everything a thread that ran to its end can have done. *)
Lemma thread_inv params env peer dir self acts dir' :
  connection_thread_main fingerprint pem_encode params env peer dir = (Ok (self, acts), dir') →
  dir' = dir ∧
  (tls self = true → certificate_loaded params = true) ∧
  (acts ≠ [] ∨ (∃ e, ws_fd self = Some e ∧ e ≠ WsUnconnected) →
   ∃ e, ws_fd self = Some e ∧ allowed_end params (mn_sockname env) self e ∧
     (tls self = true → ∃ w fn dir1, wsinstance self = Some w ∧
        client_certificate_accept fingerprint pem_encode (he_accept (mn_handshake env)) peer dir
          = (Ok (Some (w, fn)), dir1))).
Proof.
  unfold connection_thread_main. rewrite !prog_bind_eq. unfold lift at 1 2 3.
  cbn [cassert negb buffer_can_write connection_init client_to_ws_buffer ws_to_client_buffer tls].
  change (cassert (E := unit) (negb (buffer_can_write buffer_init))) with (Ok (E := unit) tt).
  cbn beta iota. rewrite !prog_bind_eq.
  destruct (connection_thread_run fingerprint pem_encode params env peer connection_init dir) as [[[s a]| |] d1] eqn:E; [|done..].
  apply run_inv in E as (s0 & ok & Ho & Ht & Hf & Hwi & Hend). rewrite prog_bind_eq.
  assert (Hd : match client_cert_filename s with
               | Some name => d1 !! name ≠ None ∧ delete name d1 = dir
               | None => d1 = dir
               end).
  { rewrite Hf. destruct Ho as [[-> ->]|(fn & ws & -> & _ & Hok)]; [done|]. destruct ok.
    - destruct Hok as (w & -> & Ha). apply accept_dir in Ha. cbn. destruct fn as [name|]; [|done].
      destruct Ha as (Hn & file & ->). rewrite lookup_insert_eq. split; [done|].
      by apply delete_insert_id.
    - by destruct Hok as [-> ->]. }
  assert (Hc : tls s = true → certificate_loaded params = true).
  { rewrite Ht. destruct Ho as [[-> _]|(fn & ws & -> & Hc & _)]; done. }
  assert (Hr : a ≠ [] ∨ (∃ e, ws_fd s = Some e ∧ e ≠ WsUnconnected) →
    ∃ e, ws_fd s = Some e ∧ allowed_end params (mn_sockname env) s e ∧
     (tls s = true → ∃ w fn dir1, wsinstance s = Some w ∧
        client_certificate_accept fingerprint pem_encode (he_accept (mn_handshake env)) peer dir
          = (Ok (Some (w, fn)), dir1))).
  { intros Hne. destruct Hend as [[-> Hw]|(-> & e & He & Ha)].
    - destruct Hne as [|(e & He & Hne)]; [done|]. destruct Hw as [Hw|Hw]; congruence.
    - exists e. split_and!; [done|done|]. intros Htls. rewrite Ht in Htls.
      destruct Ho as [[-> _]|(fn & ws & -> & _ & w & -> & Hacc)]; [done|].
      exists w, fn, d1. by rewrite Hwi. }
  destruct (client_cert_filename s) as [name|].
  - unfold client_certificate_unlink_and_free. destruct Hd as [Hd1 Hd2].
    destruct (d1 !! name); [|done]. intros [= <- <- <-]. done.
  - intros [= <- <- <-]. done.
Qed.

(** C2: where a client can get to.  A client that does not speak TLS reaches the
    unencrypted web service only if encryption is not required or the connection is to
    the local host, and otherwise the redirector; a TLS client is refused without a
    server certificate and reaches only the instance named after the fingerprint of the
    certificate it presented, or after the fixed name when it presented none.  Before
    such an end is reached nothing is relayed. *)
Theorem routing params env peer dir self acts dir' :
  (∀ cert d, peer = Some cert → fingerprint cert = Some d → Forall is_byte d) →
  (∀ r, ae_random (he_accept (mn_handshake env)) = Some r → Forall is_byte r) →
  connection_thread_main fingerprint pem_encode params env peer dir = (Ok (self, acts), dir') →
  match ws_fd self with
  | None | Some WsUnconnected => acts = []
  | Some WsRedirect =>
      tls self = false ∧ require_https params = true ∧
      connection_is_to_localhost (mn_sockname env) = false
  | Some (WsSocket path) =>
      if tls self then
        certificate_loaded params = true ∧
        ∃ instance, af_unix_fill_sockaddr_at (wsinstance_sockdir params)
                      (https_sockname instance) = Some path ∧
          match peer with
          | None => instance = SHA256_NIL
          | Some cert => ∃ d, fingerprint cert = Some d ∧ instance = hex_of d
          end
      else
        (require_https params = false ∨ connection_is_to_localhost (mn_sockname env) = true) ∧
        af_unix_fill_sockaddr_at (wsinstance_sockdir params) (bs "http.sock") = Some path
  end.
Proof.
  intros Hb Hr Hm. apply thread_inv in Hm as (_ & Hc & Hend).
  destruct (ws_fd self) as [[| |path]|] eqn:Ew.
  - destruct acts; [done|]. destruct Hend as (e & [= <-] & He & _); [by left|done].
  - destruct Hend as (e & [= <-] & He & _); [right; by eexists|]. exact He.
  - destruct Hend as (e & [= <-] & He & Hacc); [right; by eexists|]. cbn in He.
    destruct (tls self); [|exact He]. split; [by apply Hc|].
    destruct (Hacc eq_refl) as (w & fn & d1 & Hwi & Ha). rewrite Hwi in He.
    exists w. split; [exact He|]. destruct peer as [cert|]; [|by injection Ha].
    destruct (accept_inv fingerprint pem_encode _ _ _ _ _ _ (conj (λ d, Hb cert d eq_refl) Hr) Ha)
      as (d & _ & _ & Hd & _ & _ & -> & _). by exists d.
  - destruct acts; [done|]. destruct Hend as (e & He & _); [by left|done].
Qed.

(** No certificate outlives its connection.  However the connection of a client
    went, when its thread returns the directory of certificate files is what it was. *)
Theorem no_stale_certificates params env peer dir self acts dir' :
  connection_thread_main fingerprint pem_encode params env peer dir = (Ok (self, acts), dir') →
  dir' = dir.
Proof. intros H. by apply thread_inv in H as [H _]. Qed.
End Routing.

(** ** Metadata and pending data *)

(** The properties of the metadata object. *)
Definition metadata_properties (ip : list Z) (port : Z) (cert : option (list Z)) : list property :=
  [PString (bs "origin-ip") (ip ++ [0]) (-1); PInteger (bs "origin-port") port] ++
  match cert with
  | Some filename => [PString (bs "client-certificate") (filename ++ [0]) (-1)]
  | None => []
  end.

Definition c_string (s : list Z) : Prop := Forall is_byte s ∧ nul_free s.

Lemma printable_c_string key s :
  clean key → zlen key < 2 ^ 31 - 7 → c_string s → printable (PString key (s ++ [0]) (-1)).
Proof.
  intros Hc Hl [Hb _]. cbn. split_and!; [done|done|by apply Forall_app; split; [|by_decide]|].
  left. apply Exists_app. right. by constructor.
Qed.

Lemma text_of_c_string s : c_string s → zlen s < 2 ^ 63 → text_of (s ++ [0]) (u64 (-1)) = s.
Proof.
  intros [_ Hn] Hl. rewrite text_of_take, take_ge; [by apply cstr_app_nul|].
  change (u64 (-1)) with (2 ^ 64 - 1). rewrite length_app. unfold zlen in Hl. cbn [length]. lia.
Qed.

Lemma metadata_printable ip port cert :
  c_string ip → 0 ≤ port < 2 ^ 64 → (∀ fn, cert = Some fn → c_string fn) →
  Forall printable (metadata_properties ip port cert).
Proof.
  intros Hi Hp Hc. unfold metadata_properties. apply Forall_app. split.
  - apply Forall_cons. split; [by apply printable_c_string; [by_decide|by_decide|]|].
    apply Forall_cons. split; [|by constructor]. cbn. split_and!; [by_decide|by_decide|lia|lia].
  - destruct cert as [fn|]; [|constructor]. apply Forall_cons. split; [|by constructor].
    apply printable_c_string; [by_decide|by_decide|by apply Hc].
Qed.

Lemma fput_fits a f :
  (length a ≤ f_room f)%nat → fput a f = (true, mk_FILE (f_out f ++ a) (f_room f - length a)).
Proof. intros H. unfold fput. by rewrite bool_decide_eq_true_2, take_ge. Qed.

Lemma ignore_property p f :
  printable p → (length (bs ", " ++ member_text p) ≤ f_room f)%nat →
  ignore_result (print_property p) f =
    Ok (mk_FILE (f_out f ++ bs ", " ++ member_text p) (f_room f - length (bs ", " ++ member_text p))).
Proof.
  intros Hp Hl. unfold ignore_result. rewrite print_property_fput by done. by rewrite fput_fits.
Qed.

(** The thread's own printing is a message of these properties. *)
Lemma create_metadata_message env self addr ip port :
  me_peername env = Some addr → metadata_origin env addr = Ok (Some (ip, port)) →
  let ps := metadata_properties ip port (client_cert_filename self) in
  Forall printable ps → (length (message_text 1 ps) ≤ me_room env)%nat →
  ∃ m, connection_create_metadata env self
         = Ok (set_metadata self (Some (me_fd env)) (Some m), true) ∧
       m_sealed m = true ∧ m_data m = message_text 1 ps.
Proof.
  intros Ha Ho ps Hp Hl. unfold connection_create_metadata. rewrite Ha, Ho. cbn [mbind comp_bind].
  set (head := [123] ++ member_text (PInteger (bs "version") 1)).
  assert (Hopen : cockpit_json_print_open_memfd (λ _, None) (me_room env)
    (bs "cockpit-tls metadata") 1 = Ok (mk_memfd (bs "cockpit login messages") true false false [],
      mk_FILE head (me_room env - length head))).
  { unfold cockpit_json_print_open_memfd. cbn [Z.geb Z.compare]. unfold fprintf.
    rewrite or_eof_fput. cbn [snd]. rewrite fput_fits; [done|].
    etrans; [|exact Hl]. unfold message_text. rewrite !length_app. cbn. lia. }
  rewrite Hopen. cbn [mbind comp_bind]. clear Hopen.
  assert (Ht : message_text 1 ps = head ++ more_text ps ++ [125]).
  { unfold message_text, head. by rewrite <- app_assoc. }
  rewrite Ht in Hl |- *. clearbody head. clear Ht. unfold metadata_properties in ps.
  apply Forall_app in Hp as [[Hp1 [Hp2 _]%Forall_cons]%Forall_cons Hp3].
  change (cockpit_json_print_string_property (bs "origin-ip") (ip ++ [0]) (-1))
    with (print_property (PString (bs "origin-ip") (ip ++ [0]) (-1))).
  change (cockpit_json_print_integer_property (bs "origin-port") port)
    with (print_property (PInteger (bs "origin-port") port)).
  unfold ps in *. clear ps.
  destruct (client_cert_filename self) as [fn|]; cbn [app more_text] in Hl |- *;
    rewrite !length_app in Hl; cbn [length] in Hl.
  - apply Forall_cons in Hp3 as [Hp3 _].
    change (cockpit_json_print_string_property (bs "client-certificate") (fn ++ [0]) (-1))
      with (print_property (PString (bs "client-certificate") (fn ++ [0]) (-1))).
    do 3 (rewrite ignore_property by (done || (cbn [f_room]; rewrite !length_app; lia));
          cbn [mbind comp_bind f_out f_room]).
    unfold cockpit_json_print_finish_memfd, fputc. rewrite or_eof_fput, fput_fits;
      [|cbn [f_room length]; rewrite !length_app; lia].
    cbn [fst snd cassert mbind comp_bind f_out Z.eqb Pos.eqb]. eexists. split; [done|]. split; [done|].
    cbn [m_data]. by rewrite <- !app_assoc.
  - do 2 (rewrite ignore_property by (done || (cbn [f_room]; rewrite !length_app; lia));
          cbn [mbind comp_bind f_out f_room]).
    unfold cockpit_json_print_finish_memfd, fputc. rewrite or_eof_fput, fput_fits;
      [|cbn [f_room length]; rewrite !length_app; lia].
    cbn [fst snd cassert mbind comp_bind f_out Z.eqb Pos.eqb]. eexists. split; [done|]. split; [done|].
    cbn [m_data]. by rewrite <- !app_assoc.
Qed.

(** The metadata names the peer, with its port byte-swapped.  For an IPv4 client
    and enough space for the message, the sealed file the web service gets is the object
    of the address text, the client certificate's file name when there is one, and a
    port number that is the two bytes of the port on the wire read in the wrong order. *)
Theorem metadata_reports_peer env self addr hi lo :
  me_peername env = Some (AF_INET addr [hi; lo]) → is_byte hi → is_byte lo →
  let ip := me_ntop4 env addr in
  let ps := metadata_properties ip (hi + 256 * lo) (client_cert_filename self) in
  c_string ip → zlen ip < 2 ^ 63 →
  (∀ fn, client_cert_filename self = Some fn → c_string fn ∧ zlen fn < 2 ^ 63) →
  (length (message_text 1 ps) ≤ me_room env)%nat →
  ∃ m, connection_create_metadata env self
         = Ok (set_metadata self (Some (me_fd env)) (Some m), true) ∧ m_sealed m = true ∧
    read_object (m_data m) = Some ([(bs "version", JNumber 1); (bs "origin-ip", JString (ascii <$> ip));
                                    (bs "origin-port", JNumber (hi + 256 * lo))] ++
      match client_cert_filename self with
      | Some fn => [(bs "client-certificate", JString (ascii <$> fn))]
      | None => []
      end).
Proof.
  intros Ha Hhi Hlo ip ps Hi Hil Hf Hl. unfold is_byte in *.
  assert (Hp : Forall printable ps).
  { apply metadata_printable; [done|lia|]. intros fn Hfn. by apply Hf. }
  destruct (create_metadata_message env self _ ip (hi + 256 * lo) Ha eq_refl Hp Hl)
    as (m & -> & Hs & Hm).
  exists m. split_and!; [done|done|]. rewrite Hm, read_message_text by (done || lia).
  unfold metadata_properties. rewrite fmap_app. cbn [fmap list_fmap meaning].
  rewrite text_of_c_string by done.
  destruct (client_cert_filename self) as [fn|]; [|done]. cbn [fmap list_fmap meaning].
  destruct (Hf fn eq_refl). by rewrite text_of_c_string.
Qed.

(** The state of a TLS connection with nothing queued is a fixed point. *)
Lemma even_pending_turn ws fd t n :
  0 < n < 2 ^ 15 → tn_pending t = 2 * n → tn_poll t = [Polled 0 0] →
  ∃ acts, loop_turn (loop_start ws true fd) t = Ok (loop_start ws true fd, acts) ∧
          sent_to_ws acts = [].
Proof.
  intros Hn Hp Hpoll. unfold loop_turn. rewrite Hpoll. cbn [poll_turn].
  set (rc := Z.lor (client_revents_before _ _) _). set (rw := Z.lor (ws_revents_before _) _).
  assert (Hrc : rc = 2 * n).
  { unfold rc, client_revents_before. rewrite Hp.
    change (poll_revents (client_events (loop_start ws true fd)) 0) with 0. rewrite Z.lor_0_r.
    change (tls (loop_start ws true fd) &&
            buffer_can_read (client_to_ws_buffer (loop_start ws true fd))) with true.
    cbv iota. change (calculate_revents _ _) with 0. rewrite Z.lor_0_l.
    change POLLIN with 1. unfold u16. rewrite Z.mod_small; lia. }
  change rw with 0. rewrite Hrc. clear rc rw Hrc.
  assert (Hin : has_bit (2 * n) POLLIN = false).
  { rewrite has_bit_in. apply Z.testbit_even_0. }
  unfold client_read. rewrite Hin. cbn [lift_fault mbind comp_bind].
  unfold client_write. destruct (has_bit (2 * n) POLLOUT).
  - cbn [tls loop_start]. eexists. split; [reflexivity|done].
  - eexists. split; [reflexivity|done].
Qed.

(** An even number of pending bytes is never noticed.  When GnuTLS holds an even
    number of decrypted bytes of a client and the sockets are quiet, the loop asks [poll]
    not to block and then reads nothing: it turns for ever without a transfer and the
    data stays where it is. *)
Theorem even_pending_spins ws fd t n k :
  0 < n < 2 ^ 15 → tn_pending t = 2 * n → tn_poll t = [Polled 0 0] →
  pr_block (loop_request (loop_start ws true fd) t) = false ∧
  ∃ acts, connection_thread_loop (loop_start ws true fd) (replicate k t)
            = Ok (loop_start ws true fd, acts) ∧ sent_to_ws acts = [].
Proof.
  intros Hn Hp Hpoll. split.
  - unfold loop_request. cbn [pr_block]. apply Z.eqb_neq. unfold client_revents_before.
    change (tls (loop_start ws true fd) &&
            buffer_can_read (client_to_ws_buffer (loop_start ws true fd))) with true.
    cbv iota. change (calculate_revents _ _) with 0.
    change (ws_revents_before (loop_start ws true fd)) with 0.
    rewrite Z.lor_0_l, Z.lor_0_r, Hp. change POLLIN with 1. unfold u16. rewrite Z.mod_small; lia.
  - destruct (even_pending_turn ws fd t n Hn Hp Hpoll) as (a & Ha & Hs).
    induction k as [|k (b & Hb & Hsb)]; cbn [replicate connection_thread_loop].
    + exists []. split; [|done]. by destruct (negb _).
    + change (negb (loop_alive (loop_start ws true fd))) with false. cbv iota. rewrite Ha, Hb.
      exists (a ++ b). split; [done|]. by rewrite sent_to_ws_app, Hs, Hsb.
Qed.

(** ** Examples *)

(** A request read from the client, then written to the web service. *)
Definition ex_turns : list turn :=
  [Turn 0 [Polled 1 0] (RecvSome (bs "GET")) SendAgain RecvAgain SendAgain;
   Turn 0 [Polled 0 4] RecvAgain SendAgain RecvAgain (SendSome 2);
   Turn 0 [Polled 0 4] RecvAgain SendAgain RecvAgain (SendSome 5)].

Definition ex_loop_end : Connection * list action :=
  match connection_thread_loop (loop_start None false (Some 9)) ex_turns with
  | Ok r => r
  | _ => (connection_init, [])
  end.

Lemma metadata_with_first_data_witness :
  (Forall (λ w, w_sent w = [] ∧ w_fd_sent w = None) (ws_writes ex_loop_end.2) ∧
   metadata_fd ex_loop_end.1 = Some 9) ∨
  (∃ pre w post, ws_writes ex_loop_end.2 = pre ++ w :: post ∧
     Forall (λ w, w_sent w = [] ∧ w_fd_sent w = None) pre ∧ w_fd_sent w = Some 9 ∧
     Forall (λ w, w_fd_sent w = None) post ∧ metadata_fd ex_loop_end.1 = None).
Proof.
  apply (metadata_with_first_data None false 9 ex_turns). vm_compute. reflexivity.
Defined.

Lemma even_pending_spins_witness :
  pr_block (loop_request (loop_start None true None)
              (Turn 6 [Polled 0 0] (RecvSome (bs "secret")) SendAgain RecvAgain SendAgain)) = false ∧
  ∃ acts, connection_thread_loop (loop_start None true None)
            (replicate 100 (Turn 6 [Polled 0 0] (RecvSome (bs "secret")) SendAgain RecvAgain SendAgain))
            = Ok (loop_start None true None, acts) ∧ sent_to_ws acts = [].
Proof.
  exact (even_pending_spins None None
           (Turn 6 [Polled 0 0] (RecvSome (bs "secret")) SendAgain RecvAgain SendAgain) 3 100
           (conj eq_refl eq_refl) eq_refl eq_refl).
Defined.

Definition ex_params : Parameters := mkParameters true true 5 6.

Definition ex_metadata_env : metadata_env :=
  MetadataEnv (Some (AF_INET [10; 0; 0; 1] [1; 187])) (λ _, bs "10.0.0.1") (λ _, bs "::1")
    (λ _, None) 4096 9.

Definition ex_connect_env : connect_env :=
  ConnectEnv true true (λ _, Ok tt) (RequestEnv false (λ _, Ok tt) [] true []) (λ _, Ok tt).

(** A TLS client without a certificate. *)
Definition ex_main_env (b : Z) : main_env :=
  MainEnv (HandshakeEnv [PollErr EINTR; PollReady] (PeekByte b) true true true
             [HsInterrupted; HsSuccess] (AcceptEnv true (λ d, zlen d) (Some (replicate 32 7)) true))
    ex_metadata_env (Some (AF_INET [10; 0; 0; 2] [1; 187])) ex_connect_env [].

Definition ex_main_end (b : Z) : Connection * list action :=
  match connection_thread_main ex_fingerprint ex_pem ex_params (ex_main_env b) None ∅ with
  | (Ok r, _) => r
  | _ => (connection_init, [])
  end.

Lemma routing_witness :
  match ws_fd (ex_main_end 22).1 with
  | None | Some WsUnconnected => (ex_main_end 22).2 = []
  | Some WsRedirect =>
      tls (ex_main_end 22).1 = false ∧ require_https ex_params = true ∧
      connection_is_to_localhost (mn_sockname (ex_main_env 22)) = false
  | Some (WsSocket path) =>
      if tls (ex_main_end 22).1 then
        certificate_loaded ex_params = true ∧
        ∃ instance, af_unix_fill_sockaddr_at (wsinstance_sockdir ex_params)
                      (https_sockname instance) = Some path ∧ instance = SHA256_NIL
      else
        (require_https ex_params = false ∨
         connection_is_to_localhost (mn_sockname (ex_main_env 22)) = true) ∧
        af_unix_fill_sockaddr_at (wsinstance_sockdir ex_params) (bs "http.sock") = Some path
  end.
Proof.
  apply (routing ex_fingerprint ex_pem ex_params (ex_main_env 22) None ∅ _ _ ∅).
  - done.
  - intros r [= <-]. by_decide.
  - vm_compute. reflexivity.
Defined.

Lemma no_stale_certificates_witness : (∅ : gmap (list Z) (list Z)) = ∅.
Proof.
  apply (no_stale_certificates ex_fingerprint ex_pem ex_params (ex_main_env 22) None ∅
           (ex_main_end 22).1 (ex_main_end 22).2 ∅).
  vm_compute. reflexivity.
Defined.

Lemma metadata_reports_peer_witness :
  ∃ m, connection_create_metadata ex_metadata_env connection_init
         = Ok (set_metadata connection_init (Some 9) (Some m), true) ∧ m_sealed m = true ∧
    read_object (m_data m) = Some ([(bs "version", JNumber 1);
      (bs "origin-ip", JString (ascii <$> bs "10.0.0.1")); (bs "origin-port", JNumber 47873)] ++ []).
Proof.
  apply (metadata_reports_peer ex_metadata_env connection_init [10; 0; 0; 1] 1 187);
    [reflexivity|by_decide|by_decide|split; by_decide|by_decide|done|].
  apply Nat.leb_le. vm_compute. reflexivity.
Defined.
