(* ===== verification/Json.v ===== *)
(** * JSON values: [src/common/cockpitjson.c]

    Typed access to the members of objects, comparison, patching and walking of trees,
    and the writer.  A tree is data: [JsonNode] with its types, and [JsonObject] as the
    members in their order, each name once; what json-glib does with them (members by
    name, replacing and appending) is written out.  Text is compared with a reader of the
    texts of RFC 8259 that have no white space, which takes numbers without fraction and exponent for
    integers.  The parser of json-glib, the conversions of [double], [g_ascii_dtostr] and [g_ascii_strtod] are
    parameters. *)

From S2P Require Import Prelude JsonPrint.
From stdpp Require Import sorting.
From Stdlib Require Import Floats.SpecFloat.
#[local] Open Scope Z_scope.

#[warnings="-register-all"]
Inductive json :=
| JNull
| JBool (b : bool)
| JInt (n : Z)
| JDouble (d : spec_float)
| JString (s : list Z)
| JArray (l : list json)
| JObject (members : list (list Z * json)).

Abbreviation object := (list (list Z * json)).

(** ** json-glib *)

Fixpoint json_object_get_member (o : object) (name : list Z) : option json :=
  match o with
  | [] => None
  | (k, v) :: o' => if decide (k = name) then Some v else json_object_get_member o' name
  end.

Definition json_object_get_members (o : object) : list (list Z) := o.*1.

Fixpoint json_object_set_member (o : object) (name : list Z) (v : json) : object :=
  match o with
  | [] => [(name, v)]
  | (k, w) :: o' =>
      if decide (k = name) then (k, v) :: o' else (k, w) :: json_object_set_member o' name v
  end.

Definition json_object_remove_member (o : object) (name : list Z) : object :=
  filter (λ m, m.1 ≠ name) o.

(** ** Typed access: [None] where the code returns [FALSE] *)

Section Access.
Context (json_node_get_int_of_double : spec_float → Z) (double_of_int : Z → spec_float).

Definition cockpit_json_get_int (o : object) (name : list Z) (defawlt : Z) : option Z :=
  match json_object_get_member o name with
  | None => Some defawlt
  | Some (JInt n) => Some n
  | Some (JDouble d) => Some (json_node_get_int_of_double d)
  | Some _ => None
  end.

Definition cockpit_json_get_double (o : object) (name : list Z) (defawlt : spec_float)
    : option spec_float :=
  match json_object_get_member o name with
  | None => Some defawlt
  | Some (JInt n) => Some (double_of_int n)
  | Some (JDouble d) => Some d
  | Some _ => None
  end.
End Access.

Definition cockpit_json_get_bool (o : object) (name : list Z) (defawlt : bool) : option bool :=
  match json_object_get_member o name with
  | None => Some defawlt
  | Some (JBool b) => Some b
  | Some _ => None
  end.

Definition cockpit_json_get_string (o : object) (name : list Z) (defawlt : option (list Z))
    : option (option (list Z)) :=
  match json_object_get_member o name with
  | None => Some defawlt
  | Some (JString s) => Some (Some s)
  | Some _ => None
  end.

Definition cockpit_json_get_array (o : object) (name : list Z) (defawlt : option (list json))
    : option (option (list json)) :=
  match json_object_get_member o name with
  | None => Some defawlt
  | Some (JArray l) => Some (Some l)
  | Some _ => None
  end.

Definition cockpit_json_get_object (o : object) (member : list Z) (defawlt : option object)
    : option (option object) :=
  match json_object_get_member o member with
  | None => Some defawlt
  | Some (JObject p) => Some (Some p)
  | Some _ => None
  end.

(** The loop over the elements, which stops at the first that is no string. *)
Fixpoint strv_loop (l : list json) : option (list (list Z)) :=
  match l with
  | [] => Some []
  | JString s :: l' => cons s <$> strv_loop l'
  | _ :: _ => None
  end.

Definition cockpit_json_get_strv (o : object) (member : list Z)
    (defawlt : option (list (list Z))) : option (option (list (list Z))) :=
  match json_object_get_member o member with
  | None => Some defawlt
  | Some (JArray l) => Some <$> strv_loop l
  | Some _ => None
  end.

(** The boolean is [*present]. *)
Definition cockpit_json_get_null (o : object) (member : list Z) : option bool :=
  match json_object_get_member o member with
  | None => Some false
  | Some JNull => Some true
  | Some _ => None
  end.

(** ** Comparison *)

Fixpoint strcmp (a b : list Z) : comparison :=
  match a, b with
  | [], [] => Eq
  | [], _ :: _ => Lt
  | _ :: _, [] => Gt
  | x :: a', y :: b' => match Z.compare x y with Eq => strcmp a' b' | c => c end
  end.

Definition strcmp_le (a b : list Z) : Prop := strcmp a b ≠ Gt.

#[export] Instance strcmp_le_dec : RelDecision strcmp_le.
Proof. intros a b. unfold strcmp_le, Decision. destruct (strcmp a b); [left|left|right]; congruence. Defined.

(** The loop over the sorted names, which skips a name it has just compared. *)
Fixpoint equal_names (equal : list Z → bool) (name : option (list Z)) (l : list (list Z)) : bool :=
  match l with
  | [] => true
  | n :: l' =>
      if decide (name = Some n) then equal_names equal name l'
      else if equal n then equal_names equal (Some n) l' else false
  end.

Definition cockpit_json_equal_object (equal : option json → option json → bool)
    (previous current : object) : bool :=
  let names := json_object_get_members previous ++ json_object_get_members current in
  equal_names (λ n, equal (json_object_get_member previous n) (json_object_get_member current n))
    None (merge_sort strcmp_le names).

Fixpoint equal_elements (equal : option json → option json → bool) (previous current : list json)
    : bool :=
  match previous, current with
  | p :: previous', c :: current' =>
      if equal (Some p) (Some c) then equal_elements equal previous' current' else false
  | _, _ => true
  end.

Definition cockpit_json_equal_array (equal : option json → option json → bool)
    (previous current : list json) : bool :=
  if (length previous =? length current)%nat then equal_elements equal previous current else false.

(** How deep a tree is. *)
Fixpoint depth (j : json) : nat :=
  match j with
  | JArray l => S (foldr (λ j n, Nat.max (depth j) n) 0%nat l)
  | JObject ms => S (foldr (λ m n, Nat.max (depth m.2) n) 0%nat ms)
  | _ => 1%nat
  end.

(** The comparison of two things that may be missing, with fuel for the depth. *)
Fixpoint json_equal_fuel (fuel : nat) (previous current : option json) : bool :=
  match fuel with
  | O => false
  | S fuel' =>
      match previous, current with
      | None, None => true
      | None, _ | _, None => false
      | Some (JObject p), Some (JObject c) => cockpit_json_equal_object (json_equal_fuel fuel') p c
      | Some (JArray p), Some (JArray c) => cockpit_json_equal_array (json_equal_fuel fuel') p c
      | Some JNull, Some JNull => true
      | Some (JInt p), Some (JInt c) => p =? c
      | Some (JDouble p), Some (JDouble c) => SFeqb p c
      | Some (JBool p), Some (JBool c) => Bool.eqb p c
      | Some (JString p), Some (JString c) => bool_decide (p = c)
      | _, _ => false
      end
  end.

Definition cockpit_json_equal (previous current : json) : bool :=
  json_equal_fuel (depth previous) (Some previous) (Some current).

(** ** Patching *)

(** One turn of the loop over the members of [override]. *)
Definition patch_member (patch : object → object → object) (override target : object)
    (name : list Z) : object :=
  match json_object_get_member override name with
  | None => target
  | Some JNull => json_object_remove_member target name
  | Some (JObject node) =>
      match json_object_get_member target name with
      | Some (JObject other) => json_object_set_member target name (JObject (patch other node))
      | _ => json_object_set_member target name (JObject node)
      end
  | Some node => json_object_set_member target name node
  end.

Fixpoint patch_fuel (fuel : nat) (target override : object) : object :=
  match fuel with
  | O => target
  | S fuel' =>
      foldl (patch_member (patch_fuel fuel') override) target (json_object_get_members override)
  end.

Definition cockpit_json_patch (target override : object) : object :=
  patch_fuel (depth (JObject override)) target override.

(** ** Parsing *)

Section Parse.
Context (json_parser : list Z → option (option json)).  (* [Some None] is a missing root *)

Definition cockpit_json_parse (data : list Z) : option json :=
  match json_parser data with Some (Some root) => Some root | _ => None end.

Definition cockpit_json_parse_object (data : list Z) : option object :=
  match cockpit_json_parse data with Some (JObject o) => Some o | _ => None end.

Definition cockpit_json_parse_bytes (data : list Z) : option object :=
  if zlen data =? 0 then None else cockpit_json_parse_object data.
End Parse.

(** ** Writing *)

(** A byte of a string; [char] is signed, so bytes from 128 on are negative. *)
Definition strescape_char (c : Z) : list Z :=
  if (c =? 92) || (c =? 34) then [92; c]
  else if ((c >? 0) && (c <? 31)) || (c =? 127) then
    if c =? 8 then bs "\b"
    else if c =? 12 then bs "\f"
    else if c =? 10 then bs "\n"
    else if c =? 13 then bs "\r"
    else if c =? 9 then bs "\t"
    else bs "\u00" ++ [xdigit (c / 16); xdigit (c mod 16)]
  else [c].

Definition json_strescape (str : list Z) : list Z := cstr str ≫= strescape_char.

(** ["%" G_GINT64_FORMAT] *)
Definition render_i64 (n : Z) : list Z :=
  if n <? 0 then 45 :: digits_fuel 20 (- n) else digits_fuel 20 n.

(** ["\"%s\":"] *)
Definition dump_name (name : option (list Z)) : list Z :=
  match name with Some n => [34] ++ n ++ [34; 58] | None => [] end.

Section Write.
Context (g_ascii_dtostr : spec_float → list Z).

Definition finite (d : spec_float) : bool :=
  match d with S754_nan | S754_infinity _ => false | _ => true end.

Definition dump_value (name : option (list Z)) (node : json) : list Z :=
  dump_name name ++
  match node with
  | JInt n => render_i64 n
  | JDouble d => if finite d then g_ascii_dtostr d else bs "null"
  | JBool b => if b then bs "true" else bs "false"
  | JString s => [34] ++ json_strescape s ++ [34]
  | _ => []
  end.

(** A list of texts with commas between them. *)
Definition dump_items {A} (value : A → list Z) : list A → list Z :=
  fix go l :=
    match l with
    | [] => []
    | x :: l' => value x ++ (match l' with [] => [] | _ => [44] end) ++ go l'
    end.

Definition dump_array (dump : option (list Z) → json → list Z) (name : option (list Z))
    (array : list json) : list Z :=
  dump_name name ++ [91] ++ dump_items (dump None) array ++ [93].

Definition dump_object (dump : option (list Z) → json → list Z) (name : option (list Z))
    (o : object) : list Z :=
  dump_name name ++ [123] ++
  dump_items (λ m, dump (Some (json_strescape m.1)) m.2) o ++ [125].

(** The [switch] on the type of a node, with the name it is written under. *)
Fixpoint dump (name : option (list Z)) (node : json) : list Z :=
  match node with
  | JNull => dump_name name ++ bs "null"
  | JArray l => dump_array dump name l
  | JObject o => dump_object dump name o
  | _ => dump_value name node
  end.

Definition cockpit_json_write (node : json) : list Z := dump None node.
Definition cockpit_json_write_object (o : object) : list Z := cockpit_json_write (JObject o).
Definition cockpit_json_write_bytes (o : object) : list Z := cockpit_json_write_object o.
End Write.

(** ** Hash tables of strings *)

Definition cockpit_json_from_hash_table (table : gmap (list Z) (list Z)) (fields : list (list Z))
    : object :=
  foldl (λ block f, json_object_set_member block f
           match table !! f with Some v => JString v | None => JNull end) [] fields.

Definition cockpit_json_to_hash_table (o : object) (fields : list (list Z))
    : gmap (list Z) (list Z) :=
  foldl (λ table f, match cockpit_json_get_string o f None with
                    | Some (Some v) => <[f := v]> table
                    | _ => table
                    end) ∅ fields.

(** ** Walking *)

Section Walk.
Context (callback : json → option json).

(** The loop over elements: what has been passed, and the copy once there is one. *)
Definition walk_loop {A} (walk : A → option A) (add : list A → A → list A)
    : list A → option (list A) → list A → option (list A) :=
  fix go passed copy rest {struct rest} :=
    match rest with
    | [] => copy
    | e :: rest' =>
        let node := walk e in
        let copy := match node, copy with
                    | Some _, None => Some (foldl add [] passed)
                    | _, _ => copy
                    end in
        let copy := (λ c, add c (default e node)) <$> copy in
        go (passed ++ [e]) copy rest'
    end.

Definition add_element (copy : list json) (e : json) : list json := copy ++ [e].
Definition add_member (copy : object) (m : list Z * json) : object :=
  json_object_set_member copy m.1 m.2.

Fixpoint cockpit_json_walk_node (node : json) : option json :=
  match node with
  | JArray l => JArray <$> walk_loop cockpit_json_walk_node add_element [] None l
  | JObject o =>
      JObject <$> walk_loop (λ m, pair m.1 <$> cockpit_json_walk_node m.2) add_member [] None o
  | _ => callback node
  end.

Definition cockpit_json_walk (o : object) : object :=
  match cockpit_json_walk_node (JObject o) with Some (JObject copy) => copy | _ => o end.
End Walk.

(** ** Induction on trees *)

Section Induction.
Context (P : json → Prop).
Context (Hnull : P JNull) (Hbool : ∀ b, P (JBool b)) (Hint : ∀ n, P (JInt n)).
Context (Hdouble : ∀ d, P (JDouble d)) (Hstring : ∀ s, P (JString s)).
Context (Harray : ∀ l, Forall P l → P (JArray l)).
Context (Hobject : ∀ o : object, Forall (λ m, P m.2) o → P (JObject o)).

Fixpoint json_induction (j : json) : P j :=
  match j with
  | JNull => Hnull
  | JBool b => Hbool b
  | JInt n => Hint n
  | JDouble d => Hdouble d
  | JString s => Hstring s
  | JArray l => Harray l ((fix go l : Forall P l :=
      match l with
      | [] => Forall_nil_2 _
      | x :: l' => Forall_cons_2 _ x l' (json_induction x) (go l')
      end) l)
  | JObject o => Hobject o ((fix go o : Forall (λ m, P m.2) o :=
      match o with
      | [] => Forall_nil_2 _
      | m :: o' => Forall_cons_2 _ m o' (json_induction m.2) (go o')
      end) o)
  end.
End Induction.

(** Each name once, at every depth; a [JsonObject] is a hash table. *)
Fixpoint unique (j : json) : Prop :=
  match j with
  | JArray l => foldr (λ j P, unique j ∧ P) True l
  | JObject o => NoDup o.*1 ∧ foldr (λ m P, unique m.2 ∧ P) True o
  | _ => True
  end.

Lemma unique_array l : unique (JArray l) ↔ Forall unique l.
Proof. cbn. induction l as [|j l IH]; cbn; [done|]. rewrite Forall_cons. tauto. Qed.

Lemma unique_object (o : object) : unique (JObject o) ↔ NoDup o.*1 ∧ Forall (λ m, unique m.2) o.
Proof.
  cbn. assert (H : foldr (λ m P, unique m.2 ∧ P) True o ↔ Forall (λ m, unique m.2) o); [|tauto].
  induction o as [|m o IH]; cbn; [done|]. rewrite Forall_cons. tauto.
Qed.

(** ** Members by name *)

Lemma get_member_in (o : object) name v : json_object_get_member o name = Some v → (name, v) ∈ o.
Proof.
  induction o as [|[k w] o IH]; cbn; [done|]. destruct (decide (k = name)) as [->|].
  - intros [= ->]. by constructor.
  - intros H. constructor. by apply IH.
Qed.

Lemma get_member_none (o : object) name : json_object_get_member o name = None ↔ name ∉ o.*1.
Proof.
  induction o as [|[k w] o IH]; cbn; [by split; [intros _ H%elem_of_nil|]|].
  rewrite elem_of_cons. destruct (decide (k = name)) as [->|Hn].
  - split; [done|]. intros []. by left.
  - rewrite IH. split; [intros H [->|]; done|]. intros H Hin. apply H. by right.
Qed.

Lemma get_member_unique (o : object) name v :
  NoDup o.*1 → (name, v) ∈ o → json_object_get_member o name = Some v.
Proof.
  induction o as [|[k w] o IH]; cbn; [intros _ H%elem_of_nil; done|].
  intros [Hk Hnd]%NoDup_cons [[= -> ->]|H]%elem_of_cons.
  - by rewrite decide_True.
  - destruct (decide (k = name)) as [->|]; [|by apply IH].
    destruct Hk. apply list_elem_of_fmap. by exists (name, v).
Qed.

Lemma get_set_member (o : object) name v k :
  json_object_get_member (json_object_set_member o name v) k =
  if decide (name = k) then Some v else json_object_get_member o k.
Proof.
  induction o as [|[a w] o IH]; cbn; [by destruct (decide (name = k))|].
  destruct (decide (a = name)) as [->|Ha]; cbn.
  - by destruct (decide (name = k)).
  - rewrite IH. destruct (decide (a = k)) as [->|]; [|done].
    by destruct (decide (name = k)) as [->|].
Qed.

Lemma get_remove_member (o : object) name k :
  json_object_get_member (json_object_remove_member o name) k =
  if decide (name = k) then None else json_object_get_member o k.
Proof.
  unfold json_object_remove_member. induction o as [|[a w] o IH]; [by destruct (decide (name = k))|].
  destruct (decide (a = name)) as [->|Ha].
  - rewrite filter_cons_False by (cbn; tauto). rewrite IH. cbn. by destruct (decide (name = k)).
  - rewrite filter_cons_True by done. cbn. rewrite IH.
    destruct (decide (a = k)) as [->|]; [|done]. by destruct (decide (name = k)) as [->|].
Qed.

Lemma set_member_names (o : object) name v k :
  k ∈ (json_object_set_member o name v).*1 ↔ k = name ∨ k ∈ o.*1.
Proof.
  induction o as [|[a w] o IH]; cbn.
  - by rewrite elem_of_cons.
  - destruct (decide (a = name)) as [->|]; cbn; rewrite !elem_of_cons, ?IH; tauto.
Qed.

Lemma set_member_unique (o : object) name v :
  NoDup o.*1 → NoDup (json_object_set_member o name v).*1.
Proof.
  induction o as [|[a w] o IH]; cbn.
  - intros _. apply NoDup_cons. split; [apply not_elem_of_nil|apply NoDup_nil_2].
  - intros [Ha Hnd]%NoDup_cons. destruct (decide (a = name)) as [->|Hn]; cbn; apply NoDup_cons.
    + done.
    + split; [|by apply IH]. rewrite set_member_names. by intros [->|].
Qed.

Lemma remove_member_unique (o : object) name :
  NoDup o.*1 → NoDup (json_object_remove_member o name).*1.
Proof.
  unfold json_object_remove_member. induction o as [|[a w] o IH]; [done|].
  cbn [fmap list_fmap fst]. intros [Ha Hnd]%NoDup_cons.
  destruct (decide ((a, w).1 ≠ name)) as [H|H].
  - rewrite filter_cons_True by done. cbn. apply NoDup_cons. split; [|by apply IH].
    intros (m & -> & Hm%list_elem_of_filter)%list_elem_of_fmap. apply Ha.
    apply list_elem_of_fmap. exists m. tauto.
  - rewrite filter_cons_False by done. by apply IH.
Qed.

Lemma depth_pos j : (1 ≤ depth j)%nat.
Proof. destruct j; cbn; lia. Qed.

Lemma depth_element l j : j ∈ l → (depth j < depth (JArray l))%nat.
Proof.
  cbn. induction l as [|x l IH]; cbn; [by intros H%elem_of_nil|].
  intros [->|H]%elem_of_cons; [lia|]. specialize (IH H). lia.
Qed.

Lemma depth_member (o : object) m : m ∈ o → (depth m.2 < depth (JObject o))%nat.
Proof.
  cbn. induction o as [|x o IH]; cbn; [by intros H%elem_of_nil|].
  intros [->|H]%elem_of_cons; [lia|]. specialize (IH H). lia.
Qed.

(** ** Equality *)

(** The same value: objects are compared as maps, numbers of C as C does. *)
#[warnings="-register-all"]
Inductive json_eqv : json → json → Prop :=
| eqv_null : json_eqv JNull JNull
| eqv_bool b : json_eqv (JBool b) (JBool b)
| eqv_int n : json_eqv (JInt n) (JInt n)
| eqv_double p c : SFeqb p c = true → json_eqv (JDouble p) (JDouble c)
| eqv_string s : json_eqv (JString s) (JString s)
| eqv_array l l' : Forall2 json_eqv l l' → json_eqv (JArray l) (JArray l')
| eqv_object p c :
    (∀ k, json_object_get_member p k = None ↔ json_object_get_member c k = None) →
    (∀ k v w, json_object_get_member p k = Some v → json_object_get_member c k = Some w →
      json_eqv v w) →
    json_eqv (JObject p) (JObject c).

Lemma equal_names_forallb equal name l :
  (∀ n, name = Some n → equal n = true) → equal_names equal name l = forallb equal l.
Proof.
  revert name. induction l as [|n l IH]; intros name Hn; cbn; [done|].
  destruct (decide (name = Some n)) as [->|].
  - rewrite (Hn n eq_refl). by apply IH.
  - destruct (equal n) eqn:E; [|done]. apply IH. by intros m [= <-].
Qed.

Lemma equal_object_spec equal (p c : object) :
  cockpit_json_equal_object equal p c = true ↔
  ∀ k, k ∈ p.*1 ∨ k ∈ c.*1 →
    equal (json_object_get_member p k) (json_object_get_member c k) = true.
Proof.
  unfold cockpit_json_equal_object. rewrite equal_names_forallb by done. rewrite forallb_forall.
  assert (H : ∀ k, List.In k (merge_sort strcmp_le
      (json_object_get_members p ++ json_object_get_members c)) ↔ k ∈ p.*1 ∨ k ∈ c.*1).
  { intros k. rewrite <- list_elem_of_In, (merge_sort_Permutation strcmp_le), elem_of_app. done. }
  split; intros Hk k; [intros Hin; by apply Hk, H|intros Hin%H; by apply Hk].
Qed.

Lemma equal_elements_spec equal (R : json → json → Prop) l l' :
  (∀ a b, a ∈ l → equal (Some a) (Some b) = true ↔ R a b) →
  cockpit_json_equal_array equal l l' = true ↔ Forall2 R l l'.
Proof.
  intros H. unfold cockpit_json_equal_array. revert l' H. induction l as [|a l IH]; intros [|b l'] H.
  - split; [constructor|done].
  - split; [done|]. by intros ?%Forall2_nil_cons_inv.
  - split; [done|]. by intros ?%Forall2_cons_nil_inv.
  - cbn [length Nat.eqb equal_elements]. rewrite Forall2_cons.
    rewrite <- (H a b) by constructor. specialize (IH l').
    destruct (length l =? length l')%nat eqn:E.
    + destruct (equal (Some a) (Some b)); [|by split; [|intros []]].
      rewrite IH; [tauto|]. intros x y Hx. apply H. by constructor.
    + split; [done|]. intros [_ Hf]. apply Forall2_length in Hf.
      apply Nat.eqb_neq in E. lia.
Qed.

Lemma json_equal_fuel_spec fuel p c :
  (depth p ≤ fuel)%nat → json_equal_fuel fuel (Some p) (Some c) = true ↔ json_eqv p c.
Proof.
  revert p c. induction fuel as [|fuel IH]; intros p c Hf; [pose proof (depth_pos p); lia|].
  destruct p, c; cbn [json_equal_fuel]; try (by split; [done|inversion 1]).
  - split; [constructor|done].
  - rewrite Bool.eqb_true_iff. split; [intros ->; constructor|by inversion 1].
  - rewrite Z.eqb_eq. split; [intros ->; constructor|by inversion 1].
  - split; [by constructor|by inversion 1].
  - rewrite bool_decide_eq_true. split; [intros ->; constructor|by inversion 1].
  - rewrite (equal_elements_spec _ json_eqv).
    + split; [by constructor|by inversion 1].
    + intros a b Ha. apply IH. pose proof (depth_element _ _ Ha). lia.
  - rewrite equal_object_spec. rename members into p, members0 into c.
    assert (Hd : ∀ k v, json_object_get_member p k = Some v → (depth v ≤ fuel)%nat).
    { intros k v Hv. apply get_member_in, depth_member in Hv. cbn [snd] in Hv. lia. }
    split.
    + intros H. constructor.
      * intros k. rewrite !get_member_none. split; intros Hk Hin;
          (assert (E := H k ltac:(tauto))); rewrite <- get_member_none in Hk; rewrite Hk in E;
          destruct fuel; [done| |done|].
        -- destruct (json_object_get_member c k) eqn:Ec; [done|]. by apply get_member_none in Ec.
        -- destruct (json_object_get_member p k) as [[]|] eqn:Ep; try done. by apply get_member_none in Ep.
      * intros k v w Hv Hw. apply IH; [by eapply Hd|]. rewrite <- Hv, <- Hw. apply H. left.
        apply get_member_in in Hv. apply list_elem_of_fmap. by exists (k, v).
    + inversion 1 as [| | | | | |? ? Hn Hv]. subst. intros k Hk.
      destruct (json_object_get_member p k) as [v|] eqn:Ev.
      * destruct (json_object_get_member c k) as [w|] eqn:Ew.
        -- apply IH; [by eapply Hd|by eapply Hv].
        -- apply Hn in Ew. congruence.
      * pose proof (proj1 (Hn k) Ev) as Ew. apply get_member_none in Ev, Ew. tauto.
Qed.

(** ** Patching *)

(** What a member of the result is. *)
Definition patched (patch : object → object → object) (old new : option json) : option json :=
  match new with
  | None => old
  | Some JNull => None
  | Some (JObject node) =>
      match old with
      | Some (JObject other) => Some (JObject (patch other node))
      | _ => new
      end
  | Some _ => new
  end.

Lemma get_patch_member patch (override target : object) name k :
  json_object_get_member (patch_member patch override target name) k =
  if decide (name = k)
  then patched patch (json_object_get_member target k) (json_object_get_member override k)
  else json_object_get_member target k.
Proof.
  unfold patch_member. destruct (decide (name = k)) as [->|Hn].
  - destruct (json_object_get_member override k) as [[]|]; cbn;
      rewrite ?get_remove_member, ?get_set_member, ?decide_True by done; try done.
    destruct (json_object_get_member target k) as [[]|]; by rewrite get_set_member, decide_True.
  - destruct (json_object_get_member override name) as [[]|];
      rewrite ?get_remove_member, ?get_set_member, ?decide_False by done; try done.
    destruct (json_object_get_member target name) as [[]|]; by rewrite get_set_member, decide_False.
Qed.

Lemma get_patch_loop patch (override target : object) names k :
  NoDup names →
  json_object_get_member (foldl (patch_member patch override) target names) k =
  if decide (k ∈ names)
  then patched patch (json_object_get_member target k) (json_object_get_member override k)
  else json_object_get_member target k.
Proof.
  intros Hnd. revert target. induction Hnd as [|n names Hn Hnd IH]; intros target; cbn [foldl].
  { by rewrite decide_False by apply not_elem_of_nil. }
  rewrite IH, get_patch_member. destruct (decide (k ∈ names)) as [Hk|Hk].
  - rewrite decide_False by (intros ->; done). by rewrite decide_True by by constructor.
  - destruct (decide (n = k)) as [->|Hnk].
    + by rewrite decide_True by constructor.
    + rewrite decide_False; [done|]. by intros [->|]%elem_of_cons.
Qed.

Lemma patch_fuel_members fuel (target override : object) k :
  NoDup override.*1 → (0 < fuel)%nat →
  json_object_get_member (patch_fuel fuel target override) k =
  patched (patch_fuel (pred fuel)) (json_object_get_member target k)
    (json_object_get_member override k).
Proof.
  intros Hnd Hf. destruct fuel as [|fuel]; [lia|]. cbn [patch_fuel pred].
  rewrite get_patch_loop by done. unfold json_object_get_members.
  destruct (decide (k ∈ override.*1)) as [|Hk]; [done|].
  apply get_member_none in Hk. by rewrite Hk.
Qed.

Lemma patch_member_ext patch patch' (override target : object) name :
  (∀ o t, json_object_get_member override name = Some (JObject o) → patch t o = patch' t o) →
  patch_member patch override target name = patch_member patch' override target name.
Proof.
  intros H. unfold patch_member. destruct (json_object_get_member override name) as [[]|] eqn:E; try done.
  destruct (json_object_get_member target name) as [[]|]; try done. by rewrite (H _ _ eq_refl).
Qed.

(** More fuel than the depth makes no difference. *)
Lemma patch_fuel_enough f f' (target override : object) :
  (depth (JObject override) ≤ f)%nat → (depth (JObject override) ≤ f')%nat →
  patch_fuel f target override = patch_fuel f' target override.
Proof.
  revert f' target override. induction f as [|f IH]; intros [|f'] target override Hf Hf';
    try (pose proof (depth_pos (JObject override)); lia).
  cbn [patch_fuel]. generalize (json_object_get_members override). intros names. revert target.
  induction names as [|n names IHn]; intros target; cbn [foldl]; [done|].
  rewrite (patch_member_ext _ (patch_fuel f')); [apply IHn|].
  intros o t Ho. apply get_member_in, depth_member in Ho. cbn [snd] in Ho. apply IH; lia.
Qed.

Lemma patch_members (target override : object) k :
  NoDup override.*1 →
  json_object_get_member (cockpit_json_patch target override) k =
  patched cockpit_json_patch (json_object_get_member target k)
    (json_object_get_member override k).
Proof.
  intros Hnd. unfold cockpit_json_patch at 1. rewrite patch_fuel_members by (done || apply depth_pos).
  destruct (json_object_get_member override k) as [[]|] eqn:E; try done. cbn [patched].
  destruct (json_object_get_member target k) as [[]|]; try done. do 2 f_equal.
  apply get_member_in, depth_member in E. cbn [snd] in E. unfold cockpit_json_patch.
  apply patch_fuel_enough; lia.
Qed.

Lemma patch_member_unique patch (override target : object) name :
  NoDup target.*1 → NoDup (patch_member patch override target name).*1.
Proof.
  intros H. unfold patch_member. destruct (json_object_get_member override name) as [[]|];
    try by apply set_member_unique.
  - by apply remove_member_unique.
  - destruct (json_object_get_member target name) as [[]|]; by apply set_member_unique.
  - done.
Qed.

Lemma patch_unique (target override : object) :
  NoDup target.*1 → NoDup (cockpit_json_patch target override).*1.
Proof.
  unfold cockpit_json_patch. destruct (depth (JObject override)) as [|f]; [done|]. cbn [patch_fuel].
  generalize (json_object_get_members override). intros names. revert target.
  induction names as [|n names IH]; intros target H; [done|]. cbn [foldl].
  by apply IH, patch_member_unique.
Qed.

(** ** Walking *)

Section WalkLoop.
Context {A : Type} (walk : A → option A) (add : list A → A → list A) (V : list A → Prop).
Context (add_snoc : ∀ l e, V (l ++ [e]) → add l e = l ++ [e]).
Context (V_prefix : ∀ l e, V (l ++ [e]) → V l).

Lemma foldl_add l : V l → foldl add [] l = l.
Proof.
  induction l as [|e l IH] using rev_ind; intros H; [done|].
  rewrite foldl_app. cbn. rewrite IH by by eapply V_prefix. by apply add_snoc.
Qed.

Lemma V_app l r : V (l ++ r) → V l.
Proof.
  induction r as [|e r IH] using rev_ind; [by rewrite app_nil_r|].
  rewrite app_assoc. intros H. apply IH. by eapply V_prefix.
Qed.

(** The loop replaces what [walk] replaces, and copies only if it has to. *)
Lemma walk_loop_spec (repl : A → A) passed copy rest :
  (∀ e, e ∈ rest → repl e = default e (walk e)) →
  V (passed ++ rest) → V ((repl <$> passed) ++ (repl <$> rest)) →
  match copy with Some c => c = repl <$> passed | None => repl <$> passed = passed end →
  match walk_loop walk add passed copy rest with
  | Some c => c = repl <$> (passed ++ rest)
  | None => repl <$> (passed ++ rest) = passed ++ rest
  end.
Proof.
  revert passed copy. induction rest as [|e rest IH]; intros passed copy Hw HV HV' Hc; cbn.
  { rewrite app_nil_r. by destruct copy. }
  replace (passed ++ e :: rest) with ((passed ++ [e]) ++ rest) in * by by rewrite <- app_assoc.
  assert (He : repl e = default e (walk e)) by (apply Hw; constructor).
  assert (HVp : V (passed ++ [e])) by by eapply V_app.
  assert (HVr : V ((repl <$> passed) ++ [repl e])).
  { apply (V_app _ (repl <$> rest)). by rewrite <- app_assoc. }
  apply IH; [intros x Hx; apply Hw; by constructor|done| |].
  - rewrite fmap_app, <- app_assoc. done.
  - rewrite fmap_app. change (repl <$> [e]) with [repl e]. rewrite <- He. destruct copy as [c|].
    + subst c. destruct (walk e); cbn; by apply add_snoc.
    + destruct (walk e) as [n|] eqn:E; cbn in He |- *; [|by rewrite Hc, He].
      rewrite foldl_add by by eapply V_prefix. rewrite <- Hc at 1. by apply add_snoc.
Qed.
End WalkLoop.

Section WalkSpec.
Context (callback : json → option json).

(** Every simple value replaced where the callback says so. *)
Fixpoint replace_values (j : json) : json :=
  match j with
  | JArray l => JArray (replace_values <$> l)
  | JObject o => JObject ((λ m, (m.1, replace_values m.2)) <$> o)
  | _ => default j (callback j)
  end.

Lemma replace_names (o : object) : ((λ m, (m.1, replace_values m.2)) <$> o).*1 = o.*1.
Proof. induction o as [|m o IH]; [done|]. cbn. by rewrite IH. Qed.

Lemma add_member_snoc (o : object) (m : list Z * json) : NoDup (o ++ [m]).*1 → add_member o m = o ++ [m].
Proof.
  destruct m as [k v]. unfold add_member. cbn. rewrite fmap_app. cbn.
  intros (_ & Hk & _)%NoDup_app. assert (Hn : k ∉ o.*1).
  { intros H. apply (Hk k H). constructor. }
  clear Hk. induction o as [|[a w] o IH]; [done|]. cbn in *. rewrite not_elem_of_cons in Hn.
  rewrite decide_False by (intros ->; tauto). rewrite IH; tauto.
Qed.

Lemma names_prefix (o : object) m : NoDup (o ++ [m]).*1 → NoDup o.*1.
Proof. rewrite fmap_app. by intros [? _]%NoDup_app. Qed.

Lemma walk_node_spec j :
  unique j → replace_values j = default j (cockpit_json_walk_node callback j).
Proof.
  induction j as [| | | | |l IH|o IH] using json_induction; try done.
  - rewrite unique_array. intros Hu. cbn.
    pose proof (walk_loop_spec (cockpit_json_walk_node callback) add_element (λ _, True)
      (λ l e _, eq_refl) (λ _ _ _, I) replace_values [] None l) as H.
    cbn [app fmap list_fmap] in H. specialize (H ltac:(
      intros e He; rewrite Forall_forall in IH, Hu; by apply IH, Hu) I I eq_refl).
    destruct (walk_loop _ _ [] None l) as [c|]; cbn; by rewrite H.
  - rewrite unique_object. intros [Hnd Hu]. cbn.
    pose proof (walk_loop_spec (λ m, pair m.1 <$> cockpit_json_walk_node callback m.2) add_member
      (λ l, NoDup l.*1) add_member_snoc) as H.
    specialize (H names_prefix (λ m, (m.1, replace_values m.2)) [] None o).
    cbn [app fmap list_fmap] in H. fold (fmap (M := list) (λ m : list Z * json, (m.1, replace_values m.2))) in H.
    assert (Hm : ∀ e, e ∈ o → (e.1, replace_values e.2) =
              default e (pair e.1 <$> cockpit_json_walk_node callback e.2)).
    { intros [k v] He. rewrite Forall_forall in IH, Hu. specialize (IH _ He (Hu _ He)). cbn in *.
      rewrite IH. by destruct (cockpit_json_walk_node callback v). }
    specialize (H Hm Hnd). change (list_fmap _ _ (λ m : list Z * json, (m.1, replace_values m.2)) o)
      with ((λ m : list Z * json, (m.1, replace_values m.2)) <$> o) in H.
    rewrite replace_names in H. specialize (H Hnd eq_refl).
    destruct (walk_loop _ _ [] None o) as [c|]; cbn; by rewrite H.
Qed.
End WalkSpec.

(** ** Reading texts back *)

(** The characters that follow a backslash, [u] apart. *)
Definition unescape (e : Z) : option Z :=
  if (e =? 92) || (e =? 34) || (e =? 47) then Some e
  else if e =? 98 then Some 8
  else if e =? 102 then Some 12
  else if e =? 110 then Some 10
  else if e =? 114 then Some 13
  else if e =? 116 then Some 9 else None.

(** A string after its opening quote; control characters have to be escaped. *)
Fixpoint read_jstring (s : list Z) : option (list Z * list Z) :=
  match s with
  | [] => None
  | c :: s1 =>
      if c =? 34 then Some ([], s1)
      else if c =? 92 then
        match s1 with
        | e :: s2 =>
            if e =? 117 then
              match s2 with
              | h3 :: h2 :: h1 :: h0 :: s3 =>
                  a ← unxdigit h3; b ← unxdigit h2; c ← unxdigit h1; d ← unxdigit h0;
                  let code := ((a * 16 + b) * 16 + c) * 16 + d in
                  if code <? 128 then '(t, r) ← read_jstring s3; Some (code :: t, r) else None
              | _ => None
              end
            else x ← unescape e; '(t, r) ← read_jstring s2; Some (x :: t, r)
        | [] => None
        end
      else if c >=? 32 then '(t, r) ← read_jstring s1; Some (c :: t, r)
      else None
  end.

(** Items up to the closing bracket, with commas between them. *)
Fixpoint read_list {A} (read : list Z → option (A * list Z)) (close : Z) (n : nat) (s : list Z)
    : option (list A * list Z) :=
  match n with
  | O => None
  | S n' =>
      '(x, s) ← read s;
      match s with
      | c :: s' =>
          if c =? 44 then '(l, r) ← read_list read close n' s'; Some (x :: l, r)
          else if c =? close then Some ([x], s') else None
      | [] => None
      end
  end.

Definition read_items {A} (read : list Z → option (A * list Z)) (close : Z) (s : list Z)
    : option (list A * list Z) :=
  match s with
  | c :: r => if c =? close then Some ([], r) else read_list read close (length s) s
  | [] => None
  end.

(** *** Numbers: what has been scanned, and what follows *)

Definition scan_digits (s : list Z) : option (list Z * list Z) :=
  match read_digits s with ([], _) => None | x => Some x end.

Definition scan_fraction (s : list Z) : option (list Z * list Z) :=
  match s with
  | c :: s' => if c =? 46 then '(d, r) ← scan_digits s'; Some (c :: d, r) else Some ([], s)
  | [] => Some ([], [])
  end.

Definition scan_exponent (s : list Z) : option (list Z * list Z) :=
  match s with
  | c :: s' =>
      if (c =? 101) || (c =? 69) then
        match s' with
        | x :: s'' =>
            if (x =? 43) || (x =? 45) then '(d, r) ← scan_digits s''; Some (c :: x :: d, r)
            else '(d, r) ← scan_digits s'; Some (c :: d, r)
        | [] => None
        end
      else Some ([], s)
  | [] => Some ([], [])
  end.

(** A number without its sign: its text, and its value when it has neither a fraction nor an exponent; a numeral has no
    leading zero. *)
Definition scan_magnitude (s : list Z) : option (list Z * option Z * list Z) :=
  '(d, s) ← scan_digits s;
  if bool_decide (head d = Some 48) && negb (bool_decide (tail d = [])) then None else
  '(f, s) ← scan_fraction s;
  '(e, s) ← scan_exponent s;
  Some (d ++ f ++ e, if bool_decide (f ++ e = []) then Some (dec_value d) else None, s).

Definition scan_number (s : list Z) : option (list Z * option Z * list Z) :=
  match s with
  | c :: s' => if c =? 45 then '(w, v, r) ← scan_magnitude s'; Some (c :: w, option_map Z.opp v, r) else scan_magnitude s
  | [] => None
  end.

(** The text is a number of RFC 8259. *)
Definition numeral (w : list Z) : Prop := ∃ v, scan_number w = Some (w, v, []).

Section Reader.
Context (g_ascii_strtod : list Z → option spec_float).

(** Numbers with a fraction or an exponent are doubles. *)
Definition read_number (s : list Z) : option (json * list Z) :=
  '(w, v, r) ← scan_number s;
  match v with
  | Some n => Some (JInt n, r)
  | None => d ← g_ascii_strtod w; Some (JDouble d, r)
  end.

Fixpoint read_json (fuel : nat) (s : list Z) : option (json * list Z) :=
  match fuel, s with
  | S fuel', c :: s' =>
      if c =? 34 then '(t, r) ← read_jstring s'; Some (JString t, r)
      else if c =? 91 then
        '(l, r) ← read_items (read_json fuel') 93 s'; Some (JArray l, r)
      else if c =? 123 then
        '(o, r) ← read_items (λ s, s ← expect [34] s; '(k, s) ← read_jstring s; s ← expect [58] s;
                                   '(v, s) ← read_json fuel' s; Some ((k, v), s)) 125 s';
        Some (JObject o, r)
      else if c =? 110 then r ← expect (bs "null") s; Some (JNull, r)
      else if c =? 116 then r ← expect (bs "true") s; Some (JBool true, r)
      else if c =? 102 then r ← expect (bs "false") s; Some (JBool false, r)
      else read_number s
  | _, _ => None
  end.

Definition read_text (s : list Z) : option json :=
  match read_json (length s) s with Some (j, []) => Some j | _ => None end.
End Reader.

(** The strings that are written so that they can be read *)
Definition plain_text (s : list Z) : Prop := Forall (λ c, 0 < c < 256 ∧ c ≠ 31) s.

Section Written.
Context (dtostr : spec_float → list Z) (strtod : list Z → option spec_float).

(** Trees of such strings, of integers of 64 bits, and of any doubles: the text of a finite one is a number from which
    [g_ascii_strtod] gives it back. *)
Fixpoint writable (j : json) : Prop :=
  match j with
  | JInt n => - 2 ^ 63 ≤ n < 2 ^ 63
  | JDouble (S754_nan | S754_infinity _) => True
  | JDouble d => numeral (dtostr d) ∧ strtod (dtostr d) = Some d
  | JString s => plain_text s
  | JArray l => foldr (λ j P, writable j ∧ P) True l
  | JObject o => foldr (λ m P, (plain_text m.1 ∧ writable m.2) ∧ P) True o
  | _ => True
  end.

(** What is read where a tree has been written: [null] for a double that is not finite, and an integer for a double
    whose text has neither a fraction nor an exponent *)
Fixpoint written (j : json) : json :=
  match j with
  | JDouble (S754_nan | S754_infinity _) => JNull
  | JDouble d => match scan_number (dtostr d) with Some (_, Some n, _) => JInt n | _ => j end
  | JArray l => JArray (written <$> l)
  | JObject o => JObject ((λ m, (m.1, written m.2)) <$> o)
  | _ => j
  end.

Lemma writable_array l : writable (JArray l) ↔ Forall writable l.
Proof. cbn. induction l as [|j l IH]; cbn; [done|]. rewrite Forall_cons. tauto. Qed.

Lemma writable_object (o : object) :
  writable (JObject o) ↔ Forall (λ m, plain_text m.1 ∧ writable m.2) o.
Proof. cbn. induction o as [|m o IH]; cbn; [done|]. rewrite Forall_cons. tauto. Qed.
End Written.

Lemma read_jstring_char c s :
  0 < c < 256 → c ≠ 31 →
  read_jstring (strescape_char c ++ s) = ('(t, r) ← read_jstring s; Some (c :: t, r)).
Proof.
  intros Hc H31. unfold strescape_char.
  destruct (c =? 92) eqn:A7; [by to_prop; subst|].
  destruct (c =? 34) eqn:A8; [by to_prop; subst|]. cbn [orb].
  destruct (((c >? 0) && (c <? 31)) || (c =? 127)) eqn:E2.
  - destruct (c =? 8) eqn:A1; [by to_prop; subst|].
    destruct (c =? 12) eqn:A2; [by to_prop; subst|].
    destruct (c =? 10) eqn:A3; [by to_prop; subst|].
    destruct (c =? 13) eqn:A4; [by to_prop; subst|].
    destruct (c =? 9) eqn:A5; [by to_prop; subst|].
    assert (Hr : c < 128).
    { apply orb_true_iff in E2 as [E2|E2]; [apply andb_true_iff in E2 as [_ E2]|]; to_prop; lia. }
    change (read_jstring (92 :: 117 :: 48 :: 48 :: xdigit (c / 16) :: xdigit (c mod 16) :: s) =
            ('(t, r) ← read_jstring s; Some (c :: t, r))).
    cbn [read_jstring Z.eqb Pos.eqb]. change (unxdigit 48) with (Some 0). cbn [mbind option_bind].
    rewrite !unxdigit_xdigit by lia. cbn [mbind option_bind].
    replace (((0 * 16 + 0) * 16 + c / 16) * 16 + c mod 16) with c by lia.
    by rewrite (proj2 (Z.ltb_lt _ _)) by done.
  - assert (Hge : 32 ≤ c).
    { apply orb_false_iff in E2 as [E2 _]. apply andb_false_iff in E2 as [E2|E2]; to_prop; lia. }
    cbn. by rewrite A8, A7, Z.geb_leb, (proj2 (Z.leb_le _ _)) by done.
Qed.

Lemma read_jstring_escaped s rest :
  plain_text s →
  read_jstring ((s ≫= strescape_char) ++ rest) = ('(t, r) ← read_jstring rest; Some (s ++ t, r)).
Proof.
  induction 1 as [|c s [Hc H31] _ IH]; [by cbn; destruct (read_jstring rest) as [[]|]|].
  cbn [mbind list_bind]. rewrite <- app_assoc, read_jstring_char by done.
  fold (mbind (M := list) strescape_char s). rewrite IH. by destruct (read_jstring rest) as [[]|].
Qed.

Lemma plain_cstr s t : plain_text s → cstr (s ++ t) = s ++ cstr t.
Proof. induction 1 as [|c s [Hc _] _ IH]; [done|]. cbn. rewrite IH. by rewrite (proj2 (Z.eqb_neq c 0)) by lia. Qed.

Lemma read_jstring_text s r :
  plain_text s → read_jstring (json_strescape s ++ 34 :: r) = Some (s, r).
Proof.
  intros Hs. unfold json_strescape. rewrite <- (app_nil_r s) at 1. rewrite plain_cstr by done.
  change (cstr []) with (@nil Z). rewrite app_nil_r, read_jstring_escaped by done. cbn.
  by rewrite app_nil_r.
Qed.

(** No number goes on there. *)
Definition ends (r : list Z) : Prop :=
  match r with [] => True | c :: _ => isdigit c = false ∧ c ∉ bs "+-.eE" end.

(** Nothing that follows changes what is scanned. *)
Definition followed_by {A} (r : list Z) (x : A * list Z) : A * list Z := (x.1, x.2 ++ r).

Lemma ends_close c : c = 44 ∨ c = 93 ∨ c = 125 → ends [c].
Proof. intros [->|[->| ->]]; (split; [done|by_decide]). Qed.

Lemma ends_cons c r : ends [c] → ends (c :: r).
Proof. done. Qed.

Lemma ends_comma r : ends (44 :: r).
Proof. apply ends_cons, ends_close. auto. Qed.
#[local] Hint Resolve ends_cons ends_comma list_elem_of_here : core.

Lemma read_digits_followed s r : ends r → read_digits (s ++ r) = followed_by r (read_digits s).
Proof.
  intros Hr. induction s as [|c s IH].
  - destruct r as [|c r]; [done|]. cbn in *. destruct Hr as [-> _]. done.
  - cbn. destruct (isdigit c); [|done]. rewrite IH. by destruct (read_digits s).
Qed.

Lemma scan_digits_followed s r : ends r → scan_digits (s ++ r) = followed_by r <$> scan_digits s.
Proof. intros Hr. unfold scan_digits. rewrite read_digits_followed by done. by destruct (read_digits s) as [[|c d] t]. Qed.

Lemma ends_char c r : ends (c :: r) → c ≠ 43 ∧ c ≠ 45 ∧ c ≠ 46 ∧ c ≠ 101 ∧ c ≠ 69.
Proof. intros [_ H]. change (c ∉ [43; 45; 46; 101; 69]) in H. set_solver. Qed.

Lemma scan_fraction_followed s r : ends r → scan_fraction (s ++ r) = followed_by r <$> scan_fraction s.
Proof.
  intros Hr. destruct s as [|c s]; cbn [app scan_fraction].
  - destruct r as [|c r]; [done|]. pose proof (ends_char _ _ Hr). cbn. by rewrite (proj2 (Z.eqb_neq c 46)) by lia.
  - destruct (c =? 46); [|done]. rewrite scan_digits_followed by done. by destruct (scan_digits s) as [[]|].
Qed.

Lemma scan_exponent_followed s r : ends r → scan_exponent (s ++ r) = followed_by r <$> scan_exponent s.
Proof.
  intros Hr. destruct s as [|c s]; cbn [app scan_exponent].
  - destruct r as [|c r]; [done|]. pose proof (ends_char _ _ Hr). cbn. by rewrite (proj2 (Z.eqb_neq c 101)), (proj2 (Z.eqb_neq c 69)) by lia.
  - destruct ((c =? 101) || (c =? 69)); [|done]. destruct s as [|x s]; cbn [app].
    + destruct r as [|x r]; [done|]. pose proof (ends_char _ _ Hr). rewrite (proj2 (Z.eqb_neq x 43)), (proj2 (Z.eqb_neq x 45)) by lia.
      cbn [orb]. unfold scan_digits. cbn. by destruct Hr as [-> _].
    + destruct ((x =? 43) || (x =? 45)).
      * rewrite scan_digits_followed by done. by destruct (scan_digits s) as [[]|].
      * rewrite app_comm_cons, scan_digits_followed by done. by destruct (scan_digits (x :: s)) as [[]|].
Qed.

Lemma scan_magnitude_followed s r : ends r → scan_magnitude (s ++ r) = followed_by r <$> scan_magnitude s.
Proof.
  intros Hr. unfold scan_magnitude. rewrite scan_digits_followed by done.
  destruct (scan_digits s) as [[d t]|]; cbn; [|done]. destruct (_ && _); [done|].
  rewrite scan_fraction_followed by done. destruct (scan_fraction t) as [[f t']|]; cbn; [|done].
  rewrite scan_exponent_followed by done. by destruct (scan_exponent t') as [[]|].
Qed.

Lemma scan_number_followed s r : s ≠ [] → ends r → scan_number (s ++ r) = followed_by r <$> scan_number s.
Proof.
  intros Hs Hr. destruct s as [|c s]; [done|]. cbn [app scan_number]. destruct (c =? 45).
  - rewrite scan_magnitude_followed by done. by destruct (scan_magnitude s) as [[[]]|].
  - by apply (scan_magnitude_followed (c :: s)).
Qed.

Lemma numeral_nonempty w : numeral w → w ≠ [].
Proof. by intros [v Hv] ->. Qed.

(** A number begins with a digit or a sign. *)
Lemma numeral_head w : numeral w → ∃ c t, w = c :: t ∧ (c = 45 ∨ 48 ≤ c ≤ 57).
Proof.
  intros [v Hv]. destruct w as [|c t]; [done|]. exists c, t. split; [done|]. cbn [scan_number] in Hv.
  destruct (Z.eqb_spec c 45) as [|]; [by left|right]. apply isdigit_range. unfold scan_magnitude, scan_digits in Hv.
  cbn [read_digits] in Hv. by destruct (isdigit c).
Qed.

Lemma read_digits_all d : digits d → read_digits d = (d, []).
Proof. induction 1 as [|c d Hc _ IH]; [done|]. cbn. by rewrite Hc, IH. Qed.

Lemma scan_magnitude_digits n : 0 ≤ n < 10 ^ 20 →
  scan_magnitude (digits_fuel 20 n) = Some (digits_fuel 20 n, Some n, []).
Proof.
  intros Hn. pose proof (digits_fuel_value 20 n Hn) as Hv. pose proof (digits_fuel_digits 20 n ltac:(lia)) as Hd.
  destruct (decide (n = 0)) as [->|H0]; [done|]. destruct (digits_fuel_canonical 20 n) as (_ & c & l & E & Hc); [lia|].
  unfold scan_magnitude, scan_digits. rewrite read_digits_all by done. rewrite E in *. cbn -[dec_value].
  rewrite bool_decide_eq_false_2 by congruence. cbn -[dec_value]. by rewrite app_nil_r, Hv.
Qed.

(** *** The integers are numbers. *)
Lemma scan_render n : - 2 ^ 63 ≤ n < 2 ^ 63 → scan_number (render_i64 n) = Some (render_i64 n, Some n, []).
Proof.
  intros Hn. unfold render_i64. destruct (n <? 0) eqn:E; to_prop.
  - cbn [scan_number Z.eqb Pos.eqb]. rewrite scan_magnitude_digits by lia. cbn. by rewrite Z.opp_involutive.
  - destruct (digits_fuel_nonempty 19 n) as (c & t & Ec). pose proof (digits_fuel_digits 20 n E) as Hd.
    pose proof (scan_magnitude_digits n ltac:(lia)) as Hs. rewrite Ec in *.
    apply Forall_cons in Hd as [Hc _]. apply isdigit_range in Hc. cbn [scan_number].
    by rewrite (proj2 (Z.eqb_neq c 45)) by lia.
Qed.

Lemma read_list_items {A B} (read : list Z → option (B * list Z)) close (f : A → list Z) (g : A → B) l n r :
  l ≠ [] → close ≠ 44 → ends [close] → (length l ≤ n)%nat →
  (∀ x r, x ∈ l → ends r → read (f x ++ r) = Some (g x, r)) →
  read_list read close n (dump_items f l ++ close :: r) = Some (g <$> l, r).
Proof.
  intros Hne Hc Hd. revert n. induction l as [|x l IH]; intros [|n] Hn Hr; try done; [cbn in Hn; lia|].
  cbn [dump_items]. rewrite <- !app_assoc. cbn [read_list].
  destruct l as [|y l].
  - cbn [app dump_items]. rewrite Hr by auto. cbn [mbind option_bind].
    by rewrite (proj2 (Z.eqb_neq _ _)), Z.eqb_refl by done.
  - cbn [app]. rewrite Hr by auto. cbn [mbind option_bind app Z.eqb Pos.eqb].
    rewrite IH; [done|done|cbn in *; lia|]. intros z s Hz. apply Hr. by constructor.
Qed.

Lemma dump_items_length {A} (f : A → list Z) l : (length l ≤ S (length (dump_items f l)))%nat.
Proof.
  induction l as [|x [|y l] IH]; [cbn; lia|cbn; lia|].
  change (dump_items f (x :: y :: l)) with (f x ++ [44] ++ dump_items f (y :: l)).
  rewrite !length_app. cbn [length] in *. lia.
Qed.

Lemma read_items_dump {A B} (read : list Z → option (B * list Z)) close (f : A → list Z) (g : A → B) l r :
  close ≠ 44 → ends [close] →
  (∀ x, x ∈ l → ∃ c t, f x = c :: t ∧ c ≠ close) →
  (∀ x r, x ∈ l → ends r → read (f x ++ r) = Some (g x, r)) →
  read_items read close (dump_items f l ++ close :: r) = Some (g <$> l, r).
Proof.
  intros Hc Hd Hh Hr. destruct l as [|x l]; [cbn; by rewrite Z.eqb_refl|].
  assert (Hlen : (length (x :: l) ≤ length (dump_items f (x :: l) ++ close :: r))%nat).
  { rewrite length_app. pose proof (dump_items_length f (x :: l)). cbn [length] in *. lia. }
  destruct (Hh x) as (c & t & E & Hn); [constructor|].
  assert (Hs : ∃ s, dump_items f (x :: l) ++ close :: r = c :: s).
  { cbn. rewrite E. cbn. by eexists. }
  destruct Hs as [s Es]. unfold read_items. rewrite Es, (proj2 (Z.eqb_neq _ _)) by done.
  rewrite <- Es. by apply read_list_items.
Qed.

Section ReadBack.
Context (dtostr : spec_float → list Z) (strtod : list Z → option spec_float).
#[local] Abbreviation writable := (writable dtostr strtod).
#[local] Abbreviation written := (written dtostr).
#[local] Abbreviation read_json := (read_json strtod).

Lemma dump_named name j : dump dtostr name j = dump_name name ++ dump dtostr None j.
Proof. by destruct j. Qed.

Lemma numeral_render n : - 2 ^ 63 ≤ n < 2 ^ 63 → numeral (render_i64 n).
Proof. intros Hn. eexists. by apply scan_render. Qed.

(** The first character says what follows. *)
Lemma dump_head j :
  writable j → ∃ c t, dump dtostr None j = c :: t ∧ c ≠ 93 ∧ c ≠ 125.
Proof.
  assert (Hnum : ∀ w, numeral w → ∃ c t, w = c :: t ∧ c ≠ 93 ∧ c ≠ 125).
  { intros w (c & t & -> & Hc)%numeral_head. exists c, t. split; [done|]. lia. }
  destruct j as [|b|n|d|s|l|o]; intros Hw.
  - by eexists 110, _.
  - destruct b; [by eexists 116, _|by eexists 102, _].
  - by apply Hnum, numeral_render.
  - destruct d; try (by eexists 110, _); by apply Hnum, Hw.
  - by eexists 34, _.
  - by eexists 91, _.
  - by eexists 123, _.
Qed.

Lemma read_json_number fuel w r :
  numeral w → ends r → read_json (S fuel) (w ++ r) = followed_by r <$> read_number strtod w.
Proof.
  intros Hw Hr. assert (E : read_json (S fuel) (w ++ r) = read_number strtod (w ++ r)).
  { destruct (numeral_head w Hw) as (c & t & -> & Hc). cbn [app]. cbn [Json.read_json].
    by repeat (rewrite (proj2 (Z.eqb_neq c _)) by lia). }
  rewrite E. unfold read_number. rewrite scan_number_followed by (by apply numeral_nonempty || done).
  destruct Hw as [v ->]. cbn. destruct v; [done|]. by destruct (strtod w).
Qed.

Lemma read_json_int fuel n r :
  - 2 ^ 63 ≤ n < 2 ^ 63 → ends r → read_json (S fuel) (render_i64 n ++ r) = Some (JInt n, r).
Proof.
  intros Hn Hr. rewrite read_json_number by (by apply numeral_render || done). unfold read_number. by rewrite scan_render.
Qed.

Lemma read_json_double fuel d r :
  writable (JDouble d) → ends r → read_json (S fuel) (dump dtostr None (JDouble d) ++ r) = Some (written (JDouble d), r).
Proof.
  assert (H : numeral (dtostr d) ∧ strtod (dtostr d) = Some d → ends r → read_json (S fuel) (dtostr d ++ r) =
    Some (match scan_number (dtostr d) with Some (_, Some n, _) => JInt n | _ => JDouble d end, r)).
  { intros [Hn Hd] Hr. rewrite read_json_number by done. unfold read_number. destruct Hn as [v ->]. cbn.
    destruct v; [done|]. by rewrite Hd. }
  by destruct d.
Qed.

(** What is written is read back, whatever follows. *)
Lemma read_dump j fuel r :
  writable j → ends r → (depth j ≤ fuel)%nat →
  read_json fuel (dump dtostr None j ++ r) = Some (written j, r).
Proof.
  revert fuel r. induction j as [|b|n|d|s|l IH|o IH] using json_induction;
    intros fuel r Hw Hr Hf; destruct fuel as [|fuel]; try (cbn in Hf; lia).
  - done.
  - by destruct b.
  - by apply read_json_int.
  - by apply read_json_double.
  - change (dump dtostr None (JString s) ++ r) with (34 :: (json_strescape s ++ [34]) ++ r).
    cbn [Json.read_json Z.eqb Pos.eqb]. rewrite <- app_assoc. cbn [app].
    by rewrite read_jstring_text.
  - change (dump dtostr None (JArray l) ++ r)
      with (91 :: (dump_items (dump dtostr None) l ++ [93]) ++ r).
    cbn [Json.read_json Z.eqb Pos.eqb]. rewrite <- app_assoc. cbn [app].
    rewrite writable_array, Forall_forall in Hw. rewrite Forall_forall in IH.
    rewrite (read_items_dump _ 93 (dump dtostr None) written); [done|done|by apply ends_close; auto| |].
    + intros x Hx. destruct (dump_head x (Hw x Hx)) as (c & t & E & H & _). by exists c, t.
    + intros x s Hx Hs. apply IH; [done|by apply Hw|done|].
      pose proof (depth_element l x Hx). lia.
  - change (dump dtostr None (JObject o) ++ r)
      with (123 :: (dump_items (λ m, dump dtostr (Some (json_strescape m.1)) m.2) o ++ [125]) ++ r).
    cbn [Json.read_json Z.eqb Pos.eqb]. rewrite <- app_assoc. cbn [app].
    rewrite writable_object, Forall_forall in Hw. rewrite Forall_forall in IH.
    rewrite (read_items_dump _ 125 (λ m, dump dtostr (Some (json_strescape m.1)) m.2) (λ m, (m.1, written m.2)));
      [done|done|by apply ends_close; auto| |].
    + intros m Hm. rewrite dump_named. by eexists 34, _.
    + intros [k v] s Hm Hs. destruct (Hw _ Hm) as [Hk Hv]. cbn [fst snd] in *.
      rewrite dump_named. unfold dump_name. rewrite <- !app_assoc. cbn [app].
      change (expect [34] (34 :: ?x)) with (Some x). cbn [mbind option_bind].
      change (expect [34] (34 :: json_strescape k ++ 34 :: 58 :: dump dtostr None v ++ s))
        with (Some (json_strescape k ++ 34 :: 58 :: dump dtostr None v ++ s)).
      cbn [mbind option_bind]. rewrite read_jstring_text by done. cbn [mbind option_bind].
      change (expect [58] (58 :: dump dtostr None v ++ s)) with (Some (dump dtostr None v ++ s)).
      cbn [mbind option_bind]. rewrite (IH _ Hm); [done|done|done|].
      pose proof (depth_member o _ Hm). cbn [snd] in *. lia.
Qed.
End ReadBack.

Section WriteDepth.
Context (dtostr : spec_float → list Z) (strtod : list Z → option spec_float).
#[local] Abbreviation writable := (writable dtostr strtod).

Lemma dump_items_element {A} (value : A → list Z) l x :
  x ∈ l → (length (value x) ≤ length (dump_items value l))%nat.
Proof.
  induction 1 as [x l|x y l Hx IH]; cbn [dump_items]; rewrite !length_app; lia.
Qed.

Lemma foldr_max_le {A} (f : A → nat) l n :
  (∀ x, x ∈ l → (f x ≤ n)%nat) → (foldr (λ x m, Nat.max (f x) m) 0 l ≤ n)%nat.
Proof.
  induction l as [|x l IH]; intros H; cbn; [lia|].
  apply Nat.max_lub; [apply H; constructor|]. apply IH. intros y Hy. apply H. by constructor.
Qed.

(** A text is at least as long as the tree is deep. *)
Lemma dump_depth j : writable j → (depth j ≤ length (dump dtostr None j))%nat.
Proof.
  induction j as [|b|n|d|s|l IH|o IH] using json_induction; intros Hw.
  - cbn. lia.
  - destruct b; cbn; lia.
  - destruct (dump_head dtostr strtod (JInt n) Hw) as (c & t & E & _). rewrite E. cbn. lia.
  - destruct (dump_head dtostr strtod (JDouble d) Hw) as (c & t & E & _). rewrite E. cbn. lia.
  - cbn. rewrite length_app. cbn. lia.
  - rewrite writable_array, Forall_forall in Hw. rewrite Forall_forall in IH.
    change (dump dtostr None (JArray l)) with (91 :: dump_items (dump dtostr None) l ++ [93]).
    cbn [length depth]. rewrite length_app. apply le_n_S. eapply Nat.le_trans.
    + apply (foldr_max_le depth l (length (dump_items (dump dtostr None) l))).
      intros x Hx. etrans; [by apply IH, Hw|]. by apply dump_items_element.
    + lia.
  - rewrite writable_object, Forall_forall in Hw. rewrite Forall_forall in IH.
    change (dump dtostr None (JObject o)) with
      (123 :: dump_items (λ m, dump dtostr (Some (json_strescape m.1)) m.2) o ++ [125]).
    cbn [length depth]. rewrite length_app. apply le_n_S. eapply Nat.le_trans.
    + apply (foldr_max_le (λ m, depth m.2) o
        (length (dump_items (λ m, dump dtostr (Some (json_strescape m.1)) m.2) o))).
      intros x Hx.
      pose proof (dump_items_element (λ m, dump dtostr (Some (json_strescape m.1)) m.2) o x Hx) as Hl.
      cbn beta in Hl. rewrite (dump_named dtostr _ x.2), length_app in Hl.
      pose proof (IH x Hx (proj2 (Hw x Hx))). lia.
    + lia.
Qed.
End WriteDepth.

(** ** Properties *)

(** Three numbers, 3, 0.5 and 1e-07, as [g_ascii_dtostr] writes them with 17 digits *)
Definition sample_texts : list (spec_float * list Z) :=
  [(S754_finite false 6755399441055744 (-51), bs "3");
   (S754_finite false 4503599627370496 (-53), bs "0.5");
   (S754_finite false 7555786372591432 (-76), bs "9.9999999999999995e-08")].

Definition sample_dtostr (d : spec_float) : list Z :=
  match d with
  | S754_finite _ _ e => default [] (snd <$> find (λ x, match x.1 with S754_finite _ _ e' => e' =? e | _ => false end) sample_texts)
  | _ => []
  end.

Definition sample_strtod (w : list Z) : option spec_float := fst <$> find (λ x, bool_decide (x.2 = w)) sample_texts.

Definition sample : object :=
  [([97; 34; 98], JArray [JInt (-12); JNull; JString [10; 92; 34; 200; 1]; JArray []]);
   (bs "command", JObject [(bs "ok", JBool true)]);
   (bs "numbers", JArray ((λ x, JDouble x.1) <$> sample_texts ++ [(S754_infinity true, []); (S754_nan, [])]))].

(** C40: what [cockpit_json_write] writes is a JSON text, and a reader gets from it the tree that was written, for trees of any
    depth with integers of 64 bits, doubles, and strings and member names that may hold quotes, backslashes, control
    characters and any bytes from 128 on, but neither NUL, which ends a string of C, nor U+001F ([unit_separator_unescaped]);
    except that a double that is NaN or infinite, at any depth, is read as [null], and a finite one whose text has neither a
    fraction nor an exponent as that integer.  The texts of finite doubles are those of [g_ascii_dtostr], which are numbers
    of JSON from which [g_ascii_strtod] gives the same double. *)
Theorem json_write_roundtrip dtostr strtod j :
  writable dtostr strtod j → read_text strtod (cockpit_json_write dtostr j) = Some (written dtostr j).
Proof.
  intros Hw. unfold read_text, cockpit_json_write.
  pose proof (read_dump dtostr strtod j (length (dump dtostr None j)) [] Hw I (dump_depth dtostr strtod j Hw)) as H.
  rewrite app_nil_r in H. by rewrite H.
Qed.

Lemma json_write_roundtrip_witness :
  read_text sample_strtod (cockpit_json_write sample_dtostr (JObject sample)) = Some (written sample_dtostr (JObject sample)).
Proof.
  apply json_write_roundtrip. cbn [writable foldr sample fst snd fmap list_fmap app sample_texts].
  split_and!; done || by_decide || by eexists.
Defined.

(** The numbers of the sample *)
Example sample_numbers : cockpit_json_write sample_dtostr (default JNull (json_object_get_member sample (bs "numbers"))) =
  bs "[3,0.5,9.9999999999999995e-08,null,null]".
Proof. reflexivity. Qed.

(** Two trees compare equal exactly when they are the same value: arrays element by
    element, objects as maps from names to values whatever the order of their members. *)
Theorem json_equal_iff p c : cockpit_json_equal p c = true ↔ json_eqv p c.
Proof. by apply json_equal_fuel_spec. Qed.

(** After a patch every member of the object is the old one where the patch has no such
    member, gone where the patch has [null], patched recursively where both have objects,
    and the new one otherwise; and names stay unique. *)
Theorem json_patch_members (target override : object) :
  NoDup target.*1 → NoDup override.*1 →
  NoDup (cockpit_json_patch target override).*1 ∧
  ∀ k, json_object_get_member (cockpit_json_patch target override) k =
       patched cockpit_json_patch (json_object_get_member target k)
         (json_object_get_member override k).
Proof. intros Ht Ho. split; [by apply patch_unique|]. intros k. by apply patch_members. Qed.

Definition no_names : object := [(bs "command", JObject [(bs "ok", JNull); (bs "n", JInt 2)])].

Lemma json_patch_members_witness :
  NoDup (cockpit_json_patch sample no_names).*1 ∧
  ∀ k, json_object_get_member (cockpit_json_patch sample no_names) k =
       patched cockpit_json_patch (json_object_get_member sample k)
         (json_object_get_member no_names k).
Proof. apply json_patch_members; by_decide. Defined.

(** Walking an object replaces exactly the values for which the callback has another
    one, at every depth, and keeps everything else and the order. *)
Theorem json_walk_replaces callback (o : object) :
  unique (JObject o) →
  JObject (cockpit_json_walk callback o) = replace_values callback (JObject o).
Proof.
  intros Hu. rewrite (walk_node_spec callback _ Hu). unfold cockpit_json_walk.
  cbn [cockpit_json_walk_node]. by destruct (walk_loop _ _ [] None o).
Qed.

Lemma json_walk_replaces_witness :
  let f j := match j with JInt n => Some (JInt (n + 1)) | _ => None end in
  JObject (cockpit_json_walk f sample) = replace_values f (JObject sample).
Proof. intros f. apply json_walk_replaces. cbn [unique foldr sample snd]. split_and!; done || by_decide. Defined.

(** U+001F is not escaped, so a string that holds it is written as something that is
    not a JSON text. *)
Theorem unit_separator_unescaped dtostr strtod s t :
  plain_text s → read_text strtod (cockpit_json_write dtostr (JString (s ++ 31 :: t))) = None.
Proof.
  intros Hs. unfold read_text.
  change (cockpit_json_write dtostr (JString (s ++ 31 :: t)))
    with (34 :: json_strescape (s ++ 31 :: t) ++ [34]).
  cbn [length read_json Z.eqb Pos.eqb]. unfold json_strescape.
  rewrite plain_cstr by done. cbn [cstr Z.eqb]. rewrite bind_app, <- app_assoc.
  by rewrite read_jstring_escaped by done.
Qed.

(** The [null]s inside an object that the target does not have yet are kept. *)
Theorem patch_keeps_nested_null :
  let override : object := [(bs "a", JObject [(bs "b", JNull)])] in
  cockpit_json_patch [] override = override.
Proof. reflexivity. Qed.
