(* ===== verification/Conf.v ===== *)
(** * Configuration: [src/common/cockpitconf.c]

    Loading of [cockpit.conf] line by line, looking up values and reading them as strings,
    truth values, numbers and lists.  The variables of the file are the record [conf]; the
    regular expressions are matched by hand, in the C locale, and a lemma for each says what
    it matches.  The files and the environment are parameters.  An entry keeps the list that
    its value has been split into. *)

From S2P Require Import Prelude.
#[local] Open Scope Z_scope.

Record Entry := mkEntry {
  section : list Z;
  key : list Z;
  value : list Z;
  strv_delimiter : Z;
  strv_cache : option (list (list Z))
}.

Record conf := mkConf {
  cockpit_conf_loaded : bool;
  cockpit_conf : list Entry;
  system_config_dirs : option (option (list (list Z)))  (* [None] is not [initialized] *)
}.

(** ** Strings *)

(** The pieces between the delimiters. *)
Fixpoint strsplit_loop (cur : list Z) (string : list Z) (delimiter : Z) : list (list Z) :=
  match string with
  | [] => [cur]
  | c :: string' =>
      if c =? delimiter then cur :: strsplit_loop [] string' delimiter
      else strsplit_loop (cur ++ [c]) string' delimiter
  end.

Definition strsplit (string : list Z) (delimiter : Z) : list (list Z) :=
  match string with [] => [] | _ => strsplit_loop [] string delimiter end.

Fixpoint span (p : Z → bool) (s : list Z) : list Z * list Z :=
  match s with
  | c :: s' => if p c then let '(a, b) := span p s' in (c :: a, b) else ([], s)
  | [] => ([], [])
  end.

Definition iscntrl (c : Z) : bool := ((0 <=? c) && (c <? 32)) || (c =? 127).

(** ** Lines *)

(** [re_section]: spaces, a name in brackets, spaces.  A name has no bracket and no control
    character; the newline at the end of the line is a space. *)
Definition section_char (c : Z) : bool := negb ((c =? 91) || (c =? 93) || iscntrl c).

Definition re_section (line : list Z) : option (list Z) :=
  match (span isspace line).2 with
  | open :: s =>
      if open =? 91 then
        match span section_char s with
        | (c :: name, close :: r) =>
            if (close =? 93) && forallb isspace r then Some (c :: name) else None
        | _ => None
        end
      else None
  | [] => None
  end.

(** [re_keyval]: spaces, a key of alphanumeric characters and dashes, spaces, an equals sign,
    spaces, and the value up to the newline. *)
Definition key_char (c : Z) : bool := isalnum c || (c =? 45).

Definition re_keyval (line : list Z) : option (list Z * list Z) :=
  match span key_char (span isspace line).2 with
  | (c :: k, r) =>
      match (span isspace r).2 with
      | equals :: v =>
          if equals =? 61 then Some (c :: k, (span (λ c, negb (c =? 10)) (span isspace v).2).1)
          else None
      | [] => None
      end
  | _ => None
  end.

(** [re_ignore]: spaces, and possibly a comment. *)
Definition re_ignore (line : list Z) : bool :=
  match (span isspace line).2 with [] => true | c :: _ => c =? 35 end.

(** [getline]: the lines of a file, each with its newline *)
Fixpoint getlines (cur : list Z) (data : list Z) : list (list Z) :=
  match data with
  | [] => match cur with [] => [] | _ => [cur] end
  | c :: data' => if c =? 10 then (cur ++ [c]) :: getlines [] data' else getlines (cur ++ [c]) data'
  end.

(** One turn of the loop: [None] leaves it with [ret = false]. *)
Definition load_line (cur_section : option (list Z)) (entries : list Entry) (line : list Z)
    : option (option (list Z) * list Entry) :=
  match re_section line with
  | Some name => Some (Some name, entries)
  | None =>
      match re_keyval line with
      | Some (k, v) =>
          match cur_section with
          | None => None
          | Some s => Some (cur_section, mkEntry s k v 0 None :: entries)
          end
      | None => if re_ignore line then Some (cur_section, entries) else None
      end
  end.

Fixpoint load_lines (cur_section : option (list Z)) (entries : list Entry) (lines : list (list Z))
    : option (list Entry) :=
  match lines with
  | [] => Some entries
  | l :: lines' =>
      '(cur_section, entries) ← load_line cur_section entries (cstr l);
      load_lines cur_section entries lines'
  end.

(** ** The variables *)

Definition cockpit_conf_cleanup (c : conf) : conf :=
  mkConf false [] (system_config_dirs c).

Section Conf.
Context (fopen : list Z → option (list Z)).   (* the contents of the file, if it can be read *)
Context (getenv_XDG_CONFIG_DIRS : option (list Z)).
Context (cockpit_config_file : option (list Z)) (cockpit_config_dirs : list (list Z)).

Definition load_key_file (file_path : list Z) (c : conf) : bool * conf :=
  let c := mkConf true (cockpit_conf c) (system_config_dirs c) in
  match fopen file_path with
  | None => (false, c)
  | Some data =>
      match load_lines None (cockpit_conf c) (getlines [] data) with
      | Some entries => (true, mkConf true entries (system_config_dirs c))
      | None => (false, cockpit_conf_cleanup c)
      end
  end.

Definition cockpit_conf_get_dirs (c : conf) : list (list Z) * conf :=
  let dirs :=
    match system_config_dirs c with
    | Some dirs => dirs
    | None =>
        match getenv_XDG_CONFIG_DIRS with
        | Some (x :: env) => Some (strsplit (x :: env) 58)
        | _ => None
        end
    end in
  (default cockpit_config_dirs dirs, mkConf (cockpit_conf_loaded c) (cockpit_conf c) (Some dirs)).

Definition cockpit_conf_init (c : conf) : conf :=
  match cockpit_config_file with
  | None => c
  | Some f =>
      if bool_decide (47 ∈ f) then (load_key_file f c).2
      else
        let '(dirs, c) := cockpit_conf_get_dirs c in
        foldl (λ c d, (load_key_file (d ++ bs "/cockpit/" ++ f) c).2) c dirs
  end.

(** The position of the entry. *)
Fixpoint lookup_loop (entries : list Entry) (sect field : list Z) : option nat :=
  match entries with
  | [] => None
  | e :: entries' =>
      if strcasecmp_eq (section e) sect && strcasecmp_eq (key e) field then Some 0%nat
      else S <$> lookup_loop entries' sect field
  end.

Definition cockpit_conf_lookup (sect field : option (list Z)) (c : conf) : option nat * conf :=
  match sect, field with
  | Some sect, Some field =>
      let c := if cockpit_conf_loaded c then c else cockpit_conf_init c in
      (lookup_loop (cockpit_conf c) sect field, c)
  | _, _ => (None, c)
  end.

Definition cockpit_conf_string (sect field : option (list Z)) (c : conf) : option (list Z) * conf :=
  let '(i, c) := cockpit_conf_lookup sect field c in
  (i ← i; value <$> cockpit_conf c !! i, c).

Definition cockpit_conf_bool (sect field : option (list Z)) (defawlt : bool) (c : conf) : bool * conf :=
  let '(v, c) := cockpit_conf_string sect field c in
  (match v with
   | Some v => strcasecmp_eq v (bs "yes") || strcasecmp_eq v (bs "true") || bool_decide (v = bs "1")
   | None => defawlt
   end, c).

(** The trailing white space that is cut off. *)
Fixpoint strip_trailing (s : list Z) : list Z :=
  match s with
  | [] => []
  | c :: s' =>
      match strip_trailing s' with
      | [] => if isspace c then [] else [c]
      | t => c :: t
      end
  end.

(** Asking for the same list with another delimiter ends the process. *)
Definition cockpit_conf_strv (sect field : option (list Z)) (delimiter : Z) (c : conf)
    : comp unit (option (list (list Z)) * conf) :=
  let '(i, c) := cockpit_conf_lookup sect field c in
  match i with
  | None => Ok (None, c)
  | Some i =>
      match cockpit_conf c !! i with
      | None => Ok (None, c)
      | Some e =>
          match strv_cache e with
          | Some l => if delimiter =? strv_delimiter e then Ok (Some l, c) else Fault
          | None =>
              let l := strsplit (strip_trailing (value e)) delimiter in
              let e := mkEntry (section e) (key e) (value e) delimiter (Some l) in
              Ok (Some l, mkConf (cockpit_conf_loaded c) (<[i := e]> (cockpit_conf c))
                            (system_config_dirs c))
          end
      end
  end.

(** [strtoll (s, &endptr, 10)]: the value, whether [errno] is [ERANGE], what is left. *)
Definition strtoll (s : list Z) : Z * bool * list Z :=
  let t := (span isspace s).2 in
  let '(neg, t) :=
    match t with
    | c :: t' => if c =? 45 then (true, t') else if c =? 43 then (false, t') else (false, t)
    | [] => (false, t)
    end in
  match span isdigit t with
  | ([], _) => (0, false, s)
  | (d, r) =>
      let v := if neg : bool then - dec_value d else dec_value d in
      if v >? 2 ^ 63 - 1 then (2 ^ 63 - 1, true, r)
      else if v <? - 2 ^ 63 then (- 2 ^ 63, true, r)
      else (v, false, r)
  end.

Definition uint_value (conf : list Z) (default_value max min : Z) : Z :=
  let '(conf_val, erange, endptr) := strtoll conf in
  if ((conf_val =? - 2 ^ 63) || (conf_val =? 2 ^ 63 - 1) || (conf_val =? 0)) && erange then default_value
  else match endptr with
       | _ :: _ => default_value
       | [] => if conf_val >? max then max else if conf_val <? min then min else u32 conf_val
       end.

Definition cockpit_conf_uint (sect field : option (list Z)) (default_value max min : Z) (c : conf)
    : Z * conf :=
  let '(v, c) := cockpit_conf_string sect field c in
  (match v with Some v => uint_value v default_value max min | None => default_value end, c).
End Conf.

(** ** What the lines mean *)

(** The lines that are understood, with the white space around their parts. *)
Inductive cline :=
| Header (pre : list Z) (name : list Z) (post : list Z)
| Assign (pre : list Z) (k : list Z) (mid post : list Z) (v : list Z)
| Blank (pre : list Z)
| Comment (pre : list Z) (text : list Z).

Definition blank (s : list Z) : Prop := Forall (λ c, isspace c = true ∧ c ≠ 10) s.
Definition text (s : list Z) : Prop := Forall (λ c, c ≠ 10 ∧ c ≠ 0) s.

Definition valid_line (l : cline) : Prop :=
  match l with
  | Header pre name post =>
      blank pre ∧ blank post ∧ name ≠ [] ∧ Forall (λ c, section_char c = true) name
  | Assign pre k mid post v =>
      blank pre ∧ blank mid ∧ blank post ∧ k ≠ [] ∧ Forall (λ c, key_char c = true) k ∧
      text v ∧ match v with c :: _ => isspace c = false | [] => True end
  | Blank pre => blank pre
  | Comment pre t => blank pre ∧ text t
  end.

Definition render_line (l : cline) : list Z :=
  match l with
  | Header pre name post => pre ++ [91] ++ name ++ [93] ++ post
  | Assign pre k mid post v => pre ++ k ++ mid ++ [61] ++ post ++ v
  | Blank pre => pre
  | Comment pre t => pre ++ [35] ++ t
  end.

Definition render_file (ls : list cline) : list Z := ls ≫= λ l, render_line l ++ [10].

(** The assignments of a file, each with the section it stands in, in their order;
    [None] if there is one before the first section. *)
Fixpoint assignments (s : option (list Z)) (ls : list cline) : option (list (list Z * list Z * list Z)) :=
  match ls with
  | [] => Some []
  | Header _ name _ :: ls' => assignments (Some name) ls'
  | Assign _ k _ _ v :: ls' => s0 ← s; cons (s0, k, v) <$> assignments s ls'
  | _ :: ls' => assignments s ls'
  end.

Definition entry (a : list Z * list Z * list Z) : Entry := mkEntry a.1.1 a.1.2 a.2 0 None.

Lemma span_app p a b :
  Forall (λ c, p c = true) a → match b with c :: _ => p c = false | [] => True end →
  span p (a ++ b) = (a, b).
Proof.
  intros Ha Hb. induction Ha as [|c a Hc _ IH]; cbn.
  - destruct b as [|c b]; [done|]. cbn. by rewrite Hb.
  - by rewrite Hc, IH.
Qed.

Lemma blank_spaces s : blank s → Forall (λ c, isspace c = true) s.
Proof. intros H. eapply Forall_impl; [done|]. by intros c []. Qed.

Lemma span_blank a b :
  blank a → match b with c :: _ => isspace c = false | [] => True end → span isspace (a ++ b) = (a, b).
Proof. intros Ha. by apply span_app, blank_spaces. Qed.

Lemma section_char_line c : section_char c = true → c ≠ 10 ∧ c ≠ 0.
Proof. intros H. split; intros ->; done. Qed.

Lemma key_char_line c : key_char c = true → isspace c = false ∧ c ≠ 10 ∧ c ≠ 0 ∧ c ≠ 61 ∧ c ≠ 91.
Proof.
  unfold key_char, isalnum, isalpha, isupper, islower, isdigit, isspace. intros H.
  destruct (decide (c = 32 ∨ c = 10 ∨ c = 0 ∨ c = 61 ∨ c = 91 ∨ 9 <= c <= 13)) as [Hc|Hc].
  - destruct Hc as [->|[->|[->|[->|[->|Hc]]]]]; try done.
    assert (c = 9 ∨ c = 10 ∨ c = 11 ∨ c = 12 ∨ c = 13) as [->|[->|[->|[->| ->]]]] by lia; done.
  - split; [|lia]. apply orb_false_iff. split; [lia|]. apply andb_false_iff. lia.
Qed.

Lemma blank_text s : blank s → text s.
Proof. intros H. eapply Forall_impl; [done|]. cbn. intros c [H1 H2]. split; [done|]. by intros ->. Qed.

Lemma char_text p s : (∀ c, p c = true → c ≠ 10 ∧ c ≠ 0) → Forall (λ c, p c = true) s → text s.
Proof. intros Hp H. eapply Forall_impl; [done|]. cbn. auto. Qed.

Lemma render_text l : valid_line l → text (render_line l).
Proof.
  destruct l as [pre name post|pre k mid post v|pre|pre t]; cbn;
    [intros (Hp & Hq & _ & Hn)|intros (Hp & Hm & Hq & _ & Hk & Hv & _)|by apply blank_text|intros [Hp Ht]];
    unfold text; repeat (rewrite ?Forall_app, ?Forall_cons; split); try (by apply blank_text); try done.
  - apply (char_text section_char); [apply section_char_line|done].
  - apply (char_text key_char); [|done]. intros c Hc%key_char_line. tauto.
Qed.

Lemma getlines_line cur l rest :
  text l → getlines cur (l ++ 10 :: rest) = (cur ++ l ++ [10]) :: getlines [] rest.
Proof.
  intros H. revert cur. induction H as [|c l [Hc _] _ IH]; intros cur; cbn; [done|].
  rewrite (proj2 (Z.eqb_neq c 10)) by done. rewrite IH. by rewrite <- app_assoc.
Qed.

Lemma getlines_file ls :
  Forall valid_line ls → getlines [] (render_file ls) = (λ l, render_line l ++ [10]) <$> ls.
Proof.
  induction 1 as [|l ls Hl _ IH]; [done|]. unfold render_file. cbn.
  rewrite <- app_assoc. cbn. rewrite getlines_line by by apply render_text.
  fold (render_file ls). by rewrite IH.
Qed.

Lemma cstr_line l : text l → cstr (l ++ [10]) = l ++ [10].
Proof.
  intros H. apply cstr_id, Forall_app. split; [|by repeat constructor].
  eapply Forall_impl; [done|]. by intros c [].
Qed.

Definition starts (P : Z → Prop) (s : list Z) : Prop := match s with c :: _ => P c | [] => True end.

Lemma re_section_none pre s :
  Forall (λ c, isspace c = true) pre → starts (λ c, isspace c = false ∧ c ≠ 91) s →
  re_section (pre ++ s) = None.
Proof.
  intros Hp Hs. unfold re_section. rewrite span_app; [|done|by destruct s as [|c s]; [|destruct Hs]].
  destruct s as [|c s]; [done|]. destruct Hs as [_ Hc]. cbn. by rewrite (proj2 (Z.eqb_neq c 91)).
Qed.

Lemma re_keyval_none pre s :
  Forall (λ c, isspace c = true) pre → starts (λ c, isspace c = false ∧ key_char c = false) s →
  re_keyval (pre ++ s) = None.
Proof.
  intros Hp Hs. unfold re_keyval. rewrite span_app; [|done|by destruct s as [|c s]; [|destruct Hs]].
  destruct s as [|c s]; [done|]. destruct Hs as [_ Hc]. cbn. by rewrite Hc.
Qed.

Lemma forallb_spaces s : blank s → forallb isspace (s ++ [10]) = true.
Proof.
  intros H%blank_spaces. rewrite forallb_app. cbn. rewrite andb_true_r. apply forallb_forall.
  intros x Hx. rewrite Forall_forall in H. by apply H, list_elem_of_In.
Qed.

Lemma re_section_some pre name post :
  blank pre → blank post → name ≠ [] → Forall (λ c, section_char c = true) name →
  re_section (pre ++ 91 :: name ++ 93 :: post ++ [10]) = Some name.
Proof.
  intros Hp Hq Hne Hn. unfold re_section. rewrite span_blank by done. cbn.
  rewrite span_app by done. destruct name; [done|]. cbn. by rewrite forallb_spaces.
Qed.

Lemma text_value v : text v → span (λ c, negb (c =? 10)) (v ++ [10]) = (v, [10]).
Proof.
  intros H. apply span_app; [|done]. eapply Forall_impl; [done|]. cbn. intros c [Hc _].
  by rewrite (proj2 (Z.eqb_neq c 10)).
Qed.

Lemma re_keyval_some pre k mid post v :
  valid_line (Assign pre k mid post v) →
  re_keyval (pre ++ k ++ mid ++ 61 :: post ++ v ++ [10]) = Some (k, v).
Proof.
  intros (Hp & Hm & Hq & Hne & Hk & Hv & Hv0). unfold re_keyval.
  assert (Hk1 : starts (λ c, isspace c = false) k).
  { destruct k; [done|]. apply Forall_cons in Hk as [Hc _]. by apply key_char_line in Hc as []. }
  rewrite span_blank; [|done|by destruct k]. cbn [snd].
  rewrite (span_app key_char k); [|done|].
  2: { destruct mid as [|c mid]; [done|]. cbn. apply Forall_cons in Hm as [[Hc _] _].
       destruct (key_char c) eqn:E; [|done]. apply key_char_line in E as [E _]. congruence. }
  destruct k as [|c k]; [done|]. rewrite span_blank by done. cbn.
  destruct v as [|d v].
  - cbn. replace (post ++ [10]) with ((post ++ [10]) ++ []) by by rewrite app_nil_r.
    rewrite span_app; [done| |done]. apply Forall_app. split; [by apply blank_spaces|by constructor].
  - rewrite span_blank by done. cbn [snd]. by rewrite text_value.
Qed.

Lemma spaces_line s : blank s → Forall (λ c, isspace c = true) (s ++ [10]).
Proof. intros H. apply Forall_app. split; [by apply blank_spaces|by constructor]. Qed.

(** Each line does what it says. *)
Lemma load_line_meaning s entries l :
  valid_line l →
  load_line s entries (render_line l ++ [10]) =
  match l with
  | Header _ name _ => Some (Some name, entries)
  | Assign _ k _ _ v => match s with Some s0 => Some (s, mkEntry s0 k v 0 None :: entries) | None => None end
  | _ => Some (s, entries)
  end.
Proof.
  destruct l as [pre name post|pre k mid post v|pre|pre t]; intros Hv; pose proof Hv as Hw; cbn in Hw |- *;
    unfold load_line; do 3 (rewrite <- ?app_assoc; cbn [app]).
  - destruct Hw as (Hp & Hq & Hne & Hn). by rewrite re_section_some.
  - rewrite re_section_none, re_keyval_some; [by destruct s|done|by apply blank_spaces; tauto|].
    destruct k as [|c k]; [tauto|]. destruct Hw as (_ & _ & _ & _ & [Hc _]%Forall_cons & _).
    apply key_char_line in Hc. cbn. tauto.
  - rewrite <- (app_nil_r (pre ++ [10])). apply spaces_line in Hw.
    rewrite re_section_none, re_keyval_none by done. unfold re_ignore. by rewrite span_app.
  - destruct Hw as [Hp Ht]. apply blank_spaces in Hp. rewrite re_section_none, re_keyval_none by done.
    unfold re_ignore. by rewrite span_app.
Qed.

Lemma load_lines_meaning s entries ls :
  Forall valid_line ls →
  load_lines s entries ((λ l, render_line l ++ [10]) <$> ls) =
  (λ a, rev (entry <$> a) ++ entries) <$> assignments s ls.
Proof.
  intros H. revert s entries. induction H as [|l ls Hl _ IH]; intros s entries; [done|].
  cbn [fmap list_fmap load_lines]. rewrite cstr_line by by apply render_text.
  rewrite load_line_meaning by done.
  destruct l as [pre name post|pre k mid post v|pre|pre t]; cbn [mbind option_bind assignments];
    try apply IH.
  destruct s as [s0|]; [|done]. cbn [mbind option_bind]. rewrite IH.
  destruct (assignments (Some s0) ls) as [a|]; [|done]. cbn. by rewrite <- app_assoc.
Qed.

(** The value of the last assignment to a key, the names compared without case. *)
Fixpoint last_value (a : list (list Z * list Z * list Z)) (sect field : list Z) : option (list Z) :=
  match a with
  | [] => None
  | (s, k, v) :: a' =>
      match last_value a' sect field with
      | Some w => Some w
      | None => if strcasecmp_eq s sect && strcasecmp_eq k field then Some v else None
      end
  end.

Lemma lookup_loop_app l l' sect field :
  lookup_loop (l ++ l') sect field =
  match lookup_loop l sect field with
  | Some i => Some i
  | None => (λ i, length l + i)%nat <$> lookup_loop l' sect field
  end.
Proof.
  induction l as [|e l IH]; cbn; [by destruct (lookup_loop l' sect field)|].
  destruct (_ && _); [done|]. rewrite IH. destruct (lookup_loop l sect field); [done|].
  by destruct (lookup_loop l' sect field).
Qed.

Lemma lookup_loop_lt l sect field i : lookup_loop l sect field = Some i → (i < length l)%nat.
Proof.
  revert i. induction l as [|e l IH]; intros i; cbn; [done|].
  destruct (_ && _); [intros [= <-]; lia|]. destruct (lookup_loop l sect field) as [j|]; [|done].
  cbn. intros [= <-]. specialize (IH j eq_refl). lia.
Qed.

Lemma last_value_lookup a sect field :
  last_value a sect field =
  (i ← lookup_loop (rev (entry <$> a)) sect field; value <$> rev (entry <$> a) !! i).
Proof.
  induction a as [|[[s k] v] a IH]; [done|]. cbn [fmap list_fmap rev last_value].
  rewrite lookup_loop_app, IH. clear IH. destruct (lookup_loop (rev _) sect field) as [i|] eqn:E; cbn.
  - pose proof (lookup_loop_lt _ _ _ _ E) as Hi. rewrite lookup_app_l by done.
    by destruct (proj2 (lookup_lt_is_Some (rev (entry <$> a)) i) Hi) as [e ->].
  - destruct (_ && _); [|done]. cbn. by rewrite list_lookup_middle by lia.
Qed.

(** ** Properties *)

Section Loading.
Context (fopen : list Z → option (list Z)).

(** A file that cannot be opened, or one made of understood lines. *)
Definition file_says (path : list Z) (a : list (list Z * list Z * list Z)) : Prop :=
  match fopen path with
  | None => a = []
  | Some data => ∃ ls, Forall valid_line ls ∧ data = render_file ls ∧ assignments None ls = Some a
  end.

Lemma load_key_file_says path a c :
  file_says path a →
  cockpit_conf (load_key_file fopen path c).2 = rev (entry <$> a) ++ cockpit_conf c.
Proof.
  unfold file_says, load_key_file. destruct (fopen path) as [data|].
  - intros (ls & Hv & -> & Ha). rewrite getlines_file, load_lines_meaning, Ha by done. done.
  - by intros ->.
Qed.

Lemma load_dirs_says (path : list Z → list Z) dirs as_ c :
  Forall2 (λ d a, file_says (path d) a) dirs as_ →
  cockpit_conf (foldl (λ c d, (load_key_file fopen (path d) c).2) c dirs) =
  rev (entry <$> mjoin as_) ++ cockpit_conf c.
Proof.
  intros H. revert c. induction H as [|d a dirs as_ Ha _ IH]; intros c; [done|].
  cbn [foldl]. rewrite IH. rewrite (load_key_file_says _ a) by done. cbn.
  by rewrite fmap_app, rev_app_distr, <- app_assoc.
Qed.
End Loading.

Definition unloaded : conf := mkConf false [] None.

(** Looking up a value loads the files of all configuration directories, and gives the
    value of the last assignment to that key in that section, in the last file that has
    one, whatever the case of the names, the white space around them, blank lines and
    comments. *)
Theorem conf_last_assignment_wins fopen env f dirs as_ sect field :
  47 ∉ f →
  Forall2 (λ d a, file_says fopen (d ++ bs "/cockpit/" ++ f) a)
    (cockpit_conf_get_dirs env dirs unloaded).1 as_ →
  (cockpit_conf_string fopen env (Some f) dirs (Some sect) (Some field) unloaded).1 =
  last_value (mjoin as_) sect field.
Proof.
  intros Hf Hd. unfold cockpit_conf_string, cockpit_conf_lookup, cockpit_conf_init, unloaded in *.
  cbn [cockpit_conf_loaded]. rewrite bool_decide_false by done.
  destruct (cockpit_conf_get_dirs _ _ _) as [ds c] eqn:E. cbn [fst snd] in *.
  rewrite (load_dirs_says fopen (λ d, d ++ bs "/cockpit/" ++ f) _ as_) by done.
  assert (Hc : cockpit_conf c = []) by (unfold cockpit_conf_get_dirs in E; by injection E as <- <-).
  rewrite Hc, app_nil_r. by rewrite <- last_value_lookup.
Qed.

Definition two_files (path : list Z) : option (list Z) :=
  if decide (path = bs "/etc/cockpit/cockpit.conf") then
    Some (bs "# test" ++ [10] ++ bs " [WebService]  " ++ [10] ++ bs "MaxStartups = 10:30:60 " ++ [10])
  else None.

Lemma conf_last_assignment_wins_witness :
  (cockpit_conf_string two_files (Some (bs "/etc:/usr")) (Some (bs "cockpit.conf")) []
     (Some (bs "webservice")) (Some (bs "maxstartups")) unloaded).1 = Some (bs "10:30:60 ").
Proof.
  apply (conf_last_assignment_wins two_files (Some (bs "/etc:/usr")) (bs "cockpit.conf") []
    [[(bs "WebService", bs "MaxStartups", bs "10:30:60 ")]; []]); [by_decide|].
  change (cockpit_conf_get_dirs _ _ _).1 with [bs "/etc"; bs "/usr"].
  repeat constructor.
  exists [Comment [] (bs " test"); Header [32] (bs "WebService") [32; 32];
          Assign [] (bs "MaxStartups") [32] [32] (bs "10:30:60 ")].
  split; [|done]. unfold valid_line, blank, text. repeat constructor; by_decide.
Defined.

(** A number from the configuration is the default or lies between the bounds; a
    decimal numeral within the bounds is that number, and one outside is cut to the
    nearer bound. *)
Theorem conf_uint_bounds default_value max min s :
  0 ≤ min ≤ max → max < 2 ^ 32 →
  (uint_value s default_value max min = default_value ∨
   min ≤ uint_value s default_value max min ≤ max) ∧
  (digits s → s ≠ [] → dec_value s < 2 ^ 63 - 1 →
   uint_value s default_value max min = Z.max min (Z.min max (dec_value s))).
Proof.
  intros Hm Hmax. unfold uint_value. split.
  - destruct (strtoll s) as [[v e] r]. destruct (_ && e); [by left|]. destruct r; [|by left].
    destruct (v >? max) eqn:E1; [right; lia|]. destruct (v <? min) eqn:E2; [right; lia|].
    to_prop. right. unfold u32. rewrite Z.mod_small by lia. lia.
  - intros Hd Hne Hv. unfold strtoll. destruct s as [|c s]; [done|].
    pose proof Hd as [Hc _]%Forall_cons. pose proof Hc as Hr%isdigit_range.
    assert (Hs : isspace c = false).
    { unfold isspace. apply orb_false_iff. split; [lia|]. apply andb_false_iff. lia. }
    cbn [span]. rewrite Hs. cbn [snd].
    rewrite (proj2 (Z.eqb_neq c 45)), (proj2 (Z.eqb_neq c 43)) by lia.
    pose proof (span_app isdigit (c :: s) [] Hd I) as Hsp. rewrite app_nil_r in Hsp. rewrite Hsp.
    assert (Hnn := dec_value_nonneg _ Hd). set (v := dec_value (c :: s)) in *. clearbody v.
    rewrite Z.gtb_ltb, (proj2 (Z.ltb_ge _ _)), (proj2 (Z.ltb_ge v _)) by lia.
    rewrite andb_false_r. destruct (v >? max) eqn:E1; [to_prop; lia|].
    destruct (v <? min) eqn:E2; to_prop; [lia|]. unfold u32. rewrite Z.mod_small; lia.
Qed.

Lemma conf_uint_bounds_witness :
  (uint_value (bs "1000") 30 900 1 = 30 ∨ 1 ≤ uint_value (bs "1000") 30 900 1 ≤ 900) ∧
  (digits (bs "1000") → bs "1000" ≠ [] → dec_value (bs "1000") < 2 ^ 63 - 1 →
   uint_value (bs "1000") 30 900 1 = Z.max 1 (Z.min 900 (dec_value (bs "1000")))).
Proof. apply conf_uint_bounds; lia. Defined.

(** A file with a line that is not understood is dropped with everything that the files
    before it said, and is read again by the next lookup. *)
Theorem broken_file_drops_all fopen path data c :
  fopen path = Some data → load_lines None (cockpit_conf c) (getlines [] data) = None →
  (load_key_file fopen path c).2 = mkConf false [] (system_config_dirs c).
Proof. intros H E. unfold load_key_file. rewrite H. cbn [cockpit_conf]. by rewrite E. Qed.

(** ** The interface for other components *)

(** A loaded configuration, as the rest of the program sees it. *)
Class Config := conf_string : list Z → list Z → option (list Z).

Definition conf_bool `{Config} (sect field : list Z) (defawlt : bool) : bool :=
  match conf_string sect field with
  | Some v => strcasecmp_eq v (bs "yes") || strcasecmp_eq v (bs "true") || bool_decide (v = bs "1")
  | None => defawlt
  end.

Definition conf_uint `{Config} (sect field : list Z) (default_value max min : Z) : Z :=
  match conf_string sect field with
  | Some v => uint_value v default_value max min
  | None => default_value
  end.

Definition conf_strv `{Config} (sect field : list Z) (delimiter : Z) : option (list (list Z)) :=
  (λ v, strsplit (strip_trailing v) delimiter) <$> conf_string sect field.

Section ConfigOf.
Context (fopen : list Z → option (list Z)) (env file : option (list Z)) (dirs : list (list Z)) (c : conf).

#[export] Instance config_of : Config := λ sect field,
  (cockpit_conf_string fopen env file dirs (Some sect) (Some field) c).1.

(** What the functions of this file answer is what the interface says. *)
Lemma conf_bool_of sect field d :
  (cockpit_conf_bool fopen env file dirs (Some sect) (Some field) d c).1 = conf_bool sect field d.
Proof.
  unfold cockpit_conf_bool, conf_bool, conf_string, config_of.
  by destruct (cockpit_conf_string _ _ _ _ _ _ _).
Qed.

Lemma conf_uint_of sect field d max min :
  (cockpit_conf_uint fopen env file dirs (Some sect) (Some field) d max min c).1 =
  conf_uint sect field d max min.
Proof.
  unfold cockpit_conf_uint, conf_uint, conf_string, config_of.
  by destruct (cockpit_conf_string _ _ _ _ _ _ _).
Qed.

Lemma conf_strv_of sect field delimiter :
  Forall (λ e, strv_cache e = None) (cockpit_conf (cockpit_conf_lookup fopen env file dirs (Some sect) (Some field) c).2) →
  ('(l, _) ← cockpit_conf_strv fopen env file dirs (Some sect) (Some field) delimiter c; Ok l) =
  Ok (conf_strv sect field delimiter).
Proof.
  intros Hc. unfold cockpit_conf_strv, conf_strv, conf_string, config_of, cockpit_conf_string.
  destruct (cockpit_conf_lookup _ _ _ _ _ _ _) as [i c']. cbn [snd] in Hc.
  destruct i as [i|]; [|done]. cbn. destruct (cockpit_conf c' !! i) as [e|] eqn:E; [|done].
  rewrite Forall_lookup in Hc. by rewrite (Hc i e E).
Qed.
End ConfigOf.
