(* ===== verification/WebFilter.v ===== *)
(** * Filters and templates of responses

    [src/common/cockpitwebfilter.c], [cockpitwebinject.c] and [cockpittemplate.c].  A filter sees a
    response block by block and passes on blocks of its own; the class [WebFilter] is what a
    response knows of one.  The only one there is injects bytes behind a marker.

    Shown: however a response is cut into blocks, the bytes are injected behind the first
    occurrences of the marker, as if it had been searched in one piece, if no part of the marker
    is both its beginning and its end; templates. *)

From S2P Require Import Prelude Json.
#[local] Open Scope Z_scope.

(** [CockpitWebFilterInterface] and [cockpit_web_filter_push]: the blocks that are passed on. *)
Class WebFilter (F : Type) := cockpit_web_filter_push : F → list Z → list (list Z) * F.

(** ** Injection *)

Record CockpitWebInject := mkInject {
  partial_matches : list bool;
  marker : list Z;
  inject : list Z;
  maximum : Z;
  injected : Z
}.

Definition set_partial_matches (pm : list bool) (f : CockpitWebInject) : CockpitWebInject :=
  mkInject pm (marker f) (inject f) (maximum f) (injected f).
Definition set_injected (n : Z) (f : CockpitWebInject) : CockpitWebInject :=
  mkInject (partial_matches f) (marker f) (inject f) (maximum f) n.

Definition cockpit_web_inject_new (marker inject : list Z) (count : Z) : option CockpitWebInject :=
  if bool_decide (marker = []) then None
  else Some (mkInject (replicate (length marker) false) marker inject count 0).

(** The matches that the blocks before have begun, from the longest: what remains of them, and the
    end of the first one that the block completes. *)
Fixpoint partial_loop (partial_len : nat) (mark data : list Z) (pm : list bool) : list bool * option nat :=
  match partial_len with
  | O => (pm, None)
  | S partial_len =>
      if bool_decide (pm !! partial_len = Some true) then
        let pm := <[partial_len := false]> pm in
        let remaining_len := (length mark - partial_len)%nat in
        if (length data <? remaining_len)%nat then
          partial_loop partial_len mark data
            (if bool_decide (take (length data) (drop partial_len mark) = data)
             then <[(partial_len + length data)%nat := true]> pm else pm)
        else if bool_decide (drop partial_len mark = take remaining_len data) then
          (replicate (length mark) false, Some remaining_len)
        else partial_loop partial_len mark data pm
      else partial_loop partial_len mark data pm
  end.

(** Passes on the block up to where it is known, and what is injected there.  Fuel: every match
    is behind the one before. *)
Fixpoint search_loop (fuel : nat) (data : list Z) (written at_ : nat) (pos : option nat)
    (self : CockpitWebInject) (out : list (list Z)) : list (list Z) * CockpitWebInject :=
  match fuel with
  | O => (out, self)
  | S fuel =>
      let '(out, written, self) :=
        if (at_ =? written)%nat then (out, written, self)
        else
          let out := out ++ [take (at_ - written) (drop written data)] in
          if bool_decide (pos = Some at_) && (injected self <? maximum self)
          then (out ++ [inject self], at_, set_injected (injected self + 1) self)
          else (out, at_, self) in
      if (length data <=? at_)%nat then (out, self)
      else
        let pos :=
          if (injected self <? maximum self) && (at_ + length (marker self) <=? length data)%nat
          then memmem (drop at_ data) (marker self) else None in
        match pos with
        | Some i =>
            let pos := (at_ + i + length (marker self))%nat in
            search_loop fuel data written pos (Some pos) self out
        | None => search_loop fuel data written (length data) None self out
        end
  end.

(** The matches that the end of the block begins. *)
Fixpoint end_loop (partial_len : nat) (mark data : list Z) (pm : list bool) : list bool :=
  match partial_len with
  | O => pm
  | S n =>
      end_loop n mark data
        (if bool_decide (take partial_len mark = drop (length data - partial_len) data)
         then <[partial_len := true]> pm else pm)
  end.

Definition cockpit_web_inject_push (self : CockpitWebInject) (block : list Z)
    : list (list Z) * CockpitWebInject :=
  if bool_decide (block = []) then ([], self)
  else
    let '(pm, at_) :=
      if injected self <? maximum self
      then partial_loop (length (partial_matches self)) (marker self) block (partial_matches self)
      else (partial_matches self, None) in
    let '(out, self) :=
      search_loop (S (S (length block))) block 0 (default 0%nat at_) at_ (set_partial_matches pm self) [] in
    let longest := Nat.min (length (marker self) - 1) (length block) in
    (out, set_partial_matches (end_loop longest (marker self) block (partial_matches self)) self).

#[export] Instance inject_filter : WebFilter CockpitWebInject := cockpit_web_inject_push.

(** A filter that sees a sequence of blocks. *)
Definition push_blocks `{WebFilter F} (f : F) (blocks : list (list Z)) : list (list Z) * F :=
  foldl (λ r b, let '(out, f) := cockpit_web_filter_push r.2 b in (r.1 ++ out, f)) ([], f) blocks.

(** ** What injection means: the bytes behind the first occurrences *)

Fixpoint injected_stream (mark inj : list Z) (count : nat) (s : list Z) : list Z :=
  match count with
  | O => s
  | S count =>
      match memmem s mark with
      | Some i => take (i + length mark) s ++ inj ++ injected_stream mark inj count (drop (i + length mark) s)
      | None => s
      end
  end.

(** No part of the marker is both its beginning and its end. *)
Definition border_free (mark : list Z) : Prop :=
  ∀ k, (0 < k < length mark)%nat → take k mark ≠ drop (length mark - k) mark.

#[export] Instance border_free_dec mark : Decision (border_free mark).
Proof.
  refine (cast_if (decide (Forall (λ k, take k mark ≠ drop (length mark - k) mark)
    (seq 1 (length mark - 1))))); [abstract by (intros k Hk; rewrite Forall_forall in *; match goal with
    H : ∀ x, _ |- _ => apply H end; apply elem_of_seq; lia)|
    abstract by (intros H; match goal with Hn : ¬ _ |- _ => apply Hn end; apply Forall_forall;
    intros k Hk%elem_of_seq; apply H; lia)].
Defined.

Section Inject.
Context (mark inj : list Z).
Context (Hne : mark ≠ []) (Hbf : border_free mark).

(** The stream so far, what may still be injected, and what has come since the last injection. *)
Fixpoint run (count : nat) (s : list Z) : list Z * nat * list Z :=
  match count with
  | O => (s, O, [])
  | S count' =>
      match memmem s mark with
      | Some i =>
          let '(o, n, t) := run count' (drop (i + length mark) s) in
          (take (i + length mark) s ++ inj ++ o, n, t)
      | None => (s, count, s)
      end
  end.

Lemma run_stream count s : (run count s).1.1 = injected_stream mark inj count s.
Proof.
  revert s. induction count as [|count IH]; intros s; [done|]. cbn.
  destruct (memmem s mark) as [i|]; [|done]. rewrite <- IH. by destruct (run _ _) as [[o n] t].
Qed.

Lemma mark_pos : (0 < length mark)%nat.
Proof. destruct mark; [done|]. cbn. lia. Qed.

Lemma first_part {A} (a b x m y : list A) : a ++ b = x ++ m ++ y → (length x + length m ≤ length a)%nat →
  ∃ r, a = x ++ m ++ r.
Proof.
  intros E Hl. rewrite app_assoc in E. exists (drop (length (x ++ m)) a). rewrite app_assoc.
  rewrite <- (take_drop (length (x ++ m)) a) at 1. f_equal.
  rewrite <- (take_app_le a b), E by (rewrite length_app; lia). apply take_app_length.
Qed.

(** An occurrence stays the first one when more follows. *)
Lemma memmem_extend a b i : memmem a mark = Some i → memmem (a ++ b) mark = Some i.
Proof.
  intros H. pose proof H as H'. apply memmem_some in H as (x & y & -> & <-).
  destruct (memmem ((x ++ mark ++ y) ++ b) mark) as [j|] eqn:E.
  - f_equal. apply Nat.le_antisymm.
    + eapply memmem_before; [exact E|]. by rewrite <- !app_assoc.
    + pose proof E as E'. apply memmem_some in E as (x' & y' & E & <-).
      destruct (decide (length x ≤ length x')%nat) as [|Hlt]; [done|].
      destruct (first_part (x ++ mark ++ y) b x' mark y' E) as [r Hr]; [rewrite !length_app; lia|].
      by apply (memmem_before _ _ _ x' r H').
  - rewrite memmem_None in E. destruct (E x (y ++ b)). by rewrite <- !app_assoc.
Qed.

(** What follows a stream, once it has been searched, depends on its tail only. *)
Lemma run_app count a b o n t : run count a = (o, n, t) →
  run count (a ++ b) = (o ++ drop (length t) (run n (t ++ b)).1.1, (run n (t ++ b)).1.2, (run n (t ++ b)).2).
Proof.
  revert a o n t. induction count as [|count IH]; intros a o n t; cbn.
  - by intros [= <- <- <-].
  - destruct (memmem a mark) as [i|] eqn:E.
    + destruct (run count _) as [[o' n'] t'] eqn:Er. intros [= <- <- <-].
      rewrite (memmem_extend a b i) by done. pose proof E as E'. apply memmem_some in E' as (x & y & Ea & Hx).
      assert (Hl : (i + length mark ≤ length a)%nat) by (rewrite Ea, !length_app; lia).
      rewrite drop_app_le, take_app_le by done. rewrite (IH _ _ _ _ Er). by rewrite <- !app_assoc.
    + intros [= <- <- <-]. cbn [run]. destruct (memmem (a ++ b) mark) as [i|] eqn:E2.
      * destruct (run count _) as [[o' n'] t']. cbn [fst snd].
        assert (Hl : (length a ≤ i + length mark)%nat).
        { apply memmem_some in E2 as (x & y & E2 & <-). rewrite memmem_None in E.
          destruct (decide (length a ≤ length x + length mark)%nat) as [|Hlt]; [done|].
          destruct (first_part a b x mark y E2) as [r Hr]; [lia|]. by destruct (E x r). }
        do 2 f_equal. rewrite take_app_ge by done. rewrite <- !app_assoc. by rewrite drop_app_length.
      * cbn [fst snd]. do 2 f_equal. by rewrite drop_app_length.
Qed.

(** What has come since the last injection has no marker. *)
Lemma run_tail count s o n t : run count s = (o, n, t) → n = 0%nat ∧ t = [] ∨ memmem t mark = None.
Proof.
  revert s o n t. induction count as [|count IH]; intros s o n t; cbn.
  - intros [= _ <- <-]. by left.
  - destruct (memmem s mark) as [i|] eqn:E.
    + destruct (run count _) as [[o' n'] t'] eqn:Er. intros [= _ <- <-]. by eapply IH.
    + intros [= _ <- <-]. by right.
Qed.

(** What is known of a filter: [n] injections are left, [t] has come since the last one, and the
    partial matches are the beginnings of the marker with which [t] ends. *)
Definition ends_with (t : list Z) (k : nat) : Prop :=
  (0 < k ≤ length t)%nat ∧ take k mark = drop (length t - k) t.

Definition represents (t : list Z) (pm : list bool) : Prop :=
  ∀ k, (k < length mark)%nat → pm !! k = Some true ↔ ends_with t k.

Record filter_inv (f : CockpitWebInject) (n : nat) (t : list Z) : Prop := {
  fi_marker : marker f = mark;
  fi_inject : inject f = inj;
  fi_count : injected f ≤ maximum f;
  fi_left : n = Z.to_nat (maximum f - injected f);
  fi_length : length (partial_matches f) = length mark;
  fi_done : n = 0%nat → t = [];
  fi_tail : memmem t mark = None;
  fi_partial : n ≠ 0%nat → represents t (partial_matches f)
}.

(** *** The search in the block *)

Lemma search_emit fuel data w a f out : a ≠ w → injected f < maximum f →
  search_loop (S fuel) data w a (Some a) f out =
  search_loop (S fuel) data a a (Some a) (set_injected (injected f + 1) f)
    (out ++ [take (a - w) (drop w data); inject f]).
Proof.
  intros Ha Hi. cbn [search_loop]. rewrite (proj2 (Nat.eqb_neq a w)), Nat.eqb_refl by done.
  rewrite bool_decide_eq_true_2, (proj2 (Z.ltb_lt _ _)) by done. cbn [andb]. by rewrite <- app_assoc.
Qed.

Lemma search_clean fuel data a pos f out : (a ≤ length data < a + fuel)%nat → marker f = mark → inject f = inj →
  injected f ≤ maximum f →
  ∃ outs, search_loop fuel data a a pos f out =
    (out ++ outs, set_injected (maximum f - Z.of_nat (run (Z.to_nat (maximum f - injected f)) (drop a data)).1.2) f) ∧
    concat outs = (run (Z.to_nat (maximum f - injected f)) (drop a data)).1.1.
Proof.
  revert a pos f out. induction fuel as [fuel IH] using lt_wf_ind.
  intros a pos f out Hf Hm Hi Hc. destruct fuel as [|fuel]; [lia|]. cbn [search_loop].
  rewrite Nat.eqb_refl. destruct (Nat.leb_spec (length data) a) as [Hl|Hl].
  { exists []. rewrite app_nil_r, (drop_ge data) by done. pose proof mark_pos as Hmp.
    set (n := Z.to_nat _). assert (En : run n [] = ([], n, [])).
    { destruct n; [done|]. cbn [run]. destruct mark; [cbn in Hmp; lia|done]. }
    rewrite En. cbn [fst snd]. split; [|done]. destruct f. unfold set_injected. cbn in *.
    do 2 f_equal. subst n. lia. }
  rewrite Hm. pose proof mark_pos as Hmp.
  assert (Efin : search_loop fuel data a (length data) None f out = (out ++ [drop a data], f)).
  { destruct fuel as [|fuel']; [lia|]. cbn [search_loop]. rewrite (proj2 (Nat.eqb_neq _ a)) by lia.
    rewrite bool_decide_eq_false_2 by done. cbn [andb]. rewrite Nat.leb_refl.
    by rewrite take_ge by (rewrite length_drop; lia). }
  destruct (Z.ltb_spec (injected f) (maximum f)) as [Hlt|Hge]; cbn [andb].
  2:{ rewrite Efin. exists [drop a data]. replace (Z.to_nat _) with 0%nat by lia. cbn. rewrite app_nil_r.
      split; [|done]. destruct f. unfold set_injected. cbn in *. do 2 f_equal. lia. }
  destruct (Z.to_nat (maximum f - injected f)) as [|n] eqn:En; [lia|]. cbn [run].
  assert (Hpos : (if (a + length mark <=? length data)%nat then memmem (drop a data) mark else None) =
                 memmem (drop a data) mark).
  { destruct (Nat.leb_spec (a + length mark) (length data)) as [|Hs]; [done|].
    destruct (memmem (drop a data) mark) as [i|] eqn:E; [|done].
    apply memmem_some in E as (x & y & E & _). apply (f_equal length) in E.
    rewrite length_drop, !length_app in E. lia. }
  rewrite Hpos. clear Hpos. destruct (memmem (drop a data) mark) as [i|] eqn:E.
  - assert (Hil : (i + length mark ≤ length data - a)%nat).
    { pose proof E as E'. apply memmem_some in E' as (x & y & E' & <-). apply (f_equal length) in E'.
      rewrite length_drop, !length_app in E'. lia. }
    destruct fuel as [|fuel]; [lia|]. rewrite search_emit by (done || lia).
    set (a' := (a + i + length mark)%nat). set (f' := set_injected _ f).
    destruct (IH (S fuel) ltac:(lia) a' (Some a') f' (out ++ [take (a' - a) (drop a data); inject f]))
      as (outs & -> & Houts); [subst a'; lia|done|done|subst f'; cbn; lia|].
    assert (En' : Z.to_nat (maximum f' - injected f') = n) by (subst f'; cbn; lia). rewrite En' in *.
    rewrite drop_drop. replace (a + (i + length mark))%nat with a' by lia.
    replace (a' - a)%nat with (i + length mark)%nat by lia. rewrite Hi.
    destruct (run n (drop a' data)) as [[o n'] t]. cbn [fst snd] in *.
    exists ([take (i + length mark) (drop a data); inj] ++ outs).
    split; [rewrite <- app_assoc; by subst f'|]. cbn. by rewrite Houts, app_nil_r || (rewrite <- Houts).
  - rewrite Efin. exists [drop a data]. cbn [fst snd]. split; [|cbn; by rewrite app_nil_r].
    destruct f. unfold set_injected. cbn in *. do 2 f_equal. lia.
Qed.

(** *** The matches that a block completes, continues or begins *)

Definition crosses (t data : list Z) (k : nat) : Prop :=
  ends_with t k ∧ (k < length mark)%nat ∧ (length mark - k ≤ length data)%nat ∧
  drop k mark = take (length mark - k) data.

Definition continues (t data : list Z) (j : nat) : Prop :=
  (length data < j < length mark)%nat ∧ ends_with t (j - length data) ∧
  take (length data) (drop (j - length data) mark) = data.

Lemma partial_loop_spec t data p pm : data ≠ [] → (p ≤ length mark)%nat → length pm = length mark →
  (∀ j, (j < p)%nat → pm !! j = Some true ↔ ends_with t j) →
  (∀ j, (p ≤ j < length mark)%nat → pm !! j = Some true ↔ continues t data j ∧ (p + length data ≤ j)%nat) →
  (∀ k, (p ≤ k)%nat → ¬ crosses t data k) →
  match partial_loop p mark data pm with
  | (pm', Some r) => pm' = replicate (length mark) false ∧ (0 < r ≤ length mark)%nat ∧
      crosses t data (length mark - r) ∧ ∀ k, (length mark - r < k)%nat → ¬ crosses t data k
  | (pm', None) => length pm' = length mark ∧ (∀ k, ¬ crosses t data k) ∧
      ∀ j, (j < length mark)%nat → pm' !! j = Some true ↔ continues t data j
  end.
Proof.
  intros Hd. assert (Hdl : (0 < length data)%nat) by (destruct data; [done|cbn; lia]).
  revert pm. induction p as [|p IH]; intros pm Hp Hl Hlow Hhigh Hno.
  { cbn [partial_loop]. split_and!; [done|intros k; apply Hno; lia|].
    intros j Hj. rewrite Hhigh by lia. split; [tauto|]. intros H. split; [done|]. destruct H as [? _]. lia. }
  cbn [partial_loop]. case_bool_decide as Hpm; rewrite (Hlow p) in Hpm by lia.
  - destruct (Nat.ltb_spec (length data) (length mark - p)) as [Hs|Hs].
    + assert (Hnc : ¬ crosses t data p) by (intros (_ & _ & ? & _); lia).
      assert (Hno' : ∀ k, (p ≤ k)%nat → ¬ crosses t data k).
      { intros k Hk. destruct (decide (k = p)) as [->|]; [done|]. apply Hno. lia. }
      case_bool_decide as Ht; apply IH; try (done || lia || by rewrite ?length_insert).
      * intros j Hj. rewrite !list_lookup_insert_ne by lia. apply Hlow. lia.
      * intros j Hj. destruct (decide (j = (p + length data)%nat)) as [->|Hjp].
        { rewrite list_lookup_insert_eq by (rewrite length_insert; lia). split; [|done]. intros _. split; [|lia].
          unfold continues. replace (p + length data - length data)%nat with p by lia.
          pose proof (proj1 Hpm). split_and!; [lia..|done|done]. }
        rewrite list_lookup_insert_ne by lia. destruct (decide (j = p)) as [->|Hjp'].
        { rewrite list_lookup_insert_eq by lia. split; [done|lia]. }
        rewrite list_lookup_insert_ne, Hhigh by lia. split; intros [? ?]; (split; [done|lia]).
      * intros j Hj. rewrite !list_lookup_insert_ne by lia. apply Hlow. lia.
      * intros j Hj. destruct (decide (j = p)) as [->|Hjp'].
        { rewrite list_lookup_insert_eq by lia. split; [done|lia]. }
        rewrite list_lookup_insert_ne, Hhigh by lia. split; intros [? ?]; (split; [done|]); [lia|].
        destruct (decide (j = (p + length data)%nat)) as [->|]; [|lia].
        destruct H as (_ & _ & H). by replace (p + length data - length data)%nat with p in H by lia.
    + case_bool_decide as Ht.
      * replace (length mark - (length mark - p))%nat with p by lia.
        split_and!; [done|lia|lia| |intros k Hk; apply Hno; lia]. split_and!; [done|lia|lia|done].
      * apply IH; try (done || lia || by rewrite ?length_insert).
        -- intros j Hj. rewrite !list_lookup_insert_ne by lia. apply Hlow. lia.
        -- intros j Hj. destruct (decide (j = p)) as [->|Hjp'].
           { rewrite list_lookup_insert_eq by lia. split; [done|lia]. }
           rewrite list_lookup_insert_ne, Hhigh by lia. split; intros [? ?]; (split; [done|]); [lia|].
           destruct H as (? & _). lia.
        -- intros k Hk. destruct (decide (k = p)) as [->|]; [|apply Hno; lia]. by intros (_ & _ & _ & ?).
  - apply IH; try (done || lia).
    + intros j Hj. apply Hlow. lia.
    + intros j Hj. destruct (decide (j = p)) as [->|Hjp].
      * rewrite Hlow by lia. split; [done|lia].
      * rewrite Hhigh by lia. split; intros [H ?]; (split; [done|]); [lia|].
        destruct (decide (j = (p + length data)%nat)) as [->|]; [|lia].
        destruct H as (_ & H & _). by replace (p + length data - length data)%nat with p in H by lia.
    + intros k Hk. destruct (decide (k = p)) as [->|]; [|apply Hno; lia]. by intros (? & _).
Qed.

Lemma end_loop_spec p data pm : (p < length pm)%nat →
  length (end_loop p mark data pm) = length pm ∧
  ∀ j, end_loop p mark data pm !! j = Some true ↔
    pm !! j = Some true ∨ (1 ≤ j ≤ p)%nat ∧ take j mark = drop (length data - j) data.
Proof.
  revert pm. induction p as [|p IH]; intros pm Hp; [split; [done|]; intros j; cbn; intuition lia|].
  cbn [end_loop]. case_bool_decide as Ht.
  - destruct (IH (<[S p := true]> pm)) as [H1 H2]; [rewrite length_insert; lia|].
    rewrite length_insert in H1. split; [done|]. intros j. rewrite H2.
    destruct (decide (j = S p)) as [->|Hj].
    + rewrite list_lookup_insert_eq by lia. split; [|by left]. intros _. right. split; [lia|done].
    + rewrite list_lookup_insert_ne by lia. intuition lia.
  - destruct (IH pm) as [H1 H2]; [lia|]. split; [done|]. intros j. rewrite H2.
    destruct (decide (j = S p)) as [->|Hj]; [intuition lia|intuition lia].
Qed.

(** *** Where the first occurrence is *)

Lemma crosses_occurs t b k : crosses t b k →
  t ++ b = take (length t - k) t ++ mark ++ drop (length mark - k) b.
Proof.
  intros ([Hk Ht] & Hkm & Hl & Hb). rewrite <- (take_drop k mark) at 1. rewrite Ht, Hb.
  rewrite <- app_assoc. rewrite (app_assoc (take (length t - k) t)), take_drop. by rewrite take_drop.
Qed.

Lemma occurs_crosses t b x y : memmem t mark = None → t ++ b = x ++ mark ++ y → (length x < length t)%nat →
  crosses t b (length t - length x).
Proof.
  intros Ht E Hx. destruct (decide (length x + length mark ≤ length t)%nat) as [Hl|Hl].
  { destruct (first_part _ _ _ _ _ E Hl) as [r Hr]. rewrite memmem_None in Ht. by destruct (Ht x r). }
  assert (Ex : x = take (length x) t).
  { rewrite <- (take_app_le t b), E, take_app_length by lia. done. }
  assert (Ed : drop (length x) t ++ b = mark ++ y).
  { rewrite Ex in E. rewrite <- (take_drop (length x) t), <- app_assoc in E at 1.
    rewrite <- Ex in E at 1. rewrite <- Ex in E. by apply app_inv_head in E. }
  set (k := (length t - length x)%nat).
  assert (Hk : length (drop (length x) t) = k) by (rewrite length_drop; done).
  assert (Em : take k mark = drop (length x) t).
  { rewrite <- (take_app_le mark y), <- Ed by lia. by rewrite take_app_length'. }
  split_and!.
  - split; [lia|]. rewrite Em. f_equal. lia.
  - lia.
  - apply (f_equal length) in E. rewrite !length_app in E. lia.
  - assert (Emm : mark = drop (length x) t ++ take (length mark - k) b).
    { rewrite <- (take_app_length mark y) at 1. rewrite <- Ed, take_app, Hk, take_ge by (rewrite Hk; lia). done. }
    rewrite Emm at 1. by rewrite drop_app_length'.
Qed.

Lemma memmem_prefix_le t b j : memmem (t ++ b) mark = Some j →
  ∃ x y, t ++ b = x ++ mark ++ y ∧ length x = j ∧ (j + length mark ≤ length t + length b)%nat.
Proof.
  intros (x & y & E & <-)%memmem_some. exists x, y. split_and!; [done..|].
  apply (f_equal length) in E. rewrite !length_app in E. lia.
Qed.

(** Without an occurrence across the border, the block can be searched by itself. *)
Lemma memmem_apart t b : memmem t mark = None → (∀ k, ¬ crosses t b k) →
  memmem (t ++ b) mark = (λ i, length t + i)%nat <$> memmem b mark.
Proof.
  intros Ht Hno. destruct (memmem (t ++ b) mark) as [j|] eqn:E.
  - pose proof E as E'. apply memmem_some in E' as (x & y & Ex & <-).
    destruct (decide (length x < length t)%nat) as [Hlt|Hge].
    { destruct (Hno (length t - length x)%nat). by eapply occurs_crosses. }
    assert (Eb : b = drop (length t) x ++ mark ++ y).
    { rewrite <- (drop_app_length t b), Ex. apply drop_app_le. lia. }
    destruct (memmem b mark) as [i|] eqn:Eb2.
    + cbn. f_equal. pose proof (memmem_before _ _ _ _ _ Eb2 Eb) as H1. rewrite length_drop in H1.
      apply memmem_some in Eb2 as (x' & y' & Eb2 & <-).
      assert (H2 : (length x ≤ length (t ++ x'))%nat).
      { eapply memmem_before; [exact E|]. by rewrite Eb2, <- app_assoc. }
      rewrite length_app in H2. lia.
    + rewrite memmem_None in Eb2. by destruct (Eb2 (drop (length t) x) y).
  - destruct (memmem b mark) as [i|] eqn:Eb2; [|done].
    apply memmem_some in Eb2 as (x' & y' & -> & _). rewrite memmem_None in E.
    destruct (E (t ++ x') y'). by rewrite <- app_assoc.
Qed.

(** The longest beginning that the block completes is the first occurrence. *)
Lemma memmem_across t b k : memmem t mark = None → crosses t b k → (∀ k', (k < k')%nat → ¬ crosses t b k') →
  memmem (t ++ b) mark = Some (length t - k)%nat.
Proof.
  intros Ht Hk Hmax. pose proof (crosses_occurs t b k Hk) as Eo.
  destruct (memmem (t ++ b) mark) as [j|] eqn:E.
  - f_equal. pose proof (memmem_before _ _ _ _ _ E Eo) as H1. rewrite length_take in H1.
    apply memmem_some in E as (x & y & Ex & <-). destruct Hk as ([Hk _] & _).
    destruct (decide (length x = length t - k)%nat) as [|Hx]; [done|].
    destruct (Hmax (length t - length x)%nat); [lia|]. eapply occurs_crosses; [done|exact Ex|lia].
  - rewrite memmem_None in E. by destruct (E (take (length t - k) t) (drop (length mark - k) b)).
Qed.

(** *** What a run leaves *)

Lemma run_left n s o n' t : run n s = (o, n', t) →
  n' = n ∧ (n ≠ 0%nat → o = s ∧ t = s ∧ memmem s mark = None) ∨
  (n' < n)%nat ∧ (n' = 0%nat ∨ ∃ pre, s = pre ++ mark ++ t).
Proof.
  revert s o n' t. induction n as [|n IH]; intros s o n' t; cbn; [intros [= _ <- _]; by left|].
  destruct (memmem s mark) as [i|] eqn:E; [|intros [= <- <- <-]; by left].
  destruct (run n _) as [[o1 n1] t1] eqn:Er. intros [= _ <- <-]. right.
  apply memmem_some in E as (x & y & -> & <-).
  assert (Ey : drop (length x + length mark) (x ++ mark ++ y) = y).
  { rewrite app_assoc. apply drop_app_length'. by rewrite length_app. }
  rewrite Ey in Er. destruct (IH _ _ _ _ Er) as [[-> H]|[Hlt [->|[pre ->]]]].
  - split; [lia|]. destruct n as [|n]; [by left|]. right. destruct (H ltac:(done)) as (_ & -> & _). by exists x.
  - split; [lia|by left].
  - split; [lia|]. right. exists (x ++ mark ++ pre). by rewrite <- !app_assoc.
Qed.

(** What is behind a marker ends with beginnings of the marker that it has itself: the marker has no
    border. *)
Lemma ends_after pre q t2 j : (q < length mark)%nat → (j < length mark)%nat →
  (0 < j ≤ length (drop q mark ++ t2))%nat →
  (take j mark = drop (length (pre ++ drop q mark ++ t2) - j) (pre ++ drop q mark ++ t2) ↔ ends_with t2 j).
Proof.
  intros Hq Hj Hl. rewrite length_app in Hl. rewrite length_drop in Hl.
  set (e := drop q mark) in *. assert (He : length e = (length mark - q)%nat) by apply length_drop.
  replace (drop (length (pre ++ e ++ t2) - j) (pre ++ e ++ t2))
    with (drop (length e + length t2 - j) (e ++ t2)).
  2:{ rewrite !length_app. rewrite (drop_app_ge pre) by lia. f_equal. lia. }
  unfold ends_with. destruct (decide (j ≤ length t2)%nat) as [Hj2|Hj2].
  - rewrite drop_app_ge by lia. replace (length e + length t2 - j - length e)%nat with (length t2 - j)%nat by lia.
    split; [intros H; split; [lia|done]|by intros [_ ?]].
  - split; [|intros [? _]; lia]. intros H. exfalso.
    rewrite drop_app_le in H by lia. set (d := (j - length t2)%nat).
    apply (Hbf d); [lia|].
    apply (f_equal (take d)) in H. rewrite take_take, Nat.min_l in H by lia. rewrite H.
    rewrite take_app_length' by (rewrite length_drop; lia). rewrite He. unfold e. rewrite drop_drop. f_equal. lia.
Qed.

(** *** Blocks *)

Lemma inv_run f n t : filter_inv f n t → run n t = (t, n, t).
Proof.
  intros [_ _ _ _ _ Hd Ht _]. destruct n as [|n]; [by rewrite Hd|]. cbn. by rewrite Ht.
Qed.

Lemma run_facts n s o n' t : run n s = (o, n', t) →
  (n' ≤ n)%nat ∧ (n' = 0%nat → t = []) ∧ memmem t mark = None.
Proof.
  pose proof mark_pos as Hmp. assert (Hnil : memmem [] mark = None) by (by destruct mark).
  revert s o n' t. induction n as [|n IH]; intros s o n' t; cbn; [by intros [= _ <- <-]|].
  destruct (memmem s mark) as [i|] eqn:E; [|intros [= _ <- <-]; split_and!; done].
  destruct (run n _) as [[o1 n1] t1] eqn:Er. intros [= _ <- <-].
  destruct (IH _ _ _ _ Er) as (? & ? & ?). split_and!; [lia|done|done].
Qed.

Lemma inv_after f n t pm pm' n' t' : filter_inv f n t → (n' ≤ n)%nat → length pm' = length mark →
  (n' = 0%nat → t' = []) → memmem t' mark = None → (n' ≠ 0%nat → represents t' pm') →
  filter_inv (set_partial_matches pm' (set_injected (maximum f - Z.of_nat n') (set_partial_matches pm f))) n' t'.
Proof. intros [] ? ? ? ? ?. constructor; cbn; (done || lia). Qed.

Definition longest (b : list Z) : nat := Nat.min (length mark - 1) (length b).

(** The partial matches at the end of a block: the marker is still awaited, or has been found in it. *)
Lemma represents_awaited t b pm : b ≠ [] → length pm = length mark →
  (∀ j, (j < length mark)%nat → pm !! j = Some true ↔ continues t b j) →
  represents (t ++ b) (end_loop (longest b) mark b pm).
Proof.
  intros Hb Hl Hpm j Hj. pose proof mark_pos as Hmp.
  destruct (end_loop_spec (longest b) b pm) as [_ He]; [unfold longest; lia|]. rewrite He, Hpm by done.
  unfold ends_with, continues, longest. rewrite length_app.
  destruct (decide (j ≤ length b)%nat) as [Hjb|Hjb].
  - rewrite drop_app_ge by lia. replace (length t + length b - j - length t)%nat with (length b - j)%nat by lia.
    split; [intros [([? _] & _)|[? ?]]; [lia|split; [lia|done]]|intros [? ?]; right; split; [lia|done]].
  - rewrite drop_app_le by lia. set (k := (j - length b)%nat).
    replace (length t + length b - j)%nat with (length t - k)%nat by lia.
    assert (Hjk : take j mark = take k mark ++ take (length b) (drop k mark)).
    { rewrite <- (take_drop k (take j mark)), take_take, Nat.min_l by lia. f_equal.
      rewrite take_drop_commute. f_equal. f_equal. lia. }
    rewrite Hjk. split.
    + intros [(_ & [Hk Ht] & Hd)|[? _]]; [|lia]. split; [lia|]. by rewrite Ht, Hd.
    + intros [Hk H]. left. split; [lia|]. apply app_inj_1 in H as [H1 H2].
      * split; [split; [lia|done]|done].
      * rewrite length_take, length_drop. lia.
Qed.

Lemma represents_found b pre q t2 pm : length pm = length mark → (∀ j, pm !! j ≠ Some true) →
  b = pre ++ drop q mark ++ t2 → (q < length mark)%nat → (pre = [] ∨ q = 0%nat) →
  represents t2 (end_loop (longest b) mark b pm).
Proof.
  intros Hl Hpm Hb Hq Hpre j Hj. pose proof mark_pos as Hmp.
  destruct (end_loop_spec (longest b) b pm) as [_ He]; [unfold longest; lia|]. rewrite He.
  assert (Hlb : length b = (length pre + (length mark - q) + length t2)%nat).
  { rewrite Hb, !length_app, length_drop. lia. }
  assert (Hlen : length (drop q mark ++ t2) = (length mark - q + length t2)%nat).
  { by rewrite length_app, length_drop. }
  split.
  - intros [H|[Hj1 H]]; [by destruct (Hpm j)|]. unfold longest in Hj1. rewrite Hb in H.
    apply (ends_after pre q t2 j); [done|done| |done]. rewrite Hlen. destruct Hpre as [-> | ->]; cbn in Hlb; lia.
  - intros H. right. destruct H as [Hj1 H]. unfold longest. split; [lia|]. rewrite Hb.
    apply (ends_after pre q t2 j); [done|done|rewrite Hlen; lia|by split].
Qed.

Lemma run_across n t b r : memmem t mark = None → (0 < r ≤ length mark)%nat →
  crosses t b (length mark - r) → (∀ k, (length mark - r < k)%nat → ¬ crosses t b k) →
  run (S n) (t ++ b) =
  (t ++ take r b ++ inj ++ (run n (drop r b)).1.1, (run n (drop r b)).1.2, (run n (drop r b)).2).
Proof.
  intros Ht Hr Hcr Hmax. cbn [run]. rewrite (memmem_across t b _ Ht Hcr Hmax).
  destruct Hcr as ([Hk _] & _).
  replace (length t - (length mark - r) + length mark)%nat with (length t + r)%nat by lia.
  rewrite take_app_add, drop_app_add. destruct (run n (drop r b)) as [[o n'] t']. cbn. by rewrite <- !app_assoc.
Qed.

Lemma run_apart n t b : memmem t mark = None → (∀ k, ¬ crosses t b k) →
  run (S n) (t ++ b) =
  (t ++ (run (S n) b).1.1, (run (S n) b).1.2,
   if decide ((run (S n) b).1.2 = S n) then t ++ b else (run (S n) b).2).
Proof.
  intros Ht Hno. cbn [run]. rewrite (memmem_apart t b Ht Hno). destruct (memmem b mark) as [i|]; cbn.
  - rewrite <- Nat.add_assoc, take_app_add, drop_app_add.
    destruct (run n (drop (i + length mark) b)) as [[o n'] t'] eqn:E. cbn.
    destruct (run_facts _ _ _ _ _ E) as [? _]. rewrite decide_False by lia. by rewrite <- app_assoc.
  - by rewrite decide_True.
Qed.

Lemma push_spec f n t b outs f' : filter_inv f n t → cockpit_web_inject_push f b = (outs, f') →
  concat outs = drop (length t) (run n (t ++ b)).1.1 ∧
  filter_inv f' (run n (t ++ b)).1.2 (run n (t ++ b)).2.
Proof.
  intros I. destruct (decide (b = [])) as [->|Hb].
  { unfold cockpit_web_inject_push. rewrite bool_decide_eq_true_2 by done. intros [= <- <-].
    rewrite app_nil_r, (inv_run _ _ _ I). cbn. by rewrite drop_all. }
  unfold cockpit_web_inject_push. rewrite bool_decide_eq_false_2 by done.
  pose proof (fi_marker _ _ _ I) as Hm. pose proof (fi_inject _ _ _ I) as Hi.
  pose proof (fi_count _ _ _ I) as Hc. pose proof (fi_left _ _ _ I) as Hn. rewrite Hm.
  destruct (Z.ltb_spec (injected f) (maximum f)) as [Hlt|Hge].
  2:{ destruct (search_clean (S (S (length b))) b 0 None (set_partial_matches (partial_matches f) f) [])
        as (outs' & Es & Eo); [lia|done|done|done|].
      cbn [default]. rewrite Es. cbn [app marker set_injected set_partial_matches]. rewrite Hm. intros [= <- <-].
      cbn [maximum injected set_partial_matches] in *. rewrite <- Hn in *.
      assert (n = 0%nat) as -> by lia. pose proof (fi_done _ _ _ I eq_refl) as ->. cbn [app length] in *.
      rewrite drop_0 in *. split; [done|]. cbn [run fst snd].
      apply (inv_after f 0 []); [done|lia| |done|by apply (fi_tail _ _ _ I)|done].
      destruct (end_loop_spec (longest b) b (partial_matches f)) as [He _].
      - rewrite (fi_length _ _ _ I). unfold longest. pose proof mark_pos. lia.
      - cbn. unfold longest in He. rewrite He. apply I. }
  assert (Hn0 : n ≠ 0%nat) by lia. rewrite (fi_length _ _ _ I).
  pose proof (partial_loop_spec t b (length mark) (partial_matches f) Hb ltac:(lia) (fi_length _ _ _ I)
    (fi_partial _ _ _ I Hn0) ltac:(lia)) as Hpl.
  destruct (partial_loop (length mark) mark b (partial_matches f)) as [pm [r|]].
  - destruct Hpl as (-> & Hr & Hcr & Hmax); [by intros k Hk (_ & ? & _); lia|].
    cbn [default]. rewrite search_emit by (cbn; lia).
    destruct (search_clean (S (S (length b))) b r (Some r)
      (set_injected (injected f + 1) (set_partial_matches (replicate (length mark) false) f))
      ([take (r - 0) (drop 0 b); inject f])) as (outs' & Es & Eo);
      [destruct Hcr as (_ & _ & ? & _); lia|done|done|cbn; lia|].
    cbn [app inject set_partial_matches injected] in *. rewrite Es.
    cbn [app marker set_injected set_partial_matches maximum injected] in *. rewrite Hm. intros [= <- <-].
    destruct n as [|n]; [done|]. rewrite (run_across n t b r (fi_tail _ _ _ I) Hr Hcr Hmax).
    replace (Z.to_nat (maximum f - (injected f + 1))) with n in * by lia.
    cbn [fst snd]. split.
    { rewrite drop_app_length. cbn [concat]. rewrite Eo, Nat.sub_0_r, Hi. done. }
    destruct (run n (drop r b)) as [[o n'] t'] eqn:Er. cbn [fst snd].
    destruct (run_facts _ _ _ _ _ Er) as (Hle & Hz & Ht'). cbn [partial_matches].
    destruct (end_loop_spec (longest b) b (replicate (length mark) false)) as [He _].
    { rewrite length_replicate. unfold longest. pose proof mark_pos. lia. }
    rewrite length_replicate in He. unfold set_partial_matches at 1.
    apply (inv_after f (S n) t (replicate (length mark) false)); [done|lia|done|done|done|].
    intros Hn'. destruct Hcr as (_ & _ & Hrb & Hdr).
    replace (length mark - (length mark - r))%nat with r in Hdr by lia.
    destruct (run_left _ _ _ _ _ Er) as [[-> H]|[_ [->|[pre Hpre]]]]; [|done|].
    + destruct (H Hn') as (_ & -> & _). apply (represents_found b [] (length mark - r)).
      * apply length_replicate.
      * intros j [? ?]%lookup_replicate. done.
      * cbn. by rewrite Hdr, take_drop.
      * lia.
      * by left.
    + apply (represents_found b (take r b ++ pre) 0).
      * apply length_replicate.
      * intros j [? ?]%lookup_replicate. done.
      * rewrite drop_0, <- app_assoc, <- Hpre. symmetry. apply take_drop.
      * apply mark_pos.
      * by right.
  - destruct Hpl as (Hl & Hno & Hcont); [by intros k Hk (_ & ? & _); lia|].
    cbn [default]. destruct (search_clean (S (S (length b))) b 0 None (set_partial_matches pm f) [])
      as (outs' & Es & Eo); [lia|done|done|done|].
    rewrite Es. cbn [app marker set_injected set_partial_matches maximum injected] in *. rewrite Hm. intros [= <- <-].
    rewrite drop_0, <- Hn in *. destruct n as [|n]; [done|].
    rewrite (run_apart n t b (fi_tail _ _ _ I) Hno). cbn [fst snd].
    split; [by rewrite drop_app_length|].
    destruct (run (S n) b) as [[o n'] t'] eqn:Er. cbn [fst snd].
    destruct (run_facts _ _ _ _ _ Er) as (Hle & Hz & Ht'). cbn [partial_matches].
    destruct (end_loop_spec (longest b) b pm) as [He _].
    { unfold longest. pose proof mark_pos. lia. }
    unfold longest in He. apply (inv_after f (S n) t pm); [done|done|by rewrite He| | |].
    + intros ->. rewrite decide_False by done. by apply Hz.
    + case_decide as Hd; [|done]. subst n'. destruct (run_left _ _ _ _ _ Er) as [[_ H]|[? _]]; [|lia].
      destruct (H ltac:(done)) as (_ & _ & Hb'). by rewrite (memmem_apart t b (fi_tail _ _ _ I) Hno), Hb'.
    + intros Hn'. case_decide as Hd; [by apply represents_awaited|].
      destruct (run_left _ _ _ _ _ Er) as [[? _]|[_ [->|[pre Hpre]]]]; [done|done|].
      apply (represents_found b pre 0); [done| |done|apply mark_pos|by right].
      intros j Hj. assert (j < length mark)%nat by (apply lookup_lt_Some in Hj; lia).
      rewrite Hcont in Hj by done. destruct Hj as [? _].
      rewrite Hpre, !length_app in *. lia.
Qed.

Lemma push_blocks_snoc f blocks b :
  push_blocks f (blocks ++ [b]) =
  let '(out, g) := cockpit_web_filter_push (push_blocks f blocks).2 b in ((push_blocks f blocks).1 ++ out, g).
Proof. unfold push_blocks. by rewrite foldl_app. Qed.

Lemma push_blocks_run f n t blocks : filter_inv f n t →
  concat (push_blocks f blocks).1 = drop (length t) (run n (t ++ concat blocks)).1.1 ∧
  filter_inv (push_blocks f blocks).2 (run n (t ++ concat blocks)).1.2 (run n (t ++ concat blocks)).2.
Proof.
  intros I. induction blocks as [|b blocks IH] using rev_ind.
  { cbn [push_blocks foldl concat fst snd]. rewrite app_nil_r, (inv_run _ _ _ I). cbn [fst snd].
    by rewrite drop_all. }
  rewrite push_blocks_snoc. destruct (cockpit_web_filter_push (push_blocks f blocks).2 b) as [out g] eqn:Ep. cbn [fst snd app].
  destruct (run n (t ++ concat blocks)) as [[o n1] t1] eqn:Er. cbn [fst snd] in IH. destruct IH as [IH1 IH2].
  destruct (push_spec _ _ _ _ _ _ IH2 Ep) as [H1 H2].
  rewrite !concat_app, IH1, H1. cbn [concat]. rewrite app_nil_r, app_assoc, (run_app _ _ b _ _ _ Er). cbn [fst snd].
  split; [|done]. rewrite drop_app_le; [done|].
  pose proof (run_app n t (concat blocks) t n t (inv_run _ _ _ I)) as E. rewrite Er in E.
  apply (f_equal (λ x, length x.1.1)) in E. cbn [fst snd] in E. rewrite length_app in E. lia.
Qed.
End Inject.

(** C25: however a response is cut into blocks, a filter passes on the stream with the bytes injected
    behind the first occurrences of the marker, as many as it was made for, no matter
    whether an occurrence lies in one block or across several; if the marker has no border. *)
Theorem injection_in_blocks mark inj count f blocks : border_free mark → 0 ≤ count →
  cockpit_web_inject_new mark inj count = Some f →
  concat (push_blocks f blocks).1 = injected_stream mark inj (Z.to_nat count) (concat blocks).
Proof.
  intros Hbf Hc. unfold cockpit_web_inject_new. case_bool_decide as Hne; [done|]. intros [= <-].
  destruct (push_blocks_run mark inj Hne Hbf (mkInject (replicate (length mark) false) mark inj count 0)
    (Z.to_nat count) [] blocks) as [E _].
  - constructor; cbn; try done; [by rewrite Z.sub_0_r|apply length_replicate|by destruct mark|].
    intros _ k Hk. rewrite lookup_replicate. unfold ends_with. cbn. split; [by intros [? _]|lia].
  - by rewrite E, run_stream.
Qed.

Lemma injection_in_blocks_witness :
  concat (push_blocks (mkInject (replicate 6 false) (bs "<head>") (bs "<base>") 1 0)
    [bs "<html><he"; bs "a"; bs "d><title>"; bs "<head>"]).1 =
  injected_stream (bs "<head>") (bs "<base>") 1 (bs "<html><head><title><head>").
Proof.
  apply (injection_in_blocks (bs "<head>") (bs "<base>") 1 _ [bs "<html><he"; bs "a"; bs "d><title>"; bs "<head>"]);
    [by_decide|lia|done].
Defined.

(** Of a marker with a border, an occurrence that overlaps the one before counts if a block ends in
    between: what is injected depends on the blocks. *)
Lemma border_counted_twice :
  concat (push_blocks (mkInject [false; false; false] (bs "ABA") (bs "!") 2 0) [bs "ABABA"]).1 = bs "ABA!BA" ∧
  concat (push_blocks (mkInject [false; false; false] (bs "ABA") (bs "!") 2 0) [bs "ABA"; bs "BA"]).1 = bs "ABA!BA!".
Proof. by vm_compute. Qed.

(** ** Templates *)

Definition VARCHARS : list Z :=
  bs "ABCDEFGHIJKLMNOPQRSTUVWXYZabcdefghijklmnopqrstuvwxyz0123456789._-".

Section Template.
Context (start_marker end_marker : list Z).

(** The offsets of the variable and of what follows it, and its name.  Fuel: an attempt takes a character
    at least. *)
Fixpoint find_variable_loop (fuel : nat) (data : list Z) (offset : nat) : option (nat * list Z * nat) :=
  match fuel with
  | O => None
  | S fuel =>
      match memmem data start_marker with
      | None => None
      | Some a =>
          let b := drop (a + length start_marker) data in
          match memmem b end_marker with
          | None => None
          | Some c =>
              let d := (offset + (a + length start_marker) + (c + length end_marker))%nat in
              if negb (c =? 0)%nat && (strspn b VARCHARS =? c)%nat then Some ((offset + a)%nat, take c b, d)
              else find_variable_loop fuel (drop (c + length end_marker) b) d
          end
      end
  end.

(** [strlen] looks for a NUL from [data] on, in whatever follows it. *)
Definition find_variable (memory : list Z) : comp unit (option (nat * list Z * nat)) :=
  if bool_decide (0 ∈ memory) then
    Ok (find_variable_loop (S (length (cstr memory))) (cstr memory) 0)
  else Fault.

Context (func : list Z → option (list Z)).

(** [beyond] is what the memory has behind the input. *)
Fixpoint template_loop (fuel : nat) (data beyond : list Z) : comp unit (list (list Z)) :=
  match fuel with
  | O => Fault
  | S fuel =>
      variable ← find_variable (data ++ beyond);
      match variable with
      | None => Ok (if bool_decide (data = []) then [] else [data])
      | Some (before, name, after) =>
          let escaped := negb (before =? 0)%nat && bool_decide ((data ++ beyond) !! (before - 1)%nat = Some 92) in
          let text := if (before =? 0)%nat then []
                      else [take (if escaped then before - 1 else before) (data ++ beyond)] in
          let value := default (take (after - before) (drop before (data ++ beyond)))
                         (if escaped then None else func name) in
          _ ← cassert (after <=? length data)%nat;
          rest ← template_loop fuel (drop after data) beyond;
          Ok (text ++ (if bool_decide (value = []) then [] else [value]) ++ rest)
      end
  end.

Definition cockpit_template_expand (input beyond : list Z) : comp unit (list (list Z)) :=
  template_loop (S (length input)) input beyond.

(** Strings of JSON end with a NUL. *)
Definition template_walk_func (node : json) : option json :=
  match node with
  | JString string =>
      match memmem string start_marker, cockpit_template_expand string [0] with
      | Some _, Ok output =>
          if bool_decide (concat output = string) then None else Some (JString (concat output))
      | _, _ => None
      end
  | _ => None
  end.

Definition cockpit_template_expand_json (o : object) : object := cockpit_json_walk template_walk_func o.

(** *** Expansion of what has been written *)

Inductive piece :=
| Text (s : list Z)
| Variable_ (name : list Z).

Definition render_piece (p : piece) : list Z :=
  match p with Text s => s | Variable_ name => start_marker ++ name ++ end_marker end.
Definition render (ps : list piece) : list Z := ps ≫= render_piece.

Definition expand_piece (p : piece) : list Z :=
  match p with
  | Text s => s
  | Variable_ name => default (render_piece p) (func name)
  end.
Definition expand (ps : list piece) : list Z := ps ≫= expand_piece.
End Template.

(** *** Nothing is read beyond a NUL *)

Lemma find_variable_bounds start_marker end_marker fuel data offset before name after :
  find_variable_loop start_marker end_marker fuel data offset = Some (before, name, after) →
  (offset ≤ before < after)%nat ∧ (after ≤ offset + length data)%nat.
Proof.
  revert data offset. induction fuel as [|fuel IH]; intros data offset; [done|]. cbn [find_variable_loop].
  destruct (memmem data start_marker) as [a|] eqn:Ea; [|done].
  destruct (memmem (drop _ data) end_marker) as [c|] eqn:Ec; [|done].
  apply memmem_some in Ec as (x & y & Ec & <-). apply (f_equal length) in Ec.
  rewrite length_drop, !length_app in Ec.
  apply memmem_some in Ea as (x' & y' & -> & <-). rewrite !length_app in *.
  destruct (negb (length x =? 0)%nat && _) eqn:E.
  - intros [= <- _ <-]. to_prop. apply Nat.eqb_neq in H. lia.
  - intros H%IH. rewrite !length_drop, !length_app in H. lia.
Qed.

Lemma find_variable_text start_marker end_marker data beyond : nul_free data →
  find_variable start_marker end_marker (data ++ 0 :: beyond) =
  Ok (find_variable_loop start_marker end_marker (S (length data)) data 0).
Proof.
  intros H. unfold find_variable. rewrite bool_decide_eq_true_2 by (apply elem_of_app; right; left).
  by rewrite cstr_app_nul.
Qed.

(** A template that ends with a NUL never faults. *)
Lemma template_safe start_marker end_marker func data beyond : nul_free data →
  ∃ blocks, cockpit_template_expand start_marker end_marker func data (0 :: beyond) = Ok blocks.
Proof.
  unfold cockpit_template_expand. generalize (Nat.lt_succ_diag_r (length data)).
  generalize (S (length data)) as fuel. intros fuel. revert data.
  induction fuel as [|fuel IH]; intros data Hf Hn; [lia|]. cbn [template_loop]. rewrite find_variable_text by done.
  cbn [mbind comp_bind].
  destruct (find_variable_loop _ _ _ _ _) as [[[before name] after]|] eqn:E; [|by eexists].
  apply find_variable_bounds in E as [H1 H2]. rewrite (proj2 (Nat.leb_le _ _)) by lia. cbn [cassert].
  destruct (IH (drop after data)) as [blocks ->]; [rewrite length_drop; lia|by apply Forall_drop|by eexists].
Qed.

(** Markers that can be told from text and names by their first characters. *)
Class Markers (start_marker end_marker : list Z) (s0 e0 : Z) := {
  marker_start : head start_marker = Some s0;
  marker_end : head end_marker = Some e0;
  marker_end_name : e0 ∉ VARCHARS;
  marker_texts : nul_free start_marker ∧ nul_free end_marker
}.

#[export] Instance at_markers : Markers (bs "@@") (bs "@@") 64 64.
Proof. constructor; [done|done|by_decide|split; by_decide]. Qed.
#[export] Instance brace_markers : Markers (bs "${") (bs "}") 36 125.
Proof. constructor; [done|done|by_decide|split; by_decide]. Qed.

(** Text has no character of a marker, and does not end with the character that escapes one. *)
Definition piece_ok (s0 : Z) (p : piece) : Prop :=
  match p with
  | Text s => s0 ∉ s ∧ nul_free s ∧ last s ≠ Some 92
  | Variable_ name => name ≠ [] ∧ Forall (λ c, c ∈ VARCHARS) name
  end.

Section Expansion.
Context (start_marker end_marker : list Z) (s0 e0 : Z) `{M : !Markers start_marker end_marker s0 e0}.
Context (func : list Z → option (list Z)).

Notation render := (render start_marker end_marker).
Notation expand := (expand start_marker end_marker func).
Notation render_piece := (render_piece start_marker end_marker).

Lemma memmem_headed a needle n0 b : head needle = Some n0 → n0 ∉ a →
  memmem (a ++ needle ++ b) needle = Some (length a).
Proof.
  intros Hh Ha. apply memmem_first. intros x y z -> Hy E. destruct needle as [|n needle]; [done|].
  injection Hh as ->. destruct y as [|c y]; [done|]. injection E as -> _. apply Ha, elem_of_app. right. left.
Qed.

Lemma memmem_absent a needle n0 : head needle = Some n0 → n0 ∉ a → memmem a needle = None.
Proof.
  intros Hh Ha. apply memmem_None. intros x y ->. destruct needle as [|n needle]; [done|]. injection Hh as ->.
  apply Ha. rewrite !elem_of_app. right. left. left.
Qed.

Lemma varchars_not name : Forall (λ c, c ∈ VARCHARS) name → e0 ∉ name ∧ nul_free name.
Proof.
  intros H. split.
  - intros Hin. rewrite Forall_forall in H. by apply marker_end_name, H.
  - eapply Forall_impl; [exact H|]. intros c Hc ->. revert Hc. by_decide.
Qed.

Lemma strspn_name name rest : Forall (λ c, c ∈ VARCHARS) name →
  strspn (name ++ end_marker ++ rest) VARCHARS = length name.
Proof.
  pose proof marker_end as He. pose proof marker_end_name as Hn.
  induction 1 as [|c name Hc H IH]; cbn [app strspn length].
  - destruct end_marker as [|x em]; [done|]. injection He as ->. cbn [app strspn].
    by rewrite bool_decide_eq_false_2.
  - rewrite bool_decide_eq_true_2 by done. assert (c ≠ 0) by (intros ->; revert Hc; by_decide).
    rewrite (proj2 (Z.eqb_neq c 0)) by done. cbn [negb andb]. by rewrite IH.
Qed.

Lemma find_first fuel t name rest : s0 ∉ t → name ≠ [] → Forall (λ c, c ∈ VARCHARS) name →
  find_variable_loop start_marker end_marker (S fuel) (t ++ start_marker ++ name ++ end_marker ++ rest) 0 =
  Some (length t, name, length (t ++ start_marker ++ name ++ end_marker)).
Proof.
  intros Ht Hne Hn. destruct (varchars_not name Hn) as [He _]. cbn [find_variable_loop].
  rewrite (memmem_headed t start_marker s0) by (done || apply marker_start).
  replace (drop (length t + length start_marker) (t ++ start_marker ++ name ++ end_marker ++ rest))
    with (name ++ end_marker ++ rest).
  2:{ rewrite <- drop_drop, !drop_app_length. done. }
  rewrite (memmem_headed name end_marker e0) by (done || apply marker_end).
  rewrite strspn_name, Nat.eqb_refl, take_app_length by done.
  destruct name as [|c name]; [done|]. cbn [length Nat.eqb negb andb]. do 2 f_equal.
  rewrite !length_app. cbn. lia.
Qed.

Lemma render_nul_free ps : Forall (piece_ok s0) ps → nul_free (render ps).
Proof.
  intros H. apply Forall_bind. eapply Forall_impl; [exact H|]. intros [s|name]; cbn; [tauto|].
  intros [_ Hn]. destruct marker_texts as [? ?]. rewrite !Forall_app. split_and!; try done. by apply varchars_not.
Qed.

Lemma template_pieces ps fuel t beyond : s0 ∉ t → nul_free t → last t ≠ Some 92 → Forall (piece_ok s0) ps →
  (length (t ++ render ps) < fuel)%nat →
  ∃ blocks, template_loop start_marker end_marker func fuel (t ++ render ps) (0 :: beyond) = Ok blocks ∧
    concat blocks = t ++ expand ps.
Proof.
  intros Ht Htn Htl Hps. revert fuel t Ht Htn Htl.
  induction Hps as [|p ps Hp Hps IH]; intros fuel t Ht Htn Htl Hf; (destruct fuel as [|fuel]; [lia|]).
  - cbn [template_loop render mbind list_bind]. rewrite app_nil_r, find_variable_text by done. cbn [find_variable_loop]. rewrite (memmem_absent t start_marker s0) by (done || apply marker_start).
    cbn. eexists. split; [done|]. rewrite app_nil_r. case_bool_decide as E; [by subst|]. cbn. by rewrite app_nil_r.
  - destruct p as [s|name].
    + destruct Hp as (Hs & Hsn & Hsl).
      change (render (Text s :: ps)) with (s ++ render ps) in *. change (expand (Text s :: ps)) with (s ++ expand ps).
      rewrite !app_assoc in *. apply IH; try done.
      * by rewrite not_elem_of_app.
      * by apply Forall_app.
      * rewrite last_app. by destruct (last s) eqn:E.
    + destruct Hp as [Hne Hn].
      change (render (Variable_ name :: ps)) with ((start_marker ++ name ++ end_marker) ++ render ps) in *.
      change (expand (Variable_ name :: ps)) with
        (default (start_marker ++ name ++ end_marker) (func name) ++ expand ps).
      assert (Hnf : nul_free (t ++ (start_marker ++ name ++ end_marker) ++ render ps)).
      { destruct marker_texts as [? ?]. destruct (varchars_not name Hn) as [_ ?]. unfold nul_free in *.
        rewrite !Forall_app. split_and!; try done. by apply render_nul_free. }
      cbn [template_loop]. rewrite find_variable_text by done.
      replace (t ++ (start_marker ++ name ++ end_marker) ++ render ps) with
        (t ++ start_marker ++ name ++ end_marker ++ render ps) in * by by rewrite <- !app_assoc.
      rewrite find_first by done. cbn [mbind comp_bind].
      set (v := start_marker ++ name ++ end_marker).
      rewrite (length_app t v).
      assert (Edata : t ++ start_marker ++ name ++ end_marker ++ render ps = t ++ v ++ render ps)
        by (unfold v; by rewrite <- !app_assoc). rewrite Edata in *.
      rewrite (proj2 (Nat.leb_le _ _)) by (rewrite !length_app; lia). cbn [cassert].
      rewrite drop_app_add, drop_app_length.
      destruct (IH fuel [] (not_elem_of_nil _) (Forall_nil_2 _) ltac:(done)) as (blocks & Eb & Ec).
      { rewrite !length_app in Hf. cbn [app]. destruct marker_start; cbn in *.
        assert (0 < length v)%nat by (unfold v; rewrite !length_app; destruct name; [done|cbn; lia]). lia. }
      cbn [app] in Eb, Ec. rewrite Eb. eexists. split; [done|].
      assert (Hesc : negb (length t =? 0)%nat &&
        bool_decide (((t ++ v ++ render ps) ++ 0 :: beyond) !! (length t - 1)%nat = Some 92) = false).
      { destruct (Nat.eqb_spec (length t) 0) as [|Hz]; [done|]. cbn [negb andb]. apply bool_decide_eq_false_2.
        rewrite <- app_assoc, lookup_app_l by lia. intros E. apply Htl. rewrite last_lookup. rewrite <- E. f_equal. lia. }
      rewrite Hesc. rewrite !concat_app, Ec.
      replace (drop (length t) ((t ++ v ++ render ps) ++ 0 :: beyond)) with (v ++ render ps ++ 0 :: beyond)
        by (rewrite <- !app_assoc; by rewrite drop_app_length).
      replace (length t + length v - length t)%nat with (length v) by lia. rewrite take_app_length.
      assert (Et : concat (if (length t =? 0)%nat then [] else [take (length t) ((t ++ v ++ render ps) ++ 0 :: beyond)]) = t).
      { destruct t as [|c t]; [done|]. cbn [length Nat.eqb concat]. rewrite <- app_assoc, app_nil_r.
        apply (take_app_length (c :: t)). }
      rewrite Et. f_equal. f_equal.
      clear Hesc Et. case_bool_decide as Ed; [by rewrite Ed|]. cbn. by rewrite app_nil_r.
Qed.
End Expansion.

(** A template is expanded: what is between the variables stays as it is, and each variable is
    replaced by its value, or stays if it has none, for the markers of web pages and for those of
    manifests; nothing is read beyond the NUL that ends the template. *)
Theorem template_expands start_marker end_marker s0 e0 `{!Markers start_marker end_marker s0 e0} func ps beyond :
  Forall (piece_ok s0) ps →
  ∃ blocks, cockpit_template_expand start_marker end_marker func (render start_marker end_marker ps) (0 :: beyond) =
      Ok blocks ∧ concat blocks = expand start_marker end_marker func ps.
Proof.
  intros H. apply (template_pieces start_marker end_marker s0 e0 func ps _ [] beyond);
    [apply not_elem_of_nil|by constructor|done|done|cbn; lia].
Qed.

Definition greeting : list piece :=
  [Text (bs "<p>Hello "); Variable_ (bs "user.name"); Text (bs ", on "); Variable_ (bs "host"); Text (bs "</p>")].
Definition greeting_values (name : list Z) : option (list Z) :=
  if bool_decide (name = bs "host") then Some (bs "srv") else None.

Lemma template_expands_witness :
  ∃ blocks, cockpit_template_expand (bs "${") (bs "}") greeting_values (bs "<p>Hello ${user.name}, on ${host}</p>") [0] =
      Ok blocks ∧ concat blocks = bs "<p>Hello ${user.name}, on srv</p>".
Proof.
  apply (template_expands (bs "${") (bs "}") 36 125 greeting_values greeting []).
  repeat constructor; by_decide || done.
Defined.

(** A variable that is escaped stays without the character that escapes it. *)
Example template_escaped :
  cockpit_template_expand (bs "@@") (bs "@@") (λ _, Some (bs "x")) (bs "a\@@b@@@@b@@") [0] =
  Ok [bs "a"; bs "@@b@@"; bs "x"].
Proof. by vm_compute. Qed.

(** An input that no NUL ends, as that of a file that is mapped, is searched beyond its end. *)
Lemma template_overrun :
  cockpit_template_expand (bs "@@") (bs "@@") (λ _, None) (bs "text") [] = Fault ∧
  cockpit_template_expand (bs "@@") (bs "@@") (λ _, None) (bs "text @@a") (bs "@@" ++ [0]) = Fault.
Proof. by vm_compute. Qed.
