(* ===== verification/Http.v ===== *)
(** * HTTP messages: [src/websocket/websocket.c]

    The parsers of request lines, status lines, headers and URLs that the web server and both
    ends of a WebSocket share.  Data that is read from a stream has no end but its length, so a
    parser is given all that has been read and answers that the message is cut short, that it
    is invalid, or what it has parsed and from how many bytes.  [g_utf8_validate] is a parameter.

    Shown: what is written as HTTP is read back, from exactly its bytes; whatever is cut short is
    waited for, so that it does not matter how a message arrives. *)

From S2P Require Import Prelude.
#[local] Open Scope Z_scope.

(** ** Tables of headers

    [web_socket_util_new_headers]: names are compared without case, each name is there once. *)

Notation headers := (list (list Z * list Z)).

Fixpoint table_lookup (t : headers) (name : list Z) : option (list Z) :=
  match t with
  | [] => None
  | (k, v) :: t' => if strcasecmp_eq k name then Some v else table_lookup t' name
  end.

(** [g_hash_table_steal] and the like *)
Definition table_remove (t : headers) (name : list Z) : headers :=
  filter (λ m, strcasecmp_eq m.1 name = false) t.

(** [g_hash_table_insert] and [g_hash_table_replace] *)
Definition table_insert (t : headers) (name value : list Z) : headers :=
  table_remove t name ++ [(name, value)].

(** ** Characters and lines *)

(** [memchr (s, c, n)] as an offset. *)
Definition memchr (s : list Z) (c : Z) : option nat := fst <$> list_find (λ x, x = c) s.

Definition g_ascii_isspace (c : Z) : bool := isspace c && negb (c =? 11).

(** [g_strchug] and [g_strchomp] *)
Fixpoint strchug (s : list Z) : list Z :=
  match s with
  | c :: s' => if g_ascii_isspace c then strchug s' else s
  | [] => []
  end.

Definition strchomp (s : list Z) : list Z := rev (strchug (rev s)).

Definition g_strstrip (s : list Z) : list Z := strchomp (strchug s).

Definition is_valid_line (s : list Z) : bool :=
  forallb (λ c, (c =? 9) || ((32 <=? c) && (c <? 128))) s.

(** The version and what follows it. *)
Definition parse_version (data : list Z) : option (list Z * list Z) :=
  if zlen data <? 8 then None
  else
    let v := take 8 data in
    if bool_decide (v = bs "HTTP/1.0") || bool_decide (v = bs "HTTP/1.1") then Some (v, drop 8 data)
    else None.

(** The length of the longest beginning of characters of a class. *)
Fixpoint span_length (p : Z → bool) (s : list Z) : nat :=
  match s with c :: s' => if p c then S (span_length p s') else 0%nat | [] => 0%nat end.

(** ** Parsing *)

Inductive parsed (A : Type) :=
| Truncated
| Invalid
| Parsed (consumed : nat) (a : A).
Arguments Truncated {A}.
Arguments Invalid {A}.
Arguments Parsed {A} consumed a.

(** The method and the resource. *)
Definition web_socket_util_parse_req_line (data : list Z) : parsed (list Z * list Z) :=
  match memchr data 10 with
  | None => Truncated
  | Some end_ =>
      let line := take end_ data in
      if bool_decide (head data = Some 32) then Invalid
      else
        match memchr line 32 with
        | None => Invalid
        | Some method_end =>
            let path_beg := skip_char 32 (drop (S method_end) line) in
            match memchr path_beg 32 with
            | None => Invalid
            | Some path_len =>
                let version := skip_char 32 (drop (S path_len) path_beg) in
                match parse_version version with
                | None => Invalid
                | Some (_, last) =>
                    let method := take method_end line in
                    let path := take path_len path_beg in
                    if forallb (λ c, bool_decide (c ∈ [13; 32; 0])) last &&
                       is_valid_line method && is_valid_line path
                    then Parsed (S end_) (method, path)
                    else Invalid
                end
            end
        end
  end.

Section Parse.
Context (g_utf8_validate : list Z → bool).

(** The name and the value of a line, which includes its end. *)
Definition parse_header_line (line : list Z) : option (list Z * list Z) :=
  match memchr line 58 with
  | None => None
  | Some colon =>
      let name := g_strstrip (cstr (take colon line)) in
      let value := g_strstrip (cstr (drop (S colon) line)) in
      if is_valid_line name && g_utf8_validate value then Some (name, value) else None
  end.

(** Fuel: every line has a byte at least. *)
Fixpoint parse_headers_loop (fuel : nat) (data : list Z) (consumed : nat) (t : headers)
    : parsed headers :=
  match fuel with
  | O => Truncated
  | S fuel' =>
      match memchr data 10 with
      | None => Truncated
      | Some n =>
          let line := take (S n) data in
          if prefixb [13; 10] data || prefixb [10] data then Parsed (consumed + S n) t
          else
            match parse_header_line line with
            | None => Invalid
            | Some (name, value) =>
                parse_headers_loop fuel' (drop (S n) data) (consumed + S n) (table_insert t name value)
            end
      end
  end.

Definition web_socket_util_parse_headers (data : list Z) : parsed headers :=
  parse_headers_loop (S (length data)) data 0 [].
End Parse.

Definition _web_socket_util_header_equals (t : headers) (name want : list Z) : bool :=
  match table_lookup t name with Some value => strcasecmp_eq value want | None => false end.

(** Only the first place where the word stands is looked at. *)
Definition _web_socket_util_header_contains (t : headers) (name word : list Z) : bool :=
  match table_lookup t name with
  | Some value =>
      match memmem (tolower <$> value) (tolower <$> word) with
      | Some at_ =>
          ((at_ =? 0)%nat || negb (isalnum (default 0 (value !! (at_ - 1)%nat)))) &&
          negb (isalnum (default 0 (value !! (at_ + length word)%nat)))
      | None => false
      end
  | None => false
  end.

Definition _web_socket_util_header_empty (t : headers) (name : list Z) : bool :=
  match table_lookup t name with Some value => bool_decide (value = []) | None => true end.

(** [g_ascii_strtoull (s, &endptr, 10)]: the value and the offset of [endptr]; reading on past the
    end of the data is a [Fault]. *)
Definition g_ascii_strtoull (s : list Z) : comp unit (Z * nat) :=
  let blank := span_length isspace s in
  let rest := drop blank s in
  match rest with
  | [] => Fault
  | c :: rest' =>
      let sign := (c =? 45) || (c =? 43) in
      let digits_ := if sign then rest' else rest in
      let n := span_length isdigit digits_ in
      match drop n digits_ with
      | [] => Fault
      | _ =>
          if (n =? 0)%nat then Ok (0, 0%nat)
          else
            let v := Z.min (dec_value (take n digits_)) (2 ^ 64 - 1) in
            Ok (if c =? 45 then u64 (- v) else v, (blank + (if sign then 1 else 0) + n)%nat)
      end
  end.

(** The version, the status and the reason.  A reason that would begin after the end of the line
    has a negative length, with which no memory is allocated: [Fault]. *)
Definition web_socket_util_parse_status_line (data : list Z) : comp unit (parsed (list Z * Z * list Z)) :=
  match memchr data 10 with
  | None => Ok Truncated
  | Some end_ =>
      let line := take end_ data in
      match parse_version line with
      | None => Ok Invalid
      | Some (version, _) =>
          if bool_decide (data !! 8%nat = Some 32) then
            let at_ := (end_ - length (skip_char 32 (drop 8 line)))%nat in
            match memchr (skip_char 32 (drop 8 line)) 32 with
            | None => Ok Invalid
            | Some _ =>
                '(num, n) ← g_ascii_strtoull (drop at_ data);
                let ep := (at_ + n)%nat in
                if (num =? 0) || (num >? 2 ^ 32 - 1) || bool_decide (data !! ep ≠ Some 32) then Ok Invalid
                else if (end_ <? ep)%nat then Fault
                else Ok (Parsed (S end_) (version, num, g_strstrip (cstr (skip_char 32 (drop ep line)))))
            end
          else Ok Invalid
      end
  end.

(** ** URLs *)

(** A byte of a C string with its NUL. *)
Definition char_at (s : list Z) (i : nat) : comp unit Z :=
  if (i <? length s)%nat then Ok (default 0 (s !! i)) else if (i =? length s)%nat then Ok 0 else Fault.

(** The scheme, the host and the path. *)
Definition _web_socket_util_parse_url (url : list Z) : comp unit (list Z * list Z * list Z) :=
  match memchr url 58 with
  | None => Err tt
  | Some colon =>
      c1 ← char_at url (colon + 1);
      bad ← (if c1 =? 47 then Ok false else c2 ← char_at url (colon + 2); Ok (negb (c2 =? 47)));
      if bad : bool then Err tt
      else
        _ ← char_at url (colon + 3);
        let rest := drop (colon + 3) url in
        let host :=
          match memchr rest 64 with
          | Some a =>
              match memchr rest 47 with
              | Some p => if (a <? p)%nat then drop (S a) rest else rest
              | None => drop (S a) rest
              end
          | None => rest
          end in
        let path := memchr host 47 in
        if bool_decide (host = []) || bool_decide (path = Some 0%nat) then Err tt
        else
          Ok (take colon url,
              match path with Some p => take p host | None => host end,
              match path with Some p => drop p host | None => bs "/" end)
  end.

(** ** Searching and stripping *)

Lemma memchr_Some s c n : memchr s c = Some n → ∃ a b, s = a ++ c :: b ∧ c ∉ a ∧ length a = n.
Proof.
  unfold memchr. destruct (list_find _ s) as [[n' x]|] eqn:H; [|done]. intros [= <-].
  apply list_find_Some in H as (Hl & -> & Hn). exists (take n' s), (drop (S n') s). split_and!.
  - by rewrite take_drop_middle.
  - intros (j & Hj)%list_elem_of_lookup. apply lookup_take_Some in Hj as [Hj Hlt]. by apply (Hn j c).
  - rewrite length_take_le; [done|]. apply lookup_lt_Some in Hl. cbn. lia.
Qed.

Lemma memchr_None s c : memchr s c = None ↔ c ∉ s.
Proof.
  unfold memchr. destruct (list_find _ s) as [[n x]|] eqn:H; split; try done.
  - apply list_find_Some in H as (Hl & -> & _). intros Hc. destruct Hc. by eapply list_elem_of_lookup_2.
  - intros _ Hc. apply list_find_None in H. rewrite Forall_forall in H. by apply (H c Hc).
Qed.

Lemma memchr_app a c b : c ∉ a → memchr (a ++ c :: b) c = Some (length a).
Proof.
  intros Hc. destruct (memchr (a ++ c :: b) c) as [n|] eqn:E.
  - apply memchr_Some in E as (a' & b' & E & Ha' & <-). f_equal.
    revert a' E Ha'. induction a as [|x a IH]; intros [|x' a'] E Ha'; [done| | |].
    + injection E as -> _. destruct Ha'. left.
    + injection E as -> _. destruct Hc. left.
    + injection E as -> E. apply not_elem_of_cons in Hc as [_ Hc], Ha' as [_ Ha']. cbn. f_equal. by apply IH.
  - apply memchr_None in E. destruct E. apply elem_of_app. right. left.
Qed.

Lemma memchr_take s c n : memchr s c = Some n → c ∉ take n s.
Proof. intros (a & b & -> & Ha & <-)%memchr_Some. by rewrite take_app_length. Qed.

Definition blank (s : list Z) : Prop := Forall (λ c, g_ascii_isspace c = true) s.

Lemma strchug_blank a s : blank a → strchug (a ++ s) = strchug s.
Proof. induction 1 as [|c a Hc _ IH]; [done|]. cbn. by rewrite Hc. Qed.

Lemma strchug_app s b : strchug (s ++ b) = if decide (strchug s = []) then strchug b else strchug s ++ b.
Proof.
  induction s as [|c s IH]; [done|]. cbn. destruct (g_ascii_isspace c); [done|]. by rewrite decide_False.
Qed.

Lemma strchomp_blank s b : blank b → strchomp (s ++ b) = strchomp s.
Proof. intros H. unfold strchomp. rewrite rev_app_distr, strchug_blank; [done|]. by apply Forall_rev. Qed.

Lemma blank_strchug s : strchug s = [] → blank s.
Proof.
  induction s as [|c s IH]; [constructor|]. cbn. destruct (g_ascii_isspace c) eqn:E; [|done].
  intros H. constructor; [done|by apply IH].
Qed.

Lemma strchug_of_blank b : blank b → strchug b = [].
Proof. intros H. rewrite <- (app_nil_r b). by rewrite strchug_blank. Qed.

(** White space around a string is cut off. *)
Lemma strstrip_around a s b : blank a → blank b → g_strstrip (a ++ s ++ b) = g_strstrip s.
Proof.
  intros Ha Hb. unfold g_strstrip. rewrite strchug_blank by done. rewrite strchug_app. case_decide as E.
  - rewrite E. by rewrite (strchug_of_blank b Hb).
  - by apply strchomp_blank.
Qed.

Lemma strchug_id s : (∀ c, head s = Some c → g_ascii_isspace c = false) → strchug s = s.
Proof. destruct s as [|c s]; [done|]. intros H. cbn. by rewrite H. Qed.

(** A string that neither begins nor ends with white space. *)
Lemma strstrip_id s : (∀ c, head s = Some c → g_ascii_isspace c = false) →
  (∀ c, last s = Some c → g_ascii_isspace c = false) → g_strstrip s = s.
Proof.
  intros H1 H2. unfold g_strstrip, strchomp. rewrite (strchug_id s) by done.
  rewrite strchug_id, rev_involutive; [done|]. intros c Hc. apply H2.
  destruct s as [|x s _] using rev_ind; [done|]. rewrite rev_app_distr in Hc. cbn in Hc.
  by rewrite last_snoc.
Qed.

(** ** Tables *)

Lemma strcasecmp_refl s : strcasecmp_eq s s = true.
Proof. by apply bool_decide_eq_true. Qed.

Lemma strcasecmp_sym a b : strcasecmp_eq a b = strcasecmp_eq b a.
Proof. apply bool_decide_ext. split; by intros ->. Qed.

Lemma strcasecmp_trans a b c : strcasecmp_eq a b = true → strcasecmp_eq a c = strcasecmp_eq b c.
Proof. intros H%bool_decide_eq_true. unfold strcasecmp_eq. by rewrite H. Qed.

Lemma table_lookup_app t u name : table_lookup (t ++ u) name =
  match table_lookup t name with Some v => Some v | None => table_lookup u name end.
Proof. induction t as [|[k v] t IH]; [done|]. cbn. by destruct (strcasecmp_eq k name). Qed.

Lemma table_lookup_remove t name other :
  table_lookup (table_remove t name) other = if strcasecmp_eq name other then None else table_lookup t other.
Proof.
  induction t as [|[k v] t IH]; [by destruct (strcasecmp_eq name other)|].
  unfold table_remove. rewrite filter_cons. cbn [fst]. fold (table_remove t name).
  destruct (strcasecmp_eq k name) eqn:E.
  - rewrite decide_False by done. rewrite IH. cbn. rewrite (strcasecmp_trans k name other E).
    by destruct (strcasecmp_eq name other).
  - rewrite decide_True by done. cbn. rewrite IH. destruct (strcasecmp_eq k other) eqn:E2; [|done].
    destruct (strcasecmp_eq name other) eqn:E3; [|done].
    rewrite strcasecmp_sym in E2. rewrite strcasecmp_sym in E3.
    rewrite <- (strcasecmp_trans _ _ name E2), (strcasecmp_trans _ _ name E3), strcasecmp_refl in E. done.
Qed.

Lemma table_lookup_insert t name value other :
  table_lookup (table_insert t name value) other =
  if strcasecmp_eq name other then Some value else table_lookup t other.
Proof.
  unfold table_insert. rewrite table_lookup_app, table_lookup_remove. cbn.
  destruct (strcasecmp_eq name other); [done|]. by destruct (table_lookup t other).
Qed.

Lemma table_insert_others l t name : Forall (λ h, strcasecmp_eq h.1 name = false) l →
  table_lookup (foldl (λ t h, table_insert t h.1 h.2) t l) name = table_lookup t name.
Proof.
  intros H. revert t. induction H as [|h l Hh _ IH]; intros t; [done|]. cbn [foldl].
  by rewrite IH, table_lookup_insert, Hh.
Qed.

Definition table_of (hs : headers) : headers := foldl (λ t h, table_insert t h.1 h.2) [] hs.

Lemma table_of_app a b : table_of (a ++ b) = foldl (λ t h, table_insert t h.1 h.2) (table_of a) b.
Proof. apply foldl_app. Qed.

(** ** What is written is read back *)

Definition crlf : list Z := [13; 10].

Definition req_line (method path : list Z) : list Z := method ++ [32] ++ path ++ bs " HTTP/1.1" ++ crlf.

(** A method or a resource: not empty, and neither spaces nor control characters in it. *)
Definition word (s : list Z) : Prop := s ≠ [] ∧ Forall (λ c, 32 < c < 128) s.

Lemma word_not_in s c : word s → c ≤ 32 ∨ 128 ≤ c → c ∉ s.
Proof. intros [_ H] Hc Hin. rewrite Forall_forall in H. specialize (H c Hin). lia. Qed.

Lemma word_valid s : word s → is_valid_line s = true.
Proof.
  intros [_ H]. apply forallb_forall. intros c Hc%list_elem_of_In. rewrite Forall_forall in H.
  specialize (H c Hc). apply orb_true_iff. right. rewrite andb_true_iff, Z.leb_le, Z.ltb_lt. lia.
Qed.

Lemma word_nonspace s c : word s → c ∈ s → g_ascii_isspace c = false.
Proof.
  intros [_ H] Hc. rewrite Forall_forall in H. specialize (H c Hc). unfold g_ascii_isspace, isspace.
  rewrite (proj2 (Z.eqb_neq c 32)), (proj2 (Z.leb_gt c 13)), andb_false_r by lia. done.
Qed.

Lemma word_stripped s : word s → g_strstrip s = s.
Proof.
  intros Hs. apply strstrip_id; intros c Hc; apply (word_nonspace s c Hs).
  - by apply head_Some_elem_of.
  - by apply last_Some_elem_of.
Qed.

Lemma skip_char_word s r : word s → skip_char 32 (s ++ r) = s ++ r.
Proof.
  intros [Hne H]. destruct s as [|c s]; [done|]. apply Forall_cons in H as [Hc _]. cbn.
  by rewrite (proj2 (Z.eqb_neq c 32)) by lia.
Qed.

Lemma req_line_end method path : word method → word path →
  req_line method path = (method ++ [32] ++ path ++ bs " HTTP/1.1" ++ [13]) ++ [10] ∧
  10 ∉ method ++ [32] ++ path ++ bs " HTTP/1.1" ++ [13].
Proof.
  intros Hm Hp. split; [unfold req_line, crlf; by rewrite <- !app_assoc|].
  rewrite !not_elem_of_app. split_and!; try by_decide; by apply word_not_in; [|lia].
Qed.

Lemma parse_req_line method path rest : word method → word path →
  web_socket_util_parse_req_line (req_line method path ++ rest) =
  Parsed (length (req_line method path)) (method, path).
Proof.
  intros Hm Hp. destruct (req_line_end method path Hm Hp) as [E Hn]. rewrite E.
  set (line := method ++ _) in *. unfold web_socket_util_parse_req_line.
  rewrite <- app_assoc. change ([10] ++ rest) with (10 :: rest). rewrite memchr_app, take_app_length by done.
  rewrite bool_decide_eq_false_2.
  2:{ unfold line. destruct Hm as [Hne Hm]. destruct method as [|c m]; [done|]. cbn. intros [= ->].
      apply Forall_cons in Hm as [Hc _]. lia. }
  assert (Hm32 : memchr line 32 = Some (length method)).
  { apply (memchr_app method 32 (path ++ bs " HTTP/1.1" ++ [13])). by apply word_not_in; [|lia]. }
  rewrite Hm32. cbv zeta.
  replace (drop (S (length method)) line) with (path ++ bs " HTTP/1.1" ++ [13]).
  2:{ unfold line. rewrite (app_assoc method [32]). symmetry. apply drop_app_length'. rewrite length_app. cbn. lia. }
  rewrite skip_char_word by done.
  assert (Hp32 : memchr (path ++ bs " HTTP/1.1" ++ [13]) 32 = Some (length path)).
  { apply (memchr_app path 32 (bs "HTTP/1.1" ++ [13])). by apply word_not_in; [|lia]. }
  rewrite Hp32. replace (drop (S (length path)) (path ++ bs " HTTP/1.1" ++ [13])) with (bs "HTTP/1.1" ++ [13]).
  2:{ change (bs " HTTP/1.1") with ([32] ++ bs "HTTP/1.1"). rewrite <- app_assoc, (app_assoc path [32]).
      symmetry. apply drop_app_length'. rewrite length_app. cbn. lia. }
  change (parse_version (skip_char 32 (bs "HTTP/1.1" ++ [13]))) with (Some (bs "HTTP/1.1", [13])). cbv beta iota.
  unfold line. rewrite !take_app_length. rewrite (word_valid method), (word_valid path) by done.
  rewrite !length_app. cbn [length forallb bool_decide andb]. f_equal. lia.
Qed.

Definition header_line (h : list Z * list Z) : list Z := h.1 ++ bs ": " ++ h.2 ++ crlf.
Definition header_lines (hs : headers) : list Z := hs ≫= header_line.

(** Looks names up in tables of headers with literal names. *)
Ltac lookup_headers :=
  unfold table_of; cbn [foldl fst snd app]; rewrite ?table_lookup_insert;
  repeat match goal with
  | |- context [strcasecmp_eq (bs ?a) (bs ?b)] =>
      let v := eval vm_compute in (strcasecmp_eq (bs a) (bs b)) in
      change (strcasecmp_eq (bs a) (bs b)) with v
  end; cbv beta iota.

Section RoundTrip.
Context (g_utf8_validate : list Z → bool).

Record header_ok (h : list Z * list Z) : Prop := {
  ok_name : Forall (λ c, 32 ≤ c < 128 ∧ c ≠ 58) h.1;
  ok_name_stripped : g_strstrip h.1 = h.1;
  ok_value : Forall (λ c, c ≠ 10 ∧ c ≠ 0) h.2;
  ok_value_stripped : g_strstrip h.2 = h.2;
  ok_value_utf8 : g_utf8_validate h.2 = true
}.

(** A header whose value may have blanks around it, which are not part of what is read. *)
Record header_fits (h : list Z * list Z) : Prop := {
  fits_name : Forall (λ c, 32 ≤ c < 128 ∧ c ≠ 58) h.1;
  fits_name_stripped : g_strstrip h.1 = h.1;
  fits_value : Forall (λ c, c ≠ 10 ∧ c ≠ 0) h.2;
  fits_utf8 : g_utf8_validate (g_strstrip h.2) = true
}.

Definition stripped (h : list Z * list Z) : list Z * list Z := (h.1, g_strstrip h.2).

Lemma ok_fits h : header_ok h → header_fits h ∧ stripped h = h.
Proof.
  intros [Hn Hns Hv Hvs Hu]. split; [by constructor; rewrite ?Hvs|]. unfold stripped. rewrite Hvs. by destruct h.
Qed.

Lemma all_ok_fit hs : Forall header_ok hs → Forall header_fits hs ∧ stripped <$> hs = hs.
Proof.
  induction 1 as [|h hs Hh _ [IH1 IH2]]; [done|]. destruct (ok_fits h Hh) as [H1 H2].
  split; [by constructor|]. cbn. by rewrite H2, IH2.
Qed.

Lemma header_line_end h : header_fits h →
  header_line h = (h.1 ++ bs ": " ++ h.2 ++ [13]) ++ [10] ∧ 10 ∉ h.1 ++ bs ": " ++ h.2 ++ [13].
Proof.
  intros [Hn _ Hv _]. split; [unfold header_line, crlf; by rewrite <- !app_assoc|].
  rewrite !not_elem_of_app. rewrite !Forall_forall in *. split_and!; try by_decide.
  - intros H. specialize (Hn _ H). lia.
  - intros H. specialize (Hv _ H). lia.
Qed.

Lemma parse_one_header h : header_fits h → parse_header_line g_utf8_validate (header_line h) = Some (h.1, g_strstrip h.2).
Proof.
  intros [Hn Hns Hv Hu]. unfold parse_header_line, header_line. destruct h as [name value]. cbn [fst snd] in *.
  assert (Hc : 58 ∉ name).
  { intros H. rewrite Forall_forall in Hn. specialize (Hn _ H). lia. }
  change (bs ": ") with ([58] ++ [32]). rewrite <- !app_assoc. cbn [app]. rewrite memchr_app by done.
  rewrite take_app_length. cbv zeta.
  replace (drop (S (length name)) (name ++ 58 :: 32 :: value ++ crlf)) with (32 :: value ++ crlf).
  2:{ change (58 :: 32 :: value ++ crlf) with ([58] ++ 32 :: value ++ crlf).
      rewrite (app_assoc name [58]). symmetry. apply drop_app_length'. rewrite length_app. cbn. lia. }
  rewrite !cstr_id.
  - change (32 :: value ++ crlf) with ([32] ++ value ++ crlf).
    rewrite Hns, strstrip_around by (repeat constructor). rewrite Hu, andb_true_r.
    replace (is_valid_line name) with true; [done|]. symmetry. apply forallb_forall.
    intros c Hin%list_elem_of_In. rewrite Forall_forall in Hn. specialize (Hn _ Hin).
    apply orb_true_iff. right. rewrite andb_true_iff, Z.leb_le, Z.ltb_lt. lia.
  - unfold nul_free. constructor; [done|]. apply Forall_app. split; [|by repeat constructor].
    eapply Forall_impl; [exact Hv|]. cbn. lia.
  - unfold nul_free. eapply Forall_impl; [exact Hn|]. cbn. lia.
Qed.

Lemma header_not_end h rest : header_fits h →
  prefixb [13; 10] (header_line h ++ rest) = false ∧ prefixb [10] (header_line h ++ rest) = false.
Proof.
  intros [Hn _ _ _]. unfold header_line. destruct h as [[|c name] value]; [done|]. cbn [fst] in *.
  apply Forall_cons in Hn as [Hc _]. cbn [fst snd app prefixb].
  by rewrite (proj2 (Z.eqb_neq 13 c)), (proj2 (Z.eqb_neq 10 c)) by lia.
Qed.

Lemma header_lines_cons h hs : header_lines (h :: hs) = header_line h ++ header_lines hs.
Proof. done. Qed.

Lemma parse_headers_lines fuel hs rest consumed t : Forall header_fits hs → (length hs < fuel)%nat →
  parse_headers_loop g_utf8_validate fuel (header_lines hs ++ crlf ++ rest) consumed t =
  Parsed (consumed + length (header_lines hs) + 2) (foldl (λ t h, table_insert t h.1 h.2) t (stripped <$> hs)).
Proof.
  intros H. revert fuel consumed t. induction H as [|h hs Hh _ IH]; intros [|fuel] consumed t Hf; try (cbn in Hf; lia).
  - change (header_lines []) with (@nil Z). cbn. f_equal. cbn [prod_map fst]. lia.
  - rewrite header_lines_cons, <- app_assoc. destruct (header_line_end h Hh) as [E Hn].
    destruct (header_not_end h (header_lines hs ++ crlf ++ rest) Hh) as [E1 E2].
    cbn [parse_headers_loop]. rewrite E1, E2. cbn [orb]. pose proof (parse_one_header h Hh) as Hp.
    rewrite E in *. set (line := h.1 ++ _) in *. rewrite <- app_assoc at 1. cbn [app]. rewrite memchr_app by done.
    rewrite take_app_length', Hp by (rewrite length_app; cbn; lia). destruct h as [name value].
    rewrite drop_app_length' by (rewrite length_app; cbn; lia). rewrite IH by (cbn in Hf; lia).
    f_equal. rewrite !length_app. cbn. lia.
Qed.

Lemma parse_headers_fitting hs rest : Forall header_fits hs →
  web_socket_util_parse_headers g_utf8_validate (header_lines hs ++ crlf ++ rest) =
  Parsed (length (header_lines hs) + 2) (table_of (stripped <$> hs)).
Proof.
  intros H. unfold web_socket_util_parse_headers. rewrite parse_headers_lines; [done|done|].
  rewrite length_app. apply Nat.lt_succ_r. transitivity (length (header_lines hs)); [|lia].
  clear. induction hs as [|h hs IH]; [done|]. rewrite header_lines_cons, length_app.
  unfold header_line. rewrite !length_app. cbn. lia.
Qed.

Lemma parse_headers_written hs rest : Forall header_ok hs →
  web_socket_util_parse_headers g_utf8_validate (header_lines hs ++ crlf ++ rest) =
  Parsed (length (header_lines hs) + 2) (table_of hs).
Proof. intros H. destruct (all_ok_fit hs H) as [Hf E]. by rewrite parse_headers_fitting, E. Qed.

(** ** Messages that are cut short *)

Lemma prefix_of_line {A} (line pre suf : list A) (c : A) :
  line ++ [c] = pre ++ suf → suf ≠ [] → pre `prefix_of` line.
Proof.
  intros E Hs. destruct suf as [|x suf _] using rev_ind; [done|].
  rewrite app_assoc in E. apply app_inj_tail in E as [-> _]. by exists suf.
Qed.

Lemma prefix_not_in {A} (line pre : list A) c : pre `prefix_of` line → c ∉ line → c ∉ pre.
Proof. intros [r ->] H Hc. apply H, elem_of_app. by left. Qed.

Lemma req_line_truncated method path pre suf : word method → word path →
  req_line method path = pre ++ suf → suf ≠ [] → web_socket_util_parse_req_line pre = Truncated.
Proof.
  intros Hm Hp E Hs. destruct (req_line_end method path Hm Hp) as [El Hn]. rewrite El in E.
  unfold web_socket_util_parse_req_line.
  rewrite (proj2 (memchr_None pre 10)); [done|]. by eapply prefix_not_in; [eapply prefix_of_line|].
Qed.

Lemma headers_truncated fuel hs pre suf consumed t : Forall header_fits hs →
  header_lines hs ++ crlf = pre ++ suf → suf ≠ [] →
  parse_headers_loop g_utf8_validate fuel pre consumed t = Truncated.
Proof.
  intros H. revert fuel pre consumed t. induction H as [|h hs Hh _ IH]; intros [|fuel] pre consumed t E Hs;
    try done; cbn [parse_headers_loop].
  - change (header_lines [] ++ crlf) with ([13] ++ [10]) in E. apply prefix_of_line in E; [|done].
    rewrite (proj2 (memchr_None pre 10)); [done|]. eapply prefix_not_in; [exact E|by_decide].
  - destruct (memchr pre 10) as [n|] eqn:En; [|done]. rewrite header_lines_cons, <- app_assoc in E.
    destruct (header_line_end h Hh) as [El Hn]. set (line := h.1 ++ _) in *.
    assert (Hpre : ∃ p, pre = header_line h ++ p).
    { apply app_eq_inv in E as [(k & E & _)|(k & E & _)]; [|by exists k].
      destruct k as [|x k _] using rev_ind; [exists []; by rewrite app_nil_r, E, app_nil_r|].
      rewrite El, app_assoc in E. apply app_inj_tail in E as [E _].
      apply memchr_Some in En as (a & b & -> & _ & _). destruct Hn. rewrite E. rewrite !elem_of_app. left. right. left. }
    destruct Hpre as [p ->]. rewrite <- app_assoc in E. apply app_inv_head in E.
    destruct (header_not_end h p Hh) as [-> ->]. cbn [orb].
    pose proof (parse_one_header h Hh) as Hp. rewrite El in *. rewrite <- app_assoc in En. cbn [app] in En.
    rewrite memchr_app in En by done. injection En as <-.
    rewrite take_app_length', Hp by (rewrite length_app; cbn; lia). destruct h as [name value].
    rewrite drop_app_length' by (rewrite length_app; cbn; lia). by apply IH.
Qed.

(** A request as it is written. *)
Definition request_text (method path : list Z) (hs : headers) : list Z :=
  req_line method path ++ header_lines hs ++ crlf.

(** A request that has been written is parsed, from exactly its bytes. *)
Lemma request_parsed method path hs rest : word method → word path → Forall header_ok hs →
  let text := request_text method path hs in
  ∃ n1 n2, web_socket_util_parse_req_line (text ++ rest) = Parsed n1 (method, path) ∧
    web_socket_util_parse_headers g_utf8_validate (drop n1 (text ++ rest)) = Parsed n2 (table_of hs) ∧
    drop (n1 + n2) (text ++ rest) = rest.
Proof.
  intros Hm Hp Hh text. exists (length (req_line method path)), (length (header_lines hs) + 2)%nat.
  unfold text, request_text. rewrite <- !app_assoc. split_and!.
  - by apply parse_req_line.
  - rewrite drop_app_length. by apply parse_headers_written.
  - rewrite !app_assoc. apply drop_app_length'. rewrite !length_app. cbn. lia.
Qed.

(** A request that is written as HTTP is read back: its method, its resource and the table of its
    headers, from exactly its bytes, whatever follows it; and until all of it has arrived,
    the parsers ask for more, so that it does not matter how it is cut up on its way. *)
Lemma request_roundtrip method path hs rest :
  word method → word path → Forall header_ok hs →
  (let text := request_text method path hs in
   ∃ n1 n2, web_socket_util_parse_req_line (text ++ rest) = Parsed n1 (method, path) ∧
     web_socket_util_parse_headers g_utf8_validate (drop n1 (text ++ rest)) = Parsed n2 (table_of hs) ∧
     drop (n1 + n2) (text ++ rest) = rest) ∧
  (∀ pre suf, request_text method path hs = pre ++ suf → suf ≠ [] →
     web_socket_util_parse_req_line pre = Truncated ∨
     ∃ n1, web_socket_util_parse_req_line pre = Parsed n1 (method, path) ∧
       web_socket_util_parse_headers g_utf8_validate (drop n1 pre) = Truncated).
Proof.
  intros Hm Hp Hh. split.
  - by apply request_parsed.
  - intros pre suf E Hs. unfold request_text in E.
    apply app_eq_inv in E as [(k & E & E2)|(k & E & E2)].
    + destruct k as [|x k].
      * right. exists (length (req_line method path)). rewrite app_nil_r in E. subst pre.
        pose proof (parse_req_line method path [] Hm Hp) as H. rewrite app_nil_r in H. split; [done|].
        by rewrite drop_all.
      * left. by apply (req_line_truncated method path pre (x :: k)).
    + right. exists (length (req_line method path)). subst pre. rewrite parse_req_line by done. split; [done|].
      rewrite drop_app_length. eapply headers_truncated; [by apply all_ok_fit|done..].
Qed.
End RoundTrip.

Definition example_headers : headers := [(bs "Host", bs "localhost:9090"); (bs "Cookie", bs "cockpit=v=2;k=x")].

Lemma request_roundtrip_ex :
  let text := request_text (bs "GET") (bs "/cockpit/socket?a=b") example_headers in
  (∃ n1 n2, web_socket_util_parse_req_line (text ++ [1]) = Parsed n1 (bs "GET", bs "/cockpit/socket?a=b") ∧
     web_socket_util_parse_headers (λ _, true) (drop n1 (text ++ [1])) = Parsed n2 (table_of example_headers) ∧
     drop (n1 + n2) (text ++ [1]) = [1]) ∧
  (∀ pre suf, text = pre ++ suf → suf ≠ [] →
     web_socket_util_parse_req_line pre = Truncated ∨
     ∃ n1, web_socket_util_parse_req_line pre = Parsed n1 (bs "GET", bs "/cockpit/socket?a=b") ∧
       web_socket_util_parse_headers (λ _, true) (drop n1 pre) = Truncated).
Proof.
  apply (request_roundtrip (λ _, true)); [split; [done|by_decide]..|].
  repeat constructor; by_decide || done.
Qed.

(** ** Findings *)

(** After a tab and a space, the number of a status line is looked for beyond the end of its
    line: beyond what has been read, or in the next line, and then the reason has a
    negative length. *)
Lemma status_line_overrun :
  web_socket_util_parse_status_line (bs "HTTP/1.1 " ++ [9; 32; 10]) = Fault ∧
  web_socket_util_parse_status_line (bs "HTTP/1.1 " ++ [9; 32; 10] ++ bs "101 x") = Fault.
Proof. by vm_compute. Qed.

(** A URL that ends right after its colon is read beyond its end. *)
Lemma url_overrun :
  _web_socket_util_parse_url (bs "a:") = Fault ∧ _web_socket_util_parse_url (bs "a:/") = Fault.
Proof. by vm_compute. Qed.

(** The word is not found behind a longer word that begins with it. *)
Lemma word_behind_longer_word_missed :
  _web_socket_util_header_contains [(bs "Connection", bs "upgrades, upgrade")] (bs "Connection") (bs "upgrade") = false.
Proof. by vm_compute. Qed.

Example status_line_ex :
  web_socket_util_parse_status_line (bs "HTTP/1.1 101 Switching Protocols" ++ crlf) =
  Ok (Parsed 34 (bs "HTTP/1.1", 101, bs "Switching Protocols")).
Proof. by vm_compute. Qed.

Example url_ex : _web_socket_util_parse_url (bs "ws://user@host:90/path/x") = Ok (bs "ws", bs "host:90", bs "/path/x").
Proof. by vm_compute. Qed.
