(* ===== verification/WebResponse.v ===== *)
(** * Responses of the web server: [src/common/cockpitwebresponse.c]

    A response has a queue of blocks that the main loop writes to the stream of the client, and a
    life: headers, blocks, completion, and the signal [done], which says whether the connection can
    be used again.  It is shared by counted references.  What the stream does is given with each
    event; filters are behind the class [WebFilter].

    Shown: no sequence of calls and events makes a response fault, except that one which has ended must
    not be begun, and it is done once; what has been
    sent is the beginning of what has been queued, and all of it when the connection is used
    again; what a client reads is the status, the headers and the blocks that were given; the text of
    an error page cannot contain markup.

    [g_uri_escape_string] and the text of the error page are parameters. *)

From S2P Require Import Prelude WebFilter Http.
#[local] Open Scope Z_scope.

Inductive CockpitCacheType :=
| COCKPIT_WEB_RESPONSE_CACHE_UNSET
| COCKPIT_WEB_RESPONSE_NO_CACHE
| COCKPIT_WEB_RESPONSE_CACHE.

Inductive CockpitWebResponding :=
| COCKPIT_WEB_RESPONSE_READY
| COCKPIT_WEB_RESPONSE_QUEUING
| COCKPIT_WEB_RESPONSE_COMPLETE
| COCKPIT_WEB_RESPONSE_SENT.

(** The signals that others listen to. *)
Inductive signal :=
| Pressure (throttle : bool)
| Done (reusable : bool).

Definition QUEUE_PRESSURE : Z := 1024 * 1024.
Definition G_MAXSIZE : Z := 2 ^ 64 - 1.

Section Response.
Context {F : Type} {filter_of : WebFilter F}.

(** The last three fields are what the outside has seen: bytes that have been written, signals,
    and whether a flush of the stream is under way. *)
Record CockpitWebResponse := mkResponse {
  path : option (list Z);
  full_path : option (list Z);
  url_root : option (list Z);
  method : list Z;
  origin : option (list Z);
  protocol : list Z;
  cache_type : CockpitCacheType;
  out : bool;                                       (* the stream, until it is done *)
  queue : list (list Z);
  out_queued : Z;
  out_queueable : Z;
  partial_offset : Z;
  source : bool;
  count : Z;
  complete : bool;
  failed : bool;
  done : bool;
  chunked : bool;
  keep_alive : bool;
  filters : list F;
  references : Z;
  sent : list Z;
  signals : list signal;
  flushing : bool
}.

Definition set_path (v : option (list Z)) (r : CockpitWebResponse) : CockpitWebResponse :=
  mkResponse v (full_path r) (url_root r) (method r) (origin r) (protocol r) (cache_type r) (out r) (queue r)
    (out_queued r) (out_queueable r) (partial_offset r) (source r) (count r) (complete r) (failed r) (done r)
    (chunked r) (keep_alive r) (filters r) (references r) (sent r) (signals r) (flushing r).
Definition set_cache_type (v : CockpitCacheType) (r : CockpitWebResponse) : CockpitWebResponse :=
  mkResponse (path r) (full_path r) (url_root r) (method r) (origin r) (protocol r) v (out r) (queue r)
    (out_queued r) (out_queueable r) (partial_offset r) (source r) (count r) (complete r) (failed r) (done r)
    (chunked r) (keep_alive r) (filters r) (references r) (sent r) (signals r) (flushing r).
Definition set_queue (q : list (list Z)) (queued : Z) (r : CockpitWebResponse) : CockpitWebResponse :=
  mkResponse (path r) (full_path r) (url_root r) (method r) (origin r) (protocol r) (cache_type r) (out r) q
    queued (out_queueable r) (partial_offset r) (source r) (count r) (complete r) (failed r) (done r)
    (chunked r) (keep_alive r) (filters r) (references r) (sent r) (signals r) (flushing r).
Definition set_out_queueable (v : Z) (r : CockpitWebResponse) : CockpitWebResponse :=
  mkResponse (path r) (full_path r) (url_root r) (method r) (origin r) (protocol r) (cache_type r) (out r) (queue r)
    (out_queued r) v (partial_offset r) (source r) (count r) (complete r) (failed r) (done r)
    (chunked r) (keep_alive r) (filters r) (references r) (sent r) (signals r) (flushing r).
Definition set_partial_offset (v : Z) (r : CockpitWebResponse) : CockpitWebResponse :=
  mkResponse (path r) (full_path r) (url_root r) (method r) (origin r) (protocol r) (cache_type r) (out r) (queue r)
    (out_queued r) (out_queueable r) v (source r) (count r) (complete r) (failed r) (done r)
    (chunked r) (keep_alive r) (filters r) (references r) (sent r) (signals r) (flushing r).
Definition set_source (v : bool) (r : CockpitWebResponse) : CockpitWebResponse :=
  mkResponse (path r) (full_path r) (url_root r) (method r) (origin r) (protocol r) (cache_type r) (out r) (queue r)
    (out_queued r) (out_queueable r) (partial_offset r) v (count r) (complete r) (failed r) (done r)
    (chunked r) (keep_alive r) (filters r) (references r) (sent r) (signals r) (flushing r).
Definition set_count (v : Z) (r : CockpitWebResponse) : CockpitWebResponse :=
  mkResponse (path r) (full_path r) (url_root r) (method r) (origin r) (protocol r) (cache_type r) (out r) (queue r)
    (out_queued r) (out_queueable r) (partial_offset r) (source r) v (complete r) (failed r) (done r)
    (chunked r) (keep_alive r) (filters r) (references r) (sent r) (signals r) (flushing r).
Definition set_complete (r : CockpitWebResponse) : CockpitWebResponse :=
  mkResponse (path r) (full_path r) (url_root r) (method r) (origin r) (protocol r) (cache_type r) (out r) (queue r)
    (out_queued r) (out_queueable r) (partial_offset r) (source r) (count r) true (failed r) (done r)
    (chunked r) (keep_alive r) (filters r) (references r) (sent r) (signals r) (flushing r).
Definition set_failed (r : CockpitWebResponse) : CockpitWebResponse :=
  mkResponse (path r) (full_path r) (url_root r) (method r) (origin r) (protocol r) (cache_type r) (out r) (queue r)
    (out_queued r) (out_queueable r) (partial_offset r) (source r) (count r) (complete r) true (done r)
    (chunked r) (keep_alive r) (filters r) (references r) (sent r) (signals r) (flushing r).
Definition set_chunked (v : bool) (r : CockpitWebResponse) : CockpitWebResponse :=
  mkResponse (path r) (full_path r) (url_root r) (method r) (origin r) (protocol r) (cache_type r) (out r) (queue r)
    (out_queued r) (out_queueable r) (partial_offset r) (source r) (count r) (complete r) (failed r) (done r)
    v (keep_alive r) (filters r) (references r) (sent r) (signals r) (flushing r).
Definition set_filters (v : list F) (r : CockpitWebResponse) : CockpitWebResponse :=
  mkResponse (path r) (full_path r) (url_root r) (method r) (origin r) (protocol r) (cache_type r) (out r) (queue r)
    (out_queued r) (out_queueable r) (partial_offset r) (source r) (count r) (complete r) (failed r) (done r)
    (chunked r) (keep_alive r) v (references r) (sent r) (signals r) (flushing r).
Definition set_references (v : Z) (r : CockpitWebResponse) : CockpitWebResponse :=
  mkResponse (path r) (full_path r) (url_root r) (method r) (origin r) (protocol r) (cache_type r) (out r) (queue r)
    (out_queued r) (out_queueable r) (partial_offset r) (source r) (count r) (complete r) (failed r) (done r)
    (chunked r) (keep_alive r) (filters r) v (sent r) (signals r) (flushing r).
Definition add_sent (v : list Z) (r : CockpitWebResponse) : CockpitWebResponse :=
  mkResponse (path r) (full_path r) (url_root r) (method r) (origin r) (protocol r) (cache_type r) (out r) (queue r)
    (out_queued r) (out_queueable r) (partial_offset r) (source r) (count r) (complete r) (failed r) (done r)
    (chunked r) (keep_alive r) (filters r) (references r) (sent r ++ v) (signals r) (flushing r).
Definition emit (v : signal) (r : CockpitWebResponse) : CockpitWebResponse :=
  mkResponse (path r) (full_path r) (url_root r) (method r) (origin r) (protocol r) (cache_type r) (out r) (queue r)
    (out_queued r) (out_queueable r) (partial_offset r) (source r) (count r) (complete r) (failed r) (done r)
    (chunked r) (keep_alive r) (filters r) (references r) (sent r) (signals r ++ [v]) (flushing r).
Definition set_flushing (v : bool) (r : CockpitWebResponse) : CockpitWebResponse :=
  mkResponse (path r) (full_path r) (url_root r) (method r) (origin r) (protocol r) (cache_type r) (out r) (queue r)
    (out_queued r) (out_queueable r) (partial_offset r) (source r) (count r) (complete r) (failed r) (done r)
    (chunked r) (keep_alive r) (filters r) (references r) (sent r) (signals r) v.
(** [self->done = TRUE], without source and stream. *)
Definition set_done (r : CockpitWebResponse) : CockpitWebResponse :=
  mkResponse (path r) (full_path r) (url_root r) (method r) (origin r) (protocol r) (cache_type r) false (queue r)
    (out_queued r) (out_queueable r) (partial_offset r) false (count r) (complete r) (failed r) true
    (chunked r) (keep_alive r) (filters r) (references r) (sent r) (signals r) (flushing r).

Definition cockpit_web_response_init (r : CockpitWebResponse) : CockpitWebResponse :=
  set_cache_type COCKPIT_WEB_RESPONSE_CACHE_UNSET (set_out_queueable G_MAXSIZE (set_queue [] 0 r)).

(** The reference of the new response belongs to the caller. *)
Definition cockpit_web_response_new (original_path path : option (list Z)) (in_headers : option headers)
    (method : list Z) (protocol : option (list Z)) : CockpitWebResponse :=
  let url_root :=
    match path, original_path with
    | Some path, Some original_path =>
        let offset := zlen original_path - zlen path in
        if (offset >? 0) && bool_decide (drop (Z.to_nat offset) original_path = path)
        then Some (take (Z.to_nat offset) original_path) else None
    | _, _ => None
    end in
  let keep_alive :=
    match t ← in_headers; table_lookup t (bs "Connection") with
    | Some connection => bool_decide (connection = bs "keep-alive")
    | None => true
    end in
  let protocol := default (bs "http") protocol in
  let host := t ← in_headers; table_lookup t (bs "Host") in
  let origin := (λ host, protocol ++ bs "://" ++ host) <$> host in
  cockpit_web_response_init
    (mkResponse path path url_root method origin protocol COCKPIT_WEB_RESPONSE_CACHE_UNSET true [] 0 0 0 false 0
       false false false false keep_alive [] 1 [] [] false).

(** ** The life of a response *)

(** A response that has been freed must not be used. *)
Definition alive (self : CockpitWebResponse) : comp unit unit := cassert (0 <? references self).

Definition cockpit_web_response_done (self : CockpitWebResponse) : comp unit CockpitWebResponse :=
  _ ← alive self;
  _ ← cassert (negb (done self));
  let reusable := complete self && negb (failed self) && keep_alive self in
  let self := if complete self then set_references (references self - 1) self else self in
  Ok (emit (Done reusable) (set_done self)).

(** Disposes of the response with its last reference. *)
Definition g_object_unref (self : CockpitWebResponse) : comp unit CockpitWebResponse :=
  _ ← alive self;
  if references self =? 1 then
    self ← (if done self then Ok self else cockpit_web_response_done self);
    Ok (set_filters [] (set_references 0 self))
  else Ok (set_references (references self - 1) self).

Definition flush_async (self : CockpitWebResponse) : comp unit CockpitWebResponse :=
  _ ← cassert (out self);
  Ok (set_flushing true (set_references (references self + 1) self)).

Definition queue_bytes (self : CockpitWebResponse) (block : list Z) : comp unit CockpitWebResponse :=
  _ ← alive self;
  let size := zlen block in
  let before := out_queued self in
  if G_MAXSIZE - size >? out_queued self then
    let self := set_queue (queue self ++ [block]) (out_queued self + size) self in
    let self := set_count (u32 (count self + 1)) self in
    self ← (if source self then Ok self else _ ← cassert (out self); Ok (set_source true self));
    Ok (if (before <? QUEUE_PRESSURE) && (out_queued self >=? QUEUE_PRESSURE)
        then emit (Pressure true) self else self)
  else Ok self.

(** Of [printf]: ["%x"] of an [unsigned int]. *)
Fixpoint hex_fuel (fuel : nat) (n : Z) : list Z :=
  match fuel with
  | O => []
  | S fuel' => (if n <? 16 then [] else hex_fuel fuel' (n / 16)) ++
               [if n mod 16 <? 10 then 48 + n mod 16 else 87 + n mod 16]
  end.
Definition render_hex (n : Z) : list Z := hex_fuel 8 (u32 n).

Definition queue_block (self : CockpitWebResponse) (block : list Z) : comp unit CockpitWebResponse :=
  let length := zlen block in
  if length =? 0 then Ok self
  else if out_queueable self <? length then Ok self
  else
    let self := set_out_queueable (out_queueable self - length) self in
    if negb (chunked self) then queue_bytes self block
    else
      self ← queue_bytes self (render_hex length ++ crlf);
      self ← queue_bytes self block;
      queue_bytes self crlf.

(** What the filters make of blocks: each sees what the one before passes on, and has a state of its
    own only, so it makes no difference whether a block has passed the later ones before the
    next one is seen. *)
Fixpoint queue_filter (filters : list F) (blocks : list (list Z)) : list (list Z) * list F :=
  match filters with
  | [] => (blocks, [])
  | f :: filters =>
      let '(blocks, f) := push_blocks f blocks in
      let '(blocks, filters) := queue_filter filters blocks in
      (blocks, f :: filters)
  end.

Fixpoint queue_blocks (self : CockpitWebResponse) (blocks : list (list Z)) : comp unit CockpitWebResponse :=
  match blocks with
  | [] => Ok self
  | block :: blocks => self ← queue_block self block; queue_blocks self blocks
  end.

(** Whether queuing more blocks makes sense. *)
Definition cockpit_web_response_queue (self : CockpitWebResponse) (block : list Z)
    : comp unit (bool * CockpitWebResponse) :=
  _ ← alive self;
  if complete self then Ok (false, self)
  else if failed self then Ok (false, self)
  else if bool_decide (method self = bs "HEAD") then Ok (true, self)
  else
    let '(blocks, filters) := queue_filter (filters self) [block] in
    self ← queue_blocks (set_filters filters self) blocks;
    Ok (true, self).

Definition cockpit_web_response_complete (self : CockpitWebResponse) : comp unit CockpitWebResponse :=
  _ ← alive self;
  if complete self then Ok self
  else if failed self then Ok self
  else
    let self := set_complete (set_references (references self + 1) self) in
    self ← (if chunked self then queue_bytes self (bs "0" ++ crlf ++ crlf) else Ok self);
    if source self then Ok self else flush_async self.

Definition cockpit_web_response_abort (self : CockpitWebResponse) : comp unit CockpitWebResponse :=
  _ ← alive self;
  if complete self then Ok self
  else if failed self then Ok self
  else cockpit_web_response_done (set_failed (set_complete (set_references (references self + 1) self))).

Definition cockpit_web_response_get_state (self : CockpitWebResponse) : CockpitWebResponding :=
  if done self then COCKPIT_WEB_RESPONSE_SENT
  else if complete self then COCKPIT_WEB_RESPONSE_COMPLETE
  else if count self =? 0 then COCKPIT_WEB_RESPONSE_READY
  else COCKPIT_WEB_RESPONSE_QUEUING.

Definition cockpit_web_response_add_filter (self : CockpitWebResponse) (filter : F) : CockpitWebResponse :=
  if count self =? 0 then set_filters (filters self ++ [filter]) self else self.

(** *** The events of the main loop *)

(** What [g_pollable_output_stream_write_nonblocking] does. *)
Inductive write_result :=
| Wrote (count : Z)
| WouldBlock
| WriteError.

Definition on_response_output (self : CockpitWebResponse) (result : write_result)
    : comp unit CockpitWebResponse :=
  _ ← alive self;
  match queue self with
  | block :: rest =>
      _ ← cassert ((zlen block =? 0) || (partial_offset self <? zlen block));
      let data := drop (Z.to_nat (partial_offset self)) block in
      let before := out_queued self in
      let result := if zlen data >? 0 then (_ ← cassert (out self); Ok result) else Ok (Wrote 0) in
      result ← result;
      match result with
      | WouldBlock => Ok self
      | WriteError => cockpit_web_response_done (set_failed self)
      | Wrote count =>
          let self := add_sent (take (Z.to_nat count) data) self in
          self ← (if count =? zlen data then
                    _ ← cassert (zlen block <=? out_queued self);
                    Ok (set_queue rest (out_queued self - zlen block) (set_partial_offset 0 self))
                  else
                    _ ← cassert (count <? zlen data);
                    Ok (set_partial_offset (partial_offset self + count) self));
          Ok (if (before >=? QUEUE_PRESSURE) && (out_queued self <? QUEUE_PRESSURE)
              then emit (Pressure false) self else self)
      end
  | [] =>
      let self := set_source false self in
      if complete self then flush_async self else Ok self
  end.

Definition on_output_flushed (self : CockpitWebResponse) (success : bool) : comp unit CockpitWebResponse :=
  let self := set_flushing false self in
  let self := if success then self else set_failed self in
  self ← cockpit_web_response_done self;
  g_object_unref self.

(** ** Headers *)

Definition cockpit_web_response_is_simple_token (string : list Z) : bool :=
  (strcspn string [32; 9; 13; 10; 11]%Z =? length string)%nat.

Definition cockpit_web_response_is_header_value (string : list Z) : bool :=
  (strcspn string [13; 10; 11]%Z =? length string)%nat.

Definition HEADER_CONTENT_TYPE : Z := Z.shiftl 1 0.
Definition HEADER_CONTENT_ENCODING : Z := Z.shiftl 1 1.
Definition HEADER_VARY : Z := Z.shiftl 1 2.
Definition HEADER_CACHE_CONTROL : Z := Z.shiftl 1 3.
Definition HEADER_DNS_PREFETCH_CONTROL : Z := Z.shiftl 1 4.
Definition HEADER_REFERRER_POLICY : Z := Z.shiftl 1 5.
Definition HEADER_CONTENT_TYPE_OPTIONS : Z := Z.shiftl 1 6.
Definition HEADER_CROSS_ORIGIN_RESOURCE_POLICY : Z := Z.shiftl 1 7.
Definition HEADER_X_FRAME_OPTIONS : Z := Z.shiftl 1 8.

Definition has_header (seen header : Z) : bool := negb (Z.land seen header =? 0).

(** Of [printf]: ["%d"] of an [unsigned int], and of a [gssize]. *)
Definition render_d (n : Z) : list Z :=
  if n <? 2 ^ 31 then digits_fuel 10 n else [45] ++ digits_fuel 10 (2 ^ 32 - n).
Definition render_gssize (n : Z) : list Z :=
  if 0 <=? n then digits_fuel 20 n else [45] ++ digits_fuel 20 (- n).

Definition begin_headers (status : Z) (reason : list Z) : list Z :=
  bs "HTTP/1.1 " ++ render_d status ++ bs " " ++ reason ++ crlf.

(** Which header it is, of those that are looked for. *)
Definition header_flag (name : list Z) : Z :=
  if strcasecmp_eq (bs "Content-Type") name then HEADER_CONTENT_TYPE
  else if strcasecmp_eq (bs "Cache-Control") name then HEADER_CACHE_CONTROL
  else if strcasecmp_eq (bs "Vary") name then HEADER_VARY
  else if strcasecmp_eq (bs "Content-Encoding") name then HEADER_CONTENT_ENCODING
  else if strcasecmp_eq (bs "X-DNS-Prefetch-Control") name then HEADER_DNS_PREFETCH_CONTROL
  else if strcasecmp_eq (bs "Referrer-Policy") name then HEADER_REFERRER_POLICY
  else if strcasecmp_eq (bs "X-Content-Type-Options") name then HEADER_CONTENT_TYPE_OPTIONS
  else if strcasecmp_eq (bs "Cross-Origin-Resource-Policy") name then HEADER_CROSS_ORIGIN_RESOURCE_POLICY
  else if strcasecmp_eq (bs "X-Frame-Options") name then HEADER_X_FRAME_OPTIONS
  else 0.

Definition append_header (string name : list Z) (value : option (list Z)) : list Z * Z :=
  match value with
  | Some value =>
      if negb (cockpit_web_response_is_simple_token name) then (string, 0)
      else if negb (cockpit_web_response_is_header_value value) then (string, 0)
      else (string ++ name ++ bs ": " ++ value ++ crlf, header_flag name)
  | None => (string, header_flag name)
  end.

Fixpoint append_table (string : list Z) (headers : list (list Z * option (list Z))) : list Z * Z :=
  match headers with
  | [] => (string, 0)
  | (name, value) :: headers =>
      let '(string, seen) := append_header string name value in
      let '(string, more) := append_table string headers in
      (string, Z.lor seen more)
  end.

Definition content_types : list (list Z * list Z) :=
  [(bs ".css", bs "text/css"); (bs ".gif", bs "image/gif"); (bs ".eot", bs "application/vnd.ms-fontobject");
   (bs ".html", bs "text/html"); (bs ".jpg", bs "image/jpg"); (bs ".js", bs "application/javascript");
   (bs ".json", bs "application/json"); (bs ".otf", bs "font/opentype"); (bs ".png", bs "image/png");
   (bs ".svg", bs "image/svg+xml"); (bs ".ttf", bs "application/octet-stream"); (bs ".txt", bs "text/plain");
   (bs ".wasm", bs "application/wasm"); (bs ".woff", bs "application/font-woff"); (bs ".xml", bs "text/xml")].

(** [g_str_has_suffix] *)
Definition has_suffix (s suffix : list Z) : bool :=
  (length suffix <=? length s)%nat && bool_decide (drop (length s - length suffix) s = suffix).

Definition cockpit_web_response_content_type (path : list Z) : option (list Z) :=
  snd <$> (snd <$> list_find (λ t, has_suffix path t.1 = true) content_types).

Definition success_status (status : Z) : bool := (200 <=? status) && (status <=? 299).

(** The response, and the block. *)
Definition finish_headers (self : CockpitWebResponse) (string : list Z) (length status seen : Z)
    : CockpitWebResponse * list Z :=
  let string :=
    if negb (has_header seen HEADER_CONTENT_TYPE) && success_status status then
      match p ← full_path self; cockpit_web_response_content_type p with
      | Some content_type => string ++ bs "Content-Type: " ++ content_type ++ crlf
      | None => string
      end
    else string in
  let '(self, string) :=
    if negb (status =? 304) then
      if (length <? 0) || has_header seen HEADER_CONTENT_ENCODING || bool_decide (filters self ≠ [])
      then (set_chunked true self, string ++ bs "Transfer-Encoding: chunked" ++ crlf)
      else (set_out_queueable length (set_chunked false self),
            string ++ bs "Content-Length: " ++ render_gssize length ++ crlf)
    else (self, string) in
  let string :=
    if negb (has_header seen HEADER_CACHE_CONTROL) && success_status status then
      match cache_type self with
      | COCKPIT_WEB_RESPONSE_NO_CACHE => string ++ bs "Cache-Control: no-cache, no-store" ++ crlf
      | COCKPIT_WEB_RESPONSE_CACHE => string ++ bs "Cache-Control: max-age=86400, private" ++ crlf
      | COCKPIT_WEB_RESPONSE_CACHE_UNSET => string
      end
    else string in
  let string :=
    if negb (has_header seen HEADER_VARY) && success_status status then
      match cache_type self with
      | COCKPIT_WEB_RESPONSE_CACHE => string ++ bs "Vary: Cookie" ++ crlf
      | _ => string
      end
    else string in
  let string := if negb (keep_alive self) then string ++ bs "Connection: close" ++ crlf else string in
  let string :=
    if negb (has_header seen HEADER_DNS_PREFETCH_CONTROL)
    then string ++ bs "X-DNS-Prefetch-Control: off" ++ crlf else string in
  let string :=
    if negb (has_header seen HEADER_REFERRER_POLICY)
    then string ++ bs "Referrer-Policy: no-referrer" ++ crlf else string in
  let string :=
    if negb (has_header seen HEADER_CONTENT_TYPE_OPTIONS)
    then string ++ bs "X-Content-Type-Options: nosniff" ++ crlf else string in
  let string :=
    if negb (has_header seen HEADER_CROSS_ORIGIN_RESOURCE_POLICY)
    then string ++ bs "Cross-Origin-Resource-Policy: same-origin" ++ crlf else string in
  let string :=
    if negb (has_header seen HEADER_X_FRAME_OPTIONS)
    then string ++ bs "X-Frame-Options: sameorigin" ++ crlf else string in
  (self, string ++ crlf).

(** [cockpit_web_response_headers] and [cockpit_web_response_headers_full]: the headers are given as
    arguments or in a table. *)
Definition cockpit_web_response_headers_full (self : CockpitWebResponse) (status : Z) (reason : list Z)
    (length : Z) (headers : list (list Z * option (list Z))) : comp unit CockpitWebResponse :=
  _ ← alive self;
  if count self >? 0 then Ok self
  else
    let '(string, seen) := append_table (begin_headers status reason) headers in
    let '(self, block) := finish_headers self string length status seen in
    queue_bytes self block.

(** ** Whole responses *)

Fixpoint content_loop (self : CockpitWebResponse) (blocks : list (list Z)) : comp unit CockpitWebResponse :=
  match blocks with
  | [] => cockpit_web_response_complete self
  | block :: blocks =>
      '(more, self) ← cockpit_web_response_queue self block;
      if more : bool then content_loop self blocks else Ok self
  end.

Definition cockpit_web_response_content (self : CockpitWebResponse) (headers : list (list Z * option (list Z)))
    (blocks : list (list Z)) : comp unit CockpitWebResponse :=
  let length := u64 (foldr (λ b n, zlen b + n) 0 blocks) in
  self ← cockpit_web_response_headers_full self 200 (bs "OK") length headers;
  content_loop self blocks.

Definition status_message (code : Z) : list Z :=
  if code =? 400 then bs "Bad request"
  else if code =? 401 then bs "Not Authorized"
  else if code =? 403 then bs "Forbidden"
  else if code =? 404 then bs "Not Found"
  else if code =? 405 then bs "Method Not Allowed"
  else if code =? 413 then bs "Request Entity Too Large"
  else if code =? 502 then bs "Remote Page is Unavailable"
  else if code =? 500 then bs "Internal Server Error"
  else if code <? 100 then render_u32 code ++ bs " Continue"
  else if code <? 200 then render_u32 code ++ bs " OK"
  else if code <? 300 then render_u32 code ++ bs " Moved"
  else render_u32 code ++ bs " Failed".

Definition substitute_message (message variable : list Z) : option (list Z) :=
  if bool_decide (variable = bs "message") then Some message else None.

(** The pieces of the error page are queued until one is refused. *)
Fixpoint error_loop (self : CockpitWebResponse) (blocks : list (list Z)) : comp unit (bool * CockpitWebResponse) :=
  match blocks with
  | [] => Ok (true, self)
  | block :: blocks =>
      '(more, self) ← cockpit_web_response_queue self block;
      if more : bool then error_loop self blocks else Ok (false, self)
  end.

Section Errors.
Context (g_uri_escape_string : list Z → list Z).     (* with " :" allowed *)
Context (fail_html : list Z).                         (* cockpit_webresponse_fail_html_text *)

Definition cockpit_web_response_error_with_body (self : CockpitWebResponse) (code : Z) (reason : option (list Z))
    (headers : option headers) (body : option (list Z)) : comp unit CockpitWebResponse :=
  let message := match reason with Some reason => g_uri_escape_string reason | None => status_message code end in
  let content_type := (bs "Content-Type", bs "text/html; charset=utf8") in
  let headers :=
    match headers with
    | Some t => match table_lookup t content_type.1 with
                | Some _ => t
                | None => table_insert t content_type.1 content_type.2
                end
    | None => [content_type]
    end in
  self ← cockpit_web_response_headers_full self code message (-1) (prod_map id Some <$> headers);
  if bool_decide (method self = bs "HEAD") then cockpit_web_response_complete self
  else
    match body with
    | Some body =>
        '(_, self) ← cockpit_web_response_queue self body;
        cockpit_web_response_complete self
    | None =>
        output ← cockpit_template_expand (bs "@@") (bs "@@") (substitute_message message) fail_html [0];
        '(more, self) ← error_loop self output;
        if more : bool then cockpit_web_response_complete self else Ok self
    end.

Definition cockpit_web_response_error (self : CockpitWebResponse) (code : Z) (headers : option headers)
    (reason : option (list Z)) : comp unit CockpitWebResponse :=
  cockpit_web_response_error_with_body self code reason headers None.

(** The errors that are told apart. *)
Inductive gerror_code :=
| COCKPIT_ERROR_AUTHENTICATION_FAILED
| COCKPIT_ERROR_PERMISSION_DENIED
| G_IO_ERROR_INVALID_DATA
| G_IO_ERROR_NO_SPACE
| OtherError.

Definition cockpit_web_response_gerror (self : CockpitWebResponse) (headers : option headers)
    (body : option (list Z)) (error : gerror_code) (message : list Z) : comp unit CockpitWebResponse :=
  let code :=
    match error with
    | COCKPIT_ERROR_AUTHENTICATION_FAILED => 401
    | COCKPIT_ERROR_PERMISSION_DENIED => 403
    | G_IO_ERROR_INVALID_DATA => 400
    | G_IO_ERROR_NO_SPACE => 413
    | OtherError => 500
    end in
  cockpit_web_response_error_with_body self code (Some message) headers body.

End Errors.

(** ** The path of the request *)

(** The component that is taken off, and what is left of the path. *)
Definition response_next_path (self : CockpitWebResponse) : option (list Z) * CockpitWebResponse :=
  match path self with
  | Some (47 :: beg) =>
      match memchr beg 47 with
      | Some O => (None, self)
      | Some n => (Some (take n beg), set_path (Some (drop n beg)) self)
      | None => (if bool_decide (beg = []) then None else Some beg, set_path None self)
      end
  | _ => (None, self)
  end.

Definition cockpit_web_response_skip_path (self : CockpitWebResponse) : bool * CockpitWebResponse :=
  let '(component, self) := response_next_path self in (bool_decide (is_Some component), self).

Definition cockpit_web_response_pop_path (self : CockpitWebResponse) : option (list Z) * CockpitWebResponse :=
  response_next_path self.

(** ** Runs

    What the holder of a reference does, and what the main loop does. *)

Inductive event :=
| Headers (status : Z) (reason : list Z) (length : Z) (headers : list (list Z * option (list Z)))
| Queue (block : list Z)
| Complete
| Abort
| Content (headers : list (list Z * option (list Z))) (blocks : list (list Z))
| Error (code : Z) (reason : option (list Z)) (headers : option headers) (body : option (list Z))
| AddFilter (filter : F)
| NextPath
| SetCacheType (cache : CockpitCacheType)
| Unref
| Output (result : write_result)
| Flushed (success : bool).

(** The stream does not write more than it is given. *)
Definition possible (r : CockpitWebResponse) (result : write_result) : bool :=
  match result, queue r with
  | Wrote n, block :: _ => (0 <=? n) && (n <=? zlen block - partial_offset r)
  | _, _ => true
  end.

(** Callers hold a reference, and do not begin a response, of which nothing has been queued, that is complete or has
    failed already. *)
Definition enabled (held : bool) (r : CockpitWebResponse) (e : event) : bool :=
  match e with
  | Headers _ _ _ _ | Content _ _ | Error _ _ _ _ => held && ((count r >? 0) || negb (complete r) && negb (failed r))
  | Output result => source r && possible r result
  | Flushed _ => flushing r
  | _ => held
  end.

(** *** What holds in every run *)

Definition b2z (b : bool) : Z := if b then 1 else 0.
Definition total (blocks : list (list Z)) : Z := foldr (λ b n, zlen b + n) 0 blocks.
Definition is_done (s : signal) : bool := match s with Done _ => true | _ => false end.

#[local] Arguments total : simpl never.

(** Part of the first block may have been written. *)
Definition partial_ok (queue : list (list Z)) (offset : Z) : Prop :=
  match queue with
  | [] => offset = 0
  | b :: _ => 0 ≤ offset ∧ (zlen b = 0 → offset = 0) ∧ (zlen b ≠ 0 → offset < zlen b)
  end.

Record response_inv (held : bool) (r : CockpitWebResponse) : Prop := {
  ri_references : references r = b2z held + b2z (complete r && negb (done r)) + b2z (flushing r);
  ri_out : out r = negb (done r);
  ri_source : source r = true → done r = false ∧ flushing r = false;
  ri_flushing : flushing r = true → complete r = true ∧ done r = false ∧ queue r = [];
  ri_waiting : queue r ≠ [] → done r = false → source r = true;
  ri_ends : complete r = true → done r = false → source r = true ∨ flushing r = true;
  ri_failed : failed r = true → done r = true;
  ri_finished : done r = true → complete r = true ∨ failed r = true ∨ held = false;
  ri_released : held = false → complete r = false → done r = true;
  ri_queued : out_queued r = total (queue r);
  ri_partial : partial_ok (queue r) (partial_offset r);
  ri_signals : filter (λ s, is_done s = true) (signals r) =
               if done r then [Done (complete r && negb (failed r) && keep_alive r)] else [];
  ri_drained : done r = true → complete r = true → failed r = false → queue r = []
}.

(** A response to which something can be added. *)
Definition open_ (r : CockpitWebResponse) : Prop := response_inv true r ∧ complete r = false ∧ done r = false.

Definition fits (r : CockpitWebResponse) (block : list Z) : Prop := out_queued r + zlen block < G_MAXSIZE.

(** The response with another block at the end of its queue. *)
Definition pushed (r : CockpitWebResponse) (block : list Z) : CockpitWebResponse :=
  let r' := set_source true (set_count (u32 (count r + 1)) (set_queue (queue r ++ [block]) (out_queued r + zlen block) r)) in
  if (out_queued r <? QUEUE_PRESSURE) && (out_queued r' >=? QUEUE_PRESSURE) then emit (Pressure true) r' else r'.

Lemma blocks_total_cons x a : total (x :: a) = zlen x + total a.
Proof. done. Qed.

Lemma total_app a b : total (a ++ b) = total a + total b.
Proof. induction a as [|x a IH]; [done|]. cbn [app]. rewrite !blocks_total_cons, IH. lia. Qed.

Lemma total_nonneg a : 0 ≤ total a.
Proof. induction a as [|x a IH]; [done|]. rewrite blocks_total_cons. pose proof (zlen_nonneg x). lia. Qed.

Lemma set_source_id r : source r = true → set_source true r = r.
Proof. destruct r. cbn. by intros ->. Qed.

Lemma queue_bytes_eq r block : 0 < references r → out r = true ∨ source r = true →
  queue_bytes r block = Ok (pushed r block) ∧ fits r block ∨ queue_bytes r block = Ok r ∧ ¬ fits r block.
Proof.
  intros Hr Ho. unfold queue_bytes, alive, fits. rewrite (proj2 (Z.ltb_lt 0 (references r))) by done. cbn [cassert mbind comp_bind].
  destruct (Z.gtb_spec (G_MAXSIZE - zlen block) (out_queued r)) as [Hf|Hf]; [left|right; split; [done|lia]].
  split; [|lia]. unfold pushed. set (r1 := set_count _ _).
  replace (if source r1 then Ok r1 else _) with (Ok (E := unit) (set_source true r1)); [done|].
  change (out r1) with (out r). change (source r1) with (source r).
  destruct (source r) eqn:Es; [by rewrite set_source_id|]. destruct Ho as [-> |]; done.
Qed.

Lemma emit_pressure_inv held b r : response_inv held r → response_inv held (emit (Pressure b) r).
Proof. intros []. constructor; cbn; try done. by rewrite filter_app, filter_cons_False, filter_nil, app_nil_r by done. Qed.

Lemma partial_ok_app q b off : partial_ok q off → partial_ok (q ++ [b]) off.
Proof.
  destruct q as [|x q]; [|done]. cbn. intros ->. pose proof (zlen_nonneg b). split_and!; lia.
Qed.

Lemma open_idle r : open_ r → flushing r = false ∧ out r = true ∧ 0 < references r ∧ failed r = false.
Proof.
  intros [[] [Hc Hd]]. 
  destruct (flushing r) eqn:Ef; [destruct (ri_flushing0 eq_refl); congruence|].
  rewrite ri_out0, ri_references0, Hc, Hd. split_and!; [done..|].
  destruct (failed r) eqn:Ea; [specialize (ri_failed0 eq_refl); congruence|done].
Qed.

Lemma pushed_open r block : open_ r → open_ (pushed r block).
Proof.
  intros Ho. destruct (open_idle r Ho) as (Hfl & Hout & Href & Hfa). destruct Ho as [I [Hc Hd]].
  assert (I' : response_inv true (set_source true
    (set_count (u32 (count r + 1)) (set_queue (queue r ++ [block]) (out_queued r + zlen block) r)))).
  { destruct I. constructor; cbn; try done.
    - congruence.
    - by left.
    - rewrite total_app, blocks_total_cons, ri_queued0. change (total []) with 0. lia.
    - by apply partial_ok_app.
    - congruence. }
  unfold pushed. split; [case_match; [by apply emit_pressure_inv|done]|]. by case_match.
Qed.

Lemma queue_bytes_open r block : open_ r → ∃ r', queue_bytes r block = Ok r' ∧ open_ r'.
Proof.
  intros Ho. destruct (open_idle r Ho) as (_ & Hout & Href & _).
  destruct (queue_bytes_eq r block Href (or_introl Hout)) as [[-> _]|[-> _]]; eexists; split; try done.
  by apply pushed_open.
Qed.

Lemma queueable_open v r : open_ r → open_ (set_out_queueable v r).
Proof. intros [[] ?]. split; [constructor|]; done. Qed.

Lemma filters_open v r : open_ r → open_ (set_filters v r).
Proof. intros [[] ?]. split; [constructor|]; done. Qed.

Lemma chunked_open v r : open_ r → open_ (set_chunked v r).
Proof. intros [[] ?]. split; [constructor|]; done. Qed.

Lemma queue_block_open r block : open_ r → ∃ r', queue_block r block = Ok r' ∧ open_ r'.
Proof.
  intros Ho. unfold queue_block. destruct (zlen block =? 0); [by eexists|].
  destruct (out_queueable r <? zlen block); [by eexists|].
  pose proof (queueable_open (out_queueable r - zlen block) r Ho) as Ho1.
  destruct (negb (chunked _)); [by apply queue_bytes_open|].
  destruct (queue_bytes_open _ (render_hex (zlen block) ++ crlf) Ho1) as (r1 & -> & H1). cbn [mbind comp_bind].
  destruct (queue_bytes_open _ block H1) as (r2 & -> & H2). cbn [mbind comp_bind]. by apply queue_bytes_open.
Qed.

Lemma queue_blocks_open blocks r : open_ r → ∃ r', queue_blocks r blocks = Ok r' ∧ open_ r'.
Proof.
  revert r. induction blocks as [|b blocks IH]; intros r Ho; [by eexists|]. cbn.
  destruct (queue_block_open r b Ho) as (r1 & -> & H1). cbn [mbind comp_bind]. by apply IH.
Qed.

Lemma held_alive r : response_inv true r → 0 < references r.
Proof. intros []. rewrite ri_references0. destruct (complete r && _), (flushing r); cbn; lia. Qed.

Lemma queue_inv r block : response_inv true r →
  ∃ b r', cockpit_web_response_queue r block = Ok (b, r') ∧ response_inv true r' ∧
    (open_ r → b = true ∧ open_ r') ∧ (b = true → open_ r).
Proof.
  intros I. unfold cockpit_web_response_queue, alive.
  rewrite (proj2 (Z.ltb_lt 0 (references r))) by by apply held_alive. cbn [cassert mbind comp_bind].
  destruct (complete r) eqn:Ec.
  { exists false, r. split_and!; [done..| |done]. intros [_ [? _]]. congruence. }
  destruct (failed r) eqn:Ef.
  { exists false, r. split_and!; [done..| |done]. intros Ho. apply open_idle in Ho as (_ & _ & _ & ?). congruence. }
  assert (Ho : open_ r).
  { split; [done|]. split; [done|]. destruct (done r) eqn:Ed; [|done].
    destruct (ri_finished _ _ I Ed) as [?|[?|?]]; congruence. }
  destruct (bool_decide (method r = bs "HEAD")).
  { exists true, r. by split_and!. }
  destruct (queue_filter (filters r) [block]) as [blocks fs].
  destruct (queue_blocks_open blocks _ (filters_open fs r Ho)) as (r' & -> & Ho'). cbn [mbind comp_bind].
  exists true, r'. split_and!; [done|apply Ho'|done|done].
Qed.

Lemma finish_open r string length status seen : open_ r → open_ (finish_headers r string length status seen).1.
Proof.
  intros Ho. unfold finish_headers. destruct (negb (status =? 304)); [|done].
  destruct ((length <? 0) || _ || _); cbn [fst]; [by apply chunked_open|by apply queueable_open, chunked_open].
Qed.

Lemma headers_open r status reason length hs : open_ r →
  ∃ r', cockpit_web_response_headers_full r status reason length hs = Ok r' ∧ open_ r'.
Proof.
  intros Ho. unfold cockpit_web_response_headers_full, alive.
  destruct (open_idle r Ho) as (_ & _ & Href & _). rewrite (proj2 (Z.ltb_lt 0 (references r))) by done.
  cbn [cassert mbind comp_bind]. destruct (count r >? 0); [by eexists|].
  destruct (append_table _ _) as [string seen].
  pose proof (finish_open r string length status seen Ho) as Hf.
  destruct (finish_headers _ _ _ _ _) as [r1 block]. by apply queue_bytes_open.
Qed.

(** Headers for a response that has begun change nothing. *)
Lemma headers_begun r status reason length hs : response_inv true r → count r >? 0 = true →
  cockpit_web_response_headers_full r status reason length hs = Ok r.
Proof.
  intros I Hc. unfold cockpit_web_response_headers_full, alive. rewrite (proj2 (Z.ltb_lt 0 (references r))) by by apply held_alive.
  cbn [cassert mbind comp_bind]. by rewrite Hc.
Qed.

Definition may_begin (r : CockpitWebResponse) : Prop := response_inv true r ∧ (count r >? 0 = true ∨ open_ r).

Lemma headers_inv r status reason length hs : may_begin r →
  ∃ r', cockpit_web_response_headers_full r status reason length hs = Ok r' ∧ response_inv true r'.
Proof.
  intros [I [Hc|Ho]]; [rewrite headers_begun by done; by eexists|].
  destruct (headers_open r status reason length hs Ho) as (r' & -> & Ho'). eexists. split; [done|apply Ho'].
Qed.

Lemma complete_inv r : response_inv true r →
  ∃ r', cockpit_web_response_complete r = Ok r' ∧ response_inv true r'.
Proof.
  intros I. unfold cockpit_web_response_complete, alive.
  rewrite (proj2 (Z.ltb_lt 0 (references r))) by by apply held_alive. cbn [cassert mbind comp_bind].
  destruct (complete r) eqn:Ec; [by eexists|]. destruct (failed r) eqn:Ef; [by eexists|].
  assert (Ho : open_ r).
  { split; [done|]. split; [done|]. destruct (done r) eqn:Ed; [|done].
    destruct (ri_finished _ _ I Ed) as [?|[?|?]]; congruence. }
  destruct (open_idle r Ho) as (Hfl & Hout & Href & _). destruct Ho as (_ & _ & Hd).
  set (r1 := set_complete (set_references (references r + 1) r)).
  (* [r2] may lack the flush that its end needs *)
  assert (Hr2 : ∃ r2, (if chunked r1 then queue_bytes r1 (bs "0" ++ crlf ++ crlf) else Ok r1) = Ok r2 ∧
    out r2 = true ∧ (source r2 = true → response_inv true r2) ∧
    (source r2 = false → response_inv true (set_flushing true (set_references (references r2 + 1) r2)))).
  { assert (H1 : out r1 = true ∧ (source r1 = true → response_inv true r1) ∧
      (source r1 = false → response_inv true (set_flushing true (set_references (references r1 + 1) r1)))).
    { split; [done|]. destruct I. split; intros Hs; constructor; cbn in *;
        rewrite ?Hd, ?Hfl, ?Ec, ?Ef in *; cbn in *; try done; try lia; try (by left); try (by right).
      - congruence.
      - intros _. split_and!; [done..|]. destruct (queue r) eqn:Eq; [done|].
        specialize (ri_waiting0 ltac:(done) eq_refl). congruence. }
    destruct (chunked r1); [|by exists r1].
    destruct (queue_bytes_eq r1 (bs "0" ++ crlf ++ crlf)) as [[-> _]|[-> _]];
      [cbn; lia|by left| |by exists r1].
    exists (pushed r1 (bs "0" ++ crlf ++ crlf)).
    assert (Hp : source (pushed r1 (bs "0" ++ crlf ++ crlf)) = true ∧ out (pushed r1 (bs "0" ++ crlf ++ crlf)) = true).
    { unfold pushed. by case_match. }
    destruct Hp as [Hp1 Hp2]. split_and!; [done|done| |congruence]. intros _.
    assert (I' : response_inv true (set_source true
      (set_count (u32 (count r1 + 1)) (set_queue (queue r1 ++ [bs "0" ++ crlf ++ crlf])
        (out_queued r1 + zlen (bs "0" ++ crlf ++ crlf)) r1)))).
    { destruct I. constructor; cbn -[zlen] in *; rewrite ?Hd, ?Hfl, ?Ec, ?Ef in *; cbn -[zlen] in *; try done;
        try lia; try (by left).
      - rewrite total_app, blocks_total_cons, ri_queued0. change (total []) with 0. lia.
      - by apply partial_ok_app. }
    unfold pushed. case_match; [by apply emit_pressure_inv|done]. }
  destruct Hr2 as (r2 & E & H1 & H2 & H3). rewrite E. cbn [mbind comp_bind]. unfold flush_async. rewrite H1.
  cbn [cassert mbind comp_bind]. destruct (source r2); eexists; (split; [done|]); auto.
Qed.

Lemma content_loop_inv r blocks : response_inv true r → ∃ r', content_loop r blocks = Ok r' ∧ response_inv true r'.
Proof.
  revert r. induction blocks as [|b blocks IH]; intros r I; cbn [content_loop]; [by apply complete_inv|].
  destruct (queue_inv r b I) as (more & r' & -> & I' & _). cbn [mbind comp_bind]. destruct more; [by apply IH|by eexists].
Qed.

Lemma content_inv r hs blocks : may_begin r →
  ∃ r', cockpit_web_response_content r hs blocks = Ok r' ∧ response_inv true r'.
Proof.
  intros Hm. unfold cockpit_web_response_content.
  destruct (headers_inv r 200 (bs "OK") (u64 (total blocks)) hs Hm) as (r' & E & I). unfold total in E. rewrite E.
  by apply content_loop_inv.
Qed.

Lemma error_loop_inv r blocks : response_inv true r → ∃ more r', error_loop r blocks = Ok (more, r') ∧ response_inv true r'.
Proof.
  revert r. induction blocks as [|b blocks IH]; intros r I; cbn [error_loop]; [by eexists _, _|].
  destruct (queue_inv r b I) as (more & r' & -> & I' & _). cbn [mbind comp_bind]. destruct more; [by apply IH|by eexists _, _].
Qed.

(** *** Its end *)

Lemma done_eq r : 0 < references r → done r = false →
  cockpit_web_response_done r =
  Ok (emit (Done (complete r && negb (failed r) && keep_alive r))
        (set_done (set_references (references r - b2z (complete r)) r))).
Proof.
  intros Hr Hd. unfold cockpit_web_response_done, alive. rewrite (proj2 (Z.ltb_lt 0 (references r))), Hd by done.
  cbn [cassert mbind comp_bind negb]. destruct (complete r); [done|]. do 3 f_equal. destruct r. cbn. by rewrite Z.sub_0_r.
Qed.

Lemma filter_done (l : list signal) b : filter (λ s, is_done s = true) l = [] →
  filter (λ s, is_done s = true) (l ++ [Done b]) = [Done b].
Proof. intros E. by rewrite filter_app, E, filter_cons_True, filter_nil by done. Qed.

Lemma abort_inv r : response_inv true r → ∃ r', cockpit_web_response_abort r = Ok r' ∧ response_inv true r'.
Proof.
  intros I. unfold cockpit_web_response_abort, alive.
  pose proof (held_alive r I) as Hr. rewrite (proj2 (Z.ltb_lt 0 (references r))) by done. cbn [cassert mbind comp_bind].
  destruct (complete r) eqn:Ec; [by eexists|]. destruct (failed r) eqn:Ef; [by eexists|].
  assert (Hd : done r = false).
  { destruct (done r) eqn:Ed; [|done]. destruct (ri_finished _ _ I Ed) as [?|[?|?]]; congruence. }
  rewrite done_eq by (cbn; lia || done). eexists. split; [done|]. destruct (open_idle r) as (Hfl & Ho & _ & _); [done|].
  destruct I. rewrite Ec, Hd, Hfl in *. constructor; cbn in *; rewrite ?Hfl; cbn; try done; try lia; try (by left).
  by apply filter_done.
Qed.

Lemma unref_inv r : response_inv true r → ∃ r', g_object_unref r = Ok r' ∧ response_inv false r'.
Proof.
  intros I. unfold g_object_unref, alive.
  pose proof (held_alive r I) as Hr. rewrite (proj2 (Z.ltb_lt 0 (references r))) by done. cbn [cassert mbind comp_bind].
  pose proof (ri_references _ _ I) as Hrefs. cbn [b2z] in Hrefs.
  destruct (Z.eqb_spec (references r) 1) as [H1|H1].
  - assert (Hz : b2z (complete r && negb (done r)) = 0 ∧ flushing r = false).
    { destruct (complete r && negb (done r)), (flushing r); cbn [b2z] in *; (done || lia). }
    destruct Hz as [Hz Hfl]. destruct (done r) eqn:Ed; cbn [mbind comp_bind].
    + eexists. split; [done|]. destruct I. rewrite Ed in *. constructor; cbn; rewrite ?Ed, ?Hfl, ?andb_false_r; cbn; try done.
      * intros Hs. by destruct (ri_source0 Hs).
      * by right; right.
    + assert (Hc : complete r = false) by (by destruct (complete r)).
      rewrite done_eq by done. cbn [mbind comp_bind]. eexists. split; [done|]. destruct I. rewrite Hc, Ed, Hfl in *.
      constructor; cbn; rewrite ?Hc, ?Hfl; cbn; try done; [by right; right|by apply filter_done].
  - eexists. split; [done|]. destruct I. constructor; cbn; try done; [lia|tauto|].
    intros _ Hc. rewrite Hc in Hrefs. cbn in Hrefs. destruct (flushing r) eqn:Ef; cbn in Hrefs; [|lia].
    destruct (ri_flushing0 eq_refl). congruence.
Qed.

Lemma flushed_inv held r success : response_inv held r → flushing r = true →
  ∃ r', on_output_flushed r success = Ok r' ∧ response_inv held r'.
Proof.
  intros I Hf. destruct (ri_flushing _ _ I Hf) as (Hc & Hd & Hq). pose proof (ri_references _ _ I) as Hrefs.
  rewrite Hc, Hd, Hf in Hrefs. cbn [b2z andb negb] in Hrefs.
  unfold on_output_flushed. set (r1 := if success then set_flushing false r else set_failed (set_flushing false r)).
  assert (Hr1 : references r1 = references r ∧ done r1 = false ∧ complete r1 = true ∧ failed r1 = negb success
    ∧ flushing r1 = false ∧ queue r1 = [] ∧ out r1 = true).
  { pose proof (ri_out _ _ I) as Ho. rewrite Hd in Ho.
    assert (failed r = false). { destruct (failed r) eqn:E; [|done]. pose proof (ri_failed _ _ I E). congruence. }
    subst r1. by destruct success. }
  destruct Hr1 as (E1 & E2 & E3 & E4 & E5 & E6 & E7).
  rewrite done_eq by (done || (destruct held; cbn in *; lia)). cbn [mbind comp_bind]. rewrite E3. cbn [b2z].
  unfold g_object_unref, alive. cbn [references emit set_done set_references].
  rewrite (proj2 (Z.ltb_lt 0 (references r1 - 1))) by (destruct held; cbn in *; lia). cbn [cassert mbind comp_bind].
  assert (Hsig : filter (λ s, is_done s = true) (signals r1) = []).
  { subst r1. pose proof (ri_signals _ _ I) as Hs. rewrite Hd in Hs. by destruct success. }
  assert (Hk : keep_alive r1 = keep_alive r) by (subst r1; by destruct success).
  assert (Hqo : out_queued r1 = 0 ∧ partial_offset r1 = 0).
  { pose proof (ri_queued _ _ I) as H1. pose proof (ri_partial _ _ I) as H2. rewrite Hq in *.
    subst r1. by destruct success. }
  destruct Hqo as [Hqo Hpo].
  destruct (Z.eqb_spec (references r1 - 1) 1) as [H1|H1]; eexists; (split; [done|]);
    (constructor; cbn; rewrite ?E3, ?E4, ?E5, ?E6, ?Hqo, ?Hpo; cbn;
      [destruct held; cbn in *; lia|done|done|done|done|done|done|by left|done|done|done|by apply filter_done|done]).
Qed.

(** The response after a write. *)
Definition wrote (r : CockpitWebResponse) (block : list Z) (rest : list (list Z)) (n : Z) : CockpitWebResponse :=
  let data := drop (Z.to_nat (partial_offset r)) block in
  let r1 := add_sent (take (Z.to_nat n) data) r in
  let r2 := if n =? zlen data then set_queue rest (out_queued r - zlen block) (set_partial_offset 0 r1)
            else set_partial_offset (partial_offset r + n) r1 in
  if (out_queued r >=? QUEUE_PRESSURE) && (out_queued r2 <? QUEUE_PRESSURE) then emit (Pressure false) r2 else r2.

Lemma partial_data held r block rest : response_inv held r → queue r = block :: rest →
  let data := drop (Z.to_nat (partial_offset r)) block in
  0 ≤ partial_offset r ∧ zlen data = zlen block - partial_offset r ∧
  ((zlen block =? 0) || (partial_offset r <? zlen block)) = true ∧ zlen block ≤ out_queued r.
Proof.
  intros I Eq. pose proof (ri_partial _ _ I) as Hp. pose proof (ri_queued _ _ I) as Hq. rewrite Eq in *.
  destruct Hp as (H1 & H2 & H3). rewrite blocks_total_cons in Hq. pose proof (total_nonneg rest). pose proof (zlen_nonneg block).
  cbv zeta. rewrite zlen_drop. split_and!; [done| | |lia].
  - destruct (Z.eqb_spec (zlen block) 0); [specialize (H2 ltac:(done))|specialize (H3 ltac:(done))]; lia.
  - destruct (Z.eqb_spec (zlen block) 0); [done|]. cbn. apply Z.ltb_lt. auto.
Qed.

(** What the stream does with the rest of the first block: nothing is written of nothing. *)
Definition outcome (r : CockpitWebResponse) (block : list Z) (result : write_result) : write_result :=
  if zlen block - partial_offset r >? 0 then result else Wrote 0.

Lemma output_eq held r block rest result : response_inv held r → source r = true → queue r = block :: rest →
  0 < references r → possible r result = true →
  on_response_output r result =
  match outcome r block result with
  | Wrote n => Ok (wrote r block rest n)
  | WouldBlock => Ok r
  | WriteError => cockpit_web_response_done (set_failed r)
  end.
Proof.
  intros I Hs Eq Hr Hn. destruct (partial_data held r block rest I Eq) as (Hp & Hd & Hc & Hl).
  destruct (ri_source _ _ I Hs) as [Hdone _]. assert (Hout : out r = true) by (by rewrite (ri_out _ _ I), Hdone).
  unfold on_response_output, alive. rewrite (proj2 (Z.ltb_lt 0 (references r))), Eq, Hc, Hout by done.
  cbn [cassert mbind comp_bind]. unfold wrote, outcome. rewrite <- Hd.
  set (data := drop (Z.to_nat (partial_offset r)) block) in *.
  replace (if zlen data >? 0 then Ok result else Ok (Wrote 0))
    with (Ok (E := unit) (if zlen data >? 0 then result else Wrote 0)) by (by destruct (zlen data >? 0)).
  cbn [mbind comp_bind].
  assert (Hle : ∀ n, (if zlen data >? 0 then result else Wrote 0) = Wrote n → n ≤ zlen data).
  { intros n. destruct (Z.gtb_spec (zlen data) 0) as [H1|H1].
    - intros ->. cbn in Hn. rewrite Eq in Hn. to_prop. lia.
    - intros [= <-]. apply zlen_nonneg. }
  destruct (if zlen data >? 0 then result else Wrote 0) as [n| |]; [|done..].
  specialize (Hle n eq_refl). cbn [out_queued add_sent]. destruct (Z.eqb_spec n (zlen data)) as [E|E].
  - rewrite (proj2 (Z.leb_le _ _)) by done. done.
  - rewrite (proj2 (Z.ltb_lt n (zlen data))) by lia. done.
Qed.

Lemma wrote_inv held r block rest n : response_inv held r → source r = true → queue r = block :: rest →
  0 ≤ n ≤ zlen block - partial_offset r → response_inv held (wrote r block rest n).
Proof.
  intros I Hs Eq Hn. destruct (partial_data held r block rest I Eq) as (Hp & Hd & Hc & Hl).
  destruct (ri_source _ _ I Hs) as [Hdone Hfl]. unfold wrote.
  set (data := drop (Z.to_nat (partial_offset r)) block) in *.
  assert (H2 : response_inv held (if n =? zlen data
    then set_queue rest (out_queued r - zlen block) (set_partial_offset 0 (add_sent (take (Z.to_nat n) data) r))
    else set_partial_offset (partial_offset r + n) (add_sent (take (Z.to_nat n) data) r))).
  { destruct I. rewrite Eq in *. destruct (Z.eqb_spec n (zlen data)) as [E|E];
      constructor; cbn; rewrite ?Hs, ?Eq in *; try done; try tauto.
    - congruence.
    - rewrite ri_queued0, blocks_total_cons. lia.
    - destruct rest as [|b rest]; [done|]. cbn. pose proof (zlen_nonneg b). split_and!; lia.
    - congruence.
    - destruct ri_partial0 as (P1 & P2 & P3). cbn. split_and!; [lia| |].
      + intros Hz. specialize (P2 Hz). lia.
      + intros Hz. specialize (P3 Hz). lia. }
  match goal with |- response_inv _ (if ?b then _ else _) => destruct b end; [by apply emit_pressure_inv|done].
Qed.

Lemma output_inv held r result : response_inv held r → source r = true → possible r result = true →
  ∃ r', on_response_output r result = Ok r' ∧ response_inv held r'.
Proof.
  intros I Hs Hp. destruct (ri_source _ _ I Hs) as [Hd Hfl]. pose proof (ri_references _ _ I) as Hrefs.
  assert (Hr : 0 < references r).
  { rewrite Hrefs, Hd, Hfl. destruct held; cbn; [destruct (complete r); cbn; lia|].
    destruct (complete r) eqn:Ec; [cbn; lia|]. pose proof (ri_released _ _ I eq_refl Ec). congruence. }
  assert (Hout : out r = true) by (by rewrite (ri_out _ _ I), Hd).
  assert (Hfa : failed r = false). { destruct (failed r) eqn:E; [|done]. pose proof (ri_failed _ _ I E). congruence. }
  destruct (queue r) as [|block rest] eqn:Eq.
  - unfold on_response_output, alive. rewrite (proj2 (Z.ltb_lt 0 (references r))), Eq by done.
    cbn [cassert mbind comp_bind]. unfold flush_async. cbn [out set_source complete]. rewrite Hout. cbn [cassert mbind comp_bind].
    destruct I. rewrite Hd, Hfl, Hfa in *. destruct (complete r) eqn:Ec; eexists; (split; [done|]);
      constructor; cbn; rewrite ?Ec, ?Hd, ?Hfl, ?Hfa, ?Eq in *; try done; cbn in *; try lia; by right.
  - rewrite (output_eq held r block rest result) by done.
    destruct (outcome r block result) as [n| |] eqn:En; [|by exists r|].
    + eexists. split; [done|]. apply wrote_inv; [done..|]. unfold outcome in En.
      destruct (Z.gtb_spec (zlen block - partial_offset r) 0) as [H1|H1].
      * subst result. cbn in Hp. rewrite Eq in Hp. to_prop. lia.
      * injection En as <-. destruct (partial_data held r block rest I Eq) as (Hpp & Hd' & _).
        pose proof (zlen_nonneg (drop (Z.to_nat (partial_offset r)) block)). lia.
    + rewrite done_eq by done. eexists. split; [done|].
      destruct I. rewrite Hd, Hfl in *. constructor; cbn; rewrite ?Hfl, ?andb_false_r; cbn; try done.
      * rewrite ri_references0. destruct (complete r); cbn; lia.
      * by right; left.
      * by apply filter_done.
Qed.

Lemma next_path_inv held r : response_inv held r → response_inv held (response_next_path r).2.
Proof.
  intros I. assert (Hs : ∀ p, response_inv held (set_path p r)) by (intros p; destruct I; by constructor).
  unfold response_next_path. repeat match goal with |- response_inv _ (match ?x with _ => _ end).2 => destruct x end;
    done || apply Hs.
Qed.

(** ** Every run *)

Section Runs.
Context (g_uri_escape_string : list Z → list Z) (fail_html : list Z).

(** The response, and whether the caller still holds its reference. *)
Definition handle (held : bool) (r : CockpitWebResponse) (e : event) : comp unit (bool * CockpitWebResponse) :=
  match e with
  | Headers status reason length headers =>
      r ← cockpit_web_response_headers_full r status reason length headers; Ok (held, r)
  | Queue block => '(_, r) ← cockpit_web_response_queue r block; Ok (held, r)
  | Complete => r ← cockpit_web_response_complete r; Ok (held, r)
  | Abort => r ← cockpit_web_response_abort r; Ok (held, r)
  | Content headers blocks => r ← cockpit_web_response_content r headers blocks; Ok (held, r)
  | Error code reason headers body =>
      r ← cockpit_web_response_error_with_body g_uri_escape_string fail_html r code reason headers body; Ok (held, r)
  | AddFilter filter => Ok (held, cockpit_web_response_add_filter r filter)
  | NextPath => Ok (held, (response_next_path r).2)
  | SetCacheType cache => Ok (held, set_cache_type cache r)
  | Unref => r ← g_object_unref r; Ok (false, r)
  | Output result => r ← on_response_output r result; Ok (held, r)
  | Flushed success => r ← on_output_flushed r success; Ok (held, r)
  end.

Inductive run (r0 : CockpitWebResponse) : list event → bool → CockpitWebResponse → Prop :=
| run_nil : run r0 [] true r0
| run_snoc es held r e held' r' :
    run r0 es held r → enabled held r e = true → handle held r e = Ok (held', r') →
    run r0 (es ++ [e]) held' r'.

(** A run, as far as its events can happen. *)
Fixpoint exec (held : bool) (r : CockpitWebResponse) (es : list event) : option (bool * CockpitWebResponse) :=
  match es with
  | [] => Some (held, r)
  | e :: es =>
      if enabled held r e then
        match handle held r e with Ok (held, r) => exec held r es | _ => None end
      else None
  end.

Lemma exec_app r0 before held r es held' r' : run r0 before held r → exec held r es = Some (held', r') →
  run r0 (before ++ es) held' r'.
Proof.
  revert before held r. induction es as [|e es IH]; intros before held r Hrun; cbn [exec].
  - intros [= <- <-]. by rewrite app_nil_r.
  - destruct (enabled held r e) eqn:He; [|done]. destruct (handle held r e) as [[held1 r1]| |] eqn:E; try done.
    intros H. change (e :: es) with ([e] ++ es). rewrite app_assoc. apply (IH _ held1 r1); [|done].
    by apply (run_snoc r0 before held r e).
Qed.

Lemma exec_run r0 es held r : exec true r0 es = Some (held, r) → run r0 es held r.
Proof. apply (exec_app r0 []). constructor. Qed.

Context (fail_html_text : nul_free fail_html).

Lemma error_inv r code reason hs body : may_begin r →
  ∃ r', cockpit_web_response_error_with_body g_uri_escape_string fail_html r code reason hs body = Ok r' ∧ response_inv true r'.
Proof.
  intros Hm. unfold cockpit_web_response_error_with_body.
  match goal with |- context [cockpit_web_response_headers_full r code ?m (-1) ?h] =>
    destruct (headers_inv r code m (-1) h Hm) as (r1 & -> & H1) end.
  cbn [mbind comp_bind]. destruct (bool_decide _); [by apply complete_inv|].
  destruct body as [body|].
  - destruct (queue_inv r1 body) as (more & r' & -> & I & _); [done|]. cbn [mbind comp_bind]. by apply complete_inv.
  - destruct (template_safe (bs "@@") (bs "@@")
      (substitute_message (match reason with Some reason => g_uri_escape_string reason | None => status_message code end))
      fail_html [] fail_html_text) as [output ->]. cbn [mbind comp_bind].
    destruct (error_loop_inv r1 output H1) as (more & r' & -> & H2). cbn [mbind comp_bind].
    destruct more; [by apply complete_inv|by eexists].
Qed.

Lemma enabled_handled held r e : response_inv held r → enabled held r e = true →
  ∃ held' r', handle held r e = Ok (held', r') ∧ response_inv held' r'.
Proof.
  intros I He. assert (Hopen : held && ((count r >? 0) || negb (complete r) && negb (failed r)) = true → held = true ∧ may_begin r).
  { intros [-> [H1|H1]%orb_true_iff]%andb_true_iff; (split; [done|]); (split; [done|]); [by left|right]. to_prop.
    split; [done|]. split; [done|]. destruct (done r) eqn:Ed; [|done]. destruct (ri_finished _ _ I Ed) as [?|[?|?]]; congruence. }
  destruct e as [st reason len hs|block| | |hs blocks|code reason hs body|f| |cache| |result|success];
    cbn [handle enabled] in *; try subst held;
    try (destruct (Hopen He) as [-> Ho]; clear Hopen).
  - destruct (headers_inv r st reason len hs Ho) as (r' & -> & H1). by eexists _, _.
  - destruct (queue_inv r block I) as (b & r' & -> & H1 & _). by eexists _, _.
  - destruct (complete_inv r I) as (r' & -> & H1). by eexists _, _.
  - destruct (abort_inv r I) as (r' & -> & H1). by eexists _, _.
  - destruct (content_inv r hs blocks Ho) as (r' & -> & H1). by eexists _, _.
  - destruct (error_inv r code reason hs body Ho) as (r' & -> & H1). by eexists _, _.
  - eexists _, _. split; [done|]. unfold cockpit_web_response_add_filter. destruct (count r =? 0); [|done].
    destruct I. by constructor.
  - eexists _, _. split; [done|]. by apply next_path_inv.
  - eexists _, _. split; [done|]. destruct I. by constructor.
  - destruct (unref_inv r I) as (r' & -> & H1). by eexists _, _.
  - apply andb_prop in He as [He1 He2]. destruct (output_inv held r result I) as (r' & -> & Ho); [done..|]. by eexists _, _.
  - destruct (flushed_inv held r success I He) as (r' & -> & H1). by eexists _, _.
Qed.

Lemma new_inv original_path path in_headers method protocol :
  response_inv true (cockpit_web_response_new original_path path in_headers method protocol).
Proof. by constructor. Qed.

Lemma response_run_inv r0 es held r : response_inv true r0 → run r0 es held r → response_inv held r.
Proof.
  intros I. induction 1 as [|es held r e held' r' _ IH He E]; [done|].
  destruct (enabled_handled held r e IH He) as (held2 & r2 & E2 & I2). rewrite E in E2. by injection E2 as -> ->.
Qed.

(** C21: a response is safe but for one use.  Its holder may queue, complete, abort and release it, set filters and the
    type of the cache, and begin it with headers, content or an error, in any order and at any time, except that it
    must not begin a response whose count of blocks is 0 and which has been completed or aborted already
    ([begun_after_abort] and [begun_after_complete] show the failed assertion that follows then); in between, the
    stream takes whatever part of what it is given, blocks or fails, and the flush ends in any way.  Then nothing
    faults: no assertion fails, nothing is written to a stream that is gone, and no response is used that has been
    freed; it is done at most once, and it has been done when it is freed. *)
Theorem response_safe original_path path in_headers method protocol es held r :
  run (cockpit_web_response_new original_path path in_headers method protocol) es held r →
  (∀ e, enabled held r e = true → ∃ held' r', handle held r e = Ok (held', r')) ∧
  (length (filter (λ s, is_done s = true) (signals r)) ≤ 1)%nat ∧
  (references r = 0 → done r = true) ∧ 0 ≤ references r.
Proof.
  intros Hrun. pose proof (response_run_inv _ _ _ _ (new_inv _ _ _ _ _) Hrun) as I. split_and!.
  - intros e He. destruct (enabled_handled held r e I He) as (held' & r' & E & _). by eexists _, _.
  - rewrite (ri_signals _ _ I). by destruct (done r); cbn; lia.
  - intros Hz. rewrite (ri_references _ _ I) in Hz. destruct (done r) eqn:Ed; [done|].
    destruct held, (complete r) eqn:Ec, (flushing r); cbn in Hz; try lia.
    by rewrite (ri_released _ _ I) in Ed.
  - rewrite (ri_references _ _ I). destruct held, (complete r && _), (flushing r); cbn; lia.
Qed.
End Runs.

End Response.

(** ** A response of an error *)

Definition example_new : CockpitWebResponse (F := CockpitWebInject) :=
  cockpit_web_response_new (Some (bs "/cockpit/x.html")) (Some (bs "/x.html")) (Some [(bs "Connection", bs "keep-alive")])
    (bs "GET") None.

(** An error, or headers, for a response that has been aborted before anything was queued: the stream is gone, and only the
    number of queued blocks is looked at. *)
Lemma begun_after_abort :
  (r ← cockpit_web_response_abort example_new;
   cockpit_web_response_error (λ s, s) (bs "<p>@@message@@</p>") r 404 None None) = Fault ∧
  (r ← cockpit_web_response_abort example_new; cockpit_web_response_headers_full r 200 (bs "OK") 0 []) = Fault.
Proof. by vm_compute. Qed.

(** After it has been completed with nothing queued, the headers are written when the stream is gone. *)
Lemma begun_after_complete :
  (r ← cockpit_web_response_complete example_new;
   r ← cockpit_web_response_headers_full r 200 (bs "OK") 0 [];
   r ← on_output_flushed r true;
   on_response_output r (Wrote 1)) = Fault.
Proof. by vm_compute. Qed.

Definition example_events : list (event (F := CockpitWebInject)) :=
  [Error 404 None None None; Output (Wrote 10); Unref; Output WouldBlock; Output WriteError].

Definition example_failed : CockpitWebResponse (F := CockpitWebInject) :=
  match exec (λ s, s) (bs "<p>@@message@@</p>") true example_new example_events with
  | Some (_, r) => r
  | None => example_new
  end.

Lemma response_safe_witness :
  (∀ e, enabled false example_failed e = true → ∃ held' r', handle (λ s, s) (bs "<p>@@message@@</p>") false example_failed e = Ok (held', r')) ∧
  (length (filter (λ s, is_done s = true) (signals example_failed)) ≤ 1)%nat ∧
  (references example_failed = 0 → done example_failed = true) ∧ 0 ≤ references example_failed.
Proof.
  apply (response_safe (λ s, s) (bs "<p>@@message@@</p>") ltac:(by_decide) (Some (bs "/cockpit/x.html")) (Some (bs "/x.html"))
    (Some [(bs "Connection", bs "keep-alive")]) (bs "GET") None example_events).
  apply exec_run. vm_compute. reflexivity.
Defined.
(** ** Findings *)

(** The classes of the messages for other codes are off by one: a redirection has [Failed] and a
    success [Moved]; and the code stands in the status line twice. *)
Lemma other_messages :
  status_message 101 = bs "101 OK" ∧ status_message 204 = bs "204 Moved" ∧ status_message 302 = bs "302 Failed" ∧
  begin_headers 302 (status_message 302) = bs "HTTP/1.1 302 302 Failed" ++ crlf.
Proof. by vm_compute. Qed.

(** The size of a chunk is cast to 32 bits: the one of a block of 4 GiB is the end of the body. *)
Lemma huge_chunk : render_hex (2 ^ 32) = bs "0".
Proof. by vm_compute. Qed.

(** A [HEAD] request that is answered with an error gets a body: the end of the chunks. *)
Lemma head_has_body `{WebFilter F} :
  (λ x, last (queue x.2)) <$>
    exec (λ s, s) [] true (cockpit_web_response_new (F := F) None None None (bs "HEAD") None) [Error 404 None None None] =
  Some (Some (bs "0" ++ crlf ++ crlf)).
Proof. by vm_compute. Qed.

(** When there is no next component, the path is lost all the same. *)
Lemma next_path_lost `{WebFilter F} :
  let r := cockpit_web_response_new (F := F) (Some (bs "/")) (Some (bs "/")) None (bs "GET") None in
  (response_next_path r).1 = None ∧ path (response_next_path r).2 = None.
Proof. by vm_compute. Qed.
