(* ===== verification/WebResponseSent.v ===== *)
(** * What a response sends

    The bytes that a response of [WebResponse] puts on the wire, whatever the stream does in between:
    those of the blocks that have been queued, in their order, and all of them when the connection
    can be used again. *)

From S2P Require Import Prelude WebFilter Http WebResponse.
#[local] Open Scope Z_scope.

Section Sent.
Context {F : Type} {filter_of : WebFilter F}.
Notation CockpitWebResponse := (CockpitWebResponse (F := F)).
Notation event := (event (F := F)).
Implicit Types (r : CockpitWebResponse) (e : event).
#[local] Arguments total : simpl never.

(** ** What is sent *)

Definition stream (r : CockpitWebResponse) : list Z :=
  sent r ++ drop (Z.to_nat (partial_offset r)) (concat (queue r)).

Lemma partial_le held r : response_inv held r → (Z.to_nat (partial_offset r) ≤ length (concat (queue r)))%nat.
Proof.
  intros I. pose proof (ri_partial _ _ I) as H1. destruct (queue r) as [|b q]; cbn [partial_ok concat] in *; [lia|].
  rewrite length_app. destruct H1 as (? & P2 & P3). unfold zlen in *.
  destruct (decide (Z.of_nat (length b) = 0)); [specialize (P2 ltac:(done))|specialize (P3 ltac:(done))]; lia.
Qed.


(** What has been queued is the end of what has been sent and will be. *)
Definition whole (held : bool) (r : CockpitWebResponse) : Prop :=
  response_inv held r ∧ ∃ before, sent r = before ++ take (Z.to_nat (partial_offset r)) (concat (queue r)).

Lemma whole_bound held r : whole held r → out_queued r ≤ zlen (stream r).
Proof.
  intros [I [before Eb]]. rewrite (ri_queued _ _ I). assert (E : total (queue r) = zlen (concat (queue r))).
  { clear I Eb. induction (queue r) as [|b q IH]; [done|]. rewrite blocks_total_cons, IH. cbn [concat]. by rewrite zlen_app. }
  rewrite E. unfold stream. rewrite Eb, <- app_assoc, take_drop, zlen_app. pose proof (zlen_nonneg before). lia.
Qed.

Lemma pushed_stream held r block : whole held r →
  stream (pushed r block) = stream r ++ block ∧ ∃ before,
    sent (pushed r block) = before ++ take (Z.to_nat (partial_offset (pushed r block))) (concat (queue (pushed r block))).
Proof.
  intros [I [before Eb]]. pose proof (partial_le held r I) as Hle.
  assert (E : sent (pushed r block) = sent r ∧ partial_offset (pushed r block) = partial_offset r ∧
              queue (pushed r block) = queue r ++ [block]).
  { unfold pushed. by match goal with |- context [if ?b then emit _ _ else _] => destruct b end. }
  destruct E as (E1 & E2 & E3). unfold stream. rewrite E1, E2, E3, concat_app. cbn [concat]. rewrite app_nil_r. split.
  - by rewrite drop_app_le, app_assoc.
  - exists before. by rewrite take_app_le.
Qed.

Lemma wrote_stream held r block rest n : whole held r → queue r = block :: rest →
  0 ≤ n ≤ zlen block - partial_offset r →
  stream (wrote r block rest n) = stream r ∧ ∃ before,
    sent (wrote r block rest n) =
      before ++ take (Z.to_nat (partial_offset (wrote r block rest n))) (concat (queue (wrote r block rest n))).
Proof.
  intros [I [before Eb]] Eq Hn. destruct (partial_data held r block rest I Eq) as (Hp & Hd & _ & _).
  set (data := drop (Z.to_nat (partial_offset r)) block) in *.
  assert (E : sent (wrote r block rest n) = sent r ++ take (Z.to_nat n) data ∧
    (n = zlen data ∧ partial_offset (wrote r block rest n) = 0 ∧ queue (wrote r block rest n) = rest ∨
     n ≠ zlen data ∧ partial_offset (wrote r block rest n) = partial_offset r + n ∧
     queue (wrote r block rest n) = block :: rest)).
  { unfold wrote. fold data. destruct (Z.eqb_spec n (zlen data));
      match goal with |- context [if ?b then emit _ _ else _] => destruct b end; (split; [done|]); auto. }
  assert (Hdata : block = take (Z.to_nat (partial_offset r)) block ++ data) by (unfold data; by rewrite take_drop).
  assert (Hsp : (Z.to_nat (partial_offset r) ≤ length block)%nat) by (unfold zlen in *; lia).
  destruct E as [E1 [(-> & E2 & E3)|(Hne & E2 & E3)]]; unfold stream; rewrite E1, E2, E3, Eq; cbn [concat].
  - unfold zlen. rewrite Nat2Z.id, take_ge, drop_0 by done. rewrite (drop_app_le block) by done. fold data. split.
    + by rewrite <- app_assoc.
    + exists (sent r ++ data). cbn. by rewrite app_nil_r.
  - replace (Z.to_nat (partial_offset r + n)) with (Z.to_nat (partial_offset r) + Z.to_nat n)%nat by lia.
    rewrite <- drop_drop, !(drop_app_le block) by done. fold data.
    rewrite (drop_app_le data) by (unfold zlen in *; lia). split.
    + by rewrite <- app_assoc, (app_assoc (take _ data)), take_drop.
    + exists before. rewrite Eb, Eq. cbn [concat]. rewrite !take_app_le by (unfold zlen in *; lia).
      rewrite <- app_assoc. f_equal. rewrite Hdata at 2.
      rewrite take_app_ge by (rewrite length_take_le by lia; lia).
      rewrite length_take_le by lia. do 2 f_equal. lia.
Qed.

(** What operations on the queue leave alone. *)
Definition frame (r : CockpitWebResponse) :=
  (method r, keep_alive r, chunked r, filters r, out_queueable r, full_path r, cache_type r).

Lemma pushed_frame r block : frame (pushed r block) = frame r.
Proof. unfold pushed. by match goal with |- context [if ?b then emit _ _ else _] => destruct b end. Qed.

Lemma wrote_frame r block rest n : frame (wrote r block rest n) = frame r.
Proof.
  unfold wrote. destruct (n =? _);
    by match goal with |- context [if ?b then emit _ _ else _] => destruct b end.
Qed.

Definition good (r : CockpitWebResponse) : Prop := open_ r ∧ whole true r.

Lemma queue_bytes_good r block : good r → zlen (stream r ++ block) < G_MAXSIZE →
  ∃ r', queue_bytes r block = Ok r' ∧ good r' ∧ stream r' = stream r ++ block ∧ frame r' = frame r ∧ count r' = u32 (count r + 1).
Proof.
  intros [Ho Hw] Hfit. destruct (open_idle r Ho) as (_ & Hout & Href & _).
  pose proof (whole_bound _ _ Hw) as Hb. rewrite zlen_app in Hfit.
  destruct (queue_bytes_eq r block Href (or_introl Hout)) as [[-> _]|[_ Hn]]; [|unfold fits in Hn; lia].
  destruct (pushed_stream _ _ block Hw) as [Es Hb']. pose proof (pushed_open r block Ho) as Ho'.
  exists (pushed r block). split_and!; [done|split; [done|split; [apply Ho'|done]]|done|apply pushed_frame|].
  unfold pushed. by match goal with |- context [if ?b then emit _ _ else _] => destruct b end.
Qed.

(** How a block is sent. *)
Definition encode (chunked : bool) (block : list Z) : list Z :=
  if zlen block =? 0 then []
  else if chunked then render_hex (zlen block) ++ crlf ++ block ++ crlf else block.

Lemma queueable_good v r : good r → good (set_out_queueable v r).
Proof. intros [Ho [I Hw]]. split; [by apply queueable_open|]. split; [by apply queueable_open|done]. Qed.

Lemma filters_good v r : good r → good (set_filters v r).
Proof. intros [Ho [I Hw]]. split; [by apply filters_open|]. split; [by apply filters_open|done]. Qed.

Lemma chunked_good v r : good r → good (set_chunked v r).
Proof. intros [Ho [I Hw]]. split; [by apply chunked_open|]. split; [by apply chunked_open|done]. Qed.

Lemma queue_block_good r block : good r → zlen block ≤ out_queueable r →
  zlen (stream r ++ encode (chunked r) block) < G_MAXSIZE →
  ∃ r', queue_block r block = Ok r' ∧ good r' ∧ stream r' = stream r ++ encode (chunked r) block ∧
    frame r' = frame (set_out_queueable (out_queueable r - zlen block) r).
Proof.
  intros Hg Hq Hfit. unfold queue_block, encode in *. destruct (Z.eqb_spec (zlen block) 0) as [Hz|Hz].
  { exists r. split_and!; [done..|by rewrite app_nil_r|]. rewrite Hz, Z.sub_0_r. by destruct r. }
  rewrite (proj2 (Z.ltb_ge _ _)) by done. set (r1 := set_out_queueable _ r).
  assert (Hg1 : good r1) by by apply queueable_good. change (chunked r1) with (chunked r).
  assert (Es1 : stream r1 = stream r) by done. destruct (chunked r); cbn [negb].
  - rewrite !zlen_app in Hfit. pose proof (zlen_nonneg crlf). pose proof (zlen_nonneg block).
    destruct (queue_bytes_good r1 (render_hex (zlen block) ++ crlf) Hg1) as (r2 & -> & Hg2 & Es2 & Ef2 & _).
    { rewrite !zlen_app, Es1. lia. }
    cbn [mbind comp_bind]. destruct (queue_bytes_good r2 block Hg2) as (r3 & -> & Hg3 & Es3 & Ef3 & _).
    { rewrite Es2, !zlen_app, Es1. lia. }
    cbn [mbind comp_bind]. destruct (queue_bytes_good r3 crlf Hg3) as (r4 & -> & Hg4 & Es4 & Ef4 & _).
    { rewrite Es3, Es2, !zlen_app, Es1. lia. }
    exists r4. split_and!; [done..| |congruence]. rewrite Es4, Es3, Es2, Es1. by rewrite <- !app_assoc.
  - destruct (queue_bytes_good r1 block Hg1) as (r2 & -> & Hg2 & Es2 & Ef2 & _); [done|]. by exists r2.
Qed.

Lemma frame_inv r r' : frame r' = frame r →
  method r' = method r ∧ keep_alive r' = keep_alive r ∧ chunked r' = chunked r ∧ filters r' = filters r ∧
  out_queueable r' = out_queueable r ∧ full_path r' = full_path r ∧ cache_type r' = cache_type r.
Proof. unfold frame. intros [= -> -> -> -> -> -> ->]. done. Qed.

Lemma queue_blocks_good blocks r : good r → total blocks ≤ out_queueable r →
  zlen (stream r ++ (blocks ≫= encode (chunked r))) < G_MAXSIZE →
  ∃ r', queue_blocks r blocks = Ok r' ∧ good r' ∧ stream r' = stream r ++ (blocks ≫= encode (chunked r)) ∧
    frame r' = frame (set_out_queueable (out_queueable r - total blocks) r).
Proof.
  revert r. induction blocks as [|b blocks IH]; intros r Hg Hq Hfit.
  { exists r. split_and!; [done..| |]; [cbn; by rewrite app_nil_r|]. change (total []) with 0. rewrite Z.sub_0_r. by destruct r. }
  cbn [queue_blocks mbind list_bind] in *. rewrite blocks_total_cons in *. pose proof (total_nonneg blocks).
  pose proof (zlen_nonneg b). rewrite !app_assoc in *.
  destruct (queue_block_good r b Hg) as (r1 & -> & Hg1 & Es1 & Ef1); [lia| |].
  { rewrite zlen_app in Hfit. pose proof (zlen_nonneg (mbind (encode (chunked r)) blocks)). lia. }
  cbn [mbind comp_bind]. apply frame_inv in Ef1 as (E1 & E2 & E3 & E4 & E5 & E6 & E7). cbn in *.
  destruct (IH r1 Hg1) as (r2 & E & Hg2 & Es2 & Ef2); [lia|by rewrite Es1, E3|].
  exists r2. rewrite E. split_and!; [done..|by rewrite Es2, Es1, E3|].
  rewrite Ef2. unfold frame. cbn. rewrite E1, E2, E3, E4, E5, E6, E7. do 3 f_equal. lia.
Qed.

(** ** The filters in turn *)

Lemma push_blocks_two (f : F) a b :
  push_blocks f (a ++ b) =
  ((push_blocks f a).1 ++ (push_blocks (push_blocks f a).2 b).1, (push_blocks (push_blocks f a).2 b).2).
Proof.
  induction b as [|x b IH] using rev_ind; [rewrite !app_nil_r; by destruct (push_blocks f a)|].
  assert (S1 : ∀ g l, push_blocks g (l ++ [x]) =
    let '(out, g') := cockpit_web_filter_push (push_blocks g l).2 x in ((push_blocks g l).1 ++ out, g')).
  { intros g l. unfold push_blocks. by rewrite foldl_app. }
  rewrite app_assoc, !S1, IH. cbn [fst snd]. destruct (cockpit_web_filter_push _ x) as [o g]. cbn. by rewrite app_assoc.
Qed.

Lemma queue_filter_two fs a b :
  queue_filter fs (a ++ b) =
  ((queue_filter fs a).1 ++ (queue_filter (queue_filter fs a).2 b).1, (queue_filter (queue_filter fs a).2 b).2).
Proof.
  revert a b. induction fs as [|f fs IH]; intros a b; [done|]. cbn [queue_filter].
  rewrite push_blocks_two. destruct (push_blocks f a) as [oa fa] eqn:Ea. cbn [fst snd].
  destruct (push_blocks fa b) as [ob fb] eqn:Eb. cbn [fst snd]. rewrite IH.
  destruct (queue_filter fs oa) as [o1 fs1] eqn:E1. cbn [fst snd queue_filter]. rewrite Eb.
  by destruct (queue_filter fs1 ob).
Qed.

(** ** A response that is sent in pieces

    Its holder gives the headers, blocks, and completes it; the main loop writes in between. *)

Definition is_api (e : event) : bool :=
  match e with Output _ | Flushed _ | Unref => false | _ => true end.

Definition trailer (chunked : bool) : list Z := if chunked then bs "0" ++ crlf ++ crlf else [].

Lemma complete_good r : good r → zlen (stream r ++ trailer (chunked r)) < G_MAXSIZE →
  ∃ r', cockpit_web_response_complete r = Ok r' ∧ whole true r' ∧ complete r' = true ∧ done r' = false ∧
    stream r' = stream r ++ trailer (chunked r).
Proof.
  intros [Ho Hw] Hfit. pose proof (complete_inv r (proj1 Ho)) as (r' & E & I').
  exists r'. split; [done|]. revert E. unfold cockpit_web_response_complete, alive.
  destruct (open_idle r Ho) as (Hfl & Hout & Href & Hfa). destruct Ho as (I & Hc & Hd).
  rewrite (proj2 (Z.ltb_lt 0 (references r))), Hc, Hfa by done. cbn [cassert mbind comp_bind].
  set (r1 := set_complete (set_references (references r + 1) r)). change (chunked r1) with (chunked r).
  assert (Hend : ∀ r2, (if source r2 then Ok r2 else flush_async r2) = Ok r' →
    complete r' = complete r2 ∧ done r' = done r2 ∧ stream r' = stream r2 ∧ sent r' = sent r2 ∧
    partial_offset r' = partial_offset r2 ∧ queue r' = queue r2).
  { intros r2. unfold flush_async. destruct (source r2); [by intros [= ->]|]. by destruct (out r2); [intros [= <-]|]. }
  destruct Hw as [_ [before Eb]]. destruct (chunked r) eqn:Ech; cbn [trailer] in *.
  - assert (Hr1 : queue_bytes r1 (bs "0" ++ crlf ++ crlf) = Ok (pushed r1 (bs "0" ++ crlf ++ crlf))).
    { destruct (queue_bytes_eq r1 (bs "0" ++ crlf ++ crlf)) as [[E _]|[_ Hn]]; [cbn; lia|by left|done|].
      exfalso. apply Hn. unfold fits. change (out_queued r1) with (out_queued r).
      pose proof (whole_bound true r (conj I (ex_intro _ before Eb))) as Hb. rewrite zlen_app in Hfit. lia. }
    rewrite Hr1. cbn [mbind comp_bind]. intros E%Hend. destruct E as (E1 & E2 & E3 & E4 & E5 & E6).
    assert (Hp : ∀ r, complete (pushed r (bs "0" ++ crlf ++ crlf)) = complete r ∧
                      done (pushed r (bs "0" ++ crlf ++ crlf)) = done r ∧
                      sent (pushed r (bs "0" ++ crlf ++ crlf)) = sent r ∧
                      partial_offset (pushed r (bs "0" ++ crlf ++ crlf)) = partial_offset r ∧
                      queue (pushed r (bs "0" ++ crlf ++ crlf)) = queue r ++ [bs "0" ++ crlf ++ crlf]).
    { intros x. unfold pushed. by match goal with |- context [if ?b then emit _ _ else _] => destruct b end. }
    destruct (Hp r1) as (P1 & P2 & P3 & P4 & P5). pose proof (partial_le true r I) as Hle.
    split_and!; [split; [done|]|by rewrite E1, P1|by rewrite E2, P2|].
    + exists before. rewrite E4, E5, E6, P3, P4, P5, concat_app. cbn [concat]. rewrite app_nil_r.
      change (partial_offset r1) with (partial_offset r). change (queue r1) with (queue r). by rewrite take_app_le.
    + rewrite E3. unfold stream. rewrite P3, P4, P5, concat_app. cbn [concat]. rewrite app_nil_r.
      change (partial_offset r1) with (partial_offset r). change (queue r1) with (queue r). change (sent r1) with (sent r).
      by rewrite drop_app_le, app_assoc.
  - cbn [mbind comp_bind]. intros E%Hend. destruct E as (E1 & E2 & E3 & E4 & E5 & E6). rewrite E1, E2, E3, app_nil_r.
    split_and!; [split; [done|]|done|done|done]. exists before. by rewrite E4, E5, E6.
Qed.

Section Runs.
Context (g_uri_escape_string : list Z → list Z) (fail_html : list Z) (fail_html_text : nul_free fail_html).

Notation handle := (handle g_uri_escape_string fail_html).
Notation run := (run g_uri_escape_string fail_html).

(** A response of which the end will not be sent. *)
Definition dead (held : bool) (r : CockpitWebResponse) : Prop :=
  response_inv held r ∧ done r = true ∧ (failed r = true ∨ complete r = false ∧ held = false).

(** Nothing is added to a response that has failed. *)
Lemma queue_failed r block : alive r = Ok tt → failed r = true → cockpit_web_response_queue r block = Ok (false, r).
Proof. intros Ha Hf. unfold cockpit_web_response_queue. rewrite Ha, Hf. by destruct (complete r). Qed.

Lemma complete_failed r : alive r = Ok tt → failed r = true → cockpit_web_response_complete r = Ok r.
Proof. intros Ha Hf. unfold cockpit_web_response_complete. rewrite Ha, Hf. by destruct (complete r). Qed.

Lemma content_failed r hs l : response_inv true r → alive r = Ok tt → failed r = true → count r >? 0 = true →
  cockpit_web_response_content r hs l = Ok r.
Proof.
  intros I Ha Hf Hc. unfold cockpit_web_response_content. rewrite headers_begun by done. cbn [mbind comp_bind].
  destruct l; cbn [content_loop]; [by apply complete_failed|by rewrite queue_failed].
Qed.

Lemma error_failed r code reason hs body : response_inv true r → alive r = Ok tt → failed r = true → count r >? 0 = true →
  cockpit_web_response_error_with_body g_uri_escape_string fail_html r code reason hs body = Ok r.
Proof.
  intros I Ha Hf Hc. unfold cockpit_web_response_error_with_body. rewrite headers_begun by done. cbn [mbind comp_bind].
  destruct (bool_decide _); [by apply complete_failed|]. destruct body as [body|]; [rewrite queue_failed by done; by apply complete_failed|].
  destruct (template_safe (bs "@@") (bs "@@")
    (substitute_message (match reason with Some reason => g_uri_escape_string reason | None => status_message code end))
    fail_html [] fail_html_text) as [output ->]. cbn [mbind comp_bind].
  destruct output as [|b output]; cbn [error_loop]; [|by rewrite queue_failed]. by apply complete_failed.
Qed.

Lemma dead_stays held r e held' r' : dead held r → enabled held r e = true → handle held r e = Ok (held', r') → dead held' r'.
Proof.
  intros (I & Hd & Hf) He E.
  destruct (enabled_handled g_uri_escape_string fail_html fail_html_text held r e I He) as (h2 & r2 & E2 & I2). rewrite E in E2. injection E2 as <- <-.
  split; [done|]. assert (Hsrc : source r = false ∧ flushing r = false).
  { split; [destruct (source r) eqn:Es; [|done]; destruct (ri_source _ _ I Es); congruence|].
    destruct (flushing r) eqn:Es; [|done]. destruct (ri_flushing _ _ I Es) as (_ & ? & _). congruence. }
  destruct Hsrc as [Hs Hfl].
  assert (Hfh : held = true → failed r = true) by (intros ->; destruct Hf as [?|[_ ?]]; done).
  assert (Hal : held = true → alive r = Ok tt).
  { intros ->. unfold alive. by rewrite (proj2 (Z.ltb_lt 0 (references r))) by by apply held_alive. }
  assert (Hbegun : held && ((count r >? 0) || negb (complete r) && negb (failed r)) = true → held = true ∧ count r >? 0 = true).
  { intros [-> [?|H]%orb_true_iff]%andb_true_iff; [done|]. rewrite (Hfh eq_refl), andb_false_r in H. done. }
  destruct e as [st reason len hs|block| | |hs blocks|code reason hs body|f| |cache| |result|success];
    cbn [handle enabled] in *; try (subst held; specialize (Hfh eq_refl); specialize (Hal eq_refl)).
  - destruct (Hbegun He) as [-> Hc]. rewrite headers_begun in E by auto. injection E as <- <-. auto.
  - revert E. unfold cockpit_web_response_queue. rewrite Hal, Hfh. cbn [mbind comp_bind].
    destruct (complete r); cbn; intros [= <- <-]; auto.
  - revert E. unfold cockpit_web_response_complete. rewrite Hal, Hfh. cbn [mbind comp_bind].
    destruct (complete r); cbn; intros [= <- <-]; auto.
  - revert E. unfold cockpit_web_response_abort. rewrite Hal, Hfh. cbn [mbind comp_bind].
    destruct (complete r); cbn; intros [= <- <-]; auto.
  - destruct (Hbegun He) as [-> Hc]. rewrite content_failed in E by auto. injection E as <- <-. auto.
  - destruct (Hbegun He) as [-> Hc]. rewrite error_failed in E by auto. injection E as <- <-. auto.
  - injection E as <- <-. unfold cockpit_web_response_add_filter. destruct (count r =? 0); auto.
  - injection E as <- <-. unfold response_next_path. repeat case_match; auto.
  - injection E as <- <-. auto.
  - revert E. unfold g_object_unref. rewrite Hal. cbn [mbind comp_bind].
    destruct (references r =? 1); rewrite ?Hd; cbn; intros [= <- <-]; cbn; auto.
  - rewrite Hs in He. done.
  - congruence.
Qed.

(** The main loop moves bytes, or ends the response. *)
Lemma loop_step held r e held' r' : whole held r → failed r = false → is_api e = false → enabled held r e = true →
  handle held r e = Ok (held', r') →
  dead held' r' ∨
  whole held' r' ∧ stream r' = stream r ∧ complete r' = complete r ∧ failed r' = false ∧
  (complete r = false → held = true → held' = true ∧ frame r' = frame r).
Proof.
  intros [I [before Eb]] Hfa Ha He E.
  destruct (enabled_handled g_uri_escape_string fail_html fail_html_text held r e I He) as (h2 & r2 & E2 & I2). rewrite E in E2. injection E2 as <- <-.
  destruct e as [| | | | | | | | | |result|success]; try done; cbn [handle enabled] in *.
  - subst held. destruct (complete r) eqn:Ec.
    + right. revert E. unfold g_object_unref, alive. rewrite (proj2 (Z.ltb_lt 0 (references r))) by by apply held_alive.
      cbn [cassert mbind comp_bind]. destruct (Z.eqb_spec (references r) 1) as [H1|H1].
      * assert (Hd : done r = true).
        { pose proof (ri_references _ _ I) as H2. rewrite H1, Ec in H2. destruct (done r); [done|].
          destruct (flushing r); cbn in H2; lia. }
        rewrite Hd. cbn [mbind comp_bind]. intros [= <- <-]. split_and!; try done. split; [done|]. by exists before.
      * cbn. intros [= <- <-]. split_and!; try done. split; [done|]. by exists before.
    + left. assert (Hc : complete r' = false ∧ held' = false).
      { revert E. unfold g_object_unref, cockpit_web_response_done, alive.
        destruct (0 <? references r); [|done]. cbn [cassert mbind comp_bind].
        destruct (references r =? 1); [|by intros [= <- <-]].
        destruct (done r); cbn; [by intros [= <- <-]|]. rewrite Ec. by intros [= <- <-]. }
      destruct Hc as [Hc ->]. split; [done|]. split; [by apply (ri_released _ _ I2)|by right].
  - apply andb_prop in He as [Hs Hp]. destruct (ri_source _ _ I Hs) as [Hd Hfl].
    assert (Hr : 0 < references r).
    { rewrite (ri_references _ _ I), Hd, Hfl. destruct held; cbn; [destruct (complete r); cbn; lia|].
      destruct (complete r) eqn:Ec; [cbn; lia|]. pose proof (ri_released _ _ I eq_refl Ec). congruence. }
    destruct (queue r) as [|block rest] eqn:Eq; rewrite <- Eq in Eb.
    + right. revert E. unfold on_response_output, alive. rewrite (proj2 (Z.ltb_lt 0 (references r))), Eq by done.
      cbn [cassert mbind comp_bind]. unfold flush_async. change (complete (set_source false r)) with (complete r).
      destruct (complete r) eqn:Ec.
      * destruct (out (set_source false r)); [|done]. cbn. intros [= <- <-]. split_and!; try done.
        split; [done|]. by exists before.
      * intros [= <- <-]. split_and!; try done. split; [done|]. by exists before.
    + rewrite (output_eq held r block rest result I Hs Eq Hr Hp) in E.
      destruct (outcome r block result) as [n| |] eqn:En.
      * injection E as <- <-. right.
        assert (Hn : 0 ≤ n ≤ zlen block - partial_offset r).
        { unfold outcome in En. destruct (Z.gtb_spec (zlen block - partial_offset r) 0) as [H1|H1].
          - subst result. cbn in Hp. rewrite Eq in Hp. to_prop. lia.
          - injection En as <-. destruct (partial_data held r block rest I Eq) as (Hpp & Hd' & _).
            pose proof (zlen_nonneg (drop (Z.to_nat (partial_offset r)) block)). lia. }
        destruct (wrote_stream held r block rest n) as [Es Hw]; [split; [done|by exists before]|done..|].
        assert (Ew : complete (wrote r block rest n) = complete r ∧ failed (wrote r block rest n) = failed r).
        { unfold wrote. destruct (n =? _); by match goal with |- context [if ?b then emit _ _ else _] => destruct b end. }
        destruct Ew as [Ew1 Ew2]. split_and!; [split; done|done|done|by rewrite Ew2|].
        intros _ ->. split; [done|apply wrote_frame].
      * injection E as <- <-. right. split_and!; try done. split; [done|]. by exists before.
      * left. revert E. rewrite done_eq by done. cbn [mbind comp_bind]. intros [= <- <-]. split_and!; [done|done|by left].
  - destruct (ri_flushing _ _ I He) as (Hc & Hd & Hq).
    assert (Hf : done r' = true ∧ complete r' = true ∧ failed r' = negb success ∧ sent r' = sent r ∧
                 queue r' = [] ∧ held' = held ∧ partial_offset r' = partial_offset r).
    { revert E. unfold on_output_flushed, g_object_unref, cockpit_web_response_done, alive.
      repeat match goal with |- context [cassert ?b] => destruct b; cbn [cassert mbind comp_bind]; [|done] end.
      destruct success; cbn; rewrite ?Hc, ?Hd, ?Hfa, ?Hq; cbn;
        repeat match goal with |- context [cassert ?b] => destruct b; cbn [cassert mbind comp_bind]; [|done] end;
        repeat match goal with |- context [if ?b then _ else _] => destruct b; cbn [mbind comp_bind] end;
        intros [= <- <-]; cbn; by rewrite ?Hc, ?Hfa, ?Hq. }
    destruct Hf as (F1 & F2 & F3 & F4 & F5 & -> & F7). destruct success; [right|left; split_and!; [done|done|by left]].
    split_and!; [|unfold stream; by rewrite F4, F5, F7, Hq|by rewrite Hc|done|congruence].
    split; [done|]. exists before. by rewrite F4, F5, F7, Eb, Hq.
Qed.

Lemma queue_good r block : good r → method r ≠ bs "HEAD" →
  let '(outs, fs) := queue_filter (filters r) [block] in
  total outs ≤ out_queueable r → zlen (stream r ++ (outs ≫= encode (chunked r))) < G_MAXSIZE →
  ∃ r', cockpit_web_response_queue r block = Ok (true, r') ∧ good r' ∧
    stream r' = stream r ++ (outs ≫= encode (chunked r)) ∧
    frame r' = frame (set_out_queueable (out_queueable r - total outs) (set_filters fs r)).
Proof.
  intros Hg Hm. destruct (queue_filter (filters r) [block]) as [outs fs] eqn:Ef. intros Hq Hfit.
  destruct (open_idle r (proj1 Hg)) as (_ & _ & Href & Hfa). destruct (proj1 Hg) as (_ & Hc & _).
  unfold cockpit_web_response_queue, alive. rewrite (proj2 (Z.ltb_lt 0 (references r))), Hc, Hfa by done.
  cbn [cassert mbind comp_bind]. rewrite bool_decide_eq_false_2, Ef by done.
  destruct (queue_blocks_good outs (set_filters fs r) (filters_good fs r Hg) Hq Hfit) as (r' & -> & Hg' & Es & Efr).
  by exists r'.
Qed.

Section Pieces.
Context (r0 : CockpitWebResponse) (status : Z) (reason : list Z) (len : Z)
  (hs : list (list Z * option (list Z))) (blocks : list (list Z)).
Context (r0_good : good r0) (r0_empty : stream r0 = []) (r0_first : count r0 = 0) (r0_source : source r0 = false) (r0_method : method r0 ≠ bs "HEAD")
  (r0_queueable : out_queueable r0 = G_MAXSIZE).

(** The response after its headers, and their bytes. *)
Definition begun : CockpitWebResponse * list Z :=
  let '(string, seen) := append_table (begin_headers status reason) hs in finish_headers r0 string len status seen.

Notation head := begun.2.
Notation chunk := (chunked begun.1).
Notation outs l := (queue_filter (filters r0) l).1.

(** What is sent in the end. *)
Definition message : list Z := head ++ (outs blocks ≫= encode chunk) ++ trailer chunk.

Context (status_304 : status ≠ 304) (message_fits : zlen message < G_MAXSIZE)
  (length_right : chunk = false → total (outs blocks) ≤ len).

Definition script : list event := Headers status reason len hs :: (Queue <$> blocks) ++ [Complete].

Definition live (l : list (list Z)) (r : CockpitWebResponse) : Prop :=
  good r ∧ stream r = head ++ (outs l ≫= encode chunk) ∧ method r = method r0 ∧ chunked r = chunk ∧
  filters r = (queue_filter (filters r0) l).2 ∧
  out_queueable r = (if chunk then G_MAXSIZE else len) - total (outs l).

(** How far a response is, when a part of the calls has been made. *)
Inductive phase : list event → bool → CockpitWebResponse → Prop :=
| phase_dead pre held r : dead held r → phase pre held r
| phase_start : phase [] true r0
| phase_live l r : live l r → phase (Headers status reason len hs :: (Queue <$> l)) true r
| phase_complete held r : whole held r → complete r = true → failed r = false → stream r = message →
    phase script held r.

Lemma begun_facts : good begun.1 ∧ stream begun.1 = [] ∧ method begun.1 = method r0 ∧ filters begun.1 = filters r0 ∧
  count begun.1 = 0 ∧ out_queueable begun.1 = if chunk then G_MAXSIZE else len.
Proof.
  unfold begun. destruct (append_table _ _) as [string seen]. unfold finish_headers.
  rewrite (proj2 (Z.eqb_neq status 304)) by done. cbn [negb].
  destruct ((len <? 0) || _ || _); cbn [fst].
  - split_and!; try done. by apply chunked_good.
  - split_and!; try done. by apply queueable_good, chunked_good.
Qed.

Lemma headers_live r' : cockpit_web_response_headers_full r0 status reason len hs = Ok r' → live [] r'.
Proof.
  unfold cockpit_web_response_headers_full, alive. destruct (open_idle r0 (proj1 r0_good)) as (_ & _ & Href & _).
  rewrite (proj2 (Z.ltb_lt 0 (references r0))), r0_first by done. cbn [cassert mbind comp_bind Z.gtb Z.compare].
  destruct begun_facts as (Hg & Es & Em & Ef & _ & Eq). pose proof message_fits as Hfit. unfold message in Hfit.
  unfold live. unfold begun in *. destruct (append_table _ _) as [string seen].
  destruct (finish_headers r0 string len status seen) as [r1 block]. cbn [fst snd] in *.
  destruct (queue_bytes_good r1 block Hg) as (r2 & E & Hg2 & Es2 & Ef2 & _).
  { rewrite Es. rewrite !zlen_app in *. cbn [app]. pose proof (zlen_nonneg (mbind (encode (chunked r1)) (outs blocks))).
    pose proof (zlen_nonneg (trailer (chunked r1))). change (zlen (@nil Z)) with 0. lia. }
  rewrite E. intros [= <-]. apply frame_inv in Ef2 as (E1 & E2 & E3 & E4 & E5 & E6 & E7).
  assert (Hnil : queue_filter (filters r0) [] = ([], filters r0)).
  { generalize (filters r0). intros l. induction l as [|f l IH]; [done|]. cbn. by rewrite IH. }
  rewrite Hnil. cbn [fst snd mbind list_bind]. rewrite app_nil_r. change (total []) with 0.
  split_and!; [done|by rewrite Es2, Es|congruence|done|congruence|rewrite E5, Eq; lia].
Qed.

Lemma outs_prefix l b : (l ++ [b]) `prefix_of` blocks → ∃ more,
  outs blocks = outs l ++ (queue_filter (queue_filter (filters r0) l).2 [b]).1 ++ more.
Proof.
  intros [k ->]. rewrite !queue_filter_two. cbn [fst snd]. eexists. by rewrite <- app_assoc.
Qed.

Lemma bind_zlen_app c (a b : list (list Z)) : zlen ((a ++ b) ≫= encode c) = zlen (a ≫= encode c) + zlen (b ≫= encode c).
Proof. by rewrite bind_app, zlen_app. Qed.

Lemma total_encoded c l : total l ≤ zlen (l ≫= encode c).
Proof.
  induction l as [|b l IH]; [done|]. rewrite blocks_total_cons. cbn [mbind list_bind]. rewrite zlen_app.
  assert (zlen b ≤ zlen (encode c b)).
  { unfold encode. destruct (Z.eqb_spec (zlen b) 0) as [->|]; [done|]. destruct c; [|done].
    rewrite !zlen_app. pose proof (zlen_nonneg (render_hex (zlen b))). pose proof (zlen_nonneg crlf). lia. }
  lia.
Qed.

Lemma queue_live l b r r' more : (l ++ [b]) `prefix_of` blocks → live l r →
  cockpit_web_response_queue r b = Ok (more, r') → live (l ++ [b]) r'.
Proof.
  intros Hpre (Hg & Es & Em & Ec & Ef & Eq) E. pose proof (queue_good r b Hg) as Hqg.
  rewrite Ef in Hqg. destruct (outs_prefix l b Hpre) as [k Ek].
  unfold live. rewrite !queue_filter_two. cbn [fst snd].
  destruct (queue_filter (queue_filter (filters r0) l).2 [b]) as [o fs]. cbn [fst snd] in *.
  pose proof message_fits as Hfit. unfold message in Hfit. rewrite Ek, !zlen_app, !bind_zlen_app in Hfit.
  pose proof (zlen_nonneg head). pose proof (zlen_nonneg (mbind (encode chunk) k)). pose proof (zlen_nonneg (trailer chunk)).
  assert (Htot : total (outs l) + total o ≤ if chunk then G_MAXSIZE else len).
  { destruct chunk eqn:Ech.
    - pose proof (total_encoded true (outs l)). pose proof (total_encoded true o). lia.
    - pose proof (length_right eq_refl) as Hl. rewrite Ek, !total_app in Hl. pose proof (total_nonneg k). lia. }
  destruct Hqg as (r2 & E2 & Hg2 & Es2 & Ef2).
  - by rewrite Em.
  - rewrite Eq. lia.
  - rewrite Es, Ec, !zlen_app. lia.
  - rewrite E2 in E. injection E as <- <-. apply frame_inv in Ef2 as (F1 & F2 & F3 & F4 & F5 & F6 & F7). cbn in *.
    split_and!; [done| |congruence|congruence|done|].
    + rewrite Es2, Es, Ec, bind_app. by rewrite <- app_assoc.
    + rewrite F5, Eq, total_app. lia.
Qed.

Lemma complete_live r r' : live blocks r → cockpit_web_response_complete r = Ok r' →
  whole true r' ∧ complete r' = true ∧ failed r' = false ∧ stream r' = message.
Proof.
  intros (Hg & Es & Em & Ec & Ef & Eq) E. destruct (complete_good r Hg) as (r2 & E2 & Hw & Hc & Hd & Es2).
  { rewrite Es, Ec, <- app_assoc. exact message_fits. }
  rewrite E2 in E. injection E as <-. split_and!; [done|done| |].
  - destruct (failed r2) eqn:Ef2; [|done]. pose proof (ri_failed _ _ (proj1 Hw) Ef2). congruence.
  - rewrite Es2, Es, Ec, <- app_assoc. done.
Qed.

Lemma script_next pre e l : pre = Headers status reason len hs :: (Queue <$> l) → (pre ++ [e]) `prefix_of` script →
  (∃ b, e = Queue b ∧ (l ++ [b]) `prefix_of` blocks) ∨ e = Complete ∧ l = blocks.
Proof.
  intros -> [k Ek]. unfold script in Ek. cbn [app] in Ek. injection Ek as Ek. revert Ek.
  generalize blocks as bl. induction l as [|x l IH]; intros bl Ek.
  - destruct bl as [|b bl]; cbn in Ek; [injection Ek as <- _; by right|].
    injection Ek as <- _. left. exists b. split; [done|]. by exists bl.
  - destruct bl as [|b bl]; cbn in Ek; [by destruct l|]. injection Ek as -> Ek.
    destruct (IH bl Ek) as [(c & -> & [m Em])|[-> ->]]; [left|by right].
    exists c. split; [done|]. exists m. cbn. by rewrite Em.
Qed.

Lemma phase_step pre held r e held' r' : phase pre held r → enabled held r e = true →
  handle held r e = Ok (held', r') → (is_api e = true → (pre ++ [e]) `prefix_of` script) →
  phase (if is_api e then pre ++ [e] else pre) held' r'.
Proof.
  intros Hp He E Hpre. destruct Hp as [pre held r Hd| |l r Hl|held r Hw Hc Hf Es].
  - apply phase_dead. by eapply dead_stays.
  - destruct (is_api e) eqn:Ha.
    + destruct (Hpre eq_refl) as [k Ek]. cbn in Ek. injection Ek as <- _.
      cbn [handle] in E. destruct (cockpit_web_response_headers_full _ _ _ _ _) as [r1| |] eqn:Eh; try done.
      injection E as <- <-. apply (phase_live []). by apply headers_live.
    + destruct (loop_step true r0 e held' r' (proj2 r0_good)) as [Hd|(Hw & Es & Hc & Hfa & Hfr)]; try done.
      * by apply open_idle, r0_good.
      * by apply phase_dead.
      * exfalso. destruct (Hfr (proj1 (proj2 (proj1 r0_good))) eq_refl) as [-> _].
        destruct (open_idle r0 (proj1 r0_good)) as (Hfl & _). destruct e; cbn [handle enabled] in *; try done.
        -- by destruct (g_object_unref r0).
        -- by rewrite r0_source in He.
        -- congruence.
  - destruct (is_api e) eqn:Ha.
    + destruct (script_next _ _ l eq_refl (Hpre eq_refl)) as [(b & -> & Hb)|[-> ->]]; cbn [handle] in E.
      * destruct (cockpit_web_response_queue r b) as [[more r1]| |] eqn:Eq; try done. injection E as <- <-.
        replace ((Headers status reason len hs :: (Queue <$> l)) ++ [Queue b])
          with (Headers (F := F) status reason len hs :: (Queue <$> (l ++ [b]))) by by rewrite fmap_app.
        apply phase_live. by eapply queue_live.
      * destruct (cockpit_web_response_complete r) as [r1| |] eqn:Eq; try done. injection E as <- <-.
        destruct (complete_live _ _ Hl Eq) as (Hw & Hc & Hf & Es). by apply phase_complete.
    + assert (Hg : good r) by apply Hl.
      destruct (loop_step true r e held' r' (proj2 Hg)) as [Hd|(Hw & Es & Hc & Hfa & Hfr)]; try done.
      * by apply open_idle, Hg.
      * by apply phase_dead.
      * destruct (proj1 Hg) as (I & Hc0 & Hd0). destruct (Hfr Hc0 eq_refl) as [-> Hframe].
        apply phase_live. destruct Hl as (_ & Es0 & Em & Ec & Ef & Eq).
        apply frame_inv in Hframe as (F1 & F2 & F3 & F4 & F5 & F6 & F7).
        split_and!; try congruence. split; [|done]. split; [apply Hw|]. split; [congruence|].
        destruct (done r') eqn:Ed; [|done]. destruct (ri_finished _ _ (proj1 Hw) Ed) as [?|[?|?]]; congruence.
  - destruct (is_api e) eqn:Ha.
    + destruct (Hpre eq_refl) as [k Ek]. apply (f_equal length) in Ek. rewrite !length_app in Ek. cbn in Ek. lia.
    + destruct (loop_step held r e held' r' Hw) as [Hd|(Hw' & Es' & Hc' & Hfa & _)]; try done.
      * by apply phase_dead.
      * apply phase_complete; congruence.
Qed.

Lemma run_phase es held r : run r0 es held r → filter is_api es `prefix_of` script → phase (filter is_api es) held r.
Proof.
  induction 1 as [|es held r e held' r' _ IH He E]; intros Hpre; [apply phase_start|].
  rewrite filter_app in *. cbn [filter list_filter] in *.
  assert (Hp : phase (filter is_api es) held r).
  { apply IH. etrans; [|exact Hpre]. by eexists. }
  pose proof (phase_step _ _ _ _ _ _ Hp He E) as Hs.
  destruct (decide (is_api e)) as [Ha|Ha].
  - apply Is_true_eq_true in Ha. rewrite Ha in Hs. by apply Hs.
  - apply Is_true_false in Ha. rewrite Ha in Hs. rewrite app_nil_r. by apply Hs.
Qed.

(** When the connection can be used again, all of the message has been sent, and nothing else. *)
Lemma message_sent es held r : run r0 es held r → filter is_api es = script → Done true ∈ signals r → sent r = message.
Proof.
  intros Hrun Ees Hdone. pose proof (run_phase es held r Hrun) as Hp. rewrite Ees in Hp. specialize (Hp ltac:(done)).
  assert (I : response_inv held r).
  { eapply (response_run_inv g_uri_escape_string fail_html fail_html_text r0 es held r); [apply r0_good|exact Hrun]. }
  assert (Hd : done r = true ∧ complete r && negb (failed r) && keep_alive r = true).
  { pose proof (ri_signals _ _ I) as Hs. assert (Hin : Done true ∈ filter (λ s, is_done s = true) (signals r)).
    { by apply list_elem_of_filter. }
    rewrite Hs in Hin. destruct (done r); [|by apply not_elem_of_nil in Hin].
    apply list_elem_of_singleton in Hin. by injection Hin as <-. }
  destruct Hd as [Hd Hc]. to_prop.
  assert (Hq : queue r = []) by by apply (ri_drained _ _ I).
  inversion Hp as [? ? ? Hdd| |l ? Hl E1|? ? Hw _ _ Es]; subst.
  - destruct Hdd as (_ & _ & [?|[? _]]); congruence.
  - destruct Hl as [[(_ & _ & ?) _] _]. congruence.
  - rewrite <- Es. unfold stream. rewrite Hq. cbn [concat]. by rewrite drop_nil, app_nil_r.
Qed.
End Pieces.
End Runs.
End Sent.
