(* ===== verification/WebResponseRead.v ===== *)
(** * What the client reads of a response

    A client that knows HTTP reads a response of [WebResponseSent] with the parsers of
    [web_socket_util_parse_status_line] and [web_socket_util_parse_headers] and then takes the body,
    by its length or in chunks.  It finds the status, the headers and the blocks that were given, and the
    connection stands at what follows the response: neither a header nor a block can be taken for
    something else. *)

From S2P Require Import Prelude WebFilter Http WebResponse WebResponseSent.
#[local] Open Scope Z_scope.

Section Read.
Context {F : Type} {filter_of : WebFilter F}.
Notation CockpitWebResponse := (CockpitWebResponse (F := F)).
Notation event := (event (F := F)).
Implicit Types (r : CockpitWebResponse) (e : event).

(** ** The text of the headers *)

Definition valid_header (h : list Z * option (list Z)) : option (list Z * list Z) :=
  match h.2 with
  | Some value =>
      if cockpit_web_response_is_simple_token h.1 && cockpit_web_response_is_header_value value
      then Some (h.1, value) else None
  | None => None
  end.

Lemma append_table_text string hs :
  (append_table string hs).1 = string ++ header_lines (omap valid_header hs).
Proof.
  revert string. induction hs as [|[name value] hs IH]; intros string; [cbn; by rewrite app_nil_r|].
  cbn [append_table omap list_omap]. destruct (append_header string name value) as [string' seen] eqn:E.
  specialize (IH string'). destruct (append_table string' hs) as [string'' more]. cbn [fst] in *. rewrite IH.
  unfold append_header in E. unfold valid_header. cbn [fst snd]. destruct value as [value|]; [|by injection E as <- _].
  destruct (cockpit_web_response_is_simple_token name); cbn [negb andb] in *; [|by injection E as <- _].
  destruct (cockpit_web_response_is_header_value value); cbn [negb] in *; [|by injection E as <- _].
  injection E as <- _. by rewrite header_lines_cons, <- app_assoc.
Qed.

Definition optional (b : bool) (name value : string) : headers := if b then [(bs name, bs value)] else [].

(** The header that says where the body ends. *)
Definition body_header (r : CockpitWebResponse) (len seen : Z) : list Z * list Z :=
  if (len <? 0) || has_header seen HEADER_CONTENT_ENCODING || bool_decide (filters r ≠ [])
  then (bs "Transfer-Encoding", bs "chunked") else (bs "Content-Length", render_gssize len).

Definition type_header (r : CockpitWebResponse) (status seen : Z) : headers :=
  if negb (has_header seen HEADER_CONTENT_TYPE) && success_status status then
    match p ← full_path r; cockpit_web_response_content_type p with
    | Some content_type => [(bs "Content-Type", content_type)]
    | None => []
    end
  else [].

Definition cache_headers (r : CockpitWebResponse) (status seen : Z) : headers :=
  (if negb (has_header seen HEADER_CACHE_CONTROL) && success_status status then
     match cache_type r with
     | COCKPIT_WEB_RESPONSE_NO_CACHE => [(bs "Cache-Control", bs "no-cache, no-store")]
     | COCKPIT_WEB_RESPONSE_CACHE => [(bs "Cache-Control", bs "max-age=86400, private")]
     | COCKPIT_WEB_RESPONSE_CACHE_UNSET => []
     end
   else []) ++
  (if negb (has_header seen HEADER_VARY) && success_status status then
     match cache_type r with COCKPIT_WEB_RESPONSE_CACHE => [(bs "Vary", bs "Cookie")] | _ => [] end
   else []).

Definition last_headers (r : CockpitWebResponse) (seen : Z) : headers :=
  optional (negb (keep_alive r)) "Connection" "close" ++
  optional (negb (has_header seen HEADER_DNS_PREFETCH_CONTROL)) "X-DNS-Prefetch-Control" "off" ++
  optional (negb (has_header seen HEADER_REFERRER_POLICY)) "Referrer-Policy" "no-referrer" ++
  optional (negb (has_header seen HEADER_CONTENT_TYPE_OPTIONS)) "X-Content-Type-Options" "nosniff" ++
  optional (negb (has_header seen HEADER_CROSS_ORIGIN_RESOURCE_POLICY)) "Cross-Origin-Resource-Policy" "same-origin" ++
  optional (negb (has_header seen HEADER_X_FRAME_OPTIONS)) "X-Frame-Options" "sameorigin".

(** What [finish_headers] adds. *)
Definition automatic_headers (r : CockpitWebResponse) (len status seen : Z) : headers :=
  type_header r status seen ++ [body_header r len seen] ++ cache_headers r status seen ++ last_headers r seen.

Lemma optional_line (b : bool) (s : list Z) (name value : string) : (if b then s ++ header_line (bs name, bs value) else s) =
  s ++ header_lines (optional b name value).
Proof. destruct b; cbn; by rewrite app_nil_r. Qed.

Lemma header_lines_two a b : header_lines (a ++ b) = header_lines a ++ header_lines b.
Proof. apply bind_app. Qed.

Lemma type_line r string status seen :
  (if negb (has_header seen HEADER_CONTENT_TYPE) && success_status status then
     match p ← full_path r; cockpit_web_response_content_type p with
     | Some content_type => string ++ bs "Content-Type: " ++ content_type ++ crlf
     | None => string
     end
   else string) = string ++ header_lines (type_header r status seen).
Proof.
  unfold type_header. destruct (negb _ && _); [|cbn; by rewrite app_nil_r].
  destruct (full_path r) as [p|]; cbn [mbind option_bind]; [|cbn; by rewrite app_nil_r].
  destruct (cockpit_web_response_content_type p) as [ct|]; cbn; by rewrite app_nil_r.
Qed.

Lemma body_line r string len seen A B :
  (if (len <? 0) || has_header seen HEADER_CONTENT_ENCODING || bool_decide (filters r ≠ [])
   then (A, string ++ bs "Transfer-Encoding: chunked" ++ crlf)
   else (B, string ++ bs "Content-Length: " ++ render_gssize len ++ crlf)) =
  (if (len <? 0) || has_header seen HEADER_CONTENT_ENCODING || bool_decide (filters r ≠ []) then A else B : CockpitWebResponse,
   string ++ header_lines [body_header r len seen]).
Proof.
  unfold body_header, header_lines. cbn [mbind list_bind]. rewrite app_nil_r. by destruct (_ || bool_decide _).
Qed.

Lemma cache_line r r' string status seen : cache_type r' = cache_type r →
  (let string :=
     if negb (has_header seen HEADER_CACHE_CONTROL) && success_status status then
       match cache_type r' with
       | COCKPIT_WEB_RESPONSE_NO_CACHE => string ++ bs "Cache-Control: no-cache, no-store" ++ crlf
       | COCKPIT_WEB_RESPONSE_CACHE => string ++ bs "Cache-Control: max-age=86400, private" ++ crlf
       | COCKPIT_WEB_RESPONSE_CACHE_UNSET => string
       end
     else string in
   if negb (has_header seen HEADER_VARY) && success_status status then
     match cache_type r' with
     | COCKPIT_WEB_RESPONSE_CACHE => string ++ bs "Vary: Cookie" ++ crlf
     | _ => string
     end
   else string) = string ++ header_lines (cache_headers r status seen).
Proof.
  intros ->. unfold cache_headers. destruct (negb (has_header seen HEADER_CACHE_CONTROL) && _),
    (negb (has_header seen HEADER_VARY) && _), (cache_type r); cbn; rewrite ?app_nil_r; try done; by rewrite <- !app_assoc.
Qed.

Lemma finish_text r string len status seen : status ≠ 304 →
  (finish_headers r string len status seen).2 =
  string ++ header_lines (automatic_headers r len status seen) ++ crlf.
Proof.
  intros Hs. unfold finish_headers. rewrite (proj2 (Z.eqb_neq status 304)) by done. cbn [negb].
  rewrite type_line, body_line. cbv beta iota zeta. set (r' := if _ || _ then set_chunked true r else _).
  assert (Er : cache_type r' = cache_type r ∧ keep_alive r' = keep_alive r) by (subst r'; by destruct (_ || bool_decide _)).
  destruct Er as [Er1 Er2]. rewrite (cache_line r r' _ status seen Er1), Er2. cbn [snd].
  change (bs "Connection: close" ++ crlf) with (header_line (bs "Connection", bs "close")).
  change (bs "X-DNS-Prefetch-Control: off" ++ crlf) with (header_line (bs "X-DNS-Prefetch-Control", bs "off")).
  change (bs "Referrer-Policy: no-referrer" ++ crlf) with (header_line (bs "Referrer-Policy", bs "no-referrer")).
  change (bs "X-Content-Type-Options: nosniff" ++ crlf) with (header_line (bs "X-Content-Type-Options", bs "nosniff")).
  change (bs "Cross-Origin-Resource-Policy: same-origin" ++ crlf)
    with (header_line (bs "Cross-Origin-Resource-Policy", bs "same-origin")).
  change (bs "X-Frame-Options: sameorigin" ++ crlf) with (header_line (bs "X-Frame-Options", bs "sameorigin")).
  rewrite !optional_line. unfold automatic_headers, last_headers. rewrite !header_lines_two.
  by rewrite <- !app_assoc.
Qed.

(** ** Chunks *)

Definition hex_digit (c : Z) : option Z :=
  if isdigit c then Some (c - 48) else if (97 <=? c) && (c <=? 102) then Some (c - 87) else None.

Fixpoint hex_value (acc : Z) (l : list Z) : option Z :=
  match l with
  | [] => Some acc
  | c :: l => d ← hex_digit c; hex_value (acc * 16 + d) l
  end.

(** A body in chunks: its bytes, and what follows it. *)
Fixpoint dechunk (fuel : nat) (s : list Z) : option (list Z * list Z) :=
  match fuel with
  | O => None
  | S fuel =>
      n ← memchr s 13;
      if negb (prefixb crlf (drop n s)) || (n =? 0)%nat then None
      else
        size ← hex_value 0 (take n s);
        let data := drop (n + 2) s in
        if size =? 0 then
          if prefixb crlf data then Some ([], drop 2 data) else None
        else
          let chunk := take (Z.to_nat size) data in
          let after := drop (Z.to_nat size) data in
          if (zlen chunk =? size) && prefixb crlf after then
            '(body, rest) ← dechunk fuel (drop 2 after);
            Some (chunk ++ body, rest)
          else None
  end.

Lemma hex_value_snoc acc l c : hex_value acc (l ++ [c]) = v ← hex_value acc l; d ← hex_digit c; Some (v * 16 + d).
Proof.
  revert acc. induction l as [|x l IH]; intros acc; cbn.
  - by destruct (hex_digit c).
  - destruct (hex_digit x); cbn; [apply IH|done].
Qed.

Lemma hex_digit_char d : 0 ≤ d < 16 → hex_digit (if d <? 10 then 48 + d else 87 + d) = Some d.
Proof.
  intros Hd. unfold hex_digit, isdigit. destruct (Z.ltb_spec d 10).
  - rewrite (proj2 (Z.leb_le 48 _)), (proj2 (Z.leb_le _ 57)) by lia. cbn. f_equal. lia.
  - rewrite (proj2 (Z.leb_gt _ 57)), andb_false_r by lia.
    rewrite (proj2 (Z.leb_le 97 _)), (proj2 (Z.leb_le _ 102)) by lia. cbn. f_equal. lia.
Qed.

Lemma hex_fuel_value fuel n : 0 ≤ n < 16 ^ Z.of_nat fuel → hex_value 0 (hex_fuel fuel n) = Some n.
Proof.
  revert n. induction fuel as [|fuel IH]; intros n Hn; [cbn in *; f_equal; lia|].
  rewrite Nat2Z.inj_succ, Z.pow_succ_r in Hn by lia. cbn [hex_fuel]. rewrite hex_value_snoc.
  assert (E : hex_value 0 (if n <? 16 then [] else hex_fuel fuel (n / 16)) = Some (n / 16)).
  { destruct (Z.ltb_spec n 16); [cbn; f_equal; lia|]. apply IH. lia. }
  rewrite E. cbn [mbind option_bind]. rewrite hex_digit_char by lia. cbn. f_equal. lia.
Qed.

Lemma hex_fuel_chars fuel n : 0 ≤ n → Forall (λ c, 48 ≤ c ≤ 102) (hex_fuel fuel n).
Proof.
  revert n. induction fuel as [|fuel IH]; intros n Hn; [constructor|]. cbn [hex_fuel]. apply Forall_app. split.
  - destruct (n <? 16); [constructor|]. apply IH. lia.
  - apply Forall_singleton. destruct (Z.ltb_spec (n mod 16) 10); lia.
Qed.

Lemma hex_fuel_pos fuel n : (0 < length (hex_fuel (S fuel) n))%nat.
Proof. cbn [hex_fuel]. rewrite length_app. cbn. lia. Qed.

Lemma dechunk_size fuel n rest : 0 ≤ n < 2 ^ 32 →
  dechunk (S fuel) (render_hex n ++ crlf ++ rest) =
  if n =? 0 then if prefixb crlf rest then Some ([], drop 2 rest) else None
  else
    let chunk := take (Z.to_nat n) rest in
    let after := drop (Z.to_nat n) rest in
    if (zlen chunk =? n) && prefixb crlf after then
      '(body, rest) ← dechunk fuel (drop 2 after);
      Some (chunk ++ body, rest)
    else None.
Proof.
  intros Hn. unfold render_hex. replace (u32 n) with n by (unfold u32; lia).
  pose proof (hex_fuel_pos 7 n) as Hpos. pose proof (hex_fuel_chars 8 n ltac:(lia)) as Hc.
  pose proof (hex_fuel_value 8 n) as Hv. set (h := hex_fuel 8 n) in *.
  assert (H13 : 13 ∉ h). { intros Hin. rewrite Forall_forall in Hc. specialize (Hc _ Hin). lia. }
  cbn [dechunk]. change (crlf ++ rest) with (13 :: 10 :: rest). rewrite (memchr_app h 13 (10 :: rest) H13).
  cbn [mbind option_bind]. rewrite drop_app_length. rewrite take_app_length.
  rewrite (proj2 (Nat.eqb_neq _ _)) by lia. rewrite Hv by (change (16 ^ Z.of_nat 8) with (2 ^ 32); lia).
  cbn [prefixb crlf Z.eqb Pos.eqb andb negb orb mbind option_bind]. rewrite drop_app_add. done.
Qed.

(** A body of chunks is read back. *)
Lemma dechunk_encoded blocks fuel rest : Forall (λ b, zlen b < 2 ^ 32) blocks →
  (length (blocks ≫= encode true) < fuel)%nat →
  dechunk fuel ((blocks ≫= encode true) ++ trailer true ++ rest) = Some (concat blocks, rest).
Proof.
  intros H. revert fuel. induction H as [|b blocks Hb _ IH]; intros fuel Hf; (destruct fuel as [|fuel]; [lia|]).
  - cbn [mbind list_bind app trailer concat].
    change (bs "0" ++ crlf ++ crlf) with (render_hex 0 ++ crlf ++ crlf).
    rewrite <- !app_assoc, dechunk_size by lia. done.
  - cbn [mbind list_bind concat] in *. rewrite length_app in Hf. unfold encode at 1. unfold encode at 1 in Hf.
    destruct (Z.eqb_spec (zlen b) 0) as [Hz|Hz].
    + apply zlen_0_inv in Hz. subst b. apply IH. cbn in Hf. lia.
    + rewrite <- !app_assoc, dechunk_size by (pose proof (zlen_nonneg b); lia).
      rewrite (proj2 (Z.eqb_neq _ _)) by done. cbv zeta. replace (Z.to_nat (zlen b)) with (length b) by (unfold zlen; lia).
      rewrite take_app_length, drop_app_length, Z.eqb_refl. cbn [andb app crlf prefixb Z.eqb Pos.eqb drop]. rewrite IH; [done|].
      rewrite !length_app in Hf. cbn in Hf. lia.
Qed.

(** ** The status line *)

Record reason_ok (reason : list Z) : Prop := {
  reason_line : Forall (λ c, c ≠ 10 ∧ c ≠ 0) reason;
  reason_stripped : g_strstrip reason = reason;
  reason_first : head reason ≠ Some 32
}.

Lemma render_d_digits status : 0 < status < 2 ^ 31 →
  canonical (render_d status) ∧ dec_value (render_d status) = status.
Proof.
  intros Hs. unfold render_d. rewrite (proj2 (Z.ltb_lt _ _)) by lia. split.
  - apply digits_fuel_canonical. lia.
  - apply digits_fuel_value. lia.
Qed.

Lemma span_digits d rest : digits d → (∀ c, head rest = Some c → isdigit c = false) →
  span_length isdigit (d ++ rest) = length d.
Proof.
  intros Hd Hr. induction Hd as [|c d Hc _ IH]; cbn.
  - destruct rest as [|c rest]; [done|]. cbn. by rewrite Hr.
  - by rewrite Hc, IH.
Qed.

Lemma digit_class c : isdigit c = true → isspace c = false ∧ c ≠ 45 ∧ c ≠ 43 ∧ c ≠ 32 ∧ c ≠ 10.
Proof.
  intros [H1 H2]%isdigit_range. unfold isspace. rewrite (proj2 (Z.eqb_neq c 32)), (proj2 (Z.leb_gt c 13)), andb_false_r by lia.
  split_and!; [done|lia..].
Qed.

Lemma strtoull_digits d c rest : canonical d → dec_value d < 2 ^ 64 → isdigit c = false →
  g_ascii_strtoull (d ++ c :: rest) = Ok (dec_value d, length d).
Proof.
  intros Hd Hv Hc. pose proof (canonical_pos d Hd) as Hpos. destruct Hd as (Hd & x & d' & -> & Hx).
  assert (Hxd : isdigit x = true) by (by apply Forall_cons in Hd as [? _]).
  destruct (digit_class x Hxd) as (Hsp & H45 & H43 & _ & _). unfold g_ascii_strtoull.
  cbn [app span_length]. rewrite Hsp. cbn [drop]. rewrite (proj2 (Z.eqb_neq x 45)), (proj2 (Z.eqb_neq x 43)) by done.
  cbn [orb]. rewrite app_comm_cons. rewrite (span_digits (x :: d') (c :: rest)); [|done|by intros ? [= <-]].
  rewrite drop_app_length, take_app_length. cbn [length Nat.eqb]. do 3 f_equal. lia.
Qed.

Lemma status_line status reason rest : 0 < status < 2 ^ 31 → reason_ok reason →
  web_socket_util_parse_status_line (begin_headers status reason ++ rest) =
  Ok (Parsed (length (begin_headers status reason)) (bs "HTTP/1.1", status, reason)).
Proof.
  intros Hs [Hline Hstrip Hfirst]. destruct (render_d_digits status Hs) as [Hd Hv].
  unfold begin_headers. set (d := render_d status) in *.
  set (line := bs "HTTP/1.1 " ++ d ++ 32 :: reason ++ [13]).
  assert (E : bs "HTTP/1.1 " ++ d ++ bs " " ++ reason ++ crlf = line ++ [10]).
  { unfold line. rewrite <- !app_assoc. cbn [app]. by rewrite <- app_assoc. }
  assert (Hdig : digits d) by apply Hd.
  assert (H10 : 10 ∉ line).
  { unfold line. rewrite !not_elem_of_app. split_and!; [by_decide| |].
    - intros Hin. unfold digits in Hdig. rewrite Forall_forall in Hdig. by destruct (digit_class _ (Hdig _ Hin)) as (_ & _ & _ & _ & ?).
    - apply not_elem_of_cons. split; [done|]. rewrite not_elem_of_app. split; [|by_decide].
      intros Hin. rewrite Forall_forall in Hline. by destruct (Hline _ Hin). }
  assert (Hhead : ∃ x d', d = x :: d' ∧ x ≠ 32).
  { destruct Hd as (_ & x & d' & Ed & _). exists x, d'. split; [done|]. rewrite Ed in Hdig.
    apply Forall_cons in Hdig as [Hx _]. by destruct (digit_class x Hx) as (_ & _ & _ & ? & _). }
  rewrite E. rewrite <- app_assoc. cbn [app]. unfold web_socket_util_parse_status_line.
  rewrite (memchr_app line 10 rest H10), take_app_length.
  assert (Ev : parse_version line = Some (bs "HTTP/1.1", drop 8 line)).
  { unfold parse_version. rewrite (proj2 (Z.ltb_ge _ _)).
    - reflexivity.
    - unfold line. rewrite zlen_app. change (zlen (bs "HTTP/1.1 ")) with 9. pose proof (zlen_nonneg (d ++ 32 :: reason ++ [13])). lia. }
  rewrite Ev. rewrite bool_decide_eq_true_2 by reflexivity.
  assert (Esk : skip_char 32 (drop 8 line) = d ++ 32 :: reason ++ [13]).
  { change (drop 8 line) with (32 :: d ++ 32 :: reason ++ [13]). destruct Hhead as (x & d' & Ed & Hx).
    rewrite Ed. cbn. by rewrite (proj2 (Z.eqb_neq x 32)) by done. }
  rewrite Esk. cbv zeta. rewrite memchr_app.
  2:{ intros Hin. unfold digits in Hdig. rewrite Forall_forall in Hdig. by destruct (digit_class _ (Hdig _ Hin)) as (_ & _ & _ & ? & _). }
  assert (Eat : (length line - length (d ++ 32%Z :: reason ++ [13%Z]) = 9)%nat).
  { unfold line. rewrite length_app. cbn. lia. }
  rewrite Eat. assert (Ed9 : drop 9 (line ++ 10 :: rest) = d ++ 32 :: (reason ++ [13]) ++ 10 :: rest).
  { unfold line. rewrite <- app_assoc. change (drop 9 (bs "HTTP/1.1 " ++ ?x)) with x. by rewrite <- app_assoc. }
  rewrite Ed9, (strtoull_digits d 32 _ Hd) by (try done; lia). cbn [mbind comp_bind]. rewrite Hv.
  rewrite (proj2 (Z.eqb_neq status 0)), (Z.gtb_ltb status), (proj2 (Z.ltb_ge _ _)) by lia. cbn [orb].
  assert (Eat2 : (line ++ 10 :: rest) !! (9 + length d)%nat = Some 32).
  { rewrite <- lookup_drop, Ed9. by apply list_lookup_middle. }
  rewrite Eat2. rewrite bool_decide_eq_false_2 by (intros n; by apply n).
  rewrite (proj2 (Nat.ltb_ge _ _)).
  2:{ unfold line. rewrite !length_app. cbn. lia. }
  assert (Edr : drop (9 + length d) line = 32 :: reason ++ [13]).
  { rewrite <- drop_drop. change (drop 9 line) with (d ++ 32 :: reason ++ [13]). by rewrite drop_app_length. }
  rewrite Edr. do 2 f_equal; [rewrite length_app; cbn; lia|]. f_equal.
  assert (Esk2 : skip_char 32 (32 :: reason ++ [13]) = reason ++ [13]).
  { cbn. destruct reason as [|x reason]; [done|]. cbn in *. rewrite (proj2 (Z.eqb_neq x 32)); [done|]. congruence. }
  rewrite Esk2, cstr_id.
  - rewrite <- Hstrip at 2. rewrite <- (strstrip_around [] reason [13]); [done|constructor|]. by repeat constructor.
  - apply Forall_app. split; [|by repeat constructor]. eapply Forall_impl; [exact Hline|]. intros c Hc. apply Hc.
Qed.

(** ** The headers *)

Section Reader.
Context (g_utf8_validate : list Z → bool) (utf8_ascii : ∀ s, Forall (λ c, 0 < c < 128) s → g_utf8_validate s = true).
Notation header_fits := (header_fits g_utf8_validate).
Notation header_ok := (header_ok g_utf8_validate).

(** A header that is given to [cockpit_web_response_headers_full]: what is not asked here, that no
    line ends in the name or the value, is seen to by the code. *)
Record given_ok (h : list Z * option (list Z)) : Prop := {
  given_name : Forall (λ c, c ∈ [9; 10; 11; 13]%Z ∨ 32 ≤ c < 128 ∧ c ≠ 58) h.1;
  given_value value : h.2 = Some value → g_utf8_validate (g_strstrip value) = true
}.

Lemma strcspn_outside s reject : strcspn s reject = length s → outside reject s.
Proof. intros E. destruct (strcspn_spec s reject) as [H _]. by rewrite E, firstn_all in H. Qed.

Lemma valid_header_ok h h' : given_ok h → valid_header h = Some h' → header_fits h'.
Proof.
  intros [Hn Hv]. unfold valid_header. destruct h as [name [value|]]; [|done]. cbn [fst snd] in *.
  pose proof (Hv value eq_refl) as Hutf8.
  destruct (cockpit_web_response_is_simple_token name) eqn:E1; [|done].
  destruct (cockpit_web_response_is_header_value value) eqn:E2; [|done]. intros [= <-].
  apply Nat.eqb_eq, strcspn_outside in E1. apply Nat.eqb_eq, strcspn_outside in E2.
  assert (Hname : Forall (λ c, 32 < c < 128 ∧ c ≠ 58) name).
  { apply Forall_forall. intros c Hc. unfold outside in E1. rewrite Forall_forall in Hn, E1. destruct (E1 c Hc) as [H1 _].
    rewrite !not_elem_of_cons in H1. destruct (Hn c Hc) as [H2|H2]; [rewrite !elem_of_cons in H2; tauto|lia]. }
  constructor; cbn [fst snd]; try done.
  - eapply Forall_impl; [exact Hname|]. cbn. lia.
  - destruct (decide (name = [])) as [->|Hne]; [done|]. apply word_stripped. split; [done|].
    eapply Forall_impl; [exact Hname|]. cbn. lia.
  - apply Forall_forall. intros c Hc. unfold outside in E2. rewrite Forall_forall in E2. destruct (E2 c Hc) as [H1 H2].
    rewrite !not_elem_of_cons in H1. tauto.
Qed.

Lemma valid_headers_ok hs : Forall given_ok hs → Forall header_fits (omap valid_header hs).
Proof.
  induction 1 as [|h hs Hh _ IH]; [constructor|]. cbn [omap list_omap].
  destruct (valid_header h) as [h'|] eqn:E; [|done]. constructor; [by eapply valid_header_ok|done].
Qed.

(** The headers that a client reads of those that are given. *)
Definition given_headers (hs : list (list Z * option (list Z))) : headers := stripped <$> omap valid_header hs.

(** A header of the code's own. *)
Definition own_header (h : list Z * list Z) : bool :=
  forallb (λ c, (32 <=? c) && (c <? 128) && negb (c =? 58)) h.1 && bool_decide (g_strstrip h.1 = h.1) &&
  forallb (λ c, (32 <=? c) && (c <? 128)) h.2 && bool_decide (g_strstrip h.2 = h.2).

Lemma own_header_ok h : own_header h = true → header_ok h.
Proof.
  unfold own_header. rewrite !andb_true_iff. intros [[[H1 H2%bool_decide_eq_true] H3] H4%bool_decide_eq_true]. rewrite forallb_forall in H1, H3.
  assert (H3' : ∀ c, c ∈ h.2 → 32 ≤ c < 128).
  { intros c Hc%list_elem_of_In. specialize (H3 c Hc). to_prop. lia. }
  constructor; try done; rewrite ?Forall_forall.
  - intros c Hc%list_elem_of_In. specialize (H1 c Hc). to_prop. lia.
  - intros c Hc. specialize (H3' c Hc). lia.
  - apply utf8_ascii. rewrite Forall_forall. intros c Hc. specialize (H3' c Hc). lia.
Qed.

Lemma own_headers_ok hs : forallb own_header hs = true → Forall header_ok hs.
Proof.
  intros H. rewrite forallb_forall in H. apply Forall_forall. intros h Hh%list_elem_of_In. by apply own_header_ok, H.
Qed.

Definition framing (name : list Z) : bool :=
  strcasecmp_eq name (bs "Transfer-Encoding") || strcasecmp_eq name (bs "Content-Length").

Lemma content_type_own path ct : cockpit_web_response_content_type path = Some ct →
  own_header (bs "Content-Type", ct) = true.
Proof.
  unfold cockpit_web_response_content_type. destruct (list_find _ _) as [[i [ext ct']]|] eqn:E; [|done].
  intros [= <-]. apply list_find_Some in E as (E & _ & _). apply list_elem_of_lookup_2 in E. revert E.
  assert (H : Forall (λ t, own_header (bs "Content-Type", t.2) = true) content_types) by by_decide.
  rewrite Forall_forall in H. intros E. by apply (H _ E).
Qed.

Lemma type_header_own r status seen : forallb own_header (type_header r status seen) = true.
Proof.
  unfold type_header. destruct (negb _ && _); [|done]. destruct (full_path r) as [p|]; [|done]. cbn [mbind option_bind].
  destruct (cockpit_web_response_content_type p) as [ct|] eqn:E; [|done]. cbn [forallb].
  by rewrite (content_type_own p ct E).
Qed.

Definition fixed_headers : headers :=
  [(bs "Cache-Control", bs "no-cache, no-store"); (bs "Cache-Control", bs "max-age=86400, private"); (bs "Vary", bs "Cookie");
   (bs "Connection", bs "close"); (bs "X-DNS-Prefetch-Control", bs "off"); (bs "Referrer-Policy", bs "no-referrer");
   (bs "X-Content-Type-Options", bs "nosniff"); (bs "Cross-Origin-Resource-Policy", bs "same-origin");
   (bs "X-Frame-Options", bs "sameorigin")].

Lemma optional_fixed (P : list Z * list Z → Prop) b (name value : string) : P (bs name, bs value) →
  Forall P (optional b name value).
Proof. intros H. destruct b; by repeat constructor. Qed.

Lemma last_headers_forall (P : list Z * list Z → Prop) r status seen : Forall P fixed_headers →
  Forall P (cache_headers r status seen ++ last_headers r seen).
Proof.
  intros (H1 & H2 & H3 & H4 & H5 & H6 & H7 & H8 & H9 & _)%Forall_fold_right.
  rewrite Forall_app. split.
  - unfold cache_headers. apply Forall_app. split; (destruct (negb _ && _); [|constructor]); by destruct (cache_type r); repeat constructor.
  - unfold last_headers. rewrite !Forall_app. split_and!; by apply optional_fixed.
Qed.

Lemma last_headers_own r status seen : forallb own_header (cache_headers r status seen ++ last_headers r seen) = true.
Proof.
  apply forallb_forall. intros h Hh%list_elem_of_In. revert h Hh. apply Forall_forall, last_headers_forall. by_decide.
Qed.

Lemma digits_fuel_own fuel len : 0 ≤ len < 10 ^ Z.of_nat (S fuel) → own_header (bs "Content-Length", digits_fuel (S fuel) len) = true.
Proof.
  intros Hl. pose proof (digits_fuel_digits (S fuel) len ltac:(lia)) as Hd. set (d := digits_fuel (S fuel) len) in *.
  assert (Hw : word d).
  { split; [|eapply Forall_impl; [exact Hd|]; intros c [? ?]%isdigit_range; lia].
    unfold d. cbn [digits_fuel]. destruct (len <? 10); [done|]. by destruct (digits_fuel fuel (len / 10)). }
  unfold own_header. cbn [fst snd]. rewrite !andb_true_iff. split_and!; try by_decide.
  - apply forallb_forall. intros c Hc%list_elem_of_In. unfold digits in Hd. rewrite Forall_forall in Hd.
    specialize (Hd c Hc). apply isdigit_range in Hd. rewrite andb_true_iff, Z.leb_le, Z.ltb_lt. lia.
  - by apply bool_decide_eq_true, word_stripped.
Qed.

(** Which headers say where the body ends. *)
Definition in_chunks (r : CockpitWebResponse) (len seen : Z) : bool :=
  (len <? 0) || has_header seen HEADER_CONTENT_ENCODING || bool_decide (filters r ≠ []).

Lemma body_header_own r len seen : len < 2 ^ 63 → own_header (body_header r len seen) = true.
Proof.
  intros Hl. unfold body_header. fold (in_chunks r len seen). destruct (in_chunks r len seen) eqn:E; [by vm_compute|].
  unfold in_chunks in E. apply orb_false_elim in E as [E _]. apply orb_false_elim in E as [E _]. to_prop.
  unfold render_gssize. rewrite (proj2 (Z.leb_le 0 len)) by lia. apply (digits_fuel_own 19).
  change (10 ^ Z.of_nat 20) with 100000000000000000000. lia.
Qed.

Lemma automatic_own r len status seen : len < 2 ^ 63 → forallb own_header (automatic_headers r len status seen) = true.
Proof.
  intros Hl. unfold automatic_headers. rewrite !forallb_app, type_header_own. cbn [forallb].
  rewrite body_header_own by done. rewrite <- forallb_app. by rewrite last_headers_own.
Qed.

Lemma type_header_framing r status seen : Forall (λ h, framing h.1 = false) (type_header r status seen).
Proof.
  unfold type_header. destruct (negb _ && _); [|constructor]. destruct (p ← full_path r; _); by repeat constructor.
Qed.

Lemma last_headers_framing r status seen :
  Forall (λ h, framing h.1 = false) (cache_headers r status seen ++ last_headers r seen).
Proof. apply last_headers_forall. by_decide. Qed.

Lemma given_headers_framing (hs : list (list Z * option (list Z))) : Forall (λ h, framing h.1 = false) hs →
  Forall (λ h, framing h.1 = false) (given_headers hs).
Proof.
  unfold given_headers. induction 1 as [|h hs Hh _ IH]; [constructor|]. cbn [omap list_omap].
  destruct (valid_header h) as [h'|] eqn:E; [|done]. constructor; [|done]. unfold valid_header in E. destruct h.2; [|done].
  destruct (_ && _); [|done]. by injection E as <-.
Qed.

Lemma framing_names (hs : headers) : Forall (λ h, framing h.1 = false) hs →
  Forall (λ h, strcasecmp_eq h.1 (bs "Transfer-Encoding") = false) hs ∧
  Forall (λ h, strcasecmp_eq h.1 (bs "Content-Length") = false) hs.
Proof. intros H. split; eapply Forall_impl; try exact H; intros h; unfold framing; by intros [? ?]%orb_false_elim. Qed.

Lemma lookup_middle (a c : headers) h name : Forall (λ h, strcasecmp_eq h.1 name = false) a →
  Forall (λ h, strcasecmp_eq h.1 name = false) c →
  table_lookup (table_of (a ++ h :: c)) name = if strcasecmp_eq h.1 name then Some h.2 else None.
Proof.
  intros Ha Hc. rewrite table_of_app. cbn [foldl]. rewrite table_insert_others, table_lookup_insert by done.
  unfold table_of. by rewrite table_insert_others by done.
Qed.

(** What a client takes for the body, by the headers. *)
Definition client_body (t : headers) (s : list Z) : option (list Z * list Z) :=
  if _web_socket_util_header_equals t (bs "Transfer-Encoding") (bs "chunked") then dechunk (S (length s)) s
  else
    value ← table_lookup t (bs "Content-Length");
    let n := Z.to_nat (dec_value value) in
    if (n <=? length s)%nat then Some (take n s, drop n s) else None.

Lemma client_body_of (given : headers) r len status seen s : Forall (λ h, framing h.1 = false) given → len < 2 ^ 63 →
  client_body (table_of (given ++ automatic_headers r len status seen)) s =
  if in_chunks r len seen then dechunk (S (length s)) s
  else if (Z.to_nat len <=? length s)%nat then Some (take (Z.to_nat len) s, drop (Z.to_nat len) s) else None.
Proof.
  intros Hg Hl. assert (Hbefore : Forall (λ h, framing h.1 = false) (given ++ type_header r status seen)).
  { apply Forall_app. split; [done|apply type_header_framing]. }
  destruct (framing_names _ Hbefore) as [B1 B2].
  destruct (framing_names _ (last_headers_framing r status seen)) as [A1 A2].
  unfold client_body, _web_socket_util_header_equals, automatic_headers. rewrite app_assoc.
  change ([body_header r len seen] ++ ?l) with (body_header r len seen :: l).
  rewrite (lookup_middle _ _ _ (bs "Transfer-Encoding")), (lookup_middle _ _ _ (bs "Content-Length")) by done.
  unfold body_header. fold (in_chunks r len seen). destruct (in_chunks r len seen) eqn:E; [done|]. cbn [fst snd].
  change (strcasecmp_eq (bs "Content-Length") (bs "Transfer-Encoding")) with false.
  change (strcasecmp_eq (bs "Content-Length") (bs "Content-Length")) with true. cbv beta iota. cbn [mbind option_bind].
  unfold in_chunks in E. apply orb_false_elim in E as [E _]. apply orb_false_elim in E as [E _]. to_prop.
  assert (Ed : dec_value (render_gssize len) = len).
  { unfold render_gssize. rewrite (proj2 (Z.leb_le 0 len)) by lia. apply digits_fuel_value.
    change (10 ^ Z.of_nat 20) with 100000000000000000000. lia. }
  by rewrite Ed.
Qed.

(** ** Whole responses *)

(** A client that reads what a server has sent: the status, the reason, the headers, the body, and
    what follows. *)
Definition read_response (s : list Z) : option (Z * list Z * headers * list Z * list Z) :=
  match web_socket_util_parse_status_line s with
  | Ok (Parsed n (_, status, reason)) =>
      match web_socket_util_parse_headers g_utf8_validate (drop n s) with
      | Parsed m t => '(body, rest) ← client_body t (drop m (drop n s)); Some (status, reason, t, body, rest)
      | _ => None
      end
  | _ => None
  end.

(** What [begin_headers] and [finish_headers] make of it. *)
Lemma begun_text r status reason len hs : status ≠ 304 →
  let seen := (append_table (begin_headers status reason) hs).2 in
  (begun r status reason len hs).2 = begin_headers status reason ++
    header_lines (omap valid_header hs ++ automatic_headers r len status seen) ++ crlf ∧
  chunked (begun r status reason len hs).1 = in_chunks r len seen.
Proof.
  intros Hs. unfold begun. pose proof (append_table_text (begin_headers status reason) hs) as Et.
  destruct (append_table _ hs) as [string seen]. cbn [fst snd] in *. subst string. split.
  - rewrite finish_text by done. rewrite header_lines_two. by rewrite <- !app_assoc.
  - unfold finish_headers. rewrite (proj2 (Z.eqb_neq status 304)) by done. cbn [negb].
    rewrite type_line, body_line. fold (in_chunks r len seen). by destruct (in_chunks r len seen).
Qed.

(** What is asked of those who respond. *)
Record well_given r (status : Z) (reason : list Z) (len : Z) (hs : list (list Z * option (list Z)))
    (blocks : list (list Z)) : Prop := {
  wg_status : 0 < status < 2 ^ 31 ∧ status ≠ 304;
  wg_reason : reason_ok reason;
  wg_headers : Forall given_ok hs;
  wg_framing : Forall (λ h, framing h.1 = false) hs;
  wg_length : len < 0 ∨ len = zlen (concat blocks) ∧ len < 2 ^ 63;
  wg_blocks : Forall (λ b, zlen b < 2 ^ 32) (queue_filter (filters r) blocks).1;
  wg_size : zlen (message r status reason len hs blocks) < G_MAXSIZE
}.

Lemma encode_unchunked blocks : blocks ≫= encode false = concat blocks.
Proof.
  induction blocks as [|b blocks IH]; [done|]. cbn [mbind list_bind concat] in *. rewrite IH. f_equal. unfold encode.
  destruct (Z.eqb_spec (zlen b) 0) as [Hz|]; [|done]. by apply zlen_0_inv in Hz as ->.
Qed.

Lemma total_concat l : total l = zlen (concat l).
Proof. induction l as [|b l IH]; [done|]. rewrite blocks_total_cons, IH. cbn [concat]. by rewrite zlen_app. Qed.

Lemma unfiltered r len seen : in_chunks r len seen = false → 0 ≤ len ∧ ∀ blocks, (queue_filter (filters r) blocks).1 = blocks.
Proof.
  unfold in_chunks. intros [[H1 _]%orb_false_elim H2%bool_decide_eq_false]%orb_false_elim. to_prop. split; [lia|].
  destruct (filters r); [done|]. by destruct H2.
Qed.

Lemma message_read r status reason len hs blocks rest : well_given r status reason len hs blocks →
  read_response (message r status reason len hs blocks ++ rest) =
  Some (status, reason,
    table_of (given_headers hs ++
      automatic_headers r len status (append_table (begin_headers status reason) hs).2),
    concat (queue_filter (filters r) blocks).1, rest).
Proof.
  intros [[Hst H304] Hr Hh Hf Hl Hb _]. unfold message. destruct (begun_text r status reason len hs H304) as [-> ->].
  set (seen := (append_table _ hs).2). set (outs := (queue_filter (filters r) blocks).1) in *.
  assert (Hlen : len < 2 ^ 63) by (destruct Hl as [?|[_ ?]]; lia).
  unfold read_response. rewrite <- !app_assoc, (status_line status reason _ Hst Hr), drop_app_length.
  destruct (all_ok_fit g_utf8_validate _ (own_headers_ok _ (automatic_own r len status seen Hlen))) as [Hfits Estripped].
  rewrite app_assoc, <- (app_assoc _ crlf), (parse_headers_fitting g_utf8_validate).
  2:{ apply Forall_app. split; [by apply valid_headers_ok|done]. }
  rewrite fmap_app, Estripped. fold (given_headers hs). rewrite drop_app_add, drop_app_length' by done.
  rewrite client_body_of by (try done; by apply given_headers_framing).
  destruct (in_chunks r len seen) eqn:Ec.
  - rewrite dechunk_encoded; [done|done|]. rewrite length_app. lia.
  - destruct (unfiltered r len seen Ec) as [H0 Hid]. unfold outs. rewrite Hid, encode_unchunked.
    destruct Hl as [?|[-> _]]; [lia|]. cbn [trailer app].
    replace (Z.to_nat (zlen (concat blocks))) with (length (concat blocks)) by (unfold zlen; lia).
    rewrite (proj2 (Nat.leb_le _ _)) by (rewrite length_app; lia). by rewrite take_app_length, drop_app_length.
Qed.

(** A new response with filters. *)
Definition with_filters (r : CockpitWebResponse) (fs : list F) : CockpitWebResponse :=
  foldl cockpit_web_response_add_filter r fs.

Lemma with_filters_eq r fs : count r = 0 → with_filters r fs = set_filters (filters r ++ fs) r.
Proof.
  revert r. induction fs as [|f fs IH]; intros r Hc; cbn.
  - rewrite app_nil_r. by destruct r.
  - unfold cockpit_web_response_add_filter. rewrite Hc. cbn [Z.eqb]. fold (with_filters (set_filters (filters r ++ [f]) r) fs).
    rewrite IH by done. cbn [set_filters filters]. by rewrite <- app_assoc.
Qed.

(** What is sent is the message, whatever the stream does. *)
Lemma fresh_sent (g_uri_escape_string : list Z → list Z) (fail_html : list Z)
    original_path path in_headers method protocol fs status reason len hs blocks es held r :
  let r0 := with_filters (cockpit_web_response_new original_path path in_headers method protocol) fs in
  nul_free fail_html → method ≠ bs "HEAD" → well_given r0 status reason len hs blocks →
  run g_uri_escape_string fail_html r0 es held r → filter is_api es = script status reason len hs blocks →
  Done true ∈ signals r → sent r = message r0 status reason len hs blocks.
Proof.
  intros r0 Hfail Hm Hw Hrun Hes Hdone. set (new := cockpit_web_response_new _ _ _ _ _) in r0.
  assert (E0 : r0 = set_filters fs new) by by apply with_filters_eq.
  assert (Hg : good r0).
  { rewrite E0. apply filters_good. split; [|split; [apply new_inv|by exists []]].
    split; [apply new_inv|done]. }
  apply (message_sent g_uri_escape_string fail_html Hfail r0 status reason len hs blocks) with (es := es) (held := held);
    try done; try (by rewrite E0); try apply Hw.
  destruct (begun_text r0 status reason len hs) as [_ ->]; [apply Hw|]. intros Hc.
  destruct (unfiltered _ _ _ Hc) as [H0 Hid]. rewrite Hid, total_concat.
  destruct (wg_length _ _ _ _ _ _ Hw) as [?|[-> _]]; lia.
Qed.

(** C22: when the connection of a response can be used again, whatever pieces the stream has taken its
    blocks in, a client that reads what has been sent finds the status, the headers that
    were given and those that are added, and the filtered blocks as the body, and stands
    at what follows: the headers that are given can neither add lines nor end the headers. *)
Theorem response_read_back (g_uri_escape_string : list Z → list Z) (fail_html : list Z)
    original_path path in_headers method protocol fs status reason len hs blocks es held r rest :
  let r0 := with_filters (cockpit_web_response_new original_path path in_headers method protocol) fs in
  nul_free fail_html → method ≠ bs "HEAD" → well_given r0 status reason len hs blocks →
  run g_uri_escape_string fail_html r0 es held r → filter is_api es = script status reason len hs blocks →
  Done true ∈ signals r →
  read_response (sent r ++ rest) =
  Some (status, reason,
    table_of (given_headers hs ++
      automatic_headers r0 len status (append_table (begin_headers status reason) hs).2),
    concat (queue_filter fs blocks).1, rest).
Proof.
  intros r0 Hfail Hm Hw Hrun Hes Hdone. rewrite (fresh_sent _ _ _ _ _ _ _ _ _ _ _ _ _ _ _ _ Hfail Hm Hw Hrun Hes Hdone).
  etrans; [exact (message_read r0 status reason len hs blocks rest Hw)|]. unfold r0. by rewrite with_filters_eq.
Qed.
End Reader.
End Read.

(** ** A response *)

Definition example_filter : CockpitWebInject :=
  default (mkInject [] [] [] 0 0) (cockpit_web_inject_new (bs "<head>") (bs "<base href>") 1).

Definition example_given : list (list Z * option (list Z)) :=
  [(bs "X-Test", Some (bs "value")); (bs "Not a name", Some (bs "value")); (bs "Evil", Some (bs "a" ++ crlf ++ bs "Set-Cookie: b"));
   (bs "Unset", None)].

Definition example_blocks : list (list Z) := [bs "<html><he"; []; bs "ad>text"].

Definition example_run : list (WebResponse.event (F := CockpitWebInject)) :=
  [Headers 200 (bs "OK") (-1) example_given; Output (Wrote 20); Queue (bs "<html><he"); Queue []; Output WouldBlock;
   Output (Wrote 231); Output (Wrote 3); Queue (bs "ad>text"); Complete; Unref] ++ ((Output <$> (Wrote <$> [9; 2; 3; 3; 2; 3; 11; 2; 3; 4; 2; 5; 0])) ++ [Flushed true]).

Definition example_sent : WebResponse.CockpitWebResponse (F := CockpitWebInject) :=
  match exec (λ s, s) [] true (with_filters example_new [example_filter]) example_run with
  | Some (_, r) => r
  | None => example_new
  end.

Lemma response_read_back_witness :
  read_response (λ _, true) (sent example_sent ++ bs "HTTP/1.1") =
  Some (200, bs "OK",
    [(bs "X-Test", bs "value"); (bs "Content-Type", bs "text/html"); (bs "Transfer-Encoding", bs "chunked");
     (bs "X-DNS-Prefetch-Control", bs "off"); (bs "Referrer-Policy", bs "no-referrer");
     (bs "X-Content-Type-Options", bs "nosniff"); (bs "Cross-Origin-Resource-Policy", bs "same-origin");
     (bs "X-Frame-Options", bs "sameorigin")],
    bs "<html><head><base href>text", bs "HTTP/1.1").
Proof.
  etrans.
  - refine (response_read_back (λ _, true) (λ _ _, eq_refl) (λ s, s) []
      (Some (bs "/cockpit/x.html")) (Some (bs "/x.html")) (Some [(bs "Connection", bs "keep-alive")]) (bs "GET") None
      [example_filter] 200 (bs "OK") (-1) example_given example_blocks example_run false example_sent _ _ _ _ _ _ _).
    + constructor.
    + done.
    + split; [lia| | | |by left|by_decide|by vm_compute].
      * split; [by_decide|reflexivity|done].
      * repeat (constructor; [split; [by_decide|by intros ? [= <-]]|]). constructor.
      * by_decide.
    + apply exec_run. vm_compute. reflexivity.
    + vm_compute. reflexivity.
    + vm_compute. repeat constructor.
  - vm_compute. reflexivity.
Defined.
