(* ===== verification/WebFiles.v ===== *)
(** * Files of the web server: [src/common/cockpitwebresponse.c], [src/common/cockpitlocale.c]

    Responses that serve files below the roots, the choice of a file by language and compression, and
    the security policy of a page.

    Shown: only files below the roots are opened, and none that is hidden, whatever the path of
    the request unescapes to; what a client reads is the file; the file that is chosen is the first
    variant that exists; the origin is put in behind each ['self'] of a policy.

    The file system, [g_uri_unescape_string], [g_build_filename], [realpath] and the decompressor
    are parameters. *)

From S2P Require Import Prelude WebFilter Http WebResponse WebResponseSent WebResponseRead.
#[local] Open Scope Z_scope.

(** ** Policies *)

Definition strv_have_prefix (strv : list (list Z)) (prefix : list Z) : bool := existsb (prefixb prefix) strv.

(** The string, from the position that has been reached on, behind what is done with. *)
Fixpoint inject_loop (fuel : nat) (string : list Z) (pos : nat) (origin : list Z) : list Z :=
  match fuel with
  | O => string
  | S fuel =>
      match memmem (drop pos string) (bs "'self'") with
      | None => string
      | Some found =>
          let pos := (pos + found + 6)%nat in
          let string := take pos string ++ [32] ++ drop pos string in
          let string := take (pos + 1) string ++ origin ++ drop (pos + 1) string in
          inject_loop fuel string (pos + length origin + 1) origin
      end
  end.

Definition string_inject_origin (string origin : list Z) : list Z :=
  inject_loop (S (length string)) string 0 origin.

Definition default_directive (parts : list (list Z)) (name text : list Z) : list Z :=
  if strv_have_prefix parts name then [] else text ++ bs "; ".

Definition cockpit_web_response_security_policy (content_security_policy self_origin : option (list Z)) : list Z :=
  let parts := g_strstrip <$> (match content_security_policy with Some (c :: p) => split_on 59 (c :: p) | _ => [] end) in
  let connect :=
    bs "connect-src 'self'" ++
    match self_origin with
    | Some origin => if prefixb (bs "http") origin then bs " ws" ++ drop 4 origin else []
    | None => []
    end in
  let result :=
    default_directive parts (bs "default-src ") (bs "default-src 'self'") ++
    default_directive parts (bs "connect-src ") connect ++
    default_directive parts (bs "form-action ") (bs "form-action 'self'") ++
    default_directive parts (bs "base-uri ") (bs "base-uri 'self'") ++
    default_directive parts (bs "object-src ") (bs "object-src 'none'") ++
    default_directive parts (bs "font-src ") (bs "font-src 'self' data:") ++
    default_directive parts (bs "img-src ") (bs "img-src 'self' data:") ++
    default_directive parts (bs "block-all-mixed-content") (bs "block-all-mixed-content") ++
    (parts ≫= λ part, part ++ bs "; ") in
  let result := take (length result - 2) result in
  match self_origin with Some origin => string_inject_origin result origin | None => result end.

(** ** Files *)

Definition path_has_prefix (path : list Z) (prefix : option (list Z)) : bool :=
  match prefix with
  | None | Some [] => false
  | Some prefix =>
      prefixb prefix path && (bool_decide (last prefix = Some 47) || bool_decide (path !! length prefix = Some 47))
  end.

(** The errors of files that are told apart. *)
Inductive file_error := NOENT | NAMETOOLONG | PERM | ACCES | ISDIR | LOOP | INVAL | OtherFileError.

#[export] Instance file_error_eq_dec : EqDecision file_error.
Proof. solve_decision. Defined.

(** What [g_converter_convert] does: how much of the input it has read, and what it has written. *)
Inductive conversion :=
| G_CONVERTER_ERROR
| G_CONVERTER_CONVERTED (read : nat) (written : list Z)
| G_CONVERTER_FINISHED (read : nat) (written : list Z).

Section Gunzip.
Context {S_ : Type} (g_converter_convert : S_ → list Z → Z → conversion * S_) (g_zlib_decompressor_new : S_).

(** The buffer for the output must not be empty. *)
Fixpoint gunzip_loop (fuel : nat) (converter : S_) (in_ out : list Z) : comp unit (option (list Z)) :=
  match fuel with
  | O => Err tt
  | S fuel =>
      _ ← cassert (0 <? zlen in_);
      match g_converter_convert converter in_ (zlen in_) with
      | (G_CONVERTER_ERROR, _) => Ok None
      | (G_CONVERTER_CONVERTED read written, converter) => gunzip_loop fuel converter (drop read in_) (out ++ written)
      | (G_CONVERTER_FINISHED read written, _) => Ok (Some (out ++ written))
      end
  end.

Definition cockpit_web_response_gunzip (fuel : nat) (bytes : list Z) : comp unit (option (list Z)) :=
  gunzip_loop fuel g_zlib_decompressor_new bytes [].
End Gunzip.

(** ** Serving files *)

(** A [gsize] that is stored in a [gint]. *)
Definition gint (n : Z) : Z := (n + 2 ^ 31) mod 2 ^ 32 - 2 ^ 31.

(** What is found below the roots. *)
Inductive found :=
| Found (data : list Z) (is_gzip : bool)
| NotFound
| Refused (code : Z) (message : list Z).

Section Files.
Context {F : Type} {filter_of : WebFilter F}.
Notation CockpitWebResponse := (CockpitWebResponse (F := F)).
Context (g_uri_escape_string : list Z → list Z) (fail_html : list Z).
Context (g_uri_unescape_string : list Z → list Z → option (list Z)) (g_build_filename : list Z → list Z → list Z)
  (realpath : list Z → option (list Z)).
Context (is_dir : list Z → bool) (g_mapped_file_new : list Z → file_error + list Z).
Context (gunzip : list Z → comp unit (option (list Z))).      (* cockpit_web_response_gunzip *)
Context (beyond : list Z).                                     (* the memory behind the bytes of a template *)

Definition cockpit_web_response_resolve_roots (input : list (list Z)) : list (list Z) := omap realpath input.

(** The paths that are opened are listed. *)
Fixpoint roots_loop (roots : list (list Z)) (unescaped : list Z) (search_gzip : bool) (opened : list (list Z))
    : comp unit (found * list (list Z)) :=
  match roots with
  | [] => Ok (NotFound, opened)
  | root :: roots =>
      let path := g_build_filename root unescaped in
      if is_dir path then Ok (Refused 403 (bs "Directory Listing Denied"), opened)
      else
        _ ← cassert (path_has_prefix path (Some root));
        let first := g_mapped_file_new path in
        let '(file, is_gzip, opened) :=
          match first with
          | inl NOENT =>
              if search_gzip then (g_mapped_file_new (path ++ bs ".gz"), true, opened ++ [path; path ++ bs ".gz"])
              else (first, false, opened ++ [path])
          | _ => (first, false, opened ++ [path])
          end in
        match file with
        | inr data => Ok (Found data is_gzip, opened)
        | inl NOENT | inl NAMETOOLONG => roots_loop roots unescaped search_gzip opened
        | inl PERM | inl ACCES | inl ISDIR => Ok (Refused 403 (bs "Access denied"), opened)
        | inl _ => Ok (Refused 500 (bs "Internal server error"), opened)
        end
  end.

(** The path is that of a file that nobody may ask for. *)
Definition forbidden (unescaped : list Z) : bool :=
  bool_decide (memmem unescaped (bs "/.") ≠ None) || bool_decide (memmem unescaped (bs "../") ≠ None) ||
  bool_decide (memmem unescaped (bs "//") ≠ None).

Notation web_error response code message :=
  (cockpit_web_response_error g_uri_escape_string fail_html response code None (Some message)).

(** The response to a file: [template_func] may be missing. *)
Definition send_file (response : CockpitWebResponse) (unescaped body : list Z) (is_gzip : bool)
    (template_func : option (list Z → option (list Z))) : comp unit CockpitWebResponse :=
  '(output, content_length) ←
    match template_func with
    | Some func => output ← cockpit_template_expand (bs "${") (bs "}") func body beyond; Ok (output, -1)
    | None => Ok ([body], gint (zlen body))
    end;
  let string := begin_headers 200 (bs "OK") in
  let '(string, seen1) :=
    match origin response with
    | Some origin => append_header string (bs "Access-Control-Allow-Origin") (Some origin)
    | None => (string, 0)
    end in
  let '(string, seen2) :=
    if has_suffix unescaped (bs ".html") then
      let policy := cockpit_web_response_security_policy (Some (bs "default-src 'self' 'unsafe-inline';")) (origin response) in
      append_header string (bs "Content-Security-Policy") (Some policy)
    else (string, 0) in
  let '(string, seen3) :=
    if is_gzip : bool then append_header string (bs "Content-Encoding") (Some (bs "gzip")) else (string, 0) in
  let seen := Z.lor seen1 (Z.lor seen2 seen3) in
  let '(response, headers_block) := finish_headers response string content_length 200 seen in
  response ← queue_bytes response headers_block;
  content_loop response output.

Definition web_response_file (response : CockpitWebResponse) (escaped : option (list Z)) (roots : list (list Z))
    (search_gzip accept_gzip : bool) (template_func : option (list Z → option (list Z)))
    : comp unit (CockpitWebResponse * list (list Z)) :=
  _ ← alive response;
  match (match escaped with Some e => Some e | None => path response end) with
  | None => Ok (response, [])
  | Some escaped =>
      match g_uri_unescape_string escaped (bs "/") with
      | None => response ← web_error response 404 (bs "Not Found"); Ok (response, [])
      | Some unescaped =>
          if forbidden unescaped then response ← web_error response 404 (bs "Not Found"); Ok (response, [])
          else
            '(file, opened) ← roots_loop roots unescaped search_gzip [];
            response ←
              match file with
              | Refused code message => web_error response code message
              | NotFound => web_error response 404 (bs "Not Found")
              | Found data is_gzip =>
                  if is_gzip && (negb accept_gzip || bool_decide (is_Some template_func)) then
                    body ← gunzip data;
                    match body with
                    | Some body => send_file response unescaped body false template_func
                    | None => web_error response 500 (bs "Internal server error")
                    end
                  else send_file response unescaped data is_gzip template_func
              end;
            Ok (response, opened)
      end
  end.

Definition substitute_hash_value (values : gmap (list Z) (list Z)) (variable : list Z) : option (list Z) :=
  Some (default [] (values !! variable)).

Definition cockpit_web_response_file (response : CockpitWebResponse) (escaped : option (list Z)) (roots : list (list Z)) :=
  web_response_file response escaped roots false false None.

Definition cockpit_web_response_template (response : CockpitWebResponse) (escaped : option (list Z))
    (roots : list (list Z)) (values : gmap (list Z) (list Z)) :=
  web_response_file response escaped roots false false (Some (substitute_hash_value values)).

Definition cockpit_web_response_file_or_gz (response : CockpitWebResponse) (accepts_gzip : bool)
    (escaped : option (list Z)) (roots : list (list Z)) :=
  web_response_file response escaped roots true accepts_gzip None.
End Files.

(** ** Languages *)

(** [cockpit_locale_from_language]: the locale, and the one without a region. *)
Definition cockpit_locale_from_language (value encoding : option (list Z)) : list Z * list Z :=
  let value := default (bs "C") value in
  let '(dot, encoding) := match encoding with Some e => (bs ".", e) | None => ([], []) end in
  match memchr value 45 with
  | Some spot =>
      let country := toupper <$> drop (S spot) value in
      let lang := tolower <$> take spot value in
      (lang ++ bs "_" ++ country ++ dot ++ encoding, lang)
  | None => (value ++ dot ++ encoding, value)
  end.

(** [cockpit_locale_set_language]: the language that is remembered, and the locale that is set. *)
Definition cockpit_locale_set_language (previous : list Z) (value : option (list Z)) : list Z * option (list Z) :=
  let encoding := match value with Some _ => Some (bs "UTF-8") | None => None end in
  let value := default (bs "C") value in
  if (31 <? length value)%nat then (previous, None)
  else if bool_decide (value = previous) then (previous, None)
  else (value, Some (cockpit_locale_from_language (Some value) encoding).1).

(** ** Negotiation *)

Definition strrchr (s : list Z) (c : Z) : option nat := (λ i, length s - 1 - i)%nat <$> memchr (rev s) c.

(** The position of the dot. *)
Definition find_extension (path : list Z) : option nat :=
  match strrchr path 46 with
  | None => None
  | Some dot =>
      match strrchr path 47 with
      | Some slash => if (dot <? slash)%nat || (dot =? 0)%nat || (dot =? slash + 1)%nat then None else Some dot
      | None => if (dot =? 0)%nat then None else Some dot
      end
  end.

Inductive loaded :=
| Bytes (bytes : list Z)
| Missing
| LoadError (error : file_error).

Inductive negotiated :=
| Served (bytes : list Z) (is_language_specific is_compressed : bool)
| NoVariant
| NegotiationError (error : file_error).

Section Negotiation.
Context (g_mapped_file_new : list Z → file_error + list Z).

Definition load_file (filename : list Z) : loaded :=
  match g_mapped_file_new filename with
  | inr bytes => Bytes bytes
  | inl NOENT | inl ISDIR | inl NAMETOOLONG | inl LOOP | inl INVAL => Missing
  | inl error => LoadError error
  end.

(** The name that is tried, and whether it is specific to the language and compressed. *)
Definition variant (base ext lang lang_region : list Z) (i : nat) : list Z * bool * bool :=
  match i with
  | 0 => (base ++ bs "." ++ lang_region ++ ext, true, false)
  | 1 => (base ++ bs "." ++ lang_region ++ ext ++ bs ".gz", true, true)
  | 2 => (base ++ bs "." ++ lang ++ ext, true, false)
  | 3 => (base ++ bs "." ++ lang ++ ext ++ bs ".gz", true, true)
  | 4 => (base ++ ext, false, false)
  | 5 => (base ++ bs ".min" ++ ext, false, false)
  | 6 => (base ++ ext ++ bs ".gz", false, true)
  | _ => (base ++ bs ".min" ++ ext ++ bs ".gz", false, true)
  end%nat.

Context (existing : option (gset (list Z))).

(** The variants from the [i]-th on, [n] of them. *)
Fixpoint variants_loop (n i : nat) (base ext lang lang_region : list Z) : negotiated :=
  match n with
  | O => NoVariant
  | S n =>
      let '(name, is_language_specific, is_compressed) := variant base ext lang lang_region i in
      if match existing with Some names => negb (bool_decide (name ∈ names)) | None => false end
      then variants_loop n (S i) base ext lang lang_region
      else
        match load_file name with
        | Bytes bytes => Served bytes is_language_specific is_compressed
        | LoadError error => NegotiationError error
        | Missing => variants_loop n (S i) base ext lang lang_region
        end
  end.

Fixpoint bases_loop (fuel : nat) (base ext : list Z) (locale : option (list Z * list Z)) : negotiated :=
  match fuel with
  | O => NoVariant
  | S fuel =>
      let '(lang, lang_region, i) :=
        match locale with
        | Some (locale, shorter) => if bool_decide (locale ≠ shorter) then (shorter, locale, 0%nat) else (locale, [], 2%nat)
        | None => ([], [], 4%nat)
        end in
      match variants_loop (8 - i) i base ext lang lang_region with
      | NoVariant =>
          match find_extension base with
          | Some dot => bases_loop fuel (take dot base) ext locale
          | None => NoVariant
          end
      | r => r
      end
  end.

Definition cockpit_web_response_negotiation (path : list Z) (language : option (list Z)) : negotiated :=
  let locale := (λ l, cockpit_locale_from_language (Some l) None) <$> language in
  let '(base, ext) :=
    match find_extension path with
    | Some dot => (take dot path, drop dot path)
    | None => (path, [])
    end in
  bases_loop (S (length base)) base ext locale.
End Negotiation.

(** ** The origin of a page *)

(** The policy with the origin behind each ['self']. *)
Fixpoint with_origin (origin s : list Z) : list Z :=
  match s with
  | [] => []
  | c :: s' =>
      match s' with
      | c1 :: c2 :: c3 :: c4 :: c5 :: rest =>
          if bool_decide ([c; c1; c2; c3; c4; c5] = bs "'self'")
          then bs "'self'" ++ [32] ++ origin ++ with_origin origin rest
          else c :: with_origin origin s'
      | _ => c :: with_origin origin s'
      end
  end.

Lemma with_origin_self origin s : with_origin origin (bs "'self'" ++ s) = bs "'self'" ++ [32] ++ origin ++ with_origin origin s.
Proof. done. Qed.

Lemma with_origin_cons origin c s : prefixb (bs "'self'") (c :: s) = false →
  with_origin origin (c :: s) = c :: with_origin origin s.
Proof.
  intros H. destruct s as [|c1 [|c2 [|c3 [|c4 [|c5 s]]]]]; try done. cbn [with_origin].
  rewrite bool_decide_eq_false_2; [done|]. intros E. injection E as -> -> -> -> -> ->. done.
Qed.

Lemma with_origin_first origin s : with_origin origin s =
  match memmem s (bs "'self'") with
  | None => s
  | Some i => take (i + 6) s ++ [32] ++ origin ++ with_origin origin (drop (i + 6) s)
  end.
Proof.
  induction s as [|c s IH]; [done|]. cbn [memmem]. destruct (prefixb (bs "'self'") (c :: s)) eqn:E.
  - apply prefixb_spec in E as [r E]. rewrite E. by rewrite with_origin_self.
  - rewrite with_origin_cons by done. rewrite IH. by destruct (memmem s (bs "'self'")).
Qed.

Lemma inject_loop_eq origin fuel pre s : (length s < fuel)%nat →
  inject_loop fuel (pre ++ s) (length pre) origin = pre ++ with_origin origin s.
Proof.
  revert pre s. induction fuel as [|fuel IH]; intros pre s Hf; [lia|]. cbn [inject_loop].
  rewrite drop_app_length, with_origin_first. destruct (memmem s (bs "'self'")) as [i|] eqn:E; [|done].
  pose proof E as E'. apply memmem_some in E' as (a & b & -> & Hi). rewrite !length_app in Hf. cbn [length] in Hf.
  replace (i + 6)%nat with (length (a ++ bs "'self'")) by (rewrite length_app; cbn; lia).
  replace (length pre + i + 6)%nat with (length (pre ++ a ++ bs "'self'")) by (rewrite !length_app; cbn; lia).
  rewrite (app_assoc a _ b), (take_app_length (a ++ _) b), (drop_app_length (a ++ _) b).
  rewrite (app_assoc pre _ b), (take_app_length (pre ++ _) b), (drop_app_length (pre ++ _) b).
  set (p := pre ++ a ++ bs "'self'"). replace (length p + 1)%nat with (length (p ++ [32])) by (rewrite length_app; cbn; lia).
  rewrite (app_assoc p [32]), take_app_length, drop_app_length.
  replace (length p + length origin + 1)%nat with (length ((p ++ [32]) ++ origin)) by (rewrite !length_app; cbn; lia).
  rewrite app_assoc, IH by (cbn in Hf; lia). unfold p. by rewrite <- !app_assoc.
Qed.

Lemma origin_injected string origin : string_inject_origin string origin = with_origin origin string.
Proof. apply (inject_loop_eq origin (S (length string)) []). lia. Qed.

(** ** The first variant *)

(** A dot at which a name can be cut: in its last component, and not at its beginning. *)
Definition cut_dot (base : list Z) (i : nat) : bool :=
  bool_decide (base !! i = Some 46) && bool_decide (47 ∉ drop i base) && negb (i =? 0)%nat &&
  negb (bool_decide (base !! (i - 1)%nat = Some 47)).

(** The name without its extensions, one after the other. *)
Definition bases (base : list Z) : list (list Z) :=
  base :: ((λ i, take i base) <$> filter (λ i, cut_dot base i = true) (rev (seq 0 (length base)))).

(** The names that are looked for, in their order. *)
Definition names (ext : list Z) (locale : option (list Z * list Z)) (base : list Z) : list (list Z * bool * bool) :=
  match locale with
  | Some (locale, shorter) =>
      (if bool_decide (locale ≠ shorter) then
         [(base ++ bs "." ++ locale ++ ext, true, false); (base ++ bs "." ++ locale ++ ext ++ bs ".gz", true, true)]
       else []) ++
      [(base ++ bs "." ++ shorter ++ ext, true, false); (base ++ bs "." ++ shorter ++ ext ++ bs ".gz", true, true)]
  | None => []
  end ++
  [(base ++ ext, false, false); (base ++ bs ".min" ++ ext, false, false); (base ++ ext ++ bs ".gz", false, true);
   (base ++ bs ".min" ++ ext ++ bs ".gz", false, true)].

Section First.
Context (g_mapped_file_new : list Z → file_error + list Z) (existing : option (gset (list Z))).

Definition expected (name : list Z) : bool :=
  match existing with Some names => bool_decide (name ∈ names) | None => true end.

(** Of the names that are expected, the first that is not missing. *)
Fixpoint first_variant (candidates : list (list Z * bool * bool)) : negotiated :=
  match candidates with
  | [] => NoVariant
  | (name, is_language_specific, is_compressed) :: candidates =>
      match (if expected name then load_file g_mapped_file_new name else Missing) with
      | Bytes bytes => Served bytes is_language_specific is_compressed
      | LoadError error => NegotiationError error
      | Missing => first_variant candidates
      end
  end.

Lemma first_variant_app a b : first_variant (a ++ b) =
  match first_variant a with NoVariant => first_variant b | r => r end.
Proof.
  induction a as [|[[name l] c] a IH]; [done|]. cbn [app first_variant].
  destruct (if expected name then _ else _); [done| |done]. done.
Qed.

Lemma variants_first n i base ext lang lang_region :
  variants_loop g_mapped_file_new existing n i base ext lang lang_region =
  first_variant (variant base ext lang lang_region <$> seq i n).
Proof.
  revert i. induction n as [|n IH]; intros i; [done|]. cbn [variants_loop seq fmap list_fmap first_variant].
  destruct (variant base ext lang lang_region i) as [[name l] c]. unfold expected. rewrite IH.
  by destruct existing as [names|]; [destruct (bool_decide (name ∈ names))|].
Qed.

Lemma elem_of_rev_iff (s : list Z) c : c ∈ rev s ↔ c ∈ s.
Proof. rewrite !list_elem_of_In. symmetry. apply in_rev. Qed.

Lemma memchr_last s c i : strrchr s c = Some i ↔ s !! i = Some c ∧ c ∉ drop (S i) s.
Proof.
  unfold strrchr. destruct (memchr (rev s) c) as [n|] eqn:E; cbn [fmap option_fmap option_map].
  - apply memchr_Some in E as (a & b & E & Ha & <-). apply (f_equal (@rev Z)) in E. rewrite rev_involutive in E.
    rewrite rev_app_distr in E. cbn [rev] in E. rewrite <- app_assoc in E. cbn [app] in E. subst s.
    assert (Ei : (length (rev b ++ c :: rev a) - 1 - length a)%nat = length (rev b)).
    { rewrite length_app. cbn. rewrite !length_rev. lia. }
    rewrite Ei. assert (Ha' : c ∉ rev a) by (by rewrite elem_of_rev_iff). split.
    + intros [= <-]. split; [by apply list_lookup_middle|]. replace (S (length (rev b))) with (length (rev b ++ [c]))
        by (rewrite length_app; cbn; lia). change (c :: rev a) with ([c] ++ rev a). by rewrite app_assoc, drop_app_length.
    + intros [H1 H2]. f_equal. destruct (Nat.lt_trichotomy i (length (rev b))) as [Hlt|[->|Hgt]]; [|done|].
      * destruct H2. rewrite drop_app_le by lia. apply elem_of_app. right. by left.
      * rewrite lookup_app_r in H1 by lia. destruct (i - length (rev b))%nat as [|k] eqn:Ek; [lia|]. cbn in H1.
        destruct Ha'. by apply list_elem_of_lookup_2 in H1.
  - apply memchr_None in E. rewrite elem_of_rev_iff in E. split; [done|]. intros [H1 _]. destruct E.
    by apply list_elem_of_lookup_2 in H1.
Qed.

Lemma strrchr_None s c : strrchr s c = None ↔ c ∉ s.
Proof.
  unfold strrchr. rewrite fmap_None, memchr_None. by rewrite elem_of_rev_iff.
Qed.

Lemma cut_dot_spec base i : cut_dot base i = true ↔
  base !! i = Some 46 ∧ 47 ∉ drop i base ∧ i ≠ 0%nat ∧ base !! (i - 1)%nat ≠ Some 47.
Proof.
  unfold cut_dot. rewrite !andb_true_iff, !negb_true_iff, !bool_decide_eq_true, bool_decide_eq_false, Nat.eqb_neq. tauto.
Qed.

Lemma not_in_drop (c : Z) s i j : (i ≤ j)%nat → c ∉ drop i s → c ∉ drop j s.
Proof. intros Hij H Hin. apply H. replace j with (i + (j - i))%nat in Hin by lia. rewrite <- drop_drop in Hin.
  rewrite <- (take_drop (j - i) (drop i s)). apply elem_of_app. by right. Qed.

Lemma find_extension_last base d : find_extension base = Some d → cut_dot base d = true ∧ 46 ∉ drop (S d) base.
Proof.
  unfold find_extension. destruct (strrchr base 46) as [dot|] eqn:Ed; [|done]. apply memchr_last in Ed as [Ed1 Ed2].
  destruct (strrchr base 47) as [slash|] eqn:Es.
  - apply memchr_last in Es as [Es1 Es2]. destruct (Nat.ltb_spec dot slash); [done|].
    destruct (Nat.eqb_spec dot 0); [done|]. destruct (Nat.eqb_spec dot (slash + 1)); [done|]. cbn. intros [= <-].
    split; [|done]. apply cut_dot_spec. split_and!; try done.
    + destruct (decide (dot = slash)) as [->|]; [congruence|]. apply (not_in_drop 47 base (S slash)); [lia|done].
    + intros Hs. destruct (decide (dot - 1 = slash)%nat); [lia|]. apply Es2.
      apply list_elem_of_lookup. exists (dot - 1 - S slash)%nat. rewrite lookup_drop. rewrite <- Hs. f_equal.
      destruct (decide (dot = slash)) as [->|]; [congruence|]. lia.
  - apply strrchr_None in Es. destruct (Nat.eqb_spec dot 0); [done|]. intros [= <-]. split; [|done].
    apply cut_dot_spec. split_and!; try done.
    + by apply (not_in_drop 47 base 0); [lia|].
    + intros Hs. apply Es. by apply list_elem_of_lookup_2 in Hs.
Qed.

Lemma find_extension_none base j : find_extension base = None → cut_dot base j = false.
Proof.
  intros H. destruct (cut_dot base j) eqn:E; [|done]. apply cut_dot_spec in E as (E1 & E2 & E3 & E4). revert H.
  unfold find_extension. destruct (strrchr base 46) as [dot|] eqn:Ed.
  2:{ apply strrchr_None in Ed. intros _. destruct Ed. by apply list_elem_of_lookup_2 in E1. }
  apply memchr_last in Ed as [Ed1 Ed2].
  assert (Hj : (j ≤ dot)%nat).
  { destruct (decide (j ≤ dot)%nat); [done|]. destruct Ed2. apply list_elem_of_lookup. exists (j - S dot)%nat.
    rewrite lookup_drop. rewrite <- E1. f_equal. lia. }
  destruct (strrchr base 47) as [slash|] eqn:Es.
  - apply memchr_last in Es as [Es1 Es2].
    assert (Hs : (slash < j)%nat).
    { destruct (decide (slash < j)%nat); [done|]. destruct E2. apply list_elem_of_lookup. exists (slash - j)%nat.
      rewrite lookup_drop. rewrite <- Es1. f_equal. lia. }
    rewrite (proj2 (Nat.ltb_ge _ _)), (proj2 (Nat.eqb_neq dot 0)) by lia. cbn [orb].
    destruct (Nat.eqb_spec dot (slash + 1)) as [->|]; [|done]. intros _. destruct E4. rewrite <- Es1. f_equal. lia.
  - by rewrite (proj2 (Nat.eqb_neq dot 0)) by lia.
Qed.

Lemma cut_dot_take base d j : 47 ∉ drop d base → (j < d)%nat → cut_dot (take d base) j = cut_dot base j.
Proof.
  intros Hd Hj. apply eq_true_iff_eq. rewrite !cut_dot_spec, !lookup_take_lt by lia.
  assert (E : 47 ∉ drop j (take d base) ↔ 47 ∉ drop j base).
  { rewrite <- (take_drop d base) at 2. destruct (decide (d ≤ length base)%nat) as [Hl|Hl].
    - rewrite drop_app_le by (rewrite length_take; lia). rewrite not_elem_of_app. tauto.
    - rewrite (drop_ge base d) by lia. by rewrite app_nil_r. }
  tauto.
Qed.

Lemma filter_agree (P Q : nat → bool) (l : list nat) : (∀ j, j ∈ l → P j = Q j) →
  filter (λ i, P i = true) l = filter (λ i, Q i = true) l.
Proof.
  induction l as [|j l IH]; intros H; [done|]. rewrite !filter_cons. rewrite IH by (intros k Hk; apply H; by right).
  rewrite <- (H j) by by left. by destruct (P j).
Qed.

Lemma filter_last (P : nat → bool) n d : (d < n)%nat → P d = true → (∀ j, (d < j)%nat → P j = false) →
  filter (λ i, P i = true) (rev (seq 0 n)) = d :: filter (λ i, P i = true) (rev (seq 0 d)).
Proof.
  intros Hd Hp Hj. induction n as [|n IH]; [lia|]. rewrite seq_S, rev_app_distr. cbn [rev app]. rewrite filter_cons.
  destruct (decide (n = d)) as [->|Hne].
  - by rewrite decide_True.
  - rewrite decide_False by (rewrite Hj by lia; done). apply IH. lia.
Qed.

Lemma bases_eq base : bases base =
  base :: match find_extension base with Some dot => bases (take dot base) | None => [] end.
Proof.
  unfold bases at 1. f_equal. destruct (find_extension base) as [d|] eqn:E.
  - destruct (find_extension_last base d E) as [Hc Hn]. pose proof Hc as (H1 & H2 & _)%cut_dot_spec.
    assert (Hl : (d < length base)%nat) by (by eapply lookup_lt_Some).
    assert (Hafter : ∀ j, (d < j)%nat → cut_dot base j = false).
    { intros j Hj. destruct (cut_dot base j) eqn:Ej; [|done]. apply cut_dot_spec in Ej as (E1 & _). destruct Hn.
      apply list_elem_of_lookup. exists (j - S d)%nat. rewrite lookup_drop, <- E1. f_equal. lia. }
    rewrite (filter_last (cut_dot base) (length base) d) by done.
    unfold bases. cbn [fmap list_fmap]. rewrite length_take, (Nat.min_l d) by lia. f_equal.
    assert (E3 : filter (λ i, cut_dot base i = true) (rev (seq 0 d)) = filter (λ i, cut_dot (take d base) i = true) (rev (seq 0 d))).
    { apply filter_agree. intros j Hj. symmetry. apply cut_dot_take; [done|].
      apply list_elem_of_In, in_rev, in_seq in Hj. lia. }
    rewrite E3. apply list_fmap_ext. intros k i Hk. rewrite take_take. f_equal.
    apply list_elem_of_lookup_2, list_elem_of_filter in Hk as [_ Hk]. apply list_elem_of_In, in_rev, in_seq in Hk. lia.
  - assert (E3 : filter (λ i, cut_dot base i = true) (rev (seq 0 (length base))) = []); [|by rewrite E3].
    induction (rev _) as [|j l IH]; [done|]. rewrite filter_cons, decide_False by (by rewrite find_extension_none). done.
Qed.

Lemma names_variants ext locale base :
  let '(lang, lang_region, i) :=
    match locale with
    | Some (locale, shorter) => if bool_decide (locale ≠ shorter) then (shorter, locale, 0%nat) else (locale, [], 2%nat)
    | None => ([], [], 4%nat)
    end in
  variant base ext lang lang_region <$> seq i (8 - i) = names ext locale base.
Proof.
  unfold names. destruct locale as [[locale shorter]|]; [|done].
  destruct (bool_decide (locale ≠ shorter)) eqn:E; [done|]. apply bool_decide_eq_false in E.
  destruct (decide (locale = shorter)) as [->|]; [done|by destruct E].
Qed.

Lemma bases_loop_first fuel base ext locale : (length base < fuel)%nat →
  bases_loop g_mapped_file_new existing fuel base ext locale = first_variant (bases base ≫= names ext locale).
Proof.
  revert base. induction fuel as [|fuel IH]; intros base Hf; [lia|]. cbn [bases_loop].
  pose proof (names_variants ext locale base) as En. rewrite bases_eq. cbn [mbind list_bind]. rewrite first_variant_app.
  destruct (match locale with Some _ => _ | None => _ end) as [[lang lang_region] i].
  rewrite <- En, <- variants_first. destruct (variants_loop _ _ _ _ _ _ _ _); try done.
  destruct (find_extension base) as [d|] eqn:E; [|done]. apply IH.
  destruct (find_extension_last base d E) as [(H1 & _)%cut_dot_spec _]. apply lookup_lt_Some in H1. rewrite length_take. lia.
Qed.

(** The file that is served is the first that is there, of those for the language with its
    region, for the language, and for none, each plain before compressed, for the name and then
    for the name without its inner extensions; only expected files are looked at, and an error ends
    the search. *)
Theorem negotiation_first path language :
  cockpit_web_response_negotiation g_mapped_file_new existing path language =
  let '(base, ext) := match find_extension path with Some dot => (take dot path, drop dot path) | None => (path, []) end in
  first_variant (bases base ≫= names ext ((λ l, cockpit_locale_from_language (Some l) None) <$> language)).
Proof.
  unfold cockpit_web_response_negotiation. destruct (match find_extension path with Some _ => _ | None => _ end) as [base ext].
  apply bases_loop_first. lia.
Qed.
End First.

(** ** Decompression *)

Section Decompression.
Context {S_ : Type} (g_converter_convert : S_ → list Z → Z → conversion * S_) (g_zlib_decompressor_new : S_).

(** A decompressor, from a state, an input, and what is still to be written: it goes on as long as it
    has room, and the input lasts until the output is complete. *)
Definition decompressor (R : S_ → list Z → list Z → Prop) : Prop :=
  ∀ s in_ out n, R s in_ out → 0 < n → in_ ≠ [] ∧
    match g_converter_convert s in_ n with
    | (G_CONVERTER_ERROR, _) => False
    | (G_CONVERTER_CONVERTED read written, s') =>
        ∃ out', out = written ++ out' ∧ R s' (drop read in_) out' ∧ (0 < read ≤ length in_ ∨ written ≠ [])%nat
    | (G_CONVERTER_FINISHED read written, _) => out = written
    end.

Lemma gunzip_loop_complete R fuel s in_ out before : decompressor R → R s in_ out →
  (length in_ + length out < fuel)%nat →
  gunzip_loop g_converter_convert fuel s in_ before = Ok (Some (before ++ out)).
Proof.
  intros HR. revert s in_ out before. induction fuel as [|fuel IH]; intros s in_ out before H Hf; [lia|]. cbn [gunzip_loop].
  destruct (HR s in_ out 1 H ltac:(lia)) as [Hne _].
  assert (Hl : 0 < zlen in_). { destruct in_; [done|]. rewrite zlen_cons. pose proof (zlen_nonneg in_). lia. }
  rewrite (proj2 (Z.ltb_lt _ _)) by done. cbn [cassert mbind comp_bind]. destruct (HR s in_ out (zlen in_) H Hl) as [_ Hc].
  destruct (g_converter_convert s in_ (zlen in_)) as [[|read written|read written] s'].
  - done.
  - destruct Hc as (out' & -> & H' & Hp). rewrite (IH _ _ out' (before ++ written) H').
    + by rewrite <- app_assoc.
    + rewrite length_drop. rewrite length_app in Hf. destruct Hp as [Hp|Hp]; [lia|].
      destruct written; [done|cbn in Hf; lia].
  - by subst out.
Qed.

(** With a decompressor that makes progress, the loop ends and gives all of the output; its fuel
    is the length of the input and of the output. *)
Lemma gunzip_complete R bytes out fuel : decompressor R → R g_zlib_decompressor_new bytes out →
  (length bytes + length out < fuel)%nat →
  cockpit_web_response_gunzip g_converter_convert g_zlib_decompressor_new fuel bytes = Ok (Some out).
Proof. intros HR H Hf. by apply (gunzip_loop_complete R fuel _ bytes out []). Qed.
End Decompression.

(** ** What is opened *)

Lemma split_no_dot s : (∀ a b, s ≠ a ++ bs "/." ++ b) → Forall (λ c, head c ≠ Some 46) (tail (split_on 47 s)).
Proof.
  induction s as [|c s IH]; intros H; [constructor|]. cbn [split_on].
  assert (IH' : Forall (λ c, head c ≠ Some 46) (tail (split_on 47 s))).
  { apply IH. intros a b ->. by apply (H (c :: a) b). }
  destruct (split_on_cons 47 s) as (part & parts & E & Hp). rewrite E in *. cbn [tail] in IH'.
  destruct (Z.eqb_spec c 47) as [->|]; [|done]. cbn [tail]. constructor; [|done]. destruct Hp as [->|Hp]; [done|].
  rewrite Hp. destruct s as [|c s]; [done|]. cbn. intros [= ->]. by apply (H [] s).
Qed.

(** A root that has been resolved: no slash at its end, unless it is the root of all files. *)
Definition root_ok (root : list Z) : Prop := root = [47] ∨ root ≠ [] ∧ last root ≠ Some 47.
Definition below (root : list Z) : list Z := if bool_decide (root = [47]) then [] else root.

(** What may be opened: the file below a root, and its compressed form. *)
Definition file_of (roots : list (list Z)) (u p : list Z) : Prop :=
  ∃ root, root ∈ roots ∧ (p = below root ++ u ∨ p = below root ++ u ++ bs ".gz").

Lemma below_has_prefix root u : root_ok root → head u = Some 47 → path_has_prefix (below root ++ u) (Some root) = true.
Proof.
  intros Hr Hu. destruct u as [|c u]; [done|]. injection Hu as ->. unfold below.
  destruct (decide (root = [47])) as [->|Hne]; [done|].
  destruct Hr as [?|[Hr _]]; [done|]. rewrite bool_decide_eq_false_2 by done. unfold path_has_prefix.
  destruct root as [|r root]; [done|]. rewrite prefixb_app. cbn [andb]. apply orb_true_iff. right.
  apply bool_decide_eq_true. by apply list_lookup_middle.
Qed.

Lemma opened_kept {A B} (m : comp unit A) (a : A) (o o' : B) : (r ← m; Ok (r, o)) = Ok (a, o') → o' = o.
Proof. destruct m; [by intros [= _ <-]|done..]. Qed.

Section Served.
Context {F : Type} {filter_of : WebFilter F}.
Notation CockpitWebResponse := (CockpitWebResponse (F := F)).
Context (g_uri_escape_string : list Z → list Z) (fail_html : list Z).
Context (g_uri_unescape_string : list Z → list Z → option (list Z)) (g_build_filename : list Z → list Z → list Z)
  (realpath : list Z → option (list Z)).
Context (is_dir : list Z → bool) (g_mapped_file_new : list Z → file_error + list Z).
Context (gunzip : list Z → comp unit (option (list Z))) (beyond : list Z).
Notation web_response_file :=
  (web_response_file g_uri_escape_string fail_html g_uri_unescape_string g_build_filename is_dir g_mapped_file_new gunzip beyond).
Notation roots_loop := (roots_loop g_build_filename is_dir g_mapped_file_new).

(** What is documented of the functions on names. *)
Record names_ok : Prop := {
  build_ok root name : root_ok root → head name = Some 47 → (∀ a b, name ≠ a ++ bs "//" ++ b) →
    g_build_filename root name = below root ++ name;
  unescape_ok escaped u : g_uri_unescape_string escaped (bs "/") = Some u → head escaped = Some 47 → head u = Some 47;
  realpath_ok name root : realpath name = Some root → root_ok root
}.
Context (names : names_ok).

Lemma roots_resolved input : Forall root_ok (cockpit_web_response_resolve_roots realpath input).
Proof.
  unfold cockpit_web_response_resolve_roots. induction input as [|name input IH]; [constructor|]. cbn.
  destruct (realpath name) as [root|] eqn:E; [|done]. constructor; [by eapply realpath_ok|done].
Qed.

Lemma forbidden_not u : forbidden u = false → (∀ a b, u ≠ a ++ bs "/." ++ b) ∧ ∀ a b, u ≠ a ++ bs "//" ++ b.
Proof.
  unfold forbidden. intros [[H1 _]%orb_false_elim H2]%orb_false_elim. apply bool_decide_eq_false in H1, H2.
  split; apply memmem_None; [destruct (memmem u (bs "/.")); [by destruct H1|done]|destruct (memmem u (bs "//")); [by destruct H2|done]].
Qed.

Lemma roots_loop_opens roots u search before : Forall root_ok roots → head u = Some 47 → forbidden u = false →
  ∃ f opened, roots_loop roots u search before = Ok (f, before ++ opened) ∧ Forall (file_of roots u) opened.
Proof.
  intros Hr Hu Hf. destruct (forbidden_not u Hf) as [_ Hs]. revert before.
  induction Hr as [|root roots Hroot _ IH]; intros before; cbn [roots_loop].
  { eexists _, []. by rewrite app_nil_r. }
  rewrite (build_ok names root u) by done. set (p := below root ++ u).
  assert (Hmore : ∀ q, file_of roots u q → file_of (root :: roots) u q).
  { intros q (r & Hin & Hq). exists r. split; [by right|done]. }
  assert (H1 : file_of (root :: roots) u p). { exists root. split; [by left|by left]. }
  assert (H2 : file_of (root :: roots) u (p ++ bs ".gz")).
  { exists root. split; [by left|right]. unfold p. by rewrite <- app_assoc. }
  destruct (is_dir p). { eexists _, []. by rewrite app_nil_r. }
  rewrite (below_has_prefix root u Hroot Hu : path_has_prefix p (Some root) = true). cbn [cassert mbind comp_bind].
  assert (Hnext : ∀ (l : list (list Z)), Forall (file_of (root :: roots) u) l → ∃ f opened,
    roots_loop roots u search (before ++ l) = Ok (f, before ++ opened) ∧ Forall (file_of (root :: roots) u) opened).
  { intros l Hl. destruct (IH (before ++ l)) as (f & opened & -> & Ho). exists f, (l ++ opened).
    rewrite <- app_assoc. split; [done|]. apply Forall_app. split; [done|]. eapply Forall_impl; [exact Ho|done]. }
  assert (Hend : ∀ f (l : list (list Z)), Forall (file_of (root :: roots) u) l → ∃ f' opened,
    Ok (E := unit) (f : found, before ++ l) = Ok (f', before ++ opened) ∧ Forall (file_of (root :: roots) u) opened).
  { intros f l Hl. by exists f, l. }
  destruct (g_mapped_file_new p) as [[]|data]; try (apply Hend; by repeat constructor); try (apply Hnext; by repeat constructor).
  destruct search; [|by apply Hnext; repeat constructor].
  destruct (g_mapped_file_new (p ++ bs ".gz")) as [[]|data]; try (apply Hend; by repeat constructor);
    apply Hnext; by repeat constructor.
Qed.

(** C23: whatever the path of a request unescapes to, the files that are opened are below the roots: no
    component of their names is empty, is hidden, or leads upwards. *)
Theorem files_below_roots input response escaped search_gzip accept_gzip template_func response' opened :
  let roots := cockpit_web_response_resolve_roots realpath input in
  (p ← match escaped with Some e => Some e | None => path response end; head p) = Some 47 →
  web_response_file response escaped roots search_gzip accept_gzip template_func = Ok (response', opened) →
  ∃ u, Forall (file_of roots u) opened ∧ (opened = [] ∨
    head u = Some 47 ∧ (∀ a b, u ≠ a ++ bs "//" ++ b) ∧ Forall (λ c, head c ≠ Some 46) (split_on 47 u)).
Proof.
  intros roots Hpath. unfold WebFiles.web_response_file, alive.
  destruct (cassert _); cbn [mbind comp_bind]; try done.
  destruct (match escaped with Some e => Some e | None => path response end) as [e|]; [|intros [= _ <-]; exists []; by auto].
  cbn [mbind option_bind] in Hpath. destruct (g_uri_unescape_string e (bs "/")) as [u|] eqn:Eu.
  2:{ destruct (cockpit_web_response_error _ _ _ _ _ _); try done. intros [= _ <-]. exists []. by auto. }
  destruct (forbidden u) eqn:Ef.
  { destruct (cockpit_web_response_error _ _ _ _ _ _); try done. intros [= _ <-]. exists []. by auto. }
  assert (Hu : head u = Some 47) by by eapply unescape_ok.
  destruct (roots_loop_opens roots u search_gzip [] (roots_resolved input) Hu Ef) as (f & opened' & -> & Ho).
  intros ([f2 o2] & E2 & H)%comp_bind_Ok. injection E2 as <- <-. cbv beta iota in H. apply opened_kept in H. subst opened.
  exists u. split; [done|]. right. destruct (forbidden_not u Ef) as [Hd Hs]. split_and!; [done|done|].
  pose proof (split_no_dot u Hd) as Ht. destruct (split_on_cons 47 u) as (part & parts & E & Hp). rewrite E in *.
  constructor; [|done]. destruct Hp as [->|Hp]; [done|]. rewrite Hp, Hu. done.
Qed.
End Served.

(** ** What a client reads of a file *)

Section ServedRead.
Context {F : Type} {filter_of : WebFilter F}.
Notation CockpitWebResponse := (CockpitWebResponse (F := F)).
Notation event := (event (F := F)).

(** The headers that are given with a file. *)
Definition file_headers (origin : option (list Z)) (u : list Z) (is_gzip : bool) : list (list Z * option (list Z)) :=
  match origin with Some o => [(bs "Access-Control-Allow-Origin", Some o)] | None => [] end ++
  (if has_suffix u (bs ".html")
   then [(bs "Content-Security-Policy",
     Some (cockpit_web_response_security_policy (Some (bs "default-src 'self' 'unsafe-inline';")) origin))]
   else []) ++
  (if is_gzip then [(bs "Content-Encoding", Some (bs "gzip"))] else []).

Lemma append_table_app string a b : append_table string (a ++ b) =
  let '(string, s1) := append_table string a in let '(string, s2) := append_table string b in (string, Z.lor s1 s2).
Proof.
  revert string. induction a as [|[name value] a IH]; intros string; cbn [app append_table].
  - by destruct (append_table string b).
  - destruct (append_header string name value) as [string1 s]. rewrite IH. destruct (append_table string1 a) as [string2 s1].
    destruct (append_table string2 b) as [string3 s2]. by rewrite Z.lor_assoc.
Qed.

Lemma append_table_one string name value : append_table string [(name, value)] = append_header string name value.
Proof. cbn. destruct (append_header string name value) as [string1 s]. by rewrite Z.lor_0_r. Qed.

Lemma file_sent beyond (r : CockpitWebResponse) u body is_gzip : count r = 0 → 0 < references r →
  send_file beyond r u body is_gzip None =
  r ← cockpit_web_response_headers_full r 200 (bs "OK") (gint (zlen body)) (file_headers (origin r) u is_gzip);
  content_loop r [body].
Proof.
  intros Hc Hr. unfold send_file, cockpit_web_response_headers_full, alive. rewrite (proj2 (Z.ltb_lt _ _)) by done.
  cbn [cassert mbind comp_bind]. rewrite Hc. cbn [Z.gtb Z.compare]. unfold file_headers. rewrite append_table_app.
  set (string := begin_headers 200 (bs "OK")).
  assert (E1 : append_table string match origin r with Some o => [(bs "Access-Control-Allow-Origin", Some o)] | None => [] end =
    match origin r with Some o => append_header string (bs "Access-Control-Allow-Origin") (Some o) | None => (string, 0) end).
  { destruct (origin r); [apply append_table_one|done]. }
  rewrite E1. clear E1.
  destruct (match origin r with Some o => append_header string (bs "Access-Control-Allow-Origin") (Some o) | None => (string, 0) end)
    as [string1 s1].
  set (policy := cockpit_web_response_security_policy _ _).
  assert (E2 : append_table string1 (if has_suffix u (bs ".html") then [(bs "Content-Security-Policy", Some policy)] else []) =
    if has_suffix u (bs ".html") then append_header string1 (bs "Content-Security-Policy") (Some policy) else (string1, 0)).
  { destruct (has_suffix _ _); [apply append_table_one|done]. }
  rewrite append_table_app, E2. clear E2.
  destruct (if has_suffix u (bs ".html") then append_header string1 (bs "Content-Security-Policy") (Some policy) else (string1, 0))
    as [string2 s2].
  assert (E3 : append_table string2 (if is_gzip then [(bs "Content-Encoding", Some (bs "gzip"))] else []) =
    if is_gzip then append_header string2 (bs "Content-Encoding") (Some (bs "gzip")) else (string2, 0)).
  { destruct is_gzip; [apply append_table_one|done]. }
  rewrite E3. clear E3.
  destruct (if is_gzip then append_header string2 (bs "Content-Encoding") (Some (bs "gzip")) else (string2, 0)) as [string3 s3]. by destruct (finish_headers _ _ _ _ _).
Qed.

Section Runs.
Context (g_uri_escape_string : list Z → list Z) (fail_html : list Z).
Notation run := (run g_uri_escape_string fail_html).

Lemma run_trans (r0 : CockpitWebResponse) es1 r1 es2 held r :
  run r0 es1 true r1 → run r1 es2 held r → run r0 (es1 ++ es2) held r.
Proof.
  intros H1. induction 1 as [|es held r e held' r' _ IH He E]; [by rewrite app_nil_r|].
  rewrite app_assoc. by eapply run_snoc.
Qed.

(** The calls of [send_file] are those of a script. *)
Lemma file_script beyond (r0 : CockpitWebResponse) u body is_gzip : good r0 → count r0 = 0 →
  ∃ r1, send_file beyond r0 u body is_gzip None = Ok r1 ∧
    run r0 (script 200 (bs "OK") (gint (zlen body)) (file_headers (origin r0) u is_gzip) [body]) true r1.
Proof.
  intros [Ho _] Hc. destruct (open_idle r0 Ho) as (_ & _ & Hr & Hfa). destruct Ho as (I & Hco & Hdo).
  rewrite file_sent by done. set (hs := file_headers _ _ _). set (len := gint _).
  destruct (headers_open r0 200 (bs "OK") len hs) as (r1 & E1 & Ho1); [done|]. rewrite E1. cbn [mbind comp_bind content_loop].
  destruct (queue_inv r1 body) as (more & r2 & E2 & I2 & H2); [apply Ho1|].
  assert (Em : more = true) by by apply H2.
  subst more. rewrite E2. cbn [mbind comp_bind]. destruct (complete_inv r2 I2) as (r3 & E3 & _). exists r3. split; [done|].
  apply (run_snoc _ _ _ [Headers 200 (bs "OK") len hs; Queue body] true r2 Complete); [|done|cbn [handle]; by rewrite E3].
  apply (run_snoc _ _ _ [Headers 200 (bs "OK") len hs] true r1 (Queue body)); [|done|cbn [handle]; by rewrite E2].
  apply (run_snoc _ _ _ [] true r0 (Headers 200 (bs "OK") len hs)); [apply run_nil| |cbn [handle]; by rewrite E1].
  cbn. by rewrite Hc, Hco, Hfa.
Qed.

Context (g_utf8_validate : list Z → bool) (utf8_ascii : ∀ s, Forall (λ c, 0 < c < 128) s → g_utf8_validate s = true).
Context (g_uri_unescape_string : list Z → list Z → option (list Z)) (g_build_filename : list Z → list Z → list Z).
Context (is_dir : list Z → bool) (g_mapped_file_new : list Z → file_error + list Z).
Context (gunzip : list Z → comp unit (option (list Z))) (beyond : list Z).
Notation web_response_file :=
  (web_response_file g_uri_escape_string fail_html g_uri_unescape_string g_build_filename is_dir g_mapped_file_new gunzip beyond).

(** C24: when a file is found for the path of a request, the client reads the status 200 and the bytes of
    the file, through the filters: compressed only if it has said that it takes that, and otherwise
    what they decompress to. *)
Theorem served_file_read_back original_path path in_headers method protocol fs escaped roots search_gzip accept_gzip
    u data body is_gzip opened :
  let r0 := with_filters (cockpit_web_response_new original_path path in_headers method protocol) fs in
  let hs := file_headers (origin r0) u (is_gzip && accept_gzip) in
  let len := gint (zlen body) in
  nul_free fail_html → method ≠ bs "HEAD" →
  (e ← match escaped with Some e => Some e | None => path end; g_uri_unescape_string e (bs "/")) = Some u →
  forbidden u = false →
  roots_loop g_build_filename is_dir g_mapped_file_new roots u search_gzip [] = Ok (Found data is_gzip, opened) →
  (if is_gzip && negb accept_gzip then gunzip data = Ok (Some body) else body = data) →
  well_given g_utf8_validate r0 200 (bs "OK") len hs [body] →
  ∃ r1, web_response_file r0 escaped roots search_gzip accept_gzip None = Ok (r1, opened) ∧
    ∀ es held r rest, run r1 es held r → filter is_api es = [] → Done true ∈ signals r →
      read_response g_utf8_validate (sent r ++ rest) =
      Some (200, bs "OK",
        table_of (given_headers hs ++ automatic_headers r0 len 200 (append_table (begin_headers 200 (bs "OK")) hs).2),
        concat (queue_filter fs [body]).1, rest).
Proof.
  intros r0 hs len Hfail Hm Hu Hf Hroots Hbody Hw. set (new := cockpit_web_response_new _ _ _ _ _) in r0.
  assert (E0 : r0 = set_filters fs new) by by apply with_filters_eq.
  assert (Hg : good r0).
  { rewrite E0. apply filters_good. split; [|split; [apply new_inv|by exists []]]. split; [apply new_inv|done]. }
  assert (Hc : count r0 = 0) by by rewrite E0.
  destruct (file_script beyond r0 u body (is_gzip && accept_gzip) Hg Hc) as (r1 & E1 & Hrun1). exists r1. split.
  - unfold WebFiles.web_response_file, alive. destruct (open_idle r0 (proj1 Hg)) as (_ & _ & Hr & _).
    rewrite (proj2 (Z.ltb_lt _ _)) by done. cbn [cassert mbind comp_bind].
    assert (Ep : WebResponse.path r0 = path) by by rewrite E0. rewrite Ep.
    destruct (match escaped with Some e => Some e | None => path end) as [e|]; [|done]. cbn [mbind option_bind] in Hu.
    rewrite Hu, Hf, Hroots. cbn [mbind comp_bind]. rewrite (bool_decide_eq_false_2 (is_Some None)) by (by intros []).
    rewrite orb_false_r. destruct is_gzip, accept_gzip; cbn [andb negb] in *; try subst body; try rewrite Hbody;
      cbn [mbind comp_bind]; by rewrite E1.
  - intros es held r rest Hrun Hes Hdone. pose proof (run_trans _ _ _ _ _ _ Hrun1 Hrun) as Hall.
    etrans; [|etrans; [exact (message_read g_utf8_validate utf8_ascii r0 200 (bs "OK") len hs [body] rest Hw)|]].
    + f_equal. f_equal.
      apply (fresh_sent g_utf8_validate g_uri_escape_string fail_html original_path path in_headers method protocol fs
        200 (bs "OK") len hs [body] _ held r Hfail Hm Hw Hall); [|done].
      rewrite filter_app, Hes, app_nil_r. done.
    + by rewrite E0.
Qed.
End Runs.
End ServedRead.

(** ** A file *)

(** A decompressor that copies one byte at a time. *)
Definition copy (s : unit) (in_ : list Z) (n : Z) : conversion * unit :=
  match in_ with
  | [] => (G_CONVERTER_ERROR, s)
  | [c] => (G_CONVERTER_FINISHED 1 [c], s)
  | c :: _ => (G_CONVERTER_CONVERTED 1 [c], s)
  end.

Lemma gunzip_copies :
  cockpit_web_response_gunzip copy tt 13 (bs "copied") = Ok (Some (bs "copied")).
Proof.
  apply (gunzip_complete copy tt (λ _ in_ out, in_ ≠ [] ∧ out = in_)); [|split; [discriminate|reflexivity]|cbn; lia].
  intros s in_ out n [Hne ->] Hn. split; [done|]. destruct in_ as [|c [|d in_]]; [done|done|]. cbn.
  exists (d :: in_). split_and!; [done|done|done|]. left. lia.
Qed.

Definition example_page : list Z := bs "<html><head>text".

(** A tree with one compressed file below its second root. *)
Definition example_files (name : list Z) : file_error + list Z :=
  if bool_decide (name = bs "/usr/share/x.html.gz") then inr example_page else inl NOENT.

Definition example_realpath (name : list Z) : option (list Z) :=
  if bool_decide (name = bs "/etc/missing") then None else Some (if bool_decide (last name = Some 47) then [47] else [47] ++ name).

Definition example_build (root name : list Z) : list Z := below root ++ name.

Lemma example_names : names_ok (λ s _, Some s) example_build example_realpath.
Proof.
  constructor.
  - done.
  - by intros escaped u [= ->].
  - intros name root. unfold example_realpath. destruct (bool_decide (name = _)); [done|].
    destruct (decide (last name = Some 47)) as [|Hl]; [rewrite bool_decide_eq_true_2 by done; intros [= <-]; by left|].
    rewrite bool_decide_eq_false_2 by done. intros [= <-]. destruct name as [|c name]; [by left|]. right. done.
Qed.

Notation example_response file :=
  (web_response_file (λ s, s) (bs "<p>@@message@@</p>") (λ s _, Some s) example_build (λ _, false) example_files
     (cockpit_web_response_gunzip copy tt 100) [0] example_new None
     (cockpit_web_response_resolve_roots example_realpath [bs "etc"; bs "/etc/missing"; bs "usr/share"]) file false None).

Definition example_served : WebResponse.CockpitWebResponse (F := CockpitWebInject) * list (list Z) :=
  match example_response true with Ok x => x | _ => (example_new, []) end.

Lemma files_below_roots_witness :
  ∃ u, Forall (file_of [bs "/etc"; bs "/usr/share"] u)
    [bs "/etc/x.html"; bs "/etc/x.html.gz"; bs "/usr/share/x.html"; bs "/usr/share/x.html.gz"] ∧
  ([bs "/etc/x.html"; bs "/etc/x.html.gz"; bs "/usr/share/x.html"; bs "/usr/share/x.html.gz"] = [] ∨
   head u = Some 47 ∧ (∀ a b, u ≠ a ++ bs "//" ++ b) ∧ Forall (λ c, head c ≠ Some 46) (split_on 47 u)).
Proof.
  apply (files_below_roots (λ s, s) (bs "<p>@@message@@</p>") (λ s _, Some s) example_build example_realpath (λ _, false) example_files
    (cockpit_web_response_gunzip copy tt 100) [0] example_names [bs "etc"; bs "/etc/missing"; bs "usr/share"]
    example_new None true false None example_served.1).
  - reflexivity.
  - vm_compute. reflexivity.
Defined.

Definition example_filtered : WebResponse.CockpitWebResponse (F := CockpitWebInject) := with_filters example_new [example_filter].

Notation file_response :=
  (web_response_file (λ s, s) (bs "<p>@@message@@</p>") (λ s _, Some s) example_build (λ _, false) example_files
     (cockpit_web_response_gunzip copy tt 100) [0] example_filtered None [bs "/usr/share"] true false None).

Definition example_queued : WebResponse.CockpitWebResponse (F := CockpitWebInject) :=
  match file_response with Ok x => x.1 | _ => example_new end.

Definition example_loop : list (WebResponse.event (F := CockpitWebInject)) :=
  Unref :: (Output <$> (Wrote <$> ((zlen <$> queue example_queued) ++ [0]))) ++ [Flushed true].

Definition example_end : WebResponse.CockpitWebResponse (F := CockpitWebInject) :=
  match exec (λ s, s) (bs "<p>@@message@@</p>") true example_queued example_loop with
  | Some (_, r) => r
  | None => example_new
  end.

Lemma served_file_read_back_witness :
  ∃ t, read_response (λ _, true) (sent example_end ++ bs "HTTP/1.1") =
    Some (200, bs "OK", t, bs "<html><head><base href>text", bs "HTTP/1.1").
Proof.
  destruct (served_file_read_back (λ s, s) (bs "<p>@@message@@</p>") (λ _, true) (λ _ _, eq_refl) (λ s _, Some s) example_build
    (λ _, false) example_files (cockpit_web_response_gunzip copy tt 100) [0]
    (Some (bs "/cockpit/x.html")) (Some (bs "/x.html")) (Some [(bs "Connection", bs "keep-alive")]) (bs "GET") None
    [example_filter] None [bs "/usr/share"] true false (bs "/x.html") example_page example_page true
    [bs "/usr/share/x.html"; bs "/usr/share/x.html.gz"]) as (r1 & E & H).
  - by_decide.
  - done.
  - reflexivity.
  - vm_compute. reflexivity.
  - vm_compute. reflexivity.
  - vm_compute. reflexivity.
  - split; [lia|split; [by_decide|reflexivity|done]| | |right; split; vm_compute; reflexivity|by_decide|vm_compute; reflexivity].
    + vm_compute. repeat (constructor; [split; [by_decide|done]|]). constructor.
    + by_decide.
  - eexists. etrans; [apply (H example_loop false example_end)|].
    + vm_compute in E. injection E as <-. apply exec_run. vm_compute. reflexivity.
    + vm_compute. reflexivity.
    + vm_compute. repeat constructor.
    + reflexivity.
Defined.

(** ** Findings *)

(** The length of a file is kept in a [gint]: one of 4 GiB and 5 bytes is announced with 5. *)
Lemma huge_file : gint (2 ^ 32 + 5) = 5.
Proof. reflexivity. Qed.

(** A decompressor that has read all of a file and needs more is called with no room for output,
    which it does not allow. *)
Lemma truncated_gunzip (hungry : unit → list Z → Z → conversion * unit) :
  (∀ s in_ n, hungry s in_ n = (G_CONVERTER_CONVERTED (length in_) [], s)) →
  cockpit_web_response_gunzip hungry tt 2 [31; 139] = Fault.
Proof. intros H. unfold cockpit_web_response_gunzip. cbn. by rewrite H. Qed.

(** The names of compressed minified files are not those of the documentation. *)
Lemma minified_name : (λ n, n.1.1) <$> last (names (bs ".js") None (bs "cockpit")) = Some (bs "cockpit.min.js.gz").
Proof. reflexivity. Qed.
