(* ===== verification/WebServer.v ===== *)
(** * Requests: parts of [src/common/cockpitwebserver.c]

    What the rest of the web service asks of a request: headers, cookies, where it comes
    from and the client certificate that the TLS proxy has reported.  Tables of headers
    compare names without case and hold each name once.  GLib's [g_uri_unescape_segment]
    is a parameter; the address of the peer of a socket is part of the request. *)

From S2P Require Import Prelude Json Http.
#[local] Open Scope Z_scope.

(** ** Requests *)

Record io_stream := mkIo {
  io_id : nat;                         (* which connection this is *)
  io_socket : bool;                    (* [G_IS_SOCKET_CONNECTION]; TLS otherwise *)
  io_metadata : option object;         (* what the TLS proxy has sent *)
  io_remote : option (list Z)          (* the peer, if it is an internet address *)
}.

Record CockpitWebRequest := mkRequest {
  req_path : list Z;
  req_headers : headers;
  req_io : option io_stream;
  forwarded_for_header : option (list Z)  (* of the server *)
}.

Definition cockpit_web_request_lookup_header (r : CockpitWebRequest) (name : list Z)
    : option (list Z) := table_lookup (req_headers r) name.

(** The part after the last space. *)
Fixpoint after_last_space (s : list Z) : option (list Z) :=
  match s with
  | [] => None
  | c :: s' =>
      match after_last_space s' with
      | Some r => Some r
      | None => if c =? 32 then Some s' else None
      end
  end.

Definition cockpit_web_request_get_remote_address (r : CockpitWebRequest) : option (list Z) :=
  let forwarded :=
    match forwarded_for_header r with
    | Some h =>
        match table_lookup (req_headers r) h with
        | Some (c :: v) => Some (default (c :: v) (after_last_space (c :: v)))
        | _ => None
        end
    | None => None
    end in
  match forwarded with
  | Some a => Some a
  | None =>
      match req_io r with
      | None => None
      | Some io =>
          match m ← io_metadata io; cockpit_json_get_string m (bs "origin-ip") None with
          | Some ip => ip
          | None => io_remote io
          end
      end
  end.

Definition cockpit_web_request_get_client_certificate (r : CockpitWebRequest) : option (list Z) :=
  io ← req_io r; metadata ← io_metadata io;
  default None (cockpit_json_get_string metadata (bs "client-certificate") None).

(** For a server with the flag [COCKPIT_WEB_SERVER_FOR_TLS_PROXY] or not, and with the header that
    a proxy in front of it sets. *)
Definition cockpit_web_request_get_protocol (for_tls_proxy : bool) (protocol_header : option (list Z))
    (r : CockpitWebRequest) : list Z :=
  if match req_io r with Some io => negb (io_socket io) | None => false end then bs "https"
  else if for_tls_proxy then bs "https"
  else
    match h ← protocol_header; table_lookup (req_headers r) h with
    | Some protocol => protocol
    | None => bs "http"
    end.

(** ** Cookies *)

(** The first character before the match that is no space, looking back from the match to
    the second character of [header]. *)
Definition after_semicolon (before : list Z) : bool :=
  match filter (λ c, g_ascii_isspace c = false) (rev (tail before)) with
  | c :: _ => c =? 59
  | [] => false
  end.

Section Cookies.
Context (g_uri_unescape_segment : list Z → option (list Z)).

Fixpoint parse_cookie_loop (fuel : nat) (header : list Z) (at_start : bool) (name : list Z)
    : comp unit (option (list Z)) :=
  match fuel with
  | O => Fault
  | S fuel' =>
      match memmem header name with
      | None => Ok None
      | Some i =>
          let at_start := if (i =? 0)%nat then at_start else after_semicolon (take i header) in
          let pos := drop (i + length name) header in
          match pos with
          | c :: value =>
              if (c =? 61) && at_start then
                Ok (g_uri_unescape_segment (take (strcspn value [59]) value))
              else parse_cookie_loop fuel' pos false name
          | [] => parse_cookie_loop fuel' pos false name
          end
      end
  end.

Definition cockpit_web_server_parse_cookie (t : headers) (name : list Z)
    : comp unit (option (list Z)) :=
  match table_lookup t (bs "Cookie") with
  | None => Ok None
  | Some header => parse_cookie_loop (length header + 2) header true name
  end.

Definition cockpit_web_request_parse_cookie (r : CockpitWebRequest) (name : list Z)
    : comp unit (option (list Z)) := cockpit_web_server_parse_cookie (req_headers r) name.
End Cookies.

Section CookieLookup.
Context (unescape : list Z → option (list Z)).

(** Every turn of the loop shortens the header by the name. *)
Lemma parse_cookie_terminates fuel header at_start name :
  name ≠ [] → (length header < fuel)%nat →
  ∃ v, parse_cookie_loop unescape fuel header at_start name = Ok v.
Proof.
  intros Hn. revert header at_start. induction fuel as [|fuel IH]; intros header at_start Hf; [lia|].
  cbn [parse_cookie_loop]. destruct (memmem header name) as [i|] eqn:E; [|by eexists].
  apply memmem_some in E as (a & b & -> & <-).
  rewrite app_assoc, <- length_app, drop_app_length.
  destruct name as [|n name]; [done|]. rewrite !length_app in Hf. cbn [length] in Hf.
  destruct b as [|c b]; [apply IH; cbn; lia|].
  destruct (_ && _); [by eexists|]. apply IH. cbn in *. lia.
Qed.
End CookieLookup.

(** Characters that stand in no name of a cookie. *)
Definition cookie_name (name : list Z) : Prop :=
  name ≠ [] ∧ Forall (λ c, c ∉ [59; 61; 32]) name.

Lemma name_snoc name x c r d :
  cookie_name name → d ∈ [59; 61; 32] → x ++ name = r ++ [c] → c ≠ d.
Proof.
  intros [Hne Hc] Hd E ->. destruct name as [|n name _] using rev_ind; [done|].
  rewrite app_assoc in E. apply app_inj_tail in E as [_ ->].
  rewrite Forall_app, Forall_cons in Hc. tauto.
Qed.

Lemma name_not_before before name y x z b :
  cookie_name name → memmem before name = None → before ++ bs "; " = x ++ y → y ≠ [] →
  y ++ name ++ b ≠ name ++ z.
Proof.
  intros Hn Hb Hxy Hy E. change (bs "; ") with ([59] ++ [32]) in Hxy. rewrite app_assoc in Hxy.
  destruct y as [|d y _] using rev_ind; [done|]. clear Hy.
  rewrite app_assoc in Hxy. apply app_inj_tail in Hxy as [Hxy <-].
  apply app_eq_inv in E as [(k & E & _)|(k & E & _)].
  - (* the name is in what comes before *)
    destruct k as [|e k _] using rev_ind.
    + rewrite app_nil_r in E. symmetry in E. by apply (name_snoc name [] 32 y 32) in E; [|done|by_decide].
    + rewrite app_assoc in E. apply app_inj_tail in E as [-> _].
      destruct k as [|e' k _] using rev_ind.
      * rewrite app_nil_r in Hxy. symmetry in Hxy. by apply (name_snoc name x 59 before 59) in Hxy; [|done|by_decide].
      * rewrite (app_assoc name), (app_assoc x) in Hxy. apply app_inj_tail in Hxy as [-> _].
        by apply memmem_app in Hb.
  - destruct Hn as [_ Hn]. rewrite E, !Forall_app, Forall_cons in Hn. destruct Hn as [[_ [Hn _]] _].
    by apply Hn; do 2 right; left.
Qed.

Lemma cookie_value value rest :
  Forall (λ c, c ≠ 59 ∧ c ≠ 0) value → match rest with [] => True | c :: _ => c = 59 end →
  take (strcspn (value ++ rest) [59]) (value ++ rest) = value.
Proof.
  intros Hv Hr. assert (Ho : outside [59] value).
  { eapply Forall_impl; [done|]. cbn. intros c [H1 H2]. split; [|done].
    by intros ->%list_elem_of_singleton. }
  destruct rest as [|c rest].
  - rewrite app_nil_r, strcspn_all by done. by rewrite firstn_all.
  - subst c. rewrite strcspn_app by (done || (left; constructor)). apply take_app_length.
Qed.

(** C27: a cookie is found behind any number of others in which its name does not occur, its
    value ends at the next semicolon, and the search ends for every header. *)
Theorem cookie_found unescape t name before value rest :
  cookie_name name →
  table_lookup t (bs "Cookie") =
    Some (match before with [] => [] | _ => before ++ bs "; " end ++ name ++ bs "=" ++ value ++ rest) →
  memmem before name = None → Forall (λ c, c ≠ 59 ∧ c ≠ 0) value →
  match rest with [] => True | c :: _ => c = 59 end →
  cockpit_web_server_parse_cookie unescape t name = Ok (unescape value) ∧
  ∀ t', cockpit_web_server_parse_cookie unescape t' name ≠ Fault.
Proof.
  intros Hn Ht Hb Hv Hr. split.
  - unfold cockpit_web_server_parse_cookie. rewrite Ht. rewrite Nat.add_comm. cbn [Nat.add parse_cookie_loop].
    set (pre := match before with [] => [] | _ => before ++ bs "; " end) in *.
    rewrite (memmem_first pre name).
    2: { intros x y z Hp Hy. subst pre. destruct before as [|c before].
         { symmetry in Hp. apply app_eq_nil in Hp as [_ ->]. done. }
         by apply (name_not_before (c :: before) name y x). }
    rewrite take_app_length, app_assoc, <- length_app, drop_app_length. cbn [bs app Z.eqb].
    assert (Hs : (if (length pre =? 0)%nat then true else after_semicolon pre) = true).
    { subst pre. destruct before as [|c before]; [done|]. rewrite length_app. cbn [length Nat.add Nat.eqb].
      unfold after_semicolon. cbn [app tail bs]. by rewrite rev_app_distr. }
    rewrite Hs. cbn. by rewrite cookie_value.
  - intros t'. unfold cockpit_web_server_parse_cookie.
    destruct (table_lookup t' _) as [hd|]; [|done]. destruct Hn as [Hn _].
    by destruct (parse_cookie_terminates unescape (length hd + 2) hd true name) as [v ->]; [|lia|].
Qed.

Lemma cookie_found_witness :
  let t := [(bs "cookie", bs "lang=de; cockpit=djE%3D; x=y")] in
  cockpit_web_server_parse_cookie Some t (bs "cockpit") = Ok (Some (bs "djE%3D")) ∧
  ∀ t', cockpit_web_server_parse_cookie Some t' (bs "cockpit") ≠ Fault.
Proof.
  intros t. apply (cookie_found Some t _ (bs "lang=de") (bs "djE%3D") (bs "; x=y"));
    [split; [done|by_decide]|reflexivity|reflexivity|by_decide|reflexivity].
Defined.

(** A name at the end of a value hides the cookie of that name that follows. *)
Theorem cookie_behind_its_name_missed :
  parse_cookie_loop Some 30 (bs "last=cockpit; cockpit=abc") true (bs "cockpit") = Ok None ∧
  parse_cookie_loop Some 30 (bs "last=other; cockpit=abc") true (bs "cockpit") = Ok (Some (bs "abc")).
Proof. split; reflexivity. Qed.
