(* ===== verification/WebRequest.v ===== *)
(** * The web server: connections and requests, [src/common/cockpitwebserver.c]

    A connection is looked at for TLS when it is accepted, then a request is read from it, until its
    headers are complete; it is answered at once when it is not acceptable, or handed to the handlers;
    when the response is done, the next request is read or the connection is closed.

    Shown: which requests are handled, and which reply the others get; replies are completed, and the default
    handler finds the handlers, but for the path of the root itself; it does not matter in which pieces a
    request and its body arrive; what is buffered is bounded; the first request of a connection without TLS
    is redirected unless it may be served; the order of the languages that a client accepts.

    [g_utf8_validate] and [g_ascii_strtod] are parameters; what is read, and what handlers claim, comes
    with the events. *)

From Stdlib Require Import QArith Sorting.Sorted Sorting.Permutation.
From S2P Require Import Prelude WebFilter Http WebResponse.
#[local] Open Scope Z_scope.

(** ** The server *)

Record CockpitWebServer := mkServer {
  certificate : bool;
  ssl_exception_prefix : list Z;
  server_url_root : list Z;
  redirect_tls : bool;              (* COCKPIT_WEB_SERVER_REDIRECT_TLS *)
  for_tls_proxy : bool              (* COCKPIT_WEB_SERVER_FOR_TLS_PROXY *)
}.

Definition strip_slashes (s : list Z) : list Z := rev (skip_char 47 (rev (skip_char 47 s))).

(** The property [url-root]. *)
Definition url_root_of (value : list Z) : list Z :=
  let str := strip_slashes value in if bool_decide (str = []) then [] else [47] ++ str.

Definition path_has_prefix (path prefix : list Z) : bool :=
  bool_decide (prefix ≠ []) && prefixb prefix path &&
  match drop (length prefix) path with [] => true | c :: _ => c =? 47 end.

(** ** Requests *)

Definition cockpit_webserver_request_maximum : Z := 8192.

(** A request that is being read: [peeking] until it is known whether the stream has TLS. *)
Record WebRequest := mkWebRequest {
  io_tls : bool;
  io_localhost : bool;              (* the address on which the connection was accepted *)
  buffer : list Z;
  eof_okay : bool;
  check_tls_redirect : bool;
  delayed_reply : Z;
  peeking : bool
}.

Definition set_buffer (b : list Z) (r : WebRequest) : WebRequest :=
  mkWebRequest (io_tls r) (io_localhost r) b (eof_okay r) (check_tls_redirect r) (delayed_reply r) (peeking r).
Definition set_eof_okay (b : bool) (r : WebRequest) : WebRequest :=
  mkWebRequest (io_tls r) (io_localhost r) (buffer r) b (check_tls_redirect r) (delayed_reply r) (peeking r).
Definition set_delayed_reply (code : Z) (r : WebRequest) : WebRequest :=
  mkWebRequest (io_tls r) (io_localhost r) (buffer r) (eof_okay r) (check_tls_redirect r) code (peeking r).
Definition set_check_tls_redirect (b : bool) (r : WebRequest) : WebRequest :=
  mkWebRequest (io_tls r) (io_localhost r) (buffer r) (eof_okay r) b (delayed_reply r) (peeking r).
Definition set_io_tls (b : bool) (r : WebRequest) : WebRequest :=
  mkWebRequest b (io_localhost r) (buffer r) (eof_okay r) (check_tls_redirect r) (delayed_reply r) (peeking r).
Definition set_peeking (b : bool) (r : WebRequest) : WebRequest :=
  mkWebRequest (io_tls r) (io_localhost r) (buffer r) (eof_okay r) (check_tls_redirect r) (delayed_reply r) b.

(** What the handlers are given. *)
Record handled_request := mkHandled {
  original_path : list Z;
  request_path : list Z;
  query : list Z;
  request_method : list Z;
  host : option (list Z);
  request_headers : headers
}.

Inductive processed :=
| DelayedReply (code : Z) (method path : list Z) (t : headers)
| Handle (h : handled_request).

Definition cockpit_web_request_process (server : CockpitWebServer) (self : WebRequest) (method path : list Z)
    (host : option (list Z)) (t : headers) : processed :=
  let self :=
    if bool_decide (server_url_root server ≠ []) && negb (path_has_prefix path (server_url_root server))
    then set_delayed_reply 404 self else self in
  let self :=
    if (delayed_reply self =? 0) && check_tls_redirect self then
      let self := set_check_tls_redirect false self in
      if negb (path_has_prefix path (ssl_exception_prefix server)) && negb (io_localhost self)
      then set_delayed_reply 301 self else self
    else self in
  if negb (delayed_reply self =? 0) then DelayedReply (delayed_reply self) method path t
  else
    let root := length (server_url_root server) in
    match memchr path 63 with
    | Some n =>
        Handle (mkHandled (take n path) (if (n <? root)%nat then drop root path else drop root (take n path))
          (drop (S n) path) method host t)
    | None => Handle (mkHandled path (drop root path) [] method host t)
    end.

(** [cockpit_web_request_process_delayed_reply], with [cockpit_web_request_respond]: the request has
    no path and no headers yet. *)
Section DelayedReply.
Context {F : Type} {filter_of : WebFilter F} (g_uri_escape_string : list Z → list Z) (fail_html : list Z).

Definition cockpit_web_request_process_delayed_reply (server : CockpitWebServer) (self : WebRequest)
    (code : Z) (method path : list Z) (t : headers) : comp unit (CockpitWebResponse (F := F)) :=
  _ ← cassert (code >? 299);
  let protocol := if io_tls self || for_tls_proxy server then bs "https" else bs "http" in
  let response := cockpit_web_response_new None None None method (Some protocol) in
  if code =? 301 then
    let url := bs "https://" ++ default [] (table_lookup t (bs "Host")) ++ path in
    response ← cockpit_web_response_headers_full response 301 (bs "Moved Permanently") 0 [(bs "Location", Some url)];
    cockpit_web_response_complete response
  else cockpit_web_response_error g_uri_escape_string fail_html response code None None.
End DelayedReply.

(** ** Reading *)

(** What has become of a request that has been looked at: it waits, it has ended without a reply, or it
    has been processed, with what is left in its buffer. *)
Inductive progress :=
| Waiting (r : WebRequest)
| Ended
| Processed (p : processed) (buffer : list Z).

Section Reading.
Context (g_utf8_validate : list Z → bool) (server : CockpitWebServer).

(** The value of [Content-Length], if it is a number. *)
Definition content_length (t : headers) : comp unit (option Z) :=
  match table_lookup t (bs "Content-Length") with
  | None => Ok (Some 0)
  | Some str =>
      '(length, n) ← g_ascii_strtoull (str ++ [0]);
      Ok (if bool_decide ((str ++ [0]) !! n = Some 0) then Some length else None)
  end.

Definition cockpit_web_request_parse_and_process (self : WebRequest) : comp unit progress :=
  if zlen (buffer self) >? cockpit_webserver_request_maximum * 2 then Ok Ended
  else
    match web_socket_util_parse_req_line (buffer self) with
    | Truncated => Ok (Waiting self)
    | Invalid => Ok Ended
    | Parsed off1 (method, path) =>
        if negb (bool_decide (head path = Some 47)) then Ok Ended
        else
          match web_socket_util_parse_headers g_utf8_validate (drop off1 (buffer self)) with
          | Truncated => Ok (Waiting self)
          | Invalid => Ok Ended
          | Parsed off2 t =>
              length ← content_length t;
              match length with
              | None => Ok Ended
              | Some length =>
                  let self := if negb (length =? 0) then set_delayed_reply 413 self else self in
                  if zlen (buffer self) <? u64 (Z.of_nat off1 + Z.of_nat off2 + length) then Ok (Waiting self)
                  else
                    let self :=
                      if negb (bool_decide (method = bs "GET")) && negb (bool_decide (method = bs "HEAD"))
                      then set_delayed_reply 405 self else self in
                    let host := table_lookup t (bs "Host") in
                    let self :=
                      match host with None | Some [] => set_delayed_reply 400 self | _ => self end in
                    let self := set_buffer (drop (off1 + off2) (buffer self)) self in
                    Ok (Processed (cockpit_web_request_process server self method path host t) (buffer self))
              end
          end
    end.

(** What is read from the stream: at most one byte more than the maximum. *)
Inductive input :=
| Data (bytes : list Z)
| InputWouldBlock
| InputError.

(** The request, and whether the stream is closed. *)
Definition cockpit_web_request_on_input (self : WebRequest) (i : input) : comp unit (progress * bool) :=
  match i with
  | InputWouldBlock => Ok (Waiting self, false)
  | InputError => Ok (Ended, false)
  | Data [] => Ok (Ended, eof_okay self)
  | Data bytes =>
      p ← cockpit_web_request_parse_and_process (set_eof_okay false (set_buffer (buffer self ++ bytes) self));
      Ok (p, false)
  end.

(** The first byte of a connection is looked at without being read.  When there is none, because the
    peer has closed, the byte is that of fresh memory. *)
Inductive peek :=
| Peeked (first_byte : Z)
| PeekWouldBlock
| PeekError.

Definition cockpit_web_request_on_socket_input (self : WebRequest) (tls_created : bool) (p : peek) : progress :=
  match p with
  | PeekWouldBlock => Waiting self
  | PeekError => Ended
  | Peeked first_byte =>
      if (first_byte =? 22) || (first_byte =? 128) then
        if negb (certificate server) then Ended
        else if tls_created then Waiting (set_peeking false (set_io_tls true self)) else Ended
      else
        Waiting (set_peeking false (if redirect_tls server then set_check_tls_redirect true self else self))
  end.

(** [cockpit_web_request_start] *)
Definition cockpit_web_request_start (io_tls io_localhost first : bool) : WebRequest :=
  mkWebRequest io_tls io_localhost [] true false 0 first.

(** ** Connections

    [on_web_response_done], [cockpit_web_request_on_timeout] and the rest of what happens to a
    connection: a request belongs to the table of the server while it is [Reading]; the response
    keeps the stream when it is [Responding]; [Closed] when the stream is given up. *)
Inductive web_connection :=
| Reading (r : WebRequest)
| Responding (io_tls io_localhost : bool)
| Closed.

Inductive event :=
| OnSocketInput (tls_created : bool) (p : peek)
| OnInput (i : input)
| OnTimeout
| OnResponseDone (reusable : bool).

Definition on_web_response_done (io_tls io_localhost reusable : bool) : web_connection :=
  if reusable then Reading (cockpit_web_request_start io_tls io_localhost false) else Closed.

Definition advance (r : WebRequest) (p : progress) : web_connection * option processed :=
  match p with
  | Waiting r => (Reading r, None)
  | Ended => (Closed, None)
  | Processed p _ => (Responding (io_tls r) (io_localhost r), Some p)
  end.

(** The connection, and what has been made of a request. *)
Definition handle (c : web_connection) (e : event) : comp unit (web_connection * option processed) :=
  match c, e with
  | Reading r, OnSocketInput created p =>
      if peeking r then Ok (advance r (cockpit_web_request_on_socket_input r created p)) else Ok (c, None)
  | Reading r, OnInput i =>
      if peeking r then Ok (c, None)
      else '(p, _) ← cockpit_web_request_on_input r i; Ok (advance r p)
  | Reading _, OnTimeout => Ok (Closed, None)
  | Responding tls localhost, OnResponseDone reusable => Ok (on_web_response_done tls localhost reusable, None)
  | _, _ => Ok (c, None)
  end.

Inductive run (c0 : web_connection) : list event → web_connection → list processed → Prop :=
| run_nil : run c0 [] c0 []
| run_snoc es c done e c' p :
    run c0 es c done → handle c e = Ok (c', p) →
    run c0 (es ++ [e]) c' (done ++ option_list p).
End Reading.

(** ** Resources *)

(** The detail under which handlers are looked for: the first component of the path. *)
Definition resource_detail (path : list Z) : comp unit (option (list Z)) :=
  _ ← cassert (bool_decide (head path = Some 47));
  let component_end := S (strcspn (tail path) [47]) in
  let component_end := if bool_decide (path !! component_end = Some 47) then S component_end else component_end in
  Ok (if (component_end <? 100)%nat then Some (take component_end path) else None).

(** [cockpit_web_server_default_handle_stream]: whether a handler has claimed the request, or the default
    has answered it. *)
Definition cockpit_web_server_default_handle_stream (h : handled_request)
    (handle_resource : option (list Z) → handled_request → bool) : comp unit bool :=
  detail ← resource_detail (request_path h);
  Ok (handle_resource detail h).

(** ** Languages and encodings *)

Inductive double := NaN | Infinity | NegInfinity | Finite (q : Q).

Definition double_lt (a b : double) : bool :=
  match a, b with
  | NaN, _ | _, NaN | Infinity, _ | _, NegInfinity => false
  | NegInfinity, _ | _, Infinity => true
  | Finite p, Finite q => negb (Qle_bool q p)
  end.
Definition double_eq (a b : double) : bool :=
  match a, b with
  | Infinity, Infinity | NegInfinity, NegInfinity => true
  | Finite p, Finite q => Qeq_bool p q
  | _, _ => false
  end.

Record Language := mkLanguage { qvalue : double; value : list Z }.

Definition sort_qvalue (la lb : Language) : Z :=
  if double_eq (qvalue lb) (qvalue la) then 0 else if double_lt (qvalue lb) (qvalue la) then -1 else 1.

(** [g_ptr_array_sort], which is stable. *)
Fixpoint insert_language (l : Language) (sorted : list Language) : list Language :=
  match sorted with
  | [] => [l]
  | l' :: sorted' => if sort_qvalue l l' <=? 0 then l :: sorted else l' :: insert_language l sorted'
  end.
Definition sort_languages (langs : list Language) : list Language := foldr insert_language [] langs.

Section Accept.
Context (g_ascii_strtod : list Z → double).

Definition language_of (piece : list Z) : Language :=
  match memchr piece 59 with
  | None => mkLanguage (Finite 1) piece
  | Some pos =>
      let q := drop (S pos) piece in
      mkLanguage
        (if prefixb (bs "q=") q then
           let v := g_ascii_strtod (drop 2 q) in if double_lt v (Finite 0) then Finite 0 else v
         else Finite 1) (take pos piece)
  end.

Definition languages (accept defawlt : option (list Z)) : list Language :=
  match defawlt with Some d => [mkLanguage (Finite (1 # 10)) d] | None => [] end ++
  match accept with Some a => language_of <$> split_on 44 a | None => [] end.

Definition wanted_language (l : Language) : bool := double_lt (Finite 0) (qvalue l).

(** Its name, and the one without a region. *)
Definition preferred (l : Language) : option (list Z) :=
  if wanted_language l then Some (g_strstrip (tolower <$> value l)) else None.
Definition base_language (l : Language) : option (list Z) :=
  if wanted_language l then (λ pos, g_strstrip (tolower <$> take pos (value l))) <$> memchr (value l) 45 else None.

Definition cockpit_web_server_parse_accept_list (accept defawlt : option (list Z)) : list (list Z) :=
  let langs := sort_languages (languages accept defawlt) in omap preferred langs ++ omap base_language langs.

Definition cockpit_web_request_accepts_encoding (t : headers) (encoding : list Z) : bool :=
  match table_lookup t (bs "Accept-Encoding") with
  | None => true
  | Some accept =>
      let encodings := cockpit_web_server_parse_accept_list (Some accept) None in
      bool_decide (encoding ∈ encodings) || bool_decide (bs "*" ∈ encodings)
  end.
End Accept.

(** *** The order of languages *)

Definition not_nan (l : Language) : Prop := qvalue l ≠ NaN.
Definition before (a b : Language) : Prop := double_lt (qvalue a) (qvalue b) = false.

Lemma Qle_bool_false p q : Qle_bool p q = false ↔ (q < p)%Q.
Proof.
  split.
  - intros H. apply Qnot_le_lt. intros Hle. apply Qle_bool_iff in Hle. congruence.
  - intros H. apply not_true_is_false. rewrite Qle_bool_iff. by apply Qlt_not_le.
Qed.

Lemma sort_qvalue_le a b : not_nan a → not_nan b → (sort_qvalue a b <=? 0) = true ↔ before a b.
Proof.
  unfold not_nan, before, sort_qvalue. destruct (qvalue a) as [| | |p], (qvalue b) as [| | |q]; try done; cbn; intros _ _.
  destruct (Qeq_bool q p) eqn:E.
  - apply Qeq_bool_iff in E. split; [intros _|done]. apply negb_false_iff, Qle_bool_iff. rewrite E. apply Qle_refl.
  - assert (Hne : ¬ (q == p)%Q) by (intros H; apply Qeq_bool_iff in H; congruence). clear E.
    destruct (Qle_bool q p) eqn:E1; cbn.
    + apply Qle_bool_iff in E1. assert (H : (q < p)%Q) by (destruct (Qle_lt_or_eq q p E1); [done|by destruct Hne]).
      apply Qle_bool_false in H. rewrite H. cbn. done.
    + apply Qle_bool_false in E1. assert (H : Qle_bool p q = true) by (apply Qle_bool_iff; by apply Qlt_le_weak).
      rewrite H. done.
Qed.

Lemma before_trans a b c : not_nan b → before a b → before b c → before a c.
Proof.
  unfold not_nan, before. destruct (qvalue a) as [| | |p], (qvalue b) as [| | |q], (qvalue c) as [| | |r]; try done; cbn.
  rewrite !negb_false_iff, !Qle_bool_iff. intros _ H1 H2. by apply (Qle_trans _ q).
Qed.

Lemma before_total a b : not_nan a → not_nan b → before a b ∨ before b a.
Proof.
  unfold not_nan, before. destruct (qvalue a) as [| | |p], (qvalue b) as [| | |q]; try done; cbn; auto.
  intros _ _. rewrite !negb_false_iff, !Qle_bool_iff. destruct (Qlt_le_dec p q) as [H|H]; [right; by apply Qlt_le_weak|by left].
Qed.

Lemma insert_perm l sorted : Permutation (insert_language l sorted) (l :: sorted).
Proof.
  induction sorted as [|l' sorted IH]; [done|]. cbn. destruct (_ <=? 0); [done|]. rewrite IH. apply perm_swap.
Qed.

Lemma sort_perm langs : Permutation (sort_languages langs) langs.
Proof. induction langs as [|l langs IH]; [done|]. cbn. rewrite insert_perm. by rewrite IH. Qed.

Lemma insert_sorted l sorted : not_nan l → Forall not_nan sorted → StronglySorted before sorted →
  StronglySorted before (insert_language l sorted).
Proof.
  intros Hl Hn. induction 1 as [|l' sorted Hs IH Hall]; cbn; [by repeat constructor|].
  apply Forall_cons in Hn as [Hl' Hn]. destruct (sort_qvalue l l' <=? 0) eqn:E.
  - apply sort_qvalue_le in E; [|done..]. constructor; [by constructor|]. constructor; [done|].
    eapply Forall_impl; [exact Hall|]. intros x Hx. by apply (before_trans l l' x).
  - constructor; [by apply IH|]. rewrite insert_perm. constructor; [|done].
    destruct (before_total l l') as [Hb|Hb]; [done..| |done]. apply sort_qvalue_le in Hb; [congruence|done..].
Qed.

Lemma sort_sorted langs : Forall not_nan langs → StronglySorted before (sort_languages langs).
Proof.
  induction 1 as [|l langs Hl Hn IH]; [constructor|]. cbn. apply insert_sorted; [done| |done].
  change (Forall not_nan (sort_languages langs)). by rewrite sort_perm.
Qed.

Lemma double_eq_not_lt q a b : double_eq (qvalue a) q = true → double_eq (qvalue b) q = true →
  double_lt (qvalue a) (qvalue b) = false.
Proof.
  destruct (qvalue a) as [| | |p], (qvalue b) as [| | |r], q as [| | |q]; try done; cbn. rewrite !Qeq_bool_iff, negb_false_iff, Qle_bool_iff.
  intros -> ->. apply Qle_refl.
Qed.

(** Languages of one value stay in their order. *)
Lemma insert_stable (P : Language → bool) l sorted : not_nan l → Forall not_nan sorted → StronglySorted before sorted →
  (∀ a b, P a = true → P b = true → before a b) →
  filter (λ x, P x = true) (insert_language l sorted) = filter (λ x, P x = true) (l :: sorted).
Proof.
  intros Hl Hn Hs HP. induction Hs as [|l' sorted Hs IH Hall]; [done|]. cbn [insert_language].
  apply Forall_cons in Hn as [Hl' Hn]. destruct (sort_qvalue l l' <=? 0) eqn:E; [done|].
  rewrite filter_cons, IH by done. rewrite !filter_cons. destruct (P l') eqn:E1, (P l) eqn:E2; try done.
  assert (H : (sort_qvalue l l' <=? 0) = true) by (apply sort_qvalue_le; auto). congruence.
Qed.

Lemma sort_stable P langs : Forall not_nan langs → (∀ a b, P a = true → P b = true → before a b) →
  filter (λ x, P x = true) (sort_languages langs) = filter (λ x, P x = true) langs.
Proof.
  intros Hn HP. induction Hn as [|l langs Hl Hn IH]; [done|]. cbn [sort_languages foldr].
  change (foldr insert_language [] langs) with (sort_languages langs).
  rewrite insert_stable; [by rewrite !filter_cons, IH|done|by rewrite sort_perm|by apply sort_sorted|done].
Qed.

(** The languages that a client accepts are listed by decreasing quality, those of the same quality
    in the order in which they are named, after the default if it has that quality too; then come
    those without a region; and what has the quality zero is not listed. *)
Theorem accept_list_sorted (g_ascii_strtod : list Z → double) accept defawlt :
  (∀ s, g_ascii_strtod s ≠ NaN) →
  ∃ sorted, Permutation sorted (languages g_ascii_strtod accept defawlt) ∧ StronglySorted before sorted ∧
    (∀ q, filter (λ l, double_eq (qvalue l) q = true) sorted =
      filter (λ l, double_eq (qvalue l) q = true) (languages g_ascii_strtod accept defawlt)) ∧
    cockpit_web_server_parse_accept_list g_ascii_strtod accept defawlt = omap preferred sorted ++ omap base_language sorted.
Proof.
  intros Hd. set (langs := languages _ _ _).
  assert (Hn : Forall not_nan langs).
  { unfold langs, languages, not_nan. apply Forall_app. split; [destruct defawlt; by repeat constructor|].
    destruct accept as [a|]; [|constructor]. apply Forall_fmap, Forall_true. intros piece. cbn. unfold language_of.
    destruct (memchr piece 59); [|done]. destruct (prefixb _ _); [|done]. cbn. by destruct (double_lt _ _). }
  exists (sort_languages langs). split_and!; [apply sort_perm|by apply sort_sorted| |done].
  intros q. apply sort_stable; [done|]. intros a b. unfold before. apply double_eq_not_lt.
Qed.

Lemma accept_list_sorted_witness :
  let strtod := λ s, if bool_decide (s = bs "0.8") then Finite (8 # 10) else Finite 0 in
  let langs := languages strtod (Some (bs "en-US;q=0.8, de-DE,fr;q=0")) (Some (bs "en")) in
  ∃ sorted, Permutation sorted langs ∧ StronglySorted before sorted ∧
    (∀ q, filter (λ l, double_eq (qvalue l) q = true) sorted = filter (λ l, double_eq (qvalue l) q = true) langs) ∧
    bs <$> ["de-de"; "en-us"; "en"; "de"; "en"] = omap preferred sorted ++ omap base_language sorted.
Proof.
  destruct (accept_list_sorted (λ s, if bool_decide (s = bs "0.8") then Finite (8 # 10) else Finite 0)
    (Some (bs "en-US;q=0.8, de-DE,fr;q=0")) (Some (bs "en"))) as (sorted & H1 & H2 & H3 & H4).
  - intros s. by destruct (bool_decide _).
  - exists sorted. split_and!; [exact H1|exact H2|exact H3|]. etrans; [|exact H4]. vm_compute. reflexivity.
Defined.

(** ** Which requests are handled *)

Section Decision.
Context (g_utf8_validate : list Z → bool) (server : CockpitWebServer).
Notation parse_and_process := (cockpit_web_request_parse_and_process g_utf8_validate server).
Notation on_input := (cockpit_web_request_on_input g_utf8_validate server).

(** The reply that a request gets at once, or 0: a path outside of the root of the server, no host, a
    method that is not supported, a body, no TLS. *)
Definition reply_code (r : WebRequest) (method path : list Z) (t : headers) (length : Z) : Z :=
  if bool_decide (server_url_root server ≠ []) && negb (path_has_prefix path (server_url_root server)) then 404
  else if match table_lookup t (bs "Host") with None | Some [] => true | _ => false end then 400
  else if negb (bool_decide (method = bs "GET")) && negb (bool_decide (method = bs "HEAD")) then 405
  else if negb (length =? 0) then 413
  else if check_tls_redirect r && negb (path_has_prefix path (ssl_exception_prefix server)) && negb (io_localhost r) then 301
  else 0.

(** What handlers are given: the path below the root, and the query. *)
Definition to_handle (method path : list Z) (t : headers) : handled_request :=
  let root := length (server_url_root server) in
  let original := take (default (length path) (memchr path 63)) path in
  mkHandled original (if (length original <? root)%nat then drop root path else drop root original)
    (default [] ((λ n, drop (S n) path) <$> memchr path 63)) method (table_lookup t (bs "Host")) t.

Definition decision (r : WebRequest) (method path : list Z) (t : headers) (length : Z) : processed :=
  let code := reply_code r method path t length in
  if code =? 0 then Handle (to_handle method path t) else DelayedReply code method path t.

Lemma handle_eq method path t :
  to_handle method path t =
  match memchr path 63 with
  | Some n =>
      mkHandled (take n path) (if (n <? length (server_url_root server))%nat then drop (length (server_url_root server)) path
        else drop (length (server_url_root server)) (take n path))
        (drop (S n) path) method (table_lookup t (bs "Host")) t
  | None => mkHandled path (drop (length (server_url_root server)) path) [] method (table_lookup t (bs "Host")) t
  end.
Proof.
  unfold to_handle. destruct (memchr path 63) as [n|] eqn:E; cbn [default fmap option_fmap option_map from_option].
  - apply memchr_Some in E as (a & b & -> & _ & Ha). rewrite length_take, length_app. cbn [length].
    rewrite (Nat.min_l n) by lia. done.
  - rewrite firstn_all. by destruct (length path <? _)%nat.
Qed.

Lemma process_decided r r' method path t length :
  io_localhost r' = io_localhost r → check_tls_redirect r' = check_tls_redirect r →
  delayed_reply r' =
    (if match table_lookup t (bs "Host") with None | Some [] => true | _ => false end then 400
     else if negb (bool_decide (method = bs "GET")) && negb (bool_decide (method = bs "HEAD")) then 405
     else if negb (length =? 0) then 413 else 0) →
  cockpit_web_request_process server r' method path (table_lookup t (bs "Host")) t = decision r method path t length.
Proof.
  destruct r' as [tls localhost b eof check code peeking]. cbn [io_localhost check_tls_redirect delayed_reply].
  intros -> -> ->. unfold cockpit_web_request_process, decision, reply_code. rewrite handle_eq.
  cbv beta iota zeta delta [set_delayed_reply set_check_tls_redirect io_localhost check_tls_redirect delayed_reply io_tls buffer].
  destruct (bool_decide _ && negb _); [done|].
  destruct (match table_lookup t (bs "Host") with None | Some [] => true | _ => false end); [done|].
  destruct (negb (bool_decide (method = bs "GET")) && _); [done|]. destruct (negb (length =? 0)); [done|].
  destruct r as [tls' localhost' b' eof' check' code' peeking']. cbn [Z.eqb andb io_localhost check_tls_redirect delayed_reply].
  destruct check'; [|by destruct (memchr path 63)]. cbn [andb].
  destruct (negb (path_has_prefix path (ssl_exception_prefix server)) && negb localhost'); by destruct (memchr path 63).
Qed.

(** A request that has been looked at may be known to have a body. *)
Definition reply_so_far (r : WebRequest) (length : Z) : Prop :=
  delayed_reply r = 0 ∨ length ≠ 0 ∧ delayed_reply r = 413.

(** The length of a request *)
Lemma request_length method path hs :
  (List.length (req_line method path) + (List.length (header_lines hs) + 2))%nat = List.length (request_text method path hs).
Proof. unfold request_text. rewrite !length_app. cbn. lia. Qed.

Lemma request_u64 method path hs length : 0 ≤ zlen (request_text method path hs) + length < 2 ^ 64 →
  u64 (Z.of_nat (List.length (req_line method path)) + Z.of_nat (List.length (header_lines hs) + 2) + length) =
  zlen (request_text method path hs) + length.
Proof. intros H. unfold u64. unfold zlen in *. rewrite <- request_length in *. rewrite Z.mod_small; lia. Qed.

Lemma request_processed r method path hs rest length : reply_so_far r length → word method → word path →
  head path = Some 47 → Forall (header_ok g_utf8_validate) hs → content_length (table_of hs) = Ok (Some length) →
  buffer r = request_text method path hs ++ rest → zlen (buffer r) ≤ cockpit_webserver_request_maximum * 2 →
  0 ≤ length ≤ zlen rest →
  parse_and_process r = Ok (Processed (decision r method path (table_of hs) length) rest).
Proof.
  intros H0 Hm Hp Hh Hhs Hlen Eb Hmax Hrest.
  unfold cockpit_web_request_parse_and_process. rewrite (Z.gtb_ltb _), (proj2 (Z.ltb_ge _ _)) by lia.
  rewrite Eb. unfold request_text. rewrite <- !app_assoc, parse_req_line by done.
  rewrite bool_decide_eq_true_2, drop_app_length, parse_headers_written by done. cbn [negb]. rewrite Hlen. cbn [mbind comp_bind].
  unfold cockpit_webserver_request_maximum in Hmax. assert (Ez : zlen (buffer r) = zlen (request_text method path hs) + zlen rest) by by rewrite Eb, zlen_app.
  pose proof (zlen_nonneg (request_text method path hs)). rewrite request_u64, request_length by lia.
  assert (Ed : drop (List.length (request_text method path hs)) (buffer r) = rest) by (rewrite Eb; by apply drop_app_length'). cbv zeta.
  replace (buffer (if negb (length =? 0) then set_delayed_reply 413 r else r)) with (buffer r) by (by destruct (length =? 0)).
  rewrite (proj2 (Z.ltb_ge _ _)) by lia.
  match goal with |- Ok (Processed (cockpit_web_request_process _ ?r1 _ _ _ _) _) = _ =>
    assert (F : io_localhost r1 = io_localhost r ∧ check_tls_redirect r1 = check_tls_redirect r ∧
      buffer r1 = drop (List.length (request_text method path hs)) (buffer r) ∧ delayed_reply r1 =
      (if match table_lookup (table_of hs) (bs "Host") with None | Some [] => true | _ => false end then 400
       else if negb (bool_decide (method = bs "GET")) && negb (bool_decide (method = bs "HEAD")) then 405
       else if negb (length =? 0) then 413 else 0)); [|revert F; generalize r1]
  end.
  - destruct r as [tls localhost b eof check code peeking]. unfold reply_so_far in H0. cbn [buffer delayed_reply] in *.
    assert (Ecode : (if negb (length =? 0) then 413 else code) = if negb (length =? 0) then 413 else 0).
    { destruct (Z.eqb_spec length 0); cbn; [|done]. destruct H0 as [?|[? _]]; done. }
    destruct (negb (length =? 0)), (negb (bool_decide (method = bs "GET")) && _),
      (table_lookup (table_of hs) (bs "Host")) as [[|c host]|]; done.
  - intros r1 (F1 & F2 & F3 & F4). rewrite F3, Ed. by rewrite (process_decided r r1 method path (table_of hs) length).
Qed.

(** The headers are complete, and the body is not. *)
Lemma body_waits r method path hs part length : word method → word path → head path = Some 47 →
  Forall (header_ok g_utf8_validate) hs → content_length (table_of hs) = Ok (Some length) →
  buffer r = request_text method path hs ++ part → zlen (buffer r) ≤ cockpit_webserver_request_maximum * 2 →
  zlen part < length → zlen (request_text method path hs) + length < 2 ^ 64 →
  parse_and_process r = Ok (Waiting (set_delayed_reply 413 r)).
Proof.
  intros Hm Hp Hh Hhs Hlen Eb Hmax Hpart Hfit. pose proof (zlen_nonneg part). pose proof (zlen_nonneg (request_text method path hs)).
  unfold cockpit_web_request_parse_and_process. rewrite (Z.gtb_ltb _), (proj2 (Z.ltb_ge _ _)) by lia.
  assert (Ez : zlen (buffer r) = zlen (request_text method path hs) + zlen part) by by rewrite Eb, zlen_app.
  rewrite Eb. unfold request_text at 1. rewrite <- !app_assoc, parse_req_line by done.
  rewrite bool_decide_eq_true_2 by done. unfold request_text at 1. rewrite <- !app_assoc.
  rewrite drop_app_length, parse_headers_written by done. cbn [negb]. rewrite Hlen. cbn [mbind comp_bind]. cbv zeta.
  rewrite request_u64 by lia. rewrite (proj2 (Z.eqb_neq length 0)) by lia. cbn [negb].
  change (buffer (set_delayed_reply 413 r)) with (buffer r). by rewrite (proj2 (Z.ltb_lt _ _)) by lia.
Qed.

Lemma request_waits r method path hs pre suf : word method → word path → head path = Some 47 →
  Forall (header_ok g_utf8_validate) hs → request_text method path hs = pre ++ suf → suf ≠ [] →
  buffer r = pre → zlen pre ≤ cockpit_webserver_request_maximum * 2 → parse_and_process r = Ok (Waiting r).
Proof.
  intros Hm Hp Hh Hhs E Hs Eb Hmax. unfold cockpit_web_request_parse_and_process. rewrite Eb.
  rewrite (Z.gtb_ltb _), (proj2 (Z.ltb_ge _ _)) by lia.
  destruct (request_roundtrip g_utf8_validate method path hs [] Hm Hp Hhs) as [_ H].
  destruct (H pre suf E Hs) as [->|(n1 & -> & E2)]; [done|]. rewrite bool_decide_eq_true_2 by done. cbn [negb]. by rewrite E2.
Qed.

(** The pieces that are read, until the request has been processed. *)
Fixpoint feed (r : WebRequest) (pieces : list (list Z)) : comp unit progress :=
  match pieces with
  | [] => Ok (Waiting r)
  | piece :: pieces =>
      '(p, _) ← on_input r (Data piece);
      match p with
      | Waiting r => feed r pieces
      | p => Ok p
      end
  end.

(** A part of a request and what follows it ends in the request, or behind it. *)
Lemma request_part (text rest a b : list Z) : a ++ b = text ++ rest → (∃ suf, suf ≠ [] ∧ text = a ++ suf) ∨ ∃ part, a = text ++ part.
Proof.
  intros E. destruct (decide (length a < length text)%nat) as [Hl|Hl]; [left|right].
  - exists (drop (length a) text). split.
    + intros H. apply (f_equal length) in H. rewrite length_drop in H. cbn in H. lia.
    + rewrite <- (take_drop (length a) text) at 1. f_equal.
      rewrite <- (take_app_le text rest) by lia. rewrite <- E. by rewrite take_app_length.
  - exists (drop (length text) a). rewrite <- (take_drop (length text) a) at 1. f_equal.
    rewrite <- (take_app_le a b) by lia. rewrite E. by rewrite take_app_length.
Qed.

Lemma on_data r piece : piece ≠ [] → on_input r (Data piece) =
  p ← parse_and_process (set_eof_okay false (set_buffer (buffer r ++ piece) r)); Ok (p, false).
Proof. by destruct piece. Qed.

(** C18: in whatever pieces a well-formed request arrives, it is processed with the piece that completes it and not before:
    when its headers are there and, if they name the length of a body, that many bytes behind them, whether these come
    with the headers or later.  Then it is handled if it is for the root of the server, names a host, is [GET] or
    [HEAD], has no body, and need not be redirected to TLS, with its path below the root and its query; otherwise it
    gets the reply for the first of these that it lacks.  What has come behind the headers is left in the buffer.  All
    that comes up to the end of that piece is at most twice the maximum, and so the length of the body is. *)
Theorem request_in_pieces r method path hs pieces last rest length :
  buffer r = [] → delayed_reply r = 0 → word method → word path → head path = Some 47 →
  Forall (header_ok g_utf8_validate) hs → content_length (table_of hs) = Ok (Some length) → 0 ≤ length ≤ zlen rest →
  Forall (λ p, p ≠ []) (pieces ++ [last]) → concat (pieces ++ [last]) = request_text method path hs ++ rest →
  zlen (concat pieces) < zlen (request_text method path hs) + length →
  zlen (concat (pieces ++ [last])) ≤ cockpit_webserver_request_maximum * 2 →
  (∃ r', feed r pieces = Ok (Waiting r')) ∧
  feed r (pieces ++ [last]) = Ok (Processed (decision r method path (table_of hs) length) rest).
Proof.
  intros Hb H0 Hm Hp Hh Hhs Hlen Hrest Hne Ec Hlt Hmax.
  assert (G : ∀ r' before, buffer r' = before → reply_so_far r' length → decision r' = decision r →
    Forall (λ p, p ≠ []) (pieces ++ [last]) → before ++ concat (pieces ++ [last]) = request_text method path hs ++ rest →
    zlen (before ++ concat pieces) < zlen (request_text method path hs) + length →
    zlen (before ++ concat (pieces ++ [last])) ≤ cockpit_webserver_request_maximum * 2 →
    (∃ r'', feed r' pieces = Ok (Waiting r'')) ∧
    feed r' (pieces ++ [last]) = Ok (Processed (decision r method path (table_of hs) length) rest)).
  2:{ apply (G r []); try done. by left. }
  clear Hb H0 Hne Ec Hlt Hmax. induction pieces as [|piece pieces IH]; intros r' before Hb H0 Hd Hne Ec Hlt Hmax; cbn [app feed].
  - split; [by eexists|]. cbn [app concat] in *. rewrite app_nil_r in *. apply Forall_cons in Hne as [Hne _].
    rewrite on_data, (request_processed _ method path hs rest length) by (try done; by rewrite ?Hb, <- ?Ec).
    cbn [mbind comp_bind]. by rewrite <- Hd.
  - cbn [app] in Hne. apply Forall_cons in Hne as [Hpiece Hne]. cbn [app concat] in *.
    assert (Hlen2 : zlen (before ++ piece) ≤ cockpit_webserver_request_maximum * 2).
    { rewrite app_assoc, zlen_app in Hmax. pose proof (zlen_nonneg (concat (pieces ++ [last]))). lia. }
    rewrite (app_assoc before piece) in Ec, Hlt, Hmax. set (r1 := set_eof_okay false (set_buffer (buffer r' ++ piece) r')).
    assert (Eb1 : buffer r1 = before ++ piece) by by rewrite <- Hb. rewrite on_data by done. fold r1.
    assert (Hstep : ∃ r2, parse_and_process r1 = Ok (Waiting r2) ∧ buffer r2 = before ++ piece ∧ reply_so_far r2 length ∧ decision r2 = decision r').
    { destruct (request_part (request_text method path hs) rest (before ++ piece) (concat (pieces ++ [last])) Ec) as [(suf & Hs & E)|[part E]].
      - exists r1. split_and!; [by apply (request_waits r1 method path hs (before ++ piece) suf)|done|exact H0|done].
      - exists (set_delayed_reply 413 r1). rewrite E, !zlen_app in Hlt. pose proof (zlen_nonneg (concat pieces)).
        rewrite Ec, zlen_app in Hmax. unfold cockpit_webserver_request_maximum in *. split_and!; [|done| |done].
        + apply (body_waits r1 method path hs part length); try done; [by rewrite Eb1|by rewrite Eb1|lia|lia].
        + right. split; [|done]. pose proof (zlen_nonneg part). lia. }
    destruct Hstep as (r2 & E2 & Eb2 & H2 & Hd2). rewrite E2. cbn [mbind comp_bind].
    apply (IH r2 (before ++ piece)); try done. by rewrite Hd2.
Qed.

(** ** Every connection *)

Definition terminated (s : list Z) : Prop := ∃ a, s = a ++ [0].

Lemma span_terminated p s : p 0 = false → terminated s → terminated (drop (span_length p s) s).
Proof.
  intros H0 [a ->]. induction a as [|c a IH]; cbn [app span_length]; [rewrite H0; by exists []|].
  destruct (p c); [exact IH|]. by exists (c :: a).
Qed.

Lemma content_length_safe t : ∃ l, content_length t = Ok l.
Proof.
  unfold content_length. destruct (table_lookup t (bs "Content-Length")) as [str|]; [|by eexists].
  assert (H : ∃ x, g_ascii_strtoull (str ++ [0]) = Ok x).
  { unfold g_ascii_strtoull. pose proof (span_terminated isspace (str ++ [0]) eq_refl (ex_intro _ str eq_refl)) as [a Ha].
    rewrite Ha. destruct (a ++ [0]) as [|c rest] eqn:E; [by destruct a|]. cbv zeta.
    assert (Ht : terminated (if (c =? 45) || (c =? 43) then rest else c :: rest)).
    { destruct ((c =? 45) || (c =? 43)) eqn:Es; [|by rewrite <- E; eexists].
      destruct a as [|x a]; [injection E as <- <-; done|]. injection E as -> <-. by eexists. }
    destruct (span_terminated isdigit _ eq_refl Ht) as [b Hb]. rewrite Hb. destruct (b ++ [0]) eqn:Eb; [by destruct b|].
    destruct (_ =? 0)%nat; by eexists. }
  destruct H as [[v n] ->]. by eexists.
Qed.

(** What is kept of a request, and the reply that it is to get *)
Definition code_ok (code : Z) : Prop := code = 0 ∨ 299 < code.

Definition bounded (c : web_connection) : Prop :=
  match c with
  | Reading r => zlen (buffer r) ≤ cockpit_webserver_request_maximum * 2 ∧ code_ok (delayed_reply r)
  | _ => True
  end.

(** The path of the request is the root of the server, without a slash behind it. *)
Definition root_itself (h : handled_request) : Prop :=
  server_url_root server ≠ [] ∧ request_path h = [] ∧
  (original_path h = server_url_root server ∨ original_path h ++ [63] ++ query h = server_url_root server).

(** What has been made of a request is dealt with: the reply is sent, or the default handler looks for the handlers; only
    a request for the root itself fails its assertion. *)
Definition dealt_with (p : processed) : Prop :=
  match p with
  | DelayedReply code method path t =>
      ∀ F (filter_of : WebFilter F) g_uri_escape_string fail_html self, nul_free fail_html →
      ∃ response, cockpit_web_request_process_delayed_reply (F := F) g_uri_escape_string fail_html server self code method path t = Ok response
  | Handle h => ∀ handlers,
      (∃ claimed, cockpit_web_server_default_handle_stream h handlers = Ok claimed) ∨
      root_itself h ∧ cockpit_web_server_default_handle_stream h handlers = Fault
  end.

Lemma new_open {F} {filter_of : WebFilter F} original_path path in_headers method protocol :
  open_ (cockpit_web_response_new (F := F) original_path path in_headers method protocol).
Proof. split; [apply new_inv|done]. Qed.

Lemma reply_dealt_with code method path t : 299 < code → dealt_with (DelayedReply code method path t).
Proof.
  intros Hc F filter_of esc html self Hhtml. unfold cockpit_web_request_process_delayed_reply.
  rewrite (Z.gtb_ltb _), (proj2 (Z.ltb_lt _ _)) by done. cbn [cassert mbind comp_bind].
  set (response := cockpit_web_response_new _ _ _ _ _). assert (Ho : open_ response) by apply new_open.
  destruct (code =? 301).
  - match goal with |- context [cockpit_web_response_headers_full response ?st ?re ?len ?hs] =>
      destruct (headers_open response st re len hs Ho) as (r1 & -> & H1) end.
    cbn [mbind comp_bind]. destruct (complete_inv r1 (proj1 H1)) as (r2 & -> & _). by eexists.
  - unfold cockpit_web_response_error.
    destruct (error_inv esc html Hhtml response code None None None) as (r' & -> & _); [split; [apply Ho|by right]|by eexists].
Qed.

Lemma slash_dealt_with h handlers : head (request_path h) = Some 47 → ∃ claimed, cockpit_web_server_default_handle_stream h handlers = Ok claimed.
Proof.
  intros Hh. unfold cockpit_web_server_default_handle_stream, resource_detail.
  rewrite (bool_decide_eq_true_2 (head (request_path h) = Some 47)) by done.
  cbn [cassert mbind comp_bind]. by eexists.
Qed.

Lemma path_has_prefix_split path prefix : path_has_prefix path prefix = true → ∃ tail, path = prefix ++ tail ∧ (tail = [] ∨ head tail = Some 47).
Proof.
  unfold path_has_prefix. intros [[_ Hp]%andb_true_iff Ht]%andb_true_iff. apply prefixb_spec in Hp as [tail ->].
  exists tail. split; [done|]. rewrite drop_app_length in Ht. destruct tail as [|c tail]; [by left|right]. cbn. apply Z.eqb_eq in Ht. by subst.
Qed.

Lemma memchr_slash n path : head path = Some 47 → memchr path 63 = Some n → head (take n path) = Some 47.
Proof.
  intros Hh (a & q & -> & _ & <-)%memchr_Some. rewrite take_app_length. destruct a; [by cbn in Hh|done].
Qed.

(** What handlers are given is a path with a slash at its front, but for the root itself. *)
Lemma to_handle_path method path t : head path = Some 47 →
  bool_decide (server_url_root server ≠ []) && negb (path_has_prefix path (server_url_root server)) = false →
  head (request_path (to_handle method path t)) = Some 47 ∨ root_itself (to_handle method path t).
Proof.
  intros Hh Hroot. rewrite handle_eq. unfold root_itself. destruct (server_url_root server) as [|x root'] eqn:Er.
  { left. cbn [length]. destruct (memchr path 63) as [n|] eqn:En; cbn [request_path]; rewrite drop_0; [|done].
    destruct (n <? 0)%nat eqn:E0; [by apply Nat.ltb_lt in E0; lia|]. by apply memchr_slash. }
  rewrite <- Er in *. set (root := server_url_root server) in *. assert (Hne : root ≠ []) by (rewrite Er; done). clearbody root. clear Er x root'.
  rewrite bool_decide_eq_true_2 in Hroot by done. apply negb_false_iff, path_has_prefix_split in Hroot as (tail & -> & Ht).
  destruct (memchr (root ++ tail) 63) as [n|] eqn:En; cbn [request_path original_path query]; rewrite ?drop_app_length.
  2:{ destruct Ht as [->|Ht]; [right|by left]. rewrite app_nil_r. by split_and!; [done|done|left]. }
  apply memchr_Some in En as (a & q & E & Ha & <-). destruct (Nat.ltb_spec (length a) (length root)) as [Hl|Hl].
  - destruct Ht as [->|Ht]; [right|by left]. rewrite app_nil_r in *. split_and!; [done|done|right].
    rewrite E, take_app_length. by rewrite drop_app_add with (k := 1%nat) || (replace (S (length a)) with (length a + 1)%nat by lia; by rewrite drop_app_add).
  - left. rewrite E, take_app_length. assert (Ea : ∃ m, a = root ++ m).
    { exists (drop (length root) a). rewrite <- (take_drop (length root) a) at 1. f_equal.
      rewrite <- (take_app_le a (63 :: q)) by done. rewrite <- E. by rewrite take_app_length. }
    destruct Ea as [m ->]. rewrite <- app_assoc in E. apply app_inv_head in E. subst tail. rewrite drop_app_length.
    destruct Ht as [Ht|Ht]; [by destruct m|]. by destruct m.
Qed.

Lemma handled_eq method path t :
  match memchr path 63 with
  | Some n =>
      Handle (mkHandled (take n path) (if (n <? length (server_url_root server))%nat then drop (length (server_url_root server)) path
        else drop (length (server_url_root server)) (take n path))
        (drop (S n) path) method (table_lookup t (bs "Host")) t)
  | None => Handle (mkHandled path (drop (length (server_url_root server)) path) [] method (table_lookup t (bs "Host")) t)
  end = Handle (to_handle method path t).
Proof. rewrite handle_eq. by destruct (memchr path 63). Qed.

Lemma handled_dealt_with method path t : head path = Some 47 →
  bool_decide (server_url_root server ≠ []) && negb (path_has_prefix path (server_url_root server)) = false →
  dealt_with (Handle (to_handle method path t)).
Proof.
  intros Hh Hroot handlers. destruct (to_handle_path method path t Hh Hroot) as [H|H]; [left; by apply slash_dealt_with|right]. split; [done|].
  unfold cockpit_web_server_default_handle_stream. by destruct H as (_ & -> & _).
Qed.

Lemma process_dealt_with r method path t : code_ok (delayed_reply r) → head path = Some 47 →
  dealt_with (cockpit_web_request_process server r method path (table_lookup t (bs "Host")) t).
Proof.
  destruct r as [tls localhost b eof check code peeking]. cbn [delayed_reply]. intros Hc Hh.
  unfold cockpit_web_request_process.
  cbv beta iota zeta delta [set_delayed_reply set_check_tls_redirect io_localhost check_tls_redirect delayed_reply io_tls buffer].
  destruct (bool_decide _ && negb _) eqn:Eroot; [by apply reply_dealt_with|].
  destruct (Z.eqb_spec code 0) as [->|Hn]; cbn [andb].
  - destruct check; cbn [andb Z.eqb negb].
    + destruct (negb _ && negb localhost); cbn [Z.eqb negb]; [by apply reply_dealt_with|]. rewrite handled_eq. by apply handled_dealt_with.
    + rewrite handled_eq. by apply handled_dealt_with.
  - rewrite (proj2 (Z.eqb_neq code 0)) by done. cbn [negb]. apply reply_dealt_with. destruct Hc; lia.
Qed.

Definition settled (c : web_connection) (p : option processed) : Prop := bounded c ∧ ∀ x, p = Some x → dealt_with x.

Lemma parse_total r : code_ok (delayed_reply r) → ∃ p, parse_and_process r = Ok p ∧ settled (advance r p).1 (advance r p).2.
Proof.
  intros Hc. unfold settled, cockpit_web_request_parse_and_process.
  destruct (Z.gtb_spec (zlen (buffer r)) (cockpit_webserver_request_maximum * 2)) as [|Hb]; [by eexists|].
  destruct (web_socket_util_parse_req_line (buffer r)) as [| |off1 [method path]]; [by eexists|by eexists|].
  destruct (bool_decide_reflect (head path = Some 47)) as [Hh|]; cbn [negb]; [|by eexists].
  destruct (web_socket_util_parse_headers g_utf8_validate (drop off1 (buffer r))) as [| |off2 t]; [by eexists|by eexists|].
  destruct (content_length_safe t) as [l ->]. cbn [mbind comp_bind]. destruct l as [l|]; [|by eexists]. cbv zeta.
  destruct (_ <? u64 _); eexists; (split; [done|]); cbn [advance fst snd].
  - split; [|done]. destruct (negb (l =? 0)); (split; [done|]); [by right|done].
  - split; [done|]. intros x [= <-]. apply process_dealt_with; [|done].
    repeat case_match; first [exact Hc | by right].
Qed.

Lemma handle_total c e : bounded c → ∃ c' p, handle g_utf8_validate server c e = Ok (c', p) ∧ settled c' p.
Proof.
  intros Hb. destruct c as [r|tls localhost|], e as [created p|i| |reusable]; cbn [handle]; try (by eexists _, _; split; [done|]).
  - destruct (peeking r); [|by eexists _, _; split; [done|]]. eexists _, _. split; [apply f_equal, surjective_pairing|].
    unfold cockpit_web_request_on_socket_input. destruct p as [b| |]; [|by split..].
    destruct ((b =? 22) || (b =? 128)).
    + destruct (negb (certificate server)); [by split|]. by destruct created; split.
    + by destruct (redirect_tls server); split.
  - destruct (peeking r); [by eexists _, _; split; [done|]|].
    destruct i as [[|b bytes]| |]; cbn [cockpit_web_request_on_input mbind comp_bind]; try (by eexists _, _; split; [done|]).
    destruct (parse_total (set_eof_okay false (set_buffer (buffer r ++ b :: bytes) r))) as (p & E & Hp); [apply Hb|]. rewrite E. cbn [mbind comp_bind].
    eexists _, _. split; [apply f_equal, surjective_pairing|]. by destruct p.
  - eexists _, _. split; [done|]. split; [|done]. destruct reusable; [|done]. split; [by vm_compute|by left].
Qed.


(** ** Redirection to TLS *)

(** The path of a handled request, with its query, is one that need not have TLS. *)
Definition exempt (h : handled_request) : Prop :=
  ∃ path, (path = original_path h ∨ path = original_path h ++ [63] ++ query h) ∧
    path_has_prefix path (ssl_exception_prefix server) = true.

Lemma process_handles r method path host t h : cockpit_web_request_process server r method path host t = Handle h →
  check_tls_redirect r = true → io_localhost r = true ∨ exempt h.
Proof.
  destruct r as [tls localhost b eof check code peeking]. cbn [check_tls_redirect io_localhost]. intros E ->. revert E.
  unfold cockpit_web_request_process.
  cbv beta iota zeta delta [set_delayed_reply set_check_tls_redirect io_localhost check_tls_redirect delayed_reply io_tls buffer].
  destruct (bool_decide _ && negb _); [done|]. cbn [andb]. destruct (Z.eqb_spec code 0) as [->|Hc]; cbn [andb].
  2:{ by rewrite (proj2 (Z.eqb_neq code 0)). }
  destruct (path_has_prefix path (ssl_exception_prefix server)) eqn:Ep, localhost; cbn [negb andb Z.eqb]; try done; auto.
  intros E. right. exists path. split; [|done]. destruct (memchr path 63) as [n|] eqn:En; injection E as <-; cbn [original_path query]; [right|by left].
  apply memchr_Some in En as (a & q & -> & _ & <-). rewrite take_app_length. f_equal.
  by rewrite (drop_app_add a 1 (63 :: q) : drop (S (length a)) _ = _) || (replace (S (length a)) with (length a + 1)%nat by lia; by rewrite drop_app_add).
Qed.

Lemma Ok_inj {A} (a b : A) : Ok (E := unit) a = Ok b → a = b.
Proof. by intros [= ->]. Qed.

Lemma parse_keeps r p : parse_and_process r = Ok p →
  match p with
  | Waiting r' => io_localhost r' = io_localhost r ∧ check_tls_redirect r' = check_tls_redirect r ∧ peeking r' = peeking r
  | Ended => True
  | Processed (Handle h) _ => check_tls_redirect r = true → io_localhost r = true ∨ exempt h
  | Processed _ _ => True
  end.
Proof.
  unfold cockpit_web_request_parse_and_process. destruct (_ >? _); [by intros [= <-]|].
  destruct (web_socket_util_parse_req_line (buffer r)) as [| |off1 [method path]]; [by intros [= <-]|by intros [= <-]|].
  destruct (negb _); [by intros [= <-]|].
  destruct (web_socket_util_parse_headers g_utf8_validate (drop off1 (buffer r))) as [| |off2 t]; [by intros [= <-]|by intros [= <-]|].
  destruct (content_length_safe t) as [l ->]. cbn [mbind comp_bind]. destruct l as [l|]; [|by intros [= <-]]. cbv zeta.
  destruct (_ <? u64 _); intros <-%Ok_inj; [by destruct (negb (l =? 0))|].
  match goal with |- context [cockpit_web_request_process _ ?r1 _ _ _ _] =>
    assert (F : io_localhost r1 = io_localhost r ∧ check_tls_redirect r1 = check_tls_redirect r); [|revert F; generalize r1] end.
  - by destruct (negb (l =? 0)), (negb (bool_decide (method = bs "GET")) && _), (table_lookup t (bs "Host")) as [[|? ?]|].
  - intros r1 [F1 F2]. destruct (cockpit_web_request_process _ _ _ _ _ _) as [|h] eqn:E; [done|]. intros Hc.
    rewrite <- F1. eapply process_handles; [exact E|]. by rewrite F2.
Qed.

(** What [OnSocketInput] has seen. *)
Definition tls_seen (es : list event) : Prop :=
  ∃ b, (b = 22 ∨ b = 128) ∧ OnSocketInput true (Peeked b) ∈ es.

Definition first_request (localhost : bool) (es : list event) (c : web_connection) (done : list processed) : Prop :=
  match c with
  | Reading r => io_localhost r = localhost ∧ (peeking r = true ∨ check_tls_redirect r = true ∨ tls_seen es)
  | _ => True
  end ∧ ∀ h, Handle h ∈ done → localhost = true ∨ exempt h ∨ tls_seen es.

Lemma tls_seen_snoc es e : tls_seen es → tls_seen (es ++ [e]).
Proof. intros (b & Hb & Hin). exists b. split; [done|]. apply elem_of_app. by left. Qed.

Lemma first_request_step localhost es c done e c' p : redirect_tls server = true → (∀ b, e ≠ OnResponseDone b) →
  first_request localhost es c done → handle g_utf8_validate server c e = Ok (c', p) →
  first_request localhost (es ++ [e]) c' (done ++ option_list p).
Proof.
  intros Hredirect He [Hc Hd] E.
  assert (Hd' : ∀ h, Handle h ∈ done → localhost = true ∨ exempt h ∨ tls_seen (es ++ [e])).
  { intros h Hin. destruct (Hd h Hin) as [?|[?|?]]; auto using tls_seen_snoc. }
  assert (Hsame : ∀ c', match c' with Reading r => io_localhost r = localhost ∧ (peeking r = true ∨ check_tls_redirect r = true ∨ tls_seen (es ++ [e])) | _ => True end →
    first_request localhost (es ++ [e]) c' (done ++ option_list None)).
  { intros c2 H2. split; [done|]. cbn. by rewrite app_nil_r. }
  assert (Hkeep : match c with Reading r => io_localhost r = localhost ∧ (peeking r = true ∨ check_tls_redirect r = true ∨ tls_seen (es ++ [e])) | _ => True end).
  { destruct c; [|exact I..]. destruct Hc as [? [?|[?|?]]]; split; auto using tls_seen_snoc. }
  pose proof (Hsame c Hkeep) as Hstay.
  destruct c as [r|tls loc|], e as [created q|i| |reusable]; cbn [handle] in E; try (injection E as <- <-; exact Hstay || by apply Hsame).
  - destruct (peeking r) eqn:Epk; [|injection E as <- <-; exact Hstay].
    unfold cockpit_web_request_on_socket_input in E. destruct q as [b| |]; [|injection E as <- <-; exact Hstay || by apply Hsame..].
    destruct ((b =? 22) || (b =? 128)) eqn:Eb.
    + destruct (negb (certificate server)); [injection E as <- <-; by apply Hsame|].
      destruct created; injection E as <- <-; apply Hsame; [|done]. split; [apply Hc|]. right. right. exists b.
      split; [apply orb_true_iff in Eb; rewrite !Z.eqb_eq in Eb; tauto|]. apply elem_of_app. right. by left.
    + rewrite Hredirect in E. injection E as <- <-. apply Hsame. split; [apply Hc|]. by right; left.
  - destruct (peeking r) eqn:Epk; [injection E as <- <-; exact Hstay|].
    destruct i as [[|b bytes]| |]; cbn [cockpit_web_request_on_input mbind comp_bind] in E; try (injection E as <- <-; exact Hstay || by apply Hsame).
    destruct (parse_and_process _) as [q| |] eqn:Eq; try done. cbn [mbind comp_bind] in E. injection E as E.
    pose proof (parse_keeps _ _ Eq) as Hq. destruct q as [r'| |[|h] b']; cbn [advance] in E; injection E as <- <-.
    + apply Hsame. destruct Hq as (-> & -> & ->). cbn. rewrite Epk. exact Hkeep.
    + by apply Hsame.
    + split; [done|]. intros h [?|Hin]%elem_of_app; [by apply Hd'|]. by apply list_elem_of_singleton in Hin.
    + split; [done|]. intros h' [?|Hin]%elem_of_app; [by apply Hd'|]. apply list_elem_of_singleton in Hin. injection Hin as ->.
      destruct Hkeep as [Hl [Hk|[Hk|Hk]]]; [congruence| |by auto]. cbn in Hq. destruct (Hq Hk) as [?|?]; [left; congruence|auto].
  - by destruct (He reusable).
Qed.

(** C19: with a server that redirects to TLS, the first request of a connection is handled only over TLS,
    when it came to an address of the machine itself, or for a path that is exempt. *)
Theorem first_request_redirected localhost es c done :
  redirect_tls server = true → Forall (λ e, ∀ b, e ≠ OnResponseDone b) es →
  run g_utf8_validate server (Reading (cockpit_web_request_start false localhost true)) es c done →
  ∀ h, Handle h ∈ done → localhost = true ∨ exempt h ∨ tls_seen es.
Proof.
  intros Hredirect He Hrun. assert (H : first_request localhost es c done); [|apply H].
  induction Hrun as [|es c done e c' p _ IH E].
  - split; [by auto|]. intros h Hin. by apply elem_of_nil in Hin.
  - apply Forall_app in He as [He He']. apply Forall_cons in He' as [He' _]. apply (first_request_step localhost es c done e c' p Hredirect He' (IH He) E).
Qed.
End Decision.

(** ** A server *)

Definition example_server : CockpitWebServer := mkServer true (bs "/ping") (url_root_of (bs "/cockpit/")) true false.

Definition example_hs : headers := [(bs "Host", bs "server:9090"); (bs "Content-Length", bs "0")].

(** A run, as far as it goes. *)
Fixpoint exec (server : CockpitWebServer) (c : web_connection) (es : list event) (done : list processed)
    : option (web_connection * list processed) :=
  match es with
  | [] => Some (c, done)
  | e :: es =>
      match handle (λ _, true) server c e with
      | Ok (c, p) => exec server c es (done ++ option_list p)
      | _ => None
      end
  end.

Lemma exec_connection server c0 es : ∀ before c done c' done',
  run (λ _, true) server c0 before c done → exec server c es done = Some (c', done') →
  run (λ _, true) server c0 (before ++ es) c' done'.
Proof.
  induction es as [|e es IH]; intros before c done c' done' Hrun; cbn [exec].
  - intros [= <- <-]. by rewrite app_nil_r.
  - destruct (handle (λ _, true) server c e) as [[c1 p]| |] eqn:E; try done. intros H.
    change (e :: es) with ([e] ++ es). rewrite app_assoc. eapply IH; [|exact H]. by eapply run_snoc.
Qed.

Definition posted_hs : headers := [(bs "Host", bs "server:9090"); (bs "Content-Length", bs "4")].

(** The body of a request comes in two pieces, behind the headers. *)
Lemma request_in_pieces_witness :
  (∃ r', feed (λ _, true) example_server (cockpit_web_request_start true false false)
    [bs "GET /cockpit/x?lang=de HTTP/1.1" ++ [13]; [10] ++ bs "Host: server:9090" ++ crlf;
     bs "Content-Length: 4" ++ crlf ++ crlf; bs "ab"] = Ok (Waiting r')) ∧
  feed (λ _, true) example_server (cockpit_web_request_start true false false)
    ([bs "GET /cockpit/x?lang=de HTTP/1.1" ++ [13]; [10] ++ bs "Host: server:9090" ++ crlf;
      bs "Content-Length: 4" ++ crlf ++ crlf; bs "ab"] ++ [bs "cde"]) =
  Ok (Processed (DelayedReply 413 (bs "GET") (bs "/cockpit/x?lang=de") (table_of posted_hs)) (bs "abcde")).
Proof.
  apply (request_in_pieces (λ _, true) example_server (cockpit_web_request_start true false false) (bs "GET")
    (bs "/cockpit/x?lang=de") posted_hs _ _ (bs "abcde") 4); try done.
  - split; [done|by_decide].
  - split; [done|by_decide].
  - repeat constructor; by_decide || done.
  - by repeat constructor.
Defined.

Definition example_connection : list event :=
  [OnSocketInput false (Peeked 71); OnInput (Data (request_text (bs "GET") (bs "/cockpit/x") example_hs))].


Definition rootless_server : CockpitWebServer := mkServer true (bs "/ping") (url_root_of []) true false.

Definition ping_connection : list event :=
  [OnSocketInput false (Peeked 71); OnInput (Data (request_text (bs "GET") (bs "/ping") example_hs))].

Lemma first_request_redirected_witness :
  let h := mkHandled (bs "/ping") (bs "/ping") [] (bs "GET") (Some (bs "server:9090")) (table_of example_hs) in
  false = true ∨ exempt rootless_server h ∨ tls_seen ping_connection.
Proof.
  apply (first_request_redirected (λ _, true) rootless_server false ping_connection (Responding false false)
    [Handle (mkHandled (bs "/ping") (bs "/ping") [] (bs "GET") (Some (bs "server:9090")) (table_of example_hs))]).
  - reflexivity.
  - by repeat constructor.
  - apply (exec_connection rootless_server _ ping_connection [] (Reading (cockpit_web_request_start false false true)) []); [constructor|]. vm_compute. reflexivity.
  - by left.
Defined.

(** ** Findings *)

(** A connection stays open after it has been redirected, and its second request is handled without
    TLS. *)
Lemma second_request_not_redirected :
  exec example_server (Reading (cockpit_web_request_start false false true))
    (example_connection ++ [OnResponseDone true; OnInput (Data (request_text (bs "GET") (bs "/cockpit/x") example_hs))]) [] =
  Some (Responding false false,
    [DelayedReply 301 (bs "GET") (bs "/cockpit/x") (table_of example_hs);
     Handle (mkHandled (bs "/cockpit/x") (bs "/x") [] (bs "GET") (Some (bs "server:9090")) (table_of example_hs))]) ∧
  ∃ r, cockpit_web_request_process_delayed_reply (F := CockpitWebInject) (λ s, s) [] example_server
      (cockpit_web_request_start false false false) 301 (bs "GET") (bs "/cockpit/x") (table_of example_hs) = Ok r ∧
    keep_alive r = true.
Proof. split; [by vm_compute|]. eexists. split; vm_compute; reflexivity. Qed.

(** The path of the root itself is accepted, is empty below the root, and fails the assertion of the
    default handler. *)
Lemma url_root_itself_aborts :
  decision example_server (cockpit_web_request_start true false false) (bs "GET") (bs "/cockpit") (table_of example_hs) 0 =
    Handle (mkHandled (bs "/cockpit") [] [] (bs "GET") (Some (bs "server:9090")) (table_of example_hs)) ∧
  ∀ h handlers, request_path h = [] → cockpit_web_server_default_handle_stream h handlers = Fault.
Proof. split; [by vm_compute|]. intros h handlers E. unfold cockpit_web_server_default_handle_stream. by rewrite E. Qed.

(** A request line that is not valid is to be answered with 400, but is not answered. *)
Lemma invalid_line_not_answered :
  exec example_server (Reading (cockpit_web_request_start true false false)) [OnInput (Data (bs "GET" ++ crlf))] [] = Some (Closed, []).
Proof. by vm_compute. Qed.

(** What has been read behind a request is gone when the next one is read. *)
Lemma pipelined_request_lost :
  let text := request_text (bs "GET") (bs "/cockpit/x") example_hs in
  (λ x, match x.1 with Reading r => buffer r | _ => text end) <$>
    exec example_server (Reading (cockpit_web_request_start true false false)) [OnInput (Data (text ++ text)); OnResponseDone true] [] =
  Some [].
Proof. by vm_compute. Qed.
