(* ===== verification/Creds.v ===== *)
(** * Credentials: [src/ws/cockpitcreds.c]

    Who has logged in, for which application, and the password while it may be used.  The
    memory of every password that the credentials have been given is kept in the list
    [bytes], newest first, so that what stays in memory can be stated; the current password
    is the first of them. *)

From S2P Require Import Prelude Json.
#[local] Open Scope Z_scope.

Record CockpitCreds := mkCreds {
  poisoned : bool;
  user : option (list Z);
  application : list Z;
  password : bool;
  rhost : option (list Z);
  csrf_token : option (list Z);
  login_data : option object;
  bytes : list (list Z);
  superuser : option (list Z)
}.

(** [cockpit_memory_clear] *)
Definition cockpit_memory_clear (data : list Z) : list Z := replicate (length data) 0.

Definition cockpit_creds_set_user (c : CockpitCreds) (u : option (list Z)) : CockpitCreds :=
  mkCreds (poisoned c) u (application c) (password c) (rhost c) (csrf_token c) (login_data c)
    (bytes c) (superuser c).

Definition cleared_bytes (c : CockpitCreds) : list (list Z) :=
  if password c then
    match bytes c with p :: l => cockpit_memory_clear p :: l | [] => [] end
  else bytes c.

Definition cockpit_creds_set_password (c : CockpitCreds) (p : option (list Z)) : CockpitCreds :=
  let l := cleared_bytes c in
  mkCreds (poisoned c) (user c) (application c) (bool_decide (is_Some p)) (rhost c) (csrf_token c)
    (login_data c) (match p with Some p => p :: l | None => l end) (superuser c).

Definition cockpit_creds_set_login_data (c : CockpitCreds) (d : option object) : CockpitCreds :=
  mkCreds (poisoned c) (user c) (application c) (password c) (rhost c) (csrf_token c) d
    (bytes c) (superuser c).

Definition cockpit_creds_poison (c : CockpitCreds) : CockpitCreds :=
  cockpit_creds_set_password
    (mkCreds true (user c) (application c) (password c) (rhost c) (csrf_token c) (login_data c)
       (bytes c) (superuser c)) None.

Definition cockpit_creds_get_password (c : CockpitCreds) : option (list Z) :=
  if poisoned c then None else if password c then head (bytes c) else None.

(** The named values of [cockpit_creds_new]. *)
Inductive cred :=
| COCKPIT_CRED_USER (v : option (list Z))
| COCKPIT_CRED_PASSWORD (v : option (list Z))
| COCKPIT_CRED_RHOST (v : option (list Z))
| COCKPIT_CRED_CSRF_TOKEN (v : option (list Z))
| COCKPIT_CRED_SUPERUSER (v : option (list Z)).

(** One turn of the loop over the arguments: the credentials and the password. *)
Definition creds_arg (c : CockpitCreds * option (list Z)) (a : cred) : CockpitCreds * option (list Z) :=
  let '(c, p) := c in
  match a with
  | COCKPIT_CRED_USER v => (cockpit_creds_set_user c v, p)
  | COCKPIT_CRED_PASSWORD v => (c, v)
  | COCKPIT_CRED_RHOST v =>
      (mkCreds (poisoned c) (user c) (application c) (password c) v (csrf_token c) (login_data c)
         (bytes c) (superuser c), p)
  | COCKPIT_CRED_CSRF_TOKEN v =>
      (mkCreds (poisoned c) (user c) (application c) (password c) (rhost c) v (login_data c)
         (bytes c) (superuser c), p)
  | COCKPIT_CRED_SUPERUSER v =>
      (mkCreds (poisoned c) (user c) (application c) (password c) (rhost c) (csrf_token c) (login_data c)
         (bytes c) v, p)
  end.

Definition cockpit_creds_new (app : list Z) (args : list cred) : option CockpitCreds :=
  if bool_decide (app = []) then None
  else
    let '(c, p) := foldl creds_arg (mkCreds false None app false None None None [] None, None) args in
    Some match p with Some _ => cockpit_creds_set_password c p | None => c end.

Definition cockpit_creds_to_json (c : CockpitCreds) : object :=
  let o := json_object_set_member [] (bs "csrf-token")
             match csrf_token c with Some t => JString t | None => JNull end in
  match login_data c with
  | Some d => json_object_set_member o (bs "login-data") (JObject d)
  | None => o
  end.

(** ** What stays in memory *)

Definition zeros (s : list Z) : Prop := Forall (λ b, b = 0) s.

(** Everything but the current password is overwritten. *)
Definition clean (c : CockpitCreds) : Prop :=
  Forall zeros (if password c then tail (bytes c) else bytes c).

Lemma cleared_zeros c : clean c → Forall zeros (cleared_bytes c).
Proof.
  unfold clean, cleared_bytes. destruct (password c); [|done].
  destruct (bytes c) as [|p l]; [done|]. cbn. constructor; [|done].
  unfold zeros, cockpit_memory_clear. by apply Forall_replicate.
Qed.

Lemma set_password_clean c p : clean c → clean (cockpit_creds_set_password c p).
Proof. intros H%cleared_zeros. unfold clean. by destruct p. Qed.

Lemma poison_clears c : clean c → Forall zeros (bytes (cockpit_creds_poison c)).
Proof. intros H. by apply (cleared_zeros (mkCreds true _ _ _ _ _ _ _ _)). Qed.

Lemma creds_args_clean c p args :
  clean c → password c = false →
  clean (foldl creds_arg (c, p) args).1 ∧ password (foldl creds_arg (c, p) args).1 = false.
Proof.
  revert c p. induction args as [|a args IH]; intros c p Hc Hp; [done|].
  cbn [foldl]. destruct a; cbn [creds_arg]; by apply IH.
Qed.

Lemma creds_new_clean app args c : cockpit_creds_new app args = Some c → clean c.
Proof.
  unfold cockpit_creds_new. destruct (bool_decide _); [done|].
  destruct (creds_args_clean (mkCreds false None app false None None None [] None) None args)
    as [H1 H2]; [constructor|done|].
  destruct (foldl _ _ _) as [c' p]. cbn in H1, H2. destruct p as [p|]; intros [= <-]; [|done].
  by apply set_password_clean.
Qed.
