(* ===== verification/Auth.v ===== *)
(** * Authentication: [src/ws/cockpitauth.c]

    The sessions of the web service: starting session processes for requests to log in,
    conversations with them, cookies, timeouts, and the life time of every session.

    Sessions live in the [heap] of the state and are counted references; reading or writing
    one that has been freed is a [Fault].  The state also holds what GLib keeps: the
    pending and finished tasks, the handlers connected to signals ([hooks]), the timeouts
    of the main loop ([sources]), and the services that sessions drive.  The service of a
    session has the number of the session, and so have its transport and the process.

    A [GTask] that has a result calls back either before [g_task_return] comes back or
    later from the main loop; [now] says which, and a callback that is still due is a step
    of its own ([TaskCallback]).  Likewise [closes_now] says whether closing a transport
    emits its [closed] signal at once.  Section variables stand for the keyed hash of
    nonces, base64 of GLib and its other helpers; configuration is the class [Config]. *)

From S2P Require Import Prelude Json Conf Http WebServer Creds Authorize.
#[local] Open Scope Z_scope.

(** ** Data *)

Inductive error_code := AUTHENTICATION_FAILED | PERMISSION_DENIED | FAILED | SHELL_ERROR.

Record GError := mkError { code : error_code; message : list Z }.

Record CockpitSession := mkSession {
  refs : Z;
  session_name : list Z;
  cookie : option (list Z);
  service : bool;
  initialized : bool;
  timeout_tag : option nat;
  control_sig : bool;
  close_sig : bool;
  client_timeout : Z;
  authorize_timeout : Z;
  login_task : option nat;
  authorization : option (list Z);
  authorize : option object;
  init_failure : option object;
  conversation : option (list Z)
}.

Definition set_refs (x : Z) (r : CockpitSession) : CockpitSession :=
  mkSession x (session_name r) (cookie r) (service r) (initialized r) (timeout_tag r)
    (control_sig r) (close_sig r) (client_timeout r) (authorize_timeout r) (login_task r)
    (authorization r) (authorize r) (init_failure r) (conversation r).
Definition set_cookie (x : option (list Z)) (r : CockpitSession) : CockpitSession :=
  mkSession (refs r) (session_name r) x (service r) (initialized r) (timeout_tag r)
    (control_sig r) (close_sig r) (client_timeout r) (authorize_timeout r) (login_task r)
    (authorization r) (authorize r) (init_failure r) (conversation r).
Definition set_service (x : bool) (r : CockpitSession) : CockpitSession :=
  mkSession (refs r) (session_name r) (cookie r) x (initialized r) (timeout_tag r)
    (control_sig r) (close_sig r) (client_timeout r) (authorize_timeout r) (login_task r)
    (authorization r) (authorize r) (init_failure r) (conversation r).
Definition set_initialized (x : bool) (r : CockpitSession) : CockpitSession :=
  mkSession (refs r) (session_name r) (cookie r) (service r) x (timeout_tag r) (control_sig r)
    (close_sig r) (client_timeout r) (authorize_timeout r) (login_task r) (authorization r)
    (authorize r) (init_failure r) (conversation r).
Definition set_timeout_tag (x : option nat) (r : CockpitSession) : CockpitSession :=
  mkSession (refs r) (session_name r) (cookie r) (service r) (initialized r) x (control_sig r)
    (close_sig r) (client_timeout r) (authorize_timeout r) (login_task r) (authorization r)
    (authorize r) (init_failure r) (conversation r).
Definition set_control_sig (x : bool) (r : CockpitSession) : CockpitSession :=
  mkSession (refs r) (session_name r) (cookie r) (service r) (initialized r) (timeout_tag r) x
    (close_sig r) (client_timeout r) (authorize_timeout r) (login_task r) (authorization r)
    (authorize r) (init_failure r) (conversation r).
Definition set_close_sig (x : bool) (r : CockpitSession) : CockpitSession :=
  mkSession (refs r) (session_name r) (cookie r) (service r) (initialized r) (timeout_tag r)
    (control_sig r) x (client_timeout r) (authorize_timeout r) (login_task r) (authorization r)
    (authorize r) (init_failure r) (conversation r).
Definition set_client_timeout (x : Z) (r : CockpitSession) : CockpitSession :=
  mkSession (refs r) (session_name r) (cookie r) (service r) (initialized r) (timeout_tag r)
    (control_sig r) (close_sig r) x (authorize_timeout r) (login_task r) (authorization r)
    (authorize r) (init_failure r) (conversation r).
Definition set_authorize_timeout (x : Z) (r : CockpitSession) : CockpitSession :=
  mkSession (refs r) (session_name r) (cookie r) (service r) (initialized r) (timeout_tag r)
    (control_sig r) (close_sig r) (client_timeout r) x (login_task r) (authorization r)
    (authorize r) (init_failure r) (conversation r).
Definition set_login_task (x : option nat) (r : CockpitSession) : CockpitSession :=
  mkSession (refs r) (session_name r) (cookie r) (service r) (initialized r) (timeout_tag r)
    (control_sig r) (close_sig r) (client_timeout r) (authorize_timeout r) x (authorization r)
    (authorize r) (init_failure r) (conversation r).
Definition set_authorization (x : option (list Z)) (r : CockpitSession) : CockpitSession :=
  mkSession (refs r) (session_name r) (cookie r) (service r) (initialized r) (timeout_tag r)
    (control_sig r) (close_sig r) (client_timeout r) (authorize_timeout r) (login_task r) x
    (authorize r) (init_failure r) (conversation r).
Definition set_authorize (x : option object) (r : CockpitSession) : CockpitSession :=
  mkSession (refs r) (session_name r) (cookie r) (service r) (initialized r) (timeout_tag r)
    (control_sig r) (close_sig r) (client_timeout r) (authorize_timeout r) (login_task r)
    (authorization r) x (init_failure r) (conversation r).
Definition set_init_failure (x : option object) (r : CockpitSession) : CockpitSession :=
  mkSession (refs r) (session_name r) (cookie r) (service r) (initialized r) (timeout_tag r)
    (control_sig r) (close_sig r) (client_timeout r) (authorize_timeout r) (login_task r)
    (authorization r) (authorize r) x (conversation r).
Definition set_conversation (x : option (list Z)) (r : CockpitSession) : CockpitSession :=
  mkSession (refs r) (session_name r) (cookie r) (service r) (initialized r) (timeout_tag r)
    (control_sig r) (close_sig r) (client_timeout r) (authorize_timeout r) (login_task r)
    (authorization r) (authorize r) (init_failure r) x.
(** The web service of a session, as far as it matters here. *)
Record CockpitWebService := mkService {
  creds : CockpitCreds;
  service_id : option (list Z);
  closing : bool;
  transport_hooked : bool;     (* its own handlers on the transport *)
  handed_out : bool            (* a request has been given this service *)
}.

(** A task: the session it keeps, whether it is a login, the stream it answers on, and its
    result once it has one. *)
Record GTask := mkTask {
  task_data : option nat;
  task_login : bool;
  task_connection : option (nat * bool);   (* with [G_IS_SOCKET_CONNECTION] *)
  task_result : option (option GError)
}.

(** What is connected to the signals of a session's transport and service. *)
Inductive hook := Control | Closed | Idling | Destroy | Gone.

#[export] Instance hook_eq : EqDecision hook.
Proof. solve_decision. Defined.

#[export] Instance hook_countable : Countable hook.
Proof.
  refine (inj_countable'
    (λ h, match h with Control => 0 | Closed => 1 | Idling => 2 | Destroy => 3 | Gone => 4 end)%nat
    (λ n, match n with 0 => Control | 1 => Closed | 2 => Idling | 3 => Destroy | _ => Gone end)%nat _).
  by intros [].
Defined.

Inductive source := AuthorizeTimeout (s : nat) | SessionTimeout (s : nat) | ProcessTimeout.

Record reply := mkReply {
  reply_error : option GError;
  reply_headers : headers;
  reply_body : option object
}.

(** The program of a session: a command with what is added to its environment, or a socket. *)
Inductive program :=
| Spawn (argv : list (list Z)) (env : headers) (capture_stderr : bool)
| Connect (unix_path : list Z).

(** What the outside sees. *)
Inductive output :=
| Started (s : nat) (p : program)
| Sent (s : nat) (payload : list Z)
| Replied (task : nat) (r : reply)
| TransportClose (s : nat) (problem : option (list Z))
| AuthIdling.

Record state := mkState {
  sessions : gmap (list Z) nat;
  conversations : gmap (list Z) nat;
  nonce_seed : Z;
  auth_timeout_tag : option nat;
  startups : Z;
  gssapi_available : Z;
  heap : gmap nat CockpitSession;
  services : gmap nat CockpitWebService;
  tasks : gmap nat GTask;
  hooks : gset (nat * hook);
  sources : gmap nat (Z * source);
  connection_data : gmap nat (list Z);
  next : nat;
  log : list output
}.

Definition set_sessions (x : gmap (list Z) nat) (r : state) : state :=
  mkState x (conversations r) (nonce_seed r) (auth_timeout_tag r) (startups r)
    (gssapi_available r) (heap r) (services r) (tasks r) (hooks r) (sources r)
    (connection_data r) (next r) (log r).
Definition set_conversations (x : gmap (list Z) nat) (r : state) : state :=
  mkState (sessions r) x (nonce_seed r) (auth_timeout_tag r) (startups r) (gssapi_available r)
    (heap r) (services r) (tasks r) (hooks r) (sources r) (connection_data r) (next r) (log r).
Definition set_nonce_seed (x : Z) (r : state) : state :=
  mkState (sessions r) (conversations r) x (auth_timeout_tag r) (startups r)
    (gssapi_available r) (heap r) (services r) (tasks r) (hooks r) (sources r)
    (connection_data r) (next r) (log r).
Definition set_auth_timeout_tag (x : option nat) (r : state) : state :=
  mkState (sessions r) (conversations r) (nonce_seed r) x (startups r) (gssapi_available r)
    (heap r) (services r) (tasks r) (hooks r) (sources r) (connection_data r) (next r) (log r).
Definition set_startups (x : Z) (r : state) : state :=
  mkState (sessions r) (conversations r) (nonce_seed r) (auth_timeout_tag r) x
    (gssapi_available r) (heap r) (services r) (tasks r) (hooks r) (sources r)
    (connection_data r) (next r) (log r).
Definition set_gssapi_available (x : Z) (r : state) : state :=
  mkState (sessions r) (conversations r) (nonce_seed r) (auth_timeout_tag r) (startups r) x
    (heap r) (services r) (tasks r) (hooks r) (sources r) (connection_data r) (next r) (log r).
Definition set_heap (x : gmap nat CockpitSession) (r : state) : state :=
  mkState (sessions r) (conversations r) (nonce_seed r) (auth_timeout_tag r) (startups r)
    (gssapi_available r) x (services r) (tasks r) (hooks r) (sources r) (connection_data r)
    (next r) (log r).
Definition set_services (x : gmap nat CockpitWebService) (r : state) : state :=
  mkState (sessions r) (conversations r) (nonce_seed r) (auth_timeout_tag r) (startups r)
    (gssapi_available r) (heap r) x (tasks r) (hooks r) (sources r) (connection_data r) (next r)
    (log r).
Definition set_tasks (x : gmap nat GTask) (r : state) : state :=
  mkState (sessions r) (conversations r) (nonce_seed r) (auth_timeout_tag r) (startups r)
    (gssapi_available r) (heap r) (services r) x (hooks r) (sources r) (connection_data r)
    (next r) (log r).
Definition set_hooks (x : gset (nat * hook)) (r : state) : state :=
  mkState (sessions r) (conversations r) (nonce_seed r) (auth_timeout_tag r) (startups r)
    (gssapi_available r) (heap r) (services r) (tasks r) x (sources r) (connection_data r)
    (next r) (log r).
Definition set_sources (x : gmap nat (Z * source)) (r : state) : state :=
  mkState (sessions r) (conversations r) (nonce_seed r) (auth_timeout_tag r) (startups r)
    (gssapi_available r) (heap r) (services r) (tasks r) (hooks r) x (connection_data r)
    (next r) (log r).
Definition set_connection_data (x : gmap nat (list Z)) (r : state) : state :=
  mkState (sessions r) (conversations r) (nonce_seed r) (auth_timeout_tag r) (startups r)
    (gssapi_available r) (heap r) (services r) (tasks r) (hooks r) (sources r) x (next r)
    (log r).
Definition set_next (x : nat) (r : state) : state :=
  mkState (sessions r) (conversations r) (nonce_seed r) (auth_timeout_tag r) (startups r)
    (gssapi_available r) (heap r) (services r) (tasks r) (hooks r) (sources r)
    (connection_data r) x (log r).
Definition set_log (x : list output) (r : state) : state :=
  mkState (sessions r) (conversations r) (nonce_seed r) (auth_timeout_tag r) (startups r)
    (gssapi_available r) (heap r) (services r) (tasks r) (hooks r) (sources r)
    (connection_data r) (next r) x.

(** ** The monad *)

Definition auth (A : Type) : Type := prog state unit A.

#[export] Instance auth_ret : MRet auth := λ A a, prog_ret A a.
#[export] Instance auth_bind : MBind auth := λ A B f m, prog_bind A B f m.

Definition get {A} (f : state → A) : auth A := λ st, (Ok (f st), st).
Definition modify (f : state → state) : auth unit := λ st, (Ok tt, f st).
Definition fault {A} : auth A := λ st, (Fault, st).
Definition when (b : bool) (m : auth unit) : auth unit := if b then m else mret tt.

(** Using a session through its pointer. *)
Definition get_session (s : nat) : auth CockpitSession := λ st,
  match heap st !! s with Some x => (Ok x, st) | None => (Fault, st) end.

Definition upd_session (s : nat) (f : CockpitSession → CockpitSession) : auth unit := λ st,
  match heap st !! s with
  | Some x => (Ok tt, set_heap (<[s := f x]> (heap st)) st)
  | None => (Fault, st)
  end.

Definition upd_service (s : nat) (f : CockpitWebService → CockpitWebService) : auth unit :=
  modify (λ st, set_services (alter f s (services st)) st).

Definition output_ (o : output) : auth unit := modify (λ st, set_log (log st ++ [o]) st).

Definition set_creds (c : CockpitCreds) (w : CockpitWebService) : CockpitWebService :=
  mkService c (service_id w) (closing w) (transport_hooked w) (handed_out w).

(** [cockpit_web_service_set_id] *)
Definition set_service_id (i : list Z) (w : CockpitWebService) : CockpitWebService :=
  mkService (creds w) (Some (default i (service_id w))) (closing w) (transport_hooked w) (handed_out w).

(** What [cockpit_web_service_dispose] does to the service: it lets go of the transport, and
    closes it the first time, which is noticed later. *)
Definition close_service (s : nat) : auth unit := modify (λ st,
  set_log (log st ++ match services st !! s with
                     | Some w => if closing w then [] else [TransportClose s None]
                     | None => []
                     end)
    (set_services (alter (λ w, mkService (creds w) (service_id w) true false (handed_out w)) s
                     (services st)) st)).

(** ** Timeouts of the main loop *)

(** [g_timeout_add_seconds] *)
Definition add_source (seconds : Z) (src : source) : auth nat := λ st,
  (Ok (next st), set_next (S (next st)) (set_sources (<[next st := (seconds, src)]> (sources st)) st)).

(** [if (tag) g_source_remove (tag)] *)
Definition remove_source (tag : option nat) : auth unit :=
  match tag with
  | Some t => modify (λ st, set_sources (delete t (sources st)) st)
  | None => mret tt
  end.

Definition disconnect (s : nat) (hs : list hook) : auth unit :=
  modify (λ st, set_hooks (hooks st ∖ list_to_set (pair s <$> hs)) st).

(** ** Strings *)

Definition LOCAL_SESSION : list Z := bs "local-session".
Definition ACTION_SSH : list Z := bs "remote-login-ssh".
Definition ACTION_NONE : list Z := bs "none".
Definition SSH_SECTION : list Z := bs "Ssh-Login".
Definition MAX_AUTH_TIMEOUT : Z := 900.
Definition MIN_AUTH_TIMEOUT : Z := 1.

Definition application_parse_host (app : list Z) : option (list Z) :=
  if prefixb (bs "cockpit+=") app then
    match drop 9 app with [] => None | h => Some h end
  else None.

Definition application_cookie_name (app : list Z) : list Z :=
  match application_parse_host app with
  | Some host => bs "machine-cockpit+" ++ host
  | None => app
  end.

(** Up to the first slash. *)
Definition until_slash (path : list Z) : list Z :=
  match strchr path 47 with Some n => take (Z.to_nat n) path | None => path end.

(** [None] for a path that does not begin with a slash; the boolean is [*is_host]. *)
Definition cockpit_auth_parse_application (path : list Z) : option (list Z * bool) :=
  match path with
  | c :: path =>
      if c =? 47 then
        let val :=
          if prefixb (bs "cockpit+") path && (8 <? zlen path) then until_slash path
          else if prefixb (bs "=") path && (1 <? zlen path) then bs "cockpit+" ++ until_slash path
          else bs "cockpit" in
        Some (val, bool_decide (is_Some (application_parse_host val)))
      else None
  | [] => None
  end.

Definition cockpit_auth_empty_cookie_value (path : list Z) (secure : bool) : list Z :=
  match cockpit_auth_parse_application path with
  | Some (app, _) =>
      application_cookie_name app ++ bs "=deleted; PATH=/; SameSite=strict;" ++
      (if secure then bs " Secure;" else []) ++ bs " HttpOnly"
  | None => []
  end.

(** ** Limits on logging in *)

Record settings := mkSettings {
  for_tls_proxy : bool;
  login_loopback : bool;
  max_startups : Z;
  max_startups_begin : Z;
  max_startups_rate : Z
}.

Definition default_max_startups : Z := 10.

(** ["%u"]: the value and what follows; [strtoul] stops at the largest [unsigned long] *)
Definition scan_u (s : list Z) : option (Z * list Z) :=
  let t := (span isspace s).2 in
  let '(neg, t) :=
    match t with
    | c :: t' => if c =? 45 then (true, t') else if c =? 43 then (false, t') else (false, t)
    | [] => (false, t)
    end in
  match span isdigit t with
  | ([], _) => None
  | (d, r) =>
      let v := dec_value d in
      Some (u32 (if v >=? 2 ^ 64 then 2 ^ 64 - 1 else if neg : bool then - v else v), r)
  end.

(** What [sscanf (spec, "%u:%u:%u", ...)] stores, up to three numbers. *)
Definition scan_startups (spec : list Z) : list Z :=
  match scan_u spec with
  | None => []
  | Some (a, r) =>
      match r with
      | 58 :: r =>
          match scan_u r with
          | None => [a]
          | Some (b, r) =>
              match r with
              | 58 :: r => match scan_u r with None => [a; b] | Some (c, _) => [a; b; c] end
              | _ => [a; b]
              end
          end
      | _ => [a]
      end
  end.

Definition max_startups_of (spec : list Z) : Z * Z * Z :=
  let default_ := (default_max_startups, 100, default_max_startups) in
  let '(begin_, rate, max_, count) :=
    match scan_startups spec with
    | [a] => (a, 100, a, 1)
    | [a; b] => (a, 100, a, 2)
    | [a; b; c] => (a, b, c, 3)
    | _ => (default_max_startups, 100, default_max_startups, 0)
    end in
  if (count <? 1) || (begin_ >? max_) || (rate >? 100) || (rate <? 1) then default_
  else (begin_, rate, max_).

(** [cockpit_auth_new]; [cockpit_ws_max_startups] is what tests set. *)
Definition cockpit_auth_new `{Config} (cockpit_ws_max_startups : option (list Z))
    (loopback tls_proxy : bool) : settings :=
  let conf :=
    match cockpit_ws_max_startups with
    | Some s => Some s
    | None => conf_string (bs "WebService") (bs "MaxStartups")
    end in
  let '(begin_, rate, max_) :=
    match conf with
    | Some spec => max_startups_of spec
    | None => (default_max_startups, 100, default_max_startups)
    end in
  mkSettings tls_proxy loopback max_ begin_ rate.

(** An [int]. *)
Definition s32 (z : Z) : Z := u32 (z + 2 ^ 31) - 2 ^ 31.

(** [r] is the random number from 0 to 99; [None] is a division by zero. *)
Definition can_start_auth (g : settings) (startups : Z) (r : Z) : option bool :=
  if max_startups g =? 0 then Some true
  else if startups <=? max_startups_begin g then Some true
  else if startups >? max_startups g then Some false
  else if max_startups_rate g =? 100 then Some false
  else
    let p := u32 (100 - max_startups_rate g) in
    let p := u32 (p * u32 (startups - max_startups_begin g)) in
    let d := u32 (max_startups g - max_startups_begin g) in
    if d =? 0 then None
    else
      let p := u32 (p / d) in
      let p := s32 (p + max_startups_rate g) in
      Some (negb (r <? p)).

(** ** Sessions *)

Section Auth.
Context `{Config} (g : settings).
Context (hmac : Z → list Z).                              (* under the key of this process *)
Context (g_base64_encode g_base64_decode : list Z → list Z).
Context (g_path_get_basename : list Z → list Z).
Context (g_shell_parse_argv : list Z → option (list (list Z))).
Context (g_uri_unescape_segment : list Z → option (list Z)).
Context (malloc : nat → list Z).
Context (process_idle : Z) (no_debug : bool).             (* from the environment *)
Context (now closes_now : bool).

Definition cockpit_ws_service_idle : Z := 15.
Definition cockpit_ws_auth_process_timeout : Z := 30.
Definition cockpit_ws_auth_response_timeout : Z := 60.
Definition cockpit_ws_session_program : list Z := bs "/usr/libexec/cockpit-session".
Definition cockpit_ws_ssh_program : list Z := bs "/usr/libexec/cockpit-ssh".

Definition cockpit_auth_nonce : auth (list Z) := λ st,
  (Ok (hmac (nonce_seed st)), set_nonce_seed (u64 (nonce_seed st + 1)) st).

Definition timeout_option (name type : list Z) (default_value : Z) : Z :=
  conf_uint type name default_value MAX_AUTH_TIMEOUT MIN_AUTH_TIMEOUT.

(** The loop over the fields, which stops at the first that is missing. *)
Fixpoint reply_fields (i : nat) (fields : list (option (list Z))) : list Z :=
  match fields with
  | Some f :: fields' =>
      (if (i =? 0)%nat then bs "{" else if Nat.even i then bs "," else bs ":") ++
      cockpit_json_write (λ _, []) (JString f) ++ reply_fields (S i) fields'
  | _ => []
  end.

Definition authorize_reply (cookie_ authorization_ : option (list Z)) : list Z :=
  reply_fields 0 [Some (bs "command"); Some (bs "authorize"); Some (bs "cookie"); cookie_;
                  Some (bs "response"); authorization_] ++ bs "}".

Definition send_authorize_reply (s : nat) (cookie_ authorization_ : option (list Z)) : auth unit :=
  output_ (Sent s (authorize_reply cookie_ authorization_)).

(** The type of a challenge or an authorization, if there is one. *)
Definition type_of (challenge : option (list Z)) : option (list Z) :=
  match cockpit_authorize_type challenge with Ok (t, _) => Some t | _ => None end.

Definition reply_authorize_challenge (s : nat) : auth bool :=
  sess ← get_session s;
  match authorize sess with
  | None => mret false
  | Some a =>
      match cockpit_json_get_string a (bs "cookie") None,
            cockpit_json_get_string a (bs "challenge") None,
            cockpit_json_get_string a (bs "response") None with
      | Some cookie_, Some challenge, Some response =>
          match response, cookie_, challenge with
          | Some response, None, _ =>
              _ ← upd_session s (set_authorization (Some response)); mret true
          | _, Some cookie_, Some challenge =>
              match type_of (Some challenge) with
              | None => mret false
              | Some authorize_type =>
                  if decide (authorize_type = bs "x-login-data") then
                    _ ← match cockpit_json_get_object a (bs "login-data") None with
                        | Some (Some d) =>
                            when (service sess)
                              (upd_service s (λ w, set_creds (cockpit_creds_set_login_data (creds w) (Some d)) w))
                        | _ => mret tt
                        end;
                    mret true
                  else
                    match authorization sess with
                    | None => mret false
                    | Some authorization_ =>
                        match type_of (Some authorization_) with
                        | None => mret false
                        | Some authorization_type =>
                            if decide (authorize_type = bs "*" ∨ authorize_type = authorization_type) then
                              _ ← send_authorize_reply s (Some cookie_) (Some authorization_);
                              _ ← upd_session s (set_authorization None);
                              mret true
                            else mret false
                        end
                    end
              end
          | _, _, _ => mret false
          end
      | _, _, _ => mret false
      end
  end.

Definition reset_authorize_timeout (s : nat) (waiting_for_client : bool) : auth unit :=
  sess ← get_session s;
  let seconds := if waiting_for_client then client_timeout sess else authorize_timeout sess in
  _ ← remove_source (timeout_tag sess);
  tag ← add_source seconds (AuthorizeTimeout s);
  upd_session s (set_timeout_tag (Some tag)).

Definition on_web_service_idling (s : nat) : auth unit :=
  sess ← get_session s;
  _ ← remove_source (timeout_tag sess);
  tag ← add_source cockpit_ws_service_idle (SessionTimeout s);
  _ ← upd_session s (set_timeout_tag (Some tag));
  tag ← get auth_timeout_tag;
  _ ← remove_source tag;
  tag ← add_source process_idle ProcessTimeout;
  modify (set_auth_timeout_tag (Some tag)).

(** The headers, the body and the conversation, or [None]. *)
Definition build_authorize_challenge (a : object) (connection : option (nat * bool)) (hs : headers)
    : auth (option (headers * object * option (list Z))) :=
  match cockpit_json_get_string a (bs "challenge") None with
  | Some (Some challenge) =>
      match type_of (Some challenge) with
      | None => mret None
      | Some type =>
          let hs := table_insert hs (bs "WWW-Authenticate") challenge in
          conv ←
            (if decide (type = bs "negotiate") then
               _ ← modify (set_gssapi_available 1);
               n ← cockpit_auth_nonce;
               _ ← match connection with
                   | Some (c, _) => modify (λ st, set_connection_data (<[c := n]> (connection_data st)) st)
                   | None => mret tt
                   end;
               mret (Some n)
             else if decide (type = bs "x-conversation") then
               mret match cockpit_authorize_subject (Some challenge) with
                    | Ok (c, _) => Some c | _ => None end
             else mret None);
          let body := filter (λ m, m.1 ≠ bs "challenge" ∧ m.1 ≠ bs "cookie") a in
          mret (Some (hs, body, conv))
      end
  | _ => mret None
  end.

Definition set_cookie_header (app : list Z) (cookie_ : list Z) (force_secure : bool) : list Z :=
  application_cookie_name app ++ bs "=" ++ g_base64_encode cookie_ ++
  bs "; Path=/; SameSite=Strict;" ++ (if force_secure then bs " Secure;" else []) ++ bs " HttpOnly".

(** *** Ending sessions

    [cockpit_session_reset] and [cockpit_session_unref] call each other, through the tables
    and the tasks; [reset] is the call of the one from the other. *)
Section Reset.
Context (reset : nat → auth unit).

Definition cockpit_session_unref (s : nat) : auth unit :=
  _ ← upd_session s (λ sess, set_refs (refs sess - 1) sess);
  sess ← get_session s;
  if refs sess >? 0 then mret tt
  else
    _ ← reset s;
    sess ← get_session s;
    _ ← disconnect s ((if control_sig sess then [Control] else []) ++
                      (if close_sig sess then [Closed] else []));
    _ ← when (service sess) (
      _ ← upd_service s (λ w, set_creds (cockpit_creds_poison (creds w)) w);
      _ ← upd_session s (set_service false);
      _ ← disconnect s [Idling; Destroy; Gone];
      close_service s);
    _ ← remove_source (timeout_tag sess);
    modify (λ st, set_heap (delete s (heap st)) st).

Definition cockpit_session_ref (s : nat) : auth unit :=
  upd_session s (λ sess, set_refs (refs sess + 1) sess).

(** The tables own a reference to what they hold. *)
Definition sessions_remove (k : list Z) : auth unit :=
  old ← get (λ st, sessions st !! k);
  match old with
  | None => mret tt
  | Some v => _ ← modify (λ st, set_sessions (delete k (sessions st)) st); cockpit_session_unref v
  end.

Definition conversations_remove (k : list Z) : auth unit :=
  old ← get (λ st, conversations st !! k);
  match old with
  | None => mret tt
  | Some v =>
      _ ← modify (λ st, set_conversations (delete k (conversations st)) st); cockpit_session_unref v
  end.

Definition sessions_insert (k : list Z) (s : nat) : auth unit :=
  old ← get (λ st, sessions st !! k);
  _ ← modify (λ st, set_sessions (<[k := s]> (sessions st)) st);
  match old with Some v => cockpit_session_unref v | None => mret tt end.

Definition conversations_replace (k : list Z) (s : nat) : auth unit :=
  old ← get (λ st, conversations st !! k);
  _ ← modify (λ st, set_conversations (<[k := s]> (conversations st)) st);
  match old with Some v => cockpit_session_unref v | None => mret tt end.

Definition end_startup : auth unit := modify (λ st, set_startups (u32 (startups st - 1)) st).

(** The session has its cookie from here on. *)
Definition login_successful (s : nat) (connection : option (nat * bool)) (hs : headers)
    : auth (headers * object) :=
  _ ← on_web_service_idling s;
  sess ← get_session s;
  w ← get (λ st, if service sess then services st !! s else None);
  id ← cockpit_auth_nonce;
  let cookie_ := bs "v=2;k=" ++ id in
  _ ← upd_session s (set_cookie (Some cookie_));
  _ ← cockpit_session_ref s;
  _ ← sessions_insert cookie_ s;
  let force_secure :=
    if for_tls_proxy g then true
    else match connection with Some (_, is_socket) => negb is_socket | None => true end in
  let app := match w with Some w => application (creds w) | None => bs "(null)" end in
  let hs := table_insert hs (bs "Set-Cookie") (set_cookie_header app cookie_ force_secure) in
  let body := match w with
              | Some w => cockpit_creds_to_json (creds w)
              | None => [(bs "csrf-token", JNull)]
              end in
  mret (hs, body).

(** The challenge of a session that is not through, if it has one. *)
Definition login_challenge (s : nat) (connection : option (nat * bool)) (hs : headers)
    : auth (headers * option object) :=
  sess ← get_session s;
  match authorize sess with
  | None => mret (hs, None)
  | Some a =>
      built ← build_authorize_challenge a connection hs;
      match built with
      | None => mret (hs, None)
      | Some (hs, body, conv) =>
          _ ← upd_session s (set_conversation conv);
          _ ← match conv with
              | Some c =>
                  _ ← reset_authorize_timeout s true;
                  _ ← cockpit_session_ref s;
                  conversations_replace c s
              | None => mret tt
              end;
          mret (hs, Some body)
      end
  end.

(** The answer to the request of task [t]; [None] where a check of the arguments fails. *)
Definition cockpit_auth_login_finish (t : GTask) : auth (option reply) :=
  match task_result t with
  | None => fault
  | Some (Some error) =>
      body ← match task_data t with
             | Some s =>
                 sess ← get_session s;
                 _ ← upd_session s (set_init_failure None);
                 mret (init_failure sess)
             | None => mret None
             end;
      _ ← end_startup;
      mret (Some (mkReply (Some error) [] body))
  | Some None =>
      match task_data t with
      | None => mret None
      | Some s =>
          sess ← get_session s;
          match login_task sess with
          | Some _ => mret None
          | None =>
              _ ← reset s;
              '(hs, body) ← login_challenge s (task_connection t) [];
              sess ← get_session s;
              r ← (if initialized sess then
                     '(hs, body) ← login_successful s (task_connection t) hs;
                     mret (mkReply None hs (Some body))
                   else
                     mret (mkReply (Some (mkError AUTHENTICATION_FAILED (bs "Authentication failed"))) hs body));
              _ ← end_startup;
              mret (Some r)
          end
      end
  end.

(** The callback of a task that has its result, and the end of the task, which gives up
    its session.  The task is no longer waiting when it calls back. *)
Definition task_callback (t : nat) : auth unit :=
  task ← get (λ st, tasks st !! t);
  match task with
  | None => mret tt
  | Some task =>
      _ ← modify (λ st, set_tasks (delete t (tasks st)) st);
      _ ← (if task_login task then
             r ← cockpit_auth_login_finish task;
             match r with Some r => output_ (Replied t r) | None => mret tt end
           else mret tt);
      match task_data task with Some s => cockpit_session_unref s | None => mret tt end
  end.

Definition with_result (result : option GError) (k : GTask) : GTask :=
  mkTask (task_data k) (task_login k) (task_connection k) (Some result).

(** [g_task_return_boolean (task, TRUE)] and [g_task_return_error], and the release of the task *)
Definition task_return (t : nat) (result : option GError) : auth unit :=
  _ ← modify (λ st, set_tasks (alter (with_result result) t (tasks st)) st);
  when now (task_callback t).

(** What [cockpit_session_reset] does once nobody waits for the session; the session may be
    gone after the first table has let go of it. *)
Definition session_release (s : nat) : auth unit :=
  _ ← upd_session s (set_authorization None);
  sess ← get_session s;
  _ ← upd_session s (λ x, set_init_failure None (set_cookie None (set_conversation None x)));
  _ ← match cookie sess with Some k => sessions_remove k | None => mret tt end;
  match conversation sess with Some k => conversations_remove k | None => mret tt end.

Definition session_reset_body (s : nat) : auth unit :=
  sess ← get_session s;
  _ ← match login_task sess with
      | Some t => _ ← upd_session s (set_login_task None); task_return t None
      | None => mret tt
      end;
  session_release s.
End Reset.

(** Five calls inside each other are more than there can be. *)
Fixpoint session_reset_fuel (fuel : nat) (s : nat) : auth unit :=
  match fuel with
  | O => fault
  | S fuel' => session_reset_body (session_reset_fuel fuel') s
  end.

Definition cockpit_session_reset : nat → auth unit := session_reset_fuel 5.
Definition session_unref : nat → auth unit := cockpit_session_unref cockpit_session_reset.
Definition return_task : nat → option GError → auth unit := task_return cockpit_session_reset.

(** *** Signals of the service and of the transport *)

Definition on_web_service_destroy (s : nat) : auth unit :=
  _ ← on_web_service_idling s; cockpit_session_reset s.

Definition on_web_service_gone (s : nat) : auth unit :=
  _ ← upd_session s (set_service false); cockpit_session_reset s.

Definition hooked (s : nat) (h : hook) : auth bool := get (λ st, bool_decide ((s, h) ∈ hooks st)).

(** [g_object_run_dispose] on the service: [cockpit_web_service_dispose] emits [destroy] the
    first time, and then GObject lets the handlers and the weak reference go. *)
Definition cockpit_web_service_dispose (s : nat) : auth unit :=
  w ← get (λ st, services st !! s);
  match w with
  | None => mret tt
  | Some w =>
      _ ← close_service s;
      h ← hooked s Destroy;
      _ ← when (negb (closing w) && h) (on_web_service_destroy s);
      _ ← disconnect s [Idling; Destroy];
      h ← hooked s Gone;
      _ ← disconnect s [Gone];
      when h (on_web_service_gone s)
  end.

Definition option_message (m : option (list Z)) : list Z := default (bs "(null)") m.

Definition error_of (c : error_code) (m : list Z) : option GError := Some (mkError c m).

(** Returns the error, and sets [gssapi_available]. *)
Definition propagate_problem_to_error (authorization_ : option (list Z)) (options : object)
    (problem : list Z) (msg : option (list Z)) : auth GError :=
  if decide (problem = bs "authentication-unavailable" ∧ type_of authorization_ = Some (bs "negotiate")) then
    _ ← modify (set_gssapi_available 0);
    mret (mkError AUTHENTICATION_FAILED (bs "Negotiate authentication not available"))
  else if decide (problem = bs "authentication-failed" ∨ problem = bs "authentication-unavailable") then
    let unsupported :=
      match cockpit_json_get_object options (bs "auth-method-results") None with
      | Some (Some results) =>
          match cockpit_json_get_string results (bs "password") None with
          | Some (Some pw_result) => bool_decide (pw_result = bs "no-server-support")
          | _ => true
          end
      | _ => false
      end in
    mret (mkError AUTHENTICATION_FAILED
            (if unsupported then bs "Authentication failed: authentication-not-supported"
             else bs "Authentication failed"))
  else if decide (problem ∈ [bs "no-host"; bs "invalid-hostkey"; bs "unknown-hostkey";
                             bs "unknown-host"; bs "terminated"]) then
    mret (mkError AUTHENTICATION_FAILED (bs "Authentication failed: " ++ problem))
  else if decide (problem = bs "access-denied") then
    mret (mkError PERMISSION_DENIED (default (bs "Permission denied") msg))
  else
    mret (mkError FAILED (bs "Authentication failed: " ++ problem ++
                          match msg with Some m => bs ": " ++ m | None => [] end)).

(** [captured_error] is what the process has written to its standard error. *)
Definition on_transport_closed (captured_error : option (list Z)) (s : nat)
    (problem : option (list Z)) : auth unit :=
  sess ← get_session s;
  let error :=
    if decide (problem = Some (bs "timeout")) then
      mkError FAILED (bs "Authentication failed: Timeout")
    else if negb (initialized sess) then
      match captured_error with
      | Some e => mkError AUTHENTICATION_FAILED (bs "captured-stderr:" ++ e)
      | None =>
          match problem with
          | Some p =>
              if bool_decide (authorize sess = None) || bool_decide (p ≠ bs "access-denied") then
                mkError FAILED (if decide (p = bs "no-cockpit")
                                then bs "The cockpit package is not installed"
                                else bs "Internal error in login process")
              else mkError AUTHENTICATION_FAILED (bs "Authentication failed")
          | None => mkError AUTHENTICATION_FAILED (bs "Authentication failed")
          end
      end
    else mkError FAILED (bs "Authentication internal error") in
  match login_task sess with
  | Some t => _ ← upd_session s (set_login_task None); return_task t (Some error)
  | None => cockpit_session_reset s
  end.

(** The [closed] signal: the handler of the session, then the one of the service. *)
Definition emit_closed (captured_error : option (list Z)) (s : nat) (problem : option (list Z))
    : auth unit :=
  h ← hooked s Closed;
  _ ← when h (on_transport_closed captured_error s problem);
  w ← get (λ st, services st !! s);
  when (match w with Some w => transport_hooked w | None => false end) (cockpit_web_service_dispose s).

Definition cockpit_transport_close (s : nat) (problem : list Z) : auth unit :=
  _ ← output_ (TransportClose s (Some problem));
  when closes_now (emit_closed None s (Some problem)).

(** Whether the message has been handled. *)
Definition on_transport_control (s : nat) (command : list Z) (options : object) : auth bool :=
  let finish (error : option GError) (ret : bool) : auth bool :=
    sess ← get_session s;
    _ ← match login_task sess with
        | Some t => _ ← upd_session s (set_login_task None); return_task t error
        | None => mret tt
        end;
    mret ret in
  if decide (command = bs "init") then
    _ ← disconnect s [Control; Closed];
    _ ← upd_session s (λ x, set_initialized true (set_close_sig false (set_control_sig false x)));
    error ←
      match cockpit_json_get_string options (bs "problem") None with
      | Some (Some problem) =>
          let msg := default None (cockpit_json_get_string options (bs "message") None) in
          sess ← get_session s;
          error ← propagate_problem_to_error (authorization sess) options problem msg;
          _ ← upd_session s (set_init_failure (Some options));
          mret (Some error)
      | _ => mret None
      end;
    sess ← get_session s;
    _ ← match cockpit_json_get_string options (bs "session-id") None with
        | Some (Some id) => when (service sess) (upd_service s (set_service_id id))
        | _ => mret tt
        end;
    finish error false
  else if decide (command = bs "authorize") then
    match cockpit_json_get_string options (bs "challenge") None with
    | Some (Some challenge) =>
        if decide (challenge = bs "x-host-key") then
          match cockpit_json_get_string options (bs "cookie") None with
          | Some cookie_ => _ ← send_authorize_reply s cookie_ (Some []); mret true
          | None => mret false
          end
        else
          _ ← upd_session s (set_authorize (Some options));
          replied ← reply_authorize_challenge s;
          if replied : bool then mret true else finish None true
    | _ =>
        _ ← upd_session s (set_authorize (Some options));
        replied ← reply_authorize_challenge s;
        if replied : bool then mret true else finish None true
    end
  else
    _ ← cockpit_transport_close s (bs "protocol-error");
    finish None true.

(** *** Timeouts *)

Definition on_authorize_timeout (s : nat) : auth unit :=
  sess ← get_session s;
  _ ← upd_session s (set_timeout_tag None);
  when (service sess) (cockpit_transport_close s (bs "timeout")).

(** [idling] is [cockpit_web_service_get_idling]. *)
Definition on_session_timeout (idling : bool) (s : nat) : auth unit :=
  _ ← upd_session s (set_timeout_tag None);
  sess ← get_session s;
  when (negb (service sess) || idling) (cockpit_session_reset s).

Definition on_process_timeout : auth unit :=
  _ ← modify (set_auth_timeout_tag None);
  n ← get (λ st, size (sessions st));
  when (n =? 0)%nat (output_ AuthIdling).

(** *** Starting sessions *)

(** [strlen] and the like end at the first NUL of what [parse_basic] has left. *)
Definition build_session_credentials (r : CockpitWebRequest) (app : list Z)
    (host : option (list Z)) (type authorization_ : list Z) : auth CockpitCreds :=
  let superuser_ := default (bs "none") (cockpit_web_request_lookup_header r (bs "X-Superuser")) in
  '(user_, password_) ←
    (if decide (type = bs "basic") then
       match cockpit_authorize_parse_basic malloc (Some authorization_) with
       | Ok (raw, Some u) =>
           mret (Some u,
                 if bool_decide (u ≠ bs "root") &&
                    (bool_decide (superuser_ ≠ bs "none") || bool_decide (is_Some host))
                 then Some (cstr raw) else None)
       | Ok (_, None) | Err _ => mret (None, None)
       | Fault => fault
       end
     else mret (None, None));
  csrf ← cockpit_auth_nonce;
  match cockpit_creds_new app
          [COCKPIT_CRED_USER user_; COCKPIT_CRED_PASSWORD password_;
           COCKPIT_CRED_RHOST (cockpit_web_request_get_remote_address r);
           COCKPIT_CRED_CSRF_TOKEN (Some csrf); COCKPIT_CRED_SUPERUSER (Some superuser_)] with
  | Some c => mret c
  | None => fault
  end.

Definition cockpit_session_create (name : list Z) (c : CockpitCreds) : auth nat := λ st,
  let s := next st in
  let sess := mkSession 1 (g_path_get_basename name) None true false None true true 0 0 None None
                None None None in
  let w := mkService c None false true false in
  (Ok s, set_next (S s)
           (set_heap (<[s := sess]> (heap st))
           (set_services (<[s := w]> (services st))
           (set_hooks (hooks st ∪ list_to_set (pair s <$> [Control; Closed; Idling; Destroy; Gone])) st)))).

(** Which section of the configuration is used for a request. *)
Definition session_section (host : option (list Z)) (type : list Z) : list Z :=
  match host with
  | Some _ => SSH_SECTION
  | None =>
      if login_loopback g && bool_decide (type = bs "basic") then SSH_SECTION
      else if decide (conf_string type (bs "action") = Some ACTION_SSH) then SSH_SECTION
      else type
  end.

(** The program for it, [None] if there is none; the name of the host is the last argument. *)
Definition session_program (r : CockpitWebRequest) (c : CockpitCreds) (host : option (list Z))
    (section_ type : list Z) : GError + option program :=
  let command := conf_string section_ (bs "Command") in
  let unix_path := conf_string section_ (bs "UnixPath") in
  let ssh := bool_decide (section_ = SSH_SECTION) in
  let host := if ssh then Some match host with
                               | Some h => h
                               | None => default (bs "127.0.0.1") (conf_string SSH_SECTION (bs "host"))
                               end
              else host in
  let capture := ssh && no_debug && conf_bool (bs "WebService") (bs "X-For-CockpitClient") false in
  let fallback :=
    if ssh then Some cockpit_ws_ssh_program
    else if decide (type ∈ [bs "basic"; bs "negotiate"; bs "tls-cert"]) then
      Some cockpit_ws_session_program
    else None in
  let command := match command, unix_path with None, None => fallback | _, _ => command end in
  match command with
  | Some command =>
      let env :=
        match rhost c with Some h => [(bs "COCKPIT_REMOTE_PEER", h)] | None => [] end ++
        (if decide (cockpit_web_request_lookup_header r (bs "X-SSH-Connect-Unknown-Hosts") = Some (bs "yes"))
         then [(bs "COCKPIT_SSH_CONNECT_TO_UNKNOWN_HOSTS", bs "1")] else []) in
      match g_shell_parse_argv command with
      | None => inl (mkError SHELL_ERROR (bs "Text could not be parsed"))
      | Some argv => inr (Some (Spawn (argv ++ [default (bs "localhost") host]) env capture))
      end
  | None => inr (Connect <$> unix_path)
  end.

Definition program_name (p : program) : list Z :=
  match p with Spawn argv _ _ => default [] (head argv) | Connect path => path end.

(** [spawned] is whether the process could be started. *)
Definition cockpit_session_launch (spawned : bool) (r : CockpitWebRequest)
    (type authorization_ app : list Z) : auth (GError + nat) :=
  let host := application_parse_host app in
  if decide (conf_string type (bs "action") = Some ACTION_NONE) then
    mret (inl (mkError AUTHENTICATION_FAILED (bs "Authentication disabled")))
  else if bool_decide (is_Some host) && negb (conf_bool (bs "WebService") (bs "LoginTo") true) then
    mret (inl (mkError AUTHENTICATION_FAILED (bs "Direct remote login is disabled")))
  else
    c ← build_session_credentials r app host type authorization_;
    let section_ := session_section host type in
    match session_program r c host section_ type with
    | inl error => mret (inl error)
    | inr None => mret (inl (mkError AUTHENTICATION_FAILED (bs "Authentication disabled")))
    | inr (Some p) =>
        if match p with Spawn _ _ _ => negb spawned | Connect _ => false end then
          mret (inl (mkError FAILED (bs "Authentication failed to start")))
        else
          s ← cockpit_session_create (program_name p) c;
          _ ← output_ (Started s p);
          _ ← upd_session s (λ x,
                set_client_timeout (timeout_option (bs "response-timeout") section_ cockpit_ws_auth_response_timeout)
                  (set_authorize_timeout (timeout_option (bs "timeout") section_ cockpit_ws_auth_process_timeout) x));
          mret (inr s)
    end.

(** *** Requests *)

(** The authorization, its type and the conversation it belongs to. *)
Definition cockpit_auth_steal_authorization (r : CockpitWebRequest)
    : auth (option (list Z * list Z * option (list Z))) :=
  gssapi ← get gssapi_available;
  match (match table_lookup (req_headers r) (bs "Authorization") with
         | Some line => if forallb (λ c, c <? 128) line then Some line else None
         | None => if gssapi =? 0 then None else Some (bs "Negotiate")
         end) with
  | None => mret None
  | Some line =>
      match type_of (Some line) with
      | None => mret None
      | Some type =>
          if decide (type = bs "tls-cert") then mret None
          else if decide (type = bs "x-conversation") then
            match cockpit_authorize_subject (Some line) with
            | Ok (c, _) => mret (Some (line, type, Some c))
            | _ => mret None
            end
          else if decide (type = bs "negotiate") then
            conv ← get (λ st, io ← req_io r; connection_data st !! io_id io);
            mret (Some (line, type, conv))
          else mret (Some (line, type, None))
      end
  end.

(** [g_task_new], for a response on this stream: its number and the task, which belongs to
    the caller until it is left waiting or returned. *)
Definition new_task (login : bool) (r : option CockpitWebRequest) : auth (nat * GTask) := λ st,
  let connection := r ← r; io ← req_io r; Some (io_id io, io_socket io) in
  (Ok (next st, mkTask None login connection None), set_next (S (next st)) st).

(** [session->login_task = g_steal_pointer (&task)] *)
Definition leave_task (t : nat) (k : GTask) : auth unit :=
  modify (λ st, set_tasks (<[t := k]> (tasks st)) st).

(** A result in the turn of the main loop that has made the task: the callback comes later. *)
Definition task_return_later (t : nat) (k : GTask) (result : option GError) : auth unit :=
  leave_task t (with_result result k).

Definition auth_failed (m : list Z) : option GError := error_of AUTHENTICATION_FAILED m.

(** [random] is the number [g_random_int_range] gives. *)
Definition cockpit_auth_login_async (random : Z) (spawned : bool) (r : CockpitWebRequest) : auth unit :=
  _ ← modify (λ st, set_startups (u32 (startups st + 1)) st);
  '(t, task) ← new_task true (Some r);
  n ← get startups;
  match can_start_auth g n random with
  | None => fault
  | Some false => task_return_later t task (error_of FAILED (bs "Connection closed by host"))
  | Some true =>
      let app := fst <$> cockpit_auth_parse_application (req_path r) in
      header ←
        match cockpit_web_request_get_client_certificate r with
        | Some cert => mret (Some (bs "tls-cert " ++ cert, bs "tls-cert", None))
        | None => cockpit_auth_steal_authorization r
        end;
      match header, app with
      | None, _ => task_return_later t task (auth_failed (bs "Authentication required"))
      | Some _, None => task_return_later t task (auth_failed (bs "Application required"))
      | Some (authorization_, type, conv), Some app =>
          s ←
            match conv with
            | Some c =>
                s ← get (λ st, conversations st !! c);
                match s with
                | None => mret (inl (mkError AUTHENTICATION_FAILED (bs "Invalid conversation token")))
                | Some s => _ ← cockpit_session_ref s; mret (inr s)
                end
            | None => cockpit_session_launch spawned r type authorization_ app
            end;
          match s with
          | inl error => task_return_later t task (Some error)
          | inr s =>
              let task := mkTask (Some s) true (task_connection task) None in
              _ ← cockpit_session_reset s;
              _ ← leave_task t task;
              _ ← upd_session s (set_login_task (Some t));
              _ ← upd_session s (set_authorization (Some authorization_));
              replied ← match conv with Some _ => reply_authorize_challenge s | None => mret true end;
              if replied : bool then reset_authorize_timeout s false
              else
                _ ← upd_session s (set_login_task None);
                task_return_later t task (auth_failed (bs "Invalid conversation reply"))
          end
      end
  end.

(** The session of the local user, which logs in by itself; [name] is the name of the pipe. *)
Definition cockpit_auth_local_async (name user_ : list Z) : auth unit :=
  csrf ← cockpit_auth_nonce;
  match cockpit_creds_new (bs "cockpit")
          [COCKPIT_CRED_USER (Some user_); COCKPIT_CRED_RHOST (Some (bs "localhost"));
           COCKPIT_CRED_CSRF_TOKEN (Some csrf)] with
  | None => fault
  | Some c =>
      s ← cockpit_session_create name c;
      _ ← upd_session s (set_cookie (Some LOCAL_SESSION));
      _ ← sessions_insert cockpit_session_reset LOCAL_SESSION s;
      '(t, task) ← new_task false None;
      _ ← leave_task t task;
      upd_session s (set_login_task (Some t))
  end.

(** *** Cookies *)

Definition base64_decode_string (enc : list Z) : list Z := cstr (g_base64_decode enc).

Definition session_for_cookie_value (cookie_value : option (list Z)) : auth (option nat) :=
  match cookie_value with
  | None => mret None
  | Some v =>
      let decoded := base64_decode_string v in
      if prefixb (bs "v=2;k=") decoded then get (λ st, sessions st !! decoded) else mret None
  end.

(** The assertions read the session. *)
Definition session_for_request (r : CockpitWebRequest) : auth (option nat) :=
  match cockpit_auth_parse_application (req_path r) with
  | None => mret None
  | Some (app, _) =>
      match cockpit_web_request_parse_cookie g_uri_unescape_segment r (application_cookie_name app) with
      | Ok raw =>
          ret ← session_for_cookie_value raw;
          match ret with
          | Some s =>
              sess ← get_session s;
              if bool_decide (cookie sess = Some LOCAL_SESSION) ||
                 bool_decide (session_name sess = LOCAL_SESSION)
              then fault else mret (Some s)
          | None => get (λ st, sessions st !! LOCAL_SESSION)
          end
      | _ => fault
      end
  end.

(** The number of the service that a request may use. *)
Definition cockpit_auth_check_cookie (r : CockpitWebRequest) : auth (option nat) :=
  s ← session_for_request r;
  match s with
  | None => mret None
  | Some s =>
      sess ← get_session s;
      if service sess then
        _ ← upd_service s (λ w, mkService (creds w) (service_id w) (closing w) (transport_hooked w) true);
        mret (Some s)
      else mret None
  end.

Definition cockpit_auth_is_valid_cookie_value (cookie_value : option (list Z)) : auth bool :=
  s ← session_for_cookie_value cookie_value; mret (bool_decide (is_Some s)).
End Auth.

(** ** The life of the process *)

(** [cockpit_auth_init]; [gssapi_available] is a variable of the file. *)
Definition cockpit_auth_init (process_idle : Z) : state :=
  mkState ∅ ∅ 0 (Some 0%nat) 0 (-1) ∅ ∅ ∅ ∅ {[ 0%nat := (process_idle, ProcessTimeout) ]} ∅ 1 [].

Section Run.
Context `{Config} (g : settings).
Context (hmac : Z → list Z) (g_base64_encode g_base64_decode : list Z → list Z).
Context (g_path_get_basename : list Z → list Z).
Context (g_shell_parse_argv : list Z → option (list (list Z))).
Context (g_uri_unescape_segment : list Z → option (list Z)) (malloc : nat → list Z).
Context (process_idle : Z) (no_debug : bool).

(** What happens to the process: requests, messages and the end of session processes,
    timeouts, what users of a service do to it, and callbacks that are due. *)
Inductive event :=
| Login (random : Z) (spawned : bool) (r : CockpitWebRequest)
| LocalLogin (name user_ : list Z)
| CheckCookie (r : CockpitWebRequest)
| ControlMessage (s : nat) (command : list Z) (options : object)
| TransportClosed (s : nat) (captured_error problem : option (list Z))
| Timeout (tag : nat) (idling : bool)
| ServiceIdling (s : nat)
| Disconnect (s : nat)
| TaskCallback (t : nat).

Definition dispatch (now closes_now : bool) (idling : bool) (src : source) : auth unit :=
  match src with
  | AuthorizeTimeout s => on_authorize_timeout g hmac g_base64_encode process_idle now closes_now s
  | SessionTimeout s => on_session_timeout g hmac g_base64_encode process_idle now idling s
  | ProcessTimeout => on_process_timeout
  end.

Definition handle (now closes_now : bool) (ev : event) : auth unit :=
  match ev with
  | Login random spawned r =>
      cockpit_auth_login_async g hmac g_base64_encode g_path_get_basename g_shell_parse_argv malloc
        process_idle no_debug now random spawned r
  | LocalLogin name user_ =>
      cockpit_auth_local_async g hmac g_base64_encode g_path_get_basename process_idle now name user_
  | CheckCookie r =>
      _ ← cockpit_auth_check_cookie g_base64_decode g_uri_unescape_segment r; mret tt
  | ControlMessage s command options =>
      _ ← on_transport_control g hmac g_base64_encode process_idle now closes_now s command options;
      mret tt
  | TransportClosed s captured_error problem =>
      emit_closed g hmac g_base64_encode process_idle now captured_error s problem
  | Timeout tag idling =>
      src ← get (λ st, sources st !! tag);
      match src with
      | None => mret tt
      | Some (_, src) => _ ← remove_source (Some tag); dispatch now closes_now idling src
      end
  | ServiceIdling s => on_web_service_idling process_idle s
  | Disconnect s => cockpit_web_service_dispose g hmac g_base64_encode process_idle now s
  | TaskCallback t =>
      task_callback g hmac g_base64_encode process_idle
        (cockpit_session_reset g hmac g_base64_encode process_idle now) t
  end.
End Run.

(** ** Cookies of applications *)

Lemma until_slash_cons c s : c ≠ 47 → until_slash (c :: s) = c :: until_slash s.
Proof.
  intros H1. unfold until_slash. cbn [strchr]. rewrite (proj2 (Z.eqb_neq c 47)) by done.
  destruct (strchr s 47) as [n|] eqn:E; [|done]. apply strchr_lookup in E as [Hn _]; [|done].
  cbn [fmap option_fmap option_map]. by rewrite Z2Nat.inj_succ by lia.
Qed.

Lemma until_slash_app p s : Forall (λ c, c ≠ 47) p → until_slash (p ++ s) = p ++ until_slash s.
Proof.
  induction 1 as [|c p H1 _ IH]; [done|]. cbn [app]. by rewrite until_slash_cons, IH.
Qed.

Lemma application_prefix path app h :
  cockpit_auth_parse_application path = Some (app, h) → ∃ r, app = bs "cockpit" ++ r.
Proof.
  destruct path as [|c path]; [done|]. unfold cockpit_auth_parse_application. cbv beta iota.
  destruct (c =? 47); [|done].
  match goal with |- Some (?v, _) = _ → _ => assert (Hv : ∃ r, v = bs "cockpit" ++ r);
    [|generalize dependent v] end.
  { destruct (prefixb (bs "cockpit+") path && _) eqn:E1.
    - apply andb_true_iff in E1 as [Hp _]. apply prefixb_spec in Hp as [r ->].
      rewrite until_slash_app by by_decide. by exists (bs "+" ++ until_slash r).
    - destruct (prefixb (bs "=") path && _); [by exists (bs "+" ++ until_slash path)|by exists []]. }
  by intros v Hv [= <- _].
Qed.

Lemma parse_host_app app h : application_parse_host app = Some h → app = bs "cockpit+=" ++ h.
Proof.
  unfold application_parse_host. destruct (prefixb _ app) eqn:Hp; [|done].
  apply prefixb_spec in Hp as [r ->]. cbn. destruct r; [done|]. by intros [= <-].
Qed.

(** Requests for different applications have cookies of different names, so that logging
    in to another machine never replaces the cookie of this one. *)
Theorem application_cookies_distinct path1 path2 app1 app2 h1 h2 :
  cockpit_auth_parse_application path1 = Some (app1, h1) →
  cockpit_auth_parse_application path2 = Some (app2, h2) →
  application_cookie_name app1 = application_cookie_name app2 → app1 = app2.
Proof.
  intros [r1 E1]%application_prefix [r2 E2]%application_prefix. unfold application_cookie_name.
  destruct (application_parse_host app1) as [a|] eqn:H1, (application_parse_host app2) as [b|] eqn:H2;
    subst app1 app2; try done.
  intros E. apply parse_host_app in H1 as ->, H2 as ->. apply app_inv_head in E. by rewrite E.
Qed.

Lemma application_cookies_distinct_witness :
  application_cookie_name (bs "cockpit+=host") = application_cookie_name (bs "cockpit+=host") ∧
  bs "cockpit+=host" = bs "cockpit+=host".
Proof.
  split; [done|].
  by apply (application_cookies_distinct (bs "/=host/x") (bs "/cockpit+=host/y") _ _ true true).
Defined.
