(* ===== verification/AuthSafety.v ===== *)
(** * Sessions are used while they live

    Every session is freed exactly when the last reference to it goes, and nothing that is
    left over (a table, a task, a timeout, a signal handler) can reach a session that has
    been freed.  The invariant has a part for each thing that holds on to sessions; the
    parts speak about the state through the fields they depend on, so that an operation
    re-establishes only the parts it touches.  Operations are verified with weakest
    preconditions that exclude [Fault]. *)

From S2P Require Import Prelude Json Conf Http WebServer Creds Authorize Auth.
#[local] Open Scope Z_scope.

(** ** Weakest preconditions *)

Definition wp {A} (m : auth A) (Q : A → state → Prop) (st : state) : Prop :=
  match m st with (Ok a, st') => Q a st' | _ => False end.

Lemma wp_ret {A} (a : A) Q st : Q a st → wp (mret a) Q st.
Proof. done. Qed.

Lemma wp_bind {A B} (m : auth A) (k : A → auth B) Q st :
  wp m (λ a, wp (k a) Q) st → wp (m ≫= k) Q st.
Proof.
  unfold wp, mbind, auth_bind, prog_bind. destruct (m st) as [[a|e|] st']; done.
Qed.

Lemma wp_mono {A} (m : auth A) (Q R : A → state → Prop) st :
  wp m Q st → (∀ a st', Q a st' → R a st') → wp m R st.
Proof. unfold wp. destruct (m st) as [[a|e|] st']; auto. Qed.

Lemma wp_get {A} (f : state → A) Q st : Q (f st) st → wp (get f) Q st.
Proof. done. Qed.

Lemma wp_modify f Q st : Q tt (f st) → wp (modify f) Q st.
Proof. done. Qed.

Lemma wp_when b m Q st : (b = true → wp m Q st) → (b = false → Q tt st) → wp (when b m) Q st.
Proof. destruct b; cbn; auto. Qed.

Lemma wp_get_session s sess Q st : heap st !! s = Some sess → Q sess st → wp (get_session s) Q st.
Proof. unfold wp, get_session. by intros ->. Qed.

Lemma wp_upd_session s f sess Q st :
  heap st !! s = Some sess → Q tt (set_heap (<[s := f sess]> (heap st)) st) →
  wp (upd_session s f) Q st.
Proof. unfold wp, upd_session. by intros ->. Qed.

(** A computation that faults does not satisfy anything, and one that satisfies something
    does not fault. *)
Lemma wp_safe {A} (m : auth A) Q st : wp m Q st → safe (m st).1.
Proof. unfold wp. by destruct (m st) as [[a|e|] st']. Qed.

(** ** Counting references *)

Section Count.
Context {K A} `{Countable K} (P : A → Prop) `{!∀ a, Decision (P a)}.

Definition count (m : gmap K A) : nat := size (filter (λ kv, P kv.2) m).

Definition one (a : A) : nat := if decide (P a) then 1 else 0.

Lemma count_empty : count ∅ = 0%nat.
Proof. unfold count. by rewrite map_filter_empty, map_size_empty. Qed.

Lemma count_insert (m : gmap K A) k a :
  m !! k = None → count (<[k := a]> m) = (one a + count m)%nat.
Proof.
  intros Hk. unfold count, one. destruct (decide (P a)) as [HP|HP].
  - rewrite map_filter_insert_True by done.
    rewrite map_size_insert_None; [done|]. apply map_lookup_filter_None. by left.
  - rewrite map_filter_insert_False by done. by rewrite delete_id.
Qed.

Lemma count_delete (m : gmap K A) k a :
  m !! k = Some a → count m = (one a + count (delete k m))%nat.
Proof. intros Hk. by rewrite <- (count_insert (delete k m) k a), insert_delete_id by by simplify_map_eq. Qed.

Lemma count_delete_None (m : gmap K A) k : m !! k = None → count (delete k m) = count m.
Proof. intros Hk. by rewrite delete_id. Qed.

Lemma count_update (m : gmap K A) k a b :
  m !! k = Some a → (one b + count m = one a + count (<[k := b]> m))%nat.
Proof.
  intros Hk. rewrite <- insert_delete_eq, count_insert by by simplify_map_eq.
  rewrite (count_delete m k a) by done. lia.
Qed.

Lemma count_pos (m : gmap K A) k a : m !! k = Some a → P a → (1 ≤ count m)%nat.
Proof. intros Hk HP. rewrite (count_delete m k a) by done. unfold one. rewrite decide_True by done. lia. Qed.
End Count.

Definition points {K} `{Countable K} (s : nat) (m : gmap K nat) : nat := count (λ v, v = s) m.
Definition holds (s : nat) (m : gmap nat GTask) : nat := count (λ k, task_data k = Some s) m.
Definition occ (s : nat) (e : list nat) : nat := length (filter (λ x, x = s) e).

(** ** The invariant *)

(** The fields of a session that the tables and tasks depend on. *)
Record view := mkView {
  v_cookie : option (list Z);
  v_conv : option (list Z);
  v_login : option nat;
  v_init : bool;
  v_name : list Z
}.

Definition view_of (x : CockpitSession) : view :=
  mkView (cookie x) (conversation x) (login_task x) (initialized x) (session_name x).

Record hookview := mkHookview { h_service : bool; h_control : bool; h_close : bool; h_init : bool }.

Definition hooks_of (x : CockpitSession) : hookview :=
  mkHookview (service x) (control_sig x) (close_sig x) (initialized x).

Definition total (S C : gmap (list Z) nat) (T : gmap nat GTask) (e : list nat) (s : nat) : nat :=
  points s S + points s C + holds s T + occ s e.

(** References are counted; [e] are those of the calls that are running. *)
Definition counted (S C : gmap (list Z) nat) (T : gmap nat GTask) (R : gmap nat Z) (e : list nat) : Prop :=
  ∀ s, match R !! s with
       | Some r => r = Z.of_nat (total S C T e s) ∧ 0 < r
       | None => total S C T e s = 0%nat
       end.

(** Tables and tasks agree with the sessions.  [xc] and [xd] are keys that are about to be
    taken out of their tables. *)
Record linked (S C : gmap (list Z) nat) (T : gmap nat GTask) (V : gmap nat view) (D : gmap nat bool)
    (xc xd : option (list Z)) : Prop := {
  l_cookie k s : S !! k = Some s → xc = Some k ∨ ∃ v, V !! s = Some v ∧ v_cookie v = Some k;
  l_cookie_entry s v k : V !! s = Some v → v_cookie v = Some k → S !! k = Some s;
  l_conv k s : C !! k = Some s → xd = Some k ∨ ∃ v, V !! s = Some v ∧ v_conv v = Some k;
  l_conv_entry s v k : V !! s = Some v → v_conv v = Some k → C !! k = Some s;
  l_init s v k : V !! s = Some v → v_cookie v = Some k →
    k = LOCAL_SESSION ∨
    v_init v = true ∧ v_name v ≠ LOCAL_SESSION ∧ prefixb (bs "v=2;k=") k = true;
  l_login s v t : V !! s = Some v → v_login v = Some t →
    ∃ k, T !! t = Some k ∧ task_result k = None ∧
         if task_login k then task_data k = Some s
         else task_data k = None ∧ v_cookie v = Some LOCAL_SESSION;
  l_data t k s v : T !! t = Some k → task_data k = Some s → V !! s = Some v →
    task_login k = true ∧ v_cookie v ≠ Some LOCAL_SESSION ∧ v_name v ≠ LOCAL_SESSION ∧
    match task_result k with
    | None => v_login v = Some t
    | Some _ => v_login v = None ∧ v_conv v = None
    end;
  l_unique t t' k k' s : T !! t = Some k → T !! t' = Some k' →
    task_data k = Some s → task_data k' = Some s → t = t';
  l_nodata t k : T !! t = Some k → task_data k = None → task_login k = true → task_result k ≠ Some None;
  l_conv_login s v k : V !! s = Some v → v_conv v = Some k →
    v_login v = None ∧ v_cookie v ≠ Some LOCAL_SESSION ∧ v_name v ≠ LOCAL_SESSION;
  l_handed s v : D !! s = Some true → V !! s = Some v → v_init v = false →
    v_conv v = None ∧ ∀ t k, T !! t = Some k → task_data k ≠ Some s
}.

(** Handlers are connected for sessions that live, and the end of the transport is seen by
    every session that has not been initialized. *)
Record connected (hs : gset (nat * hook)) (V : gmap nat hookview) : Prop := {
  c_hook s h : (s, h) ∈ hs → ∃ v, V !! s = Some v ∧
    match h with Control => h_control v | Closed => h_close v | _ => h_service v end = true;
  c_uninit s v : V !! s = Some v → h_init v = false → (s, Closed) ∈ hs
}.

(** Timeouts are those of sessions that live. *)
Definition timed (srcs : gmap nat (Z * source)) (n : nat) (V : gmap nat (option nat)) : Prop :=
  ∀ tag sec src, srcs !! tag = Some (sec, src) → (tag < n)%nat ∧
    match src with
    | AuthorizeTimeout s | SessionTimeout s => V !! s = Some (Some tag)
    | ProcessTimeout => True
    end.

(** Nobody waits for a session that has not been initialized and may time out when idle. *)
Definition quiet (T : gmap nat GTask) (v : view) : Prop :=
  v_conv v = None ∧ ∀ t k, v_login v = Some t → T !! t = Some k → task_login k = false.

Definition idles (srcs : gmap nat (Z * source)) (T : gmap nat GTask) (V : gmap nat view) : Prop :=
  ∀ tag sec s v, srcs !! tag = Some (sec, SessionTimeout s) → V !! s = Some v → v_init v = false →
    quiet T v.

Definition fresh_from {A B C} (n : nat) (V : gmap nat A) (T : gmap nat B) (D : gmap nat C) : Prop :=
  ∀ i, (n ≤ i)%nat → V !! i = None ∧ T !! i = None ∧ D !! i = None.

Record inv (e : list nat) (xc xd : option (list Z)) (st : state) : Prop := {
  i_counted : counted (sessions st) (conversations st) (tasks st) (refs <$> heap st) e;
  i_linked : linked (sessions st) (conversations st) (tasks st) (view_of <$> heap st)
               (handed_out <$> services st) xc xd;
  i_connected : connected (hooks st) (hooks_of <$> heap st);
  i_timed : timed (sources st) (next st) (timeout_tag <$> heap st);
  i_idles : idles (sources st) (tasks st) (view_of <$> heap st);
  i_fresh : fresh_from (next st) (heap st) (tasks st) (services st)
}.

(** *** Changes that touch nothing of it *)

Lemma fmap_upd {B} (h : gmap nat CockpitSession) (p : CockpitSession → B) s x y :
  h !! s = Some x → p y = p x → p <$> <[s := y]> h = p <$> h.
Proof. intros Hs Hp. rewrite fmap_insert, Hp. apply insert_id. by rewrite lookup_fmap, Hs. Qed.

Lemma inv_same e xc xd st st' :
  inv e xc xd st →
  sessions st' = sessions st → conversations st' = conversations st → tasks st' = tasks st →
  heap st' = heap st → services st' = services st → hooks st' = hooks st →
  sources st' = sources st → next st' = next st →
  inv e xc xd st'.
Proof. intros [] HS HC HT HH HD Hh Hs Hn. by constructor; rewrite ?HS, ?HC, ?HT, ?HH, ?HD, ?Hh, ?Hs, ?Hn. Qed.

Lemma fresh_upd {B C D} n (V : gmap nat B) (T : gmap nat C) (Dd : gmap nat D) s x y :
  V !! s = Some x → fresh_from n V T Dd → fresh_from n (<[s := y]> V) T Dd.
Proof.
  intros Hs Hf i Hi. destruct (Hf i Hi) as (H1 & H2 & H3). split_and!; try done.
  rewrite lookup_insert_ne; [done|]. congruence.
Qed.

Lemma inv_upd_inert e xc xd st s x y :
  heap st !! s = Some x → inv e xc xd st →
  refs y = refs x → view_of y = view_of x → hooks_of y = hooks_of x → timeout_tag y = timeout_tag x →
  inv e xc xd (set_heap (<[s := y]> (heap st)) st).
Proof.
  intros Hs [H1 H2 H3 H4 H5 H6] Er Ev Eh Et. constructor; cbn.
  - by rewrite (fmap_upd _ refs _ x).
  - by rewrite (fmap_upd _ view_of _ x).
  - by rewrite (fmap_upd _ hooks_of _ x).
  - by rewrite (fmap_upd _ timeout_tag _ x).
  - by rewrite (fmap_upd _ view_of _ x).
  - by apply (fresh_upd _ _ _ _ _ x).
Qed.

Lemma inv_upd_service e xc xd st s f :
  (∀ w, handed_out (f w) = handed_out w) → inv e xc xd st →
  inv e xc xd (set_services (alter f s (services st)) st).
Proof.
  intros Hf [H1 H2 H3 H4 H5 H6]. constructor; cbn; try done.
  - assert (E : handed_out <$> alter f s (services st) = handed_out <$> services st); [|by rewrite E].
    apply map_eq. intros i. rewrite !lookup_fmap. destruct (decide (i = s)) as [->|Hi].
    + rewrite lookup_alter_eq. destruct (services st !! s); cbn; [by rewrite Hf|done].
    + by rewrite lookup_alter_ne.
  - intros i Hi. destruct (H6 i Hi) as (Ha & Hb & Hc). split_and!; try done.
    destruct (decide (i = s)) as [->|Hn]; [by rewrite lookup_alter_eq, Hc|by rewrite lookup_alter_ne].
Qed.

(** *** What is referred to lives *)

Lemma counted_alive S C T R e s : counted S C T R e → (0 < total S C T e s)%nat → is_Some (R !! s).
Proof. intros H Ht. specialize (H s). destruct (R !! s); [done|lia]. Qed.

Section Alive.
Context {e : list nat} {xc xd : option (list Z)} {st : state} (Hinv : inv e xc xd st).

Lemma alive_total s :
  (0 < total (sessions st) (conversations st) (tasks st) e s)%nat → is_Some (heap st !! s).
Proof.
  intros H. destruct (counted_alive _ _ _ _ _ _ (i_counted _ _ _ _ Hinv) H) as [r Hr].
  rewrite lookup_fmap in Hr. by destruct (heap st !! s).
Qed.

Lemma alive_session k s : sessions st !! k = Some s → is_Some (heap st !! s).
Proof.
  intros H. apply alive_total. unfold total.
  pose proof (count_pos (λ v, v = s) (sessions st) k s H eq_refl). unfold points. lia.
Qed.

Lemma alive_conversation k s : conversations st !! k = Some s → is_Some (heap st !! s).
Proof.
  intros H. apply alive_total. unfold total.
  pose proof (count_pos (λ v, v = s) (conversations st) k s H eq_refl). unfold points. lia.
Qed.

Lemma alive_task t k s : tasks st !! t = Some k → task_data k = Some s → is_Some (heap st !! s).
Proof.
  intros H Hd. apply alive_total. unfold total, holds.
  pose proof (count_pos (λ k, task_data k = Some s) (tasks st) t k H Hd). lia.
Qed.

Lemma alive_extra s : s ∈ e → is_Some (heap st !! s).
Proof.
  intros H. apply alive_total. unfold total, occ.
  assert (Hf : s ∈ filter (λ x, x = s) e) by by apply list_elem_of_filter.
  destruct (filter (λ x, x = s) e); [by apply elem_of_nil in Hf|]. cbn [length]. lia.
Qed.

Lemma alive_hook s h : (s, h) ∈ hooks st → is_Some (heap st !! s).
Proof.
  intros H. destruct (c_hook _ _ (i_connected _ _ _ _ Hinv) s h H) as (v & Hv & _).
  rewrite lookup_fmap in Hv. by destruct (heap st !! s).
Qed.
End Alive.

(** *** Taking and giving up references *)

Lemma occ_cons x s e : occ x (s :: e) = ((if decide (s = x) then 1 else 0) + occ x e)%nat.
Proof. unfold occ. rewrite filter_cons. by destruct (decide (s = x)). Qed.

Lemma total_cons S C T e s x :
  total S C T (s :: e) x = ((if decide (s = x) then 1 else 0) + total S C T e x)%nat.
Proof. unfold total. rewrite occ_cons. lia. Qed.

Lemma one_eq x s : one (λ v : nat, v = x) s = if decide (s = x) then 1%nat else 0%nat.
Proof. done. Qed.

Lemma total_session_delete S C T e k s x :
  S !! k = Some s → total (delete k S) C T (s :: e) x = total S C T e x.
Proof.
  intros Hk. rewrite total_cons. unfold total, points. rewrite (count_delete _ S k s) by done.
  rewrite one_eq. lia.
Qed.

Lemma total_conversation_delete S C T e k s x :
  C !! k = Some s → total S (delete k C) T (s :: e) x = total S C T e x.
Proof.
  intros Hk. rewrite total_cons. unfold total, points. rewrite (count_delete _ C k s) by done.
  rewrite one_eq. lia.
Qed.

Lemma total_session_insert S C T e k s x :
  S !! k = None → total (<[k := s]> S) C T e x = total S C T (s :: e) x.
Proof. intros Hk. rewrite total_cons. unfold total, points. rewrite count_insert by done. rewrite one_eq. lia. Qed.

Lemma total_conversation_insert S C T e k s x :
  C !! k = None → total S (<[k := s]> C) T e x = total S C T (s :: e) x.
Proof. intros Hk. rewrite total_cons. unfold total, points. rewrite count_insert by done. rewrite one_eq. lia. Qed.

Definition held (k : GTask) (e : list nat) : list nat :=
  match task_data k with Some s => s :: e | None => e end.

Lemma one_data x k : one (λ k, task_data k = Some x) k = match task_data k with
  Some s => if decide (s = x) then 1%nat else 0%nat | None => 0%nat end.
Proof.
  unfold one. destruct (task_data k) as [s|].
  - destruct (decide (s = x)) as [->|]; [by rewrite decide_True|by rewrite decide_False by congruence].
  - by rewrite decide_False.
Qed.

Lemma total_task_delete S C T e t k x :
  T !! t = Some k → total S C (delete t T) (held k e) x = total S C T e x.
Proof.
  intros Ht. unfold total, holds, held. rewrite (count_delete _ T t k) by done. rewrite one_data.
  destruct (task_data k); rewrite ?occ_cons; lia.
Qed.

Lemma total_task_insert S C T e t k x :
  T !! t = None → total S C (<[t := k]> T) e x = total S C T (held k e) x.
Proof.
  intros Ht. unfold total, holds, held. rewrite count_insert by done. rewrite one_data.
  destruct (task_data k); rewrite ?occ_cons; lia.
Qed.

Lemma total_task_update S C T e t k k' x :
  T !! t = Some k → task_data k' = task_data k → total S C (<[t := k']> T) e x = total S C T e x.
Proof.
  intros Ht Hd. unfold total, holds. pose proof (count_update (λ k, task_data k = Some x) T t k k' Ht) as H.
  rewrite !one_data, Hd in H. lia.
Qed.

Lemma counted_ext S C T S' C' T' R e e' :
  (∀ x, total S' C' T' e' x = total S C T e x) → counted S C T R e → counted S' C' T' R e'.
Proof. intros E H s. specialize (H s). by rewrite E. Qed.

Lemma counted_ref S C T R e s r :
  R !! s = Some r → counted S C T R e → counted S C T (<[s := r + 1]> R) (s :: e).
Proof.
  intros Hs H x. pose proof (H x) as Hx. rewrite total_cons. destruct (decide (s = x)) as [<-|Hn].
  - rewrite Hs in Hx. rewrite lookup_insert_eq. lia.
  - by rewrite lookup_insert_ne.
Qed.

Lemma counted_unref S C T R e s r :
  R !! s = Some r → 1 < r → counted S C T R (s :: e) → counted S C T (<[s := r - 1]> R) e.
Proof.
  intros Hs Hr H x. pose proof (H x) as Hx. rewrite total_cons in Hx. destruct (decide (s = x)) as [<-|Hn].
  - rewrite Hs in Hx. rewrite lookup_insert_eq. lia.
  - by rewrite lookup_insert_ne.
Qed.

Lemma counted_free S C T R e s :
  R !! s = Some 1 → counted S C T R (s :: e) → counted S C T (delete s R) e.
Proof.
  intros Hs H x. pose proof (H x) as Hx. rewrite total_cons in Hx. destruct (decide (s = x)) as [<-|Hn].
  - rewrite Hs in Hx. rewrite lookup_delete_eq. lia.
  - by rewrite lookup_delete_ne.
Qed.

Lemma inv_refs_change e e' xc xd st s x r :
  heap st !! s = Some x → inv e xc xd st →
  counted (sessions st) (conversations st) (tasks st) (<[s := r]> (refs <$> heap st)) e' →
  inv e' xc xd (set_heap (<[s := set_refs r x]> (heap st)) st).
Proof.
  intros Hs [H1 H2 H3 H4 H5 H6] Hc. constructor; cbn.
  - by rewrite fmap_insert.
  - by rewrite (fmap_upd _ view_of _ x).
  - by rewrite (fmap_upd _ hooks_of _ x).
  - by rewrite (fmap_upd _ timeout_tag _ x).
  - by rewrite (fmap_upd _ view_of _ x).
  - by apply (fresh_upd _ _ _ _ _ x).
Qed.

Lemma refs_lookup st s x : heap st !! s = Some x → (refs <$> heap st) !! s = Some (refs x).
Proof. intros H. by rewrite lookup_fmap, H. Qed.

Lemma inv_ref e xc xd st s x :
  heap st !! s = Some x → inv e xc xd st →
  inv (s :: e) xc xd (set_heap (<[s := set_refs (refs x + 1) x]> (heap st)) st).
Proof.
  intros Hs H. apply (inv_refs_change e); [done..|].
  apply counted_ref; [by apply refs_lookup|apply H].
Qed.

Lemma inv_unref e xc xd st s x :
  heap st !! s = Some x → 1 < refs x → inv (s :: e) xc xd st →
  inv e xc xd (set_heap (<[s := set_refs (refs x - 1) x]> (heap st)) st).
Proof.
  intros Hs Hr H. apply (inv_refs_change (s :: e)); [done..|].
  apply counted_unref; [by apply refs_lookup|done|apply H].
Qed.

(** *** The end of a session *)

Lemma total_zero S C T e s :
  total S C T e s = 0%nat →
  (∀ k, S !! k ≠ Some s) ∧ (∀ k, C !! k ≠ Some s) ∧ (∀ t k, T !! t = Some k → task_data k ≠ Some s).
Proof.
  unfold total, points, holds. intros H. split_and!.
  - intros k Hk. pose proof (count_pos (λ v, v = s) S k s Hk eq_refl). lia.
  - intros k Hk. pose proof (count_pos (λ v, v = s) C k s Hk eq_refl). lia.
  - intros t k Hk Hd. pose proof (count_pos (λ k, task_data k = Some s) T t k Hk Hd). lia.
Qed.

Lemma linked_delete S C T V D xc xd s :
  (∀ k, S !! k ≠ Some s) → (∀ k, C !! k ≠ Some s) →
  linked S C T V D xc xd → linked S C T (delete s V) D xc xd.
Proof.
  intros HS HC L.
  assert (Hd : ∀ x v, delete s V !! x = Some v → V !! x = Some v)
    by (intros x v [_ Hv]%lookup_delete_Some; done).
  constructor.
  - intros k x Hk. destruct (l_cookie _ _ _ _ _ _ _ L k x Hk) as [|(v & Hv & Hc)]; [by left|].
    right. exists v. rewrite lookup_delete_ne; [done|]. intros ->. by destruct (HS k).
  - intros x v k Hv%Hd. eapply l_cookie_entry; done.
  - intros k x Hk. destruct (l_conv _ _ _ _ _ _ _ L k x Hk) as [|(v & Hv & Hc)]; [by left|].
    right. exists v. rewrite lookup_delete_ne; [done|]. intros ->. by destruct (HC k).
  - intros x v k Hv%Hd. eapply l_conv_entry; done.
  - intros x v k Hv%Hd. eapply l_init; done.
  - intros x v t Hv%Hd. eapply l_login; done.
  - intros t k x v Ht Hk Hv%Hd. eapply l_data; done.
  - eapply l_unique; done.
  - eapply l_nodata; done.
  - intros x v k Hv%Hd. eapply l_conv_login; done.
  - intros x v Hx Hv%Hd. eapply l_handed; done.
Qed.

Lemma inv_free e xc xd st st' s x :
  inv (s :: e) xc xd st → heap st !! s = Some x → refs x = 1 →
  sessions st' = sessions st → conversations st' = conversations st → tasks st' = tasks st →
  next st' = next st → heap st' = delete s (heap st) →
  handed_out <$> services st' = handed_out <$> services st →
  (∀ p, p ∈ hooks st' ↔ p ∈ hooks st ∧ p.1 ≠ s) →
  (∀ tag p, sources st' !! tag = Some p → sources st !! tag = Some p ∧ timeout_tag x ≠ Some tag) →
  inv e xc xd st'.
Proof.
  intros [H1 H2 H3 H4 H5 H6] Hs Hr ES EC ET En Eh Ed Ehk Esr.
  assert (H1' : counted (sessions st) (conversations st) (tasks st) (refs <$> delete s (heap st)) e).
  { rewrite fmap_delete. apply counted_free; [|done]. rewrite lookup_fmap, Hs. cbn. by rewrite Hr. }
  assert (Hz := H1' s). rewrite fmap_delete, lookup_delete_eq in Hz.
  apply total_zero in Hz as (HzS & HzC & HzT).
  constructor; rewrite ?ES, ?EC, ?ET, ?En, ?Eh, ?Ed; try done.
  - rewrite fmap_delete. by apply linked_delete.
  - destruct H3 as [Hh Hu]. constructor.
    + intros y h Hy. rewrite Ehk in Hy. destruct Hy as [Hy Hn]. cbn in Hn.
      destruct (Hh y h Hy) as (v & Hv & Hvh). exists v. split; [|done].
      by rewrite fmap_delete, lookup_delete_ne.
    + intros y v Hy Hi. rewrite fmap_delete in Hy. apply lookup_delete_Some in Hy as [Hn Hy].
      rewrite Ehk. split; [by eapply Hu|]. cbn. congruence.
  - intros tag sec src Ht. destruct (Esr _ _ Ht) as [Ht' Hn]. destruct (H4 _ _ _ Ht') as [Hlt Hv].
    split; [done|]. destruct src as [y|y|]; [| |done].
    all: rewrite fmap_delete, lookup_delete_ne; [done|]; intros ->;
      rewrite lookup_fmap, Hs in Hv; cbn in Hv; congruence.
  - intros tag sec y v Ht Hv Hi. destruct (Esr _ _ Ht) as [Ht' _]. rewrite fmap_delete in Hv.
    apply lookup_delete_Some in Hv as [_ Hv]. by eapply H5.
  - intros i Hi. destruct (H6 i Hi) as (Ha & Hb & Hc). split_and!; [|done|].
    + apply lookup_delete_None. by right.
    + assert (E : (handed_out <$> services st') !! i = None) by (rewrite Ed, lookup_fmap, Hc; done).
      rewrite lookup_fmap in E. by destruct (services st' !! i).
Qed.

Definition cleared (x : CockpitSession) : CockpitSession :=
  set_init_failure None (set_cookie None (set_conversation None (set_authorization None x))).

Section Ops.
Context `{Config} (g : settings).
Context (hmac : Z → list Z) (g_base64_encode : list Z → list Z).
Context (process_idle : Z) (now : bool).

Notation reset_fuel := (session_reset_fuel g hmac g_base64_encode process_idle now).

(** Resetting a session that nothing refers to any more. *)
Lemma reset_idle n s x st :
  heap st !! s = Some x → cookie x = None → conversation x = None → login_task x = None →
  reset_fuel (S n) s st = (Ok tt, set_heap (<[s := cleared x]> (heap st)) st).
Proof.
  intros Hs Hc Hv Hl. cbn [session_reset_fuel].
  unfold session_reset_body, session_release, mbind, auth_bind, prog_bind.
  unfold get_session at 1. rewrite Hs, Hl. cbn [mret auth_ret prog_ret].
  unfold mret, auth_ret, prog_ret, upd_session, get_session. cbn. rewrite Hs. cbn.
  rewrite !lookup_insert_eq. cbn. rewrite lookup_insert_eq. cbn.
  rewrite Hc, Hv. cbn. by rewrite insert_insert_eq.
Qed.

(** The last reference of a session that no table and no task holds. *)
Lemma last_reference e xc xd st s x :
  inv (s :: e) xc xd st → heap st !! s = Some x → refs x = 1 →
  cookie x = None ∧ conversation x = None ∧ login_task x = None.
Proof.
  clear hmac g_base64_encode process_idle.
  intros I Hs Hr. pose proof (i_counted _ _ _ _ I s) as Hc. rewrite lookup_fmap, Hs in Hc. cbn in Hc.
  rewrite total_cons, decide_True in Hc by done.
  assert (Hz : total (sessions st) (conversations st) (tasks st) e s = 0%nat) by lia.
  apply total_zero in Hz as (HzS & HzC & HzT). pose proof (i_linked _ _ _ _ I) as L.
  assert (Hv : (view_of <$> heap st) !! s = Some (view_of x)) by by rewrite lookup_fmap, Hs.
  assert (Hk : cookie x = None).
  { destruct (cookie x) as [k|] eqn:E; [|done].
    by destruct (HzS k (l_cookie_entry _ _ _ _ _ _ _ L s _ k Hv E)). }
  split_and!; [done| |].
  - destruct (conversation x) as [k|] eqn:E; [|done].
    by destruct (HzC k (l_conv_entry _ _ _ _ _ _ _ L s _ k Hv E)).
  - destruct (login_task x) as [t|] eqn:E; [|done].
    destruct (l_login _ _ _ _ _ _ _ L s _ t Hv E) as (k & Ht & _ & Hk').
    destruct (task_login k); [by destruct (HzT t k Ht)|].
    destruct Hk' as [_ Hk']. cbn in Hk'. congruence.
Qed.

(** What is left alone while a session is being let go. *)
Record lets_go (s : nat) (st st' : state) : Prop := {
  f_sessions k v : sessions st' !! k = Some v → sessions st !! k = Some v;
  f_conversations k v : conversations st' !! k = Some v → conversations st !! k = Some v;
  f_tasks : tasks st' = tasks st;
  f_next : next st' = next st;
  f_seed : nonce_seed st' = nonce_seed st;
  f_heap x : x ≠ s → heap st' !! x = heap st !! x;
  f_self y : heap st' !! s = Some y → ∃ x, heap st !! s = Some x ∧
    initialized y = initialized x ∧ session_name y = session_name x ∧ authorize y = authorize x ∧
    service y = service x ∧ (cookie y = None ∨ cookie y = cookie x) ∧
    (conversation y = None ∨ conversation y = conversation x) ∧
    (login_task y = None ∨ login_task y = login_task x);
  f_handed : handed_out <$> services st' = handed_out <$> services st;
  f_sources tag p : sources st' !! tag = Some p → sources st !! tag = Some p;
  f_hooks p : p ∈ hooks st' → p ∈ hooks st
}.

Lemma lets_go_refl s st : lets_go s st st.
Proof. constructor; try done. intros y Hy. exists y. split_and!; auto. Qed.

Lemma lets_go_trans s st1 st2 st3 : lets_go s st1 st2 → lets_go s st2 st3 → lets_go s st1 st3.
Proof.
  clear hmac g_base64_encode process_idle.
  intros A B. constructor.
  - intros k v Hk. by apply A, B.
  - intros k v Hk. by apply A, B.
  - by rewrite (f_tasks _ _ _ B), (f_tasks _ _ _ A).
  - by rewrite (f_next _ _ _ B), (f_next _ _ _ A).
  - by rewrite (f_seed _ _ _ B), (f_seed _ _ _ A).
  - intros x Hx. by rewrite (f_heap _ _ _ B), (f_heap _ _ _ A).
  - intros z Hz. destruct (f_self _ _ _ B z Hz) as (y & Hy & B1 & B2 & B3 & B4 & B5 & B6 & B7).
    destruct (f_self _ _ _ A y Hy) as (x & Hx & A1 & A2 & A3 & A4 & A5 & A6 & A7).
    exists x. split_and!; try congruence; intuition congruence.
  - by rewrite (f_handed _ _ _ B), (f_handed _ _ _ A).
  - intros tag p Hp. by apply A, B.
  - intros p Hp. by apply A, B.
Qed.

Lemma handed_alter (D : gmap nat CockpitWebService) (f : CockpitWebService → CockpitWebService) s :
  (∀ w, handed_out (f w) = handed_out w) → handed_out <$> alter f s D = handed_out <$> D.
Proof.
  intros Hf. apply map_eq. intros i. rewrite !lookup_fmap. destruct (decide (i = s)) as [->|Hi].
  - rewrite lookup_alter_eq. destruct (D !! s); cbn; [by rewrite Hf|done].
  - by rewrite lookup_alter_ne.
Qed.

Lemma not_hooked e xc xd st s x hs h :
  inv e xc xd st → heap st !! s = Some x →
  (match h with Control => control_sig x | Closed => close_sig x | _ => service x end = true → h ∈ hs) →
  (s, h) ∉ hooks st ∖ list_to_set (pair s <$> hs).
Proof.
  intros I Hs Hh [Hin Hn]%elem_of_difference. apply Hn, elem_of_list_to_set, list_elem_of_fmap.
  exists h. split; [done|]. apply Hh.
  destruct (c_hook _ _ (i_connected _ _ _ _ I) s h Hin) as (v & Hv & Hvh).
  rewrite lookup_fmap, Hs in Hv. cbn in Hv. injection Hv as <-. by destruct h.
Qed.

Definition kept_hooks (x : CockpitSession) : list hook :=
  (if control_sig x then [Control] else []) ++ (if close_sig x then [Closed] else []) ++
  (if service x then [Idling; Destroy; Gone] else []).

Lemma wp_eq {A} (m : auth A) a Q st st' : m st = (Ok a, st') → Q a st' → wp m Q st.
Proof. unfold wp. by intros ->. Qed.

Lemma hooks_gone e xc xd st s x p :
  inv e xc xd st → heap st !! s = Some x →
  p ∈ hooks st ∖ list_to_set (pair s <$> kept_hooks x) ↔ p ∈ hooks st ∧ p.1 ≠ s.
Proof.
  intros I Hs. destruct p as [y h]. split.
  - intros Hp. split; [by apply elem_of_difference in Hp as []|]. cbn. intros ->.
    eapply not_hooked; [exact I|exact Hs| |exact Hp]. unfold kept_hooks.
    intros Hh. rewrite !elem_of_app. destruct h; rewrite Hh, ?elem_of_cons; auto 6.
  - intros [Hp Hn]. apply elem_of_difference. split; [done|].
    intros (h' & E & _)%elem_of_list_to_set%list_elem_of_fmap. by injection E.
Qed.

Lemma disconnect_all (hs : gset (nat * hook)) s (x : CockpitSession) :
  let H1 := hs ∖ list_to_set (pair s <$> ((if control_sig x then [Control] else []) ++
                                        (if close_sig x then [Closed] else []))) in
  (if service x then H1 ∖ list_to_set (pair s <$> [Idling; Destroy; Gone]) else H1) =
  hs ∖ list_to_set (pair s <$> kept_hooks x).
Proof.
  cbn zeta. unfold kept_hooks. rewrite app_assoc, (fmap_app _ (_ ++ _)), list_to_set_app_L.
  destruct (service x).
  - by rewrite difference_difference_l_L.
  - cbn [fmap list_fmap list_to_set]. by rewrite union_empty_r_L.
Qed.

Lemma wp_unref n e xc xd st s Q :
  inv (s :: e) xc xd st →
  (∀ st', inv e xc xd st' → lets_go s st st' →
    sessions st' = sessions st → conversations st' = conversations st →
    (∀ y, heap st' !! s = Some y → ∃ x, heap st !! s = Some x ∧ y = set_refs (refs x - 1) x) →
    Q tt st') →
  wp (cockpit_session_unref (reset_fuel (S n)) s) Q st.
Proof.
  intros I HQ. destruct (alive_extra I s) as [x Hs]; [constructor|].
  pose proof (i_counted _ _ _ _ I s) as Hc. rewrite lookup_fmap, Hs in Hc. cbn in Hc.
  unfold cockpit_session_unref.
  apply wp_bind, (wp_upd_session _ _ x); [done|].
  apply wp_bind, (wp_get_session _ (set_refs (refs x - 1) x)); [cbn; by rewrite lookup_insert_eq|].
  cbn [refs set_refs]. destruct (refs x - 1 >? 0) eqn:E; to_prop.
  - apply wp_ret, HQ; [| |done|done|].
    + apply inv_unref; [done|lia|done].
    + constructor; cbn; try done.
      * intros y Hy. by rewrite lookup_insert_ne.
      * rewrite lookup_insert_eq. intros y [= <-]. exists x. cbn. split_and!; auto.
    + cbn. rewrite lookup_insert_eq. intros y [= <-]. by exists x.
  - assert (Hr : refs x = 1) by lia.
    destruct (last_reference e xc xd st s x I Hs Hr) as (Hk & Hv & Hl).
    apply wp_bind. eapply wp_eq.
    { apply (reset_idle n s (set_refs (refs x - 1) x)); [cbn; by rewrite lookup_insert_eq|done..]. }
    cbn [heap set_heap]. rewrite insert_insert_eq.
    set (x' := cleared (set_refs (refs x - 1) x)).
    apply wp_bind, (wp_get_session _ x'); [cbn; by rewrite lookup_insert_eq|].
    change (control_sig x') with (control_sig x). change (close_sig x') with (close_sig x).
    change (service x') with (service x). change (timeout_tag x') with (timeout_tag x).
    apply wp_bind, wp_modify, wp_bind.
    assert (Hend : ∀ st2 : state,
      sessions st2 = sessions st → conversations st2 = conversations st → tasks st2 = tasks st →
      next st2 = next st → nonce_seed st2 = nonce_seed st → sources st2 = sources st →
      delete s (heap st2) = delete s (heap st) →
      handed_out <$> services st2 = handed_out <$> services st →
      hooks st2 = hooks st ∖ list_to_set (pair s <$> kept_hooks x) →
      wp (_ ← remove_source (timeout_tag x);
          modify (λ st, set_heap (delete s (heap st)) st)) Q st2).
    { intros st2 ES EC ET En Esd Esr Eh Ehd Ehk.
      assert (Hsrc : wp (remove_source (timeout_tag x)) (λ _ st3,
        sessions st3 = sessions st2 ∧ conversations st3 = conversations st2 ∧ tasks st3 = tasks st2 ∧
        next st3 = next st2 ∧ nonce_seed st3 = nonce_seed st2 ∧ heap st3 = heap st2 ∧
        services st3 = services st2 ∧ hooks st3 = hooks st2 ∧
        ∀ tag p, sources st3 !! tag = Some p → sources st2 !! tag = Some p ∧ timeout_tag x ≠ Some tag) st2).
      { destruct (timeout_tag x) as [t|]; cbn [remove_source].
        - apply wp_modify. cbn. split_and!; try done. intros tag p [Hn Hp]%lookup_delete_Some.
          split; [done|]. congruence.
        - apply wp_ret. split_and!; done. }
      apply wp_bind. eapply wp_mono; [exact Hsrc|]. cbn. intros _ st3 (A1 & A2 & A3 & A4 & A5 & A6 & A7 & A8 & A9).
      apply wp_modify. apply HQ; [| |cbn; congruence|cbn; congruence|].
      - eapply (inv_free e xc xd st _ s x); try done; cbn; try congruence.
        + intros p. rewrite A8, Ehk. by apply (hooks_gone (s :: e) xc xd).
        + intros tag p Hp. destruct (A9 tag p Hp) as [Hp' Hn]. by rewrite Esr in Hp'.
      - constructor; cbn; try congruence.
        + intros y Hy. rewrite A6, Eh. by rewrite lookup_delete_ne.
        + intros y Hy. by rewrite lookup_delete_eq in Hy.
        + intros tag p Hp. destruct (A9 tag p Hp) as [Hp' Hn]. by rewrite Esr in Hp'.
        + intros p. rewrite A8, Ehk. intros Hp. by apply elem_of_difference in Hp as [].
      - cbn. intros y Hy. by rewrite lookup_delete_eq in Hy. }
    pose proof (disconnect_all (hooks st) s x) as Hd. cbn zeta in Hd.
    destruct (service x) eqn:Es; cbn [when].
    + apply wp_bind, wp_modify, wp_bind, (wp_upd_session _ _ x'); [cbn; by rewrite lookup_insert_eq|].
      apply wp_bind, wp_modify, wp_modify. apply Hend; cbn; try done.
      * by rewrite !delete_insert_eq.
      * rewrite !handed_alter; done.
    + apply wp_ret. apply Hend; cbn; try done. by rewrite delete_insert_eq.
Qed.

(** *** Tables *)

Lemma view_lookup st s x : heap st !! s = Some x → (view_of <$> heap st) !! s = Some (view_of x).
Proof. intros Hs. by rewrite lookup_fmap, Hs. Qed.

Lemma view_inv st s v : (view_of <$> heap st) !! s = Some v → ∃ x, heap st !! s = Some x ∧ v = view_of x.
Proof. rewrite lookup_fmap. destruct (heap st !! s) as [x|]; [|done]. intros [= <-]. by exists x. Qed.

Definition without_names (v : view) : view := mkView None None (v_login v) (v_init v) (v_name v).

Lemma linked_clear S C T V D s v :
  V !! s = Some v → v_login v = None → linked S C T V D None None →
  linked S C T (<[s := without_names v]> V) D (v_cookie v) (v_conv v).
Proof.
  clear hmac g_base64_encode process_idle.
  intros Hs Hl L.
  assert (Hcase : ∀ x w, <[s := without_names v]> V !! x = Some w →
            (x = s ∧ w = without_names v) ∨ (x ≠ s ∧ V !! x = Some w)).
  { intros x w [[<- <-]|[Hn Hw]]%lookup_insert_Some; [by left|right; done]. }
  constructor.
  - intros k x Hk. destruct (l_cookie _ _ _ _ _ _ _ L k x Hk) as [|(w & Hw & Hc)]; [done|].
    destruct (decide (x = s)) as [->|Hn]; [left; congruence|].
    right. exists w. by rewrite lookup_insert_ne.
  - intros x w k [[-> ->]|[Hn Hw]]%Hcase; [done|]. by eapply l_cookie_entry.
  - intros k x Hk. destruct (l_conv _ _ _ _ _ _ _ L k x Hk) as [|(w & Hw & Hc)]; [done|].
    destruct (decide (x = s)) as [->|Hn]; [left; congruence|].
    right. exists w. by rewrite lookup_insert_ne.
  - intros x w k [[-> ->]|[Hn Hw]]%Hcase; [done|]. by eapply l_conv_entry.
  - intros x w k [[-> ->]|[Hn Hw]]%Hcase; [done|]. by eapply l_init.
  - intros x w t [[-> ->]|[Hn Hw]]%Hcase; [cbn; congruence|]. by eapply l_login.
  - intros t k x w Ht Hk [[-> ->]|[Hn Hw]]%Hcase; [|by eapply l_data].
    destruct (l_data _ _ _ _ _ _ _ L t k s v Ht Hk Hs) as (A & B & E & F). cbn. split_and!; try done.
    destruct (task_result k); [|done]. tauto.
  - by eapply l_unique.
  - by eapply l_nodata.
  - intros x w k [[-> ->]|[Hn Hw]]%Hcase; [done|]. by eapply l_conv_login.
  - intros x w Hd [[-> ->]|[Hn Hw]]%Hcase Hi; [|by eapply l_handed]. cbn in *. split; [done|].
    by eapply (l_handed _ _ _ _ _ _ _ L s v).
Qed.

Lemma inv_clear e st s x y :
  inv e None None st → heap st !! s = Some x → login_task x = None →
  refs y = refs x → view_of y = without_names (view_of x) → hooks_of y = hooks_of x →
  timeout_tag y = timeout_tag x →
  inv e (cookie x) (conversation x) (set_heap (<[s := y]> (heap st)) st).
Proof.
  clear hmac g_base64_encode process_idle.
  intros [H1 H2 H3 H4 H5 H6] Hs Hl Er Ev Eh Et. constructor; cbn.
  - by rewrite (fmap_upd _ refs _ x).
  - rewrite fmap_insert, Ev. apply (linked_clear _ _ _ _ _ s (view_of x)); [by apply view_lookup|done|done].
  - by rewrite (fmap_upd _ hooks_of _ x).
  - by rewrite (fmap_upd _ timeout_tag _ x).
  - intros tag sec z v Ht Hv Hi. rewrite fmap_insert, Ev in Hv.
    apply lookup_insert_Some in Hv as [[<- <-]|[Hn Hv]]; [|by eapply H5].
    destruct (H5 tag sec s _ Ht (view_lookup _ _ _ Hs) Hi) as [_ Hq]. split; [done|]. cbn. exact Hq.
  - by apply (fresh_upd _ _ _ _ _ x).
Qed.

Lemma inv_unlink_session e k xd st s :
  inv e (Some k) xd st → sessions st !! k = Some s →
  (∀ y x, heap st !! y = Some x → cookie x ≠ Some k) →
  inv (s :: e) None xd (set_sessions (delete k (sessions st)) st).
Proof.
  intros [H1 H2 H3 H4 H5 H6] Hk Hno. constructor; cbn; try done.
  - eapply counted_ext; [|done]. intros x. by apply total_session_delete.
  - destruct H2. constructor; try done.
    + intros k' x [Hn Hk']%lookup_delete_Some. destruct (l_cookie0 k' x Hk') as [|?]; [congruence|by right].
    + intros x v k' Hv Hc. rewrite lookup_delete_ne; [by eapply l_cookie_entry0|].
      intros <-. apply view_inv in Hv as (z & Hz & ->). by eapply Hno.
Qed.

Lemma inv_unlink_conversation e k xc st s :
  inv e xc (Some k) st → conversations st !! k = Some s →
  (∀ y x, heap st !! y = Some x → conversation x ≠ Some k) →
  inv (s :: e) xc None (set_conversations (delete k (conversations st)) st).
Proof.
  intros [H1 H2 H3 H4 H5 H6] Hk Hno. constructor; cbn; try done.
  - eapply counted_ext; [|done]. intros x. by apply total_conversation_delete.
  - destruct H2. constructor; try done.
    + intros k' x [Hn Hk']%lookup_delete_Some. destruct (l_conv0 k' x Hk') as [|?]; [congruence|by right].
    + intros x v k' Hv Hc. rewrite lookup_delete_ne; [by eapply l_conv_entry0|].
      intros <-. apply view_inv in Hv as (z & Hz & ->). by eapply Hno.
Qed.

(** *** Letting go of the names of a session *)

Lemma cookie_unique e xc xd st s y x z k :
  inv e xc xd st → heap st !! s = Some x → cookie x = Some k →
  heap st !! y = Some z → cookie z = Some k → y = s.
Proof.
  intros I Hs Hx Hy Hz. pose proof (i_linked _ _ _ _ I) as L.
  pose proof (l_cookie_entry _ _ _ _ _ _ _ L s _ k (view_lookup _ _ _ Hs) Hx).
  pose proof (l_cookie_entry _ _ _ _ _ _ _ L y _ k (view_lookup _ _ _ Hy) Hz). congruence.
Qed.

Lemma wp_remove_session n e k xd st s Q :
  inv e (Some k) xd st → sessions st !! k = Some s →
  (∀ y x, heap st !! y = Some x → cookie x ≠ Some k) →
  (∀ st', inv e None xd st' → lets_go s st st' → conversations st' = conversations st → Q tt st') →
  wp (sessions_remove (reset_fuel (S n)) k) Q st.
Proof.
  intros I Hk Hno HQ. apply wp_bind, wp_get. rewrite Hk. apply wp_bind, wp_modify.
  apply (wp_unref n e None xd); [by apply inv_unlink_session|].
  intros st' I' G ES EC _. apply HQ; [done| |done].
  eapply lets_go_trans; [|exact G].
  constructor; cbn; try done; [by intros k' v [_ Hv]%lookup_delete_Some|].
  intros y Hy. exists y. split_and!; auto.
Qed.

Lemma wp_remove_conversation n e k xc st s Q :
  inv e xc (Some k) st → conversations st !! k = Some s →
  (∀ y x, heap st !! y = Some x → conversation x ≠ Some k) →
  (∀ st', inv e xc None st' → lets_go s st st' → Q tt st') →
  wp (conversations_remove (reset_fuel (S n)) k) Q st.
Proof.
  intros I Hk Hno HQ. apply wp_bind, wp_get. rewrite Hk. apply wp_bind, wp_modify.
  apply (wp_unref n e xc None); [by apply inv_unlink_conversation|].
  intros st' I' G ES EC _. apply HQ; [done|].
  eapply lets_go_trans; [|exact G].
  constructor; cbn; try done; [by intros k' v [_ Hv]%lookup_delete_Some|].
  intros y Hy. exists y. split_and!; auto.
Qed.

Definition nameless (s : nat) (st : state) : Prop :=
  ∀ y, heap st !! s = Some y → cookie y = None ∧ conversation y = None ∧ login_task y = None.

Lemma nameless_lets_go s st st' : lets_go s st st' → nameless s st → nameless s st'.
Proof.
  clear hmac g_base64_encode process_idle.
  intros G N y Hy. destruct (f_self _ _ _ G y Hy) as (x & Hx & _ & _ & _ & _ & A & B & C).
  destruct (N x Hx) as (D & E & F). intuition congruence.
Qed.

Lemma wp_release n e st s x Q :
  inv e None None st → heap st !! s = Some x → login_task x = None →
  (∀ st', inv e None None st' → lets_go s st st' → nameless s st' → Q tt st') →
  wp (session_release (reset_fuel (S n)) s) Q st.
Proof.
  intros I Hs Hl HQ. unfold session_release. pose proof (i_linked _ _ _ _ I) as L.
  apply wp_bind, (wp_upd_session _ _ x); [done|].
  apply wp_bind, (wp_get_session _ (set_authorization None x)); [cbn; by rewrite lookup_insert_eq|].
  apply wp_bind, (wp_upd_session _ _ (set_authorization None x)); [cbn; by rewrite lookup_insert_eq|].
  cbn [heap set_heap cookie conversation set_authorization]. rewrite insert_insert_eq.
  set (y := set_init_failure None _). set (st1 := set_heap _ _).
  assert (I1 : inv e (cookie x) (conversation x) st1).
  { eapply inv_same; [by apply (inv_clear e st s x y)|done..]. }
  assert (Hy : heap st1 !! s = Some y) by (cbn; by rewrite lookup_insert_eq).
  assert (G1 : lets_go s st st1).
  { constructor; cbn; try done; [intros z Hz; by rewrite lookup_insert_ne|].
    rewrite lookup_insert_eq. intros z [= <-]. exists x. cbn. split_and!; auto. }
  assert (N1 : nameless s st1) by (intros z Hz; rewrite Hy in Hz; injection Hz as <-; done).
  assert (ES1 : sessions st1 = sessions st) by done.
  assert (EC1 : conversations st1 = conversations st) by done.
  clearbody st1. apply wp_bind.
  apply (wp_mono _ (λ _ st2, inv e None (conversation x) st2 ∧ lets_go s st1 st2 ∧
                             conversations st2 = conversations st1)).
  { destruct (cookie x) as [k|] eqn:Ek; [|by apply wp_ret; split_and!; [|apply lets_go_refl|]].
    pose proof (l_cookie_entry _ _ _ _ _ _ _ L s _ k (view_lookup _ _ _ Hs) Ek) as HS.
    eapply wp_remove_session; [exact I1|by rewrite ES1| |by intros st2 I2 G2 EC; split_and!].
    intros z w Hz Hw.
    pose proof (l_cookie_entry _ _ _ _ _ _ _ (i_linked _ _ _ _ I1) z _ k (view_lookup _ _ _ Hz) Hw) as HS1.
    assert (z = s) as -> by congruence. destruct (N1 w Hz) as [Hc _]. cbn in Hw. congruence. }
  intros _ st2 (I2 & G2 & EC2). pose proof (nameless_lets_go _ _ _ G2 N1) as N2.
  destruct (conversation x) as [k|] eqn:Ek.
  - pose proof (l_conv_entry _ _ _ _ _ _ _ L s _ k (view_lookup _ _ _ Hs) Ek) as HC.
    eapply wp_remove_conversation; [exact I2|by rewrite EC2, EC1| |].
    + intros z w Hz Hw.
      pose proof (l_conv_entry _ _ _ _ _ _ _ (i_linked _ _ _ _ I2) z _ k (view_lookup _ _ _ Hz) Hw) as HC1.
      assert (z = s) as -> by congruence. destruct (N2 w Hz) as (_ & Hc & _). cbn in Hw. congruence.
    + intros st3 I3 G3. apply HQ; [done| |by eapply nameless_lets_go].
      eapply lets_go_trans; [exact G1|]. by eapply lets_go_trans.
  - apply wp_ret, HQ; [done| |done]. by eapply lets_go_trans.
Qed.

(** *** Tasks *)

Definition no_login (v : view) : view := mkView (v_cookie v) (v_conv v) None (v_init v) (v_name v).

Lemma linked_return S C T V D s v t k r :
  V !! s = Some v → v_login v = Some t → T !! t = Some k → linked S C T V D None None →
  linked S C (<[t := with_result r k]> T) (<[s := no_login v]> V) D None None.
Proof.
  intros Hs Hl Ht L.
  destruct (l_login _ _ _ _ _ _ _ L s v t Hs Hl) as (k0 & Ht0 & Hr & Hk).
  assert (k0 = k) as -> by congruence. clear Ht0.
  assert (HV : ∀ x w, <[s := no_login v]> V !! x = Some w →
            ∃ w', V !! x = Some w' ∧ v_cookie w = v_cookie w' ∧ v_conv w = v_conv w' ∧
              v_init w = v_init w' ∧ v_name w = v_name w' ∧
              (x = s ∧ v_login w = None ∨ x ≠ s ∧ w = w')).
  { intros x w [[<- <-]|[Hn Hw]]%lookup_insert_Some; [exists v|exists w]; cbn; split_and!; auto. }
  assert (HT : ∀ u j, <[t := with_result r k]> T !! u = Some j →
            ∃ j', T !! u = Some j' ∧ task_data j = task_data j' ∧ task_login j = task_login j' ∧
              (u = t ∧ j' = k ∧ task_result j = Some r ∨ u ≠ t ∧ j = j')).
  { intros u j [[<- <-]|[Hn Hw]]%lookup_insert_Some; [exists k|exists j]; cbn; split_and!; auto. }
  constructor.
  - intros c x Hk'. destruct (l_cookie _ _ _ _ _ _ _ L c x Hk') as [|(w & Hw & Hc)]; [done|]. right.
    destruct (decide (x = s)) as [->|Hn].
    + exists (no_login v). rewrite lookup_insert_eq. split; [done|]. cbn. congruence.
    + exists w. by rewrite lookup_insert_ne.
  - intros x w c Hw Hc. destruct (HV x w Hw) as (w' & Hw' & E & _). rewrite E in Hc. by eapply l_cookie_entry.
  - intros c x Hk'. destruct (l_conv _ _ _ _ _ _ _ L c x Hk') as [|(w & Hw & Hc)]; [done|]. right.
    destruct (decide (x = s)) as [->|Hn].
    + exists (no_login v). rewrite lookup_insert_eq. split; [done|]. cbn. congruence.
    + exists w. by rewrite lookup_insert_ne.
  - intros x w c Hw Hc. destruct (HV x w Hw) as (w' & Hw' & _ & E & _). rewrite E in Hc. by eapply l_conv_entry.
  - intros x w c Hw Hc. destruct (HV x w Hw) as (w' & Hw' & E1 & _ & E2 & E3 & _).
    rewrite E1 in Hc. rewrite E2, E3. by eapply l_init.
  - intros x w u Hw Hu. destruct (HV x w Hw) as (w' & Hw' & E & _ & _ & _ & [[-> Hx]|[Hx ->]]); [congruence|].
    destruct (l_login _ _ _ _ _ _ _ L x w' u Hw' Hu) as (j & Hj & Hjr & Hjd).
    exists j. rewrite lookup_insert_ne; [done|]. intros <-.
    assert (j = k) as -> by congruence. destruct (task_login k); [congruence|].
    destruct Hk as [_ Hc1], Hjd as [_ Hc2]. apply Hx.
    pose proof (l_cookie_entry _ _ _ _ _ _ _ L x w' _ Hw' Hc2).
    pose proof (l_cookie_entry _ _ _ _ _ _ _ L s v _ Hs Hc1). congruence.
  - intros u j x w Hu Hd Hw. destruct (HT u j Hu) as (j' & Hj' & Ed & El & Hcase).
    destruct (HV x w Hw) as (w' & Hw' & E1 & E2 & E3 & E4 & Hx). rewrite Ed in Hd.
    destruct (l_data _ _ _ _ _ _ _ L u j' x w' Hj' Hd Hw') as (A & B & F & G).
    rewrite El, E1, E4. split_and!; [done..|].
    destruct Hcase as [(-> & -> & ->)|[Hn ->]].
    + rewrite A in Hk. assert (x = s) as -> by congruence. destruct Hx as [[_ Hx]|[Hx _]]; [|done].
      split; [done|]. rewrite E2. destruct (v_conv w') as [c|] eqn:Ec; [|done].
      destruct (l_conv_login _ _ _ _ _ _ _ L s w' c Hw' Ec) as [Hlog _]. congruence.
    + destruct Hx as [[-> Hx]|[_ ->]]; [|done].
      assert (w' = v) as -> by congruence. exfalso. destruct (task_result j'); [|congruence].
      destruct G as [G _]. congruence.
  - intros u u' j j' x Hu Hu' Hd Hd'. destruct (HT u j Hu) as (i & Hi & Ed & _), (HT u' j' Hu') as (i' & Hi' & Ed' & _).
    eapply (l_unique _ _ _ _ _ _ _ L u u' i i' x); congruence.
  - intros u j Hu Hd Hlo. destruct (HT u j Hu) as (j' & Hj' & Ed & El & [(-> & -> & _)|[_ ->]]).
    + rewrite El in Hlo. rewrite Hlo in Hk. congruence.
    + by eapply l_nodata.
  - intros x w c Hw Hc. destruct (HV x w Hw) as (w' & Hw' & E1 & E2 & _ & E4 & Hx). rewrite E2 in Hc.
    destruct (l_conv_login _ _ _ _ _ _ _ L x w' c Hw' Hc) as (A & B & F). rewrite E1, E4.
    split_and!; [|done|done]. by destruct Hx as [[_ Hx]|[_ ->]].
  - intros x w Hx Hw Hi. destruct (HV x w Hw) as (w' & Hw' & _ & E2 & E3 & _). rewrite E3 in Hi. rewrite E2.
    destruct (l_handed _ _ _ _ _ _ _ L x w' Hx Hw' Hi) as [A B]. split; [done|].
    intros u j Hu. destruct (HT u j Hu) as (j' & Hj' & -> & _). by eapply B.
Qed.

Lemma inv_return e st s x t r :
  inv e None None st → heap st !! s = Some x → login_task x = Some t →
  inv e None None (set_tasks (alter (with_result r) t (tasks st))
                     (set_heap (<[s := set_login_task None x]> (heap st)) st)).
Proof.
  intros [H1 H2 H3 H4 H5 H6] Hs Hl.
  destruct (l_login _ _ _ _ _ _ _ H2 s _ t (view_lookup _ _ _ Hs) Hl) as (k & Ht & Hr & _).
  assert (ET : alter (with_result r) t (tasks st) = <[t := with_result r k]> (tasks st)).
  { apply map_eq. intros u. destruct (decide (u = t)) as [->|Hn].
    - by rewrite lookup_alter_eq, lookup_insert_eq, Ht.
    - by rewrite lookup_alter_ne, lookup_insert_ne. }
  constructor; cbn [sessions conversations tasks heap services hooks sources next set_tasks set_heap];
    rewrite ?ET.
  - rewrite (fmap_upd _ refs _ x) by done. eapply counted_ext; [|exact H1].
    intros y. by apply (total_task_update _ _ _ _ _ k).
  - rewrite fmap_insert. by apply (linked_return _ _ _ _ _ s (view_of x) t k r); [apply view_lookup| | |].
  - by rewrite (fmap_upd _ hooks_of _ x).
  - by rewrite (fmap_upd _ timeout_tag _ x).
  - intros tag sec z v Hsrc Hv Hi. rewrite fmap_insert in Hv.
    assert (Hq : ∀ w, (view_of <$> heap st) !! z = Some w → v_init w = false → quiet (tasks st) w)
      by (intros w Hw Hwi; by eapply H5).
    apply lookup_insert_Some in Hv as [[<- <-]|[Hn Hv]].
    + destruct (Hq _ (view_lookup _ _ _ Hs) Hi) as [Hq1 _]. by split.
    + destruct (Hq _ Hv Hi) as [Hq1 Hq2]. split; [done|]. intros u j Hu Hj.
      apply lookup_insert_Some in Hj as [[<- <-]|[Hnj Hj]]; [by apply (Hq2 t k)|by eapply Hq2].
  - intros i Hi. destruct (H6 i Hi) as (A & B & D). split_and!; [| |done].
    + rewrite lookup_insert_ne; [done|]. congruence.
    + rewrite lookup_insert_ne; [done|]. congruence.
Qed.

(** A task that calls back is not waiting any more; its reference is the caller's. *)
Lemma inv_callback e st t k r :
  inv e None None st → tasks st !! t = Some k → task_result k = Some r →
  inv (held k e) None None (set_tasks (delete t (tasks st)) st).
Proof.
  intros [H1 H2 H3 H4 H5 H6] Ht Hr. constructor; cbn; try done.
  - eapply counted_ext; [|exact H1]. intros x. by apply total_task_delete.
  - destruct H2 as [L1 L2 L3 L4 L5 L6 L7 L8 L9 L10 L11]. constructor; try done.
    + intros s v u Hv Hu. destruct (L6 s v u Hv Hu) as (j & Hj & Hjr & Hjd). exists j.
      rewrite lookup_delete_ne; [done|]. intros <-. congruence.
    + intros u j s v [Hn Hu]%lookup_delete_Some. by eapply L7.
    + intros u u' j j' s [_ Hu]%lookup_delete_Some [_ Hu']%lookup_delete_Some. by eapply L8.
    + intros u j [_ Hu]%lookup_delete_Some. by eapply L9.
    + intros s v Hd Hv Hi. destruct (L11 s v Hd Hv Hi) as [A B]. split; [done|].
      intros u j [_ Hu]%lookup_delete_Some. by eapply B.
  - intros tag sec s v Hs Hv Hi. destruct (H5 tag sec s v Hs Hv Hi) as [A B]. split; [done|].
    intros u j Hu [_ Hj]%lookup_delete_Some. by eapply B.
  - intros i Hi. destruct (H6 i Hi) as (A & B & D). split_and!; [done| |done].
    apply lookup_delete_None. by right.
Qed.

(** A request that is refused at once. *)
Lemma inv_leave_refused e xc xd st t k err :
  inv e xc xd st → tasks st !! t = None → (t < next st)%nat →
  task_data k = None → task_login k = true → task_result k = Some (Some err) →
  inv e xc xd (set_tasks (<[t := k]> (tasks st)) st).
Proof.
  clear hmac g_base64_encode process_idle.
  intros [H1 H2 H3 H4 H5 H6] Ht Hlt Hd Hl Hr. constructor; cbn; try done.
  - eapply counted_ext; [|exact H1]. intros x. rewrite total_task_insert by done. unfold held. by rewrite Hd.
  - destruct H2 as [L1 L2 L3 L4 L5 L6 L7 L8 L9 L10 L11]. constructor; try done.
    + intros s v u Hv Hu. destruct (L6 s v u Hv Hu) as (j & Hj & Hjr). exists j.
      rewrite lookup_insert_ne; [done|]. intros <-. congruence.
    + intros u j s v [[<- <-]|[Hn Hu]]%lookup_insert_Some; [congruence|]. by eapply L7.
    + intros u u' j j' s [[<- <-]|[_ Hu]]%lookup_insert_Some [[<- <-]|[_ Hu']]%lookup_insert_Some;
        [done|congruence|congruence|]. by eapply L8.
    + intros u j [[<- <-]|[_ Hu]]%lookup_insert_Some; [congruence|]. by eapply L9.
    + intros s v Hx Hv Hi. destruct (L11 s v Hx Hv Hi) as [A B]. split; [done|].
      intros u j [[<- <-]|[_ Hu]]%lookup_insert_Some; [congruence|]. by eapply B.
  - intros tag sec s v Hs Hv Hi. destruct (H5 tag sec s v Hs Hv Hi) as [A B]. split; [done|].
    intros u j Hu [[<- <-]|[_ Hj]]%lookup_insert_Some; [|by eapply B].
    destruct (l_login _ _ _ _ _ _ _ H2 s v t Hv Hu) as (j & Hj & _). congruence.
  - intros i Hi. destruct (H6 i Hi) as (A & B & D). split_and!; [done| |done].
    rewrite lookup_insert_ne; [done|lia].
Qed.

Definition unheld (s : nat) (st : state) : Prop := ∀ t k, tasks st !! t = Some k → task_data k ≠ Some s.

(** Someone waits for the session now: a login, which keeps the session, or the start of the
    local session. *)
Lemma inv_leave_waiting e st s x t k :
  inv (held k e) None None st → heap st !! s = Some x →
  login_task x = None → conversation x = None → session_name x ≠ LOCAL_SESSION ∨ task_login k = false →
  unheld s st → tasks st !! t = None → (t < next st)%nat → task_result k = None →
  (if task_login k then task_data k = Some s ∧ cookie x ≠ Some LOCAL_SESSION
   else task_data k = None ∧ cookie x = Some LOCAL_SESSION) →
  (task_login k = true → initialized x = false →
   (handed_out <$> services st) !! s ≠ Some true ∧
   ∀ tag sec, sources st !! tag ≠ Some (sec, SessionTimeout s)) →
  inv e None None (set_heap (<[s := set_login_task (Some t) x]> (heap st))
                     (set_tasks (<[t := k]> (tasks st)) st)).
Proof.
  clear hmac g_base64_encode process_idle.
  intros [H1 H2 H3 H4 H5 H6] Hs Hl Hc Hnm Hun Ht Hlt Hr Hk Hi.
  pose proof (view_lookup _ _ _ Hs) as Hv0.
  constructor; cbn [sessions conversations tasks heap services hooks sources next set_tasks set_heap].
  - rewrite (fmap_upd _ refs _ x) by done. eapply counted_ext; [|exact H1].
    intros y. by rewrite total_task_insert.
  - rewrite fmap_insert. set (v' := view_of (set_login_task (Some t) x)).
    destruct H2 as [L1 L2 L3 L4 L5 L6 L7 L8 L9 L10 L11].
    assert (HV : ∀ y w, <[s := v']> (view_of <$> heap st) !! y = Some w →
      y = s ∧ w = v' ∨ y ≠ s ∧ (view_of <$> heap st) !! y = Some w).
    { intros y w [[<- <-]|[Hn Hw]]%lookup_insert_Some; auto. }
    constructor.
    + intros c y Hy. destruct (L1 c y Hy) as [|(w & Hw & Hwc)]; [done|]. right.
      destruct (decide (y = s)) as [->|Hn]; [|exists w; by rewrite lookup_insert_ne].
      exists v'. rewrite lookup_insert_eq. split; [done|]. rewrite Hv0 in Hw. by injection Hw as <-.
    + intros y w c [[-> ->]|[_ Hw]]%HV; [by apply (L2 s (view_of x))|by apply L2].
    + intros c y Hy. destruct (L3 c y Hy) as [|(w & Hw & Hwc)]; [done|]. right.
      destruct (decide (y = s)) as [->|Hn]; [|exists w; by rewrite lookup_insert_ne].
      exists v'. rewrite lookup_insert_eq. split; [done|]. rewrite Hv0 in Hw. by injection Hw as <-.
    + intros y w c [[-> ->]|[_ Hw]]%HV; [by apply (L4 s (view_of x))|by apply L4].
    + intros y w c [[-> ->]|[_ Hw]]%HV; [by apply (L5 s (view_of x))|by eapply L5].
    + intros y w u [[-> ->]|[_ Hw]]%HV Hu.
      * cbn in Hu. injection Hu as <-. exists k. rewrite lookup_insert_eq. split_and!; [done..|].
        destruct (task_login k); [by destruct Hk|done].
      * destruct (L6 y w u Hw Hu) as (j & Hj & Hjr). exists j. rewrite lookup_insert_ne; [done|congruence].
    + intros u j y w Hu Hd Hw. apply lookup_insert_Some in Hu as [[<- <-]|[Hnu Hu]].
      * destruct (task_login k) eqn:Elo; [|destruct Hk; congruence]. destruct Hk as [Hkd Hkc].
        assert (y = s) as -> by congruence. destruct (HV s w Hw) as [[_ ->]|[? _]]; [|done]. rewrite Hr.
        split_and!; try done. by destruct Hnm.
      * destruct (HV y w Hw) as [[-> ->]|[_ Hw']]; [by destruct (Hun u j)|by eapply L7].
    + intros u u' j j' y Hu Hu' Hd Hd'. apply lookup_insert_Some in Hu as [[<- <-]|[Hnu Hu]], Hu' as [[<- <-]|[Hnu' Hu']];
        [done| | |by eapply L8].
      * exfalso. destruct (task_login k); destruct Hk as [Hkd _]; [|congruence].
        apply (Hun u' j' Hu'). congruence.
      * exfalso. destruct (task_login k); destruct Hk as [Hkd _]; [|congruence].
        apply (Hun u j Hu). congruence.
    + intros u j [[<- <-]|[_ Hu]]%lookup_insert_Some; [congruence|]. by eapply L9.
    + intros y w c [[-> ->]|[_ Hw]]%HV Hwc; [cbn in Hwc; congruence|]. by eapply L10.
    + intros y w Hy Hw Hwi. destruct (HV y w Hw) as [[-> ->]|[Hn Hw']].
      * cbn in Hwi. destruct (task_login k) eqn:Elo; [by destruct (Hi eq_refl Hwi) as [Hh _]|].
        split; [done|]. intros u j [[<- <-]|[_ Hu]]%lookup_insert_Some; [by destruct Hk; congruence|].
        by eapply Hun.
      * destruct (L11 y w Hy Hw' Hwi) as [A B]. split; [done|].
        intros u j [[<- <-]|[_ Hu]]%lookup_insert_Some; [|by eapply B].
        destruct (task_login k); destruct Hk as [-> _]; congruence.
  - by rewrite (fmap_upd _ hooks_of _ x).
  - by rewrite (fmap_upd _ timeout_tag _ x).
  - intros tag sec y w Hsrc Hw Hwi. rewrite fmap_insert in Hw.
    apply lookup_insert_Some in Hw as [[<- <-]|[Hn Hw]].
    + cbn in Hwi. destruct (task_login k) eqn:Elo; [by destruct (Hi eq_refl Hwi) as [_ Hh]; destruct (Hh tag sec)|].
      split; [done|]. cbn. intros u j [= <-]. rewrite lookup_insert_eq. by intros [= <-].
    + destruct (H5 tag sec y w Hsrc Hw Hwi) as [A B]. split; [done|].
      intros u j Hu [[<- <-]|[_ Hj]]%lookup_insert_Some; [|by eapply B].
      destruct (l_login _ _ _ _ _ _ _ H2 y w t Hw Hu) as (j & Hj & _). congruence.
  - intros i Hge. destruct (H6 i Hge) as (A & B & D). split_and!; [| |done].
    + rewrite lookup_insert_ne; [done|]. congruence.
    + rewrite lookup_insert_ne; [done|lia].
Qed.

(** *** New names *)

Lemma inv_name_cookie e st s x k :
  inv (s :: e) None None st → heap st !! s = Some x →
  cookie x = None → login_task x = None → sessions st !! k = None →
  (k = LOCAL_SESSION ∧ conversation x = None ∧ unheld s st) ∨
  (initialized x = true ∧ session_name x ≠ LOCAL_SESSION ∧ prefixb (bs "v=2;k=") k = true) →
  inv e None None (set_sessions (<[k := s]> (sessions st))
                     (set_heap (<[s := set_cookie (Some k) x]> (heap st)) st)).
Proof.
  intros [H1 H2 H3 H4 H5 H6] Hs Hc Hl Hk Hcase.
  pose proof (view_lookup _ _ _ Hs) as Hv0.
  assert (Hnl : k = LOCAL_SESSION → conversation x = None ∧ unheld s st).
  { intros ->. destruct Hcase as [(_ & A & B)|(_ & _ & E)]; [done|by vm_compute in E]. }
  constructor; cbn [sessions conversations tasks heap services hooks sources next set_sessions set_heap].
  - rewrite (fmap_upd _ refs _ x) by done. eapply counted_ext; [|exact H1].
    intros y. by apply total_session_insert.
  - rewrite fmap_insert. set (v' := view_of (set_cookie (Some k) x)).
    destruct H2 as [L1 L2 L3 L4 L5 L6 L7 L8 L9 L10 L11].
    assert (HV : ∀ y w, <[s := v']> (view_of <$> heap st) !! y = Some w →
      y = s ∧ w = v' ∨ y ≠ s ∧ (view_of <$> heap st) !! y = Some w).
    { intros y w [[<- <-]|[Hn Hw]]%lookup_insert_Some; auto. }
    constructor.
    + intros c y [[<- <-]|[Hn Hy]]%lookup_insert_Some; right.
      { exists v'. by rewrite lookup_insert_eq. }
      destruct (L1 c y Hy) as [|(w & Hw & Hwc)]; [done|]. exists w.
      rewrite lookup_insert_ne; [done|]. intros <-. rewrite Hv0 in Hw. injection Hw as <-. cbn in Hwc. congruence.
    + intros y w c [[-> ->]|[Hn Hw]]%HV Hwc.
      { cbn in Hwc. injection Hwc as <-. by rewrite lookup_insert_eq. }
      rewrite lookup_insert_ne; [by eapply L2|]. intros <-. pose proof (L2 y w k Hw Hwc). congruence.
    + intros c y Hy. destruct (L3 c y Hy) as [|(w & Hw & Hwc)]; [done|]. right.
      destruct (decide (y = s)) as [->|Hn]; [|exists w; by rewrite lookup_insert_ne].
      exists v'. rewrite lookup_insert_eq. split; [done|]. rewrite Hv0 in Hw. by injection Hw as <-.
    + intros y w c [[-> ->]|[_ Hw]]%HV; [by apply (L4 s (view_of x))|by eapply L4].
    + intros y w c [[-> ->]|[_ Hw]]%HV Hwc; [|by eapply L5].
      cbn in Hwc. injection Hwc as <-. destruct Hcase as [(-> & _)|?]; [by left|by right].
    + intros y w u [[-> ->]|[_ Hw]]%HV Hu; [cbn in Hu; congruence|by eapply L6].
    + intros u j y w Hu Hd [[-> ->]|[_ Hw]]%HV; [|by eapply L7].
      destruct (L7 u j s _ Hu Hd Hv0) as (A & B & E & F). split_and!; [done| |done|done].
      cbn. intros [= ->]. destruct (Hnl eq_refl) as [_ Hun]. by eapply Hun.
    + done.
    + done.
    + intros y w c [[-> ->]|[_ Hw]]%HV Hwc; [|by eapply L10]. cbn in Hwc.
      destruct (L10 s _ c Hv0 Hwc) as (A & B & E). split_and!; [done| |done].
      cbn. intros [= ->]. destruct (Hnl eq_refl) as [Hcv _]. congruence.
    + intros y w Hy [[-> ->]|[_ Hw]]%HV Hwi; [|by eapply L11]. by apply (L11 s (view_of x)).
  - by rewrite (fmap_upd _ hooks_of _ x).
  - by rewrite (fmap_upd _ timeout_tag _ x).
  - intros tag sec y w Hsrc Hw Hwi. rewrite fmap_insert in Hw.
    apply lookup_insert_Some in Hw as [[<- <-]|[Hn Hw]]; [|by eapply H5].
    by apply (H5 tag sec s (view_of x)).
  - by apply (fresh_upd _ _ _ _ _ x).
Qed.

Lemma inv_name_conversation e st s x k :
  inv (s :: e) None None st → heap st !! s = Some x →
  conversation x = None → login_task x = None → cookie x ≠ Some LOCAL_SESSION →
  session_name x ≠ LOCAL_SESSION → conversations st !! k = None → unheld s st →
  (initialized x = false → (handed_out <$> services st) !! s ≠ Some true) →
  (∀ tag sec, sources st !! tag ≠ Some (sec, SessionTimeout s)) →
  inv e None None (set_conversations (<[k := s]> (conversations st))
                     (set_heap (<[s := set_conversation (Some k) x]> (heap st)) st)).
Proof.
  intros [H1 H2 H3 H4 H5 H6] Hs Hc Hl Hck Hnm Hk Hun Hha Hsr.
  pose proof (view_lookup _ _ _ Hs) as Hv0.
  constructor; cbn [sessions conversations tasks heap services hooks sources next set_conversations set_heap].
  - rewrite (fmap_upd _ refs _ x) by done. eapply counted_ext; [|exact H1].
    intros y. by apply total_conversation_insert.
  - rewrite fmap_insert. set (v' := view_of (set_conversation (Some k) x)).
    destruct H2 as [L1 L2 L3 L4 L5 L6 L7 L8 L9 L10 L11].
    assert (HV : ∀ y w, <[s := v']> (view_of <$> heap st) !! y = Some w →
      y = s ∧ w = v' ∨ y ≠ s ∧ (view_of <$> heap st) !! y = Some w).
    { intros y w [[<- <-]|[Hn Hw]]%lookup_insert_Some; auto. }
    constructor.
    + intros c y Hy. destruct (L1 c y Hy) as [|(w & Hw & Hwc)]; [done|]. right.
      destruct (decide (y = s)) as [->|Hn]; [|exists w; by rewrite lookup_insert_ne].
      exists v'. rewrite lookup_insert_eq. split; [done|]. rewrite Hv0 in Hw. by injection Hw as <-.
    + intros y w c [[-> ->]|[_ Hw]]%HV; [by apply (L2 s (view_of x))|by eapply L2].
    + intros c y [[<- <-]|[Hn Hy]]%lookup_insert_Some; right.
      { exists v'. by rewrite lookup_insert_eq. }
      destruct (L3 c y Hy) as [|(w & Hw & Hwc)]; [done|]. exists w.
      rewrite lookup_insert_ne; [done|]. intros <-. rewrite Hv0 in Hw. injection Hw as <-. cbn in Hwc. congruence.
    + intros y w c [[-> ->]|[Hn Hw]]%HV Hwc.
      { cbn in Hwc. injection Hwc as <-. by rewrite lookup_insert_eq. }
      rewrite lookup_insert_ne; [by eapply L4|]. intros <-. pose proof (L4 y w k Hw Hwc). congruence.
    + intros y w c [[-> ->]|[_ Hw]]%HV; [by apply (L5 s (view_of x))|by eapply L5].
    + intros y w u [[-> ->]|[_ Hw]]%HV Hu; [cbn in Hu; congruence|by eapply L6].
    + intros u j y w Hu Hd [[-> ->]|[_ Hw]]%HV; [by destruct (Hun u j)|by eapply L7].
    + done.
    + done.
    + intros y w c [[-> ->]|[_ Hw]]%HV Hwc; [done|by eapply L10].
    + intros y w Hy [[-> ->]|[_ Hw]]%HV Hwi; [by destruct (Hha Hwi)|by eapply L11].
  - by rewrite (fmap_upd _ hooks_of _ x).
  - by rewrite (fmap_upd _ timeout_tag _ x).
  - intros tag sec y w Hsrc Hw Hwi. rewrite fmap_insert in Hw.
    apply lookup_insert_Some in Hw as [[<- <-]|[Hn Hw]]; [by destruct (Hsr tag sec)|by eapply H5].
  - by apply (fresh_upd _ _ _ _ _ x).
Qed.

(** *** Timeouts *)

Definition drop_tag (tag : option nat) (srcs : gmap nat (Z * source)) : gmap nat (Z * source) :=
  match tag with Some t => delete t srcs | None => srcs end.

Lemma drop_tag_lookup tag srcs t p : drop_tag tag srcs !! t = Some p → srcs !! t = Some p ∧ tag ≠ Some t.
Proof.
  destruct tag as [u|]; cbn; [|done]. intros [Hn Hp]%lookup_delete_Some. split; [done|congruence].
Qed.

Lemma remove_source_eq tag st : remove_source tag st = (Ok tt, set_sources (drop_tag tag (sources st)) st).
Proof. destruct tag; [done|]. by destruct st. Qed.

(** The state in which a new timeout of a session has replaced the old one. *)
Definition timer (s : nat) (x : CockpitSession) (sec : Z) (src : source) (st : state) : state :=
  set_heap (<[s := set_timeout_tag (Some (next st)) x]> (heap st))
    (set_next (S (next st))
      (set_sources (<[next st := (sec, src)]> (drop_tag (timeout_tag x) (sources st))) st)).

Lemma inv_timer e xc xd st s x sec src :
  inv e xc xd st → heap st !! s = Some x →
  src = AuthorizeTimeout s ∨ src = SessionTimeout s ∧ (initialized x = false → quiet (tasks st) (view_of x)) →
  inv e xc xd (timer s x sec src st).
Proof.
  clear hmac g_base64_encode process_idle.
  intros [H1 H2 H3 H4 H5 H6] Hs Hsrc. unfold timer.
  constructor; cbn [sessions conversations tasks heap services hooks sources next set_sources set_heap set_next].
  - by rewrite (fmap_upd _ refs _ x).
  - by rewrite (fmap_upd _ view_of _ x).
  - by rewrite (fmap_upd _ hooks_of _ x).
  - intros tag sec' src' Ht. rewrite fmap_insert.
    apply lookup_insert_Some in Ht as [[<- [= <- <-]]|[Hn Ht]].
    + split; [lia|]. destruct Hsrc as [->|[-> _]]; by rewrite lookup_insert_eq.
    + apply drop_tag_lookup in Ht as [Ht Hne]. destruct (H4 _ _ _ Ht) as [Hlt Hv]. split; [lia|].
      destruct src' as [y|y|]; [| |done].
      all: rewrite lookup_insert_ne; [done|]; intros ->;
        rewrite lookup_fmap, Hs in Hv; cbn in Hv; congruence.
  - intros tag sec' y v Ht Hv Hi. rewrite (fmap_upd _ view_of _ x) in Hv by done.
    apply lookup_insert_Some in Ht as [[<- [= <- ->]]|[Hn Ht]].
    + destruct Hsrc as [?|[[= ->] Hq]]; [done|]. rewrite (view_lookup _ _ _ Hs) in Hv.
      injection Hv as <-. by apply Hq.
    + apply drop_tag_lookup in Ht as [Ht _]. by eapply H5.
  - intros i Hi. destruct (H6 i ltac:(lia)) as (A & B & D). split_and!; [|done|done].
    rewrite lookup_insert_ne; [done|]. congruence.
Qed.

Lemma wp_reset_authorize_timeout s (b : bool) x st Q :
  heap st !! s = Some x →
  Q tt (timer s x (if b then client_timeout x else authorize_timeout x) (AuthorizeTimeout s) st) →
  wp (reset_authorize_timeout s b) Q st.
Proof.
  intros Hs HQ. apply wp_bind, (wp_get_session _ x); [done|].
  apply wp_bind. eapply wp_eq; [apply remove_source_eq|].
  apply wp_bind. eapply wp_eq; [reflexivity|]. cbn [next set_sources sources].
  by apply (wp_upd_session _ _ x).
Qed.

(** A step that concerns only the timeouts, those of session [s] among them. *)
Record only_timers (s : nat) (x : CockpitSession) (st st' : state) : Prop := {
  o_sessions : sessions st' = sessions st;
  o_conversations : conversations st' = conversations st;
  o_tasks : tasks st' = tasks st;
  o_services : services st' = services st;
  o_hooks : hooks st' = hooks st;
  o_seed : nonce_seed st' = nonce_seed st;
  o_heap : ∃ tag, heap st' = <[s := set_timeout_tag tag x]> (heap st)
}.

Lemma inv_process_timer e xc xd st tag sec :
  inv e xc xd st →
  inv e xc xd (set_auth_timeout_tag (Some (next st))
    (set_next (S (next st))
      (set_sources (<[next st := (sec, ProcessTimeout)]> (drop_tag tag (sources st))) st))).
Proof.
  clear hmac g_base64_encode process_idle.
  intros [H1 H2 H3 H4 H5 H6].
  constructor; cbn [sessions conversations tasks heap services hooks sources next set_sources set_next
    set_auth_timeout_tag]; try done.
  - intros tag' sec' src' Ht. apply lookup_insert_Some in Ht as [[<- [= <- <-]]|[Hn Ht]]; [split; [lia|done]|].
    apply drop_tag_lookup in Ht as [Ht _]. destruct (H4 _ _ _ Ht) as [Hlt Hv]. split; [lia|done].
  - intros tag' sec' y v Ht Hv Hi. apply lookup_insert_Some in Ht as [[_ [=]]|[Hn Ht]].
    apply drop_tag_lookup in Ht as [Ht _]. by eapply H5.
  - intros i Hi. apply H6. lia.
Qed.

Lemma wp_on_web_service_idling e xc xd s x st Q :
  inv e xc xd st → heap st !! s = Some x →
  (initialized x = false → quiet (tasks st) (view_of x)) →
  (∀ st', inv e xc xd st' → only_timers s x st st' → Q tt st') →
  wp (on_web_service_idling process_idle s) Q st.
Proof.
  clear hmac g_base64_encode.
  intros I Hs Hq HQ. apply wp_bind, (wp_get_session _ x); [done|].
  apply wp_bind. eapply wp_eq; [apply remove_source_eq|].
  apply wp_bind. eapply wp_eq; [reflexivity|]. cbn [next set_sources sources].
  apply wp_bind, (wp_upd_session _ _ x); [done|].
  apply wp_bind, wp_get, wp_bind. eapply wp_eq; [apply remove_source_eq|].
  apply wp_bind. eapply wp_eq; [reflexivity|]. apply wp_modify.
  apply HQ.
  - eapply inv_same.
    + apply (inv_process_timer e xc xd (timer s x cockpit_ws_service_idle (SessionTimeout s) st)
               (auth_timeout_tag st) process_idle).
      apply inv_timer; [done..|]. by right.
    + done. + done. + done. + done. + done. + done. + done. + done.
  - constructor; try done. cbn. by eexists.
Qed.

(** A session that is through gets its cookie. *)
Lemma wp_login_successful n e s x st conn hs Q :
  inv e None None st → heap st !! s = Some x →
  initialized x = true → session_name x ≠ LOCAL_SESSION → cookie x = None → login_task x = None →
  sessions st !! (bs "v=2;k=" ++ hmac (nonce_seed st)) = None →
  (∀ a st' x' k, inv e None None st' → heap st' !! s = Some x' → login_task x' = None →
     sessions st' !! k = Some s → Q a st') →
  wp (login_successful g hmac g_base64_encode process_idle (reset_fuel n) s conn hs) Q st.
Proof.
  intros I Hs Hi Hnm Hc Hl Hk HQ.
  apply wp_bind. eapply wp_on_web_service_idling; [done|done|by rewrite Hi|].
  intros st1 I1 [ES EC ET ED EH En [tag Eh]].
  set (x1 := set_timeout_tag tag x) in *.
  assert (Hs1 : heap st1 !! s = Some x1) by by rewrite Eh, lookup_insert_eq.
  apply wp_bind, (wp_get_session _ x1); [done|].
  apply wp_bind, wp_get, wp_bind. eapply wp_eq; [reflexivity|].
  set (k := bs "v=2;k=" ++ hmac (nonce_seed st1)).
  apply wp_bind, (wp_upd_session _ _ x1); [done|].
  apply wp_bind, (wp_upd_session _ _ (set_cookie (Some k) x1)); [cbn; by rewrite lookup_insert_eq|].
  apply wp_bind, wp_bind, wp_get. cbn [sessions set_heap set_nonce_seed heap].
  assert (Hk1 : sessions st1 !! k = None) by (subst k; by rewrite ES, En).
  rewrite Hk1. apply wp_bind, wp_modify, wp_ret, wp_ret.
  eapply (HQ _ _ (set_refs (refs x1 + 1) (set_cookie (Some k) x1)) k).
  2: { cbn. by rewrite lookup_insert_eq. }
  2: done.
  2: { cbn. by rewrite lookup_insert_eq. }
  eapply inv_same.
  - apply (inv_name_cookie e (set_heap (<[s := set_refs (refs x1 + 1) x1]> (heap st1)) st1) s
             (set_refs (refs x1 + 1) x1) k); try done.
    + by apply inv_ref.
    + cbn. by rewrite lookup_insert_eq.
    + right. by split_and!.
  - done.
  - done.
  - done.
  - cbn. by rewrite !insert_insert_eq.
  - done.
  - done.
  - done.
  - done.
Qed.

(** A step that touches nothing the invariant depends on. *)
Record inert (st st' : state) : Prop := {
  n_sessions : sessions st' = sessions st;
  n_conversations : conversations st' = conversations st;
  n_tasks : tasks st' = tasks st;
  n_heap : heap st' = heap st;
  n_services : services st' = services st;
  n_hooks : hooks st' = hooks st;
  n_sources : sources st' = sources st;
  n_next : next st' = next st
}.

Lemma inv_inert e xc xd st st' : inert st st' → inv e xc xd st → inv e xc xd st'.
Proof. intros [] I. by eapply inv_same. Qed.

(** The conversation that a challenge of a session process names. *)
Definition conversation_of (a : object) : option (list Z) :=
  match cockpit_json_get_string a (bs "challenge") None with
  | Some (Some challenge) =>
      if decide (type_of (Some challenge) = Some (bs "x-conversation")) then
        match cockpit_authorize_subject (Some challenge) with Ok (c, _) => Some c | _ => None end
      else None
  | _ => None
  end.

Lemma wp_build_authorize_challenge a conn hs st Q :
  Q None st →
  (∀ hs' body conv st', inert st st' →
     (nonce_seed st' = nonce_seed st ∨ nonce_seed st' = u64 (nonce_seed st + 1)) →
     (∀ c, conv = Some c → c = hmac (nonce_seed st) ∨ conversation_of a = Some c) →
     Q (Some (hs', body, conv)) st') →
  wp (build_authorize_challenge hmac a conn hs) Q st.
Proof.
  intros H0 H1. unfold build_authorize_challenge, conversation_of in *.
  destruct (cockpit_json_get_string a (bs "challenge") None) as [[challenge|]|]; [|by apply wp_ret..].
  destruct (type_of (Some challenge)) as [type|] eqn:Et; [|by apply wp_ret].
  apply wp_bind. destruct (decide (type = bs "negotiate")) as [->|Hn].
  - apply wp_bind, wp_modify, wp_bind. eapply wp_eq; [reflexivity|].
    destruct conn as [[c b]|].
    + apply wp_bind, wp_modify, wp_ret, wp_ret. apply H1; [done|by right|]. intros c' [= <-]. by left.
    + apply wp_bind, wp_ret, wp_ret, wp_ret. apply H1; [done|by right|]. intros c' [= <-]. by left.
  - destruct (decide (type = bs "x-conversation")) as [->|Hx].
    + apply wp_ret, wp_ret. apply H1; [done|by left|]. rewrite decide_True by done.
      intros c Hc. right. exact Hc.
    + apply wp_ret, wp_ret. apply H1; [done|by left|]. done.
Qed.

(** The session is ready for a new conversation: nobody waits for it, and its names are gone. *)
Record ready (s : nat) (x : CockpitSession) (st : state) : Prop := {
  r_heap : heap st !! s = Some x;
  r_cookie : cookie x = None;
  r_conv : conversation x = None;
  r_login : login_task x = None;
  r_name : session_name x ≠ LOCAL_SESSION;
  r_unheld : unheld s st;
  r_handed : initialized x = false → (handed_out <$> services st) !! s ≠ Some true
}.

Lemma wp_login_challenge n e s x st conn hs Q :
  inv e None None st → ready s x st → s ∈ e →
  conversations st !! hmac (nonce_seed st) = None →
  (∀ a c, authorize x = Some a → conversation_of a = Some c → conversations st !! c = None) →
  (∀ a st' x', inv e None None st' → heap st' !! s = Some x' → initialized x' = initialized x →
     session_name x' = session_name x → cookie x' = None → login_task x' = None →
     sessions st' = sessions st →
     (nonce_seed st' = nonce_seed st ∨ nonce_seed st' = u64 (nonce_seed st + 1)) → Q a st') →
  wp (login_challenge hmac (reset_fuel n) s conn hs) Q st.
Proof.
  intros I [Hs Hck Hcv Hl Hnm Hun Hha] He Hf1 Hf2 HQ. unfold login_challenge.
  apply wp_bind, (wp_get_session _ x); [done|].
  destruct (authorize x) as [a|] eqn:Ea; [|apply wp_ret, (HQ _ _ x); try done; by left].
  apply wp_bind, wp_build_authorize_challenge; [apply wp_ret, (HQ _ _ x); try done; by left|].
  intros hs' body conv st1 N Hsd Hc. pose proof (inv_inert _ _ _ _ _ N I) as I1.
  destruct N as [ES EC ET EH ED Eh Esr En].
  assert (Hs1 : heap st1 !! s = Some x) by by rewrite EH.
  apply wp_bind, (wp_upd_session _ _ x); [done|].
  destruct conv as [c|].
  2: { apply wp_bind, wp_ret, wp_ret.
       eapply (HQ _ _ (set_conversation None x)); try done; [|cbn; by rewrite lookup_insert_eq].
       apply (inv_upd_inert _ _ _ st1 s x); try done. unfold view_of. cbn. by rewrite Hcv. }
  set (x1 := set_conversation (Some c) x).
  apply wp_bind, wp_bind. apply (wp_reset_authorize_timeout s true x1); [cbn; by rewrite lookup_insert_eq|].
  apply wp_bind, (wp_upd_session _ _ (set_timeout_tag (Some (next st1)) x1)); [cbn; by rewrite lookup_insert_eq|].
  apply wp_bind, wp_get. cbn [conversations set_heap timer set_next set_sources].
  assert (HC : conversations st1 !! c = None).
  { rewrite EC. destruct (Hc c eq_refl) as [->|Hc']; [done|by eapply Hf2]. }
  rewrite HC. apply wp_bind, wp_modify, wp_ret, wp_ret.
  set (x2 := set_refs (refs x + 1) (set_timeout_tag (Some (next st1)) x)).
  set (st2 := timer s x (client_timeout x) (AuthorizeTimeout s) st1).
  assert (I2 : inv e None None st2) by (apply inv_timer; [done|done|by left]).
  assert (Hs2 : heap st2 !! s = Some (set_timeout_tag (Some (next st1)) x)) by (cbn; by rewrite lookup_insert_eq).
  eapply (HQ _ _ (set_conversation (Some c) x2)); try done.
  - eapply inv_same.
    + apply (inv_name_conversation e (set_heap (<[s := x2]> (heap st2)) st2) s x2 c); try done.
      * by apply (inv_ref e None None st2 s (set_timeout_tag (Some (next st1)) x)).
      * cbn. by rewrite lookup_insert_eq.
      * change (cookie x2) with (cookie x). by rewrite Hck.
      * intros t k. cbn. rewrite ET. apply Hun.
      * cbn. rewrite ED. apply Hha.
      * intros tag sec Ht. assert (Ht2 : sources st2 !! tag = Some (sec, SessionTimeout s)) by done.
        pose proof Ht2 as Ht3. apply (i_timed _ _ _ _ I2) in Ht2 as [_ Ht2].
        rewrite lookup_fmap, Hs2 in Ht2. cbn in Ht2. injection Ht2 as <-.
        cbn in Ht3. by rewrite lookup_insert_eq in Ht3.
    + done.
    + done.
    + done.
    + cbn. by rewrite !insert_insert_eq.
    + done.
    + done.
    + done.
    + done.
  - cbn. by rewrite lookup_insert_eq.
Qed.

(** *** Resetting a session that nobody waits for *)

Lemma wp_reset_unwaited n e st s x Q :
  inv e None None st → heap st !! s = Some x → login_task x = None →
  (∀ st', inv e None None st' → lets_go s st st' → nameless s st' → Q tt st') →
  wp (reset_fuel (S (S n)) s) Q st.
Proof.
  intros I Hs Hl HQ. change (reset_fuel (S (S n)) s) with
    (session_reset_body g hmac g_base64_encode process_idle now (reset_fuel (S n)) s).
  unfold session_reset_body. apply wp_bind, (wp_get_session _ x); [done|]. rewrite Hl.
  apply wp_bind, wp_ret. by eapply wp_release.
Qed.

(** *** Finishing a login *)

Definition cookie_key (seed : Z) : list Z := bs "v=2;k=" ++ hmac seed.

(** The names that finishing a login of this session may make are not in use. *)
Record fresh_names (st : state) (s : nat) : Prop := {
  w_cookie : sessions st !! cookie_key (nonce_seed st) = None;
  w_cookie' : sessions st !! cookie_key (u64 (nonce_seed st + 1)) = None;
  w_conv : conversations st !! hmac (nonce_seed st) = None;
  w_own x a c s' : heap st !! s = Some x → authorize x = Some a → conversation_of a = Some c →
    conversations st !! c = Some s' → s' = s
}.

Lemma alive_end_startup e st : inv e None None st →
  inv e None None (set_startups (u32 (startups st - 1)) st).
Proof. intros I. by eapply inv_same. Qed.

Lemma wp_login_finish n e s x k st r Q :
  inv e None None st → s ∈ e → heap st !! s = Some x →
  login_task x = None → conversation x = None → session_name x ≠ LOCAL_SESSION →
  unheld s st → (initialized x = false → (handed_out <$> services st) !! s ≠ Some true) →
  fresh_names st s →
  task_data k = Some s → task_result k = Some r →
  (∀ a st' x', inv e None None st' → heap st' !! s = Some x' → login_task x' = None →
     (r = None → initialized x = true → ∃ c, sessions st' !! c = Some s) →
     (r ≠ None → conversation x' = None) → Q a st') →
  wp (cockpit_auth_login_finish g hmac g_base64_encode process_idle (reset_fuel (S (S n))) k) Q st.
Proof.
  intros I He Hs Hl Hcv Hnm Hun Hha [Hf1 Hf2 Hf3 Hf4] Hd Hr HQ.
  unfold cockpit_auth_login_finish. rewrite Hr, Hd. destruct r as [err|].
  - apply wp_bind, wp_bind, (wp_get_session _ x); [done|].
    apply wp_bind, (wp_upd_session _ _ x); [done|]. apply wp_ret, wp_bind, wp_modify, wp_ret.
    eapply (HQ _ _ (set_init_failure None x)); [|cbn; by rewrite lookup_insert_eq|done|done|done].
    apply alive_end_startup. by apply (inv_upd_inert _ _ _ st s x).
  - apply wp_bind, (wp_get_session _ x); [done|]. rewrite Hl. apply wp_bind.
    eapply (wp_reset_unwaited n e st s x); [done..|]. intros st1 I1 G N.
    destruct (alive_extra I1 s He) as [x1 Hs1]. destruct (N x1 Hs1) as (A1 & A2 & A3).
    destruct (f_self _ _ _ G x1 Hs1) as (x0 & Hx0 & B1 & B2 & B3 & _).
    assert (x0 = x) as -> by congruence.
    assert (HT : tasks st1 = tasks st) by apply G. assert (Hsd : nonce_seed st1 = nonce_seed st) by apply G.
    assert (Hsub : ∀ c, sessions st !! c = None → sessions st1 !! c = None).
    { intros c Hc. destruct (sessions st1 !! c) as [v|] eqn:E; [|done].
      apply (f_sessions _ _ _ G) in E. congruence. }
    apply wp_bind. eapply (wp_login_challenge _ e s x1); [done| |done| | |].
    + constructor; try done; [by rewrite B2| |].
      * intros t j. rewrite HT. apply Hun.
      * rewrite B1, (f_handed _ _ _ G). exact Hha.
    + rewrite Hsd. destruct (conversations st1 !! _) as [v|] eqn:E; [|done].
      apply (f_conversations _ _ _ G) in E. congruence.
    + intros a c Ha Hc. destruct (conversations st1 !! c) as [v|] eqn:E; [|done].
      pose proof E as E'. apply (f_conversations _ _ _ G) in E'.
      assert (v = s) as -> by (eapply Hf4; [exact Hs|by rewrite <- B3|done|done]).
      destruct (l_conv _ _ _ _ _ _ _ (i_linked _ _ _ _ I1) c s E) as [|(w & Hw & Hwc)]; [done|].
      rewrite (view_lookup _ _ _ Hs1) in Hw. injection Hw as <-. cbn in Hwc. congruence.
    + intros [hs body] st2 x2 I2 Hs2 C1 C2 C3 C4 ES C5.
      apply wp_bind, (wp_get_session _ x2); [done|]. apply wp_bind.
      destruct (initialized x2) eqn:Ei.
      * apply wp_bind. eapply (wp_login_successful _ e s x2); [done|done|done|congruence|done|done| |].
        { rewrite ES. apply Hsub. fold (cookie_key (nonce_seed st2)).
          destruct C5 as [-> | ->]; by rewrite Hsd. }
        intros [hs' body'] st3 x3 c I3 Hs3 Hl3 Hc3. apply wp_ret, wp_bind, wp_modify, wp_ret.
        eapply (HQ _ _ x3); [by apply alive_end_startup|done|done| |done]. intros _ _. by exists c.
      * apply wp_ret, wp_bind, wp_modify, wp_ret.
        eapply (HQ _ _ x2); [by apply alive_end_startup|done|done| |done]. intros _ Hi. congruence.
Qed.

(** The callback of a task, which may end its session. *)
Lemma wp_task_callback n e st t k r Q :
  inv e None None st → tasks st !! t = Some k → task_result k = Some r →
  (∀ s, task_data k = Some s → fresh_names st s) →
  (∀ st', inv e None None st' →
     (∀ s x, task_data k = Some s → heap st !! s = Some x →
        (∀ y, heap st' !! s = Some y → login_task y = None ∧ (r ≠ None → conversation y = None)) ∧
        (r = None → initialized x = true → is_Some (heap st' !! s))) →
     (task_data k = None → heap st' = heap st ∧ tasks st' = delete t (tasks st)) → Q tt st') →
  wp (task_callback g hmac g_base64_encode process_idle (reset_fuel (S (S n))) t) Q st.
Proof.
  intros I Ht Hr Hfr HQ. apply wp_bind, wp_get. rewrite Ht. apply wp_bind, wp_modify.
  pose proof (i_linked _ _ _ _ I) as L.
  pose proof (inv_callback e st t k r I Ht Hr) as I1. unfold held in I1. apply wp_bind.
  destruct (task_data k) as [s|] eqn:Hd.
  - destruct (alive_task I t k s Ht Hd) as [x Hs].
    destruct (l_data _ _ _ _ _ _ _ L t k s _ Ht Hd (view_lookup _ _ _ Hs)) as (A & _ & B & C).
    rewrite Hr in C. destruct C as [C D]. rewrite A. apply wp_bind.
    destruct (Hfr s eq_refl) as [F1 F2 F3 F4].
    eapply (wp_login_finish n (s :: e) s x k); [done|constructor|done|done|done|done| | |done|done|done|].
    + intros u j Hu Hdj. cbn in Hu. apply lookup_delete_Some in Hu as [Hn Hu]. apply Hn.
      by eapply (l_unique _ _ _ _ _ _ _ L t u k j s).
    + intros Hi Hh. destruct (l_handed _ _ _ _ _ _ _ L s _ Hh (view_lookup _ _ _ Hs) Hi) as [_ Hno].
      by eapply Hno.
    + intros a st2 x2 I2 Hs2 Hl2 Hc2 Hv2.
      assert (Hun : ∀ st3, inert st2 st3 →
        wp (cockpit_session_unref (reset_fuel (S (S n))) s) Q st3).
      { intros st3 N. pose proof (inv_inert _ _ _ _ _ N I2) as I3.
        apply (wp_unref (S n) e None None); [done|]. intros st4 I4 G4 ES4 _ Hy. apply HQ; [done| |done].
        intros s' x' [= <-] Hx'. split.
        - intros y Hy4. destruct (Hy y Hy4) as (z & Hz & ->). rewrite (n_heap _ _ N) in Hz. cbn.
          assert (z = x2) as -> by congruence. done.
        - intros Hrn Hi. assert (x' = x) as -> by congruence. destruct (Hc2 Hrn Hi) as [c Hc].
          apply (alive_session I4 c). rewrite ES4, (n_sessions _ _ N). exact Hc. }
      destruct a as [a|]; [apply wp_modify|apply wp_ret]; by apply Hun.
  - destruct (task_login k) eqn:El; [|by apply wp_ret, wp_ret, HQ].
    pose proof (l_nodata _ _ _ _ _ _ _ L t k Ht Hd El) as Hnd. rewrite Hr in Hnd.
    destruct r as [err|]; [|done]. unfold cockpit_auth_login_finish. rewrite Hr, Hd.
    apply wp_bind, wp_bind, wp_ret, wp_bind, wp_modify, wp_ret, wp_modify, wp_ret, HQ; [|done|done].
    by eapply inv_same.
Qed.

(** Nobody waits for the session after its task has its result; whether the session is still
    there is known if nobody is called back yet or if the session stays for its cookie. *)
Lemma wp_return n e st s x t r Q :
  inv e None None st → heap st !! s = Some x → login_task x = Some t → fresh_names st s →
  (∀ st', inv e None None st' →
     (∀ y, heap st' !! s = Some y → login_task y = None ∧ (r ≠ None → conversation y = None)) →
     (now = false ∨ (∀ k, tasks st !! t = Some k → task_login k = false) ∨
      r = None ∧ initialized x = true → is_Some (heap st' !! s)) → Q tt st') →
  wp (_ ← upd_session s (set_login_task None);
      task_return g hmac g_base64_encode process_idle now (reset_fuel (S (S n))) t r) Q st.
Proof.
  intros I Hs Hl Hfr HQ. apply wp_bind, (wp_upd_session _ _ x); [done|].
  apply wp_bind, wp_modify. cbn [tasks set_heap].
  pose proof (inv_return e st s x t r I Hs Hl) as I1.
  destruct (l_login _ _ _ _ _ _ _ (i_linked _ _ _ _ I) s _ t (view_lookup _ _ _ Hs) Hl) as (k & Ht & Hk & Hkd).
  assert (Hcv : conversation x = None).
  { destruct (conversation x) as [c|] eqn:Ec; [|done].
    destruct (l_conv_login _ _ _ _ _ _ _ (i_linked _ _ _ _ I) s _ c (view_lookup _ _ _ Hs) Ec) as [Hno _].
    cbn in Hno. congruence. }
  set (st1 := set_tasks (alter (with_result r) t (tasks st)) (set_heap (<[s := set_login_task None x]> (heap st)) st)) in *.
  assert (Hs1 : heap st1 !! s = Some (set_login_task None x)) by (cbn; by rewrite lookup_insert_eq).
  apply wp_when; intros Hnow.
  - eapply (wp_task_callback n e st1 t (with_result r k) r); [done| |done| |].
    + cbn. by rewrite lookup_alter_eq, Ht.
    + intros y Hy. cbn in Hy. destruct (task_login k); [|destruct Hkd; congruence].
      assert (y = s) as -> by congruence. destruct Hfr as [F1 F2 F3 F4]. constructor; try done.
      intros z a c s' Hz Ha. rewrite Hs1 in Hz. injection Hz as <-. by eapply F4.
    + intros st2 I2 Hd2 Hn2. destruct (task_data k) as [y|] eqn:Ed.
      * destruct (task_login k) eqn:El; [|by destruct Hkd]. assert (y = s) as -> by congruence.
        destruct (Hd2 s _ Ed Hs1) as [A B]. apply HQ; [done|done|].
        intros [?|[Hc|[-> Hi]]]; [congruence|by specialize (Hc k Ht); congruence|by apply B].
      * destruct (Hn2 Ed) as [Hh _]. apply HQ; [done| |].
        -- intros y Hy. rewrite Hh, Hs1 in Hy. injection Hy as <-. by split.
        -- intros _. rewrite Hh, Hs1. by eexists.
  - apply HQ; [done| |].
    + intros y Hy. rewrite Hs1 in Hy. injection Hy as <-. by split.
    + intros _. rewrite Hs1. by eexists.
Qed.

(** Who waits for a session must not be the last to hold it when it is reset. *)
Definition resettable (st : state) (x : CockpitSession) : Prop :=
  ∀ t k, login_task x = Some t → tasks st !! t = Some k → task_login k = true → initialized x = true.

Lemma wp_reset n e st s x Q :
  inv e None None st → heap st !! s = Some x → resettable st x →
  (login_task x ≠ None → fresh_names st s) →
  (∀ st', inv e None None st' → nameless s st' → Q tt st') →
  wp (reset_fuel (S (S (S n))) s) Q st.
Proof.
  intros I Hs Hres Hfr HQ. change (reset_fuel (S (S (S n))) s) with
    (session_reset_body g hmac g_base64_encode process_idle now (reset_fuel (S (S n))) s).
  unfold session_reset_body. apply wp_bind, (wp_get_session _ x); [done|]. apply wp_bind.
  destruct (login_task x) as [t|] eqn:El.
  - eapply (wp_return n e st s x t None); [done|done|done|by apply Hfr|]. intros st1 I1 Hl1 Hal.
    destruct Hal as [x1 Hs1].
    { right. destruct (l_login _ _ _ _ _ _ _ (i_linked _ _ _ _ I) s _ t (view_lookup _ _ _ Hs) El) as (k & Ht & _ & _).
      destruct (task_login k) eqn:Elo; [right; split; [done|by eapply Hres]|left].
      intros k' Hk'. congruence. }
    eapply (wp_release (S n) e st1 s x1); [done|done|by apply Hl1|]. intros st2 I2 _ N2. by apply HQ.
  - apply wp_ret. eapply (wp_release (S n) e st s x); [done..|]. intros st2 I2 _ N2. by apply HQ.
Qed.

(** *** Signals *)

(** A session that may go idle: it is initialized, or nobody waits for it. *)
Definition may_idle (st : state) (x : CockpitSession) : Prop :=
  initialized x = false → quiet (tasks st) (view_of x).

Lemma may_idle_resettable st x : may_idle st x → resettable st x.
Proof.
  intros Hq t k Hl Ht Hlo. destruct (initialized x) eqn:E; [done|].
  destruct (Hq E) as [_ Hn]. by specialize (Hn t k Hl Ht); congruence.
Qed.

Definition reset_ok (s : nat) (st : state) : Prop :=
  ∀ x, heap st !! s = Some x → resettable st x ∧ (login_task x ≠ None → fresh_names st s).

Definition idle_ok (s : nat) (st : state) : Prop :=
  ∀ x, heap st !! s = Some x → may_idle st x ∧ (login_task x ≠ None → fresh_names st s).

Lemma idle_reset_ok s st : idle_ok s st → reset_ok s st.
Proof. intros Hok x Hs. destruct (Hok x Hs). split; [by apply may_idle_resettable|done]. Qed.

Lemma idle_ok_nameless s st : nameless s st → idle_ok s st.
Proof.
  intros N x Hs. destruct (N x Hs) as (_ & A & B). split; [|done]. intros _. split; [done|].
  intros t k Hl. cbn in Hl. congruence.
Qed.

Lemma fresh_only_timers s x st st' :
  heap st !! s = Some x → only_timers s x st st' → fresh_names st s → fresh_names st' s.
Proof.
  intros Hs [ES EC ET ED EH En [tag Eh]] [F1 F2 F3 F4].
  constructor; rewrite ?ES, ?EC, ?En; try done.
  intros y a c s' Hy Ha. rewrite Eh, lookup_insert_eq in Hy. injection Hy as <-. by eapply F4.
Qed.

Notation session_reset := (cockpit_session_reset g hmac g_base64_encode process_idle now).

Lemma wp_session_reset e st s Q :
  inv e None None st → is_Some (heap st !! s) → reset_ok s st →
  (∀ st', inv e None None st' → nameless s st' → Q tt st') →
  wp (session_reset s) Q st.
Proof.
  intros I [x Hs] Hok HQ. destruct (Hok x Hs) as [Hm Hf].
  eapply (wp_reset 2); done.
Qed.

Lemma wp_on_web_service_destroy e st s Q :
  inv e None None st → is_Some (heap st !! s) → idle_ok s st →
  (∀ st', inv e None None st' → nameless s st' → Q tt st') →
  wp (on_web_service_destroy g hmac g_base64_encode process_idle now s) Q st.
Proof.
  intros I [x Hs] Hok HQ. destruct (Hok x Hs) as [Hm Hf].
  apply wp_bind. eapply wp_on_web_service_idling; [done..|]. intros st1 I1 O.
  pose proof O as [_ _ ET _ _ _ [tag Eh]].
  eapply wp_session_reset; [done|by rewrite Eh, lookup_insert_eq| |done].
  apply idle_reset_ok. intros y Hy. rewrite Eh, lookup_insert_eq in Hy. injection Hy as <-. split.
  - intros Hi. specialize (Hm Hi). unfold quiet in *. by rewrite ET.
  - intros Hl. eapply fresh_only_timers; [done|done|]. by apply Hf.
Qed.

Definition service_hook (h : hook) : bool :=
  match h with Idling | Destroy | Gone => true | _ => false end.

Lemma inv_disconnect e xc xd st s hs :
  inv e xc xd st → Forall (λ h, service_hook h = true) hs →
  inv e xc xd (set_hooks (hooks st ∖ list_to_set (pair s <$> hs)) st).
Proof.
  intros [H1 H2 [H3 H3'] H4 H5 H6] Hh. constructor; try done. constructor; cbn.
  - intros y h [Hin _]%elem_of_difference. by apply H3.
  - intros y v Hv Hi. apply elem_of_difference. split; [by eapply H3'|].
    intros (h & [= _ <-] & Hin)%elem_of_list_to_set%list_elem_of_fmap.
    rewrite Forall_forall in Hh. by specialize (Hh _ Hin).
Qed.

Lemma inv_service_gone e xc xd st s x :
  inv e xc xd st → heap st !! s = Some x → (∀ h, service_hook h = true → (s, h) ∉ hooks st) →
  inv e xc xd (set_heap (<[s := set_service false x]> (heap st)) st).
Proof.
  intros [H1 H2 [H3 H3'] H4 H5 H6] Hs Hno. constructor; cbn.
  - by rewrite (fmap_upd _ refs _ x).
  - by rewrite (fmap_upd _ view_of _ x).
  - rewrite fmap_insert. constructor; cbn.
    + intros y h Hin. destruct (H3 y h Hin) as (v & Hv & Hvh).
      destruct (decide (y = s)) as [->|Hn]; [|exists v; by rewrite lookup_insert_ne].
      rewrite lookup_fmap, Hs in Hv. injection Hv as <-.
      exists (hooks_of (set_service false x)). rewrite lookup_insert_eq. split; [done|].
      destruct h; try done; by destruct (fun H => Hno _ H Hin).
    + intros y v [[<- <-]|[_ Hv]]%lookup_insert_Some Hi; [|by eapply H3'].
      by apply (H3' s (hooks_of x)); [rewrite lookup_fmap, Hs|].
  - by rewrite (fmap_upd _ timeout_tag _ x).
  - by rewrite (fmap_upd _ view_of _ x).
  - by apply (fresh_upd _ _ _ _ _ x).
Qed.

Lemma wp_on_web_service_gone e st s Q :
  inv e None None st → is_Some (heap st !! s) → idle_ok s st →
  (∀ h, service_hook h = true → (s, h) ∉ hooks st) →
  (∀ st', inv e None None st' → Q tt st') →
  wp (on_web_service_gone g hmac g_base64_encode process_idle now s) Q st.
Proof.
  intros I [x Hs] Hok Hno HQ. destruct (Hok x Hs) as [Hm Hf].
  apply wp_bind, (wp_upd_session _ _ x); [done|].
  eapply wp_session_reset; [by apply inv_service_gone|cbn; by rewrite lookup_insert_eq| |by intros st' I' _; apply HQ].
  apply idle_reset_ok. intros y Hy. cbn in Hy. rewrite lookup_insert_eq in Hy. injection Hy as <-. split; [exact Hm|].
  intros Hl. destruct (Hf Hl) as [F1 F2 F3 F4]. constructor; try done.
  intros z a c s' Hz Ha Hc Hk. cbn in Hz. rewrite lookup_insert_eq in Hz. injection Hz as <-.
  by eapply (F4 x).
Qed.

Lemma wp_hooked s h Q st : Q (bool_decide ((s, h) ∈ hooks st)) st → wp (hooked s h) Q st.
Proof. done. Qed.

Lemma wp_dispose e st s Q :
  inv e None None st → idle_ok s st →
  (∀ st', inv e None None st' → Q tt st') →
  wp (cockpit_web_service_dispose g hmac g_base64_encode process_idle now s) Q st.
Proof.
  intros I Hok HQ. apply wp_bind, wp_get. destruct (services st !! s) as [w|] eqn:Ew; [|by apply wp_ret, HQ].
  apply wp_bind, wp_modify.
  match goal with |- wp _ _ ?x => set (st1 := x) end.
  assert (I1 : inv e None None st1).
  { pose proof (inv_upd_service e None None st s
      (λ w, mkService (creds w) (service_id w) true false (handed_out w)) (λ _, eq_refl) I) as I1.
    by eapply (inv_same _ _ _ _ _ I1). }
  assert (Hok1 : idle_ok s st1).
  { intros x Hx. destruct (Hok x Hx) as [A B]. split; [exact A|]. intros Hl. by destruct (B Hl). }
  clearbody st1. apply wp_bind, wp_hooked, wp_bind.
  assert (Hrest : ∀ st2, inv e None None st2 → idle_ok s st2 →
    wp (_ ← disconnect s [Idling; Destroy]; h ← hooked s Gone; _ ← disconnect s [Gone];
        when h (on_web_service_gone g hmac g_base64_encode process_idle now s)) Q st2).
  { intros st2 I2 Hok2. apply wp_bind, wp_modify, wp_bind, wp_hooked, wp_bind, wp_modify.
    assert (I3 := inv_disconnect e None None st2 s [Idling; Destroy] I2 ltac:(by repeat constructor)).
    assert (I4 := inv_disconnect e None None _ s [Gone] I3 ltac:(by repeat constructor)).
    apply wp_when; intros Hb; [|by apply HQ].
    apply bool_decide_eq_true in Hb. cbn in Hb.
    eapply wp_on_web_service_gone; [exact I4| | | |exact HQ].
    - apply elem_of_difference in Hb as [Hb _]. by apply (alive_hook I2) in Hb.
    - intros x Hx. destruct (Hok2 x Hx) as [A B]. split; [exact A|]. intros Hl. by destruct (B Hl).
    - intros h Hh Hin. apply elem_of_difference in Hin as [Hin Hg].
      apply elem_of_difference in Hin as [_ Hi].
      destruct h; try done; [apply Hi|apply Hi|apply Hg];
        apply elem_of_list_to_set, list_elem_of_fmap; eexists; (split; [done|by_decide]). }
  apply wp_when; intros Hb.
  - apply andb_prop in Hb as [_ Hb]. apply bool_decide_eq_true in Hb.
    eapply wp_on_web_service_destroy; [done|by eapply alive_hook|done|].
    intros st2 I2 N2. apply Hrest; [done|]. by apply idle_ok_nameless.
  - by apply Hrest.
Qed.
End Ops.
