(* ===== verification/AuthEvents.v ===== *)
(** * Every event keeps the sessions safe

    The events of the process, one by one, on top of the operations of [AuthSafety]; then
    what holds in every state that a run of events can reach.  What a run assumes is in
    [possible]: events happen only where something is connected to them, a session process sends
    no command but those that are expected where closing a transport is noticed at once, and nonces
    and names of conversations are not used twice. *)

From S2P Require Import Prelude Json Conf Http WebServer Creds Authorize Auth AuthSafety.
#[local] Open Scope Z_scope.

Section Events.
Context `{Config} (g : settings).
Context (hmac : Z → list Z) (g_base64_encode g_base64_decode : list Z → list Z).
Context (g_path_get_basename : list Z → list Z).
Context (g_shell_parse_argv : list Z → option (list (list Z))).
Context (g_uri_unescape_segment : list Z → option (list Z)) (malloc : nat → list Z).
Context (process_idle : Z) (no_debug : bool) (now closes_now : bool).

Notation fresh_names := (fresh_names hmac).
Notation reset_ok := (reset_ok hmac).
Notation return_task := (return_task g hmac g_base64_encode process_idle now).

(** ** Transports *)

Lemma fresh_names_inert st st' s : inert st st' → nonce_seed st' = nonce_seed st →
  fresh_names st s → fresh_names st' s.
Proof.
  intros [ES EC ET EH ED Eh Esr En] Hn [F1 F2 F3 F4]. constructor; rewrite ?ES, ?EC, ?Hn; try done.
  rewrite EH. apply F4.
Qed.

Lemma wp_on_transport_closed captured s problem x st Q :
  inv [] None None st → heap st !! s = Some x → fresh_names st s →
  (∀ st', inv [] None None st' →
    (∀ y, heap st' !! s = Some y → login_task y = None ∧ conversation y = None) → Q tt st') →
  wp (on_transport_closed g hmac g_base64_encode process_idle now captured s problem) Q st.
Proof.
  intros I Hs Hf HQ. unfold on_transport_closed. apply wp_bind, (wp_get_session _ x); [done|].
  cbv zeta. destruct (login_task x) as [t|] eqn:El.
  - eapply (wp_return g hmac g_base64_encode process_idle now 3); [done..|].
    intros st' I' Hy _. apply HQ; [done|]. intros y Hsy. destruct (Hy y Hsy) as [A B]. split; [done|]. by apply B.
  - eapply wp_session_reset; [done|by rewrite Hs| |].
    + intros y Hy. assert (y = x) as -> by congruence. split; [|congruence]. intros t k. congruence.
    + intros st' I' N. apply HQ; [done|]. intros y Hy. by destruct (N y Hy) as (_ & ? & ?).
Qed.

Lemma wp_emit_closed captured s problem st Q :
  inv [] None None st → (∀ x, heap st !! s = Some x → fresh_names st s) →
  (∀ st', inv [] None None st' → Q tt st') →
  wp (emit_closed g hmac g_base64_encode process_idle now captured s problem) Q st.
Proof.
  intros I Hf HQ. apply wp_bind, wp_hooked, wp_bind.
  assert (Hrest : ∀ st', inv [] None None st' → idle_ok hmac s st' →
    wp (w ← get (λ st, services st !! s);
        when (match w with Some w => transport_hooked w | None => false end)
          (cockpit_web_service_dispose g hmac g_base64_encode process_idle now s)) Q st').
  { intros st' I' Hok. apply wp_bind, wp_get, wp_when; intros _; [|by apply HQ].
    by eapply wp_dispose. }
  apply wp_when; intros Hb.
  - apply bool_decide_eq_true in Hb. destruct (alive_hook I s _ Hb) as [x Hs].
    eapply (wp_on_transport_closed captured s problem x); [done|done|by eapply Hf|].
    intros st' I' Hy. apply Hrest; [done|]. intros y Hsy. destruct (Hy y Hsy) as [A B].
    split; [|done]. intros _. split; [done|]. intros t k. cbn. congruence.
  - apply Hrest; [done|]. intros x Hs. split; [|intros _; by eapply Hf].
    intros Hi. apply bool_decide_eq_false in Hb. destruct Hb.
    eapply (c_uninit _ _ (i_connected _ _ _ _ I)); [by rewrite lookup_fmap, Hs|done].
Qed.

(** ** Control messages *)

(** A step that changes, of the sessions, only what the invariant does not depend on. *)
Record soft (s : nat) (x x' : CockpitSession) (st st' : state) : Prop := {
  s_sessions : sessions st' = sessions st;
  s_conversations : conversations st' = conversations st;
  s_tasks : tasks st' = tasks st;
  s_hooks : hooks st' = hooks st;
  s_sources : sources st' = sources st;
  s_next : next st' = next st;
  s_seed : nonce_seed st' = nonce_seed st;
  s_services : ∃ f, (∀ w, handed_out (f w) = handed_out w) ∧ services st' = alter f s (services st);
  s_heap : heap st' = <[s := x']> (heap st);
  s_refs : refs x' = refs x;
  s_view : view_of x' = view_of x;
  s_hooks_of : hooks_of x' = hooks_of x;
  s_tag : timeout_tag x' = timeout_tag x;
  s_timeouts : authorize x' = authorize x
}.

Lemma inv_soft e xc xd s x x' st st' :
  heap st !! s = Some x → soft s x x' st st' → inv e xc xd st → inv e xc xd st'.
Proof.
  intros Hs [ES EC ET EH Esr En Esd (f & Hf & Esv) Eh E1 E2 E3 E4 _] I.
  eapply inv_same.
  - apply (inv_upd_service e xc xd (set_heap (<[s := x']> (heap st)) st) s f Hf).
    by apply (inv_upd_inert e xc xd st s x x').
  - done. - done. - done. - done. - done. - done. - done. - done.
Qed.

Lemma services_id (D : gmap nat CockpitWebService) s : D = alter id s D.
Proof.
  apply map_eq. intros i. destruct (decide (i = s)) as [->|Hi].
  - rewrite lookup_alter_eq. by destruct (D !! s).
  - by rewrite lookup_alter_ne.
Qed.

Lemma soft_refl s x st : heap st !! s = Some x → soft s x x st st.
Proof. intros Hs. constructor; try done; [exists id; split; [done|apply services_id]|by rewrite insert_id]. Qed.

Lemma soft_upd s x x' st st1 :
  inert st st1 → nonce_seed st1 = nonce_seed st → heap st !! s = Some x → refs x' = refs x → view_of x' = view_of x → hooks_of x' = hooks_of x →
  timeout_tag x' = timeout_tag x → authorize x' = authorize x →
  soft s x x' st (set_heap (<[s := x']> (heap st)) st1).
Proof. intros []. constructor; try done. exists id. split; [done|]. cbn. rewrite n_services. apply services_id. Qed.

Lemma wp_reply_authorize_challenge s x st Q :
  heap st !! s = Some x →
  (∀ b st' x', soft s x x' st st' → Q b st') →
  wp (reply_authorize_challenge s) Q st.
Proof.
  intros Hs HQ. assert (Hno : ∀ b, wp (mret b) Q st) by (intros b; apply wp_ret, (HQ _ _ x), soft_refl, Hs).
  apply wp_bind, (wp_get_session _ x); [done|].
  destruct (authorize x) as [a|]; [|apply Hno].
  destruct (cockpit_json_get_string a (bs "cookie") None) as [ck|]; [|apply Hno].
  destruct (cockpit_json_get_string a (bs "challenge") None) as [ch|]; [|apply Hno].
  destruct (cockpit_json_get_string a (bs "response") None) as [rs|]; [|apply Hno].
  assert (Hchal : ∀ c challenge,
    wp (match type_of (Some challenge) with
        | None => mret false
        | Some authorize_type =>
            if decide (authorize_type = bs "x-login-data") then
              _ ← match cockpit_json_get_object a (bs "login-data") None with
                  | Some (Some d) =>
                      when (service x)
                        (upd_service s (λ w, set_creds (cockpit_creds_set_login_data (creds w) (Some d)) w))
                  | _ => mret tt
                  end;
              mret true
            else
              match authorization x with
              | None => mret false
              | Some authorization_ =>
                  match type_of (Some authorization_) with
                  | None => mret false
                  | Some authorization_type =>
                      if decide (authorize_type = bs "*" ∨ authorize_type = authorization_type) then
                        _ ← send_authorize_reply s (Some c) (Some authorization_);
                        _ ← upd_session s (set_authorization None);
                        mret true
                      else mret false
                  end
              end
        end) Q st).
  { intros c challenge. destruct (type_of (Some challenge)) as [ty|]; [|apply Hno].
    destruct (decide (ty = bs "x-login-data")).
    - apply wp_bind. destruct (cockpit_json_get_object a (bs "login-data") None) as [[d|]|];
        [|apply wp_ret, Hno..].
      destruct (service x); [|apply wp_ret, Hno]. apply wp_modify, wp_ret, (HQ _ _ x).
      constructor; try done; [eexists; split; [|reflexivity]; done|cbn; by rewrite insert_id].
    - destruct (authorization x) as [au|]; [|apply Hno].
      destruct (type_of (Some au)) as [aty|]; [|apply Hno].
      destruct (decide _); [|apply Hno].
      apply wp_bind, wp_modify, wp_bind, (wp_upd_session _ _ x); [done|]. apply wp_ret.
      apply (HQ _ _ (set_authorization None x)). apply (soft_upd s x (set_authorization None x) st); [by constructor|done..]. }
  destruct rs as [rs|], ck as [ck|], ch as [ch|]; try apply Hno; try apply Hchal.
  all: apply wp_bind, (wp_upd_session _ _ x); [done|]; apply wp_ret.
  all: apply (HQ _ _ (set_authorization (Some rs) x)); apply (soft_upd s x (set_authorization (Some rs) x) st); [by constructor|done..].
Qed.

(** Whoever waits is told, if somebody does. *)
Lemma wp_tell {A} s x st (r : option GError) (a : A) Q :
  inv [] None None st → heap st !! s = Some x → fresh_names st s →
  (∀ st', inv [] None None st' → Q a st') →
  wp (sess ← get_session s;
      _ ← match login_task sess with
          | Some t => _ ← upd_session s (set_login_task None); return_task t r
          | None => mret tt
          end;
      mret a) Q st.
Proof.
  intros I Hs Hf HQ. apply wp_bind, (wp_get_session _ x); [done|]. apply wp_bind.
  destruct (login_task x) as [t|] eqn:El; [|by apply wp_ret, wp_ret, HQ].
  eapply (wp_return g hmac g_base64_encode process_idle now 3); [done..|].
  intros st' I' _ _. by apply wp_ret, HQ.
Qed.

Lemma inv_initialized e st s x :
  inv e None None st → heap st !! s = Some x →
  inv e None None
    (set_heap (<[s := set_initialized true (set_close_sig false (set_control_sig false x))]> (heap st))
       (set_hooks (hooks st ∖ list_to_set (pair s <$> [Control; Closed])) st)).
Proof.
  intros [H1 H2 [H3 H3'] H4 H5 H6] Hs. pose proof (view_lookup _ _ _ Hs) as Hv0.
  constructor; cbn [sessions conversations tasks heap services hooks sources next set_heap set_hooks].
  - by rewrite (fmap_upd _ refs _ x).
  - rewrite fmap_insert. set (v' := view_of _). destruct H2 as [L1 L2 L3 L4 L5 L6 L7 L8 L9 L10 L11].
    assert (HV : ∀ y w, <[s := v']> (view_of <$> heap st) !! y = Some w →
      y = s ∧ w = v' ∨ y ≠ s ∧ (view_of <$> heap st) !! y = Some w).
    { intros y w [[<- <-]|[Hn Hw]]%lookup_insert_Some; auto. }
    constructor; try done.
    + intros c y Hy. destruct (L1 c y Hy) as [|(w & Hw & Hwc)]; [done|]. right.
      destruct (decide (y = s)) as [->|Hn]; [|exists w; by rewrite lookup_insert_ne].
      exists v'. rewrite lookup_insert_eq. split; [done|]. rewrite Hv0 in Hw. by injection Hw as <-.
    + intros y w c [[-> ->]|[_ Hw]]%HV; [by apply (L2 s (view_of x))|by eapply L2].
    + intros c y Hy. destruct (L3 c y Hy) as [|(w & Hw & Hwc)]; [done|]. right.
      destruct (decide (y = s)) as [->|Hn]; [|exists w; by rewrite lookup_insert_ne].
      exists v'. rewrite lookup_insert_eq. split; [done|]. rewrite Hv0 in Hw. by injection Hw as <-.
    + intros y w c [[-> ->]|[_ Hw]]%HV; [by apply (L4 s (view_of x))|by eapply L4].
    + intros y w c [[-> ->]|[_ Hw]]%HV Hwc; [|by eapply L5].
      destruct (L5 s _ c Hv0 Hwc) as [|(_ & A & B)]; [by left|right]. by split_and!.
    + intros y w u [[-> ->]|[_ Hw]]%HV; [by apply (L6 s (view_of x))|by eapply L6].
    + intros u j y w Hu Hd [[-> ->]|[_ Hw]]%HV; [by apply (L7 u j s (view_of x))|by eapply L7].
    + intros y w c [[-> ->]|[_ Hw]]%HV; [by apply (L10 s (view_of x))|by eapply L10].
    + intros y w Hy [[-> ->]|[_ Hw]]%HV; [done|by eapply L11].
  - rewrite fmap_insert. constructor.
    + intros y h [Hin Hn]%elem_of_difference. destruct (H3 y h Hin) as (v & Hv & Hvh).
      destruct (decide (y = s)) as [->|Hne]; [|exists v; by rewrite lookup_insert_ne].
      eexists. rewrite lookup_insert_eq. split; [done|].
      rewrite lookup_fmap, Hs in Hv. injection Hv as <-.
      destruct h; try done; destruct Hn; apply elem_of_list_to_set, list_elem_of_fmap;
        eexists; (split; [done|by_decide]).
    + intros y v [[<- <-]|[Hn Hv]]%lookup_insert_Some Hi; [done|].
      apply elem_of_difference. split; [by eapply H3'|].
      intros (h & [= -> _] & _)%elem_of_list_to_set%list_elem_of_fmap. done.
  - by rewrite (fmap_upd _ timeout_tag _ x).
  - intros tag sec y v Ht Hv Hi. rewrite fmap_insert in Hv.
    apply lookup_insert_Some in Hv as [[<- <-]|[_ Hv]]; [done|by eapply H5].
  - by apply (fresh_upd _ _ _ _ _ x).
Qed.

Lemma wp_propagate au options problem msg st Q :
  (∀ err st', inert st st' → nonce_seed st' = nonce_seed st → Q err st') →
  wp (propagate_problem_to_error au options problem msg) Q st.
Proof.
  intros HQ. unfold propagate_problem_to_error.
  destruct (decide (problem = _ ∧ _)); [apply wp_bind, wp_modify, wp_ret, HQ; done|].
  repeat (destruct (decide _); [by apply wp_ret, HQ|]). by apply wp_ret, HQ.
Qed.

Lemma fresh_names_upd s x x' st :
  heap st !! s = Some x → authorize x' = authorize x → fresh_names st s →
  fresh_names (set_heap (<[s := x']> (heap st)) st) s.
Proof.
  intros Hs Ha [F1 F2 F3 F4]. constructor; try done. intros y a c s' Hy Hya. cbn in Hy.
  rewrite lookup_insert_eq in Hy. injection Hy as <-. rewrite Ha in Hya. by eapply F4.
Qed.

Lemma fresh_names_soft s x x' st st' :
  heap st !! s = Some x → soft s x x' st st' → fresh_names st s → fresh_names st' s.
Proof.
  intros Hs [ES EC ET EH Esr En Esd _ Eh _ _ _ _ Ea] [F1 F2 F3 F4].
  constructor; rewrite ?ES, ?EC, ?Esd; try done. intros y a c s' Hy Hya.
  rewrite Eh, lookup_insert_eq in Hy. injection Hy as <-. rewrite Ea in Hya. by eapply F4.
Qed.

Lemma wp_control_init s x options st Q :
  inv [] None None st → heap st !! s = Some x → fresh_names st s →
  (∀ b st', inv [] None None st' → Q b st') →
  wp (on_transport_control g hmac g_base64_encode process_idle now closes_now s (bs "init") options) Q st.
Proof.
  intros I Hs Hf HQ. unfold on_transport_control. cbv zeta. rewrite decide_True by done.
  apply wp_bind, wp_modify, wp_bind, (wp_upd_session _ _ x); [done|].
  match goal with |- wp _ _ ?s2 => set (st2 := s2) end.
  assert (I2 : inv [] None None st2) by exact (inv_initialized [] st s x I Hs).
  set (x2 := set_initialized true (set_close_sig false (set_control_sig false x))) in *.
  assert (Hs2 : heap st2 !! s = Some x2) by (cbn; by rewrite lookup_insert_eq).
  assert (Hf2 : fresh_names st2 s).
  { destruct Hf as [F1 F2 F3 F4]. constructor; try done. intros y a c s' Hy Ha. rewrite Hs2 in Hy.
    injection Hy as <-. by eapply (F4 x). }
  clearbody st2.
  assert (Htell : ∀ error st3 x3, inv [] None None st3 → heap st3 !! s = Some x3 → fresh_names st3 s →
    wp (sess ← get_session s;
        _ ← match cockpit_json_get_string options (bs "session-id") None with
            | Some (Some id) => when (service sess) (upd_service s (set_service_id id))
            | _ => mret tt
            end;
        (sess ← get_session s;
         _ ← match login_task sess with
             | Some t => _ ← upd_session s (set_login_task None); return_task t error
             | None => mret tt
             end;
         mret false)) Q st3).
  { intros error st3 x3 I3 Hs3 Hf3. apply wp_bind, (wp_get_session _ x3); [done|]. apply wp_bind.
    assert (Hgo : ∀ st4, inv [] None None st4 → heap st4 !! s = Some x3 → fresh_names st4 s →
      wp (sess ← get_session s;
         _ ← match login_task sess with
             | Some t => _ ← upd_session s (set_login_task None); return_task t error
             | None => mret tt
             end;
         mret false) Q st4) by (intros st4 I4 Hs4 Hf4; eapply wp_tell; [done..|]; by apply HQ).
    destruct (cockpit_json_get_string options (bs "session-id") None) as [[id|]|]; [|by apply wp_ret, Hgo..].
    destruct (service x3); [|by apply wp_ret, Hgo]. apply wp_modify, Hgo.
    - by apply inv_upd_service.
    - done.
    - by destruct Hf3. }
  apply wp_bind.
  destruct (cockpit_json_get_string options (bs "problem") None) as [[problem|]|];
    [|by apply wp_ret; eapply Htell..].
  apply wp_bind, (wp_get_session _ x2); [done|]. apply wp_bind, wp_propagate.
  intros err st3 N Hn. pose proof (inv_inert _ _ _ _ _ N I2) as I3.
  assert (Hs3 : heap st3 !! s = Some x2) by by rewrite (n_heap _ _ N).
  apply wp_bind, (wp_upd_session _ _ x2); [done|]. apply wp_ret.
  eapply (Htell _ _ (set_init_failure (Some options) x2)).
  - by apply (inv_upd_inert _ _ _ st3 s x2).
  - cbn. by rewrite lookup_insert_eq.
  - apply (fresh_names_upd s x2); [done|done|]. by eapply fresh_names_inert.
Qed.

(** What a control message must not bring: the name of a conversation that another session has. *)
Definition own_conversation (st : state) (s : nat) (options : object) : Prop :=
  ∀ c s', conversation_of options = Some c → conversations st !! c = Some s' → s' = s.

(** A message that closes the transport is one that [on_transport_control] does not expect. *)
Definition expected (command : list Z) : Prop := command = bs "init" ∨ command = bs "authorize".

Lemma wp_on_transport_control s x command options st Q :
  inv [] None None st → heap st !! s = Some x → fresh_names st s → own_conversation st s options →
  (closes_now = true → expected command) →
  (∀ b st', inv [] None None st' → Q b st') →
  wp (on_transport_control g hmac g_base64_encode process_idle now closes_now s command options) Q st.
Proof.
  intros I Hs Hf Hown Hexp HQ. destruct (decide (command = bs "init")) as [->|Hinit]; [by eapply wp_control_init|].
  unfold on_transport_control. cbv zeta. rewrite (decide_False (P := command = bs "init")) by done.
  destruct (decide (command = bs "authorize")) as [_|Hauthorize].
  - assert (Hauth : wp (_ ← upd_session s (set_authorize (Some options));
        replied ← reply_authorize_challenge s;
        if replied : bool then mret true
        else
          sess ← get_session s;
          _ ← match login_task sess with
              | Some t => _ ← upd_session s (set_login_task None); return_task t None
              | None => mret tt
              end;
          mret true) Q st).
    { apply wp_bind, (wp_upd_session _ _ x); [done|].
      set (x1 := set_authorize (Some options) x).
      match goal with |- wp _ _ ?s2 => set (st1 := s2) end.
      assert (I1 : inv [] None None st1) by by apply (inv_upd_inert _ _ _ st s x).
      assert (Hs1 : heap st1 !! s = Some x1) by (cbn; by rewrite lookup_insert_eq).
      assert (Hf1 : fresh_names st1 s).
      { destruct Hf as [F1 F2 F3 F4]. constructor; try done. intros y a c s' Hy Ha Hc Hk.
        rewrite Hs1 in Hy. injection Hy as <-. cbn in Ha. injection Ha as <-. by eapply Hown. }
      clearbody st1. apply wp_bind, (wp_reply_authorize_challenge s x1); [done|].
      intros b st2 x2 S2. pose proof (inv_soft _ _ _ _ _ _ _ _ Hs1 S2 I1) as I2.
      destruct b; [by apply wp_ret, HQ|].
      eapply (wp_tell s x2); [done|by rewrite (s_heap _ _ _ _ _ S2), lookup_insert_eq|
        by eapply fresh_names_soft|by apply HQ]. }
    destruct (cockpit_json_get_string options (bs "challenge") None) as [[challenge|]|]; try exact Hauth.
    destruct (decide (challenge = bs "x-host-key")); [|exact Hauth].
    destruct (cockpit_json_get_string options (bs "cookie") None) as [c|]; [|by apply wp_ret, HQ].
    apply wp_bind, wp_modify, wp_ret, HQ. by eapply inv_same.
  - unfold cockpit_transport_close. destruct closes_now; [by destruct (Hexp eq_refl)|].
    apply wp_bind, wp_bind, wp_modify. apply wp_ret.
    eapply (wp_tell s x); [by eapply inv_same|done|by destruct Hf|by apply HQ].
Qed.

(** ** Timeouts *)

Lemma inv_fire e xc xd st tag sec src s x :
  inv e xc xd st → sources st !! tag = Some (sec, src) → src = AuthorizeTimeout s ∨ src = SessionTimeout s →
  heap st !! s = Some x →
  inv e xc xd (set_heap (<[s := set_timeout_tag None x]> (heap st))
                 (set_sources (delete tag (sources st)) st)).
Proof.
  intros [H1 H2 H3 H4 H5 H6] Ht Hsrc Hs.
  assert (Htag : timeout_tag x = Some tag).
  { destruct (H4 _ _ _ Ht) as [_ Hv].
    destruct Hsrc as [-> | ->]; rewrite lookup_fmap, Hs in Hv; by injection Hv. }
  constructor; cbn.
  - by rewrite (fmap_upd _ refs _ x).
  - by rewrite (fmap_upd _ view_of _ x).
  - by rewrite (fmap_upd _ hooks_of _ x).
  - intros tag' sec' src' [Hn Ht']%lookup_delete_Some. destruct (H4 _ _ _ Ht') as [Hlt Hv]. split; [done|].
    rewrite fmap_insert. destruct src' as [y|y|]; [| |done].
    all: rewrite lookup_insert_ne; [done|]; intros <-; rewrite lookup_fmap, Hs in Hv;
      cbn in Hv; congruence.
  - intros tag' sec' y v [Hn Ht']%lookup_delete_Some Hv Hi.
    rewrite (fmap_upd _ view_of _ x) in Hv by done. by eapply H5.
  - by apply (fresh_upd _ _ _ _ _ x).
Qed.

Lemma inv_drop_source e xc xd st tag :
  inv e xc xd st → inv e xc xd (set_sources (delete tag (sources st)) st).
Proof.
  intros [H1 H2 H3 H4 H5 H6]. constructor; try done; cbn.
  - intros tag' sec' src' [_ Ht']%lookup_delete_Some. by eapply H4.
  - intros tag' sec' y v [_ Ht']%lookup_delete_Some. by eapply H5.
Qed.

Lemma timed_alive e xc xd st tag sec src s :
  inv e xc xd st → sources st !! tag = Some (sec, src) → src = AuthorizeTimeout s ∨ src = SessionTimeout s →
  is_Some (heap st !! s).
Proof.
  intros I Ht Hsrc. destruct (i_timed _ _ _ _ I _ _ _ Ht) as [_ Hv].
  destruct Hsrc as [-> | ->]; rewrite lookup_fmap in Hv; by destruct (heap st !! s).
Qed.

Lemma wp_timeout tag idling st Q :
  inv [] None None st → (∀ s x, heap st !! s = Some x → fresh_names st s) →
  (∀ st', inv [] None None st' → Q tt st') →
  wp (handle g hmac g_base64_encode g_base64_decode g_path_get_basename g_shell_parse_argv
        g_uri_unescape_segment malloc process_idle no_debug now closes_now (Timeout tag idling)) Q st.
Proof.
  intros I Hf HQ. apply wp_bind, wp_get. destruct (sources st !! tag) as [[sec src]|] eqn:Ht; [|by apply wp_ret, HQ].
  apply wp_bind, wp_modify. destruct src as [s|s|]; cbn [dispatch].
  - destruct (timed_alive _ _ _ _ _ _ _ s I Ht ltac:(by left)) as [x Hs].
    apply wp_bind, (wp_get_session _ x); [done|].
    apply wp_bind, (wp_upd_session _ _ x); [done|].
    assert (I1 := inv_fire _ _ _ _ _ _ _ s x I Ht ltac:(by left) Hs).
    destruct (service x); cbn [when]; [|by apply wp_ret, HQ].
    apply wp_bind, wp_modify, wp_when; intros _; [|apply HQ; by eapply inv_same].
    apply wp_emit_closed; [by eapply inv_same| |done]. intros y Hy. destruct (Hf s x Hs) as [F1 F2 F3 F4].
    constructor; try done. intros z a c s' Hz Ha. cbn in Hz. rewrite lookup_insert_eq in Hz. injection Hz as <-. by eapply (F4 x).
  - destruct (timed_alive _ _ _ _ _ _ _ s I Ht ltac:(by right)) as [x Hs].
    apply wp_bind, (wp_upd_session _ _ x); [done|].
    assert (I1 := inv_fire _ _ _ _ _ _ _ s x I Ht ltac:(by right) Hs).
    apply wp_bind, (wp_get_session _ (set_timeout_tag None x)); [cbn; by rewrite lookup_insert_eq|].
    apply wp_when; intros _; [|by apply HQ].
    eapply wp_session_reset; [exact I1|cbn; by rewrite lookup_insert_eq| |by intros st' I' _; apply HQ].
    intros y Hy. cbn in Hy. rewrite lookup_insert_eq in Hy. injection Hy as <-. split.
    + apply may_idle_resettable. intros Hi.
      exact (i_idles _ _ _ _ I tag sec s (view_of x) Ht (view_lookup _ _ _ Hs) Hi).
    + intros _. destruct (Hf s x Hs) as [F1 F2 F3 F4]. constructor; try done. intros z a c s' Hz Ha.
      cbn in Hz. rewrite lookup_insert_eq in Hz. injection Hz as <-. by eapply (F4 x).
  - apply wp_bind, wp_modify, wp_bind, wp_get.
    assert (I1 := inv_drop_source _ _ _ _ tag I).
    apply wp_when; intros _; [apply wp_modify|]; apply HQ; by eapply inv_same.
Qed.

(** ** The users of a service *)

Lemma handed_may_idle e st s x :
  inv e None None st → heap st !! s = Some x →
  (handed_out <$> services st) !! s = Some true → may_idle st x.
Proof.
  intros I Hs Hh Hi. pose proof (i_linked _ _ _ _ I) as L. pose proof (view_lookup _ _ _ Hs) as Hv.
  destruct (l_handed _ _ _ _ _ _ _ L s _ Hh Hv Hi) as [A B]. split; [done|].
  intros t k Hl Ht. destruct (l_login _ _ _ _ _ _ _ L s _ t Hv Hl) as (k' & Ht' & _ & Hk).
  assert (k' = k) as -> by congruence. destruct (task_login k); [|done]. by destruct (B t k).
Qed.

Lemma wp_service_idling s st Q :
  inv [] None None st → (s, Idling) ∈ hooks st → (handed_out <$> services st) !! s = Some true →
  (∀ st', inv [] None None st' → Q tt st') →
  wp (on_web_service_idling process_idle s) Q st.
Proof.
  intros I Hh Hho HQ. destruct (alive_hook I s _ Hh) as [x Hs].
  eapply wp_on_web_service_idling; [done|done| |by intros st' I' _; apply HQ].
  intros Hi. by eapply handed_may_idle.
Qed.

Lemma wp_disconnect s st Q :
  inv [] None None st → (handed_out <$> services st) !! s = Some true →
  (∀ x, heap st !! s = Some x → fresh_names st s) →
  (∀ st', inv [] None None st' → Q tt st') →
  wp (cockpit_web_service_dispose g hmac g_base64_encode process_idle now s) Q st.
Proof.
  intros I Hho Hf HQ. eapply wp_dispose; [done| |done].
  intros x Hs. split; [by eapply handed_may_idle|]. intros _. by eapply Hf.
Qed.

Lemma inv_hand_out e st s x k f :
  inv e None None st → heap st !! s = Some x → sessions st !! k = Some s →
  (∀ w, handed_out (f w) = true) →
  inv e None None (set_services (alter f s (services st)) st).
Proof.
  intros [H1 H2 H3 H4 H5 H6] Hs Hk Hf. constructor; try done; cbn.
  - destruct H2 as [L1 L2 L3 L4 L5 L6 L7 L8 L9 L10 L11]. constructor; try done.
    intros y v Hy Hv Hi. destruct (decide (y = s)) as [->|Hn].
    2: { rewrite lookup_fmap, lookup_alter_ne, <- lookup_fmap in Hy by done. by eapply L11. }
    destruct (L1 k s Hk) as [|(v' & Hv' & Hc)]; [done|]. assert (v' = v) as -> by congruence.
    destruct (L5 s v k Hv Hc) as [->|(? & _)]; [|congruence]. split.
    + destruct (v_conv v) as [c|] eqn:Ec; [|done]. by destruct (L10 s v c Hv Ec) as (_ & ? & _).
    + intros t j Ht Hd. by destruct (L7 t j s v Ht Hd Hv) as (_ & ? & _).
  - intros i Hi. destruct (H6 i Hi) as (A & B & D). split_and!; [done|done|].
    destruct (decide (i = s)) as [->|Hn]; [by rewrite lookup_alter_eq, D|by rewrite lookup_alter_ne].
Qed.

(** ** Cookies *)

Lemma until_slash_nonempty c s : c ≠ 47 → until_slash (c :: s) ≠ [].
Proof.
  intros Hc. unfold until_slash. destruct (strchr (c :: s) 47) as [n|] eqn:E; [|done].
  apply strchr_lookup in E as [Hn Hl]; [|done]. destruct (Z.to_nat n); [|done].
  by injection Hl.
Qed.

Lemma application_nonempty path app h :
  cockpit_auth_parse_application path = Some (app, h) → app ≠ [].
Proof.
  destruct path as [|c path]; [done|]. unfold cockpit_auth_parse_application. cbv beta iota.
  destruct (c =? 47); [|done].
  match goal with |- Some (?v, _) = _ → _ => assert (Hv : v ≠ []); [|generalize dependent v] end.
  { destruct (prefixb _ path && _) eqn:E1; [|by destruct (prefixb (bs "=") path && _)].
    to_prop. destruct path as [|x path]; [done|].
    apply until_slash_nonempty. by intros ->. }
  by intros v Hv [= <- _].
Qed.

Lemma cookie_name_nonempty app : app ≠ [] → application_cookie_name app ≠ [].
Proof. unfold application_cookie_name. by destruct (application_parse_host app). Qed.

(** The key of a session that a request may use. *)
Definition requested (r : CockpitWebRequest) (k : list Z) : Prop :=
  k = LOCAL_SESSION ∨
  ∃ app h v, cockpit_auth_parse_application (req_path r) = Some (app, h) ∧
    cockpit_web_request_parse_cookie g_uri_unescape_segment r (application_cookie_name app)
      = Ok (Some v) ∧ k = base64_decode_string g_base64_decode v.

Lemma wp_session_for_request r st Q :
  inv [] None None st → Q None st →
  (∀ k s, sessions st !! k = Some s → requested r k → Q (Some s) st) →
  wp (session_for_request g_base64_decode g_uri_unescape_segment r) Q st.
Proof.
  intros I HN HS. unfold session_for_request.
  destruct (cockpit_auth_parse_application (req_path r)) as [[app h]|] eqn:Ea; [|by apply wp_ret].
  pose proof (cookie_name_nonempty _ (application_nonempty _ _ _ Ea)) as Hne.
  assert (∃ raw, cockpit_web_request_parse_cookie g_uri_unescape_segment r (application_cookie_name app) = Ok raw)
    as [raw Er].
  { unfold cockpit_web_request_parse_cookie, cockpit_web_server_parse_cookie.
    destruct (table_lookup _ _); [|by eexists]. by apply parse_cookie_terminates; [|lia]. }
  rewrite Er. assert (Hlocal : wp (get (λ st, sessions st !! LOCAL_SESSION)) Q st).
  { apply wp_get. destruct (sessions st !! LOCAL_SESSION) eqn:E; [eapply HS; [done|by left]|done]. }
  apply wp_bind. destruct raw as [v|]; [|by apply wp_ret]. cbn [session_for_cookie_value].
  cbv zeta. destruct (prefixb _ _) eqn:Hp; [|by apply wp_ret].
  apply wp_get. destruct (sessions st !! _) as [s|] eqn:Es; [|done].
  destruct (alive_session I _ _ Es) as [x Hs]. apply wp_bind, (wp_get_session _ x); [done|].
  pose proof (i_linked _ _ _ _ I) as L. pose proof (view_lookup _ _ _ Hs) as Hv.
  destruct (l_cookie _ _ _ _ _ _ _ L _ _ Es) as [|(v' & Hv' & Hc)]; [done|].
  assert (v' = view_of x) as -> by congruence. cbn in Hc.
  set (k := base64_decode_string _ _) in *.
  destruct (l_init _ _ _ _ _ _ _ L _ _ _ Hv Hc) as [El|(_ & Hn & _)]; [by rewrite El in Hp|].
  rewrite Hc. rewrite bool_decide_eq_false_2 by (intros [= El]; by rewrite El in Hp).
  rewrite bool_decide_eq_false_2 by done. apply wp_ret, (HS k); [done|]. right. by exists app, h, v.
Qed.

Lemma wp_check_cookie r st Q :
  inv [] None None st →
  (∀ a st', inv [] None None st' →
    (∀ s, a = Some s → ∃ k, sessions st !! k = Some s ∧ requested r k) → Q a st') →
  wp (cockpit_auth_check_cookie g_base64_decode g_uri_unescape_segment r) Q st.
Proof.
  intros I HQ. apply wp_bind, wp_session_for_request; [done|by apply wp_ret, HQ|].
  intros k s Hk Hr. destruct (alive_session I _ _ Hk) as [x Hs].
  apply wp_bind, (wp_get_session _ x); [done|].
  destruct (service x); [|by apply wp_ret, HQ].
  apply wp_bind, wp_modify, wp_ret, HQ; [by eapply inv_hand_out|]. intros s' [= <-]. by exists k.
Qed.

(** ** New sessions *)

Lemma inv_next e xc xd st : inv e xc xd st → inv e xc xd (set_next (S (next st)) st).
Proof.
  intros [H1 H2 H3 H4 H5 H6]. constructor; try done; cbn.
  - intros tag sec src Ht. destruct (H4 _ _ _ Ht). split; [lia|done].
  - intros i Hi. apply H6. lia.
Qed.

(** The state in which a new session has been made, and the session. *)
Definition new_session (name : list Z) : CockpitSession :=
  mkSession 1 (g_path_get_basename name) None true false None true true 0 0 None None None None None.

Definition created (name : list Z) (c : CockpitCreds) (st : state) : state :=
  let s := next st in
  set_next (S s)
    (set_heap (<[s := new_session name]> (heap st))
    (set_services (<[s := mkService c None false true false]> (services st))
    (set_hooks (hooks st ∪ list_to_set (pair s <$> [Control; Closed; Idling; Destroy; Gone])) st))).

Lemma inv_created name c st :
  inv [] None None st → inv [next st] None None (created name c st).
Proof.
  intros I. pose proof I as [H1 H2 [H3 H3'] H4 H5 H6]. set (s := next st).
  destruct (H6 s ltac:(lia)) as (Hs & HT & HD).
  assert (Hv : (view_of <$> heap st) !! s = None) by by rewrite lookup_fmap, Hs.
  pose proof (H1 s) as Hc. rewrite lookup_fmap, Hs in Hc. cbn in Hc.
  pose proof (total_zero _ _ _ _ _ Hc) as (ZS & ZC & ZT).
  unfold created. cbv zeta. fold s.
  constructor; cbn [sessions conversations tasks heap services hooks sources next set_heap set_hooks
    set_services set_next]; rewrite ?fmap_insert; cbn [refs new_session handed_out].
  - intros x. rewrite total_cons. destruct (decide (s = x)) as [<-|Hn].
    + rewrite lookup_insert_eq, Hc. split; [done|lia].
    + rewrite lookup_insert_ne by done. apply H1.
  - destruct H2 as [L1 L2 L3 L4 L5 L6 L7 L8 L9 L10 L11].
    assert (HV : ∀ y w, <[s := view_of (new_session name)]> (view_of <$> heap st) !! y = Some w →
      y = s ∧ w = view_of (new_session name) ∨ y ≠ s ∧ (view_of <$> heap st) !! y = Some w).
    { intros y w [[<- <-]|[Hn Hw]]%lookup_insert_Some; auto. }
    assert (HL : ∀ y w, (view_of <$> heap st) !! y = Some w →
      <[s := view_of (new_session name)]> (view_of <$> heap st) !! y = Some w).
    { intros y w Hy. rewrite lookup_insert_ne; [done|]. congruence. }
    constructor; try done.
    + intros k y Hy. destruct (L1 k y Hy) as [|(w & Hw & Hk)]; [done|]. right. exists w. auto.
    + intros y w k [[-> ->]|[_ Hw]]%HV; [done|by eapply L2].
    + intros k y Hy. destruct (L3 k y Hy) as [|(w & Hw & Hk)]; [done|]. right. exists w. auto.
    + intros y w k [[-> ->]|[_ Hw]]%HV; [done|by eapply L4].
    + intros y w k [[-> ->]|[_ Hw]]%HV; [done|by eapply L5].
    + intros y w t [[-> ->]|[_ Hw]]%HV; [done|by eapply L6].
    + intros t k y w Ht Hd [[-> ->]|[_ Hw]]%HV; [by destruct (ZT t k Ht)|by eapply L7].
    + intros y w k [[-> ->]|[_ Hw]]%HV; [done|by eapply L10].
    + intros y w Hy [[-> ->]|[Hn Hw]]%HV; [by rewrite lookup_insert_eq in Hy|].
      rewrite lookup_insert_ne in Hy by done. by eapply L11.
  - constructor.
    + intros y h [Hin|Hin]%elem_of_union.
      * destruct (H3 y h Hin) as (v & Hy & Hh). exists v. split; [|done].
        rewrite lookup_insert_ne; [done|]. intros <-. by rewrite lookup_fmap, Hs in Hy.
      * apply elem_of_list_to_set, list_elem_of_fmap in Hin as (h' & [= -> ->] & _).
        eexists. rewrite lookup_insert_eq. split; [done|]. by destruct h'.
    + intros y v [[<- <-]|[Hn Hv']]%lookup_insert_Some Hi; apply elem_of_union.
      * right. apply elem_of_list_to_set, list_elem_of_fmap. exists Closed. split; [done|by_decide].
      * left. by eapply H3'.
  - intros tag sec src Ht. destruct (H4 _ _ _ Ht) as [Hlt Hsrc]. split; [lia|].
    destruct src as [y|y|]; [| |done]; (rewrite lookup_insert_ne; [done|]);
      intros <-; by rewrite lookup_fmap, Hs in Hsrc.
  - intros tag sec y v Ht [[<- <-]|[_ Hv']]%lookup_insert_Some; [|by eapply H5].
    destruct (H4 _ _ _ Ht) as [_ Hsrc]. by rewrite lookup_fmap, Hs in Hsrc.
  - intros i Hi. rewrite !lookup_insert_ne by lia. apply H6. lia.
Qed.

(** ** Waiting for a session *)

(** A login may wait for this session: nobody else does. *)
Record joinable (s : nat) (x : CockpitSession) (st : state) : Prop := {
  j_heap : heap st !! s = Some x;
  j_login : login_task x = None;
  j_name : session_name x ≠ LOCAL_SESSION;
  j_unheld : unheld s st;
  j_quiet : initialized x = false → (handed_out <$> services st) !! s ≠ Some true ∧
    ∀ tag sec, sources st !! tag ≠ Some (sec, SessionTimeout s)
}.

Lemma joinable_conversation e st c s x :
  inv e None None st → conversations st !! c = Some s → heap st !! s = Some x → joinable s x st.
Proof.
  intros I Hc Hs. pose proof (i_linked _ _ _ _ I) as L. pose proof (view_lookup _ _ _ Hs) as Hv.
  destruct (l_conv _ _ _ _ _ _ _ L c s Hc) as [|(v & Hv' & Hvc)]; [done|].
  assert (v = view_of x) as -> by congruence.
  destruct (l_conv_login _ _ _ _ _ _ _ L s _ c Hv Hvc) as (A & B & C).
  constructor; try done.
  - intros t k Ht Hd. destruct (l_data _ _ _ _ _ _ _ L t k s _ Ht Hd Hv) as (_ & _ & _ & Hk).
    destruct (task_result k); [destruct Hk|]; congruence.
  - intros Hi. split.
    + intros Hh. destruct (l_handed _ _ _ _ _ _ _ L s _ Hh Hv Hi). congruence.
    + intros tag sec Ht. destruct (i_idles _ _ _ _ I tag sec s _ Ht Hv Hi). congruence.
Qed.

Lemma joinable_created name c st :
  inv [] None None st → g_path_get_basename name ≠ LOCAL_SESSION →
  joinable (next st) (new_session name) (created name c st).
Proof.
  intros I Hn. destruct (i_fresh _ _ _ _ I (next st) ltac:(lia)) as (Hs & HT & HD).
  constructor; unfold created; cbn [heap tasks services sources set_next set_heap set_services set_hooks];
    try done.
  - by rewrite lookup_insert_eq.
  - intros t k Ht Hd. destruct (alive_task I t k _ Ht Hd). congruence.
  - intros _. rewrite fmap_insert, lookup_insert_eq. split; [done|]. intros tag sec Ht.
    destruct (i_timed _ _ _ _ I _ _ _ Ht) as [_ Hsrc]. by rewrite lookup_fmap, Hs in Hsrc.
Qed.

Lemma wp_join s x t k st (m : auth unit) Q :
  inv [s] None None st → joinable s x st → tasks st !! t = None → (t < next st)%nat →
  task_data k = Some s → task_login k = true → task_result k = None →
  (∀ st' y, inv [] None None st' → heap st' !! s = Some y → login_task y = Some t →
     tasks st' !! t = Some k → wp m Q st') →
  wp (_ ← cockpit_session_reset g hmac g_base64_encode process_idle now s;
      _ ← leave_task t k;
      _ ← upd_session s (set_login_task (Some t)); m) Q st.
Proof.
  intros I [Js Jl Jn Ju Jq] Ht Hlt Hd Hlog Hres HQ. apply wp_bind.
  eapply (wp_reset_unwaited g hmac g_base64_encode process_idle now 3 [s]); [done..|].
  intros st1 I1 F N. destruct (alive_extra I1 s ltac:(by left)) as [y Hy].
  destruct (f_self _ _ _ F y Hy) as (x' & Hx' & Ei & En & _). assert (x' = x) as -> by congruence.
  destruct (N y Hy) as (Nc & Nv & Nl).
  apply wp_bind, wp_modify, wp_bind, (wp_upd_session _ _ y); [done|].
  apply (HQ _ (set_login_task (Some t) y)); [|cbn; by rewrite lookup_insert_eq|done|cbn; by rewrite lookup_insert_eq].
  eapply (inv_leave_waiting [] st1 s y t k); rewrite ?Hlog; try done.
  - unfold held. by rewrite Hd.
  - left. congruence.
  - intros t' k'. rewrite (f_tasks _ _ _ F). apply Ju.
  - by rewrite (f_tasks _ _ _ F).
  - by rewrite (f_next _ _ _ F).
  - split; [done|]. by rewrite Nc.
  - intros _ Hi. rewrite Ei in Hi. destruct (Jq Hi) as [Jh Js']. split.
    + by rewrite (f_handed _ _ _ F).
    + intros tag sec Htag. by apply (Js' tag sec), (f_sources _ _ _ F).
Qed.

Lemma alter_insert_lookup {A} (f : A → A) (m : gmap nat A) i a :
  m !! i = Some a → alter f i m = <[i := f a]> m.
Proof.
  intros Hi. apply map_eq. intros j. destruct (decide (j = i)) as [->|Hj].
  - by rewrite lookup_alter_eq, lookup_insert_eq, Hi.
  - by rewrite lookup_alter_ne, lookup_insert_ne.
Qed.

Lemma wp_answer s x t k (conv : option (list Z)) a err st Q :
  inv [] None None st → heap st !! s = Some x → login_task x = Some t → tasks st !! t = Some k →
  (∀ st', inv [] None None st' → Q tt st') →
  wp (_ ← upd_session s (set_authorization (Some a));
      replied ← match conv with Some _ => reply_authorize_challenge s | None => mret true end;
      if replied : bool then reset_authorize_timeout s false
      else
        _ ← upd_session s (set_login_task None);
        task_return_later t k err) Q st.
Proof.
  intros I Hs Hl Ht HQ. apply wp_bind, (wp_upd_session _ _ x); [done|].
  set (x1 := set_authorization (Some a) x). set (st1 := set_heap _ st).
  assert (I1 : inv [] None None st1) by by apply (inv_upd_inert _ _ _ st s x).
  assert (Hs1 : heap st1 !! s = Some x1) by (cbn; by rewrite lookup_insert_eq).
  assert (Hrest : ∀ b st2 x2, soft s x1 x2 st1 st2 →
    wp (if b : bool then reset_authorize_timeout s false
        else _ ← upd_session s (set_login_task None); task_return_later t k err) Q st2).
  { intros b st2 x2 S2. pose proof (inv_soft _ _ _ _ _ _ _ _ Hs1 S2 I1) as I2.
    assert (Hs2 : heap st2 !! s = Some x2) by by rewrite (s_heap _ _ _ _ _ S2), lookup_insert_eq.
    destruct b.
    - apply (wp_reset_authorize_timeout s false x2); [done|]. apply HQ, inv_timer; [done|done|by left].
    - apply wp_bind, (wp_upd_session _ _ x2); [done|]. apply wp_modify, HQ.
      assert (Hl2 : login_task x2 = Some t).
      { pose proof (s_view _ _ _ _ _ S2) as E. apply (f_equal v_login) in E. cbn in E. congruence. }
      pose proof (inv_return [] st2 s x2 t err I2 Hs2 Hl2) as I3.
      assert (Ht2 : tasks st2 !! t = Some k) by by rewrite (s_tasks _ _ _ _ _ S2).
      cbn [tasks set_heap]. rewrite (alter_insert_lookup _ _ _ _ Ht2) in I3. exact I3. }
  apply wp_bind. destruct conv as [c|].
  - apply (wp_reply_authorize_challenge s x1); [done|]. intros b st2 x2 S2. by eapply Hrest.
  - apply wp_ret. eapply (Hrest true), soft_refl, Hs1.
Qed.

(** ** Starting a session *)

Context (malloc_length : ∀ n, length (malloc n) = n).

(** The program of no session is called like the session of the local user. *)
Definition programs_named : Prop := ∀ r c host section_ type p,
  session_program g_shell_parse_argv no_debug r c host section_ type = inr (Some p) →
  g_path_get_basename (program_name p) ≠ LOCAL_SESSION.

Lemma creds_new_app app args : app ≠ [] → ∃ c, cockpit_creds_new app args = Some c.
Proof.
  intros Ha. unfold cockpit_creds_new. rewrite bool_decide_eq_false_2 by done.
  destruct (foldl _ _ _) as [c p]. by eexists.
Qed.

Lemma wp_nonce st Q : Q (hmac (nonce_seed st)) (set_nonce_seed (u64 (nonce_seed st + 1)) st) →
  wp (cockpit_auth_nonce hmac) Q st.
Proof. done. Qed.

Lemma wp_build_session_credentials r app host type a st Q :
  app ≠ [] → (∀ c, Q c (set_nonce_seed (u64 (nonce_seed st + 1)) st)) →
  wp (build_session_credentials hmac malloc r app host type a) Q st.
Proof.
  intros Ha HQ. unfold build_session_credentials. cbv zeta. apply wp_bind.
  assert (Hrest : ∀ u p, wp (csrf ← cockpit_auth_nonce hmac;
      match cockpit_creds_new app
              [COCKPIT_CRED_USER u; COCKPIT_CRED_PASSWORD p;
               COCKPIT_CRED_RHOST (cockpit_web_request_get_remote_address r);
               COCKPIT_CRED_CSRF_TOKEN (Some csrf);
               COCKPIT_CRED_SUPERUSER (Some (default (bs "none") (cockpit_web_request_lookup_header r (bs "X-Superuser"))))] with
      | Some c => mret c
      | None => fault
      end) Q st).
  { intros u p. apply wp_bind, wp_nonce.
    match goal with |- context [cockpit_creds_new app ?l] => destruct (creds_new_app app l Ha) as [c ->] end.
    apply wp_ret, HQ. }
  destruct (decide (type = bs "basic")); [|apply wp_ret, Hrest].
  pose proof (parse_basic_safe malloc malloc_length (Some a)) as Hsafe.
  destruct (cockpit_authorize_parse_basic malloc (Some a)) as [[raw [u|]]|er|]; [..|done]; apply wp_ret, Hrest.
Qed.

Lemma wp_launch spawned r type a app st Q :
  programs_named → inv [] None None st → app ≠ [] →
  (∀ err st', inv [] None None st' → tasks st' = tasks st → (next st ≤ next st')%nat → Q (inl err) st') →
  (∀ s x st', inv [s] None None st' → joinable s x st' → tasks st' = tasks st →
     (next st ≤ next st')%nat → Q (inr s) st') →
  wp (cockpit_session_launch g hmac g_path_get_basename g_shell_parse_argv malloc no_debug
        spawned r type a app) Q st.
Proof.
  intros Hp I Ha HE HS. unfold cockpit_session_launch. cbv zeta.
  destruct (decide _); [by apply wp_ret, HE|]. destruct (_ && _); [by apply wp_ret, HE|].
  apply wp_bind, wp_build_session_credentials; [done|]. intros c.
  set (st1 := set_nonce_seed _ st).
  assert (I1 : inv [] None None st1) by by eapply inv_same.
  destruct (session_program _ _ _ _ _ _ _) as [err|[p|]] eqn:E; [by apply wp_ret, HE| |by apply wp_ret, HE].
  destruct (match p with Spawn _ _ _ => negb spawned | Connect _ => false end); [by apply wp_ret, HE|].
  pose proof (inv_created (program_name p) c st1 I1) as I2.
  pose proof (joinable_created (program_name p) c st1 I1 (Hp _ _ _ _ _ _ E)) as J2.
  apply wp_bind. change (wp (cockpit_session_create g_path_get_basename (program_name p) c) ?P st1)
    with (P (next st1) (created (program_name p) c st1)).
  apply wp_bind, wp_modify, wp_bind.
  set (st2 := created (program_name p) c st1) in *. set (x := new_session (program_name p)) in *.
  apply (wp_upd_session _ _ x); [apply (j_heap _ _ _ J2)|]. apply wp_ret.
  destruct J2 as [Js Jl Jn Ju Jq].
  eapply HS; [|constructor; cbn|done|cbn; lia].
  - apply (inv_upd_inert _ _ _ (set_log _ st2) (next st1) x); [done|by eapply inv_same|done..].
  - by rewrite lookup_insert_eq.
  - done. - done. - done. - done.
Qed.

(** ** Requests to log in *)

(** What [cockpit_auth_new] makes of the configuration. *)
Definition settings_ok : Prop :=
  0 ≤ max_startups_begin g ≤ max_startups g ∧ max_startups g < 2 ^ 32.

Lemma can_start_defined n r : settings_ok → 0 ≤ n < 2 ^ 32 → can_start_auth g n r ≠ None.
Proof.
  intros [Hb Hm] Hn. unfold can_start_auth. cbv zeta.
  destruct (_ =? 0); [done|]. destruct (n <=? _) eqn:E1; [done|]. destruct (n >? _) eqn:E2; [done|].
  destruct (max_startups_rate g =? 100); [done|]. to_prop.
  unfold u32 at 1. rewrite Z.mod_small by lia. by rewrite (proj2 (Z.eqb_neq _ _)) by lia.
Qed.

Lemma wp_refuse t conn c m st Q :
  inv [] None None st → tasks st !! t = None → (t < next st)%nat →
  (∀ st', inv [] None None st' → Q tt st') →
  wp (task_return_later t (mkTask None true conn None) (error_of c m)) Q st.
Proof. intros I Ht Hlt HQ. apply wp_modify, HQ. by eapply inv_leave_refused. Qed.

Lemma wp_new_task login r st Q :
  (∀ conn, Q (next st, mkTask None login conn None) (set_next (S (next st)) st)) →
  wp (new_task login r) Q st.
Proof. intros HQ. apply HQ. Qed.

Lemma wp_steal r st Q : (∀ h, Q h st) → wp (cockpit_auth_steal_authorization r) Q st.
Proof.
  intros HQ. apply wp_bind, wp_get.
  destruct (match table_lookup _ _ with Some _ => _ | None => _ end) as [line|]; [|by apply wp_ret].
  destruct (type_of (Some line)) as [type|]; [|by apply wp_ret].
  destruct (decide _); [by apply wp_ret|]. destruct (decide _).
  { by destruct (cockpit_authorize_subject _) as [[]| |]; apply wp_ret. }
  destruct (decide _); [apply wp_bind, wp_get|]; by apply wp_ret.
Qed.

(** The session that a login is for: of a conversation, or a new one. *)
Lemma wp_login_session spawned r type a app (conv : option (list Z)) st Q :
  programs_named → inv [] None None st → app ≠ [] →
  (∀ err st', inv [] None None st' → tasks st' = tasks st → (next st ≤ next st')%nat → Q (inl err) st') →
  (∀ s x st', inv [s] None None st' → joinable s x st' → tasks st' = tasks st →
     (next st ≤ next st')%nat → Q (inr s) st') →
  wp (match conv with
      | Some c =>
          s ← get (λ st, conversations st !! c);
          match s with
          | None => mret (inl (mkError AUTHENTICATION_FAILED (bs "Invalid conversation token")))
          | Some s => _ ← cockpit_session_ref s; mret (inr s)
          end
      | None => cockpit_session_launch g hmac g_path_get_basename g_shell_parse_argv malloc no_debug
                  spawned r type a app
      end) Q st.
Proof.
  intros Hp I Ha HE HS. destruct conv as [c|]; [|by apply wp_launch].
  apply wp_bind, wp_get. destruct (conversations st !! c) as [s|] eqn:Ec; [|by apply wp_ret, HE].
  destruct (alive_conversation I c s Ec) as [x Hs].
  apply wp_bind, (wp_upd_session _ _ x); [done|]. apply wp_ret.
  destruct (joinable_conversation _ _ _ _ _ I Ec Hs) as [_ Jl Jn Ju Jq].
  eapply HS; [by apply inv_ref|constructor; [cbn; by rewrite lookup_insert_eq|done..]|done|done].
Qed.

Lemma wp_login random spawned r st Q :
  programs_named → settings_ok → inv [] None None st →
  (∀ st', inv [] None None st' → Q tt st') →
  wp (cockpit_auth_login_async g hmac g_base64_encode g_path_get_basename g_shell_parse_argv malloc
        process_idle no_debug now random spawned r) Q st.
Proof.
  intros Hp Hg I HQ. apply wp_bind, wp_modify, wp_bind, wp_new_task. intros conn.
  change (next (set_startups _ st)) with (next st). set (t := next st). set (st1 := set_next _ _).
  assert (I1 : inv [] None None st1) by exact (inv_next _ _ _ _ (inv_same _ _ _ _ (set_startups (u32 (startups st + 1)) st) I eq_refl eq_refl eq_refl eq_refl eq_refl eq_refl eq_refl eq_refl)).
  assert (Ht : tasks st1 !! t = None) by apply (i_fresh _ _ _ _ I t ltac:(lia)).
  assert (Hlt : (t < next st1)%nat) by (cbn; lia).
  assert (Hn : 0 ≤ startups st1 < 2 ^ 32) by apply Z_mod_lt, eq_refl.
  clearbody st1 t. apply wp_bind, wp_get.
  pose proof (can_start_defined (startups st1) random Hg Hn) as Hcan.
  destruct (can_start_auth g (startups st1) random) as [[|]|]; [|by apply wp_refuse|done].
  cbv zeta. apply wp_bind.
  match goal with |- wp _ (λ header, wp (@?k header) Q) _ =>
    assert (Hrest : ∀ header, wp (k header) Q st1) end.
  { intros [[[a type] conv]|]; [|by apply wp_refuse].
    destruct (cockpit_auth_parse_application (req_path r)) as [[app h]|] eqn:Ea; [|by apply wp_refuse].
    apply application_nonempty in Ea. apply wp_bind, wp_login_session; [done..| |].
    - intros [c m] st2 I2 E2 Hle. apply wp_refuse; try done; [by rewrite E2|lia].
    - intros s x st2 I2 J2 E2 Hle. cbv zeta. eapply wp_join; try done; [by rewrite E2|lia|].
      intros st3 y I3 Hs3 Hl3 Ht3. by eapply wp_answer. }
  destruct (cockpit_web_request_get_client_certificate r) as [cert|]; [|apply wp_steal; exact Hrest].
  exact (Hrest (Some (bs "tls-cert " ++ cert, bs "tls-cert", None))).
Qed.

(** ** The session of the local user *)

Lemma wp_local_login name user_ st Q :
  inv [] None None st → sessions st !! LOCAL_SESSION = None →
  (∀ st', inv [] None None st' → Q tt st') →
  wp (cockpit_auth_local_async g hmac g_base64_encode g_path_get_basename process_idle now name user_) Q st.
Proof.
  intros I Hno HQ. apply wp_bind, wp_nonce. set (st1 := set_nonce_seed _ st).
  assert (I1 : inv [] None None st1) by by eapply inv_same.
  match goal with |- context [cockpit_creds_new ?a ?l] => destruct (creds_new_app a l ltac:(done)) as [c ->] end.
  pose proof (inv_created name c st1 I1) as I2.
  destruct (i_fresh _ _ _ _ I1 (next st1) ltac:(lia)) as (Hs1 & HT1 & _).
  assert (Hun : unheld (next st1) (created name c st1)).
  { intros t k Ht Hd. destruct (alive_task I1 t k _ Ht Hd). congruence. }
  apply wp_bind. change (wp (cockpit_session_create g_path_get_basename name c) ?P st1)
    with (P (next st1) (created name c st1)).
  set (s := next st1) in *. set (st2 := created name c st1) in *. set (x := new_session name).
  assert (Hs2 : heap st2 !! s = Some x) by apply lookup_insert_eq.
  apply wp_bind, (wp_upd_session _ _ x); [done|].
  pose proof (inv_name_cookie [] st2 s x LOCAL_SESSION I2 Hs2 eq_refl eq_refl Hno
    ltac:(left; by split_and!)) as I3.
  apply wp_bind, wp_bind, wp_get, wp_bind, wp_modify. cbn [sessions set_heap].
  assert (sessions st2 !! LOCAL_SESSION = None) as -> by done. apply wp_ret.
  set (st3 := set_sessions _ _) in *. apply wp_bind, wp_new_task. intros conn.
  apply wp_bind, wp_modify. set (st4 := set_next _ st3).
  assert (I4 : inv [] None None st4) by by apply inv_next.
  assert (Hs4 : heap st4 !! s = Some (set_cookie (Some LOCAL_SESSION) x)) by apply lookup_insert_eq.
  apply (wp_upd_session _ _ (set_cookie (Some LOCAL_SESSION) x)); [done|]. apply HQ.
  apply (inv_leave_waiting [] st4 s (set_cookie (Some LOCAL_SESSION) x) (next st3)); try done.
  - by right.
  - apply (i_fresh _ _ _ _ I3). lia.
  - cbn. lia.
Qed.

(** ** All events *)

(** What can happen in a state.  Signals come from what their handlers are connected to,
    only a service that a request has been given goes idle or is disconnected, only finished
    tasks call back, there is one local session, new names are not in use, and a session process
    asks for no conversation that another session has.  Where closing a transport is noticed at
    once, no session process sends a message that closes it. *)
Definition possible (ev : event) (st : state) : Prop :=
  (∀ s x, heap st !! s = Some x → fresh_names st s) ∧
  match ev with
  | LocalLogin _ _ => sessions st !! LOCAL_SESSION = None
  | ControlMessage s command options => (s, Control) ∈ hooks st ∧ own_conversation st s options ∧ (closes_now = true → expected command)
  | ServiceIdling s => (s, Idling) ∈ hooks st ∧ (handed_out <$> services st) !! s = Some true
  | Disconnect s => (handed_out <$> services st) !! s = Some true
  | TaskCallback t => ∃ k r, tasks st !! t = Some k ∧ task_result k = Some r
  | Login _ _ _ | CheckCookie _ | TransportClosed _ _ _ | Timeout _ _ => True
  end.

Lemma wp_handle ev st :
  programs_named → settings_ok → inv [] None None st → possible ev st →
  wp (handle g hmac g_base64_encode g_base64_decode g_path_get_basename g_shell_parse_argv
        g_uri_unescape_segment malloc process_idle no_debug now closes_now ev)
    (λ _ st', inv [] None None st') st.
Proof.
  intros Hnames Hg I [Hf Hev]. destruct ev; cbn [Auth.handle].
  - by apply wp_login.
  - by apply wp_local_login.
  - apply wp_bind, wp_check_cookie; [done|]. intros a st' I' _. by apply wp_ret.
  - destruct Hev as (Hh & Hown & Hexp). destruct (alive_hook I _ _ Hh) as [x Hs].
    apply wp_bind. eapply wp_on_transport_control; [done|done|by eapply Hf|done|done|].
    intros b st' I'. by apply wp_ret.
  - apply wp_emit_closed; [done|by apply Hf|done].
  - by apply wp_timeout.
  - destruct Hev. by apply wp_service_idling.
  - apply wp_disconnect; [done|done| |done]. intros x Hx. by eapply Hf.
  - destruct Hev as (k & r & Ht & Hr).
    apply (wp_task_callback g hmac g_base64_encode process_idle now 3 [] st _ k r); [done..| |].
    + intros s Hd. destruct (alive_task I _ _ _ Ht Hd). by eapply Hf.
    + intros st' I' _ _. exact I'.
Qed.
End Events.
