(* ===== verification/AuthRun.v ===== *)
(** * What the authentication of the web service guarantees

    Runs of the events of [Auth] from the start of the process: no session is ever used after
    it has been freed, and the references that a session counts are those that exist.  Then
    who gets a service for a cookie, who gets the secret of a login, and how many logins may be
    under way. *)

From S2P Require Import Prelude Json Conf Http WebServer Creds Authorize Auth AuthSafety AuthEvents.
#[local] Open Scope Z_scope.

(** The start of the process. *)
Lemma inv_init process_idle : inv [] None None (cockpit_auth_init process_idle).
Proof.
  constructor; cbn.
  - intros s. by rewrite fmap_empty, lookup_empty.
  - constructor; intros *; rewrite ?fmap_empty, ?lookup_empty; done.
  - constructor; [by intros ? ? ?%elem_of_empty|]. intros s v. by rewrite fmap_empty.
  - intros tag sec src [<- [= <- <-]]%lookup_singleton_Some. split; [lia|done].
  - intros tag sec s v [<- [=]]%lookup_singleton_Some.
  - intros i _. by rewrite !lookup_empty.
Qed.

Section Run.
Context `{Config} (g : settings).
Context (hmac : Z → list Z) (g_base64_encode g_base64_decode : list Z → list Z).
Context (g_path_get_basename : list Z → list Z).
Context (g_shell_parse_argv : list Z → option (list (list Z))).
Context (g_uri_unescape_segment : list Z → option (list Z)) (malloc : nat → list Z).
Context (process_idle : Z) (no_debug : bool) (now closes_now : bool).

Notation handle ev := (handle g hmac g_base64_encode g_base64_decode g_path_get_basename
  g_shell_parse_argv g_uri_unescape_segment malloc process_idle no_debug now closes_now ev).

Fixpoint run (evs : list event) : auth unit :=
  match evs with [] => mret tt | ev :: evs => _ ← handle ev; run evs end.

Fixpoint possible_run (evs : list event) (st : state) : Prop :=
  match evs with
  | [] => True
  | ev :: evs => possible hmac closes_now ev st ∧ possible_run evs (handle ev st).2
  end.

Lemma wp_run evs st :
  (∀ n, length (malloc n) = n) → programs_named g_path_get_basename g_shell_parse_argv no_debug →
  settings_ok g → inv [] None None st → possible_run evs st →
  wp (run evs) (λ _ st', inv [] None None st') st.
Proof.
  intros Hm Hn Hg. revert st. induction evs as [|ev evs IH]; intros st I Hp; [by apply wp_ret|].
  destruct Hp as [Hev Hp].
  pose proof (wp_handle g hmac g_base64_encode g_base64_decode g_path_get_basename g_shell_parse_argv
    g_uri_unescape_segment malloc process_idle no_debug now closes_now Hm ev st Hn Hg I Hev) as Hw.
  apply wp_bind. revert Hw Hp. unfold wp at 1 2. destruct (handle ev st) as [[a|e|] st']; [|done..].
  intros I' Hp. by apply IH.
Qed.
End Run.

(** ** The settings *)

Section Settings.
Context `{Config} (cockpit_ws_max_startups : option (list Z)) (loopback tls_proxy : bool).

Lemma scan_u_range s v r : scan_u s = Some (v, r) → 0 ≤ v < 2 ^ 32.
Proof.
  unfold scan_u. cbv zeta.
  destruct (match (span isspace s).2 with [] => _ | _ => _ end) as [neg t].
  destruct (span isdigit t) as [[|c d] r']; [done|]. intros [= <- _]. by apply Z_mod_lt.
Qed.

Lemma scan_startups_range spec : Forall (λ v, 0 ≤ v < 2 ^ 32) (scan_startups spec).
Proof.
  unfold scan_startups. destruct (scan_u spec) as [[a r]|] eqn:Ea; [|constructor].
  apply scan_u_range in Ea. destruct r as [|[|p|p] r]; [repeat constructor; lia..| |repeat constructor; lia].
  do 6 (destruct p as [p|p|]; try (repeat constructor; lia)).
  destruct (scan_u r) as [[b r']|] eqn:Eb; [|repeat constructor; lia]. apply scan_u_range in Eb.
  destruct r' as [|[|p|p] r']; [repeat constructor; lia..| |repeat constructor; lia].
  do 6 (destruct p as [p|p|]; try (repeat constructor; lia)).
  destruct (scan_u r') as [[c r'']|] eqn:Ec; [|repeat constructor; lia]. apply scan_u_range in Ec.
  repeat constructor; lia.
Qed.

(** Three numbers that make sense, whatever is configured. *)
Lemma max_startups_range spec :
  let '(begin_, rate, max_) := max_startups_of spec in
  0 ≤ begin_ ≤ max_ ∧ max_ < 2 ^ 32 ∧ 1 ≤ rate ≤ 100.
Proof.
  unfold max_startups_of. pose proof (scan_startups_range spec) as HF.
  destruct (scan_startups spec) as [|a [|b [|c [|d l]]]];
    repeat match goal with H : Forall _ (_ :: _) |- _ => apply Forall_cons in H as [? H] end;
    unfold default_max_startups; cbv zeta; destruct (_ || _) eqn:E; to_prop; lia.
Qed.

Definition auth_settings : settings := cockpit_auth_new cockpit_ws_max_startups loopback tls_proxy.

Lemma settings_range :
  settings_ok auth_settings ∧ 1 ≤ max_startups_rate auth_settings ≤ 100.
Proof.
  unfold auth_settings, cockpit_auth_new, settings_ok.
  destruct (match cockpit_ws_max_startups with Some _ => _ | None => _ end) as [spec|];
    [|unfold default_max_startups; cbn; lia].
  pose proof (max_startups_range spec). destruct (max_startups_of spec) as [[b r] m]. cbn. lia.
Qed.
End Settings.

(** ** Life times *)

(** Everything that leads to a session leads to one that lives, and a session lives as long
    as its count says, which is the number of the references there are. *)
Definition accounted (st : state) : Prop :=
  (∀ s, match heap st !! s with
        | Some x => refs x = Z.of_nat (total (sessions st) (conversations st) (tasks st) [] s) ∧ 0 < refs x
        | None => total (sessions st) (conversations st) (tasks st) [] s = 0%nat
        end) ∧
  (∀ tag sec s, sources st !! tag = Some (sec, AuthorizeTimeout s) ∨
                sources st !! tag = Some (sec, SessionTimeout s) → is_Some (heap st !! s)) ∧
  (∀ s h, (s, h) ∈ hooks st → is_Some (heap st !! s)).

Lemma inv_accounted st : inv [] None None st → accounted st.
Proof.
  intros I. split_and!.
  - intros s. pose proof (i_counted _ _ _ _ I s) as Hc. rewrite lookup_fmap in Hc. by destruct (heap st !! s).
  - intros tag sec s Ht. destruct Ht as [Ht|Ht]; eapply timed_alive; [done|done|by left|done|done|by right].
  - intros s h. by apply (alive_hook I).
Qed.

Section Guarantees.
Context `{Config} (cockpit_ws_max_startups : option (list Z)) (loopback tls_proxy : bool).
Context (hmac : Z → list Z) (g_base64_encode g_base64_decode : list Z → list Z).
Context (g_path_get_basename : list Z → list Z).
Context (g_shell_parse_argv : list Z → option (list (list Z))).
Context (g_uri_unescape_segment : list Z → option (list Z)) (malloc : nat → list Z).
Context (process_idle : Z) (no_debug now closes_now : bool).
Context (malloc_length : ∀ n, length (malloc n) = n).
Context (names : programs_named g_path_get_basename g_shell_parse_argv no_debug).

Notation g := (auth_settings cockpit_ws_max_startups loopback tls_proxy).
Notation run := (run g hmac g_base64_encode g_base64_decode g_path_get_basename
  g_shell_parse_argv g_uri_unescape_segment malloc process_idle no_debug now closes_now).
Notation possible_run := (possible_run g hmac g_base64_encode g_base64_decode g_path_get_basename
  g_shell_parse_argv g_uri_unescape_segment malloc process_idle no_debug now closes_now).
Notation start := (cockpit_auth_init process_idle).

Lemma auth_run_inv evs :
  possible_run evs start → ∃ st, run evs start = (Ok tt, st) ∧ inv [] None None st.
Proof.
  intros Hp. destruct (settings_range cockpit_ws_max_startups loopback tls_proxy) as [Hg _].
  pose proof (wp_run g hmac g_base64_encode g_base64_decode g_path_get_basename g_shell_parse_argv
    g_uri_unescape_segment malloc process_idle no_debug now closes_now evs start malloc_length names Hg
    (inv_init process_idle) Hp) as Hw.
  revert Hw. unfold wp. destruct (run evs start) as [[[]|e|] st]; [|done..]. eauto.
Qed.

(** C8: no session is used after it has been freed, and none is leaked, in any run of [possible]
    events: whatever is requested, in whichever order timeouts, the ends of processes, disconnects
    and callbacks come, and whether tasks and transports tell of their end at once or later, no step
    touches a session that is gone; every session that is left is counted by exactly the table
    entries and tasks that refer to it, and no timeout or signal handler is left for one that is
    gone.  Session processes may send any control message, except that none asks for a conversation
    by a name that another session has ([conversation_taken_over] shows what happens then), and that
    where closing a transport is noticed at once, none sends a command other than "init" and
    "authorize" ([unexpected_message_uses_freed_session] shows the use of a freed session that can
    follow then).  New nonces are names that are not in use, and there is one local session. *)
Theorem auth_sessions_safe evs :
  possible_run evs start → ∃ st, run evs start = (Ok tt, st) ∧ accounted st.
Proof.
  intros Hp. destruct (auth_run_inv evs Hp) as (st & E & I). exists st. split; [done|]. by apply inv_accounted.
Qed.

(** C9: a cookie gives the service of its own session, and only after that session has sent
    its first message: in every state that can be reached, the session whose service a
    request is given is the one that has the cookie of the request, and it has been
    initialized, or it is the session of the local user. *)
Theorem cookie_opens_own_session evs r s st st' :
  possible_run evs start → run evs start = (Ok tt, st) →
  cockpit_auth_check_cookie g_base64_decode g_uri_unescape_segment r st = (Ok (Some s), st') →
  ∃ x k, heap st !! s = Some x ∧ cookie x = Some k ∧
    (k = LOCAL_SESSION ∨
     initialized x = true ∧ prefixb (bs "v=2;k=") k = true ∧
     ∃ app h v, cockpit_auth_parse_application (req_path r) = Some (app, h) ∧
       cockpit_web_request_parse_cookie g_uri_unescape_segment r (application_cookie_name app)
         = Ok (Some v) ∧ k = base64_decode_string g_base64_decode v).
Proof.
  intros Hp Hrun Hc. destruct (auth_run_inv evs Hp) as (st0 & E & I). assert (st0 = st) as -> by congruence.
  pose proof (i_linked _ _ _ _ I) as L.
  assert (Hin : ∀ k, sessions st !! k = Some s → ∃ x, heap st !! s = Some x ∧ cookie x = Some k ∧
    (k = LOCAL_SESSION ∨ initialized x = true ∧ prefixb (bs "v=2;k=") k = true)).
  { intros k Hk. destruct (l_cookie _ _ _ _ _ _ _ L k s Hk) as [|(v & Hv & Hvc)]; [done|].
    rewrite lookup_fmap in Hv. destruct (heap st !! s) as [x|] eqn:Hs; [|done]. injection Hv as <-.
    exists x. split_and!; [done|done|]. pose proof (view_lookup _ _ _ Hs) as Hv.
    destruct (l_init _ _ _ _ _ _ _ L s _ k Hv Hvc) as [|(A & _ & B)]; [by left|by right]. }
  assert (Hw : wp (cockpit_auth_check_cookie g_base64_decode g_uri_unescape_segment r)
    (λ a _, ∀ s, a = Some s →
       ∃ k, sessions st !! k = Some s ∧ requested g_base64_decode g_uri_unescape_segment r k) st).
  { apply (wp_check_cookie hmac g_base64_encode g_base64_decode g_path_get_basename g_shell_parse_argv
      g_uri_unescape_segment process_idle); auto. }
  unfold wp in Hw. rewrite Hc in Hw. destruct (Hw s eq_refl) as (k & Hk & Hor).
  destruct (Hin k Hk) as (x & Hs & Hx & Hi). exists x, k. split_and!; [done|done|].
  destruct Hi as [->|[A B]]; [by left|]. destruct Hor as [->|Hor]; [by left|]. by right.
Qed.
End Guarantees.

(** ** The secret of a login *)

(** What a session process has to ask for to be sent the secret [a] of the session [x]: the
    cookie [c] of its challenge goes into the answer. *)
Record asks_for (x : CockpitSession) (o : object) (c a challenge t t' : list Z) : Prop := {
  q_authorize : authorize x = Some o;
  q_cookie : cockpit_json_get_string o (bs "cookie") None = Some (Some c);
  q_challenge : cockpit_json_get_string o (bs "challenge") None = Some (Some challenge);
  q_response : cockpit_json_get_string o (bs "response") None ≠ None;
  q_type : type_of (Some challenge) = Some t;
  q_login_data : t ≠ bs "x-login-data";
  q_secret : authorization x = Some a;
  q_secret_type : type_of (Some a) = Some t';
  q_same : t = bs "*" ∨ t = t'
}.

(** The session process answers by itself: it gives a new secret. *)
Definition gives_secret (authorize : option object) (a : list Z) : Prop :=
  ∃ o, authorize = Some o ∧ cockpit_json_get_string o (bs "cookie") None = Some None ∧
    cockpit_json_get_string o (bs "challenge") None ≠ None ∧
    cockpit_json_get_string o (bs "response") None = Some (Some a).

(** Nothing is sent, and the secret is kept unless there is a new one. *)
Definition secret_not_sent (s : nat) (x : CockpitSession) (st st' : state) : Prop :=
  log st' = log st ∧
  (heap st' = heap st ∨
   ∃ a, gives_secret (authorize x) a ∧ heap st' = <[s := set_authorization (Some a) x]> (heap st)).

(** The secret is sent and forgotten, and nothing else changes. *)
Definition secret_sent (s : nat) (x : CockpitSession) (c a : list Z) (st st' : state) : Prop :=
  st' = set_heap (<[s := set_authorization None x]> (heap st))
          (set_log (log st ++ [Sent s (authorize_reply (Some c) (Some a))]) st).

Lemma wp_reply_secret s x st :
  heap st !! s = Some x →
  wp (reply_authorize_challenge s) (λ b st',
    (secret_not_sent s x st st' ∧ ∀ o c a ch t t', ¬ asks_for x o c a ch t t') ∨
    ∃ o c a ch t t', asks_for x o c a ch t t' ∧ b = true ∧ secret_sent s x c a st st') st.
Proof.
  intros Hs. set (R := λ b st', _ ∨ _). assert (Hsame : ∀ b, (∀ o c a ch t t', ¬ asks_for x o c a ch t t') → R b st).
  { intros b H. left. split; [by split; [|left]|done]. }
  apply wp_bind, (wp_get_session _ x); [done|].
  destruct (authorize x) as [o|] eqn:Eo; [|apply Hsame; intros * []; congruence].
  destruct (cockpit_json_get_string o (bs "cookie") None) as [ck|] eqn:Ec;
    [|apply Hsame; intros * []; congruence].
  destruct (cockpit_json_get_string o (bs "challenge") None) as [ch|] eqn:Eh;
    [|apply Hsame; intros * []; congruence].
  destruct (cockpit_json_get_string o (bs "response") None) as [rs|] eqn:Er;
    [|apply Hsame; intros * []; congruence].
  destruct ck as [ck|].
  2: { assert (Hno : ∀ o c a ch t t', ¬ asks_for x o c a ch t t') by (intros * []; congruence).
       destruct rs as [rs|]; [|by apply Hsame].
       apply wp_bind, (wp_upd_session _ _ x); [done|]. left. split; [|done]. split; [done|right].
       exists rs. split; [|done]. exists o. rewrite Eh. by split_and!. }
  destruct ch as [ch|].
  2: { assert (Hno : ∀ o c a ch t t', ¬ asks_for x o c a ch t t') by (intros * []; congruence).
       destruct rs; by apply Hsame. }
  destruct (type_of (Some ch)) as [t|] eqn:Et;
    [|destruct rs; apply Hsame; intros * []; congruence].
  destruct (decide (t = bs "x-login-data")) as [El|El].
  { assert (Hnot : ∀ o c a ch t t', ¬ asks_for x o c a ch t t') by (intros * []; congruence).
    destruct rs; apply wp_bind.
    all: destruct (cockpit_json_get_object o (bs "login-data") None) as [[d|]|]; try by apply Hsame.
    all: destruct (service x); [|by apply Hsame]; left; (split; [|done]); by split; [|left]. }
  destruct (authorization x) as [a|] eqn:Ea; [|destruct rs; apply Hsame; intros * []; congruence].
  destruct (type_of (Some a)) as [t'|] eqn:Ea'; [|destruct rs; apply Hsame; intros * []; congruence].
  destruct (decide (t = bs "*" ∨ t = t')) as [Hm|Hm];
    [|destruct rs; apply Hsame; intros * []; naive_solver congruence].
  assert (Hask : asks_for x o ck a ch t t') by (constructor; try done; congruence).
  destruct rs; apply wp_bind, wp_modify, wp_bind, (wp_upd_session _ _ x); try done; apply wp_ret; right.
  all: exists o, ck, a, ch, t, t'; by split_and!.
Qed.

(** C10: the secret of a login is sent when the session process asks for its type, or for
    any type, with a challenge that has a cookie, and not otherwise; without that the session keeps
    its secret, unless the process answers by itself with a new one.  Having been sent, the secret is
    forgotten and nothing else changes; whatever the session process asks for next, nothing is sent
    then, and the session has no secret again unless the process has given it a new one. *)
Theorem secret_sent_once s x st :
  heap st !! s = Some x →
  ∃ b st', reply_authorize_challenge s st = (Ok b, st') ∧
  ((secret_not_sent s x st st' ∧ ∀ o c a ch t t', ¬ asks_for x o c a ch t t') ∨
   ∃ o c a ch t t', asks_for x o c a ch t t' ∧ b = true ∧ secret_sent s x c a st st' ∧
     ∀ next, let x' := set_authorize next (set_authorization None x) in
       let asked := set_heap (<[s := x']> (heap st')) st' in
       ∃ b2 st2, reply_authorize_challenge s asked = (Ok b2, st2) ∧ secret_not_sent s x' asked st2).
Proof.
  intros Hs. assert (Hw : ∀ st x, heap st !! s = Some x → ∃ b st', reply_authorize_challenge s st = (Ok b, st') ∧
    ((secret_not_sent s x st st' ∧ ∀ o c a ch t t', ¬ asks_for x o c a ch t t') ∨
     ∃ o c a ch t t', asks_for x o c a ch t t' ∧ b = true ∧ secret_sent s x c a st st')).
  { intros st1 x1 H1. pose proof (wp_reply_secret s x1 st1 H1) as Hw. unfold wp in Hw.
    destruct (reply_authorize_challenge s st1) as [[b| |] st2]; [by exists b, st2|done..]. }
  destruct (Hw st x Hs) as (b & st' & E & [H|(o & c & a & ch & t & t' & A & B & C)]); exists b, st'; (split; [done|]); [by left|right].
  exists o, c, a, ch, t, t'. split_and!; try done. intros next x' asked.
  destruct (Hw asked x') as (b2 & st2 & E2 & [[H2 _]|(? & ? & ? & ? & ? & ? & [] & _)]); [by apply lookup_insert_eq|by exists b2, st2|done].
Qed.

(** ** How many logins may be under way *)

(** Of a hundred logins, how many are refused when [n] are under way. *)
Definition refused_percentage (g : settings) (n : Z) : Z :=
  (100 - max_startups_rate g) * (n - max_startups_begin g) / (max_startups g - max_startups_begin g)
  + max_startups_rate g.

(** C11: logins are limited as configured, whatever is configured: without a limit all are let in;
    up to the first number all are, above the last none, and in between the refused
    percentage grows with the line from the configured rate to 100, if the product that the
    code computes for it fits 32 bits.  There is no division by zero. *)
Theorem startups_limited `{Config} max loopback tls_proxy n r :
  let g := auth_settings max loopback tls_proxy in
  0 ≤ n < 2 ^ 32 → 0 ≤ r < 100 →
  (100 - max_startups_rate g) * (n - max_startups_begin g) < 2 ^ 32 →
  can_start_auth g n r =
    Some (if max_startups g =? 0 then true
          else if n <=? max_startups_begin g then true
          else if n >? max_startups g then false
          else refused_percentage g n <=? r) ∧
  (max_startups_begin g < n ≤ max_startups g → max_startups_rate g ≤ refused_percentage g n ≤ 100) ∧
  (max_startups_begin g < max_startups g → refused_percentage g (max_startups g) = 100).
Proof.
  intros g Hn Hr Hov. destruct (settings_range max loopback tls_proxy) as [[Hb Hm] Hrate].
  fold g in Hb, Hm, Hrate. clearbody g. unfold refused_percentage.
  set (b := max_startups_begin g) in *. set (m := max_startups g) in *. set (q := max_startups_rate g) in *.
  assert (Hq : b < n ≤ m → 0 ≤ (100 - q) * (n - b) / (m - b) ≤ 100 - q).
  { intros Hbn. split; [apply Z.div_pos; nia|]. apply Z.div_le_upper_bound; nia. }
  split_and!.
  - unfold can_start_auth. fold b m q. cbv zeta. destruct (m =? 0); [done|].
    destruct (n <=? b) eqn:E1; [done|]. destruct (n >? m) eqn:E2; [done|]. to_prop.
    specialize (Hq ltac:(lia)). destruct (q =? 100) eqn:E3; to_prop.
    + rewrite E3 in *. do 2 f_equal. symmetry. apply Z.leb_gt. lia.
    + assert (U : ∀ z, 0 ≤ z < 2 ^ 32 → u32 z = z) by (intros; apply Z.mod_small; lia).
      rewrite (U (100 - q)), (U (n - b)), (U ((100 - q) * (n - b))), (U (m - b)) by nia.
      rewrite (proj2 (Z.eqb_neq (m - b) 0)) by lia. rewrite (U (_ / _)) by lia.
      unfold s32. rewrite U by lia. f_equal.
      replace (_ + q + 2 ^ 31 - 2 ^ 31) with ((100 - q) * (n - b) / (m - b) + q) by lia.
      apply eq_true_iff_eq. rewrite negb_true_iff, Z.ltb_ge, Z.leb_le. done.
  - lia.
  - intros Hbm. rewrite Z.div_mul by lia. lia.
Qed.

(** ** Examples *)

Module Demo.
#[local] Instance no_config : Config := λ _ _, None.
Definition hmac (n : Z) : list Z := bs "nonce" ++ render_u32 n.
Definition heap_garbage (n : nat) : list Z := replicate n 205.

Definition encode (s : list Z) : list Z := drop 6 s.
Definition decode (s : list Z) : list Z := bs "v=2;k=" ++ s.

Definition request (path : list Z) (hs : headers) : CockpitWebRequest :=
  mkRequest path hs (Some (mkIo 7 true None (Some (bs "1.2.3.4")))) None.

Definition basic : CockpitWebRequest :=
  request (bs "/cockpit/login") [(bs "Authorization", bs "Basic c2NydWZmeTp6ZXJvZw==")].

Definition challenge : object :=
  [(bs "command", JString (bs "authorize")); (bs "cookie", JString (bs "c1"));
   (bs "challenge", JString (bs "*"))].

(** A login, the challenge and the first message of its session, and the callback; then a
    request with the cookie. *)
Definition events : list event :=
  [Login 3 true basic; ControlMessage 2 (bs "authorize") challenge; ControlMessage 2 (bs "init") [];
   TaskCallback 1;
   CheckCookie (request (bs "/cockpit/socket") [(bs "Cookie", bs "cockpit=nonce1")])].

Notation g := (auth_settings None false false).
Notation run now := (run g hmac encode decode id (λ c, Some [c]) Some heap_garbage 90 true now false).
Notation possible_run now := (possible_run g hmac encode decode id (λ c, Some [c]) Some heap_garbage 90 true now false).
Notation start := (cockpit_auth_init 90).

Lemma names : programs_named id (λ c, Some [c]) true.
Proof.
  intros r c host section_ type p. unfold session_program. cbn [no_config conf_string].
  destruct (bool_decide _); [by intros [= <-]|]. destruct (decide _); [by intros [= <-]|done].
Qed.

Lemma unused st :
  sessions st !! cookie_key hmac (nonce_seed st) = None →
  sessions st !! cookie_key hmac (u64 (nonce_seed st + 1)) = None → conversations st = ∅ →
  ∀ s x, heap st !! s = Some x → fresh_names hmac st s.
Proof. intros H1 H2 H3 s x _. by constructor; [| |rewrite H3|rewrite H3]. Qed.

Ltac names_unused := apply unused; vm_compute; reflexivity.

Lemma own st s options : conversation_of options = None → own_conversation st s options.
Proof. intros E c s' Hc. by rewrite E in Hc. Qed.

Lemma events_possible : possible_run false events start.
Proof.
  unfold events. cbn [AuthRun.possible_run].
  split; [split; [names_unused|done]|].
  split; [split; [names_unused|split; [by_decide|split; [by apply own|done]]]|].
  split; [split; [names_unused|split; [by_decide|split; [by apply own|done]]]|].
  split; [split; [names_unused|vm_compute; by do 2 eexists]|].
  split; [split; [names_unused|done]|done].
Qed.
Lemma auth_sessions_safe_witness :
  ∃ st, run false events start = (Ok tt, st) ∧ accounted st.
Proof.
  apply (auth_sessions_safe None false false hmac encode decode id (λ c, Some [c]) Some heap_garbage
    90 true false false (λ n, length_replicate n 205) names events events_possible).
Defined.

Definition last_request : CockpitWebRequest :=
  request (bs "/cockpit/socket") [(bs "Cookie", bs "cockpit=nonce1")].

Lemma cookie_opens_own_session_witness :
  let st := (run false events start).2 in
  ∃ x k, heap st !! 2%nat = Some x ∧ cookie x = Some k ∧
    (k = LOCAL_SESSION ∨
     initialized x = true ∧ prefixb (bs "v=2;k=") k = true ∧
     ∃ app h v, cockpit_auth_parse_application (req_path last_request) = Some (app, h) ∧
       cockpit_web_request_parse_cookie Some last_request (application_cookie_name app)
         = Ok (Some v) ∧ k = base64_decode_string decode v).
Proof.
  intros st. apply (cookie_opens_own_session None false false hmac encode decode id (λ c, Some [c]) Some
    heap_garbage 90 true false false (λ n, length_replicate n 205) names events last_request 2%nat st
    (cockpit_auth_check_cookie decode Some last_request st).2 events_possible); vm_compute; reflexivity.
Defined.

(** The state in which the session process has asked for the secret, which is sent. *)
Definition asked : state :=
  let st := (run false (take 1 events) start).2 in
  set_heap (alter (set_authorize (Some challenge)) 2%nat (heap st)) st.

Lemma secret_sent_once_witness :
  let st := asked in let r := reply_authorize_challenge 2 st in
  ∃ x, heap st !! 2%nat = Some x ∧ log r.2 ≠ log st ∧
    ∃ b st', reply_authorize_challenge 2 st = (Ok b, st') ∧
    ((secret_not_sent 2 x st st' ∧ ∀ o c a ch t t', ¬ asks_for x o c a ch t t') ∨
     ∃ o c a ch t t', asks_for x o c a ch t t' ∧ b = true ∧ secret_sent 2 x c a st st' ∧
       ∀ next, let x' := set_authorize next (set_authorization None x) in
         let asked := set_heap (<[2%nat := x']> (heap st')) st' in
         ∃ b2 st2, reply_authorize_challenge 2 asked = (Ok b2, st2) ∧ secret_not_sent 2 x' asked st2).
Proof.
  intros st r. eexists. split; [vm_compute; reflexivity|]. split; [by vm_compute|].
  apply (secret_sent_once 2). vm_compute. reflexivity.
Defined.

Lemma startups_limited_witness :
  let g := auth_settings (Some (bs "10:30:60")) false false in
  can_start_auth g 35 50 = Some false ∧ can_start_auth g 35 80 = Some true ∧
  can_start_auth g 35 50 =
    Some (if max_startups g =? 0 then true
          else if 35 <=? max_startups_begin g then true
          else if 35 >? max_startups g then false
          else refused_percentage g 35 <=? 50).
Proof.
  intros g. split_and!; [by vm_compute..|].
  apply (startups_limited (Some (bs "10:30:60")) false false 35 50); [lia|lia|by vm_compute].
Defined.

(** ** What goes wrong *)

(** A message that a session process must not send before its first one closes the transport;
    where that is noticed at once, and the waiting request answered at once, the session is
    gone when the handler of the message goes on to look at who waits for it. *)
Theorem unexpected_message_uses_freed_session :
  let handle := handle g hmac encode decode id (λ c, Some [c]) Some heap_garbage 90 true true true in
  (handle (Login 3 true basic) start).1 = Ok tt ∧
  (handle (ControlMessage 2 (bs "bogus") []) (handle (Login 3 true basic) start).2).1 = Fault.
Proof. split; vm_compute; reflexivity. Qed.

(** A process that asks for a conversation by the name of one that is under way: the session of
    that one loses its entry and ends, and the entry of the new one is removed with it, so that
    neither login can go on. *)
Definition conversing : object :=
  [(bs "command", JString (bs "authorize")); (bs "cookie", JString (bs "c1"));
   (bs "challenge", JString (bs "X-Conversation abc cHJvbXB0"))].

Lemma conversation_taken_over :
  let first := [Login 3 true basic; ControlMessage 2 (bs "authorize") conversing; TaskCallback 1] in
  let st := (run false first start).2 in
  let r := run false (first ++ [Login 3 true basic; ControlMessage 6 (bs "authorize") conversing; TaskCallback 5]) start in
  conversations st !! bs "abc" = Some 2%nat ∧ is_Some (heap st !! 2%nat) ∧ r.1 = Ok tt ∧
  conversations r.2 !! bs "abc" = None ∧ heap r.2 !! 2%nat = None ∧ heap r.2 !! 6%nat = None.
Proof. cbv zeta. split_and!; vm_compute; try done. by eexists. Qed.

Definition negotiate : CockpitWebRequest :=
  request (bs "/cockpit/login") [(bs "Authorization", bs "Negotiate YQ==")].

Definition unavailable : object := [(bs "problem", JString (bs "authentication-unavailable"))].

(** That Negotiate is not available is only noticed for a session process that has not asked
    for the secret: once it has been sent, it is forgotten, and its type with it. *)
Theorem negotiate_unavailable_missed :
  gssapi_available (run false [Login 3 true negotiate; ControlMessage 2 (bs "authorize") challenge;
                               ControlMessage 2 (bs "init") unavailable] start).2 = -1 ∧
  gssapi_available (run false [Login 3 true negotiate;
                               ControlMessage 2 (bs "init") unavailable] start).2 = 0.
Proof. split; vm_compute; reflexivity. Qed.
End Demo.
