(* ===== verification/Transport.v ===== *)
(** * Transports: [src/common/cockpittransport.c] and [src/common/cockpitpipetransport.c]

    Messages between the parts of Cockpit: a payload in a channel, or a control message, which
    is JSON without a channel.  Parsing and building of messages, the framing on a pipe, and
    channels that are frozen for a while.  What happens to a message that has been received is
    a parameter of the reader ([recv]); the parser of json-glib is one too.  Memory of frozen
    channel names is told apart by number, because the code compares pointers. *)

From S2P Require Import Prelude Frame JsonPrint Json.
From Stdlib Require Import Floats.SpecFloat.
#[local] Open Scope Z_scope.

(** ** Messages *)

(** [None] for a message that is not valid; otherwise the channel, if any, and the payload. *)
Definition parse_frame (data : list Z) : option (option (list Z) * list Z) :=
  match list_find (λ c, c = 10) data with
  | None => None
  | Some (channel_len, _) =>
      if bool_decide (0 ∈ take channel_len data) then None
      else
        let channel := if (channel_len =? 0)%nat then None else Some (take channel_len data) in
        Some (channel, drop (S channel_len) data)
  end.

Definition cockpit_transport_parse_frame (message : list Z) := parse_frame message.

(** A channel of a control message: not empty, and on one line. *)
Definition channel_valid (channel : list Z) : bool :=
  negb (bool_decide (channel = [])) && bool_decide (strcspn channel [10] = length channel).

Section Json.
Context (json_parser : list Z → option (option json)) (dtostr : spec_float → list Z).

(** The command, the channel and the options. *)
Definition cockpit_transport_parse_command (payload : list Z)
    : option (list Z * option (list Z) * object) :=
  match cockpit_json_parse_bytes json_parser payload with
  | None => None
  | Some options =>
      match cockpit_json_get_string options (bs "command") None with
      | Some (Some command) =>
          if bool_decide (command = []) then None
          else
            match cockpit_json_get_string options (bs "channel") None with
            | Some (Some channel) =>
                if channel_valid channel then Some (command, Some channel, options) else None
            | Some None => Some (command, None, options)
            | None => None
            end
      | _ => None
      end
  end.

(** Names with their values, of which the missing ones are left out. *)
Definition cockpit_transport_build_json (members : list (list Z * option (list Z))) : object :=
  foldl (λ o m, match m.2 with
                | Some value => json_object_set_member o m.1 (JString value)
                | None => o
                end) [] members.

Definition cockpit_transport_build_control (members : list (list Z * option (list Z))) : list Z :=
  cockpit_json_write_bytes dtostr (cockpit_transport_build_json members).

(** Whether the message has been handled, and what is sent in answer. *)
Definition cockpit_transport_default_control (command : list Z) (channel : option (list Z))
    (options : object) : bool * option (list Z) :=
  match channel with
  | Some _ => (false, None)
  | None =>
      if decide (command = bs "ping") then
        (true, Some (cockpit_json_write_bytes dtostr
                       (json_object_set_member options (bs "command") (JString (bs "pong")))))
      else if decide (command = bs "pong") then (true, None)
      else (false, None)
  end.
End Json.

(** ** Messages on a pipe *)

(** [G_GSIZE_FORMAT] *)
Definition render_size (n : Z) : list Z := digits_fuel 20 (u64 n).

(** What [cockpit_pipe_transport_send] writes to the pipe of a transport that is open. *)
Definition pipe_message (channel_id : option (list Z)) (payload : list Z) : list Z :=
  let channel := default [] channel_id in
  (render_size (u64 (zlen channel + 1 + zlen payload)) ++ [10] ++ channel ++ [10]) ++ payload.

Record pipe_transport := mkPipeTransport { pt_closed : bool; pt_written : list Z }.

Definition cockpit_pipe_transport_send (channel_id : option (list Z)) (payload : list Z)
    (self : pipe_transport) : pipe_transport :=
  if pt_closed self then self
  else mkPipeTransport false (pt_written self ++ pipe_message channel_id payload).

Section Read.
Context {S : Type} (closed : S → bool) (recv : option (list Z) → list Z → S → S).

(** The loop: what is left of the input, the state and the problem that closes the pipe. *)
Fixpoint read_loop (fuel : nat) (input : list Z) (self : S) : list Z * S * option (list Z) :=
  match fuel with
  | O => (input, self, None)
  | Datatypes.S fuel' =>
      if closed self then (input, self, None)
      else
        let '(size, i) := cockpit_frame_parse input in
        if size =? 0 then (input, self, None)
        else if size <? 0 then (input, self, Some (bs "protocol-error"))
        else
          let i := default 0%nat i in
          if zlen input <? Z.of_nat i + size then (input, self, None)
          else
            let message := take (Z.to_nat size) (drop i input) in
            let input := drop (i + Z.to_nat size) input in
            let self := match cockpit_transport_parse_frame message with
                        | Some (channel, payload) => recv channel payload self
                        | None => self
                        end in
            read_loop fuel' input self
  end.

(** The problems with which the pipe is closed, in their order, after what is left and the state. *)
Definition cockpit_transport_read_from_pipe (input : list Z) (end_of_data : bool) (self : S)
    : list Z * S * list (list Z) :=
  let '(input, self, problem) := read_loop (length input + 1) input self in
  (input, self,
   option_list problem ++
   (if end_of_data && (zlen input >? 0) then [bs "disconnected"] else [])).
End Read.

(** How the end of the pipe's process is reported: the [child] is there if the pipe has one. *)
Inductive wait_status := Signaled (termsig : Z) | Exited (status : Z).

Definition SIGHUP : Z := 1.
Definition SIGTERM : Z := 15.

Definition has_suffix (s suffix : list Z) : bool := prefixb (rev suffix) (rev s).

Definition closed_problem (name : list Z) (child : option wait_status) (problem : option (list Z))
    : option (list Z) :=
  match child with
  | None => problem
  | Some status =>
      let is_cockpit := bool_decide (name = bs "cockpit-bridge") ||
                        has_suffix name (bs "/cockpit-session") in
      if decide (problem = None ∨ problem = Some (bs "internal-error")) then
        match status with
        | Signaled sig =>
            if (sig =? SIGTERM) || (sig =? SIGHUP) then Some (bs "terminated")
            else Some (bs "internal-error")
        | Exited code =>
            if is_cockpit && (code =? 127) then Some (bs "no-cockpit")
            else if is_cockpit && (code =? 1) then Some (bs "access-denied")
            else if code =? 255 then Some (bs "terminated")
            else if code =? 0 then problem
            else Some (bs "internal-error")
        end
      else if decide (problem = Some (bs "not-found")) then
        if is_cockpit then Some (bs "no-cockpit") else problem
      else problem
  end.

(** ** Frozen channels *)

Record FrozenMessage := mkFrozen {
  frozen_channel : nat;                  (* the memory of the key of [freeze] *)
  frozen_control : option object;
  frozen_data : list Z
}.

Inductive emission :=
| RECV (channel : option (list Z)) (data : list Z)
| CONTROL (command : option (list Z)) (channel : option (list Z)) (options : object) (data : list Z).

Record transport := mkTransport {
  freeze : gmap (list Z) nat;
  frozen : list FrozenMessage;
  fresh_key : nat;
  emitted : list emission                (* what the handlers have been given, in order *)
}.

Definition new_transport : transport := mkTransport ∅ [] 0 [].

Definition emit_signal (e : emission) (self : transport) : transport :=
  mkTransport (freeze self) (frozen self) (fresh_key self) (emitted self ++ [e]).

(** [None] if the message is not to be kept. *)
Definition maybe_freeze_message (channel : option (list Z)) (control : option object) (data : list Z)
    (self : transport) : option transport :=
  channel ← channel;
  key ← freeze self !! channel;
  Some (mkTransport (freeze self) (frozen self ++ [mkFrozen key control data]) (fresh_key self)
          (emitted self)).

Definition cockpit_transport_emit_recv (channel : option (list Z)) (data : list Z) (self : transport)
    : transport :=
  match maybe_freeze_message channel None data self with
  | Some self => self
  | None => emit_signal (RECV channel data) self
  end.

Definition cockpit_transport_emit_control (command channel : option (list Z)) (options : object)
    (data : list Z) (self : transport) : transport :=
  match maybe_freeze_message channel (Some options) data self with
  | Some self => self
  | None => emit_signal (CONTROL command channel options data) self
  end.

(** [g_hash_table_add] with a key that is there frees the old one. *)
Definition cockpit_transport_freeze (channel : list Z) (self : transport) : transport :=
  mkTransport (<[channel := fresh_key self]> (freeze self)) (frozen self) (S (fresh_key self))
    (emitted self).

(** The loop over the frozen messages: those with the stolen key are emitted and taken out. *)
Fixpoint thaw_loop (stolen : option nat) (channel : list Z) (l : list FrozenMessage)
    (self : transport) : list FrozenMessage * transport :=
  match l with
  | [] => ([], self)
  | m :: l =>
      if decide (stolen = Some (frozen_channel m)) then
        let self :=
          match frozen_control m with
          | Some options =>
              let command := default None (cockpit_json_get_string options (bs "command") None) in
              cockpit_transport_emit_control command (Some channel) options (frozen_data m) self
          | None => cockpit_transport_emit_recv (Some channel) (frozen_data m) self
          end in
        thaw_loop stolen channel l self
      else
        let '(kept, self) := thaw_loop stolen channel l self in (m :: kept, self)
  end.

Definition cockpit_transport_thaw (channel : list Z) (self : transport) : transport :=
  let stolen := freeze self !! channel in
  let self := mkTransport (delete channel (freeze self)) (frozen self) (fresh_key self) (emitted self) in
  let '(kept, self) := thaw_loop stolen channel (frozen self) self in
  mkTransport (freeze self) kept (fresh_key self) (emitted self).

(** ** Reading what has been sent *)

(** A message that can be sent: its channel is on one line, and its length has at most eight digits. *)
Definition sendable (m : option (list Z) * list Z) : Prop :=
  (∀ c, m.1 = Some c → c ≠ []) ∧ Forall (λ b, b ≠ 10 ∧ b ≠ 0) (default [] m.1) ∧
  zlen (default [] m.1) + 1 + zlen m.2 < 10 ^ 8.

Definition message_size (m : option (list Z) * list Z) : Z := zlen (default [] m.1) + 1 + zlen m.2.

Definition message_body (m : option (list Z) * list Z) : list Z := default [] m.1 ++ [10] ++ m.2.

Lemma message_body_length m : zlen (message_body m) = message_size m.
Proof. unfold message_body, message_size. autorewrite with zlen. lia. Qed.

Lemma message_size_pos m : 0 < message_size m.
Proof. unfold message_size. pose proof (zlen_nonneg (default [] m.1)). pose proof (zlen_nonneg m.2). lia. Qed.

Lemma pipe_message_eq m : sendable m →
  ∃ ds, pipe_message m.1 m.2 = ds ++ 10 :: message_body m ∧
    canonical ds ∧ (length ds ≤ 8)%nat ∧ dec_value ds = message_size m.
Proof.
  intros (_ & _ & Hs). pose proof (message_size_pos m) as Hp.
  change (message_size m < 10 ^ 8) in Hs.
  exists (render_size (message_size m)). unfold pipe_message, render_size. cbv zeta.
  fold (message_size m).
  assert (Hu : u64 (message_size m) = message_size m) by (apply Z.mod_small; lia).
  rewrite !Hu. split_and!.
  - unfold message_body. by rewrite <- !app_assoc.
  - apply digits_fuel_canonical. change (Z.of_nat 20) with 20. lia.
  - apply digits_fuel_length; [lia|]. change (Z.of_nat 8) with 8. lia.
  - apply digits_fuel_value. change (Z.of_nat 20) with 20. lia.
Qed.

Lemma parse_frame_message m : sendable m → parse_frame (message_body m) = Some m.
Proof.
  intros (Hne & Hb & _). unfold parse_frame, message_body.
  assert (E : list_find (λ c, c = 10) (default [] m.1 ++ [10] ++ m.2) = Some (length (default [] m.1), 10)).
  { cbn [app]. apply list_find_Some. split_and!; [by rewrite list_lookup_middle|done|].
    intros j y Hj Hlt. rewrite lookup_app_l in Hj by done.
    by destruct (proj1 (Forall_lookup _ _) Hb j y Hj). }
  rewrite E, take_app_length. cbn [app].
  replace (S (length (default [] m.1))) with (length (default [] m.1) + 1)%nat by lia.
  rewrite <- drop_drop, drop_app_length. cbn [drop].
  rewrite bool_decide_eq_false_2.
  2: { intros Hin. by destruct (proj1 (Forall_forall _ _) Hb 0 Hin). }
  destruct m as [[c|] p]; cbn in *; [|done].
  destruct c as [|x c]; [by destruct (Hne [])|done].
Qed.

Section Reader.
Context {St : Type} (recv : option (list Z) → list Z → St → St).

Notation loop := (read_loop (λ _ : St, false) recv).

Lemma read_one fuel m rest st : sendable m →
  loop (S fuel) (pipe_message m.1 m.2 ++ rest) st = loop fuel rest (recv m.1 m.2 st).
Proof.
  intros Hm. destruct (pipe_message_eq m Hm) as (ds & E & Hc & Hl & Hv).
  pose proof (message_size_pos m) as Hp. pose proof (message_body_length m) as Hb.
  rewrite E, <- app_assoc. cbn [read_loop app].
  rewrite frame_parse_complete, Hv by done. cbn [default id].
  rewrite (proj2 (Z.eqb_neq _ 0)), (proj2 (Z.ltb_ge _ 0)) by lia.
  assert (Hdrop : drop (S (length ds)) (ds ++ 10 :: message_body m ++ rest) = message_body m ++ rest).
  { replace (S (length ds)) with (length ds + 1)%nat by lia. by rewrite <- drop_drop, drop_app_length. }
  assert (Hn : Z.to_nat (message_size m) = length (message_body m)) by (unfold zlen in Hb; lia).
  rewrite (proj2 (Z.ltb_ge _ _)).
  2: { autorewrite with zlen. rewrite Hb. pose proof (zlen_nonneg rest). unfold zlen in *. lia. }
  rewrite <- (drop_drop _ _ (S (length ds))), Hdrop, Hn, take_app_length, drop_app_length.
  unfold cockpit_transport_parse_frame. rewrite parse_frame_message by done. by destruct m.
Qed.

(** A message that has not come in whole is waited for. *)
Lemma read_partial fuel m input more rest st : sendable m →
  input ++ more = pipe_message m.1 m.2 ++ rest → zlen input < zlen (pipe_message m.1 m.2) →
  loop fuel input st = (input, st, None).
Proof.
  intros Hm Hin Hlt. destruct fuel as [|fuel]; [done|].
  destruct (pipe_message_eq m Hm) as (ds & E & Hc & Hl & Hv).
  pose proof (message_size_pos m) as Hp. pose proof (message_body_length m) as Hb.
  rewrite E in *. cbn [read_loop].
  destruct (decide (length input ≤ length ds)%nat) as [Hle|Hgt].
  - assert (Hpre : input = take (length input) ds).
    { apply (f_equal (take (length input))) in Hin. rewrite take_app_length in Hin. rewrite Hin at 1.
      rewrite <- app_assoc, take_app_le by done. done. }
    rewrite frame_parse_digits; [done| |lia]. destruct Hc as [Hd _].
    rewrite Hpre. by apply Forall_take.
  - assert (Hpre : ∃ b, input = ds ++ 10 :: b).
    { apply (f_equal (take (length input))) in Hin. rewrite take_app_length in Hin.
      rewrite <- app_assoc, take_app_ge in Hin by lia.
      destruct (length input - length ds)%nat as [|n] eqn:En; [lia|]. cbn in Hin. eauto. }
    destruct Hpre as [b ->]. rewrite frame_parse_complete, Hv by done. cbn [default id].
    rewrite (proj2 (Z.eqb_neq _ 0)), (proj2 (Z.ltb_ge _ 0)) by lia.
    rewrite (proj2 (Z.ltb_lt _ _)); [done|].
    autorewrite with zlen in *. unfold zlen in *. lia.
Qed.
End Reader.

(** ** What is sent on a pipe is received *)

Abbreviation message := (option (list Z) * list Z)%type.

Definition stream (msgs : list message) : list Z := msgs ≫= λ m, pipe_message m.1 m.2.

Notation record_loop := (read_loop (λ _ : list message, false) (λ c p log, log ++ [(c, p)])).

Lemma pipe_message_long m : 2 ≤ zlen (pipe_message m.1 m.2).
Proof.
  unfold pipe_message. autorewrite with zlen. pose proof (zlen_nonneg (default [] m.1)).
  pose proof (zlen_nonneg m.2). match goal with |- context [zlen (render_size ?n)] => pose proof (zlen_nonneg (render_size n)) end. lia.
Qed.

(** Of a part of the stream, the messages that it holds whole are received. *)
Lemma read_part fuel msgs input more log :
  Forall sendable msgs → input ++ more = stream msgs → (length input < fuel)%nat →
  ∃ k r, record_loop fuel input log = (r, log ++ take k msgs, None) ∧
    r ++ more = stream (drop k msgs) ∧
    match drop k msgs with [] => r = [] | m :: _ => zlen r < zlen (pipe_message m.1 m.2) end.
Proof.
  revert msgs input log. induction fuel as [|fuel IH]; intros msgs input log Hm Hin Hf; [lia|].
  destruct msgs as [|m msgs].
  { exists 0%nat, []. apply app_nil in Hin as [-> ->]. by rewrite app_nil_r. }
  apply Forall_cons in Hm as [Hm Hms]. change (stream (m :: msgs)) with (pipe_message m.1 m.2 ++ stream msgs) in *.
  destruct (decide (zlen input < zlen (pipe_message m.1 m.2))) as [Hlt|Hge].
  - exists 0%nat, input. rewrite (read_partial _ _ m _ more (stream msgs)) by done.
    by rewrite app_nil_r.
  - assert (Hpre : ∃ rest, input = pipe_message m.1 m.2 ++ rest ∧ rest ++ more = stream msgs).
    { exists (drop (length (pipe_message m.1 m.2)) input).
      unfold zlen in Hge. split.
      - apply (f_equal (take (length (pipe_message m.1 m.2)))) in Hin.
        rewrite take_app_length, take_app_le in Hin by lia. by rewrite <- Hin at 1; rewrite take_drop.
      - apply (f_equal (drop (length (pipe_message m.1 m.2)))) in Hin.
        by rewrite drop_app_length, drop_app_le in Hin by lia. }
    destruct Hpre as (rest & -> & Hrest). rewrite read_one by done.
    destruct (IH msgs rest (log ++ [(m.1, m.2)])) as (k & r & E & Hr & Hsh); [done|done| |].
    { rewrite length_app in Hf. pose proof (pipe_message_long m). unfold zlen in *. lia. }
    exists (S k), r. rewrite E. cbn [take drop]. split_and!; [|done|done]. rewrite <- app_assoc. by destruct m.
Qed.

(** The reader of a transport is given the input in pieces. *)
Definition on_pipe_read (chunk : list Z) (st : list Z * list message * list (list Z))
    : list Z * list message * list (list Z) :=
  let '(buffer, log, problems) := st in
  let '(buffer, log, problems') :=
    cockpit_transport_read_from_pipe (λ _, false) (λ c p log, log ++ [(c, p)]) (buffer ++ chunk) false log in
  (buffer, log, problems ++ problems').

Lemma on_pipe_read_eq chunk buffer log log' r problems :
  record_loop (length (buffer ++ chunk) + 1) (buffer ++ chunk) log = (r, log', None) →
  on_pipe_read chunk (buffer, log, problems) = (r, log', problems).
Proof.
  intros E. unfold on_pipe_read, cockpit_transport_read_from_pipe. rewrite E. cbn. by rewrite app_nil_r.
Qed.

Lemma feed_part msgs chunks buffer log :
  Forall sendable msgs → buffer ++ concat chunks = stream msgs →
  ∃ k r, foldl (λ st chunk, on_pipe_read chunk st) (buffer, log, []) chunks = (r, log ++ take k msgs, []) ∧
    (chunks ≠ [] → r = [] ∧ drop k msgs = []) ∧ (chunks = [] → r = buffer ∧ k = 0%nat).
Proof.
  revert msgs buffer log. induction chunks as [|chunk chunks IH]; intros msgs buffer log Hm Hin.
  { exists 0%nat, buffer. cbn. by rewrite app_nil_r. }
  cbn [foldl concat] in *. rewrite app_assoc in Hin.
  destruct (read_part (length (buffer ++ chunk) + 1) msgs (buffer ++ chunk) (concat chunks) log)
    as (k & r & E & Hr & Hsh); [done|done|lia|].
  rewrite (on_pipe_read_eq _ _ _ _ _ _ E).
  destruct (IH (drop k msgs) r (log ++ take k msgs)) as (k' & r' & E' & Hr1 & Hr2); [by apply Forall_drop|done|].
  exists (k + k')%nat, r'. rewrite E'. split_and!; [|intros _|done].
  - by rewrite <- app_assoc, <- take_take_drop.
  - destruct chunks as [|c chunks].
    + destruct (Hr2 eq_refl) as [-> ->]. rewrite Nat.add_0_r. cbn in Hr. rewrite app_nil_r in Hr. subst r.
      destruct (drop k msgs) as [|m ms]; [done|]. exfalso.
      change (stream (m :: ms)) with (pipe_message m.1 m.2 ++ stream ms) in Hsh.
      rewrite zlen_app in Hsh. pose proof (zlen_nonneg (stream ms)). lia.
    + destruct Hr1 as [-> Hd]; [done|]. by rewrite drop_drop in Hd.
Qed.

Definition send_messages (msgs : list message) : pipe_transport :=
  foldl (λ t m, cockpit_pipe_transport_send m.1 m.2 t) (mkPipeTransport false []) msgs.

Lemma send_messages_stream msgs : pt_written (send_messages msgs) = stream msgs.
Proof.
  unfold send_messages.
  assert (H : ∀ w, foldl (λ t m, cockpit_pipe_transport_send m.1 m.2 t) (mkPipeTransport false w) msgs
            = mkPipeTransport false (w ++ stream msgs)).
  { induction msgs as [|m msgs IH]; intros w; cbn; [by rewrite app_nil_r|].
    rewrite IH, <- app_assoc. done. }
  by rewrite H.
Qed.

(** C26: what is sent on a pipe is received: whatever messages a transport sends, with or
    without channels and with any bytes in their payloads, and into whatever pieces the pipe
    cuts them, the transport at the other end hands on exactly these messages, in their order,
    keeps nothing back, and never closes the pipe. *)
Theorem pipe_transport_roundtrip msgs chunks :
  Forall sendable msgs → concat chunks = pt_written (send_messages msgs) →
  foldl (λ st chunk, on_pipe_read chunk st) ([], [], []) chunks = ([], msgs, []).
Proof.
  intros Hm Hc. rewrite send_messages_stream in Hc.
  destruct (feed_part msgs chunks [] []) as (k & r & E & H1 & H2); [done|done|].
  rewrite E. destruct chunks as [|c chunks].
  - destruct (H2 eq_refl) as [-> ->]. destruct msgs as [|m msgs]; [done|]. exfalso.
    pose proof (pipe_message_long m). apply (f_equal zlen) in Hc.
    change (stream (m :: msgs)) with (pipe_message m.1 m.2 ++ stream msgs) in Hc.
    rewrite zlen_app in Hc. pose proof (zlen_nonneg (stream msgs)). change (zlen (concat [])) with 0 in Hc. lia.
  - destruct H1 as [-> Hd]; [done|]. assert (Ht : take k msgs = msgs).
    { rewrite <- (take_drop k msgs) at 2. by rewrite Hd, app_nil_r. }
    cbn [app]. by rewrite Ht.
Qed.

(** *** Frozen channels *)

Inductive transport_event :=
| Recv (channel : option (list Z)) (data : list Z)
| Control (command channel : option (list Z)) (options : object) (data : list Z)
| Freeze (channel : list Z)
| Thaw (channel : list Z).

Definition handle_transport (self : transport) (e : transport_event) : transport :=
  match e with
  | Recv channel data => cockpit_transport_emit_recv channel data self
  | Control command channel options data => cockpit_transport_emit_control command channel options data self
  | Freeze channel => cockpit_transport_freeze channel self
  | Thaw channel => cockpit_transport_thaw channel self
  end.

(** What a message says, without its channel. *)
Definition content := (option object * list Z)%type.

Definition emission_in (c : list Z) (e : emission) : list content :=
  match e with
  | RECV ch d => if decide (ch = Some c) then [(None, d)] else []
  | CONTROL _ ch o d => if decide (ch = Some c) then [(Some o, d)] else []
  end.

Definition received_in (c : list Z) (e : transport_event) : list content :=
  match e with
  | Recv ch d => if decide (ch = Some c) then [(None, d)] else []
  | Control _ ch o d => if decide (ch = Some c) then [(Some o, d)] else []
  | _ => []
  end.

Definition kept_in (key : option nat) (m : FrozenMessage) : list content :=
  if decide (key = Some (frozen_channel m)) then [(frozen_control m, frozen_data m)] else [].

Definition delivered (c : list Z) (self : transport) : list content := emitted self ≫= emission_in c.
Definition pending (c : list Z) (self : transport) : list content :=
  frozen self ≫= kept_in (freeze self !! c).

(** The keys of frozen messages are those of frozen channels, one each. *)
Record keys_ok (self : transport) : Prop := {
  k_unique c c' k : freeze self !! c = Some k → freeze self !! c' = Some k → c = c';
  k_old c k : freeze self !! c = Some k → (k < fresh_key self)%nat;
  k_frozen m : m ∈ frozen self → ∃ c, freeze self !! c = Some (frozen_channel m)
}.

Lemma unfrozen_nothing_pending c self : freeze self !! c = None → pending c self = [].
Proof.
  intros E. unfold pending. rewrite E. induction (frozen self) as [|m l IH]; [done|].
  cbn. rewrite IH. unfold kept_in. by rewrite decide_False.
Qed.

(** A message in a channel is delivered, or kept as the last of its channel. *)
Lemma emit_or_keep c channel control data e self :
  emission_in c e = (if decide (channel = Some c) then [(control, data)] else []) → keys_ok self →
  let self' := default (emit_signal e self) (maybe_freeze_message channel control data self) in
  keys_ok self' ∧
  (delivered c self' ++ pending c self' = (delivered c self ++ pending c self) ++
    (if decide (channel = Some c) then [(control, data)] else [])).
Proof.
  intros He [K1 K2 K3] self'. unfold self', maybe_freeze_message, emit_signal, delivered, pending.
  destruct channel as [ch|]; cbn.
  2: { split; [by constructor|]. rewrite bind_app. cbn. rewrite app_nil_r, He.
       rewrite (decide_False (P := None = Some c)) by done. by rewrite !app_nil_r. }
  destruct (freeze self !! ch) as [k|] eqn:Ek; cbn.
  - split.
    + constructor; cbn; [done|done|]. intros m [Hm| ->%list_elem_of_singleton]%elem_of_app; eauto.
    + rewrite bind_app. cbn. rewrite app_nil_r, app_assoc. f_equal. unfold kept_in. cbn.
      destruct (decide (Some ch = Some c)) as [[= ->]|Hn]; [by rewrite decide_True|].
      rewrite decide_False; [done|]. intros Hc. destruct Hn. f_equal. by eapply K1.
  - split; [by constructor|]. rewrite bind_app. cbn. rewrite app_nil_r, He.
    destruct (decide (Some ch = Some c)) as [[= ->]|Hn]; [|by rewrite !app_nil_r].
    pose proof (unfrozen_nothing_pending c self Ek) as Hp. unfold pending in Hp.
    by rewrite Hp, !app_nil_r.
Qed.

Lemma freeze_pending c channel self : keys_ok self → freeze self !! channel = None →
  keys_ok (cockpit_transport_freeze channel self) ∧
  pending c (cockpit_transport_freeze channel self) = pending c self.
Proof.
  intros [K1 K2 K3] Hn. split.
  - constructor; cbn.
    + intros c1 c2 k [[<- <-]|[Hn1 H1]]%lookup_insert_Some [[<- E]|[Hn2 H2]]%lookup_insert_Some; try done.
      * apply K2 in H2. lia.
      * apply K2 in H1. lia.
      * by eapply K1.
    + intros c1 k [[<- <-]|[_ H1]]%lookup_insert_Some; [lia|]. apply K2 in H1. lia.
    + intros m Hm. destruct (K3 m Hm) as [c1 H1]. exists c1. rewrite lookup_insert_ne; [done|]. congruence.
  - unfold pending. cbn. destruct (decide (channel = c)) as [<-|Hne]; [|by rewrite lookup_insert_ne].
    rewrite lookup_insert_eq, Hn. induction (frozen self) as [|m l IH]; [done|]. cbn.
    rewrite IH by (intros m' Hm'; apply K3; by right). f_equal. unfold kept_in.
    destruct (K3 m) as [c1 H1]; [by left|]. apply K2 in H1.
    rewrite !decide_False; [done..|]. intros [= E]. lia.
Qed.

(** What thawing emits of the frozen messages. *)
Definition thawed (channel : list Z) (m : FrozenMessage) : emission :=
  match frozen_control m with
  | Some o => CONTROL (default None (cockpit_json_get_string o (bs "command") None)) (Some channel) o (frozen_data m)
  | None => RECV (Some channel) (frozen_data m)
  end.

Lemma thaw_loop_spec stolen channel l self : freeze self !! channel = None →
  thaw_loop stolen channel l self =
    (filter (λ m, stolen ≠ Some (frozen_channel m)) l,
     mkTransport (freeze self) (frozen self) (fresh_key self)
       (emitted self ++ (thawed channel <$> filter (λ m, stolen = Some (frozen_channel m)) l))).
Proof.
  intros Hn. revert self Hn. induction l as [|m l IH]; intros self Hn.
  { cbn. rewrite app_nil_r. by destruct self. }
  cbn [thaw_loop]. destruct (decide (stolen = Some (frozen_channel m))) as [E|E].
  - rewrite !filter_cons, (decide_False (P := stolen ≠ _)), (decide_True (P := stolen = _)) by (done || by intros []).
    assert (He : match frozen_control m with
      | Some options => cockpit_transport_emit_control
          (default None (cockpit_json_get_string options (bs "command") None)) (Some channel) options (frozen_data m) self
      | None => cockpit_transport_emit_recv (Some channel) (frozen_data m) self
      end = emit_signal (thawed channel m) self).
    { unfold thawed, cockpit_transport_emit_control, cockpit_transport_emit_recv, maybe_freeze_message.
      cbn. rewrite Hn. by destruct (frozen_control m). }
    rewrite He, IH by done. cbn. by rewrite <- app_assoc.
  - rewrite !filter_cons, (decide_True (P := stolen ≠ _)), (decide_False (P := stolen = _)) by done. by rewrite IH.
Qed.

Lemma thaw_delivers c channel self : keys_ok self →
  let self' := cockpit_transport_thaw channel self in
  keys_ok self' ∧ delivered c self' ++ pending c self' = delivered c self ++ pending c self.
Proof.
  intros [K1 K2 K3]. cbv zeta. unfold cockpit_transport_thaw. cbv zeta.
  rewrite thaw_loop_spec by apply lookup_delete_eq. cbn.
  set (stolen := freeze self !! channel). split.
  - constructor; cbn.
    + intros c1 c2 k [_ H1]%lookup_delete_Some [_ H2]%lookup_delete_Some. by eapply K1.
    + intros c1 k [_ H1]%lookup_delete_Some. by eapply K2.
    + intros m [Hs Hm]%list_elem_of_filter. destruct (K3 m Hm) as [c1 H1]. exists c1.
      rewrite lookup_delete_ne; [done|]. intros ->. by apply Hs.
  - unfold delivered, pending. cbn. rewrite bind_app, <- app_assoc. f_equal.
    destruct (decide (channel = c)) as [->|Hne].
    + rewrite lookup_delete_eq. fold stolen. clear K3.
      induction (frozen self) as [|m l IH]; [done|]. rewrite !filter_cons. cbn [mbind list_bind].
      destruct (decide (stolen = Some (frozen_channel m))) as [E|E].
      * rewrite decide_False by (by intros []). cbn. rewrite <- app_assoc, IH. f_equal.
        unfold kept_in, thawed. rewrite decide_True by done.
        destruct (frozen_control m); cbn; by rewrite decide_True.
      * rewrite decide_True by done. cbn.
        assert (kept_in stolen m = []) as -> by (unfold kept_in; by rewrite decide_False).
        assert (kept_in None m = []) as -> by (unfold kept_in; by rewrite decide_False). exact IH.
    + rewrite lookup_delete_ne by done.
      assert (Hem : ∀ l, (thawed channel <$> l) ≫= emission_in c = []).
      { induction l as [|m l IH]; [done|]. cbn. rewrite IH, app_nil_r. unfold thawed.
        destruct (frozen_control m); cbn; rewrite decide_False; congruence. }
      rewrite Hem. cbn. clear K3. induction (frozen self) as [|m l IH]; [done|].
      rewrite filter_cons. cbn. destruct (decide (stolen ≠ Some (frozen_channel m))) as [E|E]; cbn; [by rewrite IH|].
      rewrite IH. unfold kept_in. rewrite decide_False; [done|].
      intros Hc. destruct E. intros Hs. destruct Hne. by eapply K1.
Qed.

(** No channel is frozen that is frozen already. *)
Fixpoint frozen_once (events : list transport_event) (self : transport) : Prop :=
  match events with
  | [] => True
  | e :: events =>
      match e with Freeze c => freeze self !! c = None | _ => True end ∧
      frozen_once events (handle_transport self e)
  end.

(** Freezing a channel delays its messages and does nothing else to them: however channels
    are frozen and thawed while messages come in, what has been delivered in a channel,
    followed by what is still kept for it, is what has been received in it, in that order;
    and nothing is kept for a channel that is not frozen. *)
Theorem frozen_channels_in_order events c :
  frozen_once events new_transport →
  let self := foldl handle_transport new_transport events in
  delivered c self ++ pending c self = events ≫= received_in c ∧
  (freeze self !! c = None → delivered c self = events ≫= received_in c).
Proof.
  intros Ho. assert (H : ∀ self, keys_ok self → frozen_once events self →
    keys_ok (foldl handle_transport self events) ∧
    delivered c (foldl handle_transport self events) ++ pending c (foldl handle_transport self events)
    = (delivered c self ++ pending c self) ++ (events ≫= received_in c)).
  { clear Ho. induction events as [|e events IH]; intros self K Ho; [by rewrite app_nil_r|].
    destruct Ho as [Hf Ho]. cbn [foldl].
    assert (Hstep : keys_ok (handle_transport self e) ∧
      delivered c (handle_transport self e) ++ pending c (handle_transport self e)
      = (delivered c self ++ pending c self) ++ received_in c e).
    { destruct e as [ch d|cmd ch o d|ch|ch]; cbn [handle_transport received_in].
      - apply (emit_or_keep c ch None d (RECV ch d) self); [done|done].
      - apply (emit_or_keep c ch (Some o) d (CONTROL cmd ch o d) self); [done|done].
      - rewrite app_nil_r. destruct (freeze_pending c ch self K Hf) as [A B]. by rewrite B.
      - rewrite app_nil_r. by apply thaw_delivers. }
    destruct Hstep as [K' E]. destruct (IH _ K' Ho) as [K'' E']. split; [done|].
    rewrite E', E. cbn. by rewrite <- app_assoc. }
  destruct (H new_transport) as [K E]; [|done|].
  { constructor; cbn; [by intros ???; rewrite lookup_empty|by intros ??; rewrite lookup_empty|].
    by intros m ?%elem_of_nil. }
  cbn in E. split; [done|]. intros Hn. by rewrite (unfrozen_nothing_pending _ _ Hn), app_nil_r in E.
Qed.

Definition example_events : list transport_event :=
  [Recv (Some (bs "a")) [1]; Freeze (bs "a"); Recv (Some (bs "a")) [2]; Recv (Some (bs "b")) [3];
   Control (Some (bs "x")) (Some (bs "a")) [(bs "command", JString (bs "x"))] [4]; Thaw (bs "a");
   Recv (Some (bs "a")) [5]].

Lemma frozen_channels_in_order_witness :
  let self := foldl handle_transport new_transport example_events in
  emitted self ≠ [] ∧
  delivered (bs "a") self ++ pending (bs "a") self = example_events ≫= received_in (bs "a") ∧
  (freeze self !! bs "a" = None → delivered (bs "a") self = example_events ≫= received_in (bs "a")).
Proof.
  split; [by vm_compute|]. apply (frozen_channels_in_order example_events (bs "a")).
  repeat split; vm_compute; reflexivity.
Defined.

(** Freezing a channel that is frozen already frees the name that the kept messages point to:
    they are never delivered. *)
Theorem frozen_twice_lost :
  let self := foldl handle_transport new_transport
                [Freeze (bs "a"); Recv (Some (bs "a")) [1]; Freeze (bs "a"); Thaw (bs "a")] in
  emitted self = [] ∧ length (frozen self) = 1%nat ∧ freeze self = ∅.
Proof. by vm_compute. Qed.

Lemma pipe_transport_roundtrip_witness :
  let msgs := [(Some (bs "4:1"), [104; 105; 10]); (None, bs "{}"); (Some (bs "x"), [])] in
  let all := pt_written (send_messages msgs) in
  foldl (λ st chunk, on_pipe_read chunk st) ([], [], []) [take 5 all; take 7 (drop 5 all); drop 12 all]
    = ([], msgs, []).
Proof.
  intros msgs all. apply (pipe_transport_roundtrip msgs); [|vm_compute; reflexivity].
  repeat (apply List.Forall_cons; [split_and!; [by intros ? [= <-]|by_decide|vm_compute; reflexivity]|]).
  apply List.Forall_nil.
Defined.
