(* ===== verification/Channel.v ===== *)
(** * Channels: [src/common/cockpitchannel.c] and [src/common/cockpitflow.c]

    A channel turns messages of the internal protocol into input and output of another kind.  It is
    prepared, becomes ready, sends and receives payloads and control messages, and is closed
    once, by either side or with its transport.  Text that ends inside a character waits for the rest
    of it.  Flow control: a channel that has sent a window of data without an answer to its pings puts
    pressure on what feeds it; pings to a channel that is throttled are answered later.

    A channel is a part of a state, [chan], whatever kind of channel it is; the virtual functions of its
    class, the handlers of its signals, and the thawing of its messages are programs on that
    state.  What it sends on its transport, and the signals it emits, are recorded in it.

    Shown: what is sent as text is valid UTF-8, and is what was given however it was cut into blocks; the
    state of flow control is the one last signalled, and pressure is relieved by the answer to the last
    ping, unless the channel is sent to between answers while the pressure is on; pings are answered in order, each once; a channel is closed once. *)

From S2P Require Import Prelude Objects Json Transport Unicode.
From Stdlib Require Import Floats.SpecFloat.
#[local] Open Scope Z_scope.

Definition CHANNEL_FLOW_PING : Z := 16 * 1024.
Definition CHANNEL_FLOW_WINDOW : Z := 2 * 1024 * 1024.
Definition G_MAXINT64 : Z := 2 ^ 63 - 1.

(** The signals of a channel, and of flows *)
Inductive channel_signal :=
| Closed (problem : option (list Z))
| ChannelPressure (throttle : bool).

Record CockpitChannel := mkChannel {
  recv_sig : bool;
  close_sig : bool;
  control_sig : bool;
  id : list Z;
  open_options : object;
  capabilities : option (list (list Z));
  prepared : bool;
  prepare_tag : bool;
  sent_close : bool;
  emitted_close : bool;
  transport_closed : bool;
  sent_done : bool;
  received_done : bool;
  binary_ok : bool;
  close_options : option object;
  out_buffer : option (list Z);
  buffer_timeout : bool;
  out_sequence : Z;
  out_window : Z;
  flow_control : bool;
  pressure : bool;                                  (* whether a flow throttles the channel *)
  throttled : option (list object);
  references : Z;
  outgoing : list (option (list Z) * list Z);       (* messages sent on the transport *)
  channel_signals : list channel_signal
}.

#[export] Instance channel_eta : Settable CockpitChannel := λ c,
  mkChannel (recv_sig c) (close_sig c) (control_sig c) (id c) (open_options c) (capabilities c) (prepared c)
    (prepare_tag c) (sent_close c) (emitted_close c) (transport_closed c) (sent_done c) (received_done c)
    (binary_ok c) (close_options c) (out_buffer c) (buffer_timeout c) (out_sequence c) (out_window c)
    (flow_control c) (pressure c) (throttled c) (references c) (outgoing c) (channel_signals c).

(** A channel that has been constructed: its handlers are on the transport, its messages are frozen, and
    it will be prepared.  The reference belongs to the caller. *)
Definition channel_new (id : list Z) (options : object) : CockpitChannel :=
  mkChannel true true true id options None false true false false false false false false None None false
    0 CHANNEL_FLOW_WINDOW false false None 1 [] [].

(** The property ["capabilities"] *)
Definition set_capabilities (value : list (list Z)) (c : CockpitChannel) : CockpitChannel :=
  match capabilities c with
  | Some _ => c
  | None => c <| capabilities := Some value |>
  end.

Definition cockpit_channel_close_options (c : CockpitChannel) : object := default [] (close_options c).

(** The arithmetic of [gint64] that is not defined is a fault. *)
Definition fits_int64 (z : Z) : bool := (- 2 ^ 63 <=? z) && (z <=? G_MAXINT64).

Section Channel.
Context (dtostr : spec_float → list Z) (json_node_get_int_of_double : spec_float → Z) `{Utf8}.
Context {S : Type} (chan : S → CockpitChannel) `{!Setter chan}.

Notation io := (prog S unit).
Notation write_bytes := (cockpit_json_write_bytes dtostr).
Notation get_int := (cockpit_json_get_int json_node_get_int_of_double).

#[local] Instance io_ret : MRet io := λ A a, prog_ret A a.
#[local] Instance io_bind : MBind io := λ A B f m, prog_bind A B f m.

Definition self : io CockpitChannel := get chan.
Definition put (f : CockpitChannel → CockpitChannel) : io unit := modify (update chan f).

(** Using a channel that has been freed is a fault. *)
Definition alive : io unit := c ← self; require (0 <? references c).

Definition transport_send (channel : option (list Z)) (payload : list Z) : io unit :=
  put (λ c, c <| outgoing ::= λ l, l ++ [(channel, payload)] |>).

(** ** Sending *)

(** The end of [cockpit_channel_control]: what is sent for commands other than ["close"]. *)
Definition send_control (command : list Z) (options : object) : io unit :=
  c ← self;
  let object := json_object_set_member options (bs "command") (JString command) in
  let object := json_object_set_member object (bs "channel") (JString (id c)) in
  transport_send None (write_bytes object).

Section Pressure.
(** What the flows that this one controls do. *)
Context (on_pressure : bool → io unit).

Definition cockpit_flow_emit_pressure (pressure : bool) : io unit :=
  _ ← put (λ c, c <| channel_signals ::= λ l, l ++ [ChannelPressure pressure] |>);
  on_pressure pressure.

Definition cockpit_channel_actual_send (payload : list Z) (trust_is_utf8 : bool) : io unit :=
  _ ← alive;
  c ← self;
  if bool_decide (is_Some (out_buffer c)) || buffer_timeout c then mret tt
  else
    let payload := if negb trust_is_utf8 && negb (binary_ok c) then cockpit_unicode_force_utf8 payload else payload in
    _ ← transport_send (Some (id c)) payload;
    if negb (flow_control c) then mret tt
    else
      let size := zlen payload in
      if negb (u64 (G_MAXINT64 - size) >? out_sequence c) then mret tt
      else
        let sequence := u64 (out_sequence c + size) in
        let trigger_pressure := (out_sequence c <=? out_window c) && (sequence >? u64 (out_window c)) in
        _ ← when (negb (sequence / CHANNEL_FLOW_PING =? out_sequence c / CHANNEL_FLOW_PING) || trigger_pressure)
              (send_control (bs "ping") (json_object_set_member [] (bs "sequence") (JInt sequence)));
        _ ← put (λ c, c <| out_sequence := sequence |>);
        when trigger_pressure (cockpit_flow_emit_pressure true).

Definition flush_buffer : io unit :=
  _ ← alive;
  c ← self;
  match out_buffer c with
  | Some payload =>
      _ ← put (λ c, c <| out_buffer := None |> <| buffer_timeout := false |>);
      cockpit_channel_actual_send payload false
  | None => mret tt
  end.

Definition cockpit_channel_send (payload : list Z) (trust_is_utf8 : bool) : io unit :=
  _ ← alive;
  c ← self;
  _ ← put (λ c, c <| buffer_timeout := false |>);
  let '(send_data, trust_is_utf8) :=
    match out_buffer c with
    | Some combined => (combined ++ payload, false)
    | None => (payload, trust_is_utf8)
    end in
  _ ← put (λ c, c <| out_buffer := None |>);
  let incomplete := negb trust_is_utf8 && negb (binary_ok c) && cockpit_unicode_has_incomplete_ending send_data in
  _ ← when incomplete (put (λ c, c <| out_buffer := Some send_data |> <| buffer_timeout := true |>));
  when (negb incomplete) (cockpit_channel_actual_send send_data trust_is_utf8).

(** ** Flow control *)

Definition process_pong (pong : object) : io unit :=
  _ ← alive;
  c ← self;
  if negb (flow_control c) then mret tt
  else
    let sequence := default (-1) (get_int pong (bs "sequence") (-1)) in
    _ ← require (fits_int64 (out_window c + CHANNEL_FLOW_WINDOW * 10));
    if sequence >=? out_window c then
      _ ← require (fits_int64 (sequence + CHANNEL_FLOW_WINDOW));
      _ ← put (λ c, c <| out_window := sequence + CHANNEL_FLOW_WINDOW |>);
      when (out_sequence c <=? sequence + CHANNEL_FLOW_WINDOW) (cockpit_flow_emit_pressure false)
    else mret tt.

(** Whether the ping has been answered. *)
Definition process_ping (ping : object) : io bool :=
  _ ← alive;
  c ← self;
  match throttled c with
  | Some queue => _ ← put (λ c, c <| throttled := Some (queue ++ [ping]) |>); mret false
  | None =>
      _ ← transport_send None (write_bytes (json_object_set_member ping (bs "command") (JString (bs "pong"))));
      mret true
  end.

Fixpoint answer_pings (pings : list object) : io unit :=
  match pings with
  | [] => mret tt
  | ping :: pings => answered ← process_ping ping; _ ← require answered; answer_pings pings
  end.

Definition on_throttle_pressure (throttle : bool) : io unit :=
  _ ← alive;
  c ← self;
  if throttle then when (bool_decide (throttled c = None)) (put (λ c, c <| throttled := Some [] |>))
  else _ ← put (λ c, c <| throttled := None |>); answer_pings (default [] (throttled c)).

Definition cockpit_channel_throttle (controlling : bool) : io unit :=
  put (λ c, c <| pressure := controlling |>).

(** ** Closing *)

Section Closing.
Context (on_closed : option (list Z) → io unit).             (* the handlers of the signal *)

Definition emit_closed (problem : option (list Z)) : io unit :=
  _ ← put (λ c, c <| channel_signals ::= λ l, l ++ [Closed problem] |>);
  on_closed problem.

Definition set_problem (problem : option (list Z)) (o : object) : object :=
  match problem with
  | Some problem => json_object_set_member o (bs "problem") (JString problem)
  | None => o
  end.

Definition cockpit_channel_real_close (problem : option (list Z)) : io unit :=
  _ ← alive;
  c ← self;
  if sent_close c then mret tt
  else
    _ ← put (λ c, c <| sent_close := true |>);
    _ ← when (negb (transport_closed c)) (
      _ ← flush_buffer;
      c ← self;
      let object := cockpit_channel_close_options c in
      _ ← put (λ c, c <| close_options := None |>);
      let object := json_object_set_member object (bs "command") (JString (bs "close")) in
      let object := json_object_set_member object (bs "channel") (JString (id c)) in
      transport_send None (write_bytes (set_problem problem object)));
    emit_closed problem.
End Closing.

Section Class.
Context (klass_close : option (list Z) → io unit).

Definition cockpit_channel_close (problem : option (list Z)) : io unit :=
  _ ← alive;
  _ ← put (λ c, c <| recv_sig := false |> <| control_sig := false |> <| close_sig := false |>
                  <| emitted_close := true |>);
  klass_close problem.

(** The options with a member that they may have already. *)
Definition cockpit_channel_fail (problem message : list Z) : io unit :=
  _ ← alive;
  _ ← put (λ c,
        let options := cockpit_channel_close_options c in
        c <| close_options := Some (match json_object_get_member options (bs "message") with
                                    | Some _ => options
                                    | None => json_object_set_member options (bs "message") (JString message)
                                    end) |>);
  cockpit_channel_close (Some problem).

Definition cockpit_channel_control (command : list Z) (options : option object) : io unit :=
  _ ← alive;
  c ← self;
  if bool_decide (command = bs "done") then
    if sent_done c then mret tt
    else _ ← put (λ c, c <| sent_done := true |>); send_control command (default [] options)
  else if bool_decide (command = bs "close") then
    let problem := match options with
                   | Some o => default None (cockpit_json_get_string o (bs "problem") None)
                   | None => None
                   end in
    _ ← put (λ c, c <| close_options := match close_options c with Some o => Some o | None => options end |>);
    cockpit_channel_close problem
  else send_control command (default [] options).

(** ** Preparing *)

Definition missing_capability (supported : option (list (list Z))) (capability : list Z) : bool :=
  match supported with
  | None => true
  | Some supported => negb (bool_decide (capability ∈ supported))
  end.

Definition cockpit_channel_ensure_capable (options : object) : io bool :=
  match cockpit_json_get_strv options (bs "capabilities") None with
  | None =>
      _ ← cockpit_channel_fail (bs "protocol-error") (bs "got invalid capabilities field in open message");
      mret false
  | Some None => mret true
  | Some (Some required) =>
      c ← self;
      let missing := existsb (missing_capability (capabilities c)) required in
      _ ← when missing (
        let arr := JArray (JString <$> default [] (capabilities c)) in
        _ ← put (λ c, c <| close_options :=
                    Some (json_object_set_member (cockpit_channel_close_options c) (bs "capabilities") arr) |>);
        cockpit_channel_close (Some (bs "not-supported")));
      mret (negb missing)
  end.

(** The name is in quotes. *)
Definition invalid_option (name : list Z) : list Z :=
  bs "channel has invalid " ++ [34] ++ name ++ [34] ++ bs " option".

(** [base] says that the channel has no class of its own. *)
Definition cockpit_channel_real_prepare (base : bool) : io unit :=
  _ ← alive;
  c ← self;
  let options := open_options c in
  capable ← cockpit_channel_ensure_capable options;
  if negb capable then mret tt
  else if base then cockpit_channel_close (Some (bs "not-supported"))
  else
    _ ← match cockpit_json_get_string options (bs "binary") None with
        | None => cockpit_channel_fail (bs "protocol-error") (invalid_option (bs "binary"))
        | Some None => mret tt
        | Some (Some binary) =>
            _ ← put (λ c, c <| binary_ok := true |>);
            when (negb (bool_decide (binary = bs "raw")))
              (cockpit_channel_fail (bs "protocol-error") (invalid_option (bs "binary") ++ bs ": " ++ binary))
        end;
    _ ← alive;
    match cockpit_json_get_bool options (bs "flow-control") false with
    | Some value => put (λ c, c <| flow_control := value |>)
    | None => cockpit_channel_fail (bs "protocol-error") (invalid_option (bs "flow-control"))
    end.

Section Virtual.
Context (klass_prepare : io unit) (klass_recv : list Z → io unit) (klass_control : list Z → object → io unit).

Definition cockpit_channel_prepare : io unit :=
  _ ← alive;
  c ← self;
  if prepared c then mret tt
  else
    _ ← put (λ c, c <| prepare_tag := false |> <| prepared := true |>);
    when (negb (emitted_close c)) klass_prepare.

(** ** Messages from the transport *)

Definition process_recv (payload : list Z) : io unit :=
  _ ← alive;
  c ← self;
  if received_done c
  then cockpit_channel_fail (bs "protocol-error") (bs "channel received message after done")
  else klass_recv payload.

(** Whether the message is for the channel. *)
Definition on_transport_recv (channel_id : option (list Z)) (data : list Z) : io bool :=
  _ ← alive;
  c ← self;
  if bool_decide (channel_id = Some (id c)) then _ ← process_recv data; mret true else mret false.

Definition process_control (command : list Z) (options : object) : io unit :=
  _ ← alive;
  if bool_decide (command = bs "close") then
    cockpit_channel_close (default None (cockpit_json_get_string options (bs "problem") None))
  else if bool_decide (command = bs "ping") then _ ← process_ping options; mret tt
  else if bool_decide (command = bs "pong") then process_pong options
  else
    _ ← when (bool_decide (command = bs "done")) (
      c ← self;
      if received_done c
      then cockpit_channel_fail (bs "protocol-error") (bs "channel received second done")
      else put (λ c, c <| received_done := true |>));
    _ ← alive;
    klass_control command options.

Definition on_transport_control (command : list Z) (channel_id : option (list Z)) (options : object) : io bool :=
  _ ← alive;
  c ← self;
  if bool_decide (channel_id = Some (id c)) then _ ← process_control command options; mret true else mret false.

Definition on_transport_closed (problem : option (list Z)) : io unit :=
  _ ← alive;
  _ ← put (λ c, c <| transport_closed := true |>);
  c ← self;
  when (negb (emitted_close c)) (cockpit_channel_close (Some (default (bs "disconnected") problem))).
End Virtual.

(** ** The end *)

Definition cockpit_channel_dispose : io unit :=
  c ← self;
  _ ← put (λ c, c <| prepare_tag := false |> <| recv_sig := false |> <| control_sig := false |>
                  <| close_sig := false |>);
  _ ← when (negb (emitted_close c)) (cockpit_channel_close (Some (bs "terminated")));
  _ ← put (λ c, c <| buffer_timeout := false |> <| out_buffer := None |>);
  _ ← cockpit_channel_throttle false;
  put (λ c, c <| throttled := None |>).

Section References.
Context (klass_dispose : io unit) (transport_thaw : list Z → io unit).

Definition g_object_ref : io unit := _ ← alive; put (λ c, c <| references ::= λ n, n + 1 |>).

Definition g_object_unref : io unit :=
  _ ← alive;
  c ← self;
  _ ← when (references c =? 1) klass_dispose;
  put (λ c, c <| references ::= λ n, n - 1 |>).

Definition on_idle_prepare (klass_prepare : io unit) : io unit :=
  _ ← g_object_ref;
  _ ← put (λ c, c <| prepare_tag := false |>);
  _ ← cockpit_channel_prepare klass_prepare;
  g_object_unref.

Definition cockpit_channel_ready (message : option object) : io unit :=
  _ ← g_object_ref;
  c ← self;
  _ ← transport_thaw (id c);
  _ ← cockpit_channel_control (bs "ready") message;
  g_object_unref.
End References.
End Class.

(** ** What is sent

    The handlers of pressure leave the channel itself alone. *)

Context `{!Field chan}.
Context (on_pressure_frame : ∀ b s, ensures (on_pressure b) (λ _ s', chan s' = chan s) s).

Lemma ensures_put f (Q : unit → S → Prop) s :
  (∀ s', chan s' = f (chan s) → Q tt s') → ensures (put f) Q s.
Proof. by apply ensures_update. Qed.

Lemma ensures_alive (Q : unit → S → Prop) s : 0 < references (chan s) → Q tt s → ensures alive Q s.
Proof.
  intros Hr HQ. apply ensures_bind, ensures_get, ensures_require; [|done]. by apply Z.ltb_lt.
Qed.

Lemma ensures_emit_pressure b (Q : unit → S → Prop) s :
  (∀ s', chan s' = (chan s) <| channel_signals ::= λ l, l ++ [ChannelPressure b] |> → Q tt s') →
  ensures (cockpit_flow_emit_pressure b) Q s.
Proof.
  intros HQ. apply ensures_bind, ensures_put. intros s1 E1.
  eapply ensures_mono; [apply on_pressure_frame|]. intros [] s2 E2. apply HQ. congruence.
Qed.

(** The ping that goes with a sequence number *)
Definition ping_message (channel : list Z) (sequence : Z) : list Z :=
  write_bytes (json_object_set_member (json_object_set_member
    (json_object_set_member [] (bs "sequence") (JInt sequence)) (bs "command") (JString (bs "ping")))
    (bs "channel") (JString channel)).

#[local] Arguments ping_message : simpl never.

(** The channel when a payload has been sent. *)
Definition after_send (payload : list Z) (c : CockpitChannel) : CockpitChannel :=
  let c' := c <| outgoing ::= λ l, l ++ [(Some (id c), payload)] |> in
  if negb (flow_control c) || negb (u64 (G_MAXINT64 - zlen payload) >? out_sequence c) then c'
  else
    let sequence := u64 (out_sequence c + zlen payload) in
    let trigger := (out_sequence c <=? out_window c) && (sequence >? u64 (out_window c)) in
    let ping := negb (sequence / CHANNEL_FLOW_PING =? out_sequence c / CHANNEL_FLOW_PING) || trigger in
    c' <| outgoing ::= λ l, l ++ (if ping then [(None, ping_message (id c) sequence)] else []) |>
       <| out_sequence := sequence |>
       <| channel_signals ::= λ l, l ++ (if trigger then [ChannelPressure true] else []) |>.

(** What is sent for a payload *)
Definition text_of (c : CockpitChannel) (payload : list Z) (trust_is_utf8 : bool) : list Z :=
  if negb trust_is_utf8 && negb (binary_ok c) then cockpit_unicode_force_utf8 payload else payload.

Lemma ensures_actual_send payload trust (Q : unit → S → Prop) s :
  0 < references (chan s) → out_buffer (chan s) = None → buffer_timeout (chan s) = false →
  (∀ s', chan s' = after_send (text_of (chan s) payload trust) (chan s) → Q tt s') →
  ensures (cockpit_channel_actual_send payload trust) Q s.
Proof.
  intros Hr Hb Ht HQ. apply ensures_bind, ensures_alive; [done|]. apply ensures_bind, ensures_get.
  rewrite Hb, Ht. cbn [is_Some bool_decide orb]. rewrite bool_decide_eq_false_2 by (by intros []). cbn [orb].
  fold (text_of (chan s) payload trust). set (p := text_of _ _ _) in *. clearbody p.
  apply ensures_bind, ensures_put. intros s1 E1. unfold after_send in HQ.
  destruct (flow_control (chan s)); cbn [negb orb] in *; [|by apply HQ].
  destruct (u64 (G_MAXINT64 - zlen p) >? out_sequence (chan s)); cbn [negb] in *; [|by apply HQ].
  set (sequence := u64 (out_sequence (chan s) + zlen p)) in *.
  set (trigger := (out_sequence (chan s) <=? out_window (chan s)) && (sequence >? u64 (out_window (chan s)))) in *.
  set (ping := negb _ || trigger) in *.
  eapply (ensures_seq _ _ (λ _ s2, chan s2 = (chan s1) <| outgoing ::= λ l, l ++ (if ping then [(None, ping_message (id (chan s)) sequence)] else []) |>)).
  { apply ensures_when; intros ->.
    - apply ensures_bind, ensures_get, ensures_put. intros s2 ->. by rewrite E1.
    - rewrite E1. cbn. by rewrite app_nil_r. }
  intros [] s2 E2. apply ensures_bind, ensures_put. intros s3 E3. clearbody trigger. apply ensures_when; intros ->.
  - apply ensures_emit_pressure. intros s4 E4. apply HQ. by rewrite E4, E3, E2, E1.
  - apply HQ. rewrite E3, E2, E1. cbn. by rewrite app_nil_r.
Qed.

(** Text waits for the rest of a character; what has waited goes first. *)
Definition waits (payload : list Z) (trust : bool) (c : CockpitChannel) : bool :=
  negb (trust && bool_decide (out_buffer c = None)) && negb (binary_ok c) &&
  cockpit_unicode_has_incomplete_ending (default [] (out_buffer c) ++ payload).

Definition buffered (payload : list Z) (c : CockpitChannel) : CockpitChannel :=
  c <| out_buffer := Some (default [] (out_buffer c) ++ payload) |> <| buffer_timeout := true |>.

Definition unbuffered (c : CockpitChannel) : CockpitChannel :=
  c <| out_buffer := None |> <| buffer_timeout := false |>.

Lemma ensures_send payload trust (Q : unit → S → Prop) s : 0 < references (chan s) →
  (waits payload trust (chan s) = true → ∀ s', chan s' = buffered payload (chan s) → Q tt s') →
  (waits payload trust (chan s) = false →
    ∀ s', chan s' = after_send (text_of (chan s) (default [] (out_buffer (chan s)) ++ payload)
                                 (trust && bool_decide (out_buffer (chan s) = None))) (unbuffered (chan s)) →
    Q tt s') →
  ensures (cockpit_channel_send payload trust) Q s.
Proof.
  intros Hr Hw Hs. apply ensures_bind, ensures_alive; [done|]. apply ensures_bind, ensures_get.
  apply ensures_bind, ensures_put. intros s1 E1.
  destruct (match out_buffer (chan s) with Some _ => _ | None => _ end) as [data t] eqn:Ed.
  assert (data = default [] (out_buffer (chan s)) ++ payload ∧ t = trust && bool_decide (out_buffer (chan s) = None)) as [-> ->].
  { destruct (out_buffer (chan s)); injection Ed as <- <-; cbn.
    - by destruct trust.
    - by destruct trust. }
  apply ensures_bind, ensures_put. intros s2 E2. fold (waits payload trust (chan s)).
  destruct (waits payload trust (chan s)) eqn:Ew; cbn [negb when].
  - apply ensures_bind, ensures_put. intros s3 E3. apply Hw; [done|]. by rewrite E3, E2, E1.
  - apply ensures_bind. cbn. apply ensures_actual_send; rewrite E2, E1; [done..|].
    intros s3 E3. apply Hs; [done|]. rewrite E3. reflexivity.
Qed.

(** *** Text *)

(** The payloads among the messages of a transport *)
Definition payloads (channel : list Z) (messages : list (option (list Z) * list Z)) : list (list Z) :=
  (filter (λ m, m.1 = Some channel) messages).*2.

Lemma payloads_app channel a b : payloads channel (a ++ b) = payloads channel a ++ payloads channel b.
Proof. unfold payloads. by rewrite filter_app, fmap_app. Qed.

Lemma payloads_control channel payload : payloads channel [(None, payload)] = [].
Proof. unfold payloads. by rewrite filter_cons_False by done. Qed.

Lemma payloads_own channel payload : payloads channel [(Some channel, payload)] = [payload].
Proof. unfold payloads. by rewrite filter_cons_True, filter_nil by done. Qed.

Lemma after_send_outgoing payload c : ∃ control, outgoing (after_send payload c) = outgoing c ++ (Some (id c), payload) :: control ∧
  ∀ channel, payloads channel control = [].
Proof.
  unfold after_send. case_match; cbn; [by exists []|]. rewrite <- app_assoc.
  destruct (negb (_ =? _) || _); eexists; (split; [reflexivity|]); intros; [apply payloads_control|done].
Qed.

(** What a send does not change *)
Definition same_kind (c c' : CockpitChannel) : Prop :=
  id c' = id c ∧ binary_ok c' = binary_ok c ∧ references c' = references c.

Lemma after_send_kind payload c : same_kind c (after_send payload c) ∧ out_buffer (after_send payload c) = out_buffer c
  ∧ buffer_timeout (after_send payload c) = buffer_timeout c.
Proof. unfold after_send, same_kind. by case_match. Qed.

Lemma after_send_payloads payload c :
  payloads (id c) (outgoing (after_send payload c)) = payloads (id c) (outgoing c) ++ [payload].
Proof.
  destruct (after_send_outgoing payload c) as (control & -> & Hc). change (?x :: control) with ([x] ++ control).
  by rewrite !payloads_app, payloads_own, Hc, app_nil_r.
Qed.

Inductive text_event := TextBlock (block : list Z) | FlushTimeout.

(** Blocks are not trusted to be UTF-8.  The timeout is there while text waits. *)
Definition text_step (e : text_event) : io unit :=
  match e with
  | TextBlock block => cockpit_channel_send block false
  | FlushTimeout => flush_buffer
  end.

Fixpoint text_run (events : list text_event) : io unit :=
  match events with [] => mret tt | e :: events => _ ← text_step e; text_run events end.

(** What has been sent after [c], in the channel [c'] *)
Definition sent_since (c c' : CockpitChannel) (texts : list (list Z)) : Prop :=
  same_kind c c' ∧ payloads (id c) (outgoing c') = payloads (id c) (outgoing c) ++ texts.

Lemma sent_since_refl c c' : same_kind c c' → outgoing c' = outgoing c → sent_since c c' [].
Proof. intros Hk E. split; [done|]. by rewrite E, app_nil_r. Qed.

Lemma sent_since_trans c c1 c2 a b : sent_since c c1 a → sent_since c1 c2 b → sent_since c c2 (a ++ b).
Proof.
  intros [(E1 & E2 & E3) H1] [(F1 & F2 & F3) H2]. split; [repeat split; congruence|].
  rewrite <- E1, H2, E1, H1. by rewrite app_assoc.
Qed.

Lemma sent_since_after_send payload c c0 : same_kind c0 c → outgoing c = outgoing c0 →
  sent_since c0 (after_send payload c) [payload].
Proof.
  intros (E1 & E2 & E3) Eo. destruct (after_send_kind payload c) as [(F1 & F2 & F3) _].
  split; [repeat split; congruence|]. by rewrite <- E1, after_send_payloads, Eo.
Qed.

(** A step of text sends valid texts. *)
Lemma text_step_valid e s : 0 < references (chan s) → binary_ok (chan s) = false →
  ensures (text_step e) (λ _ s', ∃ texts, sent_since (chan s) (chan s') texts ∧ Forall valid texts) s.
Proof.
  intros Hr Hb. destruct e as [block|]; cbn [text_step].
  - apply ensures_send; [done|..]; intros _ s' E; rewrite E.
    + exists []. split; [|constructor]. by apply sent_since_refl.
    + eexists. split; [by apply sent_since_after_send|]. constructor; [|constructor].
      unfold text_of. rewrite andb_false_l, Hb. apply force_utf8_valid.
  - apply ensures_bind, ensures_alive; [done|]. apply ensures_bind, ensures_get.
    destruct (out_buffer (chan s)) as [payload|] eqn:Eb.
    2:{ apply ensures_ret. exists []. split; [|constructor]. by apply sent_since_refl. }
    apply ensures_bind, ensures_put. intros s1 E1. apply ensures_actual_send; rewrite E1; [done..|].
    intros s2 ->. eexists. split; [by apply sent_since_after_send|]. constructor; [|constructor].
    unfold text_of. cbn. rewrite Hb. apply force_utf8_valid.
Qed.

(** C37: what a channel that is not binary sends as text is valid UTF-8, whatever the blocks that it is
    given and however they are cut, and whether or not it has waited for the rest of a character. *)
Theorem sent_text_valid events s : 0 < references (chan s) → binary_ok (chan s) = false →
  ensures (text_run events)
    (λ _ s', ∃ texts, sent_since (chan s) (chan s') texts ∧ Forall valid texts) s.
Proof.
  revert s. induction events as [|e events IH]; intros s Hr Hb; cbn [text_run].
  { apply ensures_ret. exists []. split; [|constructor]. by apply sent_since_refl. }
  eapply ensures_seq; [by apply text_step_valid|]. intros [] s1 (a & Ha & Va).
  pose proof Ha as [(_ & Hb' & Hr') _]. eapply ensures_mono; [apply IH; congruence|].
  intros [] s2 (b & H2 & Vb). exists (a ++ b). split; [by eapply sent_since_trans|]. by apply Forall_app.
Qed.

(** What waits is the beginning of a character. *)
Definition waiting (c : CockpitChannel) : Prop :=
  ∀ b, out_buffer c = Some b → cockpit_unicode_has_incomplete_ending b = true.

Lemma send_cut block rest s : 0 < references (chan s) → binary_ok (chan s) = false →
  valid (default [] (out_buffer (chan s)) ++ block ++ rest) →
  ensures (cockpit_channel_send block false) (λ _ s', ∃ texts, sent_since (chan s) (chan s') texts ∧ Forall valid texts ∧
    concat texts ++ default [] (out_buffer (chan s')) = default [] (out_buffer (chan s)) ++ block ∧ waiting (chan s')) s.
Proof.
  intros Hr Hb Hv. rewrite app_assoc in Hv. apply ensures_send; [done|..]; unfold waits; rewrite Hb; cbn [negb andb]; intros Hw s' E; rewrite E.
  - exists []. split; [by apply sent_since_refl|]. split; [done|]. split; [done|]. by intros b [= <-].
  - destruct (incomplete_ending _ _ Hv) as [Hd|Hi]; [|congruence].
    eexists. split; [by apply sent_since_after_send|]. unfold text_of. cbn [negb andb].
    change (binary_ok (unbuffered (chan s))) with (binary_ok (chan s)). rewrite Hb. cbn [negb andb].
    rewrite force_utf8_id by done. split; [by repeat constructor|]. unfold waiting.
    destruct (after_send_kind (default [] (out_buffer (chan s)) ++ block) (unbuffered (chan s))) as (_ & -> & _).
    cbn. by rewrite !app_nil_r.
Qed.

Lemma valid_concat l : Forall valid l → valid (concat l).
Proof. induction 1; [apply valid_nil|]. by apply valid_app. Qed.

Lemma blocks_sent blocks s : 0 < references (chan s) → binary_ok (chan s) = false → waiting (chan s) →
  valid (default [] (out_buffer (chan s)) ++ concat blocks) →
  ensures (text_run (TextBlock <$> blocks)) (λ _ s', ∃ texts, sent_since (chan s) (chan s') texts ∧
    Forall valid texts ∧ concat texts ++ default [] (out_buffer (chan s')) = default [] (out_buffer (chan s)) ++ concat blocks ∧
    waiting (chan s')) s.
Proof.
  revert s. induction blocks as [|block blocks IH]; intros s Hr Hb Hw Hv; cbn [fmap list_fmap text_run text_step].
  { apply ensures_ret. exists []. split; [by apply sent_since_refl|]. by rewrite app_nil_r. }
  rewrite concat_cons in *. eapply ensures_seq; [by eapply send_cut|]. intros [] s1 (a & Ha & Va & Ea & Hw1).
  pose proof Ha as [(_ & Hb' & Hr') _].
  assert (Hv1 : valid (default [] (out_buffer (chan s1)) ++ concat blocks)).
  { rewrite app_assoc, <- Ea, <- app_assoc in Hv. by apply (valid_app_inv (concat a)); [apply valid_concat|]. }
  eapply ensures_mono; [apply IH; congruence || done|]. intros [] s2 (b & H2 & Vb & Eb & Hw2).
  exists (a ++ b). split; [by eapply sent_since_trans|]. split; [by apply Forall_app|]. split; [|done].
  rewrite concat_app, <- app_assoc, Eb, app_assoc, Ea. by rewrite <- app_assoc.
Qed.

(** C36: a valid text that is sent in blocks, cut anywhere, is sent as it is: what goes out is the text,
    in valid pieces, none of its characters is replaced, and nothing is left waiting. *)
Theorem text_in_blocks blocks s : 0 < references (chan s) → binary_ok (chan s) = false →
  out_buffer (chan s) = None → valid (concat blocks) →
  ensures (text_run (TextBlock <$> blocks)) (λ _ s', ∃ texts, sent_since (chan s) (chan s') texts ∧
    Forall valid texts ∧ concat texts = concat blocks ∧ out_buffer (chan s') = None) s.
Proof.
  intros Hr Hb Ho Hv. eapply ensures_mono.
  - apply blocks_sent; [done..| |by rewrite Ho]. intros b Eb. congruence.
  - intros [] s' (texts & Hs & Vt & E & Hw). exists texts. rewrite Ho in E. cbn in E.
    assert (Hn : out_buffer (chan s') = None).
    { destruct (out_buffer (chan s')) as [b|] eqn:Eb; [|done]. cbn in E. specialize (Hw b Eb).
      rewrite valid_complete in Hw; [done|]. rewrite <- E in Hv. by apply (valid_app_inv (concat texts)); [apply valid_concat|]. }
    rewrite Hn in E. by rewrite app_nil_r in E.
Qed.

(** *** The window

    What feeds the channel is told of the pressure that the channel puts on it; it may send nevertheless. *)

(** The state of the pressure that has been signalled *)
Definition signalled (signals : list channel_signal) : bool :=
  foldl (λ b x, match x with ChannelPressure throttle => throttle | Closed _ => b end) false signals.

Lemma signalled_snoc l b : signalled (l ++ [ChannelPressure b]) = b.
Proof. unfold signalled. by rewrite foldl_app. Qed.

#[local] Arguments signalled : simpl never.

Definition answer_of (pong : object) : Z := default (-1) (get_int pong (bs "sequence") (-1)).

(** No message has a size that is not a [gint64]. *)
Definition sizes_ok (c : CockpitChannel) : Prop := Forall (λ m, zlen m.2 ≤ G_MAXINT64) (outgoing c).

(** The sends and answers of a channel, and whether, since the pressure was last put on, an answer has moved the
    window without taking it off. *)
Inductive flows (s0 : S) : bool → S → Prop :=
| flows_start : flows s0 false s0
| flows_send payload trust moved s s' : flows s0 moved s →
    cockpit_channel_send payload trust s = (Ok tt, s') → sizes_ok (chan s') →
    flows s0 (signalled (channel_signals (chan s)) && moved) s'
| flows_flush moved s s' : flows s0 moved s → flush_buffer s = (Ok tt, s') → sizes_ok (chan s') →
    flows s0 (signalled (channel_signals (chan s)) && moved) s'
| flows_answer pong moved s s' : flows s0 moved s → answer_of pong ≤ 2 ^ 62 →
    process_pong pong s = (Ok tt, s') →
    flows s0 (signalled (channel_signals (chan s)) && (moved || negb (out_window (chan s') =? out_window (chan s)))) s'.

(** The last ping was for [p], and only payloads have been sent since. *)
Definition last_ping (c : CockpitChannel) (p : Z) : Prop :=
  ∃ pre post, outgoing c = pre ++ (None, ping_message (id c) p) :: post ∧ Forall (λ m, m.1 = Some (id c)) post ∧
    (post = [] → p = out_sequence c) ∧ p ≤ out_sequence c ∧ p / CHANNEL_FLOW_PING = out_sequence c / CHANNEL_FLOW_PING.

Record flow_inv (moved : bool) (c : CockpitChannel) : Prop := {
  fi_alive : 0 < references c;
  fi_on : flow_control c = true;
  fi_sequence : 0 ≤ out_sequence c ≤ G_MAXINT64;
  fi_window : 0 ≤ out_window c ≤ 2 ^ 62 + CHANNEL_FLOW_WINDOW;
  fi_signal : signalled (channel_signals c) = (out_sequence c >? out_window c);
  fi_ping : signalled (channel_signals c) = true → ∃ p, last_ping c p ∧ (moved = false → out_window c < p)
}.

Lemma after_send_sizes payload c : sizes_ok (after_send payload c) → zlen payload ≤ G_MAXINT64.
Proof.
  destruct (after_send_outgoing payload c) as (control & E & _). unfold sizes_ok. rewrite E.
  intros [_ H1]%Forall_app. by apply Forall_cons in H1 as [H1 _].
Qed.

Lemma last_ping_payload payload c p : last_ping c p → u64 (G_MAXINT64 - zlen payload) >? out_sequence c = false →
  last_ping (c <| outgoing ::= λ l, l ++ [(Some (id c), payload)] |>) p.
Proof.
  intros (pre & post & E & Hp & _ & Hle & Hd) _. exists pre, (post ++ [(Some (id c), payload)]).
  split_and!; [cbn; by rewrite E, <- app_assoc|apply Forall_app; split; [done|by repeat constructor]|by destruct post|done|done].
Qed.

Lemma after_send_flow moved payload c : flow_inv moved c → zlen payload ≤ G_MAXINT64 →
  flow_inv (signalled (channel_signals c) && moved) (after_send payload c).
Proof.
  intros [Hr Hon Hseq Hwin Hsig Hping] Hz. unfold after_send. rewrite Hon. cbn [negb orb].
  pose proof (zlen_nonneg payload) as Hz0. unfold G_MAXINT64, CHANNEL_FLOW_WINDOW in *.
  assert (Ew : u64 (out_window c) = out_window c) by (apply Z.mod_small; lia).
  assert (Em : u64 (2 ^ 63 - 1 - zlen payload) = 2 ^ 63 - 1 - zlen payload) by (apply Z.mod_small; lia).
  destruct (u64 (2 ^ 63 - 1 - zlen payload) >? out_sequence c) eqn:Ef; cbn [negb].
  2:{ constructor; cbn; try done. intros Hs. rewrite Hs. destruct (Hping Hs) as (p & Hp & Hm). exists p. split; [|done].
      by apply last_ping_payload. }
  rewrite Em, Z.gtb_ltb, Z.ltb_lt in Ef. rewrite Ew.
  assert (Es : u64 (out_sequence c + zlen payload) = out_sequence c + zlen payload) by (apply Z.mod_small; lia).
  rewrite Es. set (n := out_sequence c + zlen payload) in *.
  set (trigger := (out_sequence c <=? out_window c) && (n >? out_window c)).
  assert (Hsig2 : signalled (channel_signals c ++ (if trigger then [ChannelPressure true] else [])) = (n >? out_window c) ∧
    (signalled (channel_signals c) = true → trigger = false)).
  { unfold trigger. rewrite Hsig. destruct (Z.leb_spec (out_sequence c) (out_window c)), (Z.gtb_spec n (out_window c)); cbn [andb];
      rewrite ?app_nil_r, ?signalled_snoc, ?Hsig, ?Z.gtb_ltb, ?Z.ltb_lt, ?Z.ltb_ge; split; try done; try lia. }
  destruct Hsig2 as [Hsig2 Htr]. constructor; cbn; try done; [unfold G_MAXINT64; lia|]. rewrite Hsig2. intros Hn.
  destruct (negb (n / CHANNEL_FLOW_PING =? out_sequence c / CHANNEL_FLOW_PING) || trigger) eqn:Eping.
  - exists n. split; [|intros _; rewrite Z.gtb_ltb, Z.ltb_lt in Hn; lia].
    exists (outgoing c ++ [(Some (id c), payload)]), []. by split_and!.
  - apply orb_false_iff in Eping as [Ed%negb_false_iff Et]. apply Z.eqb_eq in Ed. rewrite Et, app_nil_r in Hsig2. rewrite Hn in Hsig2.
    rewrite Hsig2. destruct (Hping Hsig2) as (p & (pre & post & E & Hp & _ & Hle & Hdp) & Hm). exists p. split; [|done].
    exists pre, (post ++ [(Some (id c), payload)]). cbn.
    split_and!; [by rewrite E, app_nil_r, <- app_assoc|apply Forall_app; split; [done|by repeat constructor]|by destruct post|unfold n; lia|congruence].
Qed.

Lemma flow_inv_buffer moved b t c : flow_inv moved c → flow_inv moved (c <| out_buffer := b |> <| buffer_timeout := t |>).
Proof. intros []. by constructor. Qed.

Lemma flow_inv_signalled moved c : flow_inv moved c → flow_inv (signalled (channel_signals c) && moved) c.
Proof. intros []. constructor; try done. intros Hs. rewrite Hs. by apply fi_ping0. Qed.

Lemma send_flow moved payload trust s : flow_inv moved (chan s) →
  ensures (cockpit_channel_send payload trust)
    (λ _ s', sizes_ok (chan s') → flow_inv (signalled (channel_signals (chan s)) && moved) (chan s')) s.
Proof.
  intros I. apply ensures_send; [apply I|..]; intros _ s' ->; intros Hz.
  - by apply flow_inv_buffer, flow_inv_signalled.
  - apply (after_send_flow moved _ (unbuffered (chan s))); [by apply flow_inv_buffer|by eapply after_send_sizes].
Qed.

Lemma flush_flow moved s : flow_inv moved (chan s) →
  ensures flush_buffer (λ _ s', sizes_ok (chan s') → flow_inv (signalled (channel_signals (chan s)) && moved) (chan s')) s.
Proof.
  intros I. apply ensures_bind, ensures_alive; [apply I|]. apply ensures_bind, ensures_get.
  destruct (out_buffer (chan s)) as [payload|] eqn:Eb; [|apply ensures_ret; intros _; by apply flow_inv_signalled].
  apply ensures_bind, ensures_put. intros s1 E1. apply ensures_actual_send; rewrite E1; [apply I|done..|].
  intros s2 -> Hz.
  pose proof (flow_inv_buffer moved None false _ I) as I'. pose proof (after_send_flow moved _ _ I' (after_send_sizes _ _ Hz)) as H1. exact H1.
Qed.

(** What an answer does *)
Definition after_pong (sequence : Z) (c : CockpitChannel) : CockpitChannel :=
  if sequence >=? out_window c then
    c <| out_window := sequence + CHANNEL_FLOW_WINDOW |>
      <| channel_signals ::= λ l, l ++ (if out_sequence c <=? sequence + CHANNEL_FLOW_WINDOW then [ChannelPressure false] else []) |>
  else c.

Lemma ensures_pong moved pong (Q : unit → S → Prop) s : flow_inv moved (chan s) → answer_of pong ≤ 2 ^ 62 →
  (∀ s', chan s' = after_pong (answer_of pong) (chan s) → Q tt s') → ensures (process_pong pong) Q s.
Proof.
  intros [Hr Hon Hseq Hwin Hsig Hping] Ha HQ. apply ensures_bind, ensures_alive; [done|]. apply ensures_bind, ensures_get.
  rewrite Hon. cbn [negb]. fold (answer_of pong). unfold after_pong in HQ. set (sequence := answer_of pong) in *.
  unfold fits_int64, G_MAXINT64, CHANNEL_FLOW_WINDOW in *.
  apply ensures_bind, ensures_require; [apply andb_true_iff; rewrite !Z.leb_le; lia|].
  destruct (Z.geb_spec sequence (out_window (chan s))) as [Hg|Hg]; [|by apply ensures_ret, HQ].
  apply ensures_bind, ensures_require; [apply andb_true_iff; rewrite !Z.leb_le; lia|].
  apply ensures_bind, ensures_put. intros s1 E1. apply ensures_when; intros E.
  - apply ensures_emit_pressure. intros s2 E2. apply HQ. by rewrite E2, E1, E.
  - apply HQ. rewrite E1, E. cbn. by rewrite app_nil_r.
Qed.

Lemma after_pong_flow moved sequence c : flow_inv moved c → sequence ≤ 2 ^ 62 →
  flow_inv (signalled (channel_signals c) && (moved || negb (out_window (after_pong sequence c) =? out_window c))) (after_pong sequence c).
Proof.
  intros I Ha. unfold after_pong. destruct (Z.geb_spec sequence (out_window c)) as [Hg|Hg].
  2:{ rewrite Z.eqb_refl. cbn [negb]. rewrite orb_false_r. by apply flow_inv_signalled. }
  destruct I as [Hr Hon Hseq Hwin Hsig Hping]. unfold CHANNEL_FLOW_WINDOW in *.
  destruct (Z.leb_spec (out_sequence c) (sequence + 2 * 1024 * 1024)) as [Hl|Hl]; constructor; cbn; try done; try (unfold CHANNEL_FLOW_WINDOW; lia).
  - rewrite signalled_snoc. symmetry. rewrite Z.gtb_ltb, Z.ltb_ge. lia.
  - rewrite signalled_snoc. done.
  - rewrite app_nil_r, Hsig. transitivity true; [|symmetry]; rewrite Z.gtb_ltb, Z.ltb_lt; lia.
  - rewrite app_nil_r. intros Hs. destruct (Hping Hs) as (p & Hp & _). exists p. split; [done|].
    rewrite Hs, (proj2 (Z.eqb_neq _ _)) by lia. cbn. by rewrite orb_true_r.
Qed.

Lemma flows_inv s0 moved s : flow_inv false (chan s0) → flows s0 moved s → flow_inv moved (chan s).
Proof.
  intros I0. induction 1 as [|payload trust moved s s' _ I E Hz|moved s s' _ I E Hz|pong moved s s' _ I Ha E]; [done|..].
  - by eapply (ensures_Ok _ _ s tt s' (send_flow moved payload trust s I)).
  - by eapply (ensures_Ok _ _ s tt s' (flush_flow moved s I)).
  - refine (ensures_Ok _ (λ _ s', flow_inv (_ && (moved || negb (out_window (chan s') =? _))) (chan s')) s tt s' (ensures_pong moved pong _ s I Ha _) E).
    intros s1 ->. by apply after_pong_flow.
Qed.

(** C38: the pressure that a channel has signalled is on just when more has been sent than the window allows, also when
    it is sent to while it is on.  Then there is a last ping, behind which only payloads have been sent, and it is for
    all that had been sent when it was, which is in the same block of [CHANNEL_FLOW_PING] bytes as all that has been
    sent now.  The answer to it takes the pressure off just if the window does not end behind that ping, which is so if nothing
    has been sent since the ping, or if no earlier answer has moved the window while the pressure was on (otherwise the
    pressure can stay on for ever, [pressure_stuck]).  Messages are smaller than [G_MAXINT64] and answers at most 2^62
    ([pong_overflows] shows what a larger one does). *)
Theorem pressure_relieved s0 moved s : flow_inv false (chan s0) → flows s0 moved s →
  signalled (channel_signals (chan s)) = (out_sequence (chan s) >? out_window (chan s)) ∧
  (signalled (channel_signals (chan s)) = true →
    ∃ p pre post, outgoing (chan s) = pre ++ (None, ping_message (id (chan s)) p) :: post ∧
      Forall (λ m, m.1 = Some (id (chan s))) post ∧ (post = [] → p = out_sequence (chan s)) ∧
      p ≤ out_sequence (chan s) ∧ p / CHANNEL_FLOW_PING = out_sequence (chan s) / CHANNEL_FLOW_PING ∧
      (moved = false ∨ post = [] → out_window (chan s) < p) ∧
      ∀ pong, answer_of pong = p → p ≤ 2 ^ 62 →
        ensures (process_pong pong) (λ _ s', signalled (channel_signals (chan s')) = bool_decide (p < out_window (chan s))) s).
Proof.
  intros I0 Hf. pose proof (flows_inv s0 moved s I0 Hf) as I. split; [apply I|]. intros Hs.
  pose proof (fi_signal _ _ I) as Hg. rewrite Hs in Hg. symmetry in Hg. rewrite Z.gtb_ltb, Z.ltb_lt in Hg.
  destruct (fi_ping _ _ I Hs) as (p & (pre & post & E & Hp & Hn & Hle & Hd) & Hm). exists p, pre, post. split_and!; try done.
  { intros [?|?]; [auto|]. by rewrite Hn. }
  intros pong Ha Hl. apply (ensures_pong moved); [done|lia|]. intros s' ->. unfold after_pong. rewrite Ha, Z.geb_leb.
  destruct (Z.leb_spec (out_window (chan s)) p) as [Hw|Hw].
  - assert (out_sequence (chan s) < p + CHANNEL_FLOW_PING).
    { pose proof (Z.mod_pos_bound (out_sequence (chan s)) CHANNEL_FLOW_PING). pose proof (Z.mod_pos_bound p CHANNEL_FLOW_PING).
      pose proof (Z.div_mod (out_sequence (chan s)) CHANNEL_FLOW_PING). pose proof (Z.div_mod p CHANNEL_FLOW_PING).
      rewrite Hd in *. unfold CHANNEL_FLOW_PING in *. lia. }
    rewrite (proj2 (Z.leb_le (out_sequence (chan s)) _)) by (unfold CHANNEL_FLOW_WINDOW, CHANNEL_FLOW_PING in *; lia).
    cbn. rewrite signalled_snoc, bool_decide_eq_false_2 by lia. done.
  - rewrite bool_decide_eq_true_2 by lia. done.
Qed.

(** *** Answers to pings *)

Inductive ping_event := Ping (ping : object) | ThrottlePressure (throttle : bool).

Definition ping_step (e : ping_event) : io unit :=
  match e with
  | Ping ping => _ ← process_ping ping; mret tt
  | ThrottlePressure throttle => on_throttle_pressure throttle
  end.

Fixpoint ping_run (events : list ping_event) : io unit :=
  match events with [] => mret tt | e :: events => _ ← ping_step e; ping_run events end.

Definition pings_of (events : list ping_event) : list object :=
  omap (λ e, match e with Ping ping => Some ping | ThrottlePressure _ => None end) events.

Definition pong_message (ping : object) : option (list Z) * list Z :=
  (None, write_bytes (json_object_set_member ping (bs "command") (JString (bs "pong")))).

(** The channel with pings answered, and others waiting *)
Definition after_pings (answered : list object) (waiting : option (list object)) (c : CockpitChannel) : CockpitChannel :=
  c <| outgoing ::= λ l, l ++ (pong_message <$> answered) |> <| throttled := waiting |>.

Lemma ensures_ping ping (Q : bool → S → Prop) s : 0 < references (chan s) →
  (∀ s', chan s' = match throttled (chan s) with
                   | Some queue => after_pings [] (Some (queue ++ [ping])) (chan s)
                   | None => after_pings [ping] None (chan s)
                   end → Q (bool_decide (throttled (chan s) = None)) s') →
  ensures (process_ping ping) Q s.
Proof.
  intros Hr HQ. apply ensures_bind, ensures_alive; [done|]. apply ensures_bind, ensures_get.
  destruct (throttled (chan s)) eqn:Et; apply ensures_bind, ensures_put; intros s' E; apply ensures_ret, HQ; rewrite E.
  - unfold after_pings. cbn. by rewrite app_nil_r.
  - unfold after_pings. destruct (chan s). cbn in *. by subst.
Qed.

Lemma after_pings_app a b w w' c : after_pings b w' (after_pings a w c) = after_pings (a ++ b) w' c.
Proof. unfold after_pings. cbn. by rewrite fmap_app, app_assoc. Qed.

Lemma after_pings_id c : after_pings [] (throttled c) c = c.
Proof. destruct c. unfold after_pings. cbn. by rewrite app_nil_r. Qed.

Lemma ensures_answers pings s : 0 < references (chan s) → throttled (chan s) = None →
  ensures (answer_pings pings) (λ _ s', chan s' = after_pings pings None (chan s)) s.
Proof.
  revert s. induction pings as [|ping pings IH]; intros s Hr Ht; cbn [answer_pings].
  { apply ensures_ret. rewrite <- Ht. by rewrite after_pings_id. }
  apply ensures_bind, ensures_ping; [done|]. rewrite Ht. intros s1 E1. apply ensures_bind, ensures_require; [done|].
  eapply ensures_mono; [apply IH; by rewrite E1|]. intros [] s2 ->. by rewrite E1, after_pings_app.
Qed.

Lemma ping_step_ok e s : 0 < references (chan s) →
  ensures (ping_step e) (λ _ s', ∃ answered waiting, chan s' = after_pings answered waiting (chan s) ∧
    default [] (throttled (chan s)) ++ pings_of [e] = answered ++ default [] waiting) s.
Proof.
  intros Hr. destruct e as [ping|[|]]; cbn [ping_step].
  - apply ensures_bind, ensures_ping; [done|]. intros s' E. apply ensures_ret. destruct (throttled (chan s)) as [queue|].
    + by exists [], (Some (queue ++ [ping])).
    + by exists [ping], None.
  - apply ensures_bind, ensures_alive; [done|]. apply ensures_bind, ensures_get. apply ensures_when; intros Ht.
    + apply bool_decide_eq_true in Ht. apply ensures_put. intros s' E. exists [], (Some []). rewrite Ht. split; [|done].
      rewrite E. destruct (chan s). unfold after_pings. cbn in *. by rewrite app_nil_r.
    + exists [], (throttled (chan s)). rewrite after_pings_id. by rewrite app_nil_r.
  - apply ensures_bind, ensures_alive; [done|]. apply ensures_bind, ensures_get. apply ensures_bind, ensures_put. intros s1 E1.
    eapply ensures_mono; [apply ensures_answers; by rewrite E1|]. intros [] s2 E2. eexists _, None. split; [|cbn; by rewrite !app_nil_r].
    rewrite E2, E1. unfold after_pings. by cbn.
Qed.

(** Every ping of the peer is answered once and in order: at once, or, of a channel that is
    throttled, when it no longer is. *)
Theorem pings_answered events s : 0 < references (chan s) →
  ensures (ping_run events) (λ _ s', ∃ answered,
    outgoing (chan s') = outgoing (chan s) ++ (pong_message <$> answered) ∧
    default [] (throttled (chan s)) ++ pings_of events = answered ++ default [] (throttled (chan s'))) s.
Proof.
  intros Hr. eapply (ensures_mono _ (λ _ s', ∃ answered waiting, chan s' = after_pings answered waiting (chan s) ∧
    default [] (throttled (chan s)) ++ pings_of events = answered ++ default [] waiting)).
  2:{ intros [] s' (answered & waiting & -> & E). by exists answered. }
  revert s Hr. induction events as [|e events IH]; intros s Hr; cbn [ping_run].
  { apply ensures_ret. exists [], (throttled (chan s)). rewrite after_pings_id. by rewrite app_nil_r. }
  eapply ensures_seq; [by apply ping_step_ok|]. intros [] s1 (a & w & E1 & Ea).
  eapply ensures_mono; [apply IH; by rewrite E1|]. intros [] s2 (a2 & w2 & E2 & Ea2). exists (a ++ a2), w2.
  rewrite E2, E1, after_pings_app. split; [done|]. rewrite E1 in Ea2. cbn in Ea2.
  change (e :: events) with ([e] ++ events). unfold pings_of. rewrite omap_app. fold (pings_of [e]) (pings_of events).
  by rewrite app_assoc, Ea, <- !app_assoc, Ea2.
Qed.
End Pressure.
End Channel.

(** ** A channel by itself

    The state is the channel, and nothing is fed by it. *)

#[export] Instance whole_setter : Setter (λ c : CockpitChannel, c) := λ f c, f c.

#[export] Instance whole_field : Field (λ c : CockpitChannel, c).
Proof. done. Qed.

Notation whole := (λ c : CockpitChannel, c).

Definition unfed (throttle : bool) : prog CockpitChannel unit unit := mret tt.

Definition no_double (d : spec_float) : list Z := [].
Definition no_int (d : spec_float) : Z := 0.

Definition example_channel : CockpitChannel := (channel_new (bs "4") []) <| flow_control := true |>.

(** "hé", with the second character cut, flushed before it is complete *)
Definition example_text : list text_event :=
  [TextBlock [104; 195]; FlushTimeout; TextBlock [169]; TextBlock [104; 195]; TextBlock [169]].

Lemma sent_text_valid_witness :
  ensures (text_run no_double whole unfed example_text) (λ _ c, ∃ texts,
    sent_since example_channel c texts ∧ Forall valid texts) example_channel.
Proof. apply (sent_text_valid no_double whole unfed (λ b s, eq_refl)); reflexivity. Defined.

Definition example_blocks : list (list Z) := [[104; 195]; [169; 226; 130]; []; [172; 33]].

Lemma text_in_blocks_witness :
  ensures (text_run no_double whole unfed (TextBlock <$> example_blocks)) (λ _ c, ∃ texts,
    sent_since example_channel c texts ∧ Forall valid texts ∧
    concat texts = [104; 195; 169; 226; 130; 172; 33] ∧ out_buffer c = None) example_channel.
Proof. apply (text_in_blocks no_double whole unfed (λ b s, eq_refl) example_blocks); reflexivity. Defined.

(** A channel that is about to use up its window *)
Definition full_channel : CockpitChannel := example_channel <| out_sequence := CHANNEL_FLOW_WINDOW |>.

Definition pressed_channel : CockpitChannel :=
  after_send no_double (bs "data") (full_channel <| buffer_timeout := false |>).

Lemma full_channel_inv : flow_inv no_double false full_channel.
Proof.
  constructor; [by vm_compute|by vm_compute|split; by vm_compute|split; by vm_compute|by vm_compute|]. intros H. by vm_compute in H.
Qed.

(** A byte is sent under pressure. *)
Definition overfull_channel : CockpitChannel := after_send no_double [33] pressed_channel.

Lemma pressure_relieved_witness :
  signalled (channel_signals overfull_channel) = (out_sequence overfull_channel >? out_window overfull_channel) ∧
  (signalled (channel_signals overfull_channel) = true →
    ∃ p pre post, outgoing overfull_channel = pre ++ (None, ping_message no_double (id overfull_channel) p) :: post ∧
      Forall (λ m, m.1 = Some (id overfull_channel)) post ∧ (post = [] → p = out_sequence overfull_channel) ∧
      p ≤ out_sequence overfull_channel ∧ p / CHANNEL_FLOW_PING = out_sequence overfull_channel / CHANNEL_FLOW_PING ∧
      (false = false ∨ post = [] → out_window overfull_channel < p) ∧
      ∀ pong, answer_of no_int pong = p → p ≤ 2 ^ 62 →
        ensures (process_pong no_int whole unfed pong)
          (λ _ c, signalled (channel_signals c) = bool_decide (p < out_window overfull_channel)) overfull_channel).
Proof.
  apply (pressure_relieved no_double no_int whole unfed (λ b s, eq_refl) full_channel false overfull_channel full_channel_inv).
  assert (H : ∀ payload s s', flows no_double no_int whole unfed full_channel false s →
    cockpit_channel_send no_double whole unfed payload true s = (Ok tt, s') → sizes_ok s' → flows no_double no_int whole unfed full_channel false s').
  { intros payload s s' Hf E Hz. rewrite <- (andb_false_r (signalled (channel_signals s))). by eapply (flows_send _ _ whole). }
  apply (H [33] pressed_channel); [|by vm_compute|repeat constructor; by vm_compute].
  apply (H (bs "data") full_channel); [apply flows_start|by vm_compute|repeat constructor; by vm_compute].
Defined.

Definition example_pings : list ping_event :=
  [Ping [(bs "a", JInt 1)]; ThrottlePressure true; Ping [(bs "b", JInt 2)]; Ping [(bs "c", JInt 3)]; ThrottlePressure false].

Lemma pings_answered_witness :
  ensures (ping_run no_double whole example_pings) (λ _ c, ∃ answered,
    outgoing c = [] ++ (pong_message no_double <$> answered) ∧
    [] ++ [[(bs "a", JInt 1)]; [(bs "b", JInt 2)]; [(bs "c", JInt 3)]] = answered ++ default [] (throttled c)) example_channel.
Proof. apply (pings_answered no_double whole example_pings example_channel). reflexivity. Defined.

(** ** Findings *)

(** The sequence number of an answer is not checked before the window is added to it. *)
Lemma pong_overflows :
  (process_pong no_int whole unfed [(bs "sequence", JInt G_MAXINT64)] example_channel).1 = Fault.
Proof. by vm_compute. Qed.

(** Data sent under pressure.  The answer to the ping that came with the pressure moves the window to two megabytes behind
    it, which is not enough; the last ping is for a little less than the end of that window, so its answer is ignored.
    All pings have been answered and the pressure stays on. *)
Definition data (size : Z) : list Z := replicate (Z.to_nat size) 33.
Definition sent_pressed : CockpitChannel :=
  foldl (λ c size, (cockpit_channel_send no_double whole unfed (data size) true c).2) example_channel
    [CHANNEL_FLOW_WINDOW - CHANNEL_FLOW_PING; CHANNEL_FLOW_PING - 1; 11; CHANNEL_FLOW_WINDOW - 8; 20].

Lemma pressure_stuck :
  let pings := [CHANNEL_FLOW_WINDOW - CHANNEL_FLOW_PING; CHANNEL_FLOW_WINDOW + 10; 2 * CHANNEL_FLOW_WINDOW + 2] in
  let answered := foldl (λ c sequence, (process_pong no_int whole unfed [(bs "sequence", JInt sequence)] c).2) sent_pressed pings in
  omap (λ m, match m.1 with None => Some m.2 | Some _ => None end) (outgoing sent_pressed) = ping_message no_double (bs "4") <$> pings ∧
  signalled (channel_signals answered) = true.
Proof. cbv zeta. split; by vm_compute. Qed.

(** A channel whose owner lets go of it when it is closed: a second ["done"] closes it, and then the class
    of the channel that has been freed is used. *)
Definition dropped (problem : option (list Z)) : prog CockpitChannel unit unit :=
  g_object_unref whole (cockpit_channel_dispose whole (λ _, fault)).

Lemma second_done_uses_freed_channel :
  (process_control no_double no_int whole unfed (cockpit_channel_real_close no_double whole unfed dropped)
    (λ _ _, mret tt) (bs "done") [] (example_channel <| received_done := true |>)).1 = Fault.
Proof. by vm_compute. Qed.

(** Answers to pings within the first window do not move it: with a window of data sent and all but a byte
    of it confirmed, one more byte puts the pressure on. *)
Lemma window_does_not_slide :
  let c := (process_pong no_int whole unfed [(bs "sequence", JInt (CHANNEL_FLOW_WINDOW - 1))] full_channel).2 in
  out_window c = CHANNEL_FLOW_WINDOW ∧
  signalled (channel_signals (cockpit_channel_send no_double whole unfed [33] true c).2) = true.
Proof. split; by vm_compute. Qed.
