(* ===== verification/Pipe.v ===== *)
(** * Pipes: [src/common/cockpitpipe.c]

    A pipe reads and writes a socket, or the input and output of a process, in the main loop: what is
    written waits in a queue, what is read collects in a buffer for the handler of the signal ["read"],
    and when both are done and the process has exited the pipe is closed, and says so once.

    A pipe is a part of a state, [pipe]; the handlers of its signals are programs on that state, which may
    use the pipe.  What the system calls do is given with each event; the bytes that have been
    written, the descriptors that have been closed, and the signals are recorded in the pipe.

    Shown: as long as [shutdown] succeeds or says that the descriptor is no socket, and the handlers leave the invariant, no event makes
    a pipe fault; it is closed once, its descriptors are not left open, and are closed no more often than they were given; what
    is written is the beginning of what was queued, in order, and all of it once the system has taken it; the
    state of the pressure is the one last signalled; the environment of a process has the variables that are asked
    for.  Where the conditions do not hold: [shutdown_uses_freed_pipe], [socket_closed_twice]. *)

From S2P Require Import Prelude Objects Unicode.
#[local] Open Scope Z_scope.

(** [errno] as Linux numbers it *)
Definition EPERM : errno := EOTHER 1.
Definition ENOENT : errno := EOTHER 2.
Definition EBADF : errno := EOTHER 9.
Definition EACCES : errno := EOTHER 13.
Definition EPIPE : errno := EOTHER 32.
Definition ENOTSOCK : errno := EOTHER 88.
Definition ECONNREFUSED : errno := EOTHER 111.
Definition EINPROGRESS : errno := EOTHER 115.

Definition DEF_PACKET_SIZE : Z := 64 * 1024.
Definition QUEUE_PRESSURE : Z := 1024 * 1024.
Definition G_MAXSIZE : Z := 2 ^ 64 - 1.

Inductive pipe_signal :=
| Read (buffer : list Z) (end_of_data : bool)
| Close (problem : option (list Z))
| PipePressure (throttle : bool).

Record CockpitPipe := mkPipe {
  closed : bool;
  closing : bool;
  connecting : bool;
  problem : option (list Z);
  pid : Z;
  child : bool;                       (* the source that watches for the end of the process *)
  exited : bool;
  status : Z;
  is_process : bool;
  out_fd : Z;
  out_done : bool;
  out_source : bool;
  out_polled : bool;                  (* the source is in the main loop *)
  out_queue : list (list Z);
  out_queued : Z;
  out_partial : Z;
  in_fd : Z;
  in_done : bool;
  in_source : bool;
  in_buffer : list Z;
  err_fd : Z;
  err_done : bool;
  err_source : bool;
  err_buffer : option (list Z);
  err_forward_to_log : bool;
  is_user_fd : bool;
  pressure : bool;                    (* whether a flow throttles the pipe *)
  references : Z;
  later : Z;                          (* idle sources that will close the pipe *)
  (* what the outside has seen, and what it has given *)
  held : Z;                           (* references of those who use the pipe *)
  opened_fds : list Z;
  closed_fds : list Z;
  received : list Z;
  accepted : list Z;
  written : list Z;
  killed : bool;
  signals : list pipe_signal
}.

#[export] Instance pipe_eta : Settable CockpitPipe := λ p,
  mkPipe (closed p) (closing p) (connecting p) (problem p) (pid p) (child p) (exited p) (status p) (is_process p)
    (out_fd p) (out_done p) (out_source p) (out_polled p) (out_queue p) (out_queued p) (out_partial p)
    (in_fd p) (in_done p) (in_source p) (in_buffer p)
    (err_fd p) (err_done p) (err_source p) (err_buffer p) (err_forward_to_log p)
    (is_user_fd p) (pressure p) (references p) (later p) (held p) (opened_fds p) (closed_fds p) (received p) (accepted p)
    (written p) (killed p) (signals p).

(** ** What the system does *)

Inductive read_result := ReadBytes (data : list Z) | ReadError (e : errno).
Inductive write_result := Wrote (count : Z) | WriteError (e : errno).
(** [getsockopt] of [SO_ERROR] *)
Inductive sockopt_result := SockoptFailed | SoError (e : option errno).

Section Pipe.
Context {S : Type} (pipe : S → CockpitPipe) `{!Setter pipe}.

Notation io := (prog S unit).
#[local] Instance io_ret : MRet io := λ A a, prog_ret A a.
#[local] Instance io_bind : MBind io := λ A B f m, prog_bind A B f m.

Definition self : io CockpitPipe := get pipe.
Definition put (f : CockpitPipe → CockpitPipe) : io unit := modify (update pipe f).

(** Using a pipe that has been freed is a fault. *)
Definition alive : io unit := p ← self; require (0 <? references p).

Definition stop_output : io unit :=
  _ ← alive; p ← self; _ ← require (out_source p); put (λ p, p <| out_source := false |> <| out_polled := false |>).
Definition stop_input : io unit :=
  _ ← alive; p ← self; _ ← require (in_source p); put (λ p, p <| in_source := false |>).
Definition stop_error : io unit :=
  _ ← alive; p ← self; _ ← require (err_source p); put (λ p, p <| err_source := false |>).
Definition start_output : io unit :=
  _ ← alive; p ← self; _ ← require (negb (out_source p)); put (λ p, p <| out_source := true |> <| out_polled := true |>).
Definition start_input : io unit :=
  _ ← alive; p ← self; _ ← require (negb (in_source p)); put (λ p, p <| in_source := true |>).

Definition close_fd (fd : Z) : io unit := put (λ p, p <| closed_fds ::= λ l, l ++ [fd] |>).

Definition cockpit_close_later : io unit :=
  put (λ p, p <| references ::= λ n, n + 1 |> <| later ::= λ n, n + 1 |>).

Definition set_problem_from_errno (e : errno) : io unit :=
  _ ← alive;
  put (λ p,
    let problem' :=
      if bool_decide (e = EPERM) || bool_decide (e = EACCES) then bs "access-denied"
      else if bool_decide (e = ENOENT) || bool_decide (e = ECONNREFUSED) then bs "not-found"
      else if bool_decide (e = EBADF) && is_user_fd p then bs "protocol-error"
      else bs "internal-error" in
    p <| problem := Some problem' |>).

(** ** Closing *)

Section Close.
(** The signal ["close"]: it is recorded, and its handlers run. *)
Context (emit_close : option (list Z) → io unit).

Definition close_immediately (problem' : option (list Z)) : io unit :=
  _ ← alive;
  p ← self;
  if closed p then mret tt
  else
    _ ← when (bool_decide (is_Some problem')) (put (λ p, p <| problem := problem' |>));
    _ ← put (λ p, p <| closed := true |>);
    _ ← when (in_source p) stop_input;
    _ ← put (λ p, p <| in_done := true |>);
    _ ← when (out_source p) stop_output;
    _ ← put (λ p, p <| out_done := true |>);
    _ ← when (err_source p) stop_error;
    _ ← put (λ p, p <| err_done := true |>);
    _ ← when (negb (in_fd p =? -1)) (_ ← close_fd (in_fd p); put (λ p, p <| in_fd := -1 |>));
    _ ← when (negb (out_fd p =? -1)) (_ ← close_fd (out_fd p); put (λ p, p <| out_fd := -1 |>));
    _ ← when (negb (err_fd p =? -1)) (_ ← close_fd (err_fd p); put (λ p, p <| err_fd := -1 |>));
    _ ← when (bool_decide (is_Some problem') && negb (pid p =? 0) && negb (exited p)) (put (λ p, p <| killed := true |>));
    p ← self;
    when (negb (child p)) (emit_close (problem p)).

Definition close_maybe : io unit :=
  _ ← alive;
  p ← self;
  when (negb (closed p) && in_done p && out_done p && err_done p) (close_immediately None).

(** [shutdown] is what [shutdown (out_fd, SHUT_WR)] reports. *)
Definition close_output (shutdown : option errno) : io unit :=
  _ ← alive;
  _ ← put (λ p, p <| out_done := true |>);
  p ← self;
  _ ← when (negb (out_fd p =? -1)) (
    match shutdown with
    | None => mret tt
    | Some e =>
        if bool_decide (e = ENOTSOCK) then
          _ ← close_fd (out_fd p);
          _ ← when (in_fd p =? out_fd p) (
            _ ← put (λ p, p <| in_done := true |> <| in_fd := -1 |>);
            when (in_source p) stop_input);
          put (λ p, p <| out_fd := -1 |>)
        else close_immediately (Some (bs "internal-error"))
    end);
  close_maybe.

(** The process has ended; the pipe may be gone. *)
Definition on_child_reap (status' : Z) (shutdown : option errno) : io unit :=
  p ← self;
  if references p <=? 0 then mret tt
  else
    _ ← put (λ p, p <| status := status' |> <| exited := true |> <| child := false |>);
    if negb (out_done p) then close_output shutdown
    else when (closed p) (emit_close (problem p)).

(** ** Reading *)

Definition g_object_ref : io unit := _ ← alive; put (λ p, p <| references ::= λ n, n + 1 |>).

Definition cockpit_pipe_dispose : io unit :=
  p ← self;
  _ ← when (negb (pid p =? 0) && negb (exited p)) (put (λ p, p <| killed := true |>));
  _ ← when (negb (closed p)) (close_immediately (Some (bs "terminated")));
  put (λ p, p <| pressure := false |> <| out_queue := [] |> <| out_queued := 0 |>).

Definition cockpit_pipe_finalize : io unit :=
  p ← self; require (closed p && negb (in_source p) && negb (out_source p)).

Definition g_object_unref : io unit :=
  _ ← alive;
  p ← self;
  _ ← when (references p =? 1) (_ ← cockpit_pipe_dispose; cockpit_pipe_finalize);
  put (λ p, p <| references ::= λ n, n - 1 |>).

Section Input.
Context (on_read : io unit).

(** What is done with the bytes, none at the end of the input *)
Definition input_read (data : list Z) : io unit :=
  _ ← put (λ p, p <| in_buffer ::= λ l, l ++ data |> <| received ::= λ l, l ++ data |>);
  _ ← when (bool_decide (data = [])) (_ ← put (λ p, p <| in_done := true |>); stop_input);
  _ ← g_object_ref;
  _ ← put (λ p, p <| signals ::= λ l, l ++ [Read (in_buffer p) (in_done p)] |>);
  _ ← on_read;
  p ← self;
  _ ← when (in_done p) close_maybe;
  g_object_unref.

(** [hup]: the condition is [G_IO_HUP] alone, and there is no call of [read]. *)
Definition dispatch_input (hup : bool) (result : read_result) : io unit :=
  _ ← alive;
  p ← self;
  if negb (in_source p) then mret tt
  else if hup then input_read []
  else
    match result with
    | ReadBytes data => input_read data
    | ReadError e =>
        if bool_decide (e = EAGAIN) || bool_decide (e = EINTR) then mret tt
        else if bool_decide (e = ECONNRESET) then input_read []
        else _ ← set_problem_from_errno e; close_immediately None
    end.
End Input.

(** [forward_error] puts what is in the buffer into the log, and empties it. *)
Definition forward_error : io unit := put (λ p, p <| err_buffer ::= fmap (λ _, []) |>).

Definition error_read (data : list Z) : io unit :=
  _ ← put (λ p, p <| err_buffer ::= fmap (λ l, l ++ data) |>);
  p ← self;
  _ ← when (err_forward_to_log p) forward_error;
  _ ← when (bool_decide (data = [])) (_ ← put (λ p, p <| err_done := true |>); stop_error);
  _ ← g_object_ref;
  p ← self;
  _ ← when (err_done p) close_maybe;
  g_object_unref.

Definition dispatch_error (hup : bool) (result : read_result) : io unit :=
  _ ← alive;
  p ← self;
  if negb (err_source p) then mret tt
  else if hup then error_read []
  else
    match result with
    | ReadBytes data => error_read data
    | ReadError e =>
        if bool_decide (e = EAGAIN) || bool_decide (e = EINTR) then when (err_forward_to_log p) forward_error
        else close_immediately (Some (bs "internal-error"))
    end.

(** While there is something to read, as [poll] says: one result for each time. *)
Fixpoint drain_error (results : list read_result) : io unit :=
  match results with
  | [] => mret tt
  | result :: results =>
      _ ← alive;
      p ← self;
      if err_source p then _ ← dispatch_error false result; drain_error results else mret tt
  end.

(** ** Writing *)

(** Whether writing can go on. *)
Definition dispatch_connect (result : sockopt_result) : io bool :=
  _ ← put (λ p, p <| connecting := false |>);
  match result with
  | SockoptFailed => _ ← close_immediately (Some (bs "internal-error")); mret false
  | SoError None => mret true
  | SoError (Some e) =>
      if bool_decide (e = EINPROGRESS) then _ ← put (λ p, p <| connecting := true |>); mret false
      else _ ← set_problem_from_errno e; _ ← close_immediately None; mret false
  end.

(** At most four blocks are written at a time, the first without what has been written of it. *)
Definition output_vector (p : CockpitPipe) : list (list Z) :=
  match take 4 (out_queue p) with
  | [] => []
  | block :: blocks => drop (Z.to_nat (out_partial p)) block :: blocks
  end.

(** The loop that works out what was written *)
Fixpoint written_loop (ret : Z) (vector : list (list Z)) : io unit :=
  match vector with
  | [] => mret tt
  | v :: vector =>
      if negb (ret >? 0) then mret tt
      else if ret >=? zlen v then
        p ← self;
        match out_queue p with
        | [] => fault
        | popped :: queue =>
            _ ← require (zlen popped <=? out_queued p);
            _ ← put (λ p, p <| out_queue := queue |> <| out_queued := out_queued p - zlen popped |> <| out_partial := 0 |>);
            written_loop (ret - zlen v) vector
        end
      else
        _ ← put (λ p, p <| out_partial ::= λ n, n + ret |>);
        written_loop 0 vector
  end.

Section Output.
Context (on_pressure : bool → io unit).

Definition cockpit_flow_emit_pressure (throttle : bool) : io unit :=
  _ ← put (λ p, p <| signals ::= λ l, l ++ [PipePressure throttle] |>);
  on_pressure throttle.

(** If all has been written, the output is not polled any more. *)
Definition output_done (shutdown : option errno) : io unit :=
  p ← self;
  if bool_decide (out_queue p ≠ []) then mret tt
  else
    _ ← stop_output;
    if closing p then close_output shutdown else close_maybe.

(** What is done once there is a connection.  A source whose function returns [FALSE] is taken out of the
    main loop. *)
Definition output_write (result : write_result) (shutdown : option errno) : io unit :=
  p ← self;
  if negb (out_source p) then mret tt
  else
    let before := out_queued p in
    let vector := output_vector p in
    _ ← require (match out_queue p with
                 | block :: _ => (out_partial p =? 0) || (out_partial p <? zlen block)
                 | [] => true
                 end);
    match (if bool_decide (vector = []) then Wrote 0 else result) with
    | WriteError e =>
        if bool_decide (e = EAGAIN) || bool_decide (e = EINTR) then put (λ p, p <| out_polled := false |>)
        else if bool_decide (e = EPIPE) then close_immediately (Some (bs "terminated"))
        else _ ← set_problem_from_errno e; close_immediately None
    | Wrote ret =>
        _ ← (_ ← put (λ p, p <| written ::= λ l, l ++ take (Z.to_nat ret) (concat vector) |>);
             written_loop ret vector);
        p ← self;
        _ ← when ((before >=? QUEUE_PRESSURE) && (out_queued p <? QUEUE_PRESSURE)) (cockpit_flow_emit_pressure false);
        output_done shutdown
    end.

Definition dispatch_output (connect : sockopt_result) (result : write_result) (shutdown : option errno) : io unit :=
  _ ← alive;
  p ← self;
  go ← (if connecting p then dispatch_connect connect else mret true);
  if go : bool then output_write result shutdown else mret tt.

Definition cockpit_pipe_write (data : list Z) : io unit :=
  _ ← alive;
  p ← self;
  if closed p then mret tt                      (* whether or not the process is waited for *)
  else
    let size := zlen data in
    if size =? 0 then mret tt
    else
      let before := out_queued p in
      if negb (u64 (G_MAXSIZE - size) >? before) then mret tt
      else
        let queued := u64 (before + size) in
        _ ← put (λ p, p <| out_queued := queued |> <| out_queue ::= λ l, l ++ [data] |>
                        <| accepted ::= λ l, l ++ data |>);
        _ ← when ((before <? QUEUE_PRESSURE) && (queued >=? QUEUE_PRESSURE)) (cockpit_flow_emit_pressure true);
        p ← self;
        when (negb (out_source p) && (0 <=? out_fd p)) start_output.
End Output.

Definition cockpit_pipe_close (problem' : option (list Z)) (shutdown : option errno) : io unit :=
  _ ← alive;
  _ ← put (λ p, p <| closing := true |>);
  p ← self;
  match problem' with
  | Some _ => close_immediately problem'
  | None => when (bool_decide (out_queue p = [])) (close_output shutdown)
  end.

(** The idle source has a reference, which goes with it. *)
Definition on_later_close : io unit :=
  _ ← put (λ p, p <| later ::= λ n, n - 1 |>);
  _ ← close_immediately None;
  g_object_unref.

(** References of those who use the pipe *)
Definition pipe_ref : io unit := _ ← g_object_ref; put (λ p, p <| held ::= λ n, n + 1 |>).
Definition pipe_unref : io unit := _ ← put (λ p, p <| held ::= λ n, n - 1 |>); g_object_unref.

(** What the process has written to its standard error, as text: the buffer is emptied.  The placeholder for
    the NUL is cut off again. *)
Definition cockpit_pipe_take_stderr_as_utf8 `{Utf8} (results : list read_result) : io (option (list Z)) :=
  _ ← drain_error results;
  _ ← alive;
  p ← self;
  match err_buffer p with
  | None => mret None
  | Some buffer =>
      _ ← put (λ p, p <| err_buffer := Some [] |>);
      let clean := cockpit_unicode_force_utf8 (buffer ++ bs "x") in
      _ ← require (0 <? zlen clean);
      mret (Some (take (length clean - 1) clean))
  end.
End Close.

Definition cockpit_pipe_stop_stderr_capture : io unit :=
  _ ← alive;
  p ← self;
  when (bool_decide (is_Some (err_buffer p))) (_ ← put (λ p, p <| err_forward_to_log := true |>); forward_error).

(** ** The buffer *)

(** GLib removes nothing if there are not as many bytes, and counts them as a [guint]. *)
Definition g_byte_array_remove_range (length_ : Z) : io unit :=
  p ← self;
  when (u32 length_ <=? zlen (in_buffer p)) (put (λ p, p <| in_buffer ::= drop (Z.to_nat (u32 length_)) |>)).

(** The bytes before, the bytes that are returned, and the bytes after them are taken off. *)
Definition cockpit_pipe_consume (before length_ after : Z) : io (list Z) :=
  p ← self;
  let buffer := in_buffer p in
  _ ← require (before + length_ <=? zlen buffer);
  let bytes := take (Z.to_nat length_) (drop (Z.to_nat before) buffer) in
  let all := u64 (before + length_ + after) in
  _ ← (if all =? zlen buffer then put (λ p, p <| in_buffer := [] |>) else g_byte_array_remove_range all);
  mret bytes.

Definition cockpit_pipe_skip (skip : Z) : io unit := g_byte_array_remove_range skip.

(** ** Throttling *)

Definition on_throttle_pressure (throttle : bool) : io unit :=
  _ ← alive;
  p ← self;
  if throttle then when (in_source p) stop_input
  else when (negb (in_source p) && negb (in_done p)) start_input.

Definition cockpit_pipe_throttle (controlling : bool) : io unit := put (λ p, p <| pressure := controlling |>).
(** ** The signal ["close"]

    No pipe is closed while its handlers run: it has been. *)

Definition signal_close (on_close : option (list Z) → io unit) (problem' : option (list Z)) : io unit :=
  _ ← put (λ p, p <| signals ::= λ l, l ++ [Close problem'] |>);
  _ ← g_object_ref;
  _ ← on_close problem';
  g_object_unref (λ _, fault).
End Pipe.

(** ** New pipes

    The descriptors and the process of a pipe are given when it is made. *)

Definition cockpit_pipe_constructed (in_fd out_fd err_fd pid : Z) : CockpitPipe :=
  let has (fd : Z) := 0 <=? fd in
  mkPipe false false false None pid (negb (pid =? 0)) false (-1) (negb (pid =? 0))
    out_fd (negb (has out_fd)) (has out_fd) (has out_fd) [] 0 0
    in_fd (negb (has in_fd)) (has in_fd) []
    err_fd (negb (has err_fd)) (has err_fd) (if has err_fd then Some [] else None) false
    false false 1 0 1 (filter (λ fd, has fd = true) [in_fd; out_fd; err_fd]) [] [] [] [] false [].

Notation whole := (λ p : CockpitPipe, p).
#[export] Instance whole_setter : Setter whole := λ f p, f p.
#[export] Instance whole_field : Field whole.
Proof. done. Qed.

Definition cockpit_pipe_new (in_fd out_fd : Z) : CockpitPipe := cockpit_pipe_constructed in_fd out_fd (-1) 0.

Definition cockpit_pipe_new_user_fd (fd : Z) : CockpitPipe := (cockpit_pipe_new fd fd) <| is_user_fd := true |>.

(** The pipe will be closed with its problem. *)
Definition close_later (p : CockpitPipe) : CockpitPipe := (cockpit_close_later whole p).2.

(** What became of the socket *)
Inductive connect_result :=
| NoSocket (e : errno)
| Connected (sock : Z)
| Connecting (sock : Z)
| NotConnected (e : errno).

Definition cockpit_pipe_connect (result : connect_result) : CockpitPipe :=
  match result with
  | Connected sock => cockpit_pipe_new sock sock
  | Connecting sock => (cockpit_pipe_new sock sock) <| connecting := true |>
  | NoSocket e | NotConnected e => close_later (set_problem_from_errno whole e (cockpit_pipe_new (-1) (-1))).2
  end.

(** What [g_spawn_async_with_pipes] did, with the errors that are told apart *)
Inductive spawn_error := SPAWN_NOENT | SPAWN_PERM | SPAWN_OTHER.
Inductive spawn_result :=
| Spawned (pid stdin stdout stderr : Z)
| NotSpawned (e : spawn_error).

Definition spawn_problem (e : spawn_error) : list Z :=
  match e with
  | SPAWN_NOENT => bs "not-found"
  | SPAWN_PERM => bs "access-denied"
  | SPAWN_OTHER => bs "internal-error"
  end.

Definition cockpit_pipe_spawn (stderr_to_memory : bool) (result : spawn_result) : CockpitPipe :=
  match result with
  | Spawned pid stdin stdout stderr =>
      (cockpit_pipe_constructed stdout stdin (if stderr_to_memory then stderr else -1) pid) <| is_process := true |>
  | NotSpawned e =>
      close_later ((cockpit_pipe_constructed (-1) (-1) (-1) 0) <| is_process := true |> <| problem := Some (spawn_problem e) |>)
  end.

(** [forkpty] in the parent *)
Definition cockpit_pipe_pty (result : option (Z * Z)) : CockpitPipe :=
  match result with
  | Some (pid, fd) => cockpit_pipe_constructed fd fd (-1) pid
  | None => close_later ((cockpit_pipe_constructed (-1) (-1) (-1) 0) <| problem := Some (bs "internal-error") |>)
  end.

(** [None] if there is no process *)
Definition cockpit_pipe_get_pid (p : CockpitPipe) : option Z := if is_process p then Some (pid p) else None.

(** ** The environment of a process *)

(** A variable with its value, ["NAME=value"], or a name *)
Definition name_of (variable : list Z) : list Z :=
  match strchr variable 61 with
  | Some pos => take (Z.to_nat pos) variable
  | None => variable
  end.

Definition environ_find (env : list (list Z)) (variable : list Z) : option nat :=
  fst <$> list_find (λ e, prefixb (name_of variable ++ [61]) e = true) env.

Definition environ_set (env : list (list Z)) (variable : list Z) : list (list Z) :=
  match environ_find env variable with
  | Some x => <[x := variable]> env
  | None => env ++ [variable]
  end.

(** [g_environ_setenv], which replaces or adds a variable *)
Definition g_environ_setenv (env : list (list Z)) (name value : list Z) : list (list Z) :=
  environ_set env (name ++ [61] ++ value).

(** [environ] is the environment of the program itself. *)
Definition cockpit_pipe_get_environ (environ : list (list Z)) (input : list (list Z)) (directory : option (list Z))
    : list (list Z) :=
  let env := foldl environ_set environ input in
  let had_pwd := existsb (prefixb (bs "PWD=")) input in
  match directory with
  | Some directory => if had_pwd then env else g_environ_setenv env (bs "PWD") directory
  | None => env
  end.

(** Whether the program is looked for in the [PATH] of its own environment *)
Definition path_from_environ (env : list (list Z)) : bool := existsb (prefixb (bs "PATH=")) env.

(** ** A pipe in the main loop

    What the main loop, the system, and those who have references do with a pipe *)

Inductive event :=
| Input (hup : bool) (result : read_result)
| Output (connect : sockopt_result) (result : write_result) (shutdown : option errno)
| Error (hup : bool) (result : read_result)
| Reaped (status : Z) (shutdown : option errno)
| Later
| Throttled (throttle : bool)
| DoWrite (data : list Z)
| DoClose (problem : option (list Z)) (shutdown : option errno)
| DoThrottle (controlling : bool)
| DoStopCapture
| DoRef
| DoUnref.

(** What [writev] can report: not more than there is *)
Definition write_possible (result : write_result) (p : CockpitPipe) : bool :=
  match result with
  | Wrote ret => (0 <=? ret) && (ret <=? zlen (concat (output_vector p)))
  | WriteError _ => true
  end.

(** Sources are in the main loop, a flow that throttles is connected, and only who has a reference uses the pipe. *)
Definition possible (e : event) (p : CockpitPipe) : bool :=
  match e with
  | Input _ _ => in_source p
  | Output _ result _ => out_polled p && write_possible result p
  | Error _ _ => err_source p
  | Reaped _ _ => child p
  | Later => 0 <? later p
  | Throttled _ => pressure p
  | _ => 0 <? held p
  end.

Section Machine.
Context {S : Type} (pipe : S → CockpitPipe) `{!Setter pipe}.
Context (on_close : option (list Z) → prog S unit unit) (on_read : prog S unit unit) (on_pressure : bool → prog S unit unit).

Notation io := (prog S unit).
#[local] Instance io_ret_machine : MRet io := λ A a, prog_ret A a.
#[local] Instance io_bind_machine : MBind io := λ A B f m, prog_bind A B f m.

Definition step (e : event) : io unit :=
  let emit := signal_close pipe on_close in
  p ← self pipe;
  when (possible e p)
    match e with
    | Input hup result => dispatch_input pipe emit on_read hup result
    | Output connect result shutdown => dispatch_output pipe emit on_pressure connect result shutdown
    | Error hup result => dispatch_error pipe emit hup result
    | Reaped status shutdown => on_child_reap pipe emit status shutdown
    | Later => on_later_close pipe emit
    | Throttled throttle => on_throttle_pressure pipe throttle
    | DoWrite data => cockpit_pipe_write pipe on_pressure data
    | DoClose problem shutdown => cockpit_pipe_close pipe emit problem shutdown
    | DoThrottle controlling => cockpit_pipe_throttle pipe controlling
    | DoStopCapture => cockpit_pipe_stop_stderr_capture pipe
    | DoRef => pipe_ref pipe
    | DoUnref => pipe_unref pipe emit
    end.

Fixpoint run (events : list event) : io unit :=
  match events with
  | [] => mret tt
  | e :: events => _ ← step e; run events
  end.

(** The system is ready for output again and again, and takes some of what it is given. *)
Fixpoint flush (takes : list (list Z) → Z) (times : nat) : io unit :=
  match times with
  | O => mret tt
  | Datatypes.S times =>
      p ← self pipe;
      _ ← step (Output (SoError None) (Wrote (takes (output_vector p))) None);
      flush takes times
  end.
End Machine.

(** The pipes that there can be: the system gives descriptors of its own. *)
Inductive created : CockpitPipe → Prop :=
| created_new in_fd out_fd : -1 ≤ in_fd → -1 ≤ out_fd → created (cockpit_pipe_new in_fd out_fd)
| created_user fd : 0 ≤ fd → created (cockpit_pipe_new_user_fd fd)
| created_connect result : (∀ sock, result = Connected sock ∨ result = Connecting sock → 0 ≤ sock) →
    created (cockpit_pipe_connect result)
| created_spawn stderr_to_memory result :
    (∀ pid stdin stdout stderr, result = Spawned pid stdin stdout stderr → 0 ≤ stdin ∧ 0 ≤ stdout ∧ 0 ≤ stderr) →
    created (cockpit_pipe_spawn stderr_to_memory result)
| created_pty result : (∀ pid fd, result = Some (pid, fd) → 0 ≤ fd) → created (cockpit_pipe_pty result).

(** ** What holds of a pipe *)

Definition total (blocks : list (list Z)) : Z := foldr (λ b n, zlen b + n) 0 blocks.

Definition is_close (x : pipe_signal) : bool := match x with Close _ => true | _ => false end.
Definition is_end (x : pipe_signal) : bool := match x with Read _ true => true | _ => false end.

(** The state of the pressure that has been signalled *)
Definition signalled (signals : list pipe_signal) : bool :=
  foldl (λ b x, match x with PipePressure throttle => throttle | _ => b end) false signals.

(** The descriptors that a pipe has *)
Definition descriptors (p : CockpitPipe) : list Z := filter (λ fd, fd ≠ -1) [in_fd p; out_fd p; err_fd p].

(** What waits to be written *)
Definition unwritten (p : CockpitPipe) : list Z := drop (Z.to_nat (out_partial p)) (concat (out_queue p)).

(** Part of the first block may have been written. *)
Definition partial_ok (queue : list (list Z)) (partial : Z) : Prop :=
  match queue with
  | [] => partial = 0
  | block :: _ => 0 ≤ partial < zlen block
  end.

(** [n] references are those of calls that are under way. *)
Record pipe_base (n : Z) (p : CockpitPipe) : Prop := {
  pi_references : references p = held p + later p + n;
  pi_held : 0 ≤ held p ∧ 0 ≤ later p ∧ 0 ≤ n;
  pi_alive : 0 < references p;
  pi_input : in_source p = true → in_done p = false;
  pi_polled : out_polled p = true → out_source p = true;
  pi_closed : closed p = true → in_source p = false ∧ out_source p = false ∧ err_source p = false ∧
    in_done p = true ∧ out_done p = true ∧ err_done p = true;
  pi_descriptors : if closed p then descriptors p = [] else True;
  pi_opened : ∀ fd, fd ∈ opened_fds p → fd ∈ closed_fds p ∨ fd ∈ descriptors p;
  pi_once : closed_fds p ++ descriptors p ⊆+ opened_fds p;
  pi_blocks : Forall (λ b, b ≠ []) (out_queue p);
  pi_partial : partial_ok (out_queue p) (out_partial p);
  pi_queued : out_queued p = total (out_queue p) ∧ out_queued p ≤ G_MAXSIZE;
  pi_accepted : accepted p = written p ++ unwritten p;
  pi_received : ∃ k, in_buffer p = drop k (received p);
  pi_pressure : signalled (signals p) = (out_queued p >=? QUEUE_PRESSURE);
  pi_ends : (length (filter (λ x, is_end x = true) (signals p)) ≤ if in_done p then 1 else 0)%nat
}.

Definition closes (p : CockpitPipe) : list pipe_signal := filter (λ x, is_close x = true) (signals p).

(** The signal ["close"] has been emitted when the pipe is closed and no process is waited for. *)
Definition pipe_inv (n : Z) (p : CockpitPipe) : Prop :=
  pipe_base n p ∧ closes p = if closed p && negb (child p) then [Close (problem p)] else [].

(** It is about to be emitted. *)
Definition about_to_close (n : Z) (p : CockpitPipe) : Prop :=
  pipe_base n p ∧ closed p = true ∧ child p = false ∧ closes p = [].

(** The pipe when it has been freed *)
Definition freed (p : CockpitPipe) : Prop := ∃ q, pipe_inv 1 q ∧ closed q = true ∧ held q = 0 ∧ later q = 0 ∧
  p = q <| pressure := false |> <| out_queue := [] |> <| out_queued := 0 |> <| references := 0 |>.

(** What is seen of a pipe, also when it has been freed: it says that it is closed once, when no process is
    waited for; the end of what is read is signalled at most once; no descriptor is closed more often than it
    was given, and none is left open; what has been written is a beginning of what was queued; the buffer is the end of what was read. *)
Record lawful (p : CockpitPipe) : Prop := {
  law_close : closes p = if closed p && negb (child p) then [Close (problem p)] else [];
  law_end : (length (filter (λ x, is_end x = true) (signals p)) ≤ 1)%nat;
  law_once : closed_fds p ⊆+ opened_fds p;
  law_leak : closed p = true → ∀ fd, fd ∈ opened_fds p → fd ∈ closed_fds p;
  law_freed : references p ≤ 0 → closed p = true;
  law_written : written p `prefix_of` accepted p;
  law_buffer : in_buffer p `suffix_of` received p
}.

(** What no handler undoes *)
Definition keeps (p p' : CockpitPipe) : Prop :=
  held p' ≤ held p ∧ later p' = later p ∧ (closed p = true → closed p' = true).

Lemma pipe_keeps_refl p : keeps p p.
Proof. done. Qed.

Lemma pipe_keeps_trans p q r : keeps p q → keeps q r → keeps p r.
Proof. intros (? & ? & ?) (? & ? & ?). split; [lia|]. split; [congruence|auto]. Qed.

Lemma keeps_closed p q : keeps p q → closed p = true → closed q = true.
Proof. by intros (? & ? & ?). Qed.
#[local] Hint Resolve pipe_keeps_refl : core.

Lemma pipe_total_cons b l : total (b :: l) = zlen b + total l.
Proof. done. Qed.

Lemma pipe_total_app a b : total (a ++ b) = total a + total b.
Proof. induction a as [|x a IH]; [done|]. cbn [app]. rewrite !pipe_total_cons, IH. lia. Qed.

Lemma pipe_total_nonneg l : 0 ≤ total l.
Proof. induction l as [|x l IH]; [done|]. rewrite pipe_total_cons. pose proof (zlen_nonneg x). lia. Qed.

Lemma pipe_signalled_snoc l b : signalled (l ++ [PipePressure b]) = b.
Proof. unfold signalled. by rewrite foldl_app. Qed.

Lemma signalled_other l x : (match x with PipePressure _ => false | _ => true end) = true → signalled (l ++ [x]) = signalled l.
Proof. unfold signalled. rewrite foldl_app. by destruct x. Qed.
#[local] Arguments signalled : simpl never.
#[local] Arguments total : simpl never.

(** The pipe that has been closed *)
Definition after_close (problem' : option (list Z)) (p : CockpitPipe) : CockpitPipe :=
  p <| problem := match problem' with Some _ => problem' | None => problem p end |> <| closed := true |>
    <| in_source := false |> <| in_done := true |> <| out_source := false |> <| out_polled := out_polled p && negb (out_source p) |> <| out_done := true |>
    <| err_source := false |> <| err_done := true |>
    <| closed_fds ::= λ l, l ++ descriptors p |> <| in_fd := -1 |> <| out_fd := -1 |> <| err_fd := -1 |>
    <| killed := killed p || (bool_decide (is_Some problem') && negb (pid p =? 0) && negb (exited p)) |>.

Lemma after_close_base n problem' p : pipe_base n p → pipe_base n (after_close problem' p).
Proof.
  intros []. constructor; cbn; try done.
  - rewrite andb_true_iff, negb_true_iff. intros [E1 E2]. rewrite (pi_polled0 E1) in E2. done.
  - intros fd Hfd. left. apply elem_of_app. destruct (pi_opened0 fd Hfd) as [?|?]; auto.
  - by rewrite app_nil_r.
  - destruct (in_done p); lia.
Qed.

Lemma inv_lawful n p : pipe_inv n p → lawful p.
Proof.
  intros [[] C]. constructor; try done; try lia.
  - destruct (in_done p); lia.
  - etrans; [|exact pi_once0]. by apply submseteq_inserts_r.
  - intros Ec fd Hfd. rewrite Ec in pi_descriptors0. destruct (pi_opened0 fd Hfd) as [?|Hd]; [done|].
    rewrite pi_descriptors0 in Hd. by apply elem_of_nil in Hd.
  - by eexists.
  - destruct pi_received0 as [k ->]. exists (take k (received p)). by rewrite take_drop.
Qed.

Lemma settled_lawful n p : pipe_inv n p ∨ n = 0 ∧ freed p → lawful p.
Proof.
  intros [I|[_ (q & I & Ec & _ & _ & ->)]]; [by eapply inv_lawful|].
  destruct (inv_lawful _ _ I). by constructor.
Qed.

(** *** New pipes *)

Lemma constructed_inv i o e child : -1 ≤ i → -1 ≤ o → -1 ≤ e → pipe_inv 0 (cockpit_pipe_constructed i o e child).
Proof.
  intros Hi Ho He. split; [|done].
  assert (Ed : opened_fds (cockpit_pipe_constructed i o e child) = descriptors (cockpit_pipe_constructed i o e child)).
  { change (filter (λ fd, (0 <=? fd) = true) [i; o; e] = filter (λ fd, fd ≠ -1) [i; o; e]). rewrite !filter_cons, !filter_nil.
    repeat destruct (decide _); try done; exfalso; rewrite ?Z.leb_le in *; lia. }
  constructor; try rewrite Ed; try done; auto.
  - cbn. lia.
  - by exists O.
  - cbn. lia.
Qed.

Lemma later_inv p : pipe_inv 0 p → pipe_inv 0 (close_later p).
Proof. intros [[] C]. split; [|exact C]. constructor; cbn; try done; lia. Qed.

(** A field that says nothing about the sources, the queue and the signals *)
Ltac same_inv :=
  match goal with
  | I : pipe_inv _ _ |- pipe_inv _ _ => destruct I as [[] C]; split; [by constructor|exact C]
  end.

Lemma created_inv p : created p → pipe_inv 0 p.
Proof.
  assert (I0 : pipe_inv 0 (cockpit_pipe_new (-1) (-1))) by by apply constructed_inv.
  assert (Hno : ∀ e, pipe_inv 0 (cockpit_pipe_connect (NoSocket e))) by (intros e; apply later_inv; same_inv).
  destruct 1 as [i o Hi Ho|fd Hf|result Hr|b result Hr|result Hr].
  - apply constructed_inv; lia.
  - assert (I : pipe_inv 0 (cockpit_pipe_new fd fd)) by (apply constructed_inv; lia). same_inv.
  - destruct result as [e|sock|sock|e]; [done| | |apply (Hno e)];
      (assert (I : pipe_inv 0 (cockpit_pipe_new sock sock)); [|first [exact I|same_inv]]);
      assert (0 ≤ sock) by (apply Hr; auto); apply constructed_inv; lia.
  - destruct result as [child stdin stdout stderr|e]; cbn [cockpit_pipe_spawn]; [|apply later_inv; same_inv].
    destruct (Hr _ _ _ _ eq_refl) as (? & ? & ?).
    assert (I : pipe_inv 0 (cockpit_pipe_constructed stdout stdin (if b then stderr else -1) child)) by (apply constructed_inv; destruct b; lia).
    same_inv.
  - destruct result as [[child fd]|]; cbn [cockpit_pipe_pty]; [|apply later_inv; same_inv].
    specialize (Hr _ _ eq_refl). apply constructed_inv; lia.
Qed.

Section Invariant.
Context {S : Type} (pipe : S → CockpitPipe) `{!Setter pipe, !Field pipe}.

Notation io := (prog S unit).
#[local] Instance io_ret_inv : MRet io := λ A a, prog_ret A a.
#[local] Instance io_bind_inv : MBind io := λ A B f m, prog_bind A B f m.

Notation put := (put pipe).
Notation self := (self pipe).
Notation alive := (alive pipe).

Lemma pipe_ensures_put f (Q : unit → S → Prop) s :
  (∀ s', pipe s' = f (pipe s) → Q tt s') → ensures (put f) Q s.
Proof. by apply ensures_update. Qed.

Lemma pipe_ensures_alive (Q : unit → S → Prop) s : 0 < references (pipe s) → Q tt s → ensures alive Q s.
Proof. intros Hr HQ. apply ensures_bind, ensures_get, ensures_require; [by apply Z.ltb_lt|done]. Qed.

Lemma ensures_put_seq {A} f (k : unit → io A) (Q : A → S → Prop) s :
  (∀ s', pipe s' = f (pipe s) → ensures (k tt) Q s') → ensures (put f ≫= k) Q s.
Proof. intros HQ. by apply ensures_bind, pipe_ensures_put. Qed.

Lemma ensures_alive_seq {A} (k : unit → io A) (Q : A → S → Prop) s :
  0 < references (pipe s) → ensures (k tt) Q s → ensures (alive ≫= k) Q s.
Proof. intros. by apply ensures_bind, pipe_ensures_alive. Qed.

Lemma ensures_when_put (b : bool) f (Q : unit → S → Prop) s :
  (∀ s', pipe s' = (if b then f (pipe s) else pipe s) → Q tt s') → ensures (when b (put f)) Q s.
Proof. intros HQ. destruct b; cbn [when]; [by apply pipe_ensures_put|by apply ensures_ret, HQ]. Qed.

(** Stopping a source if it is there leaves it stopped. *)
Ltac stopping :=
  match goal with
  | |- _ → _ = ?source (?pipe ?s) → _ =>
      intros Hr -> HQ; destruct (source (pipe s)) eqn:E; cbn [when];
      [ apply ensures_alive_seq; [done|]; apply ensures_bind, ensures_get, ensures_bind, ensures_require; [done|];
        apply pipe_ensures_put; intros s' E1; apply HQ; rewrite E1; cbn; rewrite ?andb_false_r; reflexivity
      | apply ensures_ret, HQ; destruct (pipe s); cbn in *; subst; by rewrite ?andb_true_r ]
  end.

Lemma ensures_when_stop_input (b : bool) (Q : unit → S → Prop) s : 0 < references (pipe s) → b = in_source (pipe s) →
  (∀ s', pipe s' = (pipe s) <| in_source := false |> → Q tt s') → ensures (when b (stop_input pipe)) Q s.
Proof.
  stopping.
Qed.

Lemma ensures_when_stop_output (b : bool) (Q : unit → S → Prop) s : 0 < references (pipe s) → b = out_source (pipe s) →
  (∀ s', pipe s' = (pipe s) <| out_source := false |> <| out_polled := out_polled (pipe s) && negb (out_source (pipe s)) |> → Q tt s') → ensures (when b (stop_output pipe)) Q s.
Proof.
  stopping.
Qed.

Lemma ensures_when_stop_error (b : bool) (Q : unit → S → Prop) s : 0 < references (pipe s) → b = err_source (pipe s) →
  (∀ s', pipe s' = (pipe s) <| err_source := false |> → Q tt s') → ensures (when b (stop_error pipe)) Q s.
Proof.
  stopping.
Qed.

(** The descriptor, when there is one *)
Definition owned (fd : Z) : list Z := filter (λ fd, fd ≠ -1) [fd].

#[local] Arguments owned : simpl never.

Lemma ensures_close_fd (fd : Z) f (Q : unit → S → Prop) s :
  (fd = -1 → f (pipe s) = pipe s) →
  (∀ s', pipe s' = f ((pipe s) <| closed_fds ::= λ l, l ++ owned fd |>) → Q tt s') →
  ensures (when (negb (fd =? -1)) (_ ← close_fd pipe fd; put f)) Q s.
Proof.
  intros Hf HQ. unfold owned in HQ. destruct (Z.eqb_spec fd (-1)) as [->|Hn]; cbn [negb when].
  - apply ensures_ret, HQ. rewrite filter_cons_False, filter_nil by tauto.
    rewrite <- (Hf eq_refl) at 1. f_equal. destruct (pipe s). cbn. by rewrite app_nil_r.
  - rewrite filter_cons_True, filter_nil in HQ by done.
    apply ensures_put_seq. intros s1 E1. apply pipe_ensures_put. intros s2 E2. apply HQ. by rewrite E2, E1.
Qed.

Lemma descriptors_owned p : descriptors p = owned (in_fd p) ++ owned (out_fd p) ++ owned (err_fd p).
Proof. unfold descriptors, owned. rewrite <- !filter_app. done. Qed.

#[local] Arguments descriptors : simpl never.

(** Closing comes down to [after_close], and the signal. *)
Lemma ensures_close_immediately emit problem' (Q : unit → S → Prop) s : 0 < references (pipe s) →
  (closed (pipe s) = true → Q tt s) →
  (closed (pipe s) = false → child (pipe s) = true → ∀ s', pipe s' = after_close problem' (pipe s) → Q tt s') →
  (closed (pipe s) = false → child (pipe s) = false → ∀ s', pipe s' = after_close problem' (pipe s) →
    ensures (emit (problem (pipe s'))) Q s') →
  ensures (close_immediately pipe emit problem') Q s.
Proof.
  intros Hr Hc Hw He. unfold close_immediately. apply ensures_alive_seq; [done|]. apply ensures_bind, ensures_get.
  destruct (closed (pipe s)); [by apply ensures_ret, Hc|]. specialize (Hw eq_refl). specialize (He eq_refl).
  apply ensures_bind, ensures_when_put. intros s1 E1. apply ensures_put_seq. intros s2 E2.
  assert (E2' : pipe s2 = (pipe s) <| problem := match problem' with Some _ => problem' | None => problem (pipe s) end |> <| closed := true |>).
  { rewrite E2, E1. destruct problem'; [by rewrite bool_decide_eq_true_2 by eauto|].
    rewrite bool_decide_eq_false_2 by (by intros []). by destruct (pipe s). }
  clear E1 E2. apply ensures_bind, ensures_when_stop_input; [by rewrite E2'|by rewrite E2'|]. intros s3 E3. rewrite E2' in E3. clear E2'.
  apply ensures_put_seq. intros s4 E4. rewrite E3 in E4. clear E3.
  apply ensures_bind, ensures_when_stop_output; [by rewrite E4|by rewrite E4|]. intros s5 E5. rewrite E4 in E5. clear E4.
  apply ensures_put_seq. intros s6 E6. rewrite E5 in E6. clear E5.
  apply ensures_bind, ensures_when_stop_error; [by rewrite E6|by rewrite E6|]. intros s7 E7. rewrite E6 in E7. clear E6.
  apply ensures_put_seq. intros s8 E8. rewrite E7 in E8. clear E7.
  apply ensures_bind, ensures_close_fd; [rewrite E8; cbn; destruct (pipe s); cbn; by intros ->|]. intros s9 E9. rewrite E8 in E9.
  apply ensures_bind, ensures_close_fd; [rewrite E9; cbn; destruct (pipe s); cbn; by intros ->|]. intros s10 E10. rewrite E9 in E10.
  apply ensures_bind, ensures_close_fd; [rewrite E10; cbn; destruct (pipe s); cbn; by intros ->|]. intros s11 E11. rewrite E10 in E11.
  clear E8 E9 E10. apply ensures_bind, ensures_when_put. intros s12 E12.
  assert (E : pipe s12 = after_close problem' (pipe s)).
  { rewrite E12, E11. unfold after_close. rewrite descriptors_owned. clear. destruct (pipe s). cbn.
    rewrite <- !app_assoc. destruct (bool_decide _ && _ && _); by rewrite ?orb_true_r, ?orb_false_r. }
  clear E11 E12. apply ensures_bind, ensures_get.
  assert (Ec : child (pipe s12) = child (pipe s)) by (rewrite E; done). rewrite Ec.
  destruct (child (pipe s)); cbn [negb when]; [by apply ensures_ret, Hw|by apply He].
Qed.

(** *** Closing and references *)

(** What an operation leaves: the invariant, or, when no call is under way, a pipe that has been freed. *)
Definition settled (n : Z) (p : CockpitPipe) : Prop := pipe_inv n p ∨ n = 0 ∧ freed p.

Definition emit_ok (emit : option (list Z) → io unit) : Prop := ∀ n s, about_to_close n (pipe s) →
  ensures (emit (problem (pipe s))) (λ _ s', settled n (pipe s') ∧ keeps (pipe s) (pipe s')) s.

(** The signal can be emitted, or will not be. *)
Definition calm (emit : option (list Z) → io unit) (s : S) : Prop := emit_ok emit ∨ closed (pipe s) = true.

Lemma inv_alive n p : pipe_inv n p → 0 < references p.
Proof. intros [[] _]. done. Qed.

Lemma settled_inv n p : 0 < n → settled n p → pipe_inv n p.
Proof. intros Hn [H|[-> _]]; [done|lia]. Qed.

Lemma after_close_closes problem' p : closes (after_close problem' p) = closes p.
Proof. done. Qed.

Lemma close_immediately_ok n emit problem' s : pipe_inv n (pipe s) → calm emit s →
  ensures (close_immediately pipe emit problem') (λ _ s',
    settled n (pipe s') ∧ keeps (pipe s) (pipe s') ∧ closed (pipe s') = true) s.
Proof.
  intros [B C] Hc. apply ensures_close_immediately; [apply B|..].
  - intros E. split; [by left|]. done.
  - intros Ec Ew s' E. rewrite E. split; [left; split; [by apply after_close_base|]|].
    + rewrite after_close_closes, C, Ec. cbn. by rewrite Ew.
    + by split.
  - intros Ec Ew s' E. destruct Hc as [He|He]; [|congruence].
    assert (K : keeps (pipe s) (pipe s') ∧ closed (pipe s') = true) by (rewrite E; split; [repeat split; cbn; lia|done]).
    eapply ensures_mono; [apply (He n)|].
    + rewrite E. split; [by apply after_close_base|]. split; [done|]. split; [done|]. by rewrite after_close_closes, C, Ec.
    + intros [] s2 [Hs K2]. split; [done|]. destruct K as [K Kc]. split; [by eapply pipe_keeps_trans|]. by apply (keeps_closed _ _ K2).
Qed.

Lemma close_maybe_ok n emit s : pipe_inv n (pipe s) → calm emit s →
  ensures (close_maybe pipe emit) (λ _ s', settled n (pipe s') ∧ keeps (pipe s) (pipe s')) s.
Proof.
  intros I Hc. apply ensures_alive_seq; [by eapply inv_alive|]. apply ensures_bind, ensures_get, ensures_when; intros _.
  - eapply ensures_mono; [by apply close_immediately_ok|]. intros [] s' (? & ? & ?). done.
  - split; [by left|done].
Qed.

Lemma pipe_inv_ref n p : pipe_inv n p → pipe_inv (n + 1) (p <| references ::= λ m, m + 1 |>).
Proof. intros [[] C]. split; [|done]. constructor; cbn; try done; lia. Qed.

Lemma pipe_inv_unref n p : pipe_inv (n + 1) p → references p ≠ 1 → 0 ≤ n → pipe_inv n (p <| references ::= λ m, m - 1 |>).
Proof. intros [[] C] Hr Hn. split; [|done]. constructor; cbn; try done; lia. Qed.

Lemma ref_ok {A} n (k : unit → io A) Q s : pipe_inv n (pipe s) →
  (∀ s', pipe s' = (pipe s) <| references ::= λ m, m + 1 |> → pipe_inv (n + 1) (pipe s') → ensures (k tt) Q s') →
  ensures (g_object_ref pipe ≫= k) Q s.
Proof.
  intros I HQ. apply ensures_bind. apply ensures_alive_seq; [by eapply inv_alive|]. apply pipe_ensures_put. intros s' E.
  apply HQ; [done|]. rewrite E. by apply pipe_inv_ref.
Qed.

Lemma unref_ok n emit s : pipe_inv (n + 1) (pipe s) → 0 ≤ n → calm emit s →
  ensures (g_object_unref pipe emit) (λ _ s', settled n (pipe s') ∧ keeps (pipe s) (pipe s')) s.
Proof.
  intros I Hn Hc. apply ensures_alive_seq; [by eapply inv_alive|]. apply ensures_bind, ensures_get, ensures_bind.
  apply ensures_when; intros Er.
  2:{ apply pipe_ensures_put. intros s' E. rewrite E. apply Z.eqb_neq in Er. split; [left; by apply pipe_inv_unref|]. done. }
  apply Z.eqb_eq in Er. pose proof I as [[] _]. assert (n = 0 ∧ held (pipe s) = 0 ∧ later (pipe s) = 0) as (-> & Hh & Hl) by lia.
  apply ensures_bind. apply ensures_bind, ensures_get. apply ensures_bind, ensures_when_put. intros s1 E1.
  assert (I1 : pipe_inv 1 (pipe s1)).
  { rewrite E1. destruct (_ && _); [|done]. destruct I as [[] C]. split; [|done]. by constructor. }
  assert (K1 : keeps (pipe s) (pipe s1)) by (rewrite E1; by destruct (_ && _)).
  apply ensures_bind. eapply (ensures_mono _ (λ _ s2, pipe_inv 1 (pipe s2) ∧ keeps (pipe s1) (pipe s2) ∧ closed (pipe s2) = true)).
  { apply ensures_when; intros Ec.
    - eapply ensures_mono; [apply (close_immediately_ok 1); [done|]|].
      + destruct Hc as [?|Hc]; [by left|right]. by apply (keeps_closed _ _ K1).
      + intros [] s2 (Hs & K & E). split; [by apply settled_inv|done].
    - split; [done|]. split; [done|]. apply negb_false_iff in Ec. by apply (keeps_closed _ _ K1). }
  intros [] s2 (I2 & K2 & Ec2). pose proof (pipe_keeps_trans _ _ _ K1 K2) as K. apply pipe_ensures_put. intros s3 E3.
  apply ensures_bind, ensures_get, ensures_require.
  { rewrite E3. cbn. destruct I2 as [[] _]. destruct (pi_closed1 Ec2) as (-> & -> & _). by rewrite Ec2. }
  apply pipe_ensures_put. intros s4 E4. rewrite E4, E3. split; [right; split; [done|]|exact K].
  pose proof I2 as [[] _]. destruct K as (K3 & K4 & _). exists (pipe s2). split; [done|]. split; [done|]. split; [lia|]. split; [lia|].
  assert (Er1 : references (pipe s2) = 1) by lia. clear -Er1. destruct (pipe s2). cbn in *. by subst.
Qed.

(** The handlers of the signal leave the pipe in order. *)
Definition close_handler (on_close : option (list Z) → io unit) : Prop := ∀ n problem' s,
  0 < n → pipe_inv n (pipe s) → closed (pipe s) = true →
  ensures (on_close problem') (λ _ s', pipe_inv n (pipe s') ∧ keeps (pipe s) (pipe s')) s.

Lemma signal_close_ok on_close : close_handler on_close → emit_ok (signal_close pipe on_close).
Proof.
  intros Hh n s (B & Ec & Ew & C). apply ensures_put_seq. intros s1 E1.
  assert (I1 : pipe_inv n (pipe s1) ∧ closed (pipe s1) = true ∧ keeps (pipe s) (pipe s1)).
  { rewrite E1. split; [split|].
    - destruct B. constructor; cbn; try done; [by rewrite signalled_other|].
      rewrite filter_app, filter_cons_False, filter_nil, app_nil_r by done. done.
    - unfold closes in *. cbn. rewrite filter_app, C, filter_cons_True, filter_nil, Ec, Ew by done. done.
    - done. }
  destruct I1 as (I1 & Ec1 & K1). apply (ref_ok n); [done|]. intros s2 E2 I2.
  apply ensures_bind. eapply ensures_mono; [apply (Hh (n + 1)); [destruct B; lia|done|by rewrite E2]|].
  intros [] s3 [I3 K3]. eapply ensures_mono; [apply (unref_ok n); [done|destruct B; lia|]|].
  - right. apply (keeps_closed _ _ K3). by rewrite E2.
  - intros [] s4 [Hs K4]. split; [done|]. eapply pipe_keeps_trans; [exact K1|]. apply (pipe_keeps_trans _ (pipe s2)); [by rewrite E2|by eapply pipe_keeps_trans].
Qed.

(** *** Operations *)

Definition shutdown_ok (shutdown : option errno) : Prop := shutdown = None ∨ shutdown = Some ENOTSOCK.

(** The output is done; a descriptor that is no socket is closed, and what is read from it with it. *)
Definition output_closed (p : CockpitPipe) : CockpitPipe :=
  let same := (in_fd p =? out_fd p) && negb (out_fd p =? -1) in
  p <| out_done := true |> <| closed_fds ::= λ l, l ++ owned (out_fd p) |>
    <| in_done := in_done p || same |> <| in_source := in_source p && negb same |>
    <| in_fd := if same then -1 else in_fd p |> <| out_fd := -1 |>.

Lemma owned_spec fd x : x ∈ owned fd ↔ x = fd ∧ fd ≠ -1.
Proof.
  unfold owned. destruct (decide (fd = -1)) as [->|Hn].
  - rewrite filter_cons_False, filter_nil by tauto. rewrite elem_of_nil. tauto.
  - rewrite filter_cons_True, filter_nil, list_elem_of_singleton by done. tauto.
Qed.

Lemma set_out_done_inv n p : pipe_inv n p → pipe_inv n (p <| out_done := true |>).
Proof. intros [[] C]. split; [|done]. constructor; cbn; try done. intros E. by destruct (pi_closed0 E) as (? & ? & ? & ? & ? & ?). Qed.

Lemma output_closed_inv n p : pipe_inv n p → closed p = false → pipe_inv n (output_closed p).
Proof.
  intros [[] C] Ec. split; [|done]. constructor; cbn; try done; try congruence.
  - rewrite andb_true_iff, negb_true_iff. intros [E ->]. by rewrite orb_false_r, pi_input0.
  - by rewrite Ec.
  - intros fd Hfd. rewrite elem_of_app, owned_spec.
    destruct (pi_opened0 fd Hfd) as [?|Hd]; [by left; left|].
    rewrite descriptors_owned, !elem_of_app, !owned_spec in Hd.
    rewrite descriptors_owned, !elem_of_app, !owned_spec. cbn.
    destruct (Z.eqb_spec (out_fd p) (-1)) as [Eo|Eo], (Z.eqb_spec (in_fd p) (out_fd p)) as [Ei|Ei]; cbn [andb negb];
      destruct Hd as [[-> ?]|[[-> ?]|[-> ?]]]; try tauto; try congruence; left; right; done.
  - etrans; [|exact pi_once0]. rewrite !descriptors_owned. cbn.
    destruct (Z.eqb_spec (out_fd p) (-1)) as [Eo|Eo]; [by rewrite Eo, !andb_false_r, app_nil_r|].
    destruct (Z.eqb_spec (in_fd p) (out_fd p)) as [Ei|Ei]; cbn [andb negb].
    + change (owned (-1)) with (@nil Z). cbn [app]. rewrite <- app_assoc.
      apply submseteq_app; [done|]. rewrite Ei. by apply submseteq_app, submseteq_inserts_l.
    + rewrite <- app_assoc. apply submseteq_app; [done|]. change (owned (-1)) with (@nil Z). cbn [app].
      apply Permutation_submseteq. solve_Permutation.
  - destruct (in_done p); cbn; [done|]. destruct (_ && _); lia.
Qed.

Lemma close_output_ok n emit shutdown s : pipe_inv n (pipe s) → calm emit s → shutdown_ok shutdown →
  ensures (close_output pipe emit shutdown) (λ _ s', settled n (pipe s') ∧ keeps (pipe s) (pipe s')) s.
Proof.
  intros I Hc Hs. apply ensures_alive_seq; [by eapply inv_alive|]. apply ensures_put_seq. intros s1 E1.
  assert (I1 : pipe_inv n (pipe s1)) by (rewrite E1; by apply set_out_done_inv).
  assert (Hc1 : calm emit s1) by (destruct Hc as [?|Hc]; [by left|right; by rewrite E1]).
  apply ensures_bind, ensures_get.
  enough (H : ensures (when (negb (out_fd (pipe s1) =? -1)) (match shutdown with
    | None => mret tt
    | Some e => if bool_decide (e = ENOTSOCK) then
          _ ← close_fd pipe (out_fd (pipe s1));
          _ ← when (in_fd (pipe s1) =? out_fd (pipe s1)) (
            _ ← put (λ p, p <| in_done := true |> <| in_fd := -1 |>);
            when (in_source (pipe s1)) (stop_input pipe));
          put (λ p, p <| out_fd := -1 |>)
        else close_immediately pipe emit (Some (bs "internal-error"))
    end)) (λ _ s2, pipe_inv n (pipe s2) ∧ keeps (pipe s1) (pipe s2)) s1).
  { apply ensures_bind. eapply ensures_mono; [exact H|]. intros [] s2 [I2 K2].
    eapply ensures_mono; [apply (close_maybe_ok n); [done|]|].
    - destruct Hc1 as [?|Hc1]; [by left|right]. by apply (keeps_closed _ _ K2).
    - intros [] s3 [Hs3 K3]. split; [done|]. apply (pipe_keeps_trans _ (pipe s1)); [by rewrite E1|by eapply pipe_keeps_trans]. }
  apply ensures_when; intros Eo; [|split; [done|apply pipe_keeps_refl]].
  assert (Ec : closed (pipe s1) = false).
  { destruct (closed (pipe s1)) eqn:Ec; [|done]. destruct I1 as [[] _]. rewrite Ec in pi_descriptors0.
    apply negb_true_iff, Z.eqb_neq in Eo. assert (Hx : out_fd (pipe s1) ∈ descriptors (pipe s1)).
    { rewrite descriptors_owned, !elem_of_app, !owned_spec. tauto. }
    rewrite pi_descriptors0 in Hx. by apply elem_of_nil in Hx. }
  destruct Hs as [->| ->]; [by split|]. rewrite bool_decide_eq_true_2 by done.
  assert (Ed : out_done (pipe s1) = true) by (rewrite E1; done).
  pose proof (output_closed_inv n _ I1 Ec) as I2. apply ensures_put_seq. intros s2 E2.
  apply ensures_bind. eapply (ensures_mono _ (λ _ s3, (pipe s3) <| out_fd := -1 |> = output_closed (pipe s1))).
  - apply negb_true_iff in Eo. unfold output_closed. rewrite Eo. cbn [negb]. rewrite andb_true_r.
    assert (Ew : owned (out_fd (pipe s1)) = [out_fd (pipe s1)]).
    { unfold owned. apply Z.eqb_neq in Eo. by rewrite filter_cons_True, filter_nil by done. }
    rewrite Ew. apply ensures_when; intros Ei.
    + apply ensures_put_seq. intros s3 E3. apply ensures_when_stop_input; [rewrite E3, E2; exact (inv_alive n _ I1)|by rewrite E3, E2|].
      intros s4 ->. rewrite E3, E2, Ei. cbn. by rewrite Ed, orb_true_r, andb_false_r.
    + rewrite E2, Ei. cbn. by rewrite Ed, orb_false_r, andb_true_r.
  - intros [] s3 E3. apply pipe_ensures_put. intros s4 E4. rewrite E4, E3. split; [done|]. repeat split; cbn; done || lia.
Qed.

Lemma on_child_reap_ok emit status' shutdown s : settled 0 (pipe s) → child (pipe s) = true → emit_ok emit → shutdown_ok shutdown →
  ensures (on_child_reap pipe emit status' shutdown) (λ _ s', settled 0 (pipe s')) s.
Proof.
  intros [I|[_ Hr]] Ew Hc Hs; apply ensures_bind, ensures_get.
  2:{ assert (E0 : references (pipe s) = 0) by (by destruct Hr as (q & _ & _ & _ & _ & ->)). rewrite E0. by right. }
  rewrite (proj2 (Z.leb_gt _ _)) by (by eapply inv_alive). apply ensures_put_seq. intros s1 E1.
  pose proof I as [B C]. assert (B1 : pipe_base 0 (pipe s1)) by (rewrite E1; destruct B; by constructor).
  assert (C1 : closes (pipe s1) = []) by (rewrite E1; unfold closes in *; cbn; rewrite C, Ew; by rewrite andb_false_r).
  destruct (out_done (pipe s)) eqn:Ed; cbn [negb].
  - apply ensures_when; intros Ec.
    + replace (problem (pipe s)) with (problem (pipe s1)) by (by rewrite E1).
      eapply ensures_mono; [apply (Hc 0)|by intros [] s2 [H2 _]]. split; [done|]. rewrite E1. split; [done|]. split; [done|].
      by rewrite <- E1.
    + left. split; [done|]. rewrite C1, E1. cbn. by rewrite Ec.
  - assert (Ec : closed (pipe s) = false).
    { destruct (closed (pipe s)) eqn:Ec; [|done]. destruct B. destruct (pi_closed0 Ec) as (_ & _ & _ & _ & ? & _). congruence. }
    eapply ensures_mono; [apply (close_output_ok 0 emit shutdown); [|by left|done]|by intros [] s2 [H2 _]].
    split; [done|]. rewrite C1, E1. cbn. by rewrite Ec.
Qed.

Lemma calm_emit emit s : emit_ok emit → calm emit s.
Proof. by left. Qed.
#[local] Hint Resolve calm_emit : core.

(** The handlers of ["read"] leave the pipe in order. *)
Definition read_handler (on_read : io unit) : Prop := ∀ n s,
  0 < n → pipe_inv n (pipe s) → ensures on_read (λ _ s', pipe_inv n (pipe s')) s.

(** An end of a call that has held a reference *)
Lemma maybe_close_unref n emit b s : pipe_inv (n + 1) (pipe s) → 0 ≤ n → emit_ok emit →
  ensures (_ ← when b (close_maybe pipe emit); g_object_unref pipe emit) (λ _ s', settled n (pipe s')) s.
Proof.
  intros I Hn He. apply ensures_bind. eapply (ensures_mono _ (λ _ s1, pipe_inv (n + 1) (pipe s1))).
  - apply ensures_when; intros _; [|done]. eapply ensures_mono; [apply (close_maybe_ok (n + 1)); auto|].
    intros [] s1 [H1 _]. apply settled_inv; [lia|done].
  - intros [] s1 I1. eapply ensures_mono; [apply (unref_ok n); auto|by intros [] s2 [H2 _]].
Qed.

(** The pipe when bytes have been read, none at the end *)
Definition after_read (data : list Z) (p : CockpitPipe) : CockpitPipe :=
  let end_of_data := bool_decide (data = []) in
  p <| in_buffer ::= λ l, l ++ data |> <| received ::= λ l, l ++ data |>
    <| in_done := in_done p || end_of_data |> <| in_source := in_source p && negb end_of_data |>.

Lemma after_read_inv n data p : pipe_inv n p → in_source p = true →
  pipe_inv n (let p := after_read data p in p <| signals ::= λ l, l ++ [Read (in_buffer p) (in_done p)] |>).
Proof.
  intros [B C] Es. pose proof (pi_input _ _ B Es) as Ed. destruct B. split.
  - constructor; cbn; try done.
    + rewrite andb_true_iff, Ed, negb_true_iff. by intros [_ ->].
    + intros Ec. destruct (pi_closed0 Ec) as (? & _). congruence.
    + destruct pi_received0 as [k Hk]. exists (k `min` length (received p))%nat. rewrite Hk, drop_app.
      destruct (decide (k ≤ length (received p))%nat) as [Hl|Hl].
      * rewrite Nat.min_l by done. f_equal. by replace (k - length (received p))%nat with O by lia.
      * rewrite Nat.min_r by lia. rewrite !drop_ge by lia. by rewrite Nat.sub_diag.
    + by rewrite signalled_other.
    + rewrite Ed in *. cbn [orb]. rewrite filter_app, length_app. destruct (bool_decide (data = [])); cbn; destruct (decide _); cbn; done || lia.
  - unfold closes in *. cbn. by rewrite filter_app, filter_cons_False, filter_nil, app_nil_r, C by done.
Qed.

Lemma input_read_ok emit on_read data s : pipe_inv 0 (pipe s) → in_source (pipe s) = true →
  emit_ok emit → read_handler on_read →
  ensures (input_read pipe emit on_read data) (λ _ s', settled 0 (pipe s')) s.
Proof.
  intros I Es He Hread. apply ensures_put_seq. intros s1 E1. apply ensures_bind.
  eapply (ensures_mono _ (λ _ s2, pipe s2 = after_read data (pipe s))).
  - apply ensures_when; intros Ed.
    + apply ensures_put_seq. intros s2 E2. apply ensures_alive_seq; [rewrite E2, E1; exact (inv_alive _ _ I)|].
      apply ensures_bind, ensures_get, ensures_bind, ensures_require; [by rewrite E2, E1|]. apply pipe_ensures_put. intros s3 ->.
      rewrite E2, E1. unfold after_read. rewrite Ed. cbn. by rewrite orb_true_r, andb_false_r.
    + unfold after_read. rewrite E1, Ed. cbn. by rewrite orb_false_r, andb_true_r.
  - intros [] s2 E2. pose proof (after_read_inv 0 data (pipe s) I Es) as I2.
    apply ensures_bind. apply ensures_alive_seq; [rewrite E2; exact (inv_alive _ _ I)|]. apply pipe_ensures_put. intros s3 E3.
    apply ensures_put_seq. intros s4 E4. apply ensures_bind. eapply ensures_mono; [apply (Hread 1 s4); [lia|]|].
    + rewrite E4, E3, E2. exact (pipe_inv_ref 0 _ I2).
    + intros [] s5 I5. apply ensures_bind, ensures_get. by apply (maybe_close_unref 0).
Qed.

(** A problem that is set while the pipe is open *)
Lemma problem_inv n x p : pipe_inv n p → closed p = false → pipe_inv n (p <| problem := x |>).
Proof. intros [[] C] Ec. split; [by constructor|]. cbn. rewrite Ec in *. exact C. Qed.

Lemma problem_close_ok emit e s : pipe_inv 0 (pipe s) → closed (pipe s) = false → emit_ok emit →
  ensures (_ ← set_problem_from_errno pipe e; close_immediately pipe emit None) (λ _ s', settled 0 (pipe s')) s.
Proof.
  intros I Ec He. apply ensures_bind. apply ensures_alive_seq; [by eapply inv_alive|]. apply pipe_ensures_put. intros s1 E1.
  eapply ensures_mono; [apply (close_immediately_ok 0); auto|by intros [] s2 [H2 _]]. rewrite E1. by apply problem_inv.
Qed.

Lemma inv_open n p : pipe_inv n p → in_source p = true ∨ out_source p = true ∨ err_source p = true → closed p = false.
Proof.
  intros [[] _] H. destruct (closed p); [|done]. destruct (pi_closed0 eq_refl) as (? & ? & ? & _). destruct H as [?|[?|?]]; congruence.
Qed.

Lemma dispatch_input_ok emit on_read hup result s : pipe_inv 0 (pipe s) → emit_ok emit → read_handler on_read →
  ensures (dispatch_input pipe emit on_read hup result) (λ _ s', settled 0 (pipe s')) s.
Proof.
  intros I He Hread. apply ensures_alive_seq; [by eapply inv_alive|]. apply ensures_bind, ensures_get.
  destruct (in_source (pipe s)) eqn:Es; [|by left]. cbn [negb]. destruct hup; [by apply input_read_ok|].
  destruct result as [data|e]; [by apply input_read_ok|]. destruct (_ || _); [by left|].
  destruct (bool_decide _); [by apply input_read_ok|]. apply problem_close_ok; eauto using inv_open.
Qed.

Lemma forward_error_inv n p : pipe_inv n p → pipe_inv n (p <| err_buffer ::= fmap (λ _, []) |>).
Proof. intros I. same_inv. Qed.

Lemma error_read_ok n emit data s : pipe_inv n (pipe s) → err_source (pipe s) = true → emit_ok emit →
  ensures (error_read pipe emit data) (λ _ s', settled n (pipe s')) s.
Proof.
  intros I Es He. apply ensures_put_seq. intros s1 E1. apply ensures_bind, ensures_get, ensures_bind.
  eapply (ensures_mono _ (λ _ s2, pipe_inv n (pipe s2) ∧ err_source (pipe s2) = true)).
  { assert (I1 : pipe_inv n (pipe s1)) by (rewrite E1; same_inv). apply ensures_when; intros _.
    - apply pipe_ensures_put. intros s2 ->. split; [by apply forward_error_inv|]. by rewrite E1.
    - split; [done|]. by rewrite E1. }
  intros [] s2 [I2 Es2]. apply ensures_bind. eapply (ensures_mono _ (λ _ s3, pipe_inv n (pipe s3))).
  { apply ensures_when; intros _; [|done]. apply ensures_put_seq. intros s3 E3.
    apply ensures_alive_seq; [rewrite E3; exact (inv_alive _ _ I2)|]. apply ensures_bind, ensures_get, ensures_bind, ensures_require; [by rewrite E3|].
    apply pipe_ensures_put. intros s4 ->. rewrite E3. destruct I2 as [[] C]. split; [|exact C]. constructor; cbn; try done.
    intros Ec. by destruct (pi_closed0 Ec) as (? & ? & ? & ? & ? & ?). }
  intros [] s3 I3. apply (ref_ok n); [done|]. intros s4 E4 I4. apply ensures_bind, ensures_get. apply maybe_close_unref; [done| |done].
  destruct I3 as [[] _]. lia.
Qed.

Lemma dispatch_error_ok n emit hup result s : pipe_inv n (pipe s) → emit_ok emit →
  ensures (dispatch_error pipe emit hup result) (λ _ s', settled n (pipe s')) s.
Proof.
  intros I He. apply ensures_alive_seq; [by eapply inv_alive|]. apply ensures_bind, ensures_get.
  destruct (err_source (pipe s)) eqn:Es; [|by left]. cbn [negb]. destruct hup; [by apply (error_read_ok n)|].
  destruct result as [data|e]; [by apply (error_read_ok n)|]. destruct (_ || _).
  - apply ensures_when; intros _; [|by left]. apply pipe_ensures_put. intros s1 ->. left. by apply forward_error_inv.
  - eapply ensures_mono; [apply (close_immediately_ok n); auto|by intros [] s2 [H2 _]].
Qed.

(** *** Writing *)

(** Another queue, of which the first [r] bytes have been written *)
Record wrote (r : Z) (p p' : CockpitPipe) : Prop := {
  w_frame : p' = p <| out_queue := out_queue p' |> <| out_queued := out_queued p' |> <| out_partial := out_partial p' |>;
  w_blocks : Forall (λ b, b ≠ []) (out_queue p');
  w_partial : partial_ok (out_queue p') (out_partial p');
  w_queued : out_queued p' = total (out_queue p') ∧ out_queued p' ≤ out_queued p;
  w_unwritten : unwritten p' = drop (Z.to_nat r) (unwritten p)
}.

(** The vector is what is left of the first block, and blocks that follow it. *)
Definition vector_of (vector : list (list Z)) (p : CockpitPipe) : Prop :=
  match vector with
  | [] => True
  | v :: vs => ∃ b rest, out_queue p = b :: vs ++ rest ∧ v = drop (Z.to_nat (out_partial p)) b
  end.

Definition queue_ok (p : CockpitPipe) : Prop :=
  Forall (λ b, b ≠ []) (out_queue p) ∧ partial_ok (out_queue p) (out_partial p) ∧ out_queued p = total (out_queue p).

Lemma wrote_refl p : queue_ok p → wrote 0 p p.
Proof. intros (? & ? & ?). constructor; try done. by destruct p. Qed.

Lemma unwritten_first b q p : out_queue p = b :: q → partial_ok (b :: q) (out_partial p) →
  unwritten p = drop (Z.to_nat (out_partial p)) b ++ concat q.
Proof.
  intros E Hp. cbn in Hp. unfold unwritten. rewrite E. cbn [concat]. apply drop_app_le. unfold zlen in Hp. lia.
Qed.

Lemma nonempty_zlen (b : list Z) : b ≠ [] → 0 < zlen b.
Proof. intros Hb. destruct b; [done|]. rewrite zlen_cons. pose proof (zlen_nonneg b). lia. Qed.

Lemma partial_ok_head q : Forall (λ b, b ≠ []) q → partial_ok q 0.
Proof. intros Hq. destruct Hq as [|b q Hb _]; [done|]. apply nonempty_zlen in Hb. cbn. lia. Qed.

Lemma written_loop_ok ret vector s : queue_ok (pipe s) → vector_of vector (pipe s) → 0 ≤ ret ≤ zlen (concat vector) →
  ensures (written_loop pipe ret vector) (λ _ s', wrote ret (pipe s) (pipe s')) s.
Proof.
  revert ret s. induction vector as [|v vector IH]; intros ret s Hq Hv Hr; cbn [written_loop].
  { change (zlen (concat [])) with 0 in Hr. replace ret with 0 by lia. by apply wrote_refl. }
  destruct (Z.gtb_spec ret 0) as [Hp|Hp]; cbn [negb]; [|replace ret with 0 by lia; by apply wrote_refl].
  pose proof Hq as (Hb & Hpart & Ht). destruct Hv as (b & rest & E & Ev).
  assert (Hlen : 0 ≤ out_partial (pipe s) < zlen b) by (rewrite E in Hpart; exact Hpart).
  assert (Hzv : zlen v = zlen b - out_partial (pipe s)) by (rewrite Ev, zlen_drop; lia).
  rewrite E in Hb. apply Forall_cons in Hb as [Hb0 Hb]. cbn [concat] in Hr. rewrite zlen_app in Hr.
  destruct (Z.geb_spec ret (zlen v)) as [Hge|Hlt].
  - apply ensures_bind, ensures_get. rewrite E. apply ensures_bind, ensures_require.
    { apply Z.leb_le. rewrite Ht, E, pipe_total_cons. pose proof (pipe_total_nonneg (vector ++ rest)). lia. }
    apply ensures_put_seq. intros s1 E1.
    assert (Hq1 : queue_ok (pipe s1)).
    { rewrite E1. split; [exact Hb|]. split; [by apply partial_ok_head|]. cbn. rewrite Ht, E, pipe_total_cons. lia. }
    assert (Hv1 : vector_of vector (pipe s1)).
    { rewrite E1. destruct vector as [|v2 vector]; [done|]. exists v2, rest. split; [done|]. cbn. by rewrite drop_0. }
    eapply ensures_mono; [apply (IH (ret - zlen v) s1 Hq1 Hv1); lia|].
    intros [] s2 [W1 W2 W3 W4 W5]. rewrite E1 in W1, W4, W5. constructor; try done.
    + cbn in W4. destruct W4 as [-> W4]. split; [done|]. pose proof (zlen_nonneg b). lia.
    + rewrite W5, (unwritten_first b (vector ++ rest) (pipe s) E Hlen). unfold unwritten. cbn. rewrite drop_0, <- Ev.
      rewrite drop_app_ge by (unfold zlen in *; lia). f_equal. unfold zlen. lia.
  - apply ensures_put_seq. intros s1 E1.
    assert (Hend : ensures (written_loop pipe 0 vector) (λ _ s2, pipe s2 = pipe s1) s1) by (by destruct vector).
    eapply ensures_mono; [exact Hend|]. intros [] s2 ->. rewrite E1. constructor; cbn; try done.
    + rewrite E. by constructor.
    + unfold partial_ok. cbn. rewrite E. lia.
    + unfold unwritten. cbn. rewrite drop_drop. f_equal. lia.
Qed.

Lemma output_vector_ok n p : pipe_inv n p → vector_of (output_vector p) p ∧ ∃ rest, unwritten p = concat (output_vector p) ++ rest.
Proof.
  intros [[] _]. unfold output_vector. destruct (out_queue p) as [|b q] eqn:E; cbn [take].
  { split; [done|]. exists []. unfold unwritten. rewrite E. apply drop_nil. }
  split; [exists b, (drop 3 q); by rewrite take_drop|]. exists (concat (drop 3 q)).
  rewrite (unwritten_first b q p E pi_partial0). cbn [concat]. by rewrite <- app_assoc, <- concat_app, take_drop.
Qed.

(** The handlers of the pressure do not touch the pipe. *)
Definition pressure_handler (on_pressure : bool → io unit) : Prop := ∀ b s,
  ensures (on_pressure b) (λ _ s', pipe s' = pipe s) s.

Lemma pipe_ensures_emit_pressure on_pressure b (Q : unit → S → Prop) s : pressure_handler on_pressure →
  (∀ s', pipe s' = (pipe s) <| signals ::= λ l, l ++ [PipePressure b] |> → Q tt s') →
  ensures (cockpit_flow_emit_pressure pipe on_pressure b) Q s.
Proof.
  intros Hp HQ. apply ensures_put_seq. intros s1 E1. eapply ensures_mono; [apply Hp|]. intros [] s2 E2. apply HQ. congruence.
Qed.

(** A queue that has changed, and the pressure that goes with it *)
Definition crossing (before after : Z) : list pipe_signal :=
  if (before <? QUEUE_PRESSURE) && (after >=? QUEUE_PRESSURE) then [PipePressure true]
  else if (before >=? QUEUE_PRESSURE) && (after <? QUEUE_PRESSURE) then [PipePressure false]
  else [].

Definition with_pressure (before : Z) (p : CockpitPipe) : CockpitPipe :=
  p <| signals ::= λ l, l ++ crossing before (out_queued p) |>.

Lemma crossing_up before after : before ≤ after →
  crossing before after = if (before <? QUEUE_PRESSURE) && (after >=? QUEUE_PRESSURE) then [PipePressure true] else [].
Proof.
  intros H. unfold crossing. destruct (_ && _); [done|]. destruct (Z.geb_spec before QUEUE_PRESSURE), (Z.ltb_spec after QUEUE_PRESSURE); done || lia.
Qed.

Lemma crossing_down before after : after ≤ before →
  crossing before after = if (before >=? QUEUE_PRESSURE) && (after <? QUEUE_PRESSURE) then [PipePressure false] else [].
Proof.
  intros H. unfold crossing. destruct (Z.ltb_spec before QUEUE_PRESSURE), (Z.geb_spec after QUEUE_PRESSURE); done || lia.
Qed.

Lemma ensures_crossing on_pressure (up c : bool) before s : pressure_handler on_pressure →
  crossing before (out_queued (pipe s)) = (if c then [PipePressure up] else []) →
  ensures (when c (cockpit_flow_emit_pressure pipe on_pressure up)) (λ _ s', pipe s' = with_pressure before (pipe s)) s.
Proof.
  intros Hp E. unfold with_pressure. rewrite E. apply ensures_when; intros ->.
  - by apply pipe_ensures_emit_pressure.
  - destruct (pipe s). cbn. by rewrite app_nil_r.
Qed.

Definition queue_set (q : list (list Z)) (m k : Z) (a w : list Z) (p : CockpitPipe) : CockpitPipe :=
  p <| out_queue := q |> <| out_queued := m |> <| out_partial := k |> <| accepted := a |> <| written := w |>.

Lemma queue_set_inv n p q m k a w : pipe_inv n p → Forall (λ b, b ≠ []) q →
  partial_ok q k → m = total q → m ≤ G_MAXSIZE → a = w ++ drop (Z.to_nat k) (concat q) →
  pipe_inv n (with_pressure (out_queued p) (queue_set q m k a w p)).
Proof.
  intros [[] C] H1 H2 H3 H4 H5. unfold with_pressure. change (out_queued (queue_set q m k a w p)) with m.
  set (x := crossing _ _).
  assert (Hx : filter (λ x, is_close x = true) x = [] ∧ filter (λ x, is_end x = true) x = [] ∧
               signalled (signals p ++ x) = (m >=? QUEUE_PRESSURE)).
  { subst x. unfold crossing. rewrite !Z.geb_leb, !Z.ltb_antisym. rewrite Z.geb_leb in pi_pressure0.
    destruct (QUEUE_PRESSURE <=? out_queued p) eqn:E1, (QUEUE_PRESSURE <=? m) eqn:E2; cbn [negb andb];
      rewrite ?pipe_signalled_snoc, ?app_nil_r; by split_and!. }
  destruct Hx as (X1 & X2 & X3). clearbody x. split.
  - constructor; cbn; try done. by rewrite filter_app, X2, app_nil_r.
  - unfold closes in *. cbn. by rewrite filter_app, X1, app_nil_r.
Qed.

(** What [writev] can report for a vector *)
Definition write_ok (result : write_result) (p : CockpitPipe) : Prop :=
  match result with Wrote ret => 0 ≤ ret ≤ zlen (concat (output_vector p)) | WriteError _ => True end.

(** What remains of the output when the first bytes of the vector have been written: the rest, in order *)
Lemma written_ok ret s : pipe_inv 0 (pipe s) → 0 ≤ ret ≤ zlen (concat (output_vector (pipe s))) →
  ensures (_ ← put (λ p, p <| written ::= λ l, l ++ take (Z.to_nat ret) (concat (output_vector (pipe s))) |>);
           written_loop pipe ret (output_vector (pipe s)))
    (λ _ s', ∃ q m k, pipe s' = queue_set q m k (accepted (pipe s))
        (written (pipe s) ++ take (Z.to_nat ret) (concat (output_vector (pipe s)))) (pipe s) ∧ m ≤ out_queued (pipe s) ∧
      pipe_inv 0 (with_pressure (out_queued (pipe s)) (pipe s'))) s.
Proof.
  intros I Hr. destruct (output_vector_ok 0 _ I) as [Hv [rest Erest]]. pose proof I as [B _]. apply ensures_put_seq. intros s1 E1.
  eapply ensures_mono; [apply (written_loop_ok ret)|]; [rewrite E1; destruct B; split_and!; try done; tauto| |done|].
  { rewrite E1. destruct (output_vector (pipe s)); [done|exact Hv]. }
  intros [] s2 W. set (w := written (pipe s1)).
  exists (out_queue (pipe s2)), (out_queued (pipe s2)), (out_partial (pipe s2)).
  replace (written (pipe s) ++ _) with w by (unfold w; by rewrite E1).
  destruct W as [W1 W2 W3 [W4 W4'] W5]. rewrite E1 in W4', W5. cbn in W4'.
  assert (E2 : pipe s2 = queue_set (out_queue (pipe s2)) (out_queued (pipe s2)) (out_partial (pipe s2)) (accepted (pipe s)) w (pipe s)).
  { rewrite W1 at 1. unfold w, queue_set. rewrite E1. clear. destruct (pipe s), (pipe s2). done. }
  split; [exact E2|]. split; [exact W4'|]. rewrite E2. apply queue_set_inv; try done.
  - destruct (pi_queued _ _ B). lia.
  - change (drop _ (concat _)) with (unwritten (pipe s2)). rewrite W5. unfold w. rewrite E1. cbn.
    rewrite (pi_accepted _ _ B). unfold unwritten at 2. cbn. fold (unwritten (pipe s)). rewrite Erest, <- app_assoc. f_equal.
    unfold zlen in Hr. rewrite drop_app_le by lia. by rewrite app_assoc, take_drop.
Qed.
Lemma output_done_ok emit shutdown s : pipe_inv 0 (pipe s) → out_source (pipe s) = true → emit_ok emit → shutdown_ok shutdown →
  ensures (output_done pipe emit shutdown) (λ _ s', settled 0 (pipe s')) s.
Proof.
  intros I Es He Hs. apply ensures_bind, ensures_get. destruct (bool_decide _); [by left|].
  apply ensures_bind. apply (ensures_when_stop_output true); [by eapply inv_alive|done|]. intros s1 E1.
  assert (I1 : pipe_inv 0 (pipe s1)).
  { rewrite E1, Es. pose proof I as [[] C]. split; [|exact C]. constructor; cbn; try done; try by rewrite andb_false_r.
    intros Ec. by destruct (pi_closed0 Ec) as (? & ? & ? & ? & ? & ?). }
  destruct (closing _); (eapply ensures_mono; [first [apply (close_output_ok 0)|apply (close_maybe_ok 0)]; auto|by intros [] s2 [H2 _]]).
Qed.

Lemma dispatch_connect_ok emit result s : pipe_inv 0 (pipe s) → closed (pipe s) = false → emit_ok emit →
  ensures (dispatch_connect pipe emit result) (λ go s',
    if go : bool then pipe_inv 0 (pipe s') ∧ pipe s' = (pipe s) <| connecting := false |> else settled 0 (pipe s')) s.
Proof.
  intros I Ec He. apply ensures_put_seq. intros s1 E1. assert (I1 : pipe_inv 0 (pipe s1)) by (rewrite E1; same_inv).
  assert (Ec1 : closed (pipe s1) = false) by (by rewrite E1). destruct result as [|[e|]]; [|destruct (bool_decide _)|done].
  - apply ensures_bind. eapply ensures_mono; [apply (close_immediately_ok 0); auto|by intros [] s2 [H2 _]].
  - apply ensures_put_seq. intros s2 E2. apply ensures_ret. rewrite E2. left. same_inv.
  - apply ensures_bind, ensures_alive_seq; [by eapply inv_alive|]. apply pipe_ensures_put. intros s2 E2. apply ensures_bind.
    eapply ensures_mono; [apply (close_immediately_ok 0); auto|by intros [] s3 [H3 _]]. rewrite E2. by apply problem_inv.
Qed.

Lemma first_partial p : pipe_inv 0 p →
  match out_queue p with block :: _ => (out_partial p =? 0) || (out_partial p <? zlen block) | [] => true end = true.
Proof.
  intros [[] _]. unfold partial_ok in pi_partial0. destruct (out_queue p); [done|]. apply orb_true_iff. right. apply Z.ltb_lt. lia.
Qed.

(** Writing some bytes, with the pressure that goes *)
Lemma ensures_output_write emit on_pressure ret shutdown (Q : unit → S → Prop) s :
  pipe_inv 0 (pipe s) → out_source (pipe s) = true → pressure_handler on_pressure →
  0 ≤ ret ≤ zlen (concat (output_vector (pipe s))) →
  (∀ s2 q m k, pipe s2 = with_pressure (out_queued (pipe s)) (queue_set q m k (accepted (pipe s))
      (written (pipe s) ++ take (Z.to_nat ret) (concat (output_vector (pipe s)))) (pipe s)) →
    pipe_inv 0 (pipe s2) → ensures (output_done pipe emit shutdown) Q s2) →
  ensures (output_write pipe emit on_pressure (Wrote ret) shutdown) Q s.
Proof.
  intros I Es Hp Hw HQ. apply ensures_bind, ensures_get. rewrite Es. cbn [negb].
  apply ensures_bind, ensures_require; [by apply first_partial|].
  replace (if bool_decide (output_vector (pipe s) = []) then Wrote 0 else Wrote ret) with (Wrote ret).
  2:{ destruct (bool_decide _) eqn:E; [|done]. apply bool_decide_eq_true in E. rewrite E in Hw. change (zlen (concat [])) with 0 in Hw. f_equal. lia. }
  apply ensures_bind. eapply ensures_mono; [by apply (written_ok ret)|].
  intros [] s1 (q & m & k & E1 & Hm & I1). apply ensures_bind, ensures_get, ensures_bind.
  eapply ensures_mono; [apply (ensures_crossing _ _ _ (out_queued (pipe s)))|]; [done|apply crossing_down; by rewrite E1|].
  intros [] s2 E2. rewrite <- E2 in I1. apply (HQ s2 q m k); [|done]. by rewrite E2, E1.
Qed.

(** Nothing is asked of the system when there is nothing to write. *)
Lemma output_write_empty emit on_pressure result shutdown s : output_vector (pipe s) = [] →
  output_write pipe emit on_pressure result shutdown s = output_write pipe emit on_pressure (Wrote 0) shutdown s.
Proof.
  intros E. lazy beta zeta iota delta [output_write self get mbind io_bind prog_bind]. by rewrite E.
Qed.

Lemma output_write_ok emit on_pressure result shutdown s :
  pipe_inv 0 (pipe s) → out_source (pipe s) = true → emit_ok emit → pressure_handler on_pressure → shutdown_ok shutdown →
  write_ok result (pipe s) → ensures (output_write pipe emit on_pressure result shutdown) (λ _ s', settled 0 (pipe s')) s.
Proof.
  intros I Es He Hp Hs Hw.
  assert (Hwrote : ∀ ret, 0 ≤ ret ≤ zlen (concat (output_vector (pipe s))) →
    ensures (output_write pipe emit on_pressure (Wrote ret) shutdown) (λ _ s', settled 0 (pipe s')) s).
  { intros ret Hr. apply ensures_output_write; try done. intros s2 q m k E2 I2. apply output_done_ok; try done. by rewrite E2. }
  destruct result as [ret|e]; [by apply Hwrote|].
  destruct (decide (output_vector (pipe s) = [])) as [Ev|Ev].
  { unfold ensures. rewrite output_write_empty by done. apply Hwrote. split; [lia|apply zlen_nonneg]. }
  apply ensures_bind, ensures_get. rewrite Es. cbn [negb].
  apply ensures_bind, ensures_require; [by apply first_partial|].
  rewrite (bool_decide_eq_false_2 (output_vector _ = [])) by done.
  destruct (_ || _); [|destruct (bool_decide _)].
  - apply pipe_ensures_put. intros s1 ->. left. pose proof I as [[] C]. split; [by constructor|exact C].
  - eapply ensures_mono; [apply (close_immediately_ok 0); auto|by intros [] s2 [H2 _]].
  - apply problem_close_ok; eauto using inv_open.
Qed.

Lemma dispatch_output_ok emit on_pressure connect result shutdown s :
  pipe_inv 0 (pipe s) → out_polled (pipe s) = true → emit_ok emit → pressure_handler on_pressure → shutdown_ok shutdown →
  write_ok result (pipe s) →
  ensures (dispatch_output pipe emit on_pressure connect result shutdown) (λ _ s', settled 0 (pipe s')) s.
Proof.
  intros I Ep He Hp Hs Hw. assert (Es : out_source (pipe s) = true) by (destruct I as [[] _]; auto).
  apply ensures_alive_seq; [by eapply inv_alive|]. apply ensures_bind, ensures_get, ensures_bind.
  destruct (connecting (pipe s)); [|by apply output_write_ok].
  eapply ensures_mono; [apply dispatch_connect_ok; eauto using inv_open|].
  intros [] s1; [|done]. intros (I1 & E1). apply output_write_ok; try done; [by rewrite E1|].
  revert Hw. rewrite E1. exact id.
Qed.

Lemma u64_small x : 0 ≤ x < 2 ^ 64 → u64 x = x.
Proof. apply Z.mod_small. Qed.

(** What is queued may be as much as the machine can count. *)
Lemma cockpit_pipe_write_ok n on_pressure data s : pipe_inv n (pipe s) → zlen data ≤ G_MAXSIZE → pressure_handler on_pressure →
  ensures (cockpit_pipe_write pipe on_pressure data) (λ _ s', pipe_inv n (pipe s') ∧ keeps (pipe s) (pipe s')) s.
Proof.
  intros I Hd Hp. apply ensures_alive_seq; [by eapply inv_alive|]. apply ensures_bind, ensures_get.
  destruct (closed (pipe s)) eqn:Ec; [by split|]. cbv zeta. destruct (Z.eqb_spec (zlen data) 0) as [E0|E0]; [by split|].
  pose proof (zlen_nonneg data) as Hz. pose proof I as [B _]. destruct (pi_queued _ _ B) as [Eq Hq]. pose proof (pipe_total_nonneg (out_queue (pipe s))) as Ht.
  unfold G_MAXSIZE in *. rewrite (u64_small (2 ^ 64 - 1 - zlen data)) by lia.
  destruct (Z.gtb_spec (2 ^ 64 - 1 - zlen data) (out_queued (pipe s))) as [Hg|Hg]; cbn [negb]; [|by split].
  rewrite (u64_small (out_queued (pipe s) + zlen data)) by lia. apply ensures_put_seq. intros s1 E1.
  assert (E1' : pipe s1 = queue_set (out_queue (pipe s) ++ [data]) (out_queued (pipe s) + zlen data) (out_partial (pipe s))
    (accepted (pipe s) ++ data) (written (pipe s)) (pipe s)) by (rewrite E1; by destruct (pipe s)).
  assert (I1 : pipe_inv n (with_pressure (out_queued (pipe s)) (pipe s1))).
  { rewrite E1'. apply queue_set_inv; try done.
    - apply Forall_app. split; [apply B|]. constructor; [|done]. by intros ->.
    - pose proof (pi_partial _ _ B) as H. destruct (out_queue (pipe s)); cbn in *; [rewrite H; lia|done].
    - rewrite pipe_total_app, pipe_total_cons, Eq. change (total []) with 0. lia.
    - unfold G_MAXSIZE. lia.
    - rewrite (pi_accepted _ _ B), <- app_assoc. f_equal. unfold unwritten. rewrite concat_app. cbn [concat]. rewrite app_nil_r.
      rewrite drop_app_le; [done|]. pose proof (pi_partial _ _ B) as H. destruct (out_queue (pipe s)); cbn in *; [rewrite H; cbn; lia|].
      rewrite length_app. unfold zlen in *. lia. }
  assert (Em : out_queued (pipe s1) = out_queued (pipe s) + zlen data) by (by rewrite E1').
  assert (Esc : out_source (pipe s1) = out_source (pipe s) ∧ out_polled (pipe s1) = out_polled (pipe s) ∧ closed (pipe s1) = false ∧ keeps (pipe s) (pipe s1)).
  { rewrite E1', <- Ec. split; [done|]. split; [done|]. by split. }
  clear E1 E1'. apply ensures_bind. eapply (ensures_mono _ (λ _ s2, pipe s2 = with_pressure (out_queued (pipe s)) (pipe s1))).
  - apply ensures_crossing; [done|]. rewrite Em. apply crossing_up. lia.
  - intros [] s2 E2. apply ensures_bind, ensures_get. rewrite <- E2 in I1. destruct Esc as (Es & Ep & Ec1 & K).
    assert (K2 : keeps (pipe s) (pipe s2)) by (rewrite E2; exact K).
    apply ensures_when; intros Eg; [|by split]. apply andb_true_iff in Eg as [Eg _]. apply negb_true_iff in Eg.
    apply ensures_alive_seq; [by eapply inv_alive|]. apply ensures_bind, ensures_get, ensures_bind, ensures_require; [by rewrite Eg|].
    apply pipe_ensures_put. intros s3 ->. split; [|exact K2]. destruct I1 as [[] C]. split; [|exact C]. constructor; cbn; try done.
    intros Ec2. exfalso. revert Ec2. rewrite E2. change (closed (pipe s1) = true → False). congruence.
Qed.

(** *** What handlers, and those who have a pipe, may do with it *)

Lemma cockpit_pipe_close_ok n emit problem' shutdown s : pipe_inv n (pipe s) → calm emit s → shutdown_ok shutdown →
  ensures (cockpit_pipe_close pipe emit problem' shutdown) (λ _ s', settled n (pipe s') ∧ keeps (pipe s) (pipe s')) s.
Proof.
  intros I Hc Hs. apply ensures_alive_seq; [by eapply inv_alive|]. apply ensures_put_seq. intros s1 E1.
  assert (I1 : pipe_inv n (pipe s1)) by (rewrite E1; same_inv).
  assert (K1 : keeps (pipe s) (pipe s1)) by (by rewrite E1).
  assert (Hc1 : calm emit s1) by (destruct Hc as [?|Hc]; [by left|right; by rewrite E1]).
  apply ensures_bind, ensures_get. destruct problem' as [problem'|].
  - eapply ensures_mono; [by apply (close_immediately_ok n)|]. intros [] s2 (H2 & K2 & _). split; [done|by eapply pipe_keeps_trans].
  - apply ensures_when; intros _; [|split; [by left|done]].
    eapply ensures_mono; [by apply (close_output_ok n)|]. intros [] s2 (H2 & K2). split; [done|by eapply pipe_keeps_trans].
Qed.

Lemma on_later_close_ok emit s : pipe_inv 0 (pipe s) → 0 < later (pipe s) → emit_ok emit →
  ensures (on_later_close pipe emit) (λ _ s', settled 0 (pipe s')) s.
Proof.
  intros I Hl He. apply ensures_put_seq. intros s1 E1.
  assert (I1 : pipe_inv 1 (pipe s1)).
  { rewrite E1. destruct I as [[] C]. split; [|exact C]. constructor; cbn; try done; lia. }
  apply ensures_bind. eapply ensures_mono; [apply (close_immediately_ok 1); auto|]. intros [] s2 (H2 & K2 & Ec).
  eapply ensures_mono; [apply (unref_ok 0); [by apply settled_inv|lia|by right]|by intros [] s3 [H3 _]].
Qed.

Lemma pipe_ref_ok n s : pipe_inv n (pipe s) → ensures (pipe_ref pipe) (λ _ s', pipe_inv n (pipe s')) s.
Proof.
  intros I. apply (ref_ok n); [done|]. intros s1 E1 I1. apply pipe_ensures_put. intros s2 ->. rewrite E1.
  destruct I as [[] C]. split; [|exact C]. constructor; cbn; try done; lia.
Qed.

Lemma pipe_unref_ok n emit s : pipe_inv n (pipe s) → 0 < held (pipe s) → calm emit s →
  ensures (pipe_unref pipe emit) (λ _ s', settled n (pipe s') ∧ keeps (pipe s) (pipe s')) s.
Proof.
  intros I Hh Hc. apply ensures_put_seq. intros s1 E1.
  assert (I1 : pipe_inv (n + 1) (pipe s1)).
  { rewrite E1. destruct I as [[] C]. split; [|exact C]. constructor; cbn; try done; lia. }
  eapply ensures_mono; [apply (unref_ok n); [done|destruct I as [[] _]; lia|]|].
  - destruct Hc as [?|Hc]; [by left|right; by rewrite E1].
  - intros [] s2 [H2 K2]. split; [done|]. apply (pipe_keeps_trans _ (pipe s1)); [|done]. rewrite E1. repeat split; cbn; lia || done.
Qed.

Lemma on_throttle_pressure_ok n throttle s : pipe_inv n (pipe s) →
  ensures (on_throttle_pressure pipe throttle) (λ _ s', pipe_inv n (pipe s') ∧ keeps (pipe s) (pipe s')) s.
Proof.
  intros I. apply ensures_alive_seq; [by eapply inv_alive|]. apply ensures_bind, ensures_get. destruct throttle.
  - apply ensures_when_stop_input; [by eapply inv_alive|done|]. intros s1 ->. split; [|done].
    destruct I as [[] C]. split; [|exact C]. constructor; cbn; try done. intros Ec. by destruct (pi_closed0 Ec) as (? & ? & ? & ? & ? & ?).
  - apply ensures_when; intros E; [|by split]. apply andb_true_iff in E as [E1 E2]. apply negb_true_iff in E1, E2.
    apply ensures_alive_seq; [by eapply inv_alive|]. apply ensures_bind, ensures_get, ensures_bind, ensures_require; [by rewrite E1|].
    apply pipe_ensures_put. intros s1 ->. split; [|done]. destruct I as [[] C]. split; [|exact C]. constructor; cbn; try done.
    intros Ec. destruct (pi_closed0 Ec) as (? & ? & ? & ? & ? & ?). congruence.
Qed.

Lemma buffer_inv n k p : pipe_inv n p → pipe_inv n (p <| in_buffer ::= drop k |>).
Proof.
  intros [[] C]. split; [|exact C]. constructor; cbn; try done. destruct pi_received0 as [j Hj]. exists (j + k)%nat. by rewrite Hj, drop_drop.
Qed.

(** The bytes that are consumed are those at the place that is asked for, and the buffer goes on after them. *)
Lemma cockpit_pipe_consume_ok n before length_ after s : pipe_inv n (pipe s) →
  0 ≤ before → 0 ≤ length_ → 0 ≤ after → before + length_ + after ≤ zlen (in_buffer (pipe s)) < 2 ^ 32 →
  ensures (cockpit_pipe_consume pipe before length_ after) (λ bytes s',
    bytes = take (Z.to_nat length_) (drop (Z.to_nat before) (in_buffer (pipe s))) ∧
    pipe s' = (pipe s) <| in_buffer ::= drop (Z.to_nat (before + length_ + after)) |> ∧ pipe_inv n (pipe s')) s.
Proof.
  intros I Hb Hl Ha Hn. apply ensures_bind, ensures_get. cbv zeta. rewrite u64_small by lia.
  apply ensures_bind, ensures_require; [apply Z.leb_le; lia|].
  apply ensures_bind. eapply (ensures_mono _ (λ _ s1, pipe s1 = (pipe s) <| in_buffer ::= drop (Z.to_nat (before + length_ + after)) |>)).
  - destruct (Z.eqb_spec (before + length_ + after) (zlen (in_buffer (pipe s)))) as [E|E].
    + apply pipe_ensures_put. intros s1 ->. destruct (pipe s). cbn in *. rewrite drop_ge; [done|]. unfold zlen in E. lia.
    + apply ensures_bind, ensures_get. unfold u32. rewrite Z.mod_small by lia.
      rewrite (proj2 (Z.leb_le _ _)) by lia. by apply pipe_ensures_put.
  - intros [] s1 E1. apply ensures_ret. split; [done|]. split; [done|]. rewrite E1. by apply buffer_inv.
Qed.

(** *** Every run *)

Definition event_ok (e : event) : Prop :=
  match e with
  | Output _ _ shutdown | Reaped _ shutdown | DoClose _ shutdown => shutdown_ok shutdown
  | DoWrite data => zlen data ≤ G_MAXSIZE
  | _ => True
  end.

Lemma freed_impossible e p : freed p → possible e p = true → child p = true ∧ ∃ status shutdown, e = Reaped status shutdown.
Proof.
  intros (q & [[] _] & Ec & Eh & El & ->). destruct (pi_closed0 Ec) as (Ei & Eo & Ee & _).
  destruct e; cbn; rewrite ?Ei, ?Ee, ?Eh, ?El; try done; [|by eauto].
  rewrite andb_true_iff. intros [Ep _]. rewrite (pi_polled0 Ep) in Eo. done.
Qed.

Lemma pipe_step_ok on_close on_read on_pressure e s : close_handler on_close → read_handler on_read → pressure_handler on_pressure →
  event_ok e → settled 0 (pipe s) → ensures (step pipe on_close on_read on_pressure e) (λ _ s', settled 0 (pipe s')) s.
Proof.
  intros Hc Hr Hp Hok Hs. apply ensures_bind, ensures_get, ensures_when; intros He; [|done].
  pose proof (signal_close_ok on_close Hc) as Hemit. destruct Hs as [I|[_ Hf]].
  2:{ destruct (freed_impossible _ _ Hf He) as (Ew & ? & ? & ->). apply on_child_reap_ok; [by right|done..]. }
  destruct e; cbn in He, Hok.
  - by apply dispatch_input_ok.
  - apply andb_true_iff in He as [He Hw]. apply dispatch_output_ok; try done.
    destruct result; [|done]. cbn in Hw |- *. lia.
  - by apply (dispatch_error_ok 0).
  - apply on_child_reap_ok; [by left|done..].
  - apply on_later_close_ok; [done|lia|done].
  - eapply ensures_mono; [by apply (on_throttle_pressure_ok 0)|]. intros [] s1 [I1 _]. by left.
  - eapply ensures_mono; [by apply (cockpit_pipe_write_ok 0)|]. intros [] s1 [I1 _]. by left.
  - eapply ensures_mono; [apply (cockpit_pipe_close_ok 0); auto|]. by intros [] s1 [I1 _].
  - apply pipe_ensures_put. intros s1 ->. left. same_inv.
  - apply ensures_alive_seq; [by eapply inv_alive|]. apply ensures_bind, ensures_get, ensures_when; intros _; [|by left].
    apply ensures_put_seq. intros s1 E1. apply pipe_ensures_put. intros s2 ->. left. apply forward_error_inv. rewrite E1. same_inv.
  - eapply ensures_mono; [by apply (pipe_ref_ok 0)|]. intros [] s1 I1. by left.
  - eapply ensures_mono; [apply (pipe_unref_ok 0); auto; lia|]. by intros [] s1 [I1 _].
Qed.

Lemma pipe_run_ok on_close on_read on_pressure events s : close_handler on_close → read_handler on_read → pressure_handler on_pressure →
  Forall event_ok events → settled 0 (pipe s) →
  ensures (run pipe on_close on_read on_pressure events) (λ _ s', settled 0 (pipe s')) s.
Proof.
  intros Hc Hr Hp Hok. revert s. induction Hok as [|e events He _ IH]; intros s Hs; [done|].
  apply ensures_bind. eapply ensures_mono; [by apply pipe_step_ok|]. intros [] s1 H1. by apply IH.
Qed.

(** *** The output goes *)

Lemma unwritten_nil n p : pipe_inv n p → unwritten p = [] → out_queue p = [].
Proof.
  intros [[] _] E. destruct (out_queue p) as [|b q] eqn:Eq; [done|]. rewrite (unwritten_first b q p Eq pi_partial0) in E.
  apply app_eq_nil in E as [E _]. apply (f_equal zlen) in E. cbn in pi_partial0. rewrite zlen_drop in E by lia. change (zlen []) with 0 in E. lia.
Qed.

Lemma unwritten_first_block n p : pipe_inv n p → unwritten p = [] ∨ concat (output_vector p) ≠ [].
Proof.
  intros I. destruct (out_queue p) as [|b q] eqn:Eq; [left; unfold unwritten; by rewrite Eq; apply drop_nil|right].
  destruct I as [[] _]. unfold output_vector. rewrite Eq in *. cbn. intros E. apply app_eq_nil in E as [E _].
  apply (f_equal zlen) in E. cbn in pi_partial0. rewrite zlen_drop in E by lia. change (zlen []) with 0 in E. lia.
Qed.

(** An open pipe with other things to do than to write *)
Definition busy (p : CockpitPipe) : Prop := closing p = false ∧ in_done p && err_done p = false.

Lemma output_done_live n emit s : pipe_inv n (pipe s) → busy (pipe s) → out_source (pipe s) = true →
  ensures (output_done pipe emit None) (λ _ s',
    if bool_decide (out_queue (pipe s) = []) then pipe s' = (pipe s) <| out_source := false |> <| out_polled := false |>
    else pipe s' = pipe s) s.
Proof.
  intros I [Hb1 Hb2] Es. apply ensures_bind, ensures_get. destruct (decide (out_queue (pipe s) = [])) as [E|E].
  2:{ rewrite bool_decide_eq_true_2, bool_decide_eq_false_2 by done. done. }
  rewrite bool_decide_eq_false_2, bool_decide_eq_true_2 by (by try intros []). rewrite Hb1.
  apply ensures_bind. apply (ensures_when_stop_output true); [by eapply inv_alive|done|]. intros s1 E1.
  rewrite Es, andb_false_r in E1. rewrite <- E1. apply ensures_alive_seq; [rewrite E1; exact (inv_alive _ _ I)|].
  apply ensures_bind, ensures_get, ensures_when; [|done]. intros Ec. exfalso. revert Ec. rewrite E1. cbn.
  apply andb_false_iff in Hb2 as [-> | ->]; by rewrite ?andb_false_r.
Qed.

Lemma output_step_live on_close on_read on_pressure ret s :
  pressure_handler on_pressure → pipe_inv 0 (pipe s) → busy (pipe s) → out_polled (pipe s) = true →
  0 ≤ ret ≤ zlen (concat (output_vector (pipe s))) → (unwritten (pipe s) ≠ [] → 1 ≤ ret) →
  ensures (step pipe on_close on_read on_pressure (Output (SoError None) (Wrote ret) None)) (λ _ s',
    pipe_inv 0 (pipe s') ∧ busy (pipe s') ∧ accepted (pipe s') = accepted (pipe s) ∧
    if out_polled (pipe s') then (length (unwritten (pipe s')) < length (unwritten (pipe s)))%nat
    else out_queue (pipe s') = [] ∧ out_source (pipe s') = false) s.
Proof.
  intros Hp I Hb Ep Hr H1. assert (Es : out_source (pipe s) = true) by (destruct I as [[] _]; auto).
  apply ensures_bind, ensures_get, ensures_when; intros Hposs.
  2:{ exfalso. revert Hposs. cbn. rewrite Ep. cbn. rewrite andb_false_iff, !Z.leb_gt. lia. }
  apply ensures_alive_seq; [by eapply inv_alive|]. apply ensures_bind, ensures_get, ensures_bind.
  eapply (ensures_mono _ (λ go s1, go = true ∧ pipe s1 = (pipe s) <| connecting := false |>)).
  { destruct (connecting (pipe s)) eqn:Ec; [by apply ensures_put_seq|]. split; [done|]. rewrite <- Ec. by destruct (pipe s). }
  intros go s1 [-> E1]. assert (I1 : pipe_inv 0 (pipe s1)) by (rewrite E1; same_inv).
  apply ensures_output_write; try done; [by rewrite E1|by rewrite E1|]. intros s2 q m k E2 I2.
  assert (Hlen : length (unwritten (pipe s)) = (Z.to_nat ret + length (unwritten (pipe s2)))%nat).
  { pose proof (pi_accepted _ _ (proj1 I)) as A. pose proof (pi_accepted _ _ (proj1 I2)) as A2.
    assert (Ea : accepted (pipe s2) = accepted (pipe s)) by (by rewrite E2, E1).
    assert (Ew : written (pipe s2) = written (pipe s) ++ take (Z.to_nat ret) (concat (output_vector (pipe s)))) by (by rewrite E2, E1).
    rewrite Ea, Ew, A, <- app_assoc in A2. apply app_inv_head in A2. rewrite A2, length_app, length_take. unfold zlen in Hr. lia. }
  eapply ensures_mono; [apply (output_done_live 0); [done| |]|].
  - rewrite E2, E1. exact Hb.
  - rewrite E2, E1. exact Es.
  - intros [] s3 E3. destruct (decide (out_queue (pipe s2) = [])) as [Eq|Eq].
    + rewrite bool_decide_eq_true_2 in E3 by done. rewrite E3. split; [|split; [|split]].
      * destruct I2 as [[] C]. split; [|exact C]. constructor; cbn; try done. intros Ec. by destruct (pi_closed0 Ec) as (? & ? & ? & ? & ? & ?).
      * rewrite E2, E1. exact Hb.
      * by rewrite E2, E1.
      * done.
    + rewrite bool_decide_eq_false_2 in E3 by done. rewrite E3. split; [done|]. split; [rewrite E2, E1; exact Hb|]. split; [by rewrite E2, E1|].
      assert (Ep2 : out_polled (pipe s2) = true) by (rewrite E2, E1; exact Ep). rewrite Ep2.
      assert (Hn : unwritten (pipe s2) ≠ []) by (intros E; by apply Eq, (unwritten_nil 0)).
      destruct (unwritten (pipe s)) eqn:Eu; [destruct (unwritten (pipe s2)); cbn in Hlen; done || lia|].
      specialize (H1 ltac:(done)). lia.
Qed.

Lemma flush_idle on_close on_read on_pressure takes times (Q : unit → S → Prop) s : out_polled (pipe s) = false → Q tt s →
  ensures (flush pipe on_close on_read on_pressure takes times) Q s.
Proof.
  intros Ep HQ. induction times as [|times IH]; [done|]. apply ensures_bind, ensures_get, ensures_bind, ensures_bind, ensures_get, ensures_when; intros E; [|done].
  cbn in E. rewrite Ep in E. done.
Qed.

(** C34: what is queued is written.  If the system takes at least a byte whenever the descriptor is ready, as many times
    as there are bytes are enough: everything that was accepted has then been written, in order; the queue is
    empty, the descriptor is not polled any more, and the pipe exerts no pressure. *)
Theorem output_flushed on_close on_read on_pressure takes times s :
  pressure_handler on_pressure →
  (∀ v, 0 ≤ takes v ≤ zlen (concat v) ∧ (concat v ≠ [] → 1 ≤ takes v)) →
  pipe_inv 0 (pipe s) → busy (pipe s) → out_polled (pipe s) = true → (length (unwritten (pipe s)) < times)%nat →
  ensures (flush pipe on_close on_read on_pressure takes times) (λ _ s',
    written (pipe s') = accepted (pipe s) ∧ out_queue (pipe s') = [] ∧ out_queued (pipe s') = 0 ∧
    out_source (pipe s') = false ∧ signalled (signals (pipe s')) = false) s.
Proof.
  intros Hp Ht. revert s. induction times as [|times IH]; intros s I Hb Ep Hl; [lia|].
  apply ensures_bind, ensures_get, ensures_bind. destruct (Ht (output_vector (pipe s))) as [H1 H2].
  eapply ensures_mono; [apply output_step_live; try done|].
  - intros Hn. apply H2. intros E.
    by destruct (unwritten_first_block 0 _ I).
  - intros [] s1 (I1 & Hb1 & Ea & Hout). rewrite <- Ea. destruct (out_polled (pipe s1)) eqn:Ep1.
    + apply IH; try done. lia.
    + destruct Hout as [Eq Es]. apply flush_idle; [done|]. pose proof I1 as [[] _]. rewrite Eq in *. destruct pi_queued0 as [Ez _].
      change (total []) with 0 in Ez. rewrite pi_pressure0, Ez. split; [|done].
      unfold unwritten in pi_accepted0. rewrite Eq in pi_accepted0. cbn [concat] in pi_accepted0. by rewrite drop_nil, app_nil_r in pi_accepted0.
Qed.

(** C33: a pipe that one of its constructors has made, whatever the main loop, the system and those who use it do then,
    in any order, on these conditions: [shutdown] succeeds or says that the descriptor is no socket, whenever it is called
    (after another error the pipe may be used when it has been freed: [shutdown_uses_freed_pipe]); a block that is written has at
    most [G_MAXSIZE] bytes; the handlers of "close" and "read" may use the pipe, write to it, close it and let go of references
    that their owners hold, but leave its invariant, and the handlers of the pressure do not touch it.  Then nothing faults, freed
    memory is not used and no assertion fails; the pipe says once that it is closed, and not before its process has been
    reaped; the end of the input is signalled at most once; once the pipe is closed each descriptor it has been given is closed,
    and none is ever closed more often than the pipe has been given it, once for different ones (a socket that is given as the input
    and as the output is closed as both: [socket_closed_twice]); what has been written is a beginning of what was queued, and the buffer is the end of what was read. *)
Theorem pipe_safe on_close on_read on_pressure events s :
  close_handler on_close → read_handler on_read → pressure_handler on_pressure →
  created (pipe s) → Forall event_ok events →
  ensures (run pipe on_close on_read on_pressure events) (λ _ s', lawful (pipe s')) s.
Proof.
  intros Hc Hr Hp Hs Hok. eapply ensures_mono; [apply pipe_run_ok; auto; left; by apply created_inv|].
  intros [] s1. apply settled_lawful.
Qed.

End Invariant.

(** ** The environment *)

(** What [getenv] finds *)
Fixpoint getenv (env : list (list Z)) (name : list Z) : option (list Z) :=
  match env with
  | [] => None
  | e :: env => if prefixb (name ++ [61]) e then Some (drop (length name + 1) e) else getenv env name
  end.

Definition assign (a : list Z * list Z) : list Z := a.1 ++ [61] ++ a.2.

(** The value of a name that was given last *)
Definition last_value (name : list Z) (assignments : list (list Z * list Z)) : option (list Z) :=
  foldl (λ v a, if decide (a.1 = name) then Some a.2 else v) None assignments.

Lemma name_of_assign n v : 61 ∉ n → name_of (n ++ [61] ++ v) = n.
Proof.
  intros Hn. unfold name_of. change ([61] ++ v) with (61 :: v). enough (E : strchr (n ++ 61 :: v) 61 = Some (zlen n)).
  { rewrite E. unfold zlen. rewrite Nat2Z.id. by rewrite take_app_length. }
  induction n as [|x n IH]; [done|]. apply not_elem_of_cons in Hn as [Hx Hn]. cbn [app strchr].
  destruct (Z.eqb_spec x 61); [congruence|]. rewrite IH by done. cbn. f_equal. rewrite zlen_cons. lia.
Qed.

Lemma prefix_assign m n v : 61 ∉ m → 61 ∉ n → prefixb (m ++ [61]) (n ++ [61] ++ v) = bool_decide (n = m).
Proof.
  intros Hm Hn. destruct (decide (n = m)) as [->|Hne].
  - rewrite bool_decide_eq_true_2 by done. rewrite (app_assoc m [61] v). apply prefixb_app.
  - rewrite bool_decide_eq_false_2 by done. apply not_true_iff_false. intros (r & E)%prefixb_spec. apply Hne.
    rewrite <- (name_of_assign n v Hn), E, <- app_assoc. by apply name_of_assign.
Qed.

Lemma environ_set_cons e env v :
  environ_set (e :: env) v = if prefixb (name_of v ++ [61]) e then v :: env else e :: environ_set env v.
Proof.
  unfold environ_set, environ_find. cbn [list_find]. destruct (prefixb _ e) eqn:E.
  - destruct (decide _); [done|congruence].
  - destruct (decide _); [congruence|]. destruct (list_find _ env) as [[x y]|]; done.
Qed.

Lemma getenv_set env n v name : 61 ∉ n → 61 ∉ name →
  getenv (environ_set env (assign (n, v))) name = if decide (n = name) then Some v else getenv env name.
Proof.
  intros Hn Hname. unfold assign. cbn [fst snd].
  assert (Hhead : ∀ env', getenv ((n ++ [61] ++ v) :: env') name = if decide (n = name) then Some v else getenv env' name).
  { intros env'. cbn [getenv]. rewrite prefix_assign by done. destruct (decide (n = name)) as [->|Hne].
    - rewrite bool_decide_eq_true_2 by done. f_equal. rewrite app_assoc. apply drop_app_length'. by rewrite length_app.
    - by rewrite bool_decide_eq_false_2. }
  induction env as [|e env IH]; [apply Hhead|]. rewrite environ_set_cons, name_of_assign by done.
  destruct (prefixb (n ++ [61]) e) eqn:E.
  - rewrite Hhead. destruct (decide (n = name)) as [->|Hne]; [done|]. apply prefixb_spec in E as [r ->]. cbn [getenv].
    rewrite <- app_assoc, prefix_assign by done. by rewrite bool_decide_eq_false_2.
  - cbn [getenv]. rewrite IH. destruct (decide (n = name)) as [->|Hne]; [by rewrite E|done].
Qed.

Lemma getenv_sets assignments env name : Forall (λ a, 61 ∉ a.1) assignments → 61 ∉ name →
  getenv (foldl environ_set env (map assign assignments)) name =
    match last_value name assignments with Some v => Some v | None => getenv env name end.
Proof.
  intros Ha Hname. revert env. unfold last_value. induction assignments as [|[n v] assignments IH] using rev_ind; intros env; [done|].
  apply Forall_app in Ha as [Ha Hn]. apply Forall_cons in Hn as [Hn _]. rewrite map_app, !foldl_app. cbn [map foldl].
  rewrite getenv_set by done. cbn [fst snd]. destruct (decide _); [done|]. by apply IH.
Qed.

Lemma last_value_none name assignments : last_value name assignments = None ↔ name ∉ map fst assignments.
Proof.
  unfold last_value. induction assignments as [|[n v] assignments IH] using rev_ind; [split; [intros _; apply not_elem_of_nil|done]|].
  rewrite map_app, foldl_app, elem_of_app. cbn [map foldl fst snd]. rewrite list_elem_of_singleton. destruct (decide _) as [->|Hne].
  - split; [done|]. intros []. by right.
  - rewrite IH. split; [intros H [?|?]; congruence|tauto].
Qed.

Lemma pwd_name : 61 ∉ bs "PWD".
Proof. apply (bool_decide_eq_true_1 _). by vm_compute. Qed.

(** C35: a process finds every variable that it is given with the value that was given last, the directory as [PWD]
    if it is given none, and all others as they are in the environment of the program. *)
Theorem environment_given environ assignments directory name :
  Forall (λ a, 61 ∉ a.1) assignments → 61 ∉ name →
  getenv (cockpit_pipe_get_environ environ (map assign assignments) directory) name =
    match last_value name assignments, directory with
    | Some v, _ => Some v
    | None, Some d => if decide (name = bs "PWD") then Some d else getenv environ name
    | None, None => getenv environ name
    end.
Proof.
  intros Ha Hname. unfold cockpit_pipe_get_environ.
  assert (Hpwd : existsb (prefixb (bs "PWD=")) (map assign assignments) = true ↔ bs "PWD" ∈ map fst assignments).
  { rewrite existsb_exists, list_elem_of_fmap. split.
    - intros (e & He & E). apply in_map_iff in He as (a & <- & Hin). exists a. split; [|by apply list_elem_of_In].
      rewrite Forall_forall in Ha. specialize (Ha a ltac:(by apply list_elem_of_In)).
      change (bs "PWD=") with (bs "PWD" ++ [61]) in E. unfold assign in E.
      rewrite prefix_assign in E by auto using pwd_name. by apply bool_decide_eq_true in E.
    - intros (a & E & Hin). exists (assign a). split; [by apply in_map, list_elem_of_In|].
      unfold assign. rewrite <- E. by rewrite app_assoc, prefixb_app. }
  destruct directory as [d|]; [|by apply getenv_sets].
  destruct (existsb _ _).
  - rewrite getenv_sets by done. destruct (last_value name assignments) eqn:E; [done|]. apply last_value_none in E.
    destruct (decide _) as [->|]; [|done]. by destruct E; apply Hpwd.
  - change (g_environ_setenv ?env (bs "PWD") d) with (environ_set env (assign (bs "PWD", d))).
    rewrite getenv_set, getenv_sets by auto using pwd_name.
    destruct (decide _) as [<-|Hne].
    + rewrite decide_True by done. assert (E : last_value (bs "PWD") assignments = None) by (apply last_value_none; intros ?%Hpwd; done).
      by rewrite E.
    + destruct (last_value name assignments); [done|]. by rewrite decide_False by congruence.
Qed.

Lemma environment_given_witness :
  getenv (cockpit_pipe_get_environ [bs "PATH=/bin"; bs "LANG=C"]
      (map assign [(bs "LANG", bs "de"); (bs "X", bs "1=2"); (bs "LANG", bs "fr")]) (Some (bs "/root"))) (bs "LANG")
    = Some (bs "fr").
Proof.
  rewrite (environment_given [bs "PATH=/bin"; bs "LANG=C"] [(bs "LANG", bs "de"); (bs "X", bs "1=2"); (bs "LANG", bs "fr")]
    (Some (bs "/root")) (bs "LANG")).
  - by vm_compute.
  - apply (bool_decide_eq_true_1 _). by vm_compute.
  - apply (bool_decide_eq_true_1 _). by vm_compute.
Defined.

(** A process is started; it writes a greeting, which is consumed, answers what it is sent in two pieces, and is
    reaped after the end of its output.  The handlers take what they are given, and let go of the pipe. *)
Section Example.
Notation io := (prog CockpitPipe unit).
#[local] Instance io_ret_example : MRet io := λ A a, prog_ret A a.
#[local] Instance io_bind_example : MBind io := λ A B f m, prog_bind A B f m.

Definition ignore_pressure (throttle : bool) : io unit := mret tt.
Definition take_input : io unit := cockpit_pipe_skip whole 1.
Definition let_go (problem : option (list Z)) : io unit :=
  p ← self whole;
  when ((0 <? held p) && closed p) (pipe_unref whole (λ _, fault)).

Lemma take_input_ok : read_handler whole take_input.
Proof.
  intros n s _ I. apply ensures_bind, ensures_get, ensures_when; intros _; [|done]. apply (pipe_ensures_put whole). intros s' ->.
  by apply buffer_inv.
Qed.

Lemma let_go_ok : close_handler whole let_go.
Proof.
  intros n problem' s Hn I Ec. apply ensures_bind, ensures_get, ensures_when; intros E; [|by split].
  apply andb_true_iff in E as [E _]. eapply ensures_mono; [apply (pipe_unref_ok whole n); [done|lia|by right]|].
  intros [] s1 [H1 K1]. split; [by apply settled_inv|done].
Qed.

Definition example_events : list event :=
  [ DoWrite (bs "hello"); Input false (ReadBytes (bs "hi")); Output SockoptFailed (Wrote 2) None;
    Output SockoptFailed (Wrote 3) None; DoClose None (Some ENOTSOCK); Input true (ReadBytes []); Reaped 0 None ].

Definition example_pipe : CockpitPipe := cockpit_pipe_spawn false (Spawned 42 5 6 7).

Lemma example_created : created example_pipe.
Proof. apply created_spawn. intros ? ? ? ? [= <- <- <- <-]. lia. Qed.

Lemma pipe_safe_witness :
  ensures (run whole let_go take_input ignore_pressure example_events) (λ _ p, lawful p) example_pipe.
Proof.
  apply (pipe_safe whole let_go take_input ignore_pressure example_events example_pipe).
  - exact let_go_ok.
  - exact take_input_ok.
  - intros b s. done.
  - exact example_created.
  - repeat constructor; unfold shutdown_ok; auto; vm_compute; done.
Defined.

Definition example_started : CockpitPipe :=
  (step whole let_go take_input ignore_pressure (DoWrite (bs "hello")) example_pipe).2.

Lemma example_started_inv : pipe_inv 0 example_started.
Proof.
  assert (I : pipe_inv 0 example_pipe) by (apply created_inv, example_created).
  assert (H : ensures (cockpit_pipe_write whole ignore_pressure (bs "hello")) (λ _ p, pipe_inv 0 p) example_pipe).
  { eapply ensures_mono; [apply (cockpit_pipe_write_ok whole 0); [done|by vm_compute|by intros b s]|]. by intros [] p [? _]. }
  exact H.
Qed.

Lemma output_flushed_witness : accepted example_started = bs "hello" ∧
  ensures (flush whole let_go take_input ignore_pressure (λ v, Z.min 3 (zlen (concat v))) 9) (λ _ p,
    written p = accepted example_started ∧ out_queue p = [] ∧ out_queued p = 0 ∧ out_source p = false ∧
    signalled (signals p) = false) example_started.
Proof.
  split; [by vm_compute|].
  apply (output_flushed whole let_go take_input ignore_pressure (λ v, Z.min 3 (zlen (concat v))) 9 example_started).
  - intros b s. done.
  - intros v. pose proof (zlen_nonneg (concat v)). split; [lia|]. intros Hv. apply nonempty_zlen in Hv. lia.
  - exact example_started_inv.
  - by split; vm_compute.
  - by vm_compute.
  - apply Nat.ltb_lt. by vm_compute.
Defined.

Example example_result : let p := (run whole let_go take_input ignore_pressure example_events example_pipe).2 in
  written p = bs "hello" ∧ in_buffer p = [] ∧ references p = 0 ∧ closed_fds p = [5; 6] ∧
  signals p = [Read (bs "hi") false; Read (bs "i") true; Close None].
Proof. by vm_compute. Qed.
(** *** Findings *)

Notation outcome events p := (run whole let_go take_input ignore_pressure events p).

(** A pipe that is closed while it connects: [shutdown] reports [ENOTCONN], the pipe is closed at once and its handler lets
    go of the last reference, and then [close_output] goes on to look whether the pipe is closed. *)
Lemma shutdown_uses_freed_pipe :
  (outcome [DoClose None (Some (EOTHER 107))] (cockpit_pipe_connect (Connecting 5))).1 = Fault.
Proof. by vm_compute. Qed.

(** A socket is both the input and the output, and is closed as each of them; in between another file may have
    been opened as that descriptor. *)
Lemma socket_closed_twice : closed_fds (outcome [DoClose (Some (bs "terminated")) None] (cockpit_pipe_new 5 5)).2 = [5; 5].
Proof. by vm_compute. Qed.

(** When [writev] would block or has been interrupted, [dispatch_output] returns [FALSE]: the source leaves the main loop, but
    the pipe still has it, so nothing starts the output again. *)
Lemma output_stalls : let p := (outcome [Output (SoError None) (WriteError EAGAIN) None; DoWrite (bs "more")] example_started).2 in
  out_queue p = [bs "hello"; bs "more"] ∧ out_source p = true ∧ out_polled p = false.
Proof. by vm_compute. Qed.

(** The process exits while there is output: the descriptor is closed but the source stays, writing to descriptor -1 fails, and the
    pipe is closed with a problem, before what the process has written has been read. *)
Lemma exit_with_output_fails :
  let p := (outcome [Reaped 0 (Some ENOTSOCK); Output (SoError None) (WriteError EBADF) None] example_started).2 in
  signals p = [Close (Some (bs "internal-error"))] ∧ written p = [] ∧ received p = [].
Proof. by vm_compute. Qed.
End Example.
