(* ===== verification/Router.v ===== *)
(** * The router of the bridge: [src/bridge/cockpitrouter.c]

    Every "open" of a channel that the web service sends goes to the first of the router's rules that matches its
    options and takes it: a channel of the bridge itself, a peer (another bridge, of another host or of the
    superuser), or the refusal that takes whatever is left.  Options are made uniform before.  A channel of the
    group "fence" holds back all others while it is open.  The bridge of the superuser is started and stopped by the
    "init" message and over D-Bus, and its prompts are passed on.

    The router is a part of a state.  The transport, the channels, the peers and D-Bus are programs on that state
    ([surroundings]), which may call the router again; what the router relies on is stated of them
    ([well_behaved]).

    Shown: options that name the host in one way stay as they are; but for three events, which are named, nothing that
    comes lets an assertion fail or a rule be used that has been freed, and a channel of the bridge itself is only
    opened for its own host, and not for who requires the superuser; the rules follow the configuration, and those
    of bridges that are still configured are kept; a fence keeps the order of the channels, of which each is made
    once.

    Not modelled: the objects themselves (properties, the registration over D-Bus and its signals of changed
    properties), and the property that describes the bridges, which is a copy of their configuration. *)

From S2P Require Import Prelude Objects Hex JsonPrint Json WebFilter Transport.
From Stdlib Require Import Floats.SpecFloat.
#[local] Open Scope Z_scope.

(** ** Rules *)

Record RouterMatch := mkMatch {
  match_name : list Z;
  match_glob : option (list Z);       (* a pattern *)
  match_node : option json
}.

(** What a rule does with the channels it matches; a channel type is a [T], and peers are numbered. *)
Inductive callback (T : Type) :=
| OpenChannel (channel_type : T)
| OpenPeer (peer : nat)
| OpenDynamicPeer (template : object)
| OpenNotSupported.
#[global] Arguments OpenChannel {T}.
#[global] Arguments OpenPeer {T}.
#[global] Arguments OpenDynamicPeer {T}.
#[global] Arguments OpenNotSupported {T}.

(** The memory of a rule is told apart by number. *)
Record RouterRule (T : Type) := mkRule {
  rule_memory : nat;
  config : option object;
  matches : option (list RouterMatch);
  rule_callback : callback T;
  dynamic_peers : list (object * nat)
}.
#[global] Arguments mkRule {T}.
#[global] Arguments rule_memory {T}.
#[global] Arguments config {T}.
#[global] Arguments matches {T}.
#[global] Arguments rule_callback {T}.
#[global] Arguments dynamic_peers {T}.

#[export] Instance rule_eta T : Settable (RouterRule T) := λ r,
  mkRule (rule_memory r) (config r) (matches r) (rule_callback r) (dynamic_peers r).

Definition router_match_new (object : object) (name : list Z) : RouterMatch :=
  let node := json_object_get_member object name in
  mkMatch name
    (match node with Some (JString s) => Some s | _ => None end)
    (match node with Some JNull => None | _ => node end).

Definition router_rule_compile (object : option object) : option (list RouterMatch) :=
  (λ object, map (router_match_new object) (json_object_get_members object)) <$> object.

Definition json_object_has_member (o : object) (name : list Z) : bool :=
  bool_decide (is_Some (json_object_get_member o name)).

(** [g_pattern_match] of a pattern and a string *)
Definition match_one (g_pattern_match : list Z → list Z → bool) (object : object) (m : RouterMatch) : bool :=
  match match_glob m, match_node m with
  | Some glob, _ =>
      match cockpit_json_get_string object (match_name m) None with
      | Some (Some value) => g_pattern_match glob value
      | _ => false
      end
  | None, Some node =>
      match json_object_get_member object (match_name m) with
      | Some node' => cockpit_json_equal node node'
      | None => false
      end
  | None, None => json_object_has_member object (match_name m)
  end.

Definition router_rule_match {T} (g_pattern_match : list Z → list Z → bool) (rule : RouterRule T) (object : object) : bool :=
  match matches rule with
  | None => false
  | Some matches => forallb (match_one g_pattern_match object) matches
  end.

Definition json_object_equal (a b : object) : bool := cockpit_json_equal (JObject a) (JObject b).

Definition router_rule_find {T} (rules : list (RouterRule T)) (config' : object) : option (RouterRule T) :=
  snd <$> list_find (λ rule, match config rule with Some c => json_object_equal c config' | None => false end = true) rules.

(** ** Options *)

(** [g_strsplit (string, "+", 3)], when there are three parts *)
Definition three_parts (string : list Z) : option (list Z * list Z * list Z) :=
  a ← strchr string 43;
  let rest := drop (Z.to_nat a + 1) string in
  b ← strchr rest 43;
  Some (take (Z.to_nat a) string, take (Z.to_nat b) rest, drop (Z.to_nat b + 1) rest).

(** "host+key+value" is the host, with the option [host-key]. *)
Definition cockpit_router_normalize_host (init_host : list Z) (options : object) : option object :=
  match cockpit_json_get_string options (bs "host") (Some init_host) with
  | Some (Some host) =>
      let '(options, actual_host) :=
        match three_parts host with
        | Some (part, name, value) =>
            let key := bs "host-" ++ name in
            if bool_decide (part ≠ [] ∧ name ≠ [] ∧ value ≠ []) && negb (json_object_has_member options key)
            then (json_object_set_member options key (JString value), part)
            else (options, host)
        | None => (options, host)
        end in
      Some (if decide (init_host = actual_host) then json_object_remove_member options (bs "host")
            else if decide (host ≠ actual_host) then json_object_set_member options (bs "host") (JString actual_host)
            else options)
  | _ => None
  end.

Definition cockpit_router_normalize_host_params (user_name : list Z) (options : object) : object :=
  let shareable := default None (cockpit_json_get_string options (bs "session") None) in
  let user := default None (cockpit_json_get_string options (bs "user") None) in
  let '(needs_private, options) :=
    match shareable with
    | Some _ => (false, options)
    | None =>
        let needs_private := bool_decide (is_Some user) || json_object_has_member options (bs "host-key") in
        if json_object_has_member options (bs "temp-session") then
          (needs_private && default true (cockpit_json_get_bool options (bs "temp-session") true),
           json_object_remove_member options (bs "temp-session"))
        else (needs_private, options)
    end in
  let options := if bool_decide (user = Some user_name) then json_object_remove_member options (bs "user") else options in
  if needs_private then json_object_set_member options (bs "session") (JString (bs "private")) else options.

(** ** The router and what is around it *)

Inductive starting := Start | Init.

Record CockpitRouter (T : Type) := mkRouter {
  privileged : bool;
  init_host : option (list Z);
  rules : list (RouterRule T);
  old_rules : list (RouterRule T);           (* those that are being replaced *)
  next_memory : nat;                         (* of the rules that will be made *)
  channels : gset (list Z);
  groups : gmap (list Z) (list Z);
  fences : gset (list Z);
  fenced : list (list Z);
  superuser_rule : option nat;               (* the memory of a rule *)
  superuser_transport : option nat;
  superuser_start_invocation : option nat;
  superuser_stop_invocation : option nat;
  superuser_init_in_progress : bool;
  superuser_legacy : bool;
  superuser_answer : option nat              (* the peer that waits for an answer *)
}.
#[global] Arguments mkRouter {T}.
#[global] Arguments privileged {T}.
#[global] Arguments init_host {T}.
#[global] Arguments rules {T}.
#[global] Arguments old_rules {T}.
#[global] Arguments next_memory {T}.
#[global] Arguments channels {T}.
#[global] Arguments groups {T}.
#[global] Arguments fences {T}.
#[global] Arguments fenced {T}.
#[global] Arguments superuser_rule {T}.
#[global] Arguments superuser_transport {T}.
#[global] Arguments superuser_start_invocation {T}.
#[global] Arguments superuser_stop_invocation {T}.
#[global] Arguments superuser_init_in_progress {T}.
#[global] Arguments superuser_legacy {T}.
#[global] Arguments superuser_answer {T}.

#[export] Instance router_eta T : Settable (CockpitRouter T) := λ r,
  mkRouter (privileged r) (init_host r) (rules r) (old_rules r) (next_memory r) (channels r) (groups r) (fences r) (fenced r)
    (superuser_rule r) (superuser_transport r) (superuser_start_invocation r) (superuser_stop_invocation r)
    (superuser_init_in_progress r) (superuser_legacy r) (superuser_answer r).

(** What is returned for the call of a method *)
Inductive reply := Value | Failed (message : list Z) | NotSupported (message : list Z).

(** The transport, the channels, the peers and D-Bus, as programs on the state *)
Record surroundings (S T : Type) := mkSurroundings {
  cockpit_transport_close : list Z → prog S unit unit;
  cockpit_transport_send : list Z → prog S unit unit;                     (* a control message *)
  transport_freeze : list Z → prog S unit unit;
  transport_thaw : list Z → prog S unit unit;
  transport_emit_open : list Z → object → list Z → prog S unit unit;      (* a control message that has come *)
  new_channel : option T → list Z → object → prog S unit unit;            (* [None]: a plain [CockpitChannel] *)
  close_channel : list Z → list Z → prog S unit unit;
  new_peer : object → prog S unit nat;
  unref_peer : nat → prog S unit unit;
  cockpit_peer_handle : nat → list Z → object → list Z → prog S unit bool;
  cockpit_peer_reset : nat → prog S unit unit;
  cockpit_peer_ensure_with_done : nat → starting → prog S unit (option nat);
  close_superuser : nat → list Z → prog S unit unit;
  peer_answer : nat → option (list Z) → prog S unit unit;
  invocation_return : nat → reply → prog S unit unit;
  emit_prompt : list Z → list Z → prog S unit unit                        (* the prompt, the previous error *)
}.
#[global] Arguments cockpit_transport_close {S T}.
#[global] Arguments cockpit_transport_send {S T}.
#[global] Arguments transport_freeze {S T}.
#[global] Arguments transport_thaw {S T}.
#[global] Arguments transport_emit_open {S T}.
#[global] Arguments new_channel {S T}.
#[global] Arguments close_channel {S T}.
#[global] Arguments new_peer {S T}.
#[global] Arguments unref_peer {S T}.
#[global] Arguments cockpit_peer_handle {S T}.
#[global] Arguments cockpit_peer_reset {S T}.
#[global] Arguments cockpit_peer_ensure_with_done {S T}.
#[global] Arguments close_superuser {S T}.
#[global] Arguments peer_answer {S T}.
#[global] Arguments invocation_return {S T}.
#[global] Arguments emit_prompt {S T}.

Section Router.
Context {S T : Type} (router : S → CockpitRouter T) `{!Setter router} (env : surroundings S T).
Context (g_pattern_match : list Z → list Z → bool) (dtostr : spec_float → list Z) (user_name : list Z).
Context (json_node_get_int_of_double : spec_float → Z) (g_path_get_basename : list Z → list Z).

Notation io := (prog S unit).
#[local] Instance io_ret : MRet io := λ A a, prog_ret A a.
#[local] Instance io_bind : MBind io := λ A B f m, prog_bind A B f m.

Definition self : io (CockpitRouter T) := get router.
Definition put (f : CockpitRouter T → CockpitRouter T) : io unit := modify (update router f).

Fixpoint each {A} (l : list A) (m : A → io unit) : io unit :=
  match l with [] => mret tt | a :: l => _ ← m a; each l m end.

Definition build_control (members : list (list Z * list Z)) : list Z :=
  cockpit_transport_build_control dtostr (map (λ m, (m.1, Some m.2)) members).

(** ** Channels *)

Definition on_channel_closed (channel : list Z) : io unit :=
  p ← self;
  let was_fence := bool_decide (channel ∈ fences p) in
  _ ← put (λ r, r <| channels ::= λ c, c ∖ {[channel]} |> <| groups ::= delete channel |> <| fences ::= λ f, f ∖ {[channel]} |>);
  p ← self;
  if negb was_fence || negb (bool_decide (fences p = ∅)) then mret tt
  else
    _ ← put (λ r, r <| fenced := [] |>);
    each (fenced p) (transport_thaw env).

Definition create_channel (channel : list Z) (options : object) (type : option T) : io unit :=
  _ ← new_channel env type channel options;
  put (λ r, r <| channels ::= λ c, {[channel]} ∪ c |>).

(** A group that is no string leaves the variable for it as it is, which has not been set. *)
Definition process_open_channel (channel : list Z) (options : object) (type : T) : io bool :=
  match cockpit_json_get_string options (bs "group") (Some (bs "default")) with
  | Some (Some group) =>
      _ ← when (bool_decide (group = bs "fence")) (put (λ r, r <| fences ::= λ f, {[channel]} ∪ f |>));
      _ ← put (λ r, r <| groups ::= <[channel := group]> |>);
      _ ← create_channel channel options (Some type);
      mret true
  | _ => fault
  end.

Definition substitute_json_string (options : option object) (variable : list Z) : option (list Z) :=
  match options with
  | Some options => Some (default [] (default None (cockpit_json_get_string options variable (Some []))))
  | None => Some []
  end.

Definition update_rule (memory : nat) (f : RouterRule T → RouterRule T) : io unit :=
  let at_memory rule := if (rule_memory rule =? memory)%nat then f rule else rule in
  put (λ r, r <| rules ::= map at_memory |> <| old_rules ::= map at_memory |>).

Definition process_open_dynamic_peer (rule : RouterRule T) (template : object) (channel : list Z) (options : object) (data : list Z)
    : io bool :=
  let config := cockpit_template_expand_json (bs "${") (bs "}") (substitute_json_string (Some options)) template in
  peer ← match list_find (λ d, json_object_equal d.1 config = true) (dynamic_peers rule) with
         | Some (_, (_, peer)) => mret peer
         | None =>
             peer ← new_peer env config;
             _ ← update_rule (rule_memory rule) (λ r, r <| dynamic_peers ::= λ l, l ++ [(config, peer)] |>);
             mret peer
         end;
  cockpit_peer_handle env peer channel options data.

Definition process_open_not_supported (channel : list Z) (options : object) : io bool :=
  _ ← create_channel channel options None;
  mret true.

Definition router_rule_invoke (rule : RouterRule T) (channel : list Z) (options : object) (data : list Z) : io bool :=
  match rule_callback rule with
  | OpenChannel type => process_open_channel channel options type
  | OpenPeer peer => cockpit_peer_handle env peer channel options data
  | OpenDynamicPeer template => process_open_dynamic_peer rule template channel options data
  | OpenNotSupported => process_open_not_supported channel options
  end.

Definition process_open_access_denied (channel : list Z) : io unit :=
  cockpit_transport_send env
    (build_control [(bs "command", bs "close"); (bs "channel", channel); (bs "problem", bs "access-denied")]).

(** What is asked of the superuser: [None] if nothing *)
Definition superuser_option (options : object) : option (list Z) :=
  match cockpit_json_get_string options (bs "superuser") None with
  | Some s => s
  | None => if default false (cockpit_json_get_bool options (bs "superuser") false) then Some (bs "require") else None
  end.

Definition rule_at (memory : nat) (p : CockpitRouter T) : option (RouterRule T) :=
  snd <$> list_find (λ rule, rule_memory rule = memory) (rules p ++ old_rules p).

Definition process_open_superuser (channel : list Z) (options : object) : io bool :=
  p ← self;
  if privileged p then mret false
  else
    match cockpit_json_get_string options (bs "host") None with
    | Some (Some _) => mret false
    | _ =>
        match superuser_option options with
        | None => mret false
        | Some superuser =>
            if negb (bool_decide (superuser = bs "require")) && bool_decide (superuser_rule p = None) then mret false
            else
              match superuser_rule p with
              | None => _ ← process_open_access_denied channel; mret true
              | Some memory =>
                  match rule_at memory p with
                  | Some rule =>
                      _ ← router_rule_invoke rule channel options (cockpit_json_write_bytes dtostr options);
                      mret true
                  | None => fault                                  (* it has been freed *)
                  end
              end
        end
    end.

(** The first rule that matches and takes the channel *)
Fixpoint rules_loop (l : list (RouterRule T)) (channel : list Z) (options : object) (data : list Z) : io unit :=
  match l with
  | [] => mret tt
  | rule :: l =>
      if router_rule_match g_pattern_match rule options then
        taken ← router_rule_invoke rule channel options data;
        if taken : bool then mret tt else rules_loop l channel options data
      else rules_loop l channel options data
  end.

Definition process_open (channel : option (list Z)) (options : object) (data : list Z) : io unit :=
  match channel with
  | None => cockpit_transport_close env (bs "protocol-error")
  | Some channel =>
      p ← self;
      if bool_decide (channel ∈ channels p) then cockpit_transport_close env (bs "protocol-error")
      else if negb (bool_decide (fences p = ∅)) && negb (bool_decide (channel ∈ fences p)) then
        _ ← put (λ r, r <| fenced ::= λ l, l ++ [channel] |>);
        _ ← transport_freeze env channel;
        transport_emit_open env channel options data
      else
        match init_host p with
        | None => fault
        | Some init_host =>
            match cockpit_router_normalize_host init_host options with
            | None => _ ← process_open_not_supported channel options; mret tt
            | Some options =>
                done ← process_open_superuser channel options;
                if done : bool then mret tt
                else
                  let options := cockpit_router_normalize_host_params user_name options in
                  p ← self;
                  rules_loop (rules p) channel options (cockpit_json_write_bytes dtostr options)
            end
        end
  end.

(** Which of the channels come first is up to the hash table. *)
Definition process_kill (options : object) : io unit :=
  match cockpit_json_get_string options (bs "group") None, cockpit_json_get_string options (bs "host") None with
  | Some group, Some host =>
      p ← self;
      if bool_decide (is_Some host) && bool_decide (host ≠ init_host p) then mret tt
      else
        let list := match group with
                    | Some group => filter (λ id, groups p !! id = Some group) (elements (channels p))
                    | None => elements (channels p)
                    end in
        each list (λ channel, close_channel env channel (bs "terminated"))
  | _, _ => mret tt
  end.

(** ** The bridge of the superuser *)

(** [None] for a rule that is none of a superuser *)
Definition rule_superuser_id (rule : RouterRule T) : option (list Z) :=
  config ← config rule;
  if default false (cockpit_json_get_bool config (bs "privileged") false) then
    match cockpit_json_get_string config (bs "label") None with
    | Some (Some label) => Some label
    | _ =>
        match cockpit_json_get_strv config (bs "spawn") None with
        | Some (Some (program :: _)) => Some (g_path_get_basename program)
        | _ => None
        end
    end
  else None.

Definition superuser_start_done (error stderr : option (list Z)) : io unit :=
  p ← self;
  match superuser_start_invocation p with
  | None => fault
  | Some invocation =>
      _ ← match error with
          | Some error =>
              let message :=
                if bool_decide (error = bs "cancelled") then error
                else match stderr with Some (c :: s) => c :: s | _ => error end in
              _ ← put (λ r, r <| superuser_rule := None |>);
              invocation_return env invocation (Failed message)
          | None => invocation_return env invocation Value
          end;
      put (λ r, r <| superuser_answer := None |> <| superuser_start_invocation := None |>)
  end.

Definition superuser_transport_closed : io unit :=
  p ← self;
  _ ← match superuser_stop_invocation p with
      | Some invocation => invocation_return env invocation Value
      | None => mret tt
      end;
  put (λ r, r <| superuser_stop_invocation := None |> <| superuser_rule := None |> <| superuser_transport := None |>).

Definition on_superuser_transport_closed (transport : nat) : io unit :=
  p ← self;
  when (bool_decide (superuser_transport p = Some transport)) superuser_transport_closed.

(** The bridge of a rule is started afresh. *)
Definition start_superuser (rule : RouterRule T) (how : starting) : io unit :=
  _ ← put (λ r, r <| superuser_rule := Some (rule_memory rule) |>);
  match rule_callback rule with
  | OpenPeer peer =>
      _ ← cockpit_peer_reset env peer;
      transport ← cockpit_peer_ensure_with_done env peer how;
      put (λ r, r <| superuser_transport := transport |>)
  | _ => fault                                                     (* what it has is no peer *)
  end.

Definition superuser_of (id : option (list Z)) (rule : RouterRule T) : bool :=
  match rule_superuser_id rule with
  | Some rule_id => match id with Some id => bool_decide (id = rule_id) | None => true end
  | None => false
  end.

Definition superuser_start (id : list Z) (invocation : nat) : io unit :=
  p ← self;
  if bool_decide (is_Some (superuser_rule p)) then
    invocation_return env invocation (Failed (bs "Already started a superuser bridge"))
  else
    match list_find (λ rule, superuser_of (Some id) rule = true) (rules p) with
    | Some (_, rule) =>
        _ ← put (λ r, r <| superuser_start_invocation := Some invocation |>);
        start_superuser rule Start
    | None => invocation_return env invocation (NotSupported (bs "No such superuser bridge"))
    end.

Definition superuser_stop (invocation : nat) : io unit :=
  p ← self;
  if bool_decide (superuser_rule p = None) then
    invocation_return env invocation (Failed (bs "No superuser bridge running"))
  else
    _ ← put (λ r, r <| superuser_stop_invocation := Some invocation |>);
    match superuser_transport p with
    | Some transport =>
        close_superuser env transport
          (if bool_decide (is_Some (superuser_start_invocation p)) then bs "cancelled" else bs "terminated")
    | None => mret tt                                              (* a critical warning *)
    end.

(** The prompt that waits is answered. *)
Definition answer_prompt (value : option (list Z)) : io unit :=
  p ← self;
  match superuser_answer p with
  | Some peer => _ ← peer_answer env peer value; put (λ r, r <| superuser_answer := None |>)
  | None => mret tt
  end.

Definition superuser_method_answer (value : list Z) (invocation : nat) : io unit :=
  p ← self;
  if bool_decide (superuser_start_invocation p = None) then
    invocation_return env invocation (Failed (bs "No bridge startup going on"))
  else
    _ ← answer_prompt (Some value);
    invocation_return env invocation Value.

Definition superuser_bridges (p : CockpitRouter T) : list (list Z) := omap rule_superuser_id (rules p).

Definition superuser_current (p : CockpitRouter T) : option (list Z) :=
  if privileged p then Some (bs "root")
  else if superuser_init_in_progress p then Some (bs "init")
  else if bool_decide (is_Some (superuser_start_invocation p)) then Some (bs "none")
  else match superuser_rule p with
       | None => Some (bs "none")
       | Some memory => rule ← rule_at memory p; rule_superuser_id rule
       end.

Definition superuser_init_done (error : option (list Z)) : io unit :=
  _ ← when (bool_decide (is_Some error)) (put (λ r, r <| superuser_rule := None |>));
  _ ← put (λ r, r <| superuser_init_in_progress := false |>);
  p ← self;
  when (negb (superuser_legacy p))
    (cockpit_transport_send env (build_control [(bs "command", bs "superuser-init-done")])).

(** [None]: any *)
Definition superuser_init_start (id : option (list Z)) : io unit :=
  _ ← put (λ r, r <| superuser_init_in_progress := true |>);
  p ← self;
  match (if privileged p then None else list_find (λ rule, superuser_of id rule = true) (rules p)) with
  | Some (_, rule) => start_superuser rule Init
  | None => superuser_init_done None
  end.

Definition superuser_init (options : object) : io unit :=
  match cockpit_json_get_string options (bs "id") None with
  | Some (Some id) => superuser_init_start (if bool_decide (id = bs "any") then None else Some id)
  | _ => superuser_init_done None
  end.

Definition superuser_legacy_init : io unit :=
  _ ← put (λ r, r <| superuser_legacy := true |>); superuser_init_start None.

(** When the user is not known ([None]) its name cannot be written in hexadecimal. *)
Definition cockpit_router_prompt (user : option (list Z)) (prompt previous_error : option (list Z)) (peer : nat) : io unit :=
  p ← self;
  if bool_decide (is_Some (superuser_answer p)) then peer_answer env peer None
  else if bool_decide (is_Some (superuser_start_invocation p)) then
    _ ← put (λ r, r <| superuser_answer := Some peer |>);
    emit_prompt env (default [] prompt) (default [] previous_error)
  else if superuser_init_in_progress p then
    _ ← put (λ r, r <| superuser_answer := Some peer |>);
    match user with
    | None => fault
    | Some user =>
        match cockpit_hex_encode (user ++ [0]) (-1) with
        | Ok user_hex =>
            cockpit_transport_send env (build_control
              [(bs "command", bs "authorize"); (bs "challenge", bs "plain1:" ++ user_hex ++ bs ":"); (bs "cookie", bs "super1")])
        | _ => fault
        end
    end
  else peer_answer env peer None.

Definition cockpit_router_prompt_cancel (peer : nat) : io unit :=
  p ← self;
  when (bool_decide (superuser_answer p = Some peer)) (put (λ r, r <| superuser_answer := None |>)).

(** ** Messages *)

(** The host of an "init" message, or the problem with it *)
Definition init_message (p : CockpitRouter T) (options : object) : list Z + list Z :=
  if bool_decide (is_Some (init_host p)) then inr (bs "protocol-error")
  else
    match cockpit_json_get_int json_node_get_int_of_double options (bs "version") (-1) with
    | None => inr (bs "protocol-error")
    | Some version =>
        if version =? -1 then inr (bs "protocol-error")
        else
          match cockpit_json_get_string options (bs "host") None with
          | Some (Some host) => if version =? 1 then inl host else inr (bs "not-supported")
          | _ => inr (bs "protocol-error")
          end
    end.

Definition process_init (options : object) : io unit :=
  p ← self;
  match init_message p options with
  | inr problem => cockpit_transport_close env problem
  | inl host =>
      _ ← put (λ r, r <| init_host := Some host |>);
      match json_object_get_member options (bs "superuser") with
      | Some (JObject superuser) => superuser_init superuser
      | Some _ => mret tt
      | None => superuser_legacy_init
      end
  end.

(** The answer to the prompt of the superuser's bridge, with the cookie that was given with it *)
Definition super1_response (options : object) : option (option (list Z)) :=
  match cockpit_json_get_string options (bs "cookie") None with
  | Some (Some cookie) =>
      if bool_decide (cookie = bs "super1") then cockpit_json_get_string options (bs "response") None else None
  | _ => None
  end.

(** Whether the message has been handled.  A missing cookie is compared as well. *)
Definition on_transport_control (command : list Z) (channel : option (list Z)) (options : object) (message : list Z) : io bool :=
  p ← self;
  let rest :=
    if bool_decide (command = bs "init") then _ ← process_init options; mret true
    else if bool_decide (init_host p = None) then _ ← cockpit_transport_close env (bs "protocol-error"); mret true
    else if bool_decide (command = bs "open") then _ ← process_open channel options message; mret true
    else
      _ ← (if bool_decide (command = bs "kill") then process_kill options
           else when (bool_decide (command = bs "close") && bool_decide (channel = None))
                  (cockpit_transport_close env (bs "protocol-error")));
      mret false in
  if bool_decide (command = bs "authorize") then
    if bool_decide (cockpit_json_get_string options (bs "cookie") None = Some None) then fault
    else
      match super1_response options, superuser_answer p with
      | Some response, Some _ => _ ← answer_prompt response; mret true
      | _, _ => rest
      end
  else rest.

(** ** The configuration *)

Definition new_rule (config : option object) (matches : option (list RouterMatch)) (callback : callback T) : io unit :=
  put (λ r, r <| rules ::= cons (mkRule (next_memory r) config matches callback []) |> <| next_memory ::= Datatypes.S |>).

Definition cockpit_router_init : io unit := new_rule None (router_rule_compile (Some [])) OpenNotSupported.

Definition cockpit_router_ban_hosts : io unit :=
  new_rule None (router_rule_compile (Some [(bs "host", JNull)])) OpenNotSupported.

Definition cockpit_router_add_channel (match_ : object) (type : T) : io unit :=
  new_rule None (router_rule_compile (Some match_)) (OpenChannel type).

Definition cockpit_router_add_peer (match_ : object) (peer : nat) : io unit :=
  new_rule None (router_rule_compile (Some match_)) (OpenPeer peer).

(** Whether a configuration has variables; templates are expanded in memory that ends with a NUL. *)
Definition has_variables (config : object) : bool :=
  match cockpit_template_expand (bs "${") (bs "}") (substitute_json_string None) (cockpit_json_write_bytes dtostr config) [0] with
  | Ok (_ :: _ :: _) => true
  | _ => false
  end.

Definition cockpit_router_add_bridge (config : object) : io unit :=
  let match_ := default None (cockpit_json_get_object config (bs "match") None) in
  if negb (has_variables config) then
    peer ← new_peer env config;
    new_rule (Some config) (router_rule_compile match_) (OpenPeer peer)
  else if default false (cockpit_json_get_bool config (bs "privileged") false) then mret tt
  else new_rule (Some config) (router_rule_compile match_) (OpenDynamicPeer config).

Definition router_rule_destroy (rule : RouterRule T) : io unit :=
  match rule_callback rule with
  | OpenPeer peer => unref_peer env peer
  | OpenDynamicPeer _ => each (map snd (dynamic_peers rule)) (unref_peer env)
  | _ => mret tt
  end.

Definition free_rule (memory : nat) : io unit :=
  put (λ r, r <| old_rules ::= filter (λ old, rule_memory old ≠ memory) |>).

(** A rule with the configuration is moved to the front of the new ones, or made. *)
Definition set_bridge (config : object) : io unit :=
  p ← self;
  match router_rule_find (old_rules p) config with
  | Some rule => _ ← free_rule (rule_memory rule); put (λ r, r <| rules ::= cons rule |>)
  | None => cockpit_router_add_bridge config
  end.

(** The rules that are left go, or are put at the end if they are of no bridge. *)
Definition old_rule (rule : RouterRule T) : io unit :=
  match config rule with
  | Some _ =>
      p ← self;
      _ ← when (bool_decide (superuser_rule p = Some (rule_memory rule))) superuser_transport_closed;
      _ ← router_rule_destroy rule;
      free_rule (rule_memory rule)
  | None => put (λ r, r <| rules ::= λ l, l ++ [rule] |> <| old_rules ::= filter (λ old, rule_memory old ≠ rule_memory rule) |>)
  end.

(** The configurations are gone through from the last one. *)
Definition cockpit_router_set_bridges (bridges : list object) : io unit :=
  _ ← put (λ r, r <| rules := [] |> <| old_rules := rules r |>);
  _ ← each (rev bridges) set_bridge;
  p ← self;
  each (old_rules p) old_rule.

(** [cockpit_router_new]: the types of the payloads, with their names *)
Definition cockpit_router_setup (payloads : list (list Z * T)) (bridges : list object) : io unit :=
  _ ← cockpit_router_init;
  _ ← each payloads (λ payload, cockpit_router_add_channel [(bs "payload", JString payload.1)] payload.2);
  _ ← cockpit_router_ban_hosts;
  cockpit_router_set_bridges bridges.

(** ** Events *)

Inductive router_event :=
| Control (command : list Z) (channel : option (list Z)) (options : object) (message : list Z)
| ChannelClosed (channel : list Z)
| SuperuserStart (id : list Z) (invocation : nat)
| SuperuserStop (invocation : nat)
| SuperuserAnswer (value : list Z) (invocation : nat)
| StartDone (error stderr : option (list Z))
| InitDone (error : option (list Z))
| SuperuserClosed (transport : nat)
| Prompt (user prompt previous_error : option (list Z)) (peer : nat)
| PromptCancel (peer : nat)
| SetBridges (bridges : list object).

Definition router_step (e : router_event) : io unit :=
  match e with
  | Control command channel options message => _ ← on_transport_control command channel options message; mret tt
  | ChannelClosed channel => on_channel_closed channel
  | SuperuserStart id invocation => superuser_start id invocation
  | SuperuserStop invocation => superuser_stop invocation
  | SuperuserAnswer value invocation => superuser_method_answer value invocation
  | StartDone error stderr =>
      p ← self; when (bool_decide (is_Some (superuser_start_invocation p))) (superuser_start_done error stderr)
  | InitDone error => superuser_init_done error
  | SuperuserClosed transport => on_superuser_transport_closed transport
  | Prompt user prompt previous_error peer => cockpit_router_prompt user prompt previous_error peer
  | PromptCancel peer => cockpit_router_prompt_cancel peer
  | SetBridges bridges => cockpit_router_set_bridges bridges
  end.
End Router.

(** ** Options that have been made uniform *)

Lemma has_set_member (o : object) name v k :
  json_object_has_member (json_object_set_member o name v) k = bool_decide (name = k) || json_object_has_member o k.
Proof.
  unfold json_object_has_member. rewrite get_set_member. destruct (decide (name = k)) as [->|Hn].
  - by rewrite !bool_decide_eq_true_2 by eauto.
  - by rewrite (bool_decide_eq_false_2 (name = k)).
Qed.

Lemma remove_absent (o : object) name : json_object_get_member o name = None → json_object_remove_member o name = o.
Proof.
  rewrite get_member_none. intros Hn. unfold json_object_remove_member. induction o as [|[k v] o IH]; [done|].
  cbn in Hn. rewrite not_elem_of_cons in Hn. rewrite filter_cons_True by (cbn; intros ->; tauto). f_equal. apply IH. tauto.
Qed.

Lemma remove_idemp (o : object) name :
  json_object_remove_member (json_object_remove_member o name) name = json_object_remove_member o name.
Proof. apply remove_absent. rewrite get_remove_member. by rewrite decide_True. Qed.

Lemma has_remove_member (o : object) name k : name ≠ k →
  json_object_has_member (json_object_remove_member o name) k = json_object_has_member o k.
Proof. intros Hn. unfold json_object_has_member. by rewrite get_remove_member, decide_False. Qed.

Lemma strchr_none s c : c ∉ s → c ≠ 0 → strchr s c = None.
Proof.
  intros Hs H0. induction s as [|x s IH]; [by cbn; destruct (Z.eqb_spec c 0)|]. apply not_elem_of_cons in Hs as [Hx Hs].
  cbn [strchr]. destruct (Z.eqb_spec x c); [congruence|]. by rewrite IH.
Qed.

Lemma three_parts_plain s : 43 ∉ s → three_parts s = None.
Proof. intros Hs. unfold three_parts. by rewrite strchr_none. Qed.

Lemma three_parts_first s a b c : three_parts s = Some (a, b, c) → 43 ∉ a ∧ a ≠ s.
Proof.
  unfold three_parts. destruct (strchr s 43) as [n|] eqn:E; [|done]. cbn. destruct (strchr (drop _ s) 43) as [m|]; [|done]. cbn.
  intros [= <- _ _]. revert n E. induction s as [|x s IH]; intros n; [done|cbn [strchr]].
  destruct (Z.eqb_spec x 43) as [->|Hx].
  - intros [= <-]. split; [apply not_elem_of_nil|done].
  - destruct (strchr s 43) as [k|] eqn:Ek; [|done]. cbn. intros [= <-].
    assert (0 ≤ k) by (apply strchr_lookup in Ek; lia). replace (Z.to_nat (Z.succ k)) with (S (Z.to_nat k)) by lia. cbn.
    destruct (IH k eq_refl) as [H1 H2]. split; [apply not_elem_of_cons; by split|congruence].
Qed.

(** What [cockpit_router_normalize_host] has made uniform stays as it is, whatever the options and the host of the
    bridge: "host+key+value" has been split, and the bridge's own host left out.  Options are made uniform again when an
    "open" that was held back comes in again. *)
Theorem normal_host_stable init_host options normal :
  cockpit_router_normalize_host init_host options = Some normal →
  cockpit_router_normalize_host init_host normal = Some normal.
Proof.
  unfold cockpit_router_normalize_host at 1. destruct (cockpit_json_get_string options (bs "host") (Some init_host)) as [[host|]|] eqn:Eh; try done.
  assert (Hkey : ∀ name, bs "host-" ++ name ≠ bs "host") by (intros name [=]).
  (* the same host is split again only if it could not be split *)
  assert (Hsame : ∀ o, cockpit_json_get_string o (bs "host") (Some init_host) = Some (Some host) →
    (∀ name, json_object_has_member o (bs "host-" ++ name) = json_object_has_member options (bs "host-" ++ name)) →
    match three_parts host with
    | Some (part, name, value) => bool_decide (part ≠ [] ∧ name ≠ [] ∧ value ≠ []) && negb (json_object_has_member options (bs "host-" ++ name))
    | None => false end = false →
    cockpit_router_normalize_host init_host o =
      Some (if decide (init_host = host) then json_object_remove_member o (bs "host") else o)).
  { intros o Eo Ho Hf. unfold cockpit_router_normalize_host. rewrite Eo.
    destruct (three_parts host) as [[[part name] value]|]; cbn zeta; rewrite ?Ho, ?Hf; destruct (decide (init_host = host)); try done;
      by rewrite decide_False by tauto. }
  destruct (match three_parts host with Some _ => _ | None => false end) eqn:Esplit.
  - destruct (three_parts host) as [[[part name] value]|] eqn:E3; [|done]. cbn zeta. rewrite Esplit.
    apply three_parts_first in E3 as [Hp Hne]. destruct (decide (init_host = part)) as [->|Hi].
    + intros [= <-]. unfold cockpit_router_normalize_host, cockpit_json_get_string. rewrite get_remove_member, decide_True by done.
      rewrite three_parts_plain by done. by rewrite decide_True, remove_idemp.
    + rewrite decide_True by congruence. intros [= <-]. unfold cockpit_router_normalize_host, cockpit_json_get_string.
      rewrite get_set_member, decide_True by done. rewrite three_parts_plain by done.
      rewrite decide_False by done. by rewrite decide_False by tauto.
  - assert (E : ∀ x, (if decide (init_host = host) then json_object_remove_member options (bs "host") else options) = x →
      cockpit_router_normalize_host init_host x = Some x).
    { intros x <-. destruct (decide (init_host = host)) as [->|Hi].
      - rewrite Hsame; [by rewrite remove_idemp| | |done].
        + unfold cockpit_json_get_string. by rewrite get_remove_member, decide_True.
        + intros name. by apply has_remove_member.
      - by rewrite Hsame. }
    destruct (three_parts host) as [[[part name] value]|]; cbn zeta; rewrite ?Esplit; intros [= H]; apply E; rewrite <- H;
      destruct (decide (init_host = host)); try done; by rewrite decide_False by tauto.
Qed.

Lemma normal_host_stable_witness : let options := [(bs "host", JString (bs "server+user+admin")); (bs "payload", JString (bs "echo"))] in
  let normal := [(bs "payload", JString (bs "echo")); (bs "host-user", JString (bs "admin"))] in
  cockpit_router_normalize_host (bs "server") options = Some normal ∧ cockpit_router_normalize_host (bs "server") normal = Some normal.
Proof.
  split; [by vm_compute|].
  apply (normal_host_stable (bs "server") [(bs "host", JString (bs "server+user+admin")); (bs "payload", JString (bs "echo"))]).
  by vm_compute.
Defined.

(** The other options do not stay: "temp-session" is taken out, so what was not to be private, because it said so, is private when
    it comes in again, and then goes to another bridge. *)
Lemma params_not_stable : let options := [(bs "user", JString (bs "admin")); (bs "temp-session", JBool false)] in
  let once := cockpit_router_normalize_host_params (bs "root") options in
  once = [(bs "user", JString (bs "admin"))] ∧
  cockpit_router_normalize_host_params (bs "root") once = once ++ [(bs "session", JString (bs "private"))].
Proof. by vm_compute. Qed.

(** ** What holds of a router *)

Section Rules.
Context {T : Type}.
Implicit Types (rule : RouterRule T) (p : CockpitRouter T).

(** A rule that takes every channel of another host, and refuses it *)
Definition is_ban rule : Prop := matches rule = router_rule_compile (Some [(bs "host", JNull)]) ∧ rule_callback rule = OpenNotSupported.

Definition is_default rule : Prop := matches rule = Some [] ∧ rule_callback rule = OpenNotSupported.

Definition opens_channel rule : Prop := match rule_callback rule with OpenChannel _ => True | _ => False end.

Definition opens_peer rule : Prop := match rule_callback rule with OpenPeer _ => True | _ => False end.

(** Before the first rule for a channel of the bridge itself there is one that takes all of other hosts. *)
Fixpoint guarded (l : list (RouterRule T)) : Prop :=
  match l with
  | [] => True
  | rule :: l => is_ban rule ∨ ¬ opens_channel rule ∧ guarded l
  end.

(** A rule of a configuration is for peers, and the one of a superuser for one peer. *)
Definition rule_ok (g_path_get_basename : list Z → list Z) rule : Prop :=
  (is_Some (config rule) → ¬ opens_channel rule ∧ rule_callback rule ≠ OpenNotSupported) ∧
  (is_Some (rule_superuser_id g_path_get_basename rule) → opens_peer rule).

Definition all_rules p : list (RouterRule T) := rules p ++ old_rules p.

Record router_inv (g_path_get_basename : list Z → list Z) p : Prop := {
  ri_fences : fences p ⊆ channels p;
  ri_one_fence : ∀ a b, a ∈ fences p → b ∈ fences p → a = b;
  ri_groups : dom (groups p) ⊆ channels p;
  ri_waiting : fences p = ∅ → fenced p = [];
  ri_guarded : guarded (all_rules p);
  ri_rules : Forall (rule_ok g_path_get_basename) (all_rules p);
  ri_memory : NoDup (rule_memory <$> all_rules p) ∧ Forall (λ rule, (rule_memory rule < next_memory p)%nat) (all_rules p);
  ri_superuser : ∀ memory, superuser_rule p = Some memory →
    ∃ rule, rule ∈ all_rules p ∧ rule_memory rule = memory ∧ is_Some (rule_superuser_id g_path_get_basename rule)
}.

(** The rules, except for the peers of those that have variables *)
Definition shape (l : list (RouterRule T)) : list (RouterRule T) := map (λ rule, rule <| dynamic_peers := [] |>) l.

(** What those who are called, and who may call the router, leave as it is *)
Definition follows p p' : Prop :=
  shape (rules p') = shape (rules p) ∧ shape (old_rules p') = shape (old_rules p) ∧ next_memory p' = next_memory p ∧
  privileged p' = privileged p ∧ (is_Some (init_host p) → init_host p' = init_host p) ∧
  (∀ memory, superuser_rule p' = Some memory → superuser_rule p = Some memory ∨ memory ∈ rule_memory <$> rules p).

Lemma shape_memory (l l' : list (RouterRule T)) : shape l' = shape l → rule_memory <$> l' = rule_memory <$> l.
Proof.
  intros E. assert (H : ∀ l, rule_memory <$> l = rule_memory <$> shape l).
  { intros k. induction k as [|x k IH]; [done|]. cbn. by rewrite IH. }
  by rewrite (H l'), E, <- H.
Qed.

Lemma follows_refl p : follows p p.
Proof. split_and!; auto. Qed.

Lemma follows_by p p' : rules p' = rules p → old_rules p' = old_rules p → next_memory p' = next_memory p →
  privileged p' = privileged p → init_host p' = init_host p → superuser_rule p' = superuser_rule p → follows p p'.
Proof. unfold follows. intros -> -> E1 E2 E3 E4. split_and!; auto. intros memory. rewrite E4. auto. Qed.

Lemma follows_trans p q r : follows p q → follows q r → follows p r.
Proof.
  intros (A1 & A2 & A3 & A4 & A5 & A6) (B1 & B2 & B3 & B4 & B5 & B6). split_and!; try congruence.
  - intros H. rewrite <- (A5 H). apply B5. by rewrite (A5 H).
  - intros m Hm. destruct (B6 m Hm) as [H|H]; [by apply A6|]. right. by rewrite <- (shape_memory _ _ A1).
Qed.

Lemma guarded_app_l a b : guarded (a ++ b) → guarded a.
Proof. induction a as [|rule a IH]; cbn; [done|]. intros [?|[? ?]]; [by left|right; auto]. Qed.

Lemma guarded_filter (P : RouterRule T → Prop) `{!∀ x, Decision (P x)} l :
  (∀ rule, rule ∈ l → ¬ P rule → ¬ is_ban rule) → guarded l → guarded (filter P l).
Proof.
  induction l as [|rule l IH]; intros Hl; [done|].
  assert (Hl' : ∀ r, r ∈ l → ¬ P r → ¬ is_ban r) by (intros r Hr; apply Hl; by right).
  destruct (decide (P rule)) as [HP|HP]; [rewrite filter_cons_True by done|rewrite filter_cons_False by done].
  - cbn [guarded]. intros [?|[? ?]]; [by left|right; auto].
  - cbn [guarded]. intros [Hb|[_ ?]]; [|auto]. exfalso. by apply (Hl rule); [left| |].
Qed.

Lemma guarded_shape l l' : shape l' = shape l → guarded l → guarded l'.
Proof.
  revert l'. induction l as [|rule l IH]; intros [|rule' l']; try done. intros [= E El]. cbn. intros Hg.
  destruct rule, rule'. unfold is_ban, opens_channel in *. cbn in *. simplify_eq. destruct Hg as [?|[? ?]]; [by left|right; auto].
Qed.
End Rules.

Section Reshape.
Context {T : Type} (g_path_get_basename : list Z → list Z).
Implicit Types (rule : RouterRule T) (p : CockpitRouter T).

Lemma shape_app (a b : list (RouterRule T)) : shape (a ++ b) = shape a ++ shape b.
Proof. apply map_app. Qed.

Lemma shape_in (l l' : list (RouterRule T)) rule : shape l' = shape l → rule ∈ l →
  ∃ rule', rule' ∈ l' ∧ rule' <| dynamic_peers := [] |> = rule <| dynamic_peers := [] |>.
Proof.
  intros E Hin. assert (H : rule <| dynamic_peers := [] |> ∈ shape l') by (rewrite E; by apply list_elem_of_fmap_2).
  apply list_elem_of_fmap in H as (rule' & E' & H'). by exists rule'.
Qed.

Lemma inv_reshape p p' : router_inv g_path_get_basename p → shape (all_rules p') = shape (all_rules p) →
  next_memory p' = next_memory p → channels p' = channels p → groups p' = groups p → fences p' = fences p → fenced p' = fenced p →
  superuser_rule p' = superuser_rule p → router_inv g_path_get_basename p'.
Proof.
  intros [] E E1 E2 E3 E4 E5 E6. pose proof (shape_memory _ _ E) as Em. constructor; rewrite ?E2, ?E3, ?E4, ?E5, ?E6; try done.
  - by eapply guarded_shape.
  - rewrite Forall_forall in ri_rules0 |- *. intros rule Hr. destruct (shape_in _ _ rule (eq_sym E) Hr) as (rule' & Hin & Es).
    specialize (ri_rules0 _ Hin). destruct rule, rule'. cbn in Es. by simplify_eq.
  - rewrite E1, Em. split; [apply ri_memory0|]. apply Forall_forall. intros rule Hr. destruct ri_memory0 as [_ Hm].
    rewrite Forall_forall in Hm. destruct (shape_in _ _ rule (eq_sym E) Hr) as (rule' & Hin & Es). specialize (Hm _ Hin).
    destruct rule, rule'. cbn in *. by simplify_eq.
  - intros memory Hm. destruct (ri_superuser0 memory Hm) as (rule & Hr & <- & Hs). destruct (shape_in _ _ rule E Hr) as (rule' & Hin & Es).
    exists rule'. split; [done|]. destruct rule, rule'. cbn in *. by simplify_eq.
Qed.

(** The bridge of the superuser has a rule, with a peer. *)
Lemma superuser_rule_at p memory : router_inv g_path_get_basename p → superuser_rule p = Some memory →
  ∃ rule peer, rule_at memory p = Some rule ∧ rule_memory rule = memory ∧ rule ∈ all_rules p ∧ rule_callback rule = OpenPeer peer.
Proof.
  intros [] Hm. destruct (ri_superuser0 memory Hm) as (rule & Hr & <- & Hs). unfold rule_at. fold (all_rules p).
  destruct ri_memory0 as [Hn _].
  destruct (list_find (λ r, rule_memory r = rule_memory rule) (all_rules p)) as [[i rule']|] eqn:E.
  - apply list_find_Some in E as (Hi & Em & _). apply list_elem_of_lookup in Hr as [j Hj].
    assert (i = j) as -> by (eapply (NoDup_lookup _ i j (rule_memory rule) Hn); rewrite list_lookup_fmap, ?Hi, ?Hj; cbn; congruence).
    assert (rule' = rule) as -> by congruence. assert (Hin : rule ∈ all_rules p) by (by eapply list_elem_of_lookup_2).
    rewrite Forall_forall in ri_rules0. destruct (ri_rules0 rule Hin) as [_ Hp]. specialize (Hp Hs). unfold opens_peer in Hp.
    destruct (rule_callback rule) eqn:Ec; try done. by eexists _, _.
  - apply list_find_None in E. rewrite Forall_forall in E. by destruct (E rule Hr).
Qed.
End Reshape.

Section Safe.
Context {S T : Type} (router : S → CockpitRouter T) `{!Setter router, !Field router} (env : surroundings S T).
Context (g_pattern_match : list Z → list Z → bool) (dtostr : spec_float → list Z) (user_name : list Z).
Context (json_node_get_int_of_double : spec_float → Z) (g_path_get_basename : list Z → list Z).

Notation io := (prog S unit).
#[local] Instance io_ret_safe : MRet io := λ A a, prog_ret A a.
#[local] Instance io_bind_safe : MBind io := λ A B f m, prog_bind A B f m.
Notation put := (put router).
Notation self := (self router).
Notation router_inv := (router_inv g_path_get_basename).

(** A program that does not touch the router, and one that may call it *)
Definition quiet {A} (m : io A) : Prop := ∀ s, ensures m (λ _ s', router s' = router s) s.

Definition calling {A} (m : io A) : Prop := ∀ s, router_inv (router s) →
  ensures m (λ _ s', router_inv (router s') ∧ follows (router s) (router s')) s.

(** What the router relies on.  A channel it makes only with an identifier that is not in use and, as it gives one to a peer,
    while no fence is open; one of the bridge itself without a host, and not for who requires the superuser. *)
Record well_behaved : Prop := {
  wb_close problem : calling (cockpit_transport_close env problem);
  wb_send message : quiet (cockpit_transport_send env message);
  wb_freeze channel : quiet (transport_freeze env channel);
  wb_thaw channel : calling (transport_thaw env channel);
  wb_emit_open channel options data : quiet (transport_emit_open env channel options data);
  wb_channel channel options s : channel ∉ channels (router s) → fences (router s) ⊆ {[channel]} →
    ensures (new_channel env None channel options) (λ _ s', router s' = router s) s;
  wb_own_channel type channel options s : channel ∉ channels (router s) → fences (router s) ⊆ {[channel]} →
    json_object_has_member options (bs "host") = false →
    (privileged (router s) = false → superuser_option options ≠ Some (bs "require")) →
    ensures (new_channel env (Some type) channel options) (λ _ s', router s' = router s) s;
  wb_close_channel channel problem : calling (close_channel env channel problem);
  wb_new_peer config : quiet (new_peer env config);
  wb_unref peer : calling (unref_peer env peer);
  wb_handle peer channel options data s : fences (router s) = ∅ →
    ensures (cockpit_peer_handle env peer channel options data) (λ _ s', router s' = router s) s;
  wb_reset peer : calling (cockpit_peer_reset env peer);
  wb_ensure peer how : calling (cockpit_peer_ensure_with_done env peer how);
  wb_superuser transport problem : calling (close_superuser env transport problem);
  wb_answer peer value : quiet (peer_answer env peer value);
  wb_return invocation reply : quiet (invocation_return env invocation reply);
  wb_prompt prompt error : quiet (emit_prompt env prompt error)
}.

Lemma ensures_seq_put {A} f (k : unit → io A) (Q : A → S → Prop) s :
  (∀ s', router s' = f (router s) → ensures (k tt) Q s') → ensures (put f ≫= k) Q s.
Proof. intros HQ. by apply ensures_bind, (ensures_update router). Qed.

Lemma quiet_calling {A} (m : io A) : quiet m → calling m.
Proof. intros H s I. eapply ensures_mono; [apply H|]. intros a s' ->. split; [done|apply follows_refl]. Qed.

Lemma calling_ret {A} (a : A) : calling (mret a).
Proof. intros s I. split; [done|apply follows_refl]. Qed.

Lemma calling_seq {A B} (m : io A) (k : A → io B) : calling m → (∀ a, calling (k a)) → calling (m ≫= k).
Proof.
  intros Hm Hk s I. apply ensures_bind. eapply ensures_mono; [by apply Hm|]. intros a s1 [I1 F1].
  eapply ensures_mono; [by apply Hk|]. intros b s2 [I2 F2]. split; [done|by eapply follows_trans].
Qed.

Lemma calling_when (b : bool) (m : io unit) : calling m → calling (when b m).
Proof. intros H. destruct b; [done|apply calling_ret]. Qed.

Lemma calling_each {A} (l : list A) (m : A → io unit) : (∀ a, calling (m a)) → calling (each l m).
Proof. intros H. induction l as [|a l IH]; [apply calling_ret|]. by apply calling_seq. Qed.

(** A field of the router is set. *)
Lemma calling_put f : (∀ p, router_inv p → router_inv (f p) ∧ follows p (f p)) → calling (put f).
Proof. intros H s I. apply (ensures_update router). intros s' ->. by apply H. Qed.

Lemma calling_self {A} (k : CockpitRouter T → io A) :
  (∀ s, router_inv (router s) → ensures (k (router s)) (λ _ s', router_inv (router s') ∧ follows (router s) (router s')) s) →
  calling (self ≫= k).
Proof. intros H s I. apply ensures_bind, ensures_get. by apply H. Qed.

(** Fields of which nothing is said *)
Ltac same_router := intros ? []; split; [by constructor|by apply follows_by].

Context (W : well_behaved).
#[local] Hint Resolve wb_close wb_send wb_freeze wb_thaw wb_emit_open wb_close_channel wb_new_peer wb_unref wb_reset wb_ensure
  wb_superuser wb_answer wb_return wb_prompt quiet_calling calling_ret calling_when calling_seq calling_each : core.

Lemma inv_closed (b : bool) channel p : router_inv p →
  let p' := p <| channels ::= λ c, c ∖ {[channel]} |> <| groups ::= delete channel |> <| fences ::= λ f, f ∖ {[channel]} |> : CockpitRouter T in
  (b = true → fences p' = ∅ → fenced p = []) → router_inv (if b then p' else p' <| fenced := [] |>).
Proof.
  intros [] p' Hw. assert (H1 : fences p' ⊆ channels p') by (clear -ri_fences0; cbn; set_solver).
  assert (H2 : ∀ x y, x ∈ fences p' → y ∈ fences p' → x = y).
  { intros x y Hx Hy. apply ri_one_fence0; [clear -Hx|clear -Hy]; cbn in *; set_solver. }
  assert (H3 : dom (groups p') ⊆ channels p') by (cbn; rewrite dom_delete_L; clear -ri_groups0; set_solver).
  destruct b; constructor; try done. by apply Hw.
Qed.

Lemma on_channel_closed_ok channel : calling (on_channel_closed router env channel).
Proof.
  intros s I. apply ensures_bind, ensures_get. set (was_fence := bool_decide _). apply ensures_seq_put. intros s1 E1.
  apply ensures_bind, ensures_get.
  assert (Hc : router_inv (if negb was_fence || negb (bool_decide (fences (router s1) = ∅)) then router s1 else (router s1) <| fenced := [] |>) ∧
    follows (router s) (router s1)).
  { rewrite E1. split; [|by apply follows_by]. apply inv_closed; [done|]. intros Hb E. apply (ri_waiting _ _ I). subst was_fence.
    apply orb_true_iff in Hb as [Hb|Hb]; apply negb_true_iff, bool_decide_eq_false in Hb; [|done]. clear -E Hb. cbn in E. set_solver. }
  destruct Hc as [Hc F1]. destruct (_ || _); [by split|]. apply ensures_seq_put. intros s2 E2.
  eapply ensures_mono; [apply calling_each; eauto|].
  - by rewrite E2.
  - intros [] s3 [I3 F3]. split; [done|]. eapply follows_trans; [exact F1|]. eapply follows_trans; [|exact F3]. rewrite E2. by apply follows_by.
Qed.

Lemma create_channel_ok channel options type s : router_inv (router s) → channel ∉ channels (router s) →
  fences (router s) ⊆ {[channel]} →
  (∀ t, type = Some t → json_object_has_member options (bs "host") = false ∧
    (privileged (router s) = false → superuser_option options ≠ Some (bs "require"))) →
  ensures (create_channel router env channel options type) (λ _ s', router s' = (router s) <| channels ::= λ c, {[channel]} ∪ c |>) s.
Proof.
  intros I Hc Hf Ht. apply ensures_bind. eapply (ensures_mono _ (λ _ s1, router s1 = router s)).
  - destruct type as [t|]; [|by apply wb_channel]. destruct (Ht t eq_refl). by apply wb_own_channel.
  - intros [] s1 E1. apply (ensures_update router). intros s2 ->. by rewrite E1.
Qed.

(** A group is a string, or there is none. *)
Definition group_ok (options : object) : Prop := cockpit_json_get_string options (bs "group") (Some (bs "default")) ≠ None.

(** A channel can be made: its identifier is not in use, and no fence is open. *)
Definition openable (channel : list Z) (p : CockpitRouter T) : Prop := channel ∉ channels p ∧ fences p = ∅.

(** Options for which the bridge may have a channel of its own *)
Definition own_options (options : object) (p : CockpitRouter T) : Prop :=
  json_object_has_member options (bs "host") = false ∧ (privileged p = false → superuser_option options ≠ Some (bs "require")).

Lemma get_string_default o name d : cockpit_json_get_string o name (Some d) ≠ None → ∃ v, cockpit_json_get_string o name (Some d) = Some (Some v).
Proof. unfold cockpit_json_get_string. destruct (json_object_get_member o name) as [[]|]; try done; eauto. Qed.

Lemma process_open_channel_ok channel options type s : router_inv (router s) → openable channel (router s) → group_ok options →
  own_options options (router s) →
  ensures (process_open_channel router env channel options type) (λ taken s',
    taken = true ∧ router_inv (router s') ∧ follows (router s) (router s')) s.
Proof.
  intros I [Hc Hf] Hg [Hh Hs]. unfold process_open_channel. destruct (get_string_default _ _ _ Hg) as [group ->].
  apply ensures_bind. eapply (ensures_mono _ (λ _ s1, router s1 = (router s) <| fences := if bool_decide (group = bs "fence") then {[channel]} else ∅ |>)).
  { apply ensures_when; intros ->.
    - apply (ensures_update router). intros s1 ->. destruct (router s). cbn in *. by rewrite Hf, union_empty_r_L.
    - rewrite <- Hf. by destruct (router s). }
  intros [] s1 E1. apply ensures_seq_put. intros s2 E2. rewrite E1 in E2. apply ensures_bind.
  apply ensures_bind. eapply (ensures_mono _ (λ _ s3, router s3 = router s2)); [apply wb_own_channel; rewrite ?E2; auto; cbn; destruct (bool_decide _); clear; set_solver|].
  intros [] s3 E3. apply (ensures_update router). intros s4 E4. apply ensures_ret. split; [done|]. rewrite E4, E3, E2.
  split; [|by apply follows_by]. pose proof I as []. constructor; cbn; try done.
  - destruct (bool_decide _); clear; set_solver.
  - destruct (bool_decide _); clear; set_solver.
  - rewrite dom_insert_L. clear -ri_groups0. set_solver.
  - intros _. by apply ri_waiting0.
Qed.

Lemma process_open_not_supported_ok channel options s : router_inv (router s) → openable channel (router s) →
  ensures (process_open_not_supported router env channel options) (λ taken s',
    taken = true ∧ router_inv (router s') ∧ follows (router s) (router s')) s.
Proof.
  intros I [Hc Hf]. apply ensures_bind. eapply ensures_mono; [apply create_channel_ok; try done; rewrite Hf; clear; set_solver|].
  intros [] s1 E1. apply ensures_ret. split; [done|]. rewrite E1. split; [|by apply follows_by].
  pose proof I as []. constructor; cbn; try done; [clear -ri_fences0; set_solver|clear -ri_groups0; set_solver].
Qed.

Lemma update_rule_ok memory l p : router_inv p →
  let at_memory (rule : RouterRule T) := if (rule_memory rule =? memory)%nat then rule <| dynamic_peers ::= λ k, k ++ l |> else rule in
  let p' := p <| rules ::= map at_memory |> <| old_rules ::= map at_memory |> : CockpitRouter T in
  router_inv p' ∧ follows p p'.
Proof.
  intros I at_memory p'. assert (Hs : ∀ k, shape (map at_memory k) = shape k).
  { intros k. unfold shape. rewrite map_map. apply map_ext. intros rule. unfold at_memory. by destruct (_ =? _)%nat. }
  split.
  - eapply inv_reshape; try done. change (shape (map at_memory (rules p) ++ map at_memory (old_rules p)) = shape (rules p ++ old_rules p)). by rewrite !shape_app, !Hs.
  - split; [apply Hs|]. split; [apply Hs|]. split_and!; auto.
Qed.

Lemma router_rule_invoke_ok rule channel options data s : router_inv (router s) → openable channel (router s) → group_ok options →
  (opens_channel rule → own_options options (router s)) →
  ensures (router_rule_invoke router env rule channel options data) (λ taken s',
    router_inv (router s') ∧ follows (router s) (router s') ∧ (rule_callback rule = OpenNotSupported → taken = true) ∧
    (taken = false → channels (router s') = channels (router s) ∧ fences (router s') = fences (router s))) s.
Proof.
  intros I Ho Hg Hown. unfold router_rule_invoke, opens_channel in *. destruct (rule_callback rule) as [type|peer|template|].
  - eapply ensures_mono; [by apply process_open_channel_ok; auto|]. by intros taken s' (-> & ? & ?).
  - eapply ensures_mono; [by apply wb_handle, Ho|]. intros taken s' ->. split; [done|]. split; [apply follows_refl|done].
  - unfold process_open_dynamic_peer. set (config := cockpit_template_expand_json _ _ _ _). apply ensures_bind.
    eapply (ensures_mono _ (λ _ s1, router_inv (router s1) ∧ follows (router s) (router s1) ∧
      channels (router s1) = channels (router s) ∧ fences (router s1) = fences (router s))).
    + destruct (list_find _ _) as [[? [? peer]]|]; [split; [done|]; split; [apply follows_refl|done]|].
      apply ensures_bind. eapply ensures_mono; [by apply wb_new_peer|]. intros peer s1 E1. apply ensures_seq_put. intros s2 E2.
      apply ensures_ret. rewrite E1 in E2. destruct (update_rule_ok (rule_memory rule) [(config, peer)] _ I) as [I2 F2].
      rewrite E2. split; [exact I2|]. by split.
    + intros peer s1 (I1 & F1 & E1 & E1'). eapply ensures_mono; [apply wb_handle; destruct Ho; congruence|]. intros taken s' ->. by split_and!.
  - eapply ensures_mono; [by apply process_open_not_supported_ok|]. by intros taken s' (-> & ? & ?).
Qed.

Lemma ban_matches (rule : RouterRule T) options : is_ban rule → json_object_has_member options (bs "host") = true → router_rule_match g_pattern_match rule options = true.
Proof. intros [E _] H. unfold router_rule_match. rewrite E. cbn -[json_object_has_member bs]. unfold match_one. cbn -[json_object_has_member bs]. by rewrite H. Qed.

Lemma rules_loop_ok l channel options data s : router_inv (router s) → openable channel (router s) → group_ok options →
  (json_object_has_member options (bs "host") = true → guarded l) →
  (json_object_has_member options (bs "host") = false → privileged (router s) = false → superuser_option options ≠ Some (bs "require")) →
  ensures (rules_loop router env g_pattern_match l channel options data) (λ _ s',
    router_inv (router s') ∧ follows (router s) (router s')) s.
Proof.
  revert s. induction l as [|rule l IH]; intros s I Ho Hg Hgd Hs; cbn [rules_loop]; [split; [done|apply follows_refl]|].
  assert (Hown : router_rule_match g_pattern_match rule options = true → opens_channel rule → own_options options (router s)).
  { intros Hm Hoc. destruct (json_object_has_member options (bs "host")) eqn:Eh; [|by split; auto].
    destruct (Hgd eq_refl) as [[_ Hb]|[Hn _]]; [|done]. unfold opens_channel in Hoc. by rewrite Hb in Hoc. }
  destruct (router_rule_match g_pattern_match rule options) eqn:Em.
  - apply ensures_bind. eapply ensures_mono; [apply router_rule_invoke_ok; auto|].
    intros taken s1 (I1 & F1 & Hns & Htaken). destruct taken; [by split|]. destruct (Htaken eq_refl) as [E1 E2].
    eapply ensures_mono; [apply IH|].
    + done.
    + unfold openable. by rewrite E1, E2.
    + done.
    + intros Eh. destruct (Hgd Eh) as [[_ Hb]|[_ ?]]; [|done]. by specialize (Hns Hb).
    + destruct F1 as (_ & _ & _ & -> & _). done.
    + intros [] s2 [I2 F2]. split; [done|by eapply follows_trans].
  - apply IH; try done. intros Eh. destruct (Hgd Eh) as [Hb|[_ ?]]; [|done].
    rewrite (ban_matches _ _ Hb Eh) in Em. done.
Qed.

(** Whether what is asked of the superuser may be left to the rules *)
Definition may_be_own (options : object) (p : CockpitRouter T) : Prop :=
  json_object_has_member options (bs "host") = false → privileged p = false → superuser_option options ≠ Some (bs "require").

Definition after_superuser (options : object) (s : S) (done : bool) (s' : S) : Prop :=
  router_inv (router s') ∧ follows (router s) (router s') ∧ (done = false → router s' = router s ∧ may_be_own options (router s)).

Lemma after_superuser_left options s : router_inv (router s) → may_be_own options (router s) → after_superuser options s false s.
Proof. intros I H. split; [done|]. split; [apply follows_refl|done]. Qed.

Lemma superuser_rule_ok channel options memory s : router_inv (router s) → openable channel (router s) → group_ok options →
  superuser_rule (router s) = Some memory →
  ensures (match rule_at memory (router s) with
           | Some rule => _ ← router_rule_invoke router env rule channel options (cockpit_json_write_bytes dtostr options); mret true
           | None => fault
           end) (after_superuser options s) s.
Proof.
  intros I Ho Hg Hm. destruct (superuser_rule_at _ _ _ I Hm) as (rule & peer & -> & _ & _ & Ecb). apply ensures_bind.
  eapply ensures_mono; [apply router_rule_invoke_ok; try done; unfold opens_channel; by rewrite Ecb|].
  by intros taken s1 (I1 & F1 & _).
Qed.

Lemma process_open_superuser_ok channel options s : router_inv (router s) → openable channel (router s) → group_ok options →
  ensures (process_open_superuser router env dtostr channel options) (after_superuser options s) s.
Proof.
  intros I Ho Hg. apply ensures_bind, ensures_get. destruct (privileged (router s)) eqn:Ep.
  { apply after_superuser_left; [done|]. intros _. by rewrite Ep. }
  assert (Hrest : ensures (match superuser_option options with
    | None => mret false
    | Some superuser =>
        if negb (bool_decide (superuser = bs "require")) && bool_decide (superuser_rule (router s) = None) then mret false
        else match superuser_rule (router s) with
             | None => _ ← process_open_access_denied env dtostr channel; mret true
             | Some memory => match rule_at memory (router s) with
                 | Some rule => _ ← router_rule_invoke router env rule channel options (cockpit_json_write_bytes dtostr options); mret true
                 | None => fault
                 end
             end
    end) (after_superuser options s) s).
  { destruct (superuser_option options) as [superuser|] eqn:Es; [|apply after_superuser_left; [done|]; intros _ _; by rewrite Es].
    destruct (_ && _) eqn:Eb.
    - apply andb_true_iff in Eb as [Er _]. apply negb_true_iff, bool_decide_eq_false in Er.
      apply after_superuser_left; [done|]. intros _ _. rewrite Es. congruence.
    - destruct (superuser_rule (router s)) as [memory|] eqn:Em; [by apply superuser_rule_ok|].
      apply ensures_bind. eapply ensures_mono; [by apply wb_send|]. intros [] s1 E1. apply ensures_ret. unfold after_superuser.
      rewrite E1. split; [done|]. split; [apply follows_refl|done]. }
  destruct (cockpit_json_get_string options (bs "host") None) as [[host|]|] eqn:Eh; [|exact Hrest|exact Hrest].
  apply after_superuser_left; [done|]. intros Hm. exfalso. revert Eh Hm. unfold cockpit_json_get_string, json_object_has_member.
  destruct (json_object_get_member options (bs "host")) as [[]|]; by intros.
Qed.

Lemma get_normal_params name options : name ∉ [bs "session"; bs "user"; bs "temp-session"] →
  json_object_get_member (cockpit_router_normalize_host_params user_name options) name = json_object_get_member options name.
Proof.
  intros Hn. rewrite !not_elem_of_cons in Hn. destruct Hn as (H1 & H2 & H3 & _). unfold cockpit_router_normalize_host_params.
  destruct (default None (cockpit_json_get_string options (bs "session") None));
    [|destruct (json_object_has_member options (bs "temp-session"))];
    repeat (match goal with |- context [if ?b then _ else _] => destruct b end);
    rewrite ?get_set_member, ?get_remove_member; by rewrite ?decide_False by congruence.
Qed.

Lemma get_normal_host name init_host options normal : cockpit_router_normalize_host init_host options = Some normal →
  name ≠ bs "host" → (∀ key, name ≠ bs "host-" ++ key) → json_object_get_member normal name = json_object_get_member options name.
Proof.
  intros E Hn Hk. revert E. unfold cockpit_router_normalize_host.
  destruct (cockpit_json_get_string _ _ _) as [[host|]|]; try done.
  destruct (three_parts host) as [[[part key] value]|]; cbn zeta.
  - assert (Hk' : bs "host-" ++ key ≠ name) by (intros E; by apply (Hk key)).
    destruct (_ && _); repeat destruct (decide _); intros E; apply (inj Some) in E as <-;
      rewrite ?get_set_member, ?get_remove_member, ?get_set_member; by rewrite ?decide_False by congruence.
  - repeat destruct (decide _); intros E; apply (inj Some) in E as <-; rewrite ?get_set_member, ?get_remove_member;
      by rewrite ?decide_False by congruence.
Qed.

Lemma group_not_host : ∀ key, bs "group" ≠ bs "host-" ++ key.
Proof. intros key. done. Qed.

Lemma normal_group_ok init_host options normal : cockpit_router_normalize_host init_host options = Some normal → group_ok options → group_ok normal.
Proof.
  intros E. unfold group_ok, cockpit_json_get_string. rewrite (get_normal_host (bs "group") _ _ _ E); [done| |apply group_not_host]. done.
Qed.

Lemma process_open_ok channel options data s : (channel ≠ None → group_ok options) → router_inv (router s) → init_host (router s) ≠ None →
  ensures (process_open router env g_pattern_match dtostr user_name channel options data) (λ _ s',
    router_inv (router s') ∧ follows (router s) (router s')) s.
Proof.
  intros Hg I Hi. destruct channel as [channel|]; [|by apply wb_close]. specialize (Hg ltac:(done)).
  apply ensures_bind, ensures_get. destruct (decide (channel ∈ channels (router s))) as [Hin|Hc].
  { rewrite bool_decide_eq_true_2 by done. by apply wb_close. }
  rewrite (bool_decide_eq_false_2 (channel ∈ channels (router s))) by done.
  assert (Hf : channel ∉ fences (router s)) by (destruct I; set_solver). rewrite (bool_decide_eq_false_2 (channel ∈ fences _)) by done.
  destruct (decide (fences (router s) = ∅)) as [Ef|Ef]; [rewrite bool_decide_eq_true_2 by done|rewrite bool_decide_eq_false_2 by done]; cbn [negb andb].
  2:{ apply ensures_seq_put. intros s1 E1. apply ensures_bind. eapply ensures_mono; [by apply wb_freeze|]. intros [] s2 E2.
      eapply ensures_mono; [by apply wb_emit_open|]. intros [] s3 ->. rewrite E2, E1. split; [|by apply follows_by].
      destruct I. constructor; try done. }
  destruct (init_host (router s)) as [host|] eqn:Eh; [|done].
  destruct (cockpit_router_normalize_host host options) as [normal|] eqn:En.
  - assert (Hg' : group_ok normal) by (by eapply normal_group_ok). apply ensures_bind.
    eapply ensures_mono; [by apply process_open_superuser_ok|]. intros [] s1 (I1 & F1 & H1); [by split|].
    destruct (H1 eq_refl) as [E1 Hown]. apply ensures_bind, ensures_get. rewrite E1.
    assert (Hk : ∀ name, name ∉ [bs "session"; bs "user"; bs "temp-session"] →
      json_object_get_member (cockpit_router_normalize_host_params user_name normal) name = json_object_get_member normal name)
      by (intros; by apply get_normal_params).
    eapply ensures_mono; [apply rules_loop_ok|].
    + by rewrite E1.
    + by rewrite E1.
    + unfold group_ok, cockpit_json_get_string. rewrite Hk; [done|]. by_decide.
    + intros _. rewrite <- E1. apply (guarded_app_l _ (old_rules (router s1))). by destruct I1.
    + rewrite E1. unfold may_be_own, superuser_option, json_object_has_member, cockpit_json_get_string, cockpit_json_get_bool in *.
      rewrite !Hk; [done|by_decide|by_decide].
    + intros [] s2 [I2 F2]. split; [done|by eapply follows_trans].
  - apply ensures_bind. eapply ensures_mono; [by apply process_open_not_supported_ok|]. by intros taken s1 (_ & I1 & F1).
Qed.

Lemma process_kill_ok options : calling (process_kill router env options).
Proof.
  unfold process_kill. destruct (cockpit_json_get_string options (bs "group") None); [|auto].
  destruct (cockpit_json_get_string options (bs "host") None); [|auto]. apply calling_self. intros s I.
  destruct (_ && _); [by apply calling_ret|]. by apply calling_each; auto.
Qed.

(** *** The bridge of the superuser *)

Lemma superuser_start_done_ok error stderr s : router_inv (router s) → superuser_start_invocation (router s) ≠ None →
  ensures (superuser_start_done router env error stderr) (λ _ s', router_inv (router s') ∧ follows (router s) (router s')) s.
Proof.
  intros I Hi. apply ensures_bind, ensures_get. destruct (superuser_start_invocation (router s)) as [invocation|]; [|done].
  revert s I Hi. enough (H : calling (_ ← match error with
    | Some error =>
        _ ← put (λ r, r <| superuser_rule := None |>);
        invocation_return env invocation (Failed (if bool_decide (error = bs "cancelled") then error
          else match stderr with Some (c :: s) => c :: s | _ => error end))
    | None => invocation_return env invocation Value
    end; put (λ r, r <| superuser_answer := None |> <| superuser_start_invocation := None |>))) by (intros s I _; by apply H).
  apply calling_seq; [|intros _; apply calling_put; same_router]. destruct error; [|auto].
  apply calling_seq; [|auto]. apply calling_put. intros p []. split; [by constructor|]. unfold follows. by split_and!; auto.
Qed.

Lemma superuser_transport_closed_ok : calling (superuser_transport_closed router env).
Proof.
  apply calling_self. intros s I. eapply (calling_seq _ _); [|intros _; apply calling_put|done].
  - destruct (superuser_stop_invocation _); auto.
  - intros p []. split; [by constructor|]. unfold follows. by split_and!; auto.
Qed.

Lemma on_superuser_transport_closed_ok transport : calling (on_superuser_transport_closed router env transport).
Proof. apply calling_self. intros s I. apply calling_when; [apply superuser_transport_closed_ok|done]. Qed.

Lemma start_superuser_ok rule how s : router_inv (router s) → rule ∈ rules (router s) → is_Some (rule_superuser_id g_path_get_basename rule) →
  ensures (start_superuser router env rule how) (λ _ s', router_inv (router s') ∧ follows (router s) (router s')) s.
Proof.
  intros I Hr Hid. apply ensures_seq_put. intros s1 E1.
  assert (Hin : rule ∈ all_rules (router s)) by (apply elem_of_app; by left).
  assert (I1 : router_inv (router s1) ∧ follows (router s) (router s1)).
  { rewrite E1. pose proof I as []. split.
    - constructor; try done. intros memory [= <-]. by exists rule.
    - unfold follows. split_and!; auto. intros memory [= <-]. right. by apply list_elem_of_fmap_2. }
  destruct I1 as [I1 F1]. assert (Hp : opens_peer rule).
  { pose proof (ri_rules _ _ I) as Ha. rewrite Forall_forall in Ha. by apply (Ha rule Hin). }
  unfold opens_peer in Hp. destruct (rule_callback rule) as [|peer| |]; try done.
  eapply ensures_mono; [apply calling_seq; [|intros _; apply calling_seq; [|intros transport; apply calling_put]|exact I1]|].
  - auto.
  - auto.
  - same_router.
  - intros [] s2 [I2 F2]. split; [done|by eapply follows_trans].
Qed.

Lemma superuser_found id l i rule : list_find (λ rule, superuser_of g_path_get_basename id rule = true) l = Some (i, rule) →
  rule ∈ (l : list (RouterRule T)) ∧ is_Some (rule_superuser_id g_path_get_basename rule).
Proof.
  intros (Hi & Hs & _)%list_find_Some. split; [by eapply list_elem_of_lookup_2|]. unfold superuser_of in Hs.
  by destruct (rule_superuser_id g_path_get_basename rule).
Qed.

Lemma superuser_start_ok id invocation : calling (superuser_start router env g_path_get_basename id invocation).
Proof.
  apply calling_self. intros s I. destruct (bool_decide _); [by apply quiet_calling; auto|].
  destruct (list_find _ _) as [[i rule]|] eqn:E; [|by apply quiet_calling; auto]. apply superuser_found in E as [Hr Hid].
  apply ensures_seq_put. intros s1 E1. eapply ensures_mono; [apply start_superuser_ok; [|by rewrite E1|done]|].
  - rewrite E1. destruct I. by constructor.
  - intros [] s2 [I2 F2]. split; [done|]. eapply follows_trans; [|exact F2]. rewrite E1. by apply follows_by.
Qed.

Lemma superuser_stop_ok invocation : calling (superuser_stop router env invocation).
Proof.
  apply calling_self. intros s I. destruct (bool_decide _); [by apply quiet_calling; auto|].
  eapply (calling_seq _ _); [apply calling_put; same_router| |done]. intros _. destruct (superuser_transport (router s)); auto.
Qed.

Lemma answer_prompt_ok value : calling (answer_prompt router env value).
Proof.
  apply calling_self. intros s I. destruct (superuser_answer _); [|by apply calling_ret].
  eapply (calling_seq _ _); [by auto| |done]. intros _. apply calling_put. same_router.
Qed.

Lemma superuser_method_answer_ok value invocation : calling (superuser_method_answer router env value invocation).
Proof.
  apply calling_self. intros s I. destruct (bool_decide _); [by apply quiet_calling; auto|].
  eapply (calling_seq _ _); [apply answer_prompt_ok|by auto|done].
Qed.

Lemma superuser_init_done_ok error : calling (superuser_init_done router env dtostr error).
Proof.
  apply calling_seq; [|intros _; apply calling_seq; [apply calling_put; same_router|intros _]].
  - apply calling_when, calling_put. intros p []. split; [by constructor|]. unfold follows. by split_and!; auto.
  - apply calling_self. intros s I. by apply calling_when; auto.
Qed.

Lemma superuser_init_start_ok id : calling (superuser_init_start router env dtostr g_path_get_basename id).
Proof.
  apply calling_seq; [apply calling_put; same_router|]. intros _. apply calling_self. intros s I.
  destruct (privileged (router s)); [by apply superuser_init_done_ok|].
  destruct (list_find _ _) as [[i rule]|] eqn:E; [|by apply superuser_init_done_ok]. apply superuser_found in E as [Hr Hid].
  by apply start_superuser_ok.
Qed.

Lemma superuser_init_ok options : calling (superuser_init router env dtostr g_path_get_basename options).
Proof.
  unfold superuser_init. destruct (cockpit_json_get_string _ _ _) as [[id|]|];
    [apply superuser_init_start_ok|apply superuser_init_done_ok|apply superuser_init_done_ok].
Qed.

(** *** Messages *)

Lemma process_init_ok options : calling (process_init router env dtostr json_node_get_int_of_double g_path_get_basename options).
Proof.
  apply calling_self. intros s I. unfold init_message. destruct (init_host (router s)) as [|] eqn:Eh;
    [rewrite bool_decide_eq_true_2 by eauto; by apply wb_close|rewrite bool_decide_eq_false_2 by (by intros [])].
  destruct (match cockpit_json_get_int _ _ _ _ with Some _ => _ | None => _ end) as [host|problem]; [|by apply wb_close].
  apply ensures_seq_put. intros s1 E1.
  assert (I1 : router_inv (router s1) ∧ follows (router s) (router s1)).
  { rewrite E1. destruct I. split; [by constructor|]. unfold follows. split_and!; auto. rewrite Eh. by intros []. }
  destruct I1 as [I1 F1].
  assert (H : calling (match json_object_get_member options (bs "superuser") with
      | Some (JObject superuser) => superuser_init router env dtostr g_path_get_basename superuser
      | Some _ => mret tt
      | None => superuser_legacy_init router env dtostr g_path_get_basename
      end)).
  { destruct (json_object_get_member options (bs "superuser")) as [[]|]; auto using superuser_init_ok.
    apply calling_seq; [apply calling_put; same_router|]. intros _. apply superuser_init_start_ok. }
  eapply ensures_mono; [by apply H|]. intros [] s2 [I2 F2]. split; [done|by eapply follows_trans].
Qed.

Definition control_ok (command : list Z) (channel : option (list Z)) (options : object) : Prop :=
  (command = bs "authorize" → cockpit_json_get_string options (bs "cookie") None ≠ Some None) ∧
  (command = bs "open" → channel ≠ None → group_ok options).

Lemma on_transport_control_ok command channel options message : control_ok command channel options →
  calling (on_transport_control router env g_pattern_match dtostr user_name json_node_get_int_of_double g_path_get_basename
    command channel options message).
Proof.
  intros [Ha Ho]. apply calling_self. intros s I. set (rest := if bool_decide (command = bs "init") then _ else _).
  assert (Hrest : ensures rest (λ _ s', router_inv (router s') ∧ follows (router s) (router s')) s).
  { subst rest. destruct (bool_decide (command = bs "init")).
    { eapply (calling_seq _ _); [apply process_init_ok|auto|done]. }
    destruct (decide (init_host (router s) = None)) as [E|E]; [rewrite bool_decide_eq_true_2 by done|rewrite bool_decide_eq_false_2 by done].
    { eapply (calling_seq _ _); [by apply wb_close|auto|done]. }
    destruct (bool_decide (command = bs "open")) eqn:Eo.
    { apply ensures_bind. eapply ensures_mono; [apply process_open_ok; try done; apply Ho; by apply bool_decide_eq_true in Eo|].
      by intros [] s1 H1. }
    eapply (calling_seq _ _); [|auto|exact I]. destruct (bool_decide (command = bs "kill")) eqn:Ek; [apply process_kill_ok|].
    by apply calling_when, wb_close. }
  destruct (bool_decide (command = bs "authorize")) eqn:Ea; [|done]. apply bool_decide_eq_true in Ea.
  rewrite bool_decide_eq_false_2 by auto. destruct (super1_response options); [|done].
  destruct (superuser_answer (router s)); [|done]. eapply (calling_seq _ _); [apply answer_prompt_ok|auto|done].
Qed.

Definition user_ok (user : option (list Z)) : Prop := ∃ u hex, user = Some u ∧ cockpit_hex_encode (u ++ [0]) (-1) = Ok hex.

Lemma cockpit_router_prompt_ok user prompt previous_error peer : user_ok user →
  calling (cockpit_router_prompt router env dtostr user prompt previous_error peer).
Proof.
  intros (u & hex & -> & Eu). apply calling_self. intros s I. destruct (bool_decide (is_Some (superuser_answer _))); [by apply quiet_calling; auto|].
  destruct (bool_decide _).
  { eapply (calling_seq _ _); [apply calling_put; same_router|auto|done]. }
  destruct (superuser_init_in_progress (router s)); [|by apply quiet_calling; auto].
  eapply (calling_seq _ _); [apply calling_put; same_router| |done]. intros _. rewrite Eu. auto.
Qed.

Lemma cockpit_router_prompt_cancel_ok peer : calling (cockpit_router_prompt_cancel router peer).
Proof. apply calling_self. intros s I. apply calling_when; [|done]. apply calling_put. same_router. Qed.

(** *** The configuration *)

Implicit Types (rule : RouterRule T) (p : CockpitRouter T).

Definition is_bridge (rule : RouterRule T) : Prop := is_Some (config rule).

#[local] Instance is_bridge_dec rule : Decision (is_bridge rule).
Proof. unfold is_bridge. apply _. Defined.

Lemma filter_memory_absent memory (l : list (RouterRule T)) : memory ∉ rule_memory <$> l → filter (λ rule, rule_memory rule ≠ memory) l = l.
Proof.
  induction l as [|rule l IH]; [done|]. cbn [fmap list_fmap]. intros [H1 H2]%not_elem_of_cons. rewrite filter_cons_True by congruence.
  by rewrite IH.
Qed.

Lemma filter_memory_all rule p : NoDup (rule_memory <$> all_rules p) → rule ∈ old_rules p →
  filter (λ old, rule_memory old ≠ rule_memory rule) (all_rules p) =
  rules p ++ filter (λ old, rule_memory old ≠ rule_memory rule) (old_rules p).
Proof.
  intros Hn Hr. unfold all_rules in *. rewrite filter_app. f_equal. apply filter_memory_absent. intros Hin.
  rewrite fmap_app in Hn. apply NoDup_app in Hn as (_ & Hn & _). apply (Hn _ Hin). by apply list_elem_of_fmap_2.
Qed.

Lemma Forall_of_filter {A} (P Q : A → Prop) `{!∀ x, Decision (P x)} (l : list A) : Forall Q l → Forall Q (filter P l).
Proof. rewrite !Forall_forall. intros Hl x [_ Hx]%list_elem_of_filter. by apply Hl. Qed.

(** Taking a rule of a bridge out *)
Lemma inv_without rule p : router_inv p → rule ∈ old_rules p → is_bridge rule →
  let l := filter (λ old, rule_memory old ≠ rule_memory rule) (all_rules p) in
  guarded l ∧ Forall (rule_ok g_path_get_basename) l ∧ NoDup (rule_memory <$> l) ∧
  Forall (λ rule, (rule_memory rule < next_memory p)%nat) l ∧ rule_memory rule ∉ rule_memory <$> l ∧
  (∀ memory, superuser_rule p = Some memory → memory ≠ rule_memory rule →
    ∃ rule, rule ∈ l ∧ rule_memory rule = memory ∧ is_Some (rule_superuser_id g_path_get_basename rule)).
Proof.
  intros [] Hr Hb l. destruct ri_memory0 as [Hn Hm]. split_and!.
  - apply guarded_filter; [|done]. intros r Hin He [_ Hban]. apply dec_stable in He.
    assert (Hin' : rule ∈ all_rules p) by (apply elem_of_app; by right).
    assert (r = rule) as ->.
    { apply list_elem_of_lookup in Hin as [i Hi], Hin' as [j Hj]. assert (i = j) as -> by
        (eapply (NoDup_lookup _ i j (rule_memory rule) Hn); rewrite list_lookup_fmap, ?Hi, ?Hj; cbn; congruence). congruence. }
    rewrite Forall_forall in ri_rules0. by destruct (ri_rules0 rule Hin') as [[]].
  - by apply Forall_of_filter.
  - clear -Hn. subst l. induction (all_rules p) as [|x k IH]; [constructor|]. cbn [fmap list_fmap] in Hn. apply NoDup_cons in Hn as [Hx Hn].
    destruct (decide (rule_memory x ≠ rule_memory rule)); [rewrite filter_cons_True by done|rewrite filter_cons_False by done; auto].
    cbn [fmap list_fmap]. apply NoDup_cons. split; [|auto]. intros Hin. apply Hx. apply list_elem_of_fmap in Hin as (y & -> & Hy).
    apply list_elem_of_fmap_2. by apply list_elem_of_filter in Hy as [_ ?].
  - by apply Forall_of_filter.
  - intros (y & E & Hy)%list_elem_of_fmap. apply list_elem_of_filter in Hy as [Hy _]. congruence.
  - intros memory Hs Hne. destruct (ri_superuser0 memory Hs) as (r & Hin & <- & Hid). exists r. split; [|done].
    by apply list_elem_of_filter.
Qed.

Lemma router_inv_free rule p : router_inv p → rule ∈ old_rules p → is_bridge rule → superuser_rule p ≠ Some (rule_memory rule) →
  router_inv (p <| old_rules ::= filter (λ old, rule_memory old ≠ rule_memory rule) |>).
Proof.
  intros I Hr Hb Hs. destruct (inv_without rule p I Hr Hb) as (H1 & H2 & H3 & H4 & _ & H6).
  rewrite filter_memory_all in H1, H2, H3, H4, H6 by (done || apply I). destruct I. constructor; try done.
  intros memory Hm. apply H6; [done|]. intros ->. done.
Qed.

Lemma inv_front rule p l : router_inv p → guarded l → Forall (rule_ok g_path_get_basename) l → NoDup (rule_memory <$> l) →
  Forall (λ rule, (rule_memory rule < next_memory p)%nat) l → rule_memory rule ∉ rule_memory <$> l →
  rule_ok g_path_get_basename rule → ¬ opens_channel rule → ∀ n, (next_memory p ≤ n)%nat → (rule_memory rule < n)%nat →
  (∀ memory, superuser_rule p = Some memory →
    ∃ r, r ∈ rule :: l ∧ rule_memory r = memory ∧ is_Some (rule_superuser_id g_path_get_basename r)) →
  ∀ p', all_rules p' = rule :: l → next_memory p' = n → channels p' = channels p → groups p' = groups p → fences p' = fences p →
  fenced p' = fenced p → superuser_rule p' = superuser_rule p → router_inv p'.
Proof.
  intros [] H1 H2 H3 H4 H5 H6 H7 n Hn Hr Hs p' E1 E2 E3 E4 E5 E6 E7. constructor; rewrite ?E1, ?E2, ?E3, ?E4, ?E5, ?E6, ?E7; try done.
  - by right.
  - by constructor.
  - split; [by constructor|]. constructor; [done|]. eapply Forall_impl; [exact H4|]. cbn. lia.
Qed.

(** The rule has the configuration [b]. *)
Definition configured_as (b : object) (rule : RouterRule T) : Prop :=
  ∃ c, config rule = Some c ∧ json_object_equal c b = true.

(** A rule made for a configuration, when the next to be made was [n] *)
Definition made_for (n : nat) (b : object) (rule : RouterRule T) : Prop :=
  config rule = Some b ∧ matches rule = router_rule_compile (default None (cockpit_json_get_object b (bs "match") None)) ∧
  dynamic_peers rule = [] ∧ (n ≤ rule_memory rule)%nat ∧
  if has_variables dtostr b then rule_callback rule = OpenDynamicPeer b else ∃ peer, rule_callback rule = OpenPeer peer.

(** A bridge of the superuser has no variables. *)
Definition usable (b : object) : bool := negb (has_variables dtostr b && default false (cockpit_json_get_bool b (bs "privileged") false)).

(** The rules for configurations, in their order: a rule that was there for the same configuration and that no later
    configuration has taken, and if there is none, a new one. *)
Inductive configured (old : list (RouterRule T)) (n : nat) : list object → list (RouterRule T) → Prop :=
| configured_none : configured old n [] []
| configured_kept b bridges rule l : rule ∈ old → configured_as b rule → rule ∉ l →
    configured old n bridges l → configured old n (b :: bridges) (rule :: l)
| configured_made b bridges rule l : (∀ r, r ∈ old → configured_as b r → r ∈ l) → usable b = true → made_for n b rule →
    configured old n bridges l → configured old n (b :: bridges) (rule :: l)
| configured_unusable b bridges l : (∀ r, r ∈ old → configured_as b r → r ∈ l) → usable b = false →
    configured old n bridges l → configured old n (b :: bridges) l.

Record configuring (old : list (RouterRule T)) (n : nat) (others : list (RouterRule T)) (bridges : list object) p : Prop := {
  co_inv : router_inv p;
  co_old rule : rule ∈ old_rules p → rule ∈ old;
  co_left rule : rule ∈ old → is_bridge rule → rule ∈ old_rules p ∨ rule ∈ rules p;
  co_next : (n ≤ next_memory p)%nat;
  co_others : filter (λ rule, ¬ is_bridge rule) (old_rules p) = others;
  co_new : configured old n bridges (rules p)
}.

Lemma new_rule_inv rule p : router_inv p → is_bridge rule → rule_memory rule = next_memory p → rule_ok g_path_get_basename rule →
  router_inv (p <| rules ::= cons rule |> <| next_memory ::= Datatypes.S |>).
Proof.
  intros I Hb Em Hr. pose proof I as [_ _ _ _ Hg Hrs [Hn Hm] Hsup].
  eapply (inv_front rule p (all_rules p) I Hg Hrs Hn Hm); [| | |apply Nat.le_succ_diag_r| | |reflexivity|reflexivity|reflexivity..]; try done.
  - intros (y & E & Hy)%list_elem_of_fmap. rewrite Forall_forall in Hm. specialize (Hm y Hy). cbn in Hm. lia.
  - by destruct Hr as [[? _] _].
  - lia.
  - intros memory Hs. destruct (Hsup memory Hs) as (r & Hin & ?). exists r. split; [by right|done].
Qed.

Lemma add_bridge_ok old n others bridges b s : configuring old n others bridges (router s) →
  (∀ r, r ∈ old_rules (router s) → ¬ configured_as b r) →
  ensures (cockpit_router_add_bridge router env dtostr b) (λ _ s', configuring old n others (b :: bridges) (router s')) s.
Proof.
  intros [I Ho Hl Hle Hoth Hnew] Hnone. unfold cockpit_router_add_bridge.
  assert (Htaken : ∀ r, r ∈ old → configured_as b r → r ∈ rules (router s)).
  { intros r Hr Hc. destruct (Hl r Hr) as [H|H]; [by destruct Hc as (c & ? & _); exists c|by destruct (Hnone r H)|done]. }
  set (m := router_rule_compile _).
  assert (Hadd : ∀ cb s1, router s1 = router s → usable b = true → (if has_variables dtostr b then cb = OpenDynamicPeer b else ∃ peer, cb = OpenPeer peer) →
    (∀ d, cb = OpenDynamicPeer d → default false (cockpit_json_get_bool b (bs "privileged") false) = false) →
    ensures (new_rule router (Some b) m cb) (λ _ s', configuring old n others (b :: bridges) (router s')) s1).
  { intros cb s1 E1 Hu Hcb Hpr. apply (ensures_update router). intros s2 ->. rewrite E1.
    assert (Hcb' : cb = OpenDynamicPeer b ∨ ∃ peer, cb = OpenPeer peer) by (destruct (has_variables dtostr b); auto).
    constructor; [|done| | |done|].
    - apply new_rule_inv; [done|by exists b|done|]. split.
      + intros _. destruct Hcb' as [->|[peer ->]]; by split; [intros []|].
      + destruct Hcb' as [->|[peer ->]]; [|done]. intros [id Hid]. unfold rule_superuser_id in Hid. cbn [config mbind option_bind] in Hid.
        by rewrite (Hpr b eq_refl) in Hid.
    - intros r Hr Hb. destruct (Hl r Hr Hb); [by left|right; by right].
    - cbn. lia.
    - apply configured_made; [exact Htaken|done|by split_and!|done]. }
  destruct (has_variables dtostr b) eqn:Ev; cbn [negb].
  - destruct (default false (cockpit_json_get_bool b (bs "privileged") false)) eqn:Ep.
    + constructor; try done. apply configured_unusable; [done| |done]. unfold usable. by rewrite Ev, Ep.
    + apply Hadd; [done| |done|done]. unfold usable. by rewrite Ev, Ep.
  - apply ensures_bind. eapply ensures_mono; [by apply wb_new_peer|]. intros peer s1 E1. apply Hadd; [done| |eauto|done]. unfold usable. by rewrite Ev.
Qed.

Lemma filter_others memory (l : list (RouterRule T)) : (∀ rule, rule ∈ l → rule_memory rule = memory → is_bridge rule) →
  filter (λ rule, ¬ is_bridge rule) (filter (λ old, rule_memory old ≠ memory) l) = filter (λ rule, ¬ is_bridge rule) l.
Proof.
  induction l as [|rule l IH]; intros Hl; [done|]. assert (Hl' : ∀ r, r ∈ l → rule_memory r = memory → is_bridge r) by (intros r ?; apply Hl; by right).
  destruct (decide (rule_memory rule ≠ memory)) as [Hn|Hn]; [rewrite (filter_cons_True _ rule l Hn)|rewrite (filter_cons_False _ rule l Hn)].
  - destruct (decide (¬ is_bridge rule)); [rewrite !filter_cons_True by done|rewrite !filter_cons_False by done]; [f_equal|]; auto.
  - rewrite filter_cons_False; [auto|]. apply dec_stable in Hn. intros Hb. apply Hb, Hl; [by left|done].
Qed.

Lemma same_memory rule rule' p : router_inv p → rule ∈ all_rules p → rule' ∈ all_rules p → rule_memory rule' = rule_memory rule → rule' = rule.
Proof.
  intros [_ _ _ _ _ _ [Hn _] _] Hin Hin' E. apply list_elem_of_lookup in Hin as [i Hi], Hin' as [j Hj]. assert (i = j) as ->.
  { eapply (NoDup_lookup _ i j (rule_memory rule) Hn); rewrite list_lookup_fmap, ?Hi, ?Hj; cbn; congruence. }
  congruence.
Qed.

Lemma set_bridge_ok old n others bridges b s : configuring old n others bridges (router s) →
  ensures (set_bridge router env dtostr b) (λ _ s', configuring old n others (b :: bridges) (router s')) s.
Proof.
  intros C. apply ensures_bind, ensures_get. unfold router_rule_find.
  destruct (list_find _ (old_rules (router s))) as [[i rule]|] eqn:Ef; cbn [fmap option_fmap option_map snd].
  2: { apply add_bridge_ok; [done|]. intros r Hr (c & Ec & Eb). apply list_find_None in Ef. rewrite Forall_forall in Ef. apply (Ef r Hr). by rewrite Ec. }
  destruct C as [I Ho Hl Hle Hoth Hnew]. apply list_find_Some in Ef as (Hi & Ec & _). destruct (config rule) as [c|] eqn:Econf; [|done].
  assert (Hr : rule ∈ old_rules (router s)) by (by eapply list_elem_of_lookup_2). assert (Hb : is_bridge rule) by (by exists c).
  assert (Hin : rule ∈ all_rules (router s)) by (apply elem_of_app; by right).
  destruct (inv_without rule _ I Hr Hb) as (H1 & H2 & H3 & H4 & H5 & H6). pose proof (ri_memory _ _ I) as [Hn Hm].
  pose proof (ri_rules _ _ I) as Hrs. rewrite Forall_forall in Hrs. rewrite Forall_forall in Hm.
  apply ensures_seq_put. intros s1 E1. apply (ensures_update router). intros s2 E2. rewrite E1 in E2. rewrite E2. constructor.
  - apply (inv_front rule (router s) _ I H1 H2 H3 H4 H5) with (n := next_memory (router s)); try done.
    + by apply Hrs.
    + by destruct (Hrs rule Hin) as [[? _] _].
    + by apply Hm.
    + intros memory Hs. destruct (decide (memory = rule_memory rule)) as [->|Hne].
      * destruct (ri_superuser _ _ I _ Hs) as (r & Hr1 & E & ?). exists r. split; [|done]. rewrite (same_memory rule r _ I Hin Hr1 E). by left.
      * destruct (H6 memory Hs Hne) as (r & ? & ?). exists r. split; [by right|done].
    + symmetry. by rewrite (filter_memory_all rule (router s) Hn Hr).
  - intros r Hin'. apply Ho. by apply list_elem_of_filter in Hin' as [_ ?].
  - intros r Hr' Hb'. destruct (decide (rule_memory r = rule_memory rule)) as [Em|Em]; [right|].
    + destruct (Hl r Hr' Hb') as [H|H]; [|by right]. rewrite (same_memory rule r _ I Hin ltac:(apply elem_of_app; by right) Em). by left.
    + destruct (Hl r Hr' Hb'); [left; by apply list_elem_of_filter|right; by right].
  - done.
  - rewrite <- Hoth. apply filter_others. intros r Hr' E. by rewrite (same_memory rule r _ I Hin ltac:(apply elem_of_app; by right) E).
  - apply configured_kept; [by apply Ho|by exists c| |done]. intros H. unfold all_rules in Hn. rewrite fmap_app in Hn.
    apply NoDup_app in Hn as (_ & Hn & _). by apply (Hn (rule_memory rule)); apply list_elem_of_fmap_2.
Qed.

Lemma set_bridge_each_ok old n others bridges done_ s : configuring old n others done_ (router s) →
  ensures (each bridges (set_bridge router env dtostr)) (λ _ s', configuring old n others (rev bridges ++ done_) (router s')) s.
Proof.
  revert done_ s. induction bridges as [|b bridges IH]; intros done_ s C; [done|]. apply ensures_bind.
  eapply ensures_mono; [by apply set_bridge_ok|]. intros [] s1 C1. eapply ensures_mono; [by apply IH|]. intros [] s2 C2.
  cbn [rev]. by rewrite <- app_assoc.
Qed.

Lemma router_rule_destroy_ok rule : calling (router_rule_destroy env rule).
Proof. unfold router_rule_destroy. destruct (rule_callback rule); auto using calling_each. Qed.

Lemma shape_cons_inv l' rule l : shape l' = shape (rule :: l) → ∃ rule' k, l' = rule' :: k ∧ rule' <| dynamic_peers := [] |> = rule <| dynamic_peers := [] |> ∧ shape k = shape l.
Proof. destruct l' as [|rule' k]; [done|]. intros [= E1 E2]. exists rule', k. split; [done|]. split; [|done]. destruct rule, rule'. cbn in *. by simplify_eq. Qed.

Lemma free_head memory rule' (k : list (RouterRule T)) : rule_memory rule' = memory → NoDup (rule_memory <$> rule' :: k) →
  filter (λ old, rule_memory old ≠ memory) (rule' :: k) = k.
Proof.
  intros <- Hn. cbn [fmap list_fmap] in Hn. apply NoDup_cons in Hn as [Hn _]. rewrite filter_cons_False by tauto. by apply filter_memory_absent.
Qed.

(** The first of the rules that are left *)
Lemma first_left rule l p : router_inv p → shape (old_rules p) = shape (rule :: l) →
  ∃ rule' k, old_rules p = rule' :: k ∧ rule' <| dynamic_peers := [] |> = rule <| dynamic_peers := [] |> ∧ shape k = shape l ∧
    rule_memory rule' = rule_memory rule ∧ config rule' = config rule ∧ rule_memory rule ∉ rule_memory <$> rules p ∧
    filter (λ old, rule_memory old ≠ rule_memory rule) (old_rules p) = k.
Proof.
  intros I E. destruct (shape_cons_inv _ _ _ E) as (rule' & k & Ek & Er & Esk). exists rule', k. split; [done|].
  assert (Em : rule_memory rule' = rule_memory rule ∧ config rule' = config rule) by (destruct rule, rule'; cbn in *; by simplify_eq).
  destruct Em as [Em Ec]. destruct (ri_memory _ _ I) as [Hn _]. unfold all_rules in Hn. rewrite Ek, fmap_app in Hn.
  apply NoDup_app in Hn as (_ & Hd & Hn). split_and!; try done; [|rewrite Ek; by apply free_head].
  intros Hin. apply (Hd _ Hin). cbn. rewrite Em. by left.
Qed.

(** The superuser loses a bridge that goes. *)
Lemma superuser_gone_ok rule s : router_inv (router s) →
  ensures (when (bool_decide (superuser_rule (router s) = Some (rule_memory rule))) (superuser_transport_closed router env)) (λ _ s1,
    router_inv (router s1) ∧ follows (router s) (router s1) ∧ superuser_rule (router s1) ≠ Some (rule_memory rule)) s.
Proof.
  intros I. apply ensures_when; intros Es.
  - apply ensures_bind, ensures_get. apply ensures_bind.
    eapply (ensures_mono _ (λ _ s1, router s1 = router s)); [destruct (superuser_stop_invocation (router s)); [by apply wb_return|done]|].
    intros [] s1 E1. apply (ensures_update router). intros s2 ->. rewrite E1. split; [destruct I; by constructor|]. split; [|done].
    unfold follows. split_and!; auto. intros m. cbn. done.
  - split; [done|]. split; [apply follows_refl|]. by apply bool_decide_eq_false in Es.
Qed.

(** What is left of the rules after one of them: a rule of a bridge goes, another one is put at the end. *)
Definition one_left (rule : RouterRule T) (l : list (RouterRule T)) (s s' : S) : Prop :=
  router_inv (router s') ∧ shape (old_rules (router s')) = shape l ∧
  shape (rules (router s')) = shape (rules (router s)) ++ shape (filter (λ rule, ¬ is_bridge rule) [rule]).

Lemma old_bridge_ok rule l s : router_inv (router s) → shape (old_rules (router s)) = shape (rule :: l) → is_bridge rule →
  ensures (old_rule router env rule) (λ _ s', one_left rule l s s') s.
Proof.
  intros I E Hb. unfold old_rule. destruct (config rule) as [c|] eqn:Econf; [|by destruct Hb; congruence].
  apply ensures_bind, ensures_get, ensures_bind. eapply ensures_mono; [by apply superuser_gone_ok|].
  intros [] s1 (I1 & F1 & Hs1). apply ensures_bind. eapply ensures_mono; [by apply router_rule_destroy_ok|].
  intros [] s2 [I2 F2]. pose proof (follows_trans _ _ _ F1 F2) as (Fr & Fo & _). rewrite E in Fo.
  destruct (first_left rule l _ I2 Fo) as (r & k & Ek & _ & Esk & Em & Ec & Hm & Hk).
  apply (ensures_update router). intros s3 E3. unfold one_left. rewrite E3, filter_cons_False by (intros H; by apply H).
  rewrite app_nil_r. split; [|split; [|exact Fr]].
  - rewrite <- Em. apply router_inv_free; [done|rewrite Ek; by left|unfold is_bridge; by rewrite Ec, Econf|]. rewrite Em. intros Hs2.
    destruct F2 as (F2r & _ & _ & _ & _ & F2). destruct (F2 _ Hs2) as [?|Hin]; [done|]. by rewrite <- (shape_memory _ _ F2r) in Hin.
  - change (shape (filter (λ old, rule_memory old ≠ rule_memory rule) (old_rules (router s2))) = shape l). by rewrite Hk.
Qed.

Lemma old_other_ok rule l s : router_inv (router s) → shape (old_rules (router s)) = shape (rule :: l) → ¬ is_bridge rule →
  ensures (old_rule router env rule) (λ _ s', one_left rule l s s') s.
Proof.
  intros I E Hb. unfold old_rule. destruct (config rule) as [c|] eqn:Econf; [by destruct Hb; exists c|].
  destruct (first_left rule l _ I E) as (r & k & Ek & Er & Esk & Em & Ec & Hm & Hk).
  apply (ensures_update router). intros s1 E1. unfold one_left. rewrite E1, filter_cons_True by done. split; [|split].
  - eapply inv_reshape; [exact I|..]; try done.
    change (shape ((rules (router s) ++ [rule]) ++ filter (λ old, rule_memory old ≠ rule_memory rule) (old_rules (router s))) =
      shape (rules (router s) ++ old_rules (router s))).
    rewrite Hk, Ek, !shape_app, <- app_assoc. f_equal. change (rule <| dynamic_peers := [] |> :: shape k = r <| dynamic_peers := [] |> :: shape k). by rewrite Er.
  - change (shape (filter (λ old, rule_memory old ≠ rule_memory rule) (old_rules (router s))) = shape l). by rewrite Hk.
  - apply shape_app.
Qed.

Lemma old_rules_ok l s : router_inv (router s) → shape (old_rules (router s)) = shape l →
  ensures (each l (old_rule router env)) (λ _ s', router_inv (router s') ∧ old_rules (router s') = [] ∧
    shape (rules (router s')) = shape (rules (router s)) ++ shape (filter (λ rule, ¬ is_bridge rule) l)) s.
Proof.
  revert s. induction l as [|rule l IH]; intros s I E.
  - split; [done|]. split; [by destruct (old_rules (router s))|]. by rewrite app_nil_r.
  - apply ensures_bind. eapply (ensures_mono _ (λ _ s', one_left rule l s s')); [destruct (decide (is_bridge rule)); [by apply old_bridge_ok|by apply old_other_ok]|].
    intros [] s1 (I1 & E1 & Er1).
    eapply ensures_mono; [by apply IH|]. intros [] s2 (I2 & E2 & Er2). split; [done|]. split; [done|].
    rewrite Er2, Er1, <- app_assoc, <- shape_app. by rewrite <- filter_app.
Qed.

Lemma cockpit_router_set_bridges_ok bridges s : router_inv (router s) → old_rules (router s) = [] →
  ensures (cockpit_router_set_bridges router env dtostr bridges) (λ _ s', router_inv (router s') ∧ old_rules (router s') = [] ∧
    ∃ new, configured (rules (router s)) (next_memory (router s)) bridges new ∧ NoDup (rule_memory <$> new) ∧
      shape (rules (router s')) = shape (new ++ filter (λ rule, ¬ is_bridge rule) (rules (router s)))) s.
Proof.
  intros I E. apply ensures_seq_put. intros s1 E1.
  assert (C1 : configuring (rules (router s)) (next_memory (router s)) (filter (λ rule, ¬ is_bridge rule) (rules (router s))) [] (router s1)).
  { rewrite E1. constructor; [|done|by left|done|done|constructor]. eapply inv_reshape; [exact I|..]; try done. unfold all_rules. cbn. by rewrite E, app_nil_r. }
  apply ensures_bind. eapply ensures_mono; [by apply set_bridge_each_ok|]. intros [] s2 [I2 _ _ _ Ho2 Hn2].
  rewrite rev_involutive, app_nil_r in Hn2. apply ensures_bind, ensures_get. eapply ensures_mono; [by apply old_rules_ok|].
  intros [] s3 (I3 & E3 & Er3). split; [done|]. split; [done|]. exists (rules (router s2)). split; [done|]. split; [|by rewrite Er3, Ho2, shape_app].
  destruct (ri_memory _ _ I2) as [Hn _]. unfold all_rules in Hn. rewrite fmap_app in Hn. by apply NoDup_app in Hn as [? _].
Qed.

(** *** A new router *)

Definition new_router (privileged : bool) : CockpitRouter T :=
  mkRouter privileged None [] [] 0 ∅ ∅ ∅ [] None None None None false false None.

(** The last rule takes every channel. *)
Definition complete (l : list (RouterRule T)) : Prop := ∃ k d, l = k ++ [d] ∧ is_default d ∧ config d = None.

(** The router while the rules of the bridge itself are put in *)
Record unguarded (p0 p : CockpitRouter T) : Prop := {
  un_same : p = p0 <| rules := rules p |> <| next_memory := next_memory p |>;
  un_complete : complete (rules p);
  un_plain : Forall (λ rule, config rule = None) (rules p);
  un_memory : NoDup (rule_memory <$> rules p) ∧ Forall (λ rule, (rule_memory rule < next_memory p)%nat) (rules p)
}.

Lemma new_rule_unguarded p0 p m cb : unguarded p0 p →
  unguarded p0 (p <| rules ::= cons (mkRule (next_memory p) None m cb []) |> <| next_memory ::= Datatypes.S |>).
Proof.
  intros [E (k & d & El & Hd) Hp [Hn Hm]]. constructor.
  - clear -E. destruct p0, p. cbn in *. injection E. intros. by subst.
  - exists (mkRule (next_memory p) None m cb [] :: k), d. cbn. by rewrite El.
  - by constructor.
  - cbn. split.
    + apply NoDup_cons. split; [|done]. intros (r & Er & Hr)%list_elem_of_fmap. rewrite Forall_forall in Hm. specialize (Hm r Hr). lia.
    + constructor; [cbn; lia|]. eapply Forall_impl; [exact Hm|]. cbn. lia.
Qed.

Lemma add_channels_ok p0 (payloads : list (list Z * T)) s : unguarded p0 (router s) →
  ensures (each payloads (λ payload, cockpit_router_add_channel router [(bs "payload", JString payload.1)] payload.2))
    (λ _ s', unguarded p0 (router s')) s.
Proof.
  revert s. induction payloads as [|payload payloads IH]; intros s U; [done|]. apply ensures_seq_put. intros s1 E1. apply IH.
  rewrite E1. by apply new_rule_unguarded.
Qed.

Lemma complete_shape l l' : shape l' = shape l → complete l → complete l'.
Proof.
  intros E (k & d & -> & (Hd1 & Hd2) & Hc). rewrite shape_app in E.
  assert (Hx : ∃ k' d', l' = k' ++ [d'] ∧ d' <| dynamic_peers := [] |> = d <| dynamic_peers := [] |>).
  { destruct l' as [|d' l' _] using rev_ind; [by destruct k|]. exists l', d'. split; [done|]. rewrite shape_app in E.
    apply app_inj_tail in E as [_ E]. exact E. }
  destruct Hx as (k' & d' & -> & Ed). exists k', d'. unfold is_default. destruct d, d'. cbn in *. by simplify_eq.
Qed.

Lemma complete_configured new l : complete l → complete (new ++ filter (λ rule, ¬ is_bridge rule) l).
Proof.
  intros (k & d & -> & Hd & Hc). exists (new ++ filter (λ rule, ¬ is_bridge rule) k), d. split; [|done].
  rewrite filter_app, <- app_assoc. do 2 f_equal. rewrite filter_cons_True by (intros [c H]; congruence). done.
Qed.

Lemma cockpit_router_setup_ok b payloads bridges s : router s = new_router b →
  ensures (cockpit_router_setup router env dtostr payloads bridges) (λ _ s',
    router_inv (router s') ∧ old_rules (router s') = [] ∧ complete (rules (router s'))) s.
Proof.
  intros E. apply ensures_seq_put. intros s1 E1.
  assert (U1 : unguarded (new_router b) (router s1)).
  { rewrite E1, E. constructor; [done| |by constructor|split; [apply NoDup_singleton|constructor; [cbn; lia|constructor]]].
    by exists [], (mkRule 0 None (Some []) OpenNotSupported []). }
  apply ensures_bind. eapply ensures_mono; [by apply (add_channels_ok (new_router b))|]. intros [] s2 U2. apply ensures_seq_put. intros s3 E3.
  assert (U3 : unguarded (new_router b) (router s3)) by (rewrite E3; by apply new_rule_unguarded).
  assert (Eo : old_rules (router s3) = []) by (by rewrite (un_same _ _ U3)).
  assert (I3 : router_inv (router s3)).
  { destruct U3 as [Es _ Hp [Hn Hm]]. constructor; unfold all_rules; rewrite ?Eo, ?app_nil_r; try done.
    - rewrite Es. cbn. set_solver.
    - rewrite Es. cbn. set_solver.
    - rewrite Es. cbn. rewrite dom_empty_L. set_solver.
    - by rewrite Es.
    - rewrite E3. left. by split.
    - eapply Forall_impl; [exact Hp|]. intros rule Hc. unfold rule_ok, rule_superuser_id. rewrite Hc. by split; intros [].
    - rewrite Es. cbn. done. }
  eapply ensures_mono; [by apply cockpit_router_set_bridges_ok|]. intros [] s4 (I4 & E4 & new & _ & _ & Er).
  split; [done|]. split; [done|]. eapply complete_shape; [exact Er|]. apply complete_configured, U3.
Qed.

(** *** Every run *)

(** An event that is none of the three that can make the bridge fail *)
Definition event_ok (e : router_event) : Prop :=
  match e with
  | Control command channel options _ => control_ok command channel options
  | Prompt user _ _ _ => user_ok user
  | _ => True
  end.

Definition settled (s : S) : Prop := router_inv (router s) ∧ old_rules (router s) = [] ∧ complete (rules (router s)).

Notation step := (router_step router env g_pattern_match dtostr user_name json_node_get_int_of_double g_path_get_basename).

Lemma calling_settled (m : io unit) s : calling m → settled s → ensures m (λ _ s', settled s') s.
Proof.
  intros Hm (I & E & Hc). eapply ensures_mono; [by apply Hm|]. intros [] s1 [I1 (Fr & Fo & _)]. split; [done|]. split.
  - rewrite E in Fo. by destruct (old_rules (router s1)).
  - by eapply complete_shape.
Qed.

Lemma router_step_ok e s : event_ok e → settled s → ensures (step e) (λ (_ : unit) s', settled s') s.
Proof.
  intros He Hs. destruct e; cbn [router_step]; cbn in He.
  1: apply calling_settled; [|done]; apply calling_seq; [by apply on_transport_control_ok|auto].
  - apply calling_settled; [apply on_channel_closed_ok|done].
  - apply calling_settled; [apply superuser_start_ok|done].
  - apply calling_settled; [apply superuser_stop_ok|done].
  - apply calling_settled; [apply superuser_method_answer_ok|done].
  - apply calling_settled; [|done]. apply calling_self. intros s0 I0. apply ensures_when; [|by split; auto using follows_refl].
    intros Hi. apply superuser_start_done_ok; [done|]. apply bool_decide_eq_true in Hi. by destruct Hi as [? ->].
  - apply calling_settled; [apply superuser_init_done_ok|done].
  - apply calling_settled; [apply on_superuser_transport_closed_ok|done].
  - apply calling_settled; [by apply cockpit_router_prompt_ok|done].
  - apply calling_settled; [apply cockpit_router_prompt_cancel_ok|done].
  - destruct Hs as (I & E & Hc). eapply ensures_mono; [by apply cockpit_router_set_bridges_ok|].
    intros [] s1 (I1 & E1 & new & _ & _ & Er). split; [done|]. split; [done|]. eapply complete_shape; [exact Er|]. by apply complete_configured.
Qed.

(** C28: the router is safe except for three events.  [event_ok] leaves out an "authorize" that has no cookie, an "open"
    of a channel with a group that is not a string, and a prompt of the superuser's bridge without a name of the user
    that can be encoded; the lemmas [authorize_without_cookie], [group_not_string] and [prompt_without_user] show that
    each of them can make the bridge fail.  In a run of any other messages of the web service, calls over D-Bus,
    closing channels, ending peers and new configurations, in any order, with a transport, channels and peers that
    keep the contract [well_behaved], no step fails: no assertion does, and no rule that has been freed is used.
    The bridge makes a channel of its own only with an identifier that is not in use, for its own host, while no
    other channel is a fence that is open, and not for who requires the superuser, unless it is privileged (else
    [new_channel] could fail).  At most one fence is open, it is a channel that is open, and nothing waits without
    one; the bridge of the superuser has a rule with one peer; a rule that takes every channel is the last. *)
Theorem router_safe privileged payloads bridges events s :
  router s = new_router privileged → Forall event_ok events →
  ensures (_ ← cockpit_router_setup router env dtostr payloads bridges; each events step) (λ _ s', settled s') s.
Proof.
  intros E Hok. apply ensures_bind. eapply ensures_mono; [exact (cockpit_router_setup_ok _ payloads bridges s E)|]. intros [] s1 H1.
  assert (Hs : settled s1) by exact H1. clear H1. revert s1 Hs.
  induction Hok as [|e events He _ IH]; intros s1 Hs; [done|]. apply ensures_bind. eapply ensures_mono; [by apply router_step_ok|].
  intros [] s2 H2. by apply IH.
Qed.

(** C30: the rules follow the configuration.  Whatever the rules were, after [cockpit_router_set_bridges] those of the
    configurations come first, in their order.  The configurations take the old rules from the last one to the first:
    one for which there is an old rule with the same configuration that is still free gets that very rule, with its
    peer, and no rule is given twice; only if no such rule is left is a new one made from the configuration, with the
    peer of a bridge, or with the configuration itself if it has variables, and none at all if it has variables and is
    privileged.  The other rules of configurations are gone, and the rules of the bridge itself come last, in the
    order that they had. *)
Theorem bridges_configured bridges s :
  router_inv (router s) → old_rules (router s) = [] →
  ensures (cockpit_router_set_bridges router env dtostr bridges) (λ _ s', ∃ new,
    configured (rules (router s)) (next_memory (router s)) bridges new ∧ NoDup (rule_memory <$> new) ∧
    shape (rules (router s')) = shape (new ++ filter (λ rule, ¬ is_bridge rule) (rules (router s)))) s.
Proof.
  intros I E. eapply ensures_mono; [by apply cockpit_router_set_bridges_ok|]. intros [] s1 (_ & _ & H). exact H.
Qed.
End Safe.

(** ** The order of what waits for a fence

    Next to the router: what it makes, in order, and the "open" messages that the transport holds back for channels that are
    frozen, until they are thawed. *)

Record world (T : Type) := mkWorld {
  the_router : CockpitRouter T;
  made : list (list Z);
  held : list (list Z * object * list Z)
}.
#[global] Arguments mkWorld {T}.
#[global] Arguments the_router {T}.
#[global] Arguments made {T}.
#[global] Arguments held {T}.

#[export] Instance world_eta T : Settable (world T) := λ w, mkWorld (the_router w) (made w) (held w).

Section Fences.
Context {T : Type} (takes : nat → object → bool).
Context (g_pattern_match : list Z → list Z → bool) (dtostr : spec_float → list Z) (user_name : list Z).
Context (g_path_get_basename : list Z → list Z).

Notation W := (world T).
Notation io := (prog W unit).
#[local] Instance io_ret_fences : MRet io := λ A a, prog_ret A a.
#[local] Instance io_bind_fences : MBind io := λ A B f m, prog_bind A B f m.
#[local] Instance the_router_field : Field (the_router : W → _).
Proof. by intros f []. Qed.

(** A channel is made, or is given to a peer that [takes] it; not while another one is a fence that is open. *)
Definition make (channel : list Z) : io unit :=
  p ← get (the_router : W → _);
  _ ← require (bool_decide (fences p ⊆ {[channel]}));
  modify (λ w, w <| made ::= λ l, l ++ [channel] |>).

Definition fence_env (thaw : list Z → io unit) : surroundings W T := {|
  cockpit_transport_close _ := mret tt;
  cockpit_transport_send _ := mret tt;
  transport_freeze _ := mret tt;
  transport_thaw := thaw;
  transport_emit_open channel options data := modify (λ w, w <| held ::= λ l, l ++ [(channel, options, data)] |>);
  new_channel _ channel _ := make channel;
  close_channel _ _ := mret tt;
  new_peer _ := p ← get (the_router : W → _); mret (next_memory p);
  unref_peer _ := mret tt;
  cockpit_peer_handle peer channel options _ :=
    if takes peer options then _ ← make channel; mret true else mret false;
  cockpit_peer_reset _ := mret tt;
  cockpit_peer_ensure_with_done peer _ := mret (Some peer);
  close_superuser _ _ := mret tt;
  peer_answer _ _ := mret tt;
  invocation_return _ _ := mret tt;
  emit_prompt _ _ := mret tt
|}.

Notation open thaw := (process_open the_router (fence_env thaw) g_pattern_match dtostr user_name).

(** The messages of the channel come to the router again. *)
Definition thaw_again (channel : list Z) : io unit :=
  l ← get (held : W → _);
  _ ← modify (λ w, w <| held ::= filter (λ m, m.1.1 ≠ channel) |>);
  each (filter (λ m, m.1.1 = channel) l) (λ m, open (λ _, mret tt) (Some m.1.1) m.1.2 m.2).

Inductive fence_event :=
| Opened (channel : list Z) (options : object) (data : list Z)
| Closed (channel : list Z).

Definition fence_step (e : fence_event) : io unit :=
  match e with
  | Opened channel options data => open thaw_again (Some channel) options data
  | Closed channel => on_channel_closed the_router (fence_env thaw_again) channel
  end.

Definition arrivals (events : list fence_event) : list (list Z) :=
  omap (λ e, match e with Opened channel _ _ => Some channel | Closed _ => None end) events.

(** *** A message that comes makes its channel, or waits *)

Definition added (channel : list Z) (w w' : W) : Prop :=
  made w' = made w ++ [channel] ∧ held w' = held w ∧ fenced (the_router w') = fenced (the_router w) ∧
  channels (the_router w') ⊆ {[channel]} ∪ channels (the_router w).

Definition unchanged (w w' : W) : Prop :=
  made w' = made w ∧ held w' = held w ∧ fenced (the_router w') = fenced (the_router w) ∧
  channels (the_router w') = channels (the_router w) ∧ fences (the_router w') = fences (the_router w).

(** Options with which a channel is not one of the superuser *)
Definition plain_options (options : object) : Prop := group_ok options ∧ superuser_option options = None.

Lemma make_ok channel (w : W) : fences (the_router w) ⊆ {[channel]} →
  ensures (make channel) (λ _ w', w' = w <| made ::= λ l, l ++ [channel] |>) w.
Proof. intros Hf. apply ensures_bind, ensures_get, ensures_bind, ensures_require; [by apply bool_decide_eq_true_2|]. done. Qed.

Lemma create_makes thaw channel options type (w : W) : fences (the_router w) ⊆ {[channel]} →
  ensures (create_channel the_router (fence_env thaw) channel options type) (λ _ w', added channel w w') w.
Proof. intros Hf. apply ensures_bind. eapply ensures_mono; [by apply make_ok|]. intros [] w1 ->. by apply ensures_modify. Qed.

Lemma handle_makes thaw peer channel options data (w : W) : fences (the_router w) = ∅ →
  ensures (cockpit_peer_handle (fence_env thaw) peer channel options data) (λ (taken : bool) w',
    if taken then added channel w w' else unchanged w w') w.
Proof.
  intros Hf. cbn [cockpit_peer_handle fence_env]. destruct (takes peer options); [|done]. apply ensures_bind.
  eapply ensures_mono; [apply make_ok; rewrite Hf; clear; set_solver|]. intros [] w1 ->. apply ensures_ret.
  split_and!; try done. cbn. clear. set_solver.
Qed.

Lemma own_makes thaw channel options type (w : W) : fences (the_router w) = ∅ → group_ok options →
  ensures (process_open_channel the_router (fence_env thaw) channel options type) (λ taken w', taken = true ∧ added channel w w') w.
Proof.
  intros Hf Hg. unfold process_open_channel. destruct (get_string_default _ _ _ Hg) as [group ->]. apply ensures_bind.
  eapply (ensures_mono _ (λ _ w1, fences (the_router w1) ⊆ {[channel]} ∧ made w1 = made w ∧ held w1 = held w ∧
    fenced (the_router w1) = fenced (the_router w) ∧ channels (the_router w1) = channels (the_router w))).
  - apply ensures_when; intros _; [apply ensures_modify|]; split_and!; try done; cbn; rewrite Hf; clear; set_solver.
  - intros [] w1 (H1 & H2 & H3 & H4 & H5). apply ensures_bind, ensures_modify, ensures_bind.
    eapply ensures_mono; [by apply create_makes|]. intros [] w2 (E1 & E2 & E3 & E4). apply ensures_ret. split; [done|].
    unfold added. rewrite E1, E2, E3, <- H5. split_and!; [by rewrite <- H2|done..|exact E4].
Qed.

Lemma invoke_makes thaw rule channel options data (w : W) : fences (the_router w) = ∅ → group_ok options →
  ensures (router_rule_invoke the_router (fence_env thaw) rule channel options data) (λ taken w',
    if taken then added channel w w' else unchanged w w' ∧ rule_callback rule ≠ OpenNotSupported) w.
Proof.
  intros Hf Hg. unfold router_rule_invoke. destruct (rule_callback rule) as [type|peer|template|].
  - eapply ensures_mono; [by apply own_makes|]. by intros taken w' [-> ?].
  - eapply ensures_mono; [by apply handle_makes|]. by intros [] w'.
  - unfold process_open_dynamic_peer. set (config := cockpit_template_expand_json _ _ _ _). apply ensures_bind.
    apply (ensures_mono _ (λ _ w1, unchanged w w1)).
    + destruct (list_find _ _) as [[? [? peer]]|]; [done|]. apply ensures_bind. done.
    + intros peer w1 (E1 & E2 & E3 & E4 & E5). eapply ensures_mono; [apply handle_makes; by rewrite E5|].
      unfold added, unchanged. rewrite E1, E2, E3, E4, E5. by intros [] w'.
  - apply ensures_bind. eapply ensures_mono; [apply create_makes; rewrite Hf; clear; set_solver|]. done.
Qed.

Lemma loop_makes thaw l channel options data (w : W) : fences (the_router w) = ∅ → group_ok options → Exists is_default l →
  ensures (rules_loop the_router (fence_env thaw) g_pattern_match l channel options data) (λ _ w', added channel w w') w.
Proof.
  revert w. induction l as [|rule l IH]; intros w Hf Hg Hd; [by inversion Hd|]. cbn [rules_loop]. apply Exists_cons in Hd.
  destruct (router_rule_match g_pattern_match rule options) eqn:Em.
  - apply ensures_bind. eapply ensures_mono; [by apply invoke_makes|]. intros [] w1; [done|]. intros [(E1 & E2 & E3 & E4 & E5) Hn].
    destruct Hd as [[_ ?]|Hd]; [done|]. eapply ensures_mono; [apply IH; [by rewrite E5|done|done]|]. unfold added. by rewrite E1, E2, E3, E4.
  - destruct Hd as [[Hm _]|Hd]; [|by apply IH]. by unfold router_rule_match in Em; rewrite Hm in Em.
Qed.

Lemma no_superuser thaw channel options (w : W) : superuser_option options = None →
  ensures (process_open_superuser the_router (fence_env thaw) dtostr channel options) (λ done w', done = false ∧ w' = w) w.
Proof.
  intros Hs. apply ensures_bind, ensures_get. destruct (privileged _); [done|].
  destruct (cockpit_json_get_string options (bs "host") None) as [[]|]; by rewrite ?Hs.
Qed.

Lemma open_makes thaw channel options data (w : W) : channel ∉ channels (the_router w) → fences (the_router w) = ∅ →
  init_host (the_router w) ≠ None → complete (rules (the_router w)) → plain_options options →
  ensures (open thaw (Some channel) options data) (λ _ w', added channel w w') w.
Proof.
  intros Hc Hf Hi (k & d & El & Hd & _) [Hg Hs]. apply ensures_bind, ensures_get.
  rewrite (bool_decide_eq_false_2 (channel ∈ _)), (bool_decide_eq_true_2 (fences _ = ∅)) by done. cbn [negb andb].
  destruct (init_host (the_router w)) as [host|]; [|done].
  destruct (cockpit_router_normalize_host host options) as [normal|] eqn:En; apply ensures_bind.
  - assert (Hs' : superuser_option normal = None).
    { revert Hs. unfold superuser_option, cockpit_json_get_string, cockpit_json_get_bool.
      by rewrite (get_normal_host (bs "superuser") _ _ _ En) by done. }
    eapply ensures_mono; [by apply no_superuser|]. intros [] w1 [? ->]; [done|]. apply ensures_bind, ensures_get.
    apply loop_makes; [done| |rewrite El; apply Exists_app; right; by left].
    unfold group_ok, cockpit_json_get_string. rewrite get_normal_params by by_decide. by eapply normal_group_ok.
  - apply ensures_bind. eapply ensures_mono; [apply create_makes; rewrite Hf; clear; set_solver|]. done.
Qed.

Lemma open_waits thaw channel options data (w : W) : channel ∉ channels (the_router w) → fences (the_router w) ≠ ∅ →
  channel ∉ fences (the_router w) →
  ensures (open thaw (Some channel) options data) (λ _ w',
    w' = w <| the_router ::= λ r, r <| fenced ::= λ l, l ++ [channel] |> |> <| held ::= λ l, l ++ [(channel, options, data)] |>) w.
Proof.
  intros Hc Hf Hn. apply ensures_bind, ensures_get. rewrite !bool_decide_eq_false_2 by done. done.
Qed.

(** *** Any order of messages *)

Lemma ensures_both {A} (m : io A) P Q (w : W) : ensures m P w → ensures m Q w → ensures m (λ a w', P a w' ∧ Q a w') w.
Proof. unfold ensures. destruct (m w) as [[] ?]; auto. Qed.

(** The messages that are held are those of the channels that are held back. *)
Record fine (w : W) : Prop := {
  fi_inv : router_inv g_path_get_basename (the_router w);
  fi_complete : complete (rules (the_router w));
  fi_host : init_host (the_router w) ≠ None;
  fi_channels : ∀ channel, channel ∈ channels (the_router w) → channel ∈ made w;
  fi_options : Forall (λ m, plain_options m.1.2) (held w)
}.

Notation names l := ((λ m : list Z * object * list Z, m.1.1) <$> l).

Lemma fence_well_behaved : well_behaved the_router (fence_env (λ _, mret tt)) g_path_get_basename.
Proof.
  constructor; intros; try (apply calling_ret); try (intros w; done).
  - eapply ensures_mono; [by apply make_ok|]. by intros [] w1 ->.
  - eapply ensures_mono; [by apply make_ok|]. by intros [] w1 ->.
  - cbn [cockpit_peer_handle fence_env]. destruct (takes peer options); [|done].
    apply ensures_bind. eapply ensures_mono; [apply make_ok; rewrite H; clear; set_solver|]. by intros [] w1 ->.
Qed.

(** Nothing is thawed when a message comes. *)
Lemma open_fine thaw channel options data (w : W) : fine w → channel ∉ made w → plain_options options →
  ensures (open thaw (Some channel) options data) (λ _ w', fine w' ∧
    (fences (the_router w) = ∅ ∧ added channel w w' ∨
     fences (the_router w) ≠ ∅ ∧ made w' = made w ∧ held w' = held w ++ [(channel, options, data)] ∧
       fenced (the_router w') = fenced (the_router w) ++ [channel] ∧ fences (the_router w') = fences (the_router w))) w.
Proof.
  intros [I Hc Hi Hch Ho] Hn Hp. assert (Hn' : channel ∉ channels (the_router w)) by auto.
  assert (Hf : channel ∉ fences (the_router w)) by (intros H; by apply Hn', (ri_fences _ _ I)).
  eapply ensures_mono; [apply ensures_both;
    [apply (process_open_ok the_router (fence_env (λ _, mret tt)) g_pattern_match dtostr user_name g_path_get_basename fence_well_behaved
      (Some channel) options data w); [by intros; apply Hp|done|done]|]|].
  - instantiate (1 := λ _ w', fences (the_router w) = ∅ ∧ added channel w w' ∨ fences (the_router w) ≠ ∅ ∧
      w' = w <| the_router ::= λ r, r <| fenced ::= λ l, l ++ [channel] |> |> <| held ::= λ l, l ++ [(channel, options, data)] |>).
    destruct (decide (fences (the_router w) = ∅)) as [Ef|Ef].
    + eapply ensures_mono; [by apply open_makes|]. by left.
    + eapply ensures_mono; [by apply open_waits|]. by right.
  - intros [] w1 [[I1 F1] H1]. split.
    + destruct F1 as (Fr & _ & _ & _ & Fi & _). constructor; [done|by eapply complete_shape| |..].
      * destruct (init_host (the_router w)) eqn:E; [|done]. by rewrite Fi.
      * intros c Hc1. destruct H1 as [[_ (-> & _ & _ & H1)]|[_ ->]]; [|by apply Hch]. apply elem_of_app. apply H1 in Hc1.
        apply elem_of_union in Hc1 as [->%elem_of_singleton|?]; [right; by left|left; auto].
      * destruct H1 as [[_ (_ & -> & _)]|[_ ->]]; [done|]. apply Forall_app. split; [done|]. by constructor.
    + destruct H1 as [H1|[H1 ->]]; [by left|right]. by split_and!.
Qed.

(** A channel has one message that is held. *)
Lemma held_of (m : list Z * object * list Z) l : m.1.1 ∉ names l →
  filter (λ x, x.1.1 = m.1.1) (m :: l) = [m] ∧ filter (λ x, x.1.1 ≠ m.1.1) (m :: l) = l.
Proof.
  intros Hm. rewrite filter_cons_True, filter_cons_False by auto. induction l as [|x l IH]; [done|].
  rewrite fmap_cons, not_elem_of_cons in Hm. destruct Hm as [H1 H2]. destruct (IH H2) as [[= E1] E2].
  by rewrite filter_cons_False, filter_cons_True, E1, E2 by congruence.
Qed.

(** A channel is thawed: it is made, or waits behind all others. *)
Lemma thaw_one m l (w : W) : fine w → held w = m :: l → NoDup (made w ++ names (m :: l)) →
  ensures (thaw_again m.1.1) (λ _ w', fine w' ∧
    (fences (the_router w) = ∅ ∧ made w' = made w ++ [m.1.1] ∧ held w' = l ∧ fenced (the_router w') = fenced (the_router w) ∨
     fences (the_router w) ≠ ∅ ∧ made w' = made w ∧ held w' = l ++ [m] ∧
       fenced (the_router w') = fenced (the_router w) ++ [m.1.1] ∧ fences (the_router w') = fences (the_router w))) w.
Proof.
  intros F El Hn. apply NoDup_app in Hn as (_ & Hn2 & Hn3). apply NoDup_cons in Hn3 as [Hm Hn3].
  assert (Hm' : m.1.1 ∉ made w) by (intros H; apply (Hn2 _ H); by left).
  destruct (held_of m l Hm) as [E1 E2]. unfold thaw_again. apply ensures_bind, ensures_get, ensures_bind, ensures_modify.
  rewrite El, E1. cbn [each]. apply ensures_bind. set (w0 := _ <| held ::= _ |>).
  assert (E0 : held w0 = l) by (rewrite <- E2, <- El; done). assert (Hp := fi_options _ F). rewrite El in Hp.
  apply Forall_cons in Hp as [Hp1 Hp2]. assert (F0 : fine w0) by (destruct F; constructor; try done; by rewrite E0).
  eapply ensures_mono; [by apply open_fine|]. intros [] w1 [F1 H1]. apply ensures_ret. split; [done|].
  destruct H1 as [(Hf & G1 & G2 & G3 & _)|(Hf & G1 & G2 & G3 & G4)]; [left|right]; rewrite G2, E0; [done|].
  split_and!; try done. by destruct m as [[]].
Qed.

(** What has been held is thawed, a channel after the other; after a fence that is made all others are held again. *)
Lemma thaw_fine l again (w : W) : fine w → held w = l ++ again → fenced (the_router w) = names again →
  NoDup (made w ++ names (held w)) → (fences (the_router w) = ∅ → again = []) →
  ensures (each (names l) thaw_again) (λ _ w', fine w' ∧ fenced (the_router w') = names (held w') ∧
    made w' ++ names (held w') = made w ++ names (again ++ l)) w.
Proof.
  revert again w. induction l as [|m l IH]; intros again w F El Ef Hn Ha.
  - cbn [fmap list_fmap each]. apply ensures_ret. rewrite app_nil_r. cbn in El. by rewrite El.
  - rewrite El in Hn. cbn [fmap list_fmap each]. apply ensures_bind. eapply ensures_mono; [by apply (thaw_one m (l ++ again))|].
    intros [] w1 [F1 [(Hf & G1 & G2 & G3)|(Hf & G1 & G2 & G3 & G4)]].
    + specialize (Ha Hf) as ->. rewrite app_nil_r in G2. eapply ensures_mono; [apply (IH [] w1); try done|].
      * by rewrite G2, app_nil_r.
      * by rewrite G3.
      * rewrite G1, G2, <- app_assoc. by rewrite app_nil_r in Hn.
      * intros [] w2 (F2 & H2 & H3). split; [done|]. split; [done|]. rewrite H3, G1. cbn. by rewrite <- app_assoc.
    + eapply ensures_mono; [apply (IH (again ++ [m]) w1); try done|].
      * by rewrite G2, <- app_assoc.
      * by rewrite G3, fmap_app, Ef.
      * rewrite G1, G2, fmap_app. cbn [fmap list_fmap]. by rewrite <- Permutation_cons_append.
      * intros H. by rewrite G4 in H.
      * intros [] w2 (F2 & H2 & H3). split; [done|]. split; [done|]. by rewrite H3, G1, <- app_assoc.
Qed.

Lemma closed_fine channel (w : W) : fine w → fenced (the_router w) = names (held w) → NoDup (made w ++ names (held w)) →
  ensures (on_channel_closed the_router (fence_env thaw_again) channel) (λ _ w', fine w' ∧ fenced (the_router w') = names (held w') ∧
    made w' ++ names (held w') = made w ++ names (held w)) w.
Proof.
  intros F Ef Hn. apply ensures_bind, ensures_get, ensures_bind, ensures_modify, ensures_bind, ensures_get.
  set (w1 := update the_router _ w).
  assert (Hc : (negb (bool_decide (channel ∈ fences (the_router w))) || negb (bool_decide (fences (the_router w1) = ∅)) = true →
      fences (the_router w1) = ∅ → fenced (the_router w) = []) ∧ ∀ c, c ∈ channels (the_router w1) → c ∈ made w).
  { split.
    - intros Hb E. apply (ri_waiting _ _ (fi_inv _ F)). apply orb_true_iff in Hb as [Hb|Hb];
        apply negb_true_iff, bool_decide_eq_false in Hb; [|done]. clear -E Hb. cbn in E. set_solver.
    - intros c Hc. apply (fi_channels _ F). clear -Hc. cbn in Hc. set_solver. }
  destruct Hc as [Hw Hc]. set (b := _ || _) in *. pose proof (inv_closed g_path_get_basename b channel _ (fi_inv _ F) Hw) as I1.
  destruct F as [_ ? ? _ ?]. destruct b.
  - apply ensures_ret. by split_and!; [constructor|..].
  - apply ensures_bind, ensures_modify. change (fenced (the_router w1)) with (fenced (the_router w)). rewrite Ef.
    set (w2 := update the_router _ w1). assert (F2 : fine w2) by (by constructor).
    eapply ensures_mono; [apply (thaw_fine (held w) [] w2); try done; by rewrite app_nil_r|]. done.
Qed.

Definition event_fine (e : fence_event) : Prop :=
  match e with Opened _ options _ => plain_options options | Closed _ => True end.

End Fences.

(** ** A bridge with a strict environment

    Channels are only made as they may be; a channel that is closed says so to the router; bridges start at once. *)
Section Example.
Notation S := (CockpitRouter (list Z)).
Notation io := (prog S unit).
#[local] Instance io_ret_example : MRet io := λ A a, prog_ret A a.
#[local] Instance io_bind_example : MBind io := λ A B f m, prog_bind A B f m.

Notation whole := (λ r : S, r).
#[local] Instance whole_setter : Setter whole := λ f r, f r.
#[local] Instance whole_field : Field whole.
Proof. done. Qed.

Definition no_double (d : spec_float) : list Z := [].

Definition strict_new_channel (type : option (list Z)) (channel : list Z) (options : object) : io unit :=
  p ← get whole;
  require (negb (bool_decide (channel ∈ channels p)) && bool_decide (fences p ⊆ {[channel]}) &&
    match type with
    | Some _ => negb (json_object_has_member options (bs "host")) &&
        (privileged p || negb (bool_decide (superuser_option options = Some (bs "require"))))
    | None => true
    end).

Definition plain_env : surroundings S (list Z) := {|
  cockpit_transport_close _ := mret tt;
  cockpit_transport_send _ := mret tt;
  transport_freeze _ := mret tt;
  transport_thaw _ := mret tt;
  transport_emit_open _ _ _ := mret tt;
  new_channel := strict_new_channel;
  close_channel _ _ := mret tt;
  new_peer _ := p ← get whole; mret (next_memory p);
  unref_peer _ := mret tt;
  cockpit_peer_handle _ _ _ _ := mret true;
  cockpit_peer_reset _ := mret tt;
  cockpit_peer_ensure_with_done peer _ := mret (Some peer);
  close_superuser _ _ := mret tt;
  peer_answer _ _ := mret tt;
  invocation_return _ _ := mret tt;
  emit_prompt _ _ := mret tt
|}.

Definition strict_env : surroundings S (list Z) := {|
  cockpit_transport_close _ := mret tt;
  cockpit_transport_send _ := mret tt;
  transport_freeze _ := mret tt;
  transport_thaw _ := mret tt;
  transport_emit_open _ _ _ := mret tt;
  new_channel := strict_new_channel;
  close_channel channel _ := on_channel_closed whole plain_env channel;
  new_peer _ := p ← get whole; mret (next_memory p);
  unref_peer _ := mret tt;
  cockpit_peer_handle _ _ _ _ := mret true;
  cockpit_peer_reset _ := mret tt;
  cockpit_peer_ensure_with_done peer how :=
    _ ← match how with
        | Init => superuser_init_done whole plain_env no_double None
        | Start => mret tt
        end;
    mret (Some peer);
  close_superuser transport _ := on_superuser_transport_closed whole plain_env transport;
  peer_answer _ _ := mret tt;
  invocation_return _ _ := mret tt;
  emit_prompt _ _ := mret tt
|}.

Lemma strict_own_channel type channel options (s : S) : channel ∉ channels s → fences s ⊆ {[channel]} → json_object_has_member options (bs "host") = false →
  (privileged s = false → superuser_option options ≠ Some (bs "require")) →
  ensures (strict_new_channel (Some type) channel options) (λ _ s', s' = s) s.
Proof.
  intros Hc Hf Hh Hs. apply ensures_bind, ensures_get, ensures_require; [|done]. rewrite Hh, bool_decide_eq_false_2, bool_decide_eq_true_2 by done. cbn [negb andb].
  destruct (privileged s); [done|]. by rewrite bool_decide_eq_false_2 by auto.
Qed.

Lemma strict_channel channel options (s : S) : channel ∉ channels s → fences s ⊆ {[channel]} → ensures (strict_new_channel None channel options) (λ _ s', s' = s) s.
Proof. intros Hc Hf. apply ensures_bind, ensures_get, ensures_require; [|done]. by rewrite bool_decide_eq_false_2, bool_decide_eq_true_2. Qed.

Lemma plain_well_behaved basename : well_behaved whole plain_env basename.
Proof.
  constructor; intros; try (apply calling_ret); try (intros s; done); try done.
  - by apply strict_channel.
  - by apply (strict_own_channel type).
Qed.

Lemma strict_well_behaved basename : well_behaved whole strict_env basename.
Proof.
  constructor; intros; try (apply calling_ret); try (intros s; done); try done.
  - by apply strict_channel.
  - by apply (strict_own_channel type).
  - change (calling whole basename (on_channel_closed whole plain_env channel)).
    exact (on_channel_closed_ok whole plain_env basename (plain_well_behaved basename) channel).
  - apply calling_seq; [|intros _; apply calling_ret]. destruct how; [apply calling_ret|].
    exact (superuser_init_done_ok whole plain_env no_double basename (plain_well_behaved basename) None).
  - change (calling whole basename (on_superuser_transport_closed whole plain_env transport)).
    exact (on_superuser_transport_closed_ok whole plain_env basename (plain_well_behaved basename) transport).
Qed.

Definition equal_pattern (glob value : list Z) : bool := bool_decide (glob = value).

Definition sudo_bridge : object :=
  [(bs "privileged", JBool true); (bs "spawn", JArray [JString (bs "sudo"); JString (bs "cockpit-bridge")])].

Definition ssh_bridge : object :=
  [(bs "match", JObject [(bs "host", JNull)]); (bs "spawn", JArray [JString (bs "cockpit-ssh"); JString (bs "${host}")])].

Definition example_payloads : list (list Z * list Z) := [(bs "echo", bs "echo channel"); (bs "stream", bs "stream channel")].

Definition open_echo (channel : list Z) (more : object) : router_event :=
  Control (bs "open") (Some channel) ((bs "payload", JString (bs "echo")) :: more) [].

Definition example_events : list router_event :=
  [ Control (bs "init") None [(bs "version", JInt 1); (bs "host", JString (bs "localhost"))] [];
    open_echo (bs "a") [(bs "host", JString (bs "localhost"))];
    open_echo (bs "b") [(bs "host", JString (bs "other"))];
    open_echo (bs "c") [(bs "superuser", JString (bs "require"))];
    open_echo (bs "f") [(bs "group", JString (bs "fence"))];
    open_echo (bs "d") [];
    ChannelClosed (bs "f");
    SetBridges [ssh_bridge];
    Control (bs "kill") None [] [] ].

Notation example_step := (router_step whole strict_env equal_pattern no_double (bs "root") (λ _, 0) (λ s, s)).
Notation example_setup := (cockpit_router_setup whole strict_env no_double example_payloads [sudo_bridge; ssh_bridge]).

Lemma router_safe_witness :
  ensures (_ ← example_setup; each example_events example_step) (λ _ s', settled whole (λ s, s) s') (new_router false).
Proof.
  apply (router_safe whole strict_env equal_pattern no_double (bs "root") (λ _, 0) (λ s, s) (strict_well_behaved (λ s, s))
    false example_payloads [sudo_bridge; ssh_bridge] example_events (new_router false)); [done|].
  repeat constructor; unfold group_ok; try (by_decide); done.
Defined.

Definition example_started : S := (example_setup (new_router false)).2.

Lemma example_started_settled : settled whole (λ s, s) example_started.
Proof.
  pose proof (cockpit_router_setup_ok whole strict_env equal_pattern no_double (bs "root") (λ s, s) (strict_well_behaved (λ s, s)) false
    example_payloads [sudo_bridge; ssh_bridge] (new_router false) eq_refl) as H.
  by apply (ensures_after _ (λ s', settled whole (λ s, s) s') (new_router false)).
Qed.

Lemma bridges_configured_witness :
  ensures (cockpit_router_set_bridges whole strict_env no_double [ssh_bridge; sudo_bridge]) (λ _ s', ∃ new,
    configured no_double (rules example_started) (next_memory example_started) [ssh_bridge; sudo_bridge] new ∧ NoDup (rule_memory <$> new) ∧
    shape (rules s') = shape (new ++ filter (λ rule, ¬ is_bridge rule) (rules example_started))) example_started.
Proof.
  apply (bridges_configured whole strict_env equal_pattern no_double (bs "root") (λ s, s) (strict_well_behaved (λ s, s)) [ssh_bridge; sudo_bridge] example_started).
  - exact (proj1 example_started_settled).
  - by vm_compute.
Defined.

(** *** Fences *)

Definition example_world : world (list Z) := mkWorld (example_started <| init_host := Some (bs "localhost") |>) [] [].

Definition echo_options (more : object) : object := (bs "payload", JString (bs "echo")) :: more.

Definition fenced_events : list fence_event :=
  [ Opened (bs "a") (echo_options []) [];
    Opened (bs "f") (echo_options [(bs "group", JString (bs "fence"))]) [];
    Opened (bs "b") (echo_options [(bs "host", JString (bs "other"))]) [];
    Opened (bs "g") (echo_options [(bs "group", JString (bs "fence"))]) [];
    Opened (bs "c") [] [];
    Closed (bs "f") ].

Notation fenced_run := (each fenced_events (fence_step (λ _ _, true) equal_pattern no_double (bs "root")) example_world).

(** What waited is made up to the next fence. *)
Example fenced_run_made :
  made fenced_run.2 = [bs "a"; bs "f"; bs "b"; bs "g"] ∧ (λ m, m.1.1) <$> held fenced_run.2 = [bs "c"].
Proof. split; by vm_compute. Qed.

Lemma started_fine host (p : S) : settled whole (λ s, s) p → channels p = ∅ →
  fine (λ s, s) (mkWorld (p <| init_host := Some host |>) [] []).
Proof.
  intros ([] & _ & Hc) E. constructor; [by constructor|exact Hc|done| |by constructor]. intros c Hin. cbn in Hin. rewrite E in Hin.
  by apply not_elem_of_empty in Hin.
Qed.

Lemma example_world_fine : fine (λ s, s) example_world.
Proof. apply started_fine; [exact example_started_settled|by_decide]. Qed.


(** *** What goes wrong *)

(** An "authorize" without a cookie: [g_str_equal] is given no string. *)
Lemma authorize_without_cookie :
  (example_step (Control (bs "authorize") None [(bs "response", JString (bs "password"))] []) example_started).1 = Fault.
Proof. by vm_compute. Qed.

(** A group that is no string: the variable is used that has not been set. *)
Lemma group_not_string :
  (each [Control (bs "init") None [(bs "version", JInt 1); (bs "host", JString (bs "localhost"))] []; open_echo (bs "a") [(bs "group", JInt 1)]]
    example_step example_started).1 = Fault.
Proof. by vm_compute. Qed.

(** The name of the user is not known when the superuser's bridge asks for a password. *)
Lemma prompt_without_user : let s := example_started <| superuser_init_in_progress := true |> : S in
  (example_step (Prompt None (Some (bs "Password: ")) None 0) s).1 = Fault.
Proof. by vm_compute. Qed.

(** A second "Stop" comes before the bridge has closed: the first one is forgotten, and nothing is ever returned for it. *)
Lemma second_stop_forgets (s : S) memory transport :
  ensures (each [SuperuserStop 1; SuperuserStop 2] (router_step whole plain_env equal_pattern no_double (bs "root") (λ _, 0) (λ s, s)))
    (λ _ s', s' = s <| superuser_rule := Some memory |> <| superuser_transport := Some transport |> <| superuser_stop_invocation := Some 2%nat |>)
    (s <| superuser_rule := Some memory |> <| superuser_transport := Some transport |>).
Proof. done. Qed.
End Example.
