(* ===== verification/Paths.v ===== *)
(** * Trees of paths: [src/bridge/cockpitpaths.c]

    The bridge keeps the object paths that a page watches in a balanced tree of GLib.  How the tree is balanced
    is up to GLib: a tree is the sorted list of its paths, and the class [Balanced] gives it a shape.

    Shown: whatever the shape, the tree finds the path itself, the nearest of its ancestors, and whether there is
    one below it, just as if all paths that have been added and not removed were looked at.  The search for
    descendants needs paths without characters that sort before the slash, as those of D-Bus are. *)

From S2P Require Import Prelude.
From Stdlib Require Import Sorted.
#[local] Open Scope Z_scope.

(** ** Paths *)

(** A character of a string, or the NUL at its end *)
Definition char_at (s : list Z) (i : nat) : Z := nth i s 0.

Definition slash : Z := 47.

Definition cockpit_path_has_parent (path parent : list Z) : bool :=
  let last :=
    if bool_decide (parent = [slash]) && negb (char_at path 0 =? 0) then Some (drop 1 path)
    else if prefixb parent path && (char_at path (length parent) =? slash) then Some (drop (length parent + 1) path)
    else None in
  match last with
  | Some last => bool_decide (strchr last slash = None)
  | None => false
  end.

Definition cockpit_path_equal_or_ancestor (path ancestor : list Z) : bool :=
  bool_decide (ancestor = [slash]) ||
  prefixb ancestor path && ((char_at path (length ancestor) =? slash) || (char_at path (length ancestor) =? 0)).

Definition cockpit_path_has_ancestor (path ancestor : list Z) : bool :=
  bool_decide (ancestor = [slash]) || prefixb ancestor path && (char_at path (length ancestor) =? slash).

(** ** Trees *)

Inductive gtree (A : Type) :=
| Leaf
| Node (lower : gtree A) (a : A) (higher : gtree A).
#[global] Arguments Leaf {A}.
#[global] Arguments Node {A}.

Fixpoint flatten {A} (t : gtree A) : list A :=
  match t with Leaf => [] | Node lower a higher => flatten lower ++ a :: flatten higher end.

Fixpoint g_tree_search {A} (search : A → Z) (t : gtree A) : option A :=
  match t with
  | Leaf => None
  | Node lower a higher =>
      let cmp := search a in
      if cmp =? 0 then Some a else if cmp <? 0 then g_tree_search search lower else g_tree_search search higher
  end.

(** The shape that GLib gives the tree of these values, in their order *)
Class Balanced := {
  balance : ∀ {A}, list A → gtree A;
  flatten_balance : ∀ {A} (l : list A), flatten (balance l) = l
}.

(** ** The order of paths *)

Fixpoint memcmp (a b : list Z) : Z :=
  match a, b with
  | x :: a, y :: b => if x <? y then -1 else if y <? x then 1 else memcmp a b
  | _, _ => 0
  end.

Definition tree_path_cmp (a b : list Z) : Z :=
  let ret := memcmp a b in
  if (ret =? 0) && negb (length a =? length b)%nat then if (length a <? length b)%nat then -1 else 1 else ret.

(** A node of the tree, and the path that is looked for *)
Definition tree_prefix_search (a b : list Z) : Z :=
  let ret := memcmp b a in
  if (ret =? 0) && negb (length a =? length b)%nat then
    if (length b <? length a)%nat then
      if bool_decide (b = [slash]) || (char_at a (length b) =? slash) then 0 else -1
    else 1
  else ret.

(** ** Operations *)

Notation paths := (list (list Z)).   (* [GTree *] *)

Definition cockpit_paths_new : paths := [].

(** [g_tree_replace] *)
Fixpoint tree_replace (path : list Z) (tree : paths) : paths :=
  match tree with
  | [] => [path]
  | x :: tree =>
      let cmp := tree_path_cmp path x in
      if cmp =? 0 then path :: tree else if cmp <? 0 then path :: x :: tree else x :: tree_replace path tree
  end.

Fixpoint memrchr (s : list Z) (c : Z) : option nat :=
  match s with
  | [] => None
  | x :: s => match memrchr s c with Some i => Some (S i) | None => if x =? c then Some 0%nat else None end
  end.

Section Paths.
Context {balanced : Balanced}.

Definition tree_lookup (tree : paths) (key : list Z) : option (list Z) := g_tree_search (tree_path_cmp key) (balance tree).

(** The tree, and whether the path is new *)
Definition cockpit_paths_add (tree : paths) (path : list Z) : paths * bool :=
  match tree_lookup tree path with
  | None => (tree_replace path tree, true)
  | Some _ => (tree, false)
  end.

Definition cockpit_paths_remove (tree : paths) (path : list Z) : paths * bool :=
  match tree_lookup tree path with
  | None => (tree, false)
  | Some _ => (filter (λ p, tree_path_cmp path p ≠ 0) tree, true)
  end.

Definition cockpit_paths_contain (tree : paths) (path : list Z) : option (list Z) := tree_lookup tree path.

Definition cockpit_paths_contain_or_descendant (tree : paths) (path : list Z) : bool :=
  bool_decide (is_Some (g_tree_search (λ a, tree_prefix_search a path) (balance tree))).

(** The key is shorter every time, except for the last. *)
Fixpoint ancestor_loop (fuel : nat) (tree : paths) (path : list Z) (len : nat) (last : bool) : option (list Z) :=
  match fuel with
  | O => None
  | S fuel =>
      match tree_lookup tree (take len path) with
      | Some pd => Some pd
      | None =>
          if last then None
          else
            match memrchr (take len path) slash with
            | None => None
            | Some O => ancestor_loop fuel tree path 1 true
            | Some pos => ancestor_loop fuel tree path pos false
            end
      end
  end.

Definition cockpit_paths_contain_or_ancestor (tree : paths) (path : list Z) : option (list Z) :=
  ancestor_loop (length path + 2) tree path (length path) false.
End Paths.

(** ** The order *)

(** The order of paths, character by character *)
Fixpoint path_lt (a b : list Z) : Prop :=
  match a, b with
  | _, [] => False
  | [], _ :: _ => True
  | x :: a, y :: b => x < y ∨ x = y ∧ path_lt a b
  end.

Lemma path_cmp_cons x y a b :
  tree_path_cmp (x :: a) (y :: b) = if x <? y then -1 else if y <? x then 1 else tree_path_cmp a b.
Proof. unfold tree_path_cmp. cbn [memcmp length]. by destruct (x <? y), (y <? x). Qed.

Lemma path_cmp_lt a b : tree_path_cmp a b < 0 ↔ path_lt a b.
Proof.
  revert b. induction a as [|x a IH]; intros [|y b]; try (cbn; lia). rewrite path_cmp_cons. cbn [path_lt].
  specialize (IH b). destruct (Z.ltb_spec x y), (Z.ltb_spec y x); rewrite ?IH; intuition lia.
Qed.

Lemma path_cmp_eq a b : tree_path_cmp a b = 0 ↔ a = b.
Proof.
  revert b. induction a as [|x a IH]; intros [|y b]; try done. rewrite path_cmp_cons.
  destruct (Z.ltb_spec x y), (Z.ltb_spec y x); try (split; [done|intros [=]; lia]). rewrite IH. split; [intros ->; f_equal; lia|by intros [= -> ->]].
Qed.

Lemma path_cmp_flip a b : tree_path_cmp b a = - tree_path_cmp a b.
Proof.
  revert b. induction a as [|x a IH]; intros [|y b]; try done. rewrite !path_cmp_cons, IH.
  destruct (Z.ltb_spec x y), (Z.ltb_spec y x); lia.
Qed.

Lemma path_lt_trans a b c : path_lt a b → path_lt b c → path_lt a c.
Proof.
  revert b c. induction a as [|x a IH]; intros [|y b] [|z c]; cbn [path_lt]; try done. intros [?|[-> ?]] [?|[-> ?]]; [left; lia|by left|by left|].
  right. split; [done|]. by eapply IH.
Qed.

Definition sorted (l : paths) : Prop := StronglySorted path_lt l.

(** ** Searching *)

Section Search.
Context {A : Type} (search : A → Z).

(** A search goes right first, then finds, then goes left. *)
Fixpoint searchable (l : list A) : Prop :=
  match l with
  | [] => True
  | a :: l => Forall (λ b, (search a < 0 → search b < 0) ∧ (search b > 0 → search a > 0)) l ∧ searchable l
  end.

Lemma searchable_app l k : searchable (l ++ k) → searchable l ∧ searchable k ∧
  Forall (λ a, Forall (λ b, (search a < 0 → search b < 0) ∧ (search b > 0 → search a > 0)) k) l.
Proof.
  induction l as [|a l IH]; cbn; [done|]. intros [[H1 H2]%Forall_app H3]. destruct (IH H3) as (? & ? & ?). split_and!; try done. by constructor.
Qed.

Lemma search_found t a : g_tree_search search t = Some a → a ∈ flatten t ∧ search a = 0.
Proof.
  induction t as [|l IHl b r IHr]; cbn; [done|]. rewrite elem_of_app, elem_of_cons.
  destruct (Z.eqb_spec (search b) 0); [intros [= ->]; auto|]. destruct (search b <? 0); [intros [? ?]%IHl|intros [? ?]%IHr]; auto.
Qed.

Lemma search_finds t : searchable (flatten t) → is_Some (g_tree_search search t) ↔ ∃ a, a ∈ flatten t ∧ search a = 0.
Proof.
  intros Hs. split; [intros [a H%search_found]; by exists a|]. induction t as [|l IHl b r IHr]; cbn; [by intros (? & ?%elem_of_nil & _)|].
  cbn in Hs. apply searchable_app in Hs as (Hl & [Hbr Hr] & Hlr). rewrite Forall_forall in Hbr, Hlr.
  intros (a & [Ha|[->|Ha]%elem_of_cons]%elem_of_app & E).
  - specialize (Hlr a Ha). apply Forall_cons in Hlr as [[Hlr1 Hlr2] _]. destruct (Z.eqb_spec (search b) 0); [done|].
    destruct (Z.ltb_spec (search b) 0); [|lia]. apply IHl; eauto.
  - by rewrite E.
  - destruct (Hbr a Ha) as [H1 H2]. destruct (Z.eqb_spec (search b) 0); [done|]. destruct (Z.ltb_spec (search b) 0); [lia|]. apply IHr; eauto.
Qed.
End Search.

(** ** Trees as sets *)

Lemma sorted_searchable (search : list Z → Z) l : sorted l →
  (∀ a b, a ∈ l → b ∈ l → path_lt a b → (search a < 0 → search b < 0) ∧ (search b > 0 → search a > 0)) → searchable search l.
Proof.
  unfold sorted. induction l as [|a l IH]; intros Hs Hm; [done|]. apply StronglySorted_inv in Hs as [Hs Ha]. split.
  - rewrite Forall_forall in *. intros b Hb. apply Hm; [by left|by right|by apply Ha].
  - apply IH; [done|]. intros x y Hx Hy. apply Hm; by right.
Qed.

Lemma lookup_searchable key l : sorted l → searchable (tree_path_cmp key) l.
Proof.
  intros Hs. apply sorted_searchable; [done|]. intros a b _ _ Hab. split.
  - rewrite !path_cmp_lt. intros H. by eapply path_lt_trans.
  - rewrite (path_cmp_flip b key), (path_cmp_flip a key). intros H. assert (H' : tree_path_cmp b key < 0) by lia.
    apply path_cmp_lt in H'. pose proof (proj2 (path_cmp_lt a key) (path_lt_trans _ _ _ Hab H')). lia.
Qed.

Lemma replace_elem path tree p : p ∈ tree_replace path tree ↔ p = path ∨ p ∈ tree.
Proof.
  induction tree as [|x tree IH]; cbn; [by rewrite list_elem_of_singleton, elem_of_nil; tauto|].
  destruct (Z.eqb_spec (tree_path_cmp path x) 0) as [->%path_cmp_eq|]; [rewrite !elem_of_cons; tauto|].
  destruct (_ <? 0); rewrite !elem_of_cons; [tauto|]. rewrite IH. tauto.
Qed.

Lemma replace_sorted path tree : sorted tree → sorted (tree_replace path tree).
Proof.
  unfold sorted. induction tree as [|x tree IH]; intros Hs; [by repeat constructor|]. apply StronglySorted_inv in Hs as [Hs Hx]. cbn.
  destruct (Z.eqb_spec (tree_path_cmp path x) 0) as [->%path_cmp_eq|Hn]; [by constructor|]. rewrite Forall_forall in Hx.
  destruct (Z.ltb_spec (tree_path_cmp path x) 0) as [Hl%path_cmp_lt|Hl].
  - constructor; [constructor; [done|by apply Forall_forall]|]. constructor; [done|]. apply Forall_forall. intros y Hy.
    eapply path_lt_trans; [done|by apply Hx].
  - constructor; [by apply IH|]. apply Forall_forall. intros y [->|Hy]%replace_elem; [|by apply Hx].
    apply path_cmp_lt. rewrite path_cmp_flip. lia.
Qed.

Lemma filter_sorted (P : list Z → Prop) `{!∀ p, Decision (P p)} tree : sorted tree → sorted (filter P tree).
Proof.
  unfold sorted. induction tree as [|x tree IH]; intros Hs; [done|]. apply StronglySorted_inv in Hs as [Hs Hx]. rewrite filter_cons.
  destruct (decide (P x)); [|by apply IH]. constructor; [by apply IH|]. rewrite Forall_forall in *. intros y [_ Hy]%list_elem_of_filter. by apply Hx.
Qed.

Section Found.
Context {balanced : Balanced}.

Lemma tree_lookup_eq tree key : sorted tree → tree_lookup tree key = if decide (key ∈ tree) then Some key else None.
Proof.
  intros Hs. unfold tree_lookup. pose proof (search_finds (tree_path_cmp key) (balance tree)) as Hf. rewrite flatten_balance in Hf.
  specialize (Hf (lookup_searchable key tree Hs)). destruct (g_tree_search _ _) as [p|] eqn:E.
  - apply search_found in E as [Hp <-%path_cmp_eq]. rewrite flatten_balance in Hp. by rewrite decide_True.
  - rewrite decide_False; [done|]. intros Hk. destruct Hf as [_ Hf]. destruct Hf; [|done]. exists key. by rewrite path_cmp_eq.
Qed.

(** *** Ancestors *)

Definition absolute (path : list Z) : Prop := head path = Some slash ∧ nul_free path.

Notation reach p path := (cockpit_path_equal_or_ancestor path p = true).

(** The nearest one that the path or an ancestor of it is *)
Definition nearest (found : list Z → Prop) (path : list Z) (o : option (list Z)) : Prop :=
  match o with
  | Some p => found p ∧ reach p path ∧ ∀ q, found q → reach q path → (length q ≤ length p)%nat
  | None => ∀ q, found q → ¬ reach q path
  end.

Lemma char_at_nul path i : nul_free path → char_at path i = 0 ↔ (length path ≤ i)%nat.
Proof.
  unfold char_at. intros Hn. split.
  - intros E. destruct (decide (length path ≤ i)%nat) as [|Hi]; [done|]. destruct (lookup_lt_is_Some_2 path i ltac:(lia)) as [c Hc].
    rewrite (nth_lookup_Some path i 0 c Hc) in E. subst. eapply Forall_lookup_1 in Hn; [|exact Hc]. done.
  - intros Hi. by apply nth_overflow.
Qed.

Lemma reach_spec p path : nul_free path → reach p path ↔ p = [slash] ∨ p = path ∨ p = take (length p) path ∧ path !! length p = Some slash.
Proof.
  intros Hn. unfold cockpit_path_equal_or_ancestor. rewrite orb_true_iff, bool_decide_eq_true, andb_true_iff, orb_true_iff, prefixb_spec, !Z.eqb_eq.
  rewrite (char_at_nul _ _ Hn). unfold char_at. split.
  - intros [?|[[r ->] H]]; [by left|right]. rewrite length_app, take_app_length in *. destruct H as [H|H]; [right|left; destruct r; [by rewrite app_nil_r|cbn in H; lia]].
    split; [done|]. rewrite lookup_app_r, Nat.sub_diag by lia. rewrite app_nth2, Nat.sub_diag in H by lia. destruct r; [done|]. cbn in *. congruence.
  - intros [?|[->|[E H]]]; [by left|right..].
    + split; [by exists []; rewrite app_nil_r|]. by right.
    + split; [exists (drop (length p) path); rewrite E at 1; by rewrite take_drop|]. left. by rewrite (nth_lookup_Some _ _ _ _ H).
Qed.

Lemma memrchr_some s c i : memrchr s c = Some i → s !! i = Some c ∧ ∀ j, s !! j = Some c → (j ≤ i)%nat.
Proof.
  revert i. induction s as [|x s IH]; intros i; cbn; [done|]. destruct (memrchr s c) as [k|] eqn:E.
  - intros [= <-]. destruct (IH k eq_refl) as [H1 H2]. split; [done|]. intros [|j] Hj; [lia|]. specialize (H2 j Hj). lia.
  - destruct (Z.eqb_spec x c) as [->|]; [|done]. intros [= <-]. split; [done|]. intros [|j] Hj; [lia|]. exfalso. cbn in Hj. clear IH.
    revert j Hj E. induction s as [|y s IH]; intros j Hj; [done|]. cbn. destruct j as [|j]; cbn in Hj.
    + simplify_eq. destruct (memrchr s c); [done|]. by rewrite Z.eqb_refl.
    + destruct (memrchr s c) eqn:E; [done|]. by destruct (IH j Hj).
Qed.

Lemma memrchr_none s c : memrchr s c = None → c ∉ s.
Proof.
  induction s as [|x s IH]; cbn; [intros _ H; by apply elem_of_nil in H|]. destruct (memrchr s c); [done|].
  destruct (Z.eqb_spec x c); [done|]. intros _ [->|H]%elem_of_cons; [done|]. by apply IH.
Qed.

Lemma reach_length p path : absolute path → reach p path → (length p ≤ length path)%nat.
Proof.
  intros [Ha Hn] [->|[->|[_ H]]]%reach_spec; [|lia|by apply lookup_lt_Some in H; lia|done]. destruct path; [done|cbn; lia].
Qed.

Lemma reach_take p path : absolute path → p ≠ [] → reach p path → p = take (length p) path.
Proof. intros [Ha Hn] Hp [->|[->|[H _]]]%reach_spec; [|by rewrite take_ge|done|done]. destruct path; [done|]. cbn in *. by simplify_eq. Qed.

Lemma ancestor_loop_root fuel tree path : sorted tree → absolute path → (0 < fuel)%nat →
  ancestor_loop fuel tree path 1 true = if decide ([slash] ∈ tree) then Some [slash] else None.
Proof.
  intros Hs [Ha _] Hf. destruct fuel as [|fuel]; [lia|]. cbn [ancestor_loop]. destruct path as [|c path]; [done|]. cbn in Ha. simplify_eq.
  rewrite tree_lookup_eq by done. cbn [take]. by destruct (decide _).
Qed.

(** No path of the tree that is longer than the key can be meant. *)
Lemma ancestor_loop_spec fuel tree path len : sorted tree → absolute path → Forall absolute tree →
  (1 ≤ len ≤ length path)%nat → (len < fuel)%nat → reach (take len path) path →
  (∀ q, q ∈ tree → reach q path → (length q ≤ len)%nat) → nearest (.∈ tree) path (ancestor_loop fuel tree path len false).
Proof.
  intros Hs Ha Ht. revert len. induction fuel as [|fuel IH]; intros len Hl Hf Hr Hq; [lia|]. cbn [ancestor_loop].
  rewrite tree_lookup_eq by done. destruct (decide (take len path ∈ tree)) as [Hin|Hin].
  { split; [done|]. split; [done|]. rewrite length_take. intros q ? ?. specialize (Hq q). lia. }
  rewrite Forall_forall in Ht.
  assert (Hq' : ∀ q, q ∈ tree → reach q path → q = take (length q) path ∧ (1 ≤ length q < len)%nat).
  { intros q Hqt Hqr. assert (Hq0 : q ≠ []) by (intros ->; by destruct (Ht _ Hqt)). assert (E := reach_take q path Ha Hq0 Hqr).
    split; [done|]. destruct q as [|c q]; [done|]. specialize (Hq _ Hqt Hqr). split; [cbn; lia|].
    destruct (decide (length (c :: q) = len)) as [El|]; [|lia]. rewrite El in E. congruence. }
  assert (Hslash : ∀ q, q ∈ tree → reach q path → q = [slash] ∨ take len path !! length q = Some slash).
  { intros q Hqt Hqr. destruct (Hq' q Hqt Hqr) as [_ Hql]. destruct Ha as [_ Hn].
    apply reach_spec in Hqr as [?|[->|[_ H]]]; [by left|lia| |done]. right. rewrite lookup_take_lt by lia. done. }
  assert (H0 : take len path !! 0%nat = Some slash).
  { destruct Ha as [Ha _]. destruct path as [|c path]; [done|]. destruct len; [lia|]. cbn in *. done. }
  destruct (memrchr (take len path) slash) as [pos|] eqn:E.
  - apply memrchr_some in E as [Epos Hlast]. assert (Hpos : (pos < len)%nat).
    { apply lookup_lt_Some in Epos. rewrite length_take in Epos. lia. }
    rewrite lookup_take_lt in Epos by done. destruct pos as [|pos].
    + rewrite ancestor_loop_root by (done || lia).
      assert (Honly : ∀ q, q ∈ tree → reach q path → q = [slash]).
      { intros q Hqt Hqr. destruct (Hslash q Hqt Hqr) as [?|H]; [done|]. apply Hlast in H. destruct (Hq' q Hqt Hqr). lia. }
      destruct (decide ([slash] ∈ tree)) as [Hroot|Hroot].
      * split; [done|]. split; [done|]. by intros q Hqt ->%Honly.
      * intros q Hqt Hqr. by rewrite <- (Honly q Hqt Hqr) in Hroot.
    + apply IH; [lia|lia| |].
      * destruct Ha as [_ Hn]. apply reach_spec; [done|]. right; right. rewrite length_take, Nat.min_l by lia. done.
      * intros q Hqt Hqr. destruct (Hslash q Hqt Hqr) as [->|H]; [cbn; lia|]. by apply Hlast.
  - apply memrchr_none in E. destruct E. by eapply list_elem_of_lookup_2.
Qed.

Lemma contain_or_ancestor_nearest tree path : sorted tree → absolute path → Forall absolute tree →
  nearest (.∈ tree) path (cockpit_paths_contain_or_ancestor tree path).
Proof.
  intros Hs Ha Ht. assert (Hl : (1 ≤ length path)%nat) by (destruct Ha; destruct path; [done|cbn; lia]).
  apply ancestor_loop_spec; try done; [lia|..].
  - rewrite take_ge by done. destruct Ha as [_ Hn]. apply reach_spec; auto.
  - intros q _ Hq. by apply reach_length.
Qed.

(** *** Descendants *)

(** A path whose characters do not sort before the slash *)
Definition dbus_path (path : list Z) : Prop := head path = Some slash ∧ Forall (λ c, slash ≤ c) path.

Lemma dbus_absolute path : dbus_path path → absolute path.
Proof. intros [H1 H2]. split; [done|]. eapply Forall_impl; [exact H2|]. unfold slash. cbn. lia. Qed.

(** [g_tree_search] finds the path and those below it. *)
Definition below (a b : list Z) : Prop := a = b ∨ ∃ c r, a = b ++ c :: r ∧ (b = [slash] ∨ c = slash).

Lemma memcmp_cases a b :
  (memcmp a b = tree_path_cmp a b ∧ memcmp a b ≠ 0) ∨ memcmp a b = 0 ∧ ((∃ r, a = b ++ r) ∨ ∃ r, b = a ++ r).
Proof.
  destruct (decide (memcmp a b = 0)) as [E|E].
  - right. split; [done|]. revert b E. induction a as [|x a IH]; intros [|y b]; cbn; [by left; exists []|by right; exists (y :: b)|by left; exists (x :: a)|].
    destruct (Z.ltb_spec x y), (Z.ltb_spec y x); try done. intros [[r ->]|[r ->]]%IH; [left|right]; exists r; f_equal; lia.
  - left. split; [|done]. unfold tree_path_cmp. by destruct (Z.eqb_spec (memcmp a b) 0).
Qed.

Lemma path_lt_app a c r : path_lt a (a ++ c :: r).
Proof. induction a as [|x a IH]; cbn; [done|]. by right. Qed.

Lemma memcmp_app a r : memcmp a (a ++ r) = 0.
Proof. induction a as [|x a IH]; [done|]. cbn. by rewrite Z.ltb_irrefl. Qed.

Lemma prefix_search_cases a b :
  tree_prefix_search a b = 0 ∧ below a b ∨ tree_prefix_search a b < 0 ∧ path_lt b a ∧ ¬ below a b ∨ tree_prefix_search a b > 0 ∧ path_lt a b.
Proof.
  unfold tree_prefix_search. destruct (memcmp_cases b a) as [[E Hn]|[-> [[r ->]|[r ->]]]].
  - destruct (Z.eqb_spec (memcmp b a) 0); [done|]. cbn [andb]. rewrite E. destruct (Z.lt_trichotomy (tree_path_cmp b a) 0) as [H|[H|H]]; [|congruence|].
    + right; left. split; [done|]. split; [by apply path_cmp_lt|]. intros [->|(c & r & -> & _)].
      * assert (E' : tree_path_cmp b b = 0) by (by apply path_cmp_eq). lia.
      * apply Hn, memcmp_app.
    + right; right. split; [lia|]. apply path_cmp_lt. rewrite path_cmp_flip. lia.
  - destruct r as [|c r]; [rewrite app_nil_r, Nat.eqb_refl; left; split; [done|by left]|]. rewrite length_app. cbn [length].
    destruct (Nat.eqb_spec (length a) (length a + S (length r))); [lia|]. cbn [negb andb Z.eqb].
    destruct (Nat.ltb_spec (length a + S (length r)) (length a)); [lia|]. right; right. split; [lia|]. apply path_lt_app.
  - destruct r as [|c r]; [rewrite app_nil_r, Nat.eqb_refl; left; split; [done|by left]|]. rewrite length_app. cbn [length].
    destruct (Nat.eqb_spec (length b + S (length r)) (length b)); [lia|]. cbn [negb andb Z.eqb].
    destruct (Nat.ltb_spec (length b) (length b + S (length r))); [|lia].
    assert (Ec : char_at (b ++ c :: r) (length b) = c) by (unfold char_at; by rewrite app_nth2, Nat.sub_diag by lia). rewrite Ec.
    destruct (bool_decide (b = [slash]) || (c =? slash)) eqn:Eb.
    + left. split; [done|]. right. exists c, r. split; [done|]. by rewrite orb_true_iff, bool_decide_eq_true, Z.eqb_eq in Eb.
    + right; left. split; [lia|]. split; [apply path_lt_app|]. rewrite orb_false_iff, bool_decide_eq_false, Z.eqb_neq in Eb.
      intros [E|(c' & r' & E & Hb)]; [|apply app_inv_head in E; simplify_eq; tauto].
      apply (f_equal length) in E. rewrite length_app in E. cbn in E. lia.
Qed.

Lemma path_lt_irrefl a : ¬ path_lt a a.
Proof. induction a as [|x a IH]; [by intros []|]. intros [?|[_ ?]]; [lia|done]. Qed.

(** What is between a path and one below it goes on with a character that is not behind the slash. *)
Lemma path_lt_between b a c r : path_lt b a → path_lt a (b ++ c :: r) → ∃ c' r', a = b ++ c' :: r' ∧ c' ≤ c.
Proof.
  revert a. induction b as [|x b IH]; intros [|y a]; cbn [path_lt app]; try done.
  - intros _ [?|[-> _]]; eexists _, _; (split; [done|lia]).
  - intros [?|[-> H1]] [?|[E H2]]; try lia. destruct (IH a H1 H2) as (c' & r' & -> & ?). by exists c', r'.
Qed.

Lemma below_between b a a' : dbus_path b → dbus_path a → path_lt b a → path_lt a a' → below a' b → below a b.
Proof.
  intros [Hb _] [Ha Hs] H1 H2 [->|(c & r & -> & Hc)].
  - exfalso. apply (path_lt_irrefl a). by eapply path_lt_trans.
  - destruct (path_lt_between _ _ _ _ H1 H2) as (c' & r' & -> & Hle). right. exists c', r'. split; [done|].
    destruct Hc as [? | ->]; [by left|right]. apply Forall_app in Hs as [_ Hs]. apply Forall_cons in Hs as [Hs _]. lia.
Qed.

Lemma contain_or_descendant_below tree path : sorted tree → dbus_path path → Forall dbus_path tree →
  cockpit_paths_contain_or_descendant tree path = true ↔ ∃ p, p ∈ tree ∧ below p path.
Proof.
  intros Hs Hp Ht. unfold cockpit_paths_contain_or_descendant. rewrite bool_decide_eq_true.
  assert (Hb : ∀ a, tree_prefix_search a path = 0 ↔ below a path).
  { intros a. destruct (prefix_search_cases a path) as [[-> ?]|[(? & ? & ?)|[? H]]]; [done|split; [lia|done]|]. split; [lia|].
    intros [->|(c & r & -> & _)]; [by apply path_lt_irrefl in H|]. exfalso. apply (path_lt_irrefl path).
    eapply path_lt_trans; [apply path_lt_app|exact H]. }
  pose proof (search_finds (λ a, tree_prefix_search a path) (balance tree)) as Hf. rewrite flatten_balance in Hf. rewrite Hf.
  - by setoid_rewrite Hb.
  - rewrite Forall_forall in Ht. apply sorted_searchable; [done|]. intros a a' Ha Ha' Hlt. split.
    + intros Hn. destruct (prefix_search_cases a path) as [[? _]|[(_ & H & Hnb)|[? _]]]; [lia| |lia].
      destruct (prefix_search_cases a' path) as [[_ Hb']|[[? _]|[_ H']]]; [|done|].
      * destruct Hnb. by eapply below_between; [done|by apply Ht|..].
      * exfalso. apply (path_lt_irrefl path). eapply path_lt_trans; [exact H|]. by eapply path_lt_trans.
    + intros Hn. destruct (prefix_search_cases a' path) as [[? _]|[[? _]|[_ H]]]; [lia|lia|].
      destruct (prefix_search_cases a path) as [[E Hb']|[(_ & H' & _)|[? _]]]; [| |done].
      * exfalso. destruct Hb' as [->|(c & r & -> & _)]; [by apply (path_lt_irrefl path); eapply path_lt_trans|].
        apply (path_lt_irrefl path). eapply path_lt_trans; [apply path_lt_app|]. by eapply path_lt_trans.
      * exfalso. apply (path_lt_irrefl path). eapply path_lt_trans; [exact H'|]. by eapply path_lt_trans.
Qed.

(** *** Any sequence of operations *)

Inductive paths_op := Add (path : list Z) | Remove (path : list Z).

Definition op_path (op : paths_op) : list Z := match op with Add path | Remove path => path end.

(** The tree, and what the operations have returned *)
Definition paths_run (ops : list paths_op) : paths * list bool :=
  foldl (λ '(tree, results) op,
    let '(tree, result) := match op with Add path => cockpit_paths_add tree path | Remove path => cockpit_paths_remove tree path end in
    (tree, results ++ [result])) (cockpit_paths_new, []) ops.

(** The same for a set *)
Definition set_run (ops : list paths_op) : gset (list Z) * list bool :=
  foldl (λ '(s, results) op,
    match op with
    | Add path => ({[path]} ∪ s, results ++ [bool_decide (path ∉ s)])
    | Remove path => (s ∖ {[path]}, results ++ [bool_decide (path ∈ s)])
    end) (∅, []) ops.

Record tree_of (tree : paths) (s : gset (list Z)) : Prop := {
  to_sorted : sorted tree;
  to_elem : ∀ p, p ∈ tree ↔ p ∈ s
}.

Lemma add_tree_of tree s path : tree_of tree s →
  cockpit_paths_add tree path = ((cockpit_paths_add tree path).1, bool_decide (path ∉ s)) ∧ tree_of (cockpit_paths_add tree path).1 ({[path]} ∪ s).
Proof.
  intros [Hs He]. unfold cockpit_paths_add. rewrite tree_lookup_eq by done. destruct (decide (path ∈ tree)) as [Hin|Hin]; rewrite He in Hin; cbn [fst].
  - rewrite bool_decide_eq_false_2 by tauto. split; [done|]. split; [done|]. intros p. rewrite He. set_solver.
  - rewrite bool_decide_eq_true_2 by done. split; [done|]. split; [by apply replace_sorted|]. intros p. rewrite replace_elem, He. set_solver.
Qed.

Lemma remove_tree_of tree s path : tree_of tree s →
  cockpit_paths_remove tree path = ((cockpit_paths_remove tree path).1, bool_decide (path ∈ s)) ∧ tree_of (cockpit_paths_remove tree path).1 (s ∖ {[path]}).
Proof.
  intros [Hs He]. unfold cockpit_paths_remove. rewrite tree_lookup_eq by done. destruct (decide (path ∈ tree)) as [Hin|Hin]; rewrite He in Hin; cbn [fst].
  - rewrite bool_decide_eq_true_2 by done. split; [done|]. split; [by apply filter_sorted|]. intros p.
    rewrite list_elem_of_filter, path_cmp_eq, He. set_solver.
  - rewrite bool_decide_eq_false_2 by done. split; [done|]. split; [done|]. intros p. rewrite He. set_solver.
Qed.

Lemma run_tree_of ops : (paths_run ops).2 = (set_run ops).2 ∧ tree_of (paths_run ops).1 (set_run ops).1.
Proof.
  unfold paths_run, set_run. induction ops as [|op ops IH] using rev_ind; [split; [done|split; [constructor|cbn; set_solver]]|]. rewrite !foldl_app. cbn [foldl].
  destruct (foldl _ (cockpit_paths_new, []) ops) as [tree results], (foldl _ (∅, []) ops) as [s results']. cbn in IH. destruct IH as [-> IH].
  destruct op as [path|path]; [destruct (add_tree_of tree s path IH) as [E H]|destruct (remove_tree_of tree s path IH) as [E H]]; rewrite E; by split.
Qed.

(** C32: a tree of paths is a set of paths, however it is balanced.  After any additions and removals: each has returned
    whether it has changed the set; a path is found if it is in the set; for any other path the nearest one is
    found that is an ancestor of it, if there is one; and it is found whether there is one below it, if no character of
    the paths sorts before the slash. *)
Theorem paths_are_a_set ops path : let tree := (paths_run ops).1 in let s := (set_run ops).1 in
  Forall (absolute ∘ op_path) ops → absolute path →
  (paths_run ops).2 = (set_run ops).2 ∧
  cockpit_paths_contain tree path = (if decide (path ∈ s) then Some path else None) ∧
  nearest (.∈ s) path (cockpit_paths_contain_or_ancestor tree path) ∧
  (Forall (dbus_path ∘ op_path) ops → dbus_path path →
    cockpit_paths_contain_or_descendant tree path = true ↔ ∃ p, p ∈ s ∧ below p path).
Proof.
  intros tree s Ho Hp. destruct (run_tree_of ops) as [Er [Hs He]]. fold tree s in Hs, He.
  assert (Hall : ∀ (P : list Z → Prop), Forall (P ∘ op_path) ops → ∀ p, p ∈ s → P p).
  { intros P. clear. subst s. unfold set_run. induction ops as [|op ops IH] using rev_ind; [set_solver|].
    intros [H1 H2]%Forall_app p. rewrite foldl_app. cbn [foldl]. specialize (IH H1). destruct (foldl _ (∅, []) ops) as [s results].
    apply Forall_cons in H2 as [H2 _]. cbn in IH, H2. destruct op as [q|q]; cbn; [intros [->%elem_of_singleton|?]%elem_of_union|intros [? _]%elem_of_difference]; auto. }
  assert (Ht : ∀ P : list Z → Prop, Forall (P ∘ op_path) ops → Forall P tree).
  { intros P H. apply Forall_forall. intros p Hin. apply (Hall P H), He, Hin. }
  split_and!.
  - exact Er.
  - unfold cockpit_paths_contain. rewrite tree_lookup_eq by done. destruct (decide _), (decide _); naive_solver.
  - pose proof (contain_or_ancestor_nearest tree path Hs Hp (Ht _ Ho)) as H. destruct (cockpit_paths_contain_or_ancestor tree path) as [p|]; cbn in *.
    + setoid_rewrite He in H. done.
    + by setoid_rewrite He in H.
  - intros Hd Hdp. rewrite contain_or_descendant_below by auto. by setoid_rewrite He.
Qed.
End Found.

(** ** The relations of paths *)

(** An ancestor of a path, or the path itself; a parent is an ancestor with nothing between. *)
Lemma path_relations path p : nul_free path → path ≠ [] →
  (cockpit_path_equal_or_ancestor path p = bool_decide (p = path) || cockpit_path_has_ancestor path p) ∧
  (cockpit_path_has_parent path p = true → cockpit_path_has_ancestor path p = true).
Proof.
  intros Hn Hp. split.
  - unfold cockpit_path_equal_or_ancestor, cockpit_path_has_ancestor. destruct (decide (p = path)) as [->|Hne].
    + rewrite (bool_decide_eq_true_2 (path = path)) by done. cbn [orb].
      assert (E : char_at path (length path) = 0) by (by apply char_at_nul). rewrite E. cbn. rewrite andb_true_r.
      apply orb_true_iff. right. apply prefixb_spec. exists []. by rewrite app_nil_r.
    + rewrite (bool_decide_eq_false_2 (p = path)) by done. cbn [orb]. f_equal. destruct (prefixb p path) eqn:E; [|done]. cbn [andb].
      apply prefixb_spec in E as [r ->]. destruct (Z.eqb_spec (char_at (p ++ r) (length p)) 0) as [E|]; [|by rewrite orb_false_r].
      apply char_at_nul in E; [|done]. rewrite length_app in E. destruct r; [by rewrite app_nil_r in Hne|cbn in E; lia].
  - unfold cockpit_path_has_parent, cockpit_path_has_ancestor. destruct (decide (p = [slash])) as [->|Hr]; [done|].
    rewrite (bool_decide_eq_false_2 (p = [slash])) by done. cbn [andb orb]. by destruct (prefixb p path && _).
Qed.

(** The root is its own parent. *)
Lemma root_parent_of_itself : cockpit_path_has_parent (bs "/") (bs "/") = true.
Proof. done. Qed.

(** ** Two ways to balance a tree *)

Fixpoint comb {A} (l : list A) : gtree A :=
  match l with [] => Leaf | a :: l => Node Leaf a (comb l) end.

Lemma flatten_comb {A} (l : list A) : flatten (comb l) = l.
Proof. induction l as [|a l IH]; [done|]. cbn. by rewrite IH. Qed.

#[local] Instance comb_balanced : Balanced := {| balance := @comb; flatten_balance := @flatten_comb |}.

Fixpoint halves {A} (fuel : nat) (l : list A) : gtree A :=
  match fuel with
  | O => comb l
  | S fuel =>
      match drop (length l / 2) l with
      | [] => Leaf
      | a :: r => Node (halves fuel (take (length l / 2) l)) a (halves fuel r)
      end
  end.

Lemma flatten_halves {A} fuel (l : list A) : flatten (halves fuel l) = l.
Proof.
  revert l. induction fuel as [|fuel IH]; intros l; cbn [halves]; [apply flatten_comb|].
  destruct (drop (length l / 2) l) as [|a r] eqn:E.
  - destruct l as [|b l]; [done|]. apply (f_equal length) in E. rewrite length_drop in E. cbn [length] in E.
    pose proof (Nat.div_lt (S (length l)) 2). lia.
  - cbn. rewrite !IH, <- E. apply take_drop.
Qed.

#[local] Instance halves_balanced : Balanced := {| balance A := halves 20; flatten_balance A := flatten_halves 20 |}.

Definition example_paths : list paths_op := map Add [bs "/a"; bs "/c/3"; bs "/b"; bs "/c/3"; bs "/"] ++ [Remove (bs "/"); Remove (bs "/x")].

Lemma paths_are_a_set_witness : let tree := (paths_run example_paths).1 in let s := (set_run example_paths).1 in
  (paths_run example_paths).2 = (set_run example_paths).2 ∧
  cockpit_paths_contain tree (bs "/c") = (if decide (bs "/c" ∈ s) then Some (bs "/c") else None) ∧
  nearest (.∈ s) (bs "/c") (cockpit_paths_contain_or_ancestor tree (bs "/c")) ∧
  (Forall (dbus_path ∘ op_path) example_paths → dbus_path (bs "/c") →
    cockpit_paths_contain_or_descendant tree (bs "/c") = true ↔ ∃ p, p ∈ s ∧ below p (bs "/c")).
Proof. apply (paths_are_a_set example_paths (bs "/c")); unfold absolute, nul_free; [|by_decide]. repeat constructor; cbn; done. Defined.

(** As in the tests *)
Example descendant_found : let tree := (paths_run example_paths).1 in
  cockpit_paths_contain_or_descendant tree (bs "/c") = true ∧ cockpit_paths_contain_or_descendant tree (bs "/c/3/4") = false ∧
  cockpit_paths_contain_or_ancestor tree (bs "/b/2") = Some (bs "/b") ∧ cockpit_paths_contain_or_ancestor tree (bs "/b2") = None.
Proof. by vm_compute. Qed.

(** A path with a character that sorts before the slash hides those below its prefix. *)
Lemma descendant_missed : let tree := (paths_run [Add (bs "/a-b"); Add (bs "/a/b")]).1 in
  bs "/a/b" ∈ tree ∧ cockpit_paths_contain_or_descendant (balanced := comb_balanced) tree (bs "/a") = false.
Proof. split; [by_decide|by vm_compute]. Qed.

(** A path is added though a parent of it is there. *)
Lemma added_below_parent : (paths_run [Add (bs "/a"); Add (bs "/a/b")]).2 = [true; true].
Proof. by vm_compute. Qed.
