(* ===== verification/DBusRules.v ===== *)
(** * Match rules for D-Bus signals: [src/bridge/cockpitdbusrules.c]

    The bridge keeps which signals a page has asked for, and how often, and looks for a signal through shortcuts: whether there
    are rules at all, the paths of the rules, in a table and in a tree of [Paths], and whether they ask for more
    than a path.

    The hash functions of GLib are given.  The order in which a hash table is gone through is that of a list; nothing
    depends on it.

    Shown: the shortcuts and the counting are right: after any additions and removals a signal matches exactly if a rule
    that has been added more often than removed matches it, as long as the table can tell the rules apart.  It
    cannot always: what is compared leaves two fields out. *)

From S2P Require Import Prelude Objects Paths.
#[local] Open Scope Z_scope.

Record RuleData := mkRule {
  refs : Z;
  path : list Z;
  is_namespace : bool;
  interface : option (list Z);
  member : option (list Z);
  arg0 : option (list Z)
}.

#[export] Instance rule_eta : Settable RuleData := λ r, mkRule (refs r) (path r) (is_namespace r) (interface r) (member r) (arg0 r).

#[export] Instance rule_data_eq_dec : EqDecision RuleData.
Proof. solve_decision. Defined.

#[export] Instance rule_data_countable : Countable RuleData.
Proof.
  apply (inj_countable' (λ r, (refs r, path r, is_namespace r, interface r, member r, arg0 r))
    (λ '(a, b, c, d, e, f), mkRule a b c d e f)). by intros [].
Defined.

Record CockpitDBusRules := mkRules {
  all : list RuleData;
  paths : gset (list Z);
  path_namespaces : list (list Z);
  all_paths : bool;
  only_paths : bool;
  nothing : bool
}.

#[export] Instance rules_eta : Settable CockpitDBusRules := λ r,
  mkRules (all r) (paths r) (path_namespaces r) (all_paths r) (only_paths r) (nothing r).

(** What is not asked for is not compared; a message may be without an argument. *)
Definition rule_match (rule : RuleData) (path' : list Z) (interface' member' arg0' : option (list Z)) : bool :=
  (bool_decide (path rule = path') || is_namespace rule && cockpit_path_equal_or_ancestor path' (path rule)) &&
  negb (match interface', interface rule with Some i, Some i' => bool_decide (i ≠ i') | _, _ => false end) &&
  negb (match member', member rule with Some m, Some m' => bool_decide (m ≠ m') | _, _ => false end) &&
  negb (match arg0 rule with Some _ => bool_decide (arg0' ≠ arg0 rule) | None => false end).

Section Rules.
Context `{!Balanced} (g_str_hash : list Z → Z) (g_int_hash : bool → Z).

Definition rule_hash (rule : RuleData) : Z :=
  let hash o := match o with Some s => g_str_hash s | None => 0 end in
  Z.lxor (Z.lxor (Z.lxor (Z.lxor (g_str_hash (path rule)) (g_int_hash (is_namespace rule))) (hash (interface rule)))
    (hash (member rule))) (hash (arg0 rule)).

Definition rule_equal (r1 r2 : RuleData) : bool :=
  bool_decide (is_namespace r1 = is_namespace r2) && bool_decide (path r1 = path r2) && bool_decide (interface r1 = interface r2).

Definition cockpit_dbus_rules_match (rules : CockpitDBusRules) (path : list Z) (interface member arg0 : option (list Z)) : bool :=
  if nothing rules then false
  else if negb (all_paths rules) && negb (bool_decide (is_Some (cockpit_paths_contain_or_ancestor (path_namespaces rules) path))) &&
          negb (bool_decide (path ∈ paths rules)) then false
  else if only_paths rules then true
  else existsb (λ rule, rule_match rule path interface member arg0) (all rules).

Definition cockpit_dbus_rules_new : CockpitDBusRules := mkRules [] ∅ cockpit_paths_new false false true.

(** A key of a hash table is found by its hash, and then compared. *)
Definition same_key (r1 r2 : RuleData) : bool := (rule_hash r1 =? rule_hash r2) && rule_equal r1 r2.

Definition rule_lookup (rules : CockpitDBusRules) (key : RuleData) : option nat :=
  fst <$> list_find (λ rule, same_key rule key = true) (all rules).

Definition recompile_rule (rules : CockpitDBusRules) (rule : RuleData) : CockpitDBusRules :=
  let rules := rules <| nothing := false |> in
  let rules :=
    if is_namespace rule then
      rules <| all_paths ::= orb (bool_decide (path rule = [slash])) |>
            <| path_namespaces ::= λ tree, (cockpit_paths_add tree (path rule)).1 |>
    else rules <| paths ::= λ s, {[path rule]} ∪ s |> in
  if bool_decide (is_Some (interface rule) ∨ is_Some (member rule) ∨ is_Some (arg0 rule)) then rules <| only_paths := false |> else rules.

Definition recompile_rules (rules : CockpitDBusRules) : CockpitDBusRules :=
  foldl recompile_rule (mkRules (all rules) ∅ cockpit_paths_new false true true) (all rules).

(** The rule for a path, or for everything *)
Definition rule_key (path : option (list Z)) (is_namespace : bool) (interface member arg0 : option (list Z)) : RuleData :=
  match path with
  | Some path => mkRule 0 path is_namespace interface member arg0
  | None => mkRule 0 [slash] true interface member arg0
  end.

(** Whether the rule is new *)
Definition cockpit_dbus_rules_add (rules : CockpitDBusRules) (path : option (list Z)) (is_namespace : bool)
    (interface member arg0 : option (list Z)) : CockpitDBusRules * bool :=
  let key := rule_key path is_namespace interface member arg0 in
  match (if nothing rules then None else rule_lookup rules key) with
  | None => (recompile_rules (rules <| all ::= λ l, l ++ [key <| refs := 1 |>] |>), true)
  | Some i => (rules <| all ::= alter (λ rule, rule <| refs ::= Z.add 1 |>) i |>, false)
  end.

(** Whether the rule is gone *)
Definition cockpit_dbus_rules_remove (rules : CockpitDBusRules) (path : option (list Z)) (is_namespace : bool)
    (interface member arg0 : option (list Z)) : CockpitDBusRules * bool :=
  let key := rule_key path is_namespace interface member arg0 in
  if nothing rules then (rules, false)
  else
    match rule_lookup rules key with
    | None => (rules, false)
    | Some i =>
        let rules := rules <| all ::= alter (λ rule, rule <| refs ::= Z.pred |>) i |> in
        if bool_decide (refs <$> (all rules !! i) = Some 0) then (recompile_rules (rules <| all ::= delete i |>), true)
        else (rules, false)
    end.
End Rules.

(** ** The shortcuts *)

Section Match.
Context {balanced : Balanced}.

Notation recompile l := (foldl recompile_rule (mkRules l ∅ cockpit_paths_new false true true) l).

(** More than a path *)
Definition asks_more (rule : RuleData) : Prop := is_Some (interface rule) ∨ is_Some (member rule) ∨ is_Some (arg0 rule).

Definition path_matches (rule : RuleData) (p : list Z) : Prop :=
  path rule = p ∨ is_namespace rule = true ∧ cockpit_path_equal_or_ancestor p (path rule) = true.

Record compiled (l : list RuleData) (s : CockpitDBusRules) : Prop := {
  co_nothing : nothing s = bool_decide (l = []);
  co_all_paths : all_paths s = true ↔ ∃ rule, rule ∈ l ∧ is_namespace rule = true ∧ path rule = [slash];
  co_paths : ∀ p, p ∈ paths s ↔ ∃ rule, rule ∈ l ∧ is_namespace rule = false ∧ path rule = p;
  co_sorted : sorted (path_namespaces s);
  co_namespaces : ∀ p, p ∈ path_namespaces s ↔ ∃ rule, rule ∈ l ∧ is_namespace rule = true ∧ path rule = p;
  co_only_paths : only_paths s = true ↔ ∀ rule, rule ∈ l → ¬ asks_more rule
}.

Lemma paths_add_elem tree p q : sorted tree → q ∈ (cockpit_paths_add tree p).1 ↔ q = p ∨ q ∈ tree.
Proof.
  intros Hs. unfold cockpit_paths_add. rewrite tree_lookup_eq by done. destruct (decide _); [|apply replace_elem]. cbn. naive_solver.
Qed.

Lemma paths_add_sorted tree p : sorted tree → sorted (cockpit_paths_add tree p).1.
Proof. intros Hs. unfold cockpit_paths_add. destruct (tree_lookup tree p); [done|by apply replace_sorted]. Qed.

Lemma exists_snoc (l : list RuleData) rule (P : RuleData → Prop) : (∃ r, r ∈ l ++ [rule] ∧ P r) ↔ (∃ r, r ∈ l ∧ P r) ∨ P rule.
Proof.
  setoid_rewrite elem_of_app. setoid_rewrite list_elem_of_singleton. split; [intros (r & [? | ->] & ?); eauto|intros [(r & ? & ?)|?]; eauto].
Qed.

Lemma compiled_snoc l s rule : compiled l s → compiled (l ++ [rule]) (recompile_rule s rule).
Proof.
  intros [H1 H2 H3 H4 H5 H6]. unfold recompile_rule. set (s1 := s <| nothing := false |>).
  assert (E : ∀ s', nothing s' = false → nothing s' = bool_decide (l ++ [rule] = [])).
  { intros s' ->. by rewrite bool_decide_eq_false_2 by (by destruct l). }
  assert (Hm : ∀ s', only_paths s' = only_paths s → only_paths (if bool_decide (asks_more rule) then s' <| only_paths := false |> else s') = true ↔
      ∀ r, r ∈ l ++ [rule] → ¬ asks_more r).
  { intros s' Es. destruct (decide (asks_more rule)) as [Ha|Ha].
    - rewrite bool_decide_eq_true_2 by done. split; [done|]. intros Hall. destruct (Hall rule); [apply elem_of_app; right; by left|done].
    - rewrite bool_decide_eq_false_2, Es, H6 by done. split; [|intros Hall r Hr; apply Hall, elem_of_app; by left].
      intros Hall r [Hr| ->%list_elem_of_singleton]%elem_of_app; auto. }
  fold (asks_more rule). destruct (is_namespace rule) eqn:En.
  - set (s2 := update path_namespaces _ _). specialize (Hm s2 eq_refl).
    assert (C : compiled (l ++ [rule]) (if bool_decide (asks_more rule) then s2 <| only_paths := false |> else s2)); [|exact C].
    constructor; [| | | | |exact Hm]; destruct (bool_decide (asks_more rule)); try (by apply E);
      try (apply paths_add_sorted, H4); intros; rewrite ?exists_snoc; cbn.
    1,2: rewrite orb_true_iff, bool_decide_eq_true, H2, En; naive_solver.
    1,2: rewrite H3, En; naive_solver.
    all: rewrite paths_add_elem, H5, En by done; naive_solver.
  - set (s2 := update paths _ _). specialize (Hm s2 eq_refl).
    assert (C : compiled (l ++ [rule]) (if bool_decide (asks_more rule) then s2 <| only_paths := false |> else s2)); [|exact C].
    constructor; [| | | | |exact Hm]; destruct (bool_decide (asks_more rule)); try (by apply E); try exact H4; intros; rewrite ?exists_snoc; cbn.
    1,2: rewrite H2, En; naive_solver.
    1,2: rewrite elem_of_union, elem_of_singleton, H3, En; naive_solver.
    all: rewrite H5, En; naive_solver.
Qed.

Lemma recompile_fold a l : compiled l (foldl recompile_rule (mkRules a ∅ cockpit_paths_new false true true) l).
Proof.
  induction l as [|rule l IH] using rev_ind; [|rewrite foldl_app; by apply compiled_snoc].
  constructor; cbn; try done; try (constructor; fail); split; (try by intros (? & ?%elem_of_nil & _)); try done; intros; set_solver.
Qed.

Lemma compiled_path l s p : compiled l s → absolute p → Forall (λ rule, absolute (path rule)) l →
  negb (all_paths s) && negb (bool_decide (is_Some (cockpit_paths_contain_or_ancestor (path_namespaces s) p))) &&
    negb (bool_decide (p ∈ paths s)) = false ↔ ∃ rule, rule ∈ l ∧ path_matches rule p.
Proof.
  intros [_ H2 H3 H4 H5 _] Hp Hl. rewrite !andb_false_iff, !negb_false_iff, !bool_decide_eq_true, H2, H3.
  rewrite Forall_forall in Hl.
  assert (Ht : Forall absolute (path_namespaces s)) by (apply Forall_forall; intros q (rule & Hr & _ & <-)%H5; by apply Hl).
  assert (Hn : is_Some (cockpit_paths_contain_or_ancestor (path_namespaces s) p) ↔
    ∃ rule, rule ∈ l ∧ is_namespace rule = true ∧ cockpit_path_equal_or_ancestor p (path rule) = true).
  { pose proof (contain_or_ancestor_nearest _ p H4 Hp Ht) as H. destruct (cockpit_paths_contain_or_ancestor _ p) as [q|]; cbn in H.
    - split; [|by eauto]. intros _. destruct H as ((rule & ? & ? & <-)%H5 & ? & _). by exists rule.
    - split; [by intros []|]. intros (rule & Hr & Hns & Hm). destruct (H (path rule)); [|done]. apply H5. by exists rule. }
  rewrite Hn. unfold path_matches. split.
  - intros [[(rule & ? & ? & E)|(rule & ? & ? & ?)]|(rule & ? & ? & ?)]; exists rule; split; auto. right. split; [done|].
    unfold cockpit_path_equal_or_ancestor. by rewrite E.
  - intros (rule & Hr & [E|[? ?]]); [|left; right; by exists rule]. destruct (is_namespace rule) eqn:En; [|right; by exists rule].
    left; right. exists rule. split; [done|]. split; [done|]. apply reach_spec; [by destruct Hp|]. auto.
Qed.

Lemma rule_match_path rule p i m a : rule_match rule p i m a = true → path_matches rule p.
Proof.
  unfold rule_match, path_matches. rewrite !andb_true_iff, orb_true_iff, bool_decide_eq_true, andb_true_iff. tauto.
Qed.

Lemma rule_match_plain rule p i m a : ¬ asks_more rule → path_matches rule p → rule_match rule p i m a = true.
Proof.
  intros Ha Hp. unfold rule_match, path_matches, asks_more in *. destruct (interface rule); [destruct Ha; eauto|].
  destruct (member rule); [destruct Ha; eauto|]. destruct (arg0 rule); [destruct Ha; eauto|].
  rewrite !andb_true_iff, orb_true_iff, bool_decide_eq_true, andb_true_iff. by destruct i, m.
Qed.

Lemma match_compiled l s p i m a : compiled l s → all s = l → absolute p → Forall (λ rule, absolute (path rule)) l →
  cockpit_dbus_rules_match s p i m a = existsb (λ rule, rule_match rule p i m a) l.
Proof.
  intros C E Hp Hl. pose proof (compiled_path l s p C Hp Hl) as Hpath. unfold cockpit_dbus_rules_match. rewrite E.
  destruct C as [H1 _ _ _ _ H6]. rewrite H1. destruct (decide (l = [])) as [->|Hne]; [done|]. rewrite bool_decide_eq_false_2 by done.
  destruct (_ && negb (bool_decide (p ∈ paths s))).
  - symmetry. apply not_true_iff_false. intros (rule & Hr%list_elem_of_In & Hm)%existsb_exists. destruct Hpath as [_ Hpath].
    discriminate Hpath. exists rule. split; [done|]. by eapply rule_match_path.
  - destruct (only_paths s); [|done]. symmetry. apply existsb_exists. destruct Hpath as [(rule & Hr & Hm) _]; [done|].
    exists rule. split; [by apply list_elem_of_In|]. apply rule_match_plain; [|done]. by apply H6.
Qed.
End Match.

(** ** Rules are counted *)

Inductive rules_op :=
| AddRule (path : option (list Z)) (is_namespace : bool) (interface member arg0 : option (list Z))
| RemoveRule (path : option (list Z)) (is_namespace : bool) (interface member arg0 : option (list Z)).

Definition op_key (op : rules_op) : RuleData :=
  match op with AddRule p n i m a | RemoveRule p n i m a => rule_key p n i m a end.

Section Counted.
Context {balanced : Balanced} (g_str_hash : list Z → Z) (g_int_hash : bool → Z).

Notation same_key := (same_key g_str_hash g_int_hash).

(** The rules, and what the operations have returned *)
Definition rules_run (ops : list rules_op) : CockpitDBusRules * list bool :=
  foldl (λ '(rules, results) op,
    let '(rules, result) :=
      match op with
      | AddRule p n i m a => cockpit_dbus_rules_add g_str_hash g_int_hash rules p n i m a
      | RemoveRule p n i m a => cockpit_dbus_rules_remove g_str_hash g_int_hash rules p n i m a
      end in
    (rules, results ++ [result])) (cockpit_dbus_rules_new, []) ops.

(** How often a rule has been added and not removed *)
Definition count_step (counts : gmap RuleData Z) (op : rules_op) : gmap RuleData Z * bool :=
  let key := op_key op in
  match op, counts !! key with
  | AddRule _ _ _ _ _, None => (<[key := 1]> counts, true)
  | AddRule _ _ _ _ _, Some n => (<[key := 1 + n]> counts, false)
  | RemoveRule _ _ _ _ _, None => (counts, false)
  | RemoveRule _ _ _ _ _, Some n => if decide (n = 1) then (delete key counts, true) else (<[key := n - 1]> counts, false)
  end.

Definition count_run (ops : list rules_op) : gmap RuleData Z * list bool :=
  foldl (λ '(counts, results) op, let '(counts, result) := count_step counts op in (counts, results ++ [result])) (∅, []) ops.

(** The table can tell the rules apart. *)
Definition told_apart (keys : list RuleData) : Prop :=
  ∀ k1 k2, k1 ∈ keys → k2 ∈ keys → same_key k1 k2 = true → k1 = k2.

(** A rule as it is looked for *)
Definition key_of (rule : RuleData) : RuleData := rule <| refs := 0 |>.

Record rules_of (keys : list RuleData) (s : CockpitDBusRules) (counts : gmap RuleData Z) : Prop := {
  ru_compiled : compiled (all s) s ∨ s = cockpit_dbus_rules_new;
  ru_keys : ∀ rule, rule ∈ all s → key_of rule ∈ keys;
  ru_unique : NoDup (key_of <$> all s);
  ru_counts : ∀ key n, counts !! key = Some n ↔ ∃ rule, rule ∈ all s ∧ key_of rule = key ∧ refs rule = n;
  ru_pos : ∀ rule, rule ∈ all s → 0 < refs rule
}.

Lemma same_key_refs r k n : same_key (r <| refs := n |>) k = same_key r k.
Proof. done. Qed.

Lemma key_of_op op : key_of (op_key op) = op_key op.
Proof. by destruct op as [[p|] n i m a|[p|] n i m a]. Qed.

(** The rule that is looked for, if it is there *)
Lemma rule_lookup_spec keys s key : told_apart keys → (∀ rule, rule ∈ all s → key_of rule ∈ keys) → key ∈ keys → key_of key = key →
  match rule_lookup g_str_hash g_int_hash s key with
  | Some i => ∃ rule, all s !! i = Some rule ∧ key_of rule = key
  | None => ∀ rule, rule ∈ all s → key_of rule ≠ key
  end.
Proof.
  intros Ht Hk Hkey Ek. unfold rule_lookup. destruct (list_find _ (all s)) as [[i rule]|] eqn:E; cbn.
  - apply list_find_Some in E as (Hi & E & _). exists rule. split; [done|]. apply Ht; [|done|done].
    apply Hk. by eapply list_elem_of_lookup_2.
  - apply list_find_None in E. rewrite Forall_forall in E. intros rule Hr <-. destruct (E rule Hr).
    unfold same_key, DBusRules.same_key. rewrite andb_true_iff, Z.eqb_eq. split; [done|]. unfold rule_equal. by rewrite !bool_decide_eq_true_2.
Qed.

Lemma unique_at (l : list RuleData) i rule rule' : NoDup (key_of <$> l) → l !! i = Some rule → rule' ∈ l → key_of rule' = key_of rule → rule' = rule.
Proof.
  intros Hn Hi Hr E. apply list_elem_of_lookup in Hr as [j Hj].
  assert (i = j) as ->; [|congruence]. eapply (NoDup_lookup _ i j (key_of rule) Hn); rewrite list_lookup_fmap, ?Hi, ?Hj; cbn; congruence.
Qed.
Section Updated.
Context (l : list RuleData) (i : nat) (rule : RuleData) (f : RuleData → RuleData).
Context (unique : NoDup (key_of <$> l)) (found : l !! i = Some rule) (same : ∀ r, key_of (f r) = key_of r).

Lemma alter_keys : key_of <$> alter f i l = key_of <$> l.
Proof.
  apply list_eq. intros j. rewrite !list_lookup_fmap. destruct (decide (i = j)) as [<-|Hj].
  - rewrite list_lookup_alter_eq. rewrite found. cbn. by rewrite same.
  - by rewrite list_lookup_alter_ne.
Qed.

Lemma alter_elem r : r ∈ alter f i l ↔ r = f rule ∨ r ∈ l ∧ key_of r ≠ key_of rule.
Proof.
  split.
  - intros [j Hj]%list_elem_of_lookup. destruct (decide (i = j)) as [<-|Hne].
    + rewrite list_lookup_alter_eq, found in Hj. left. by simplify_eq/=.
    + rewrite list_lookup_alter_ne in Hj by done. right. split; [by eapply list_elem_of_lookup_2|]. intros E. apply Hne.
      eapply (NoDup_lookup _ i j (key_of rule) unique); rewrite list_lookup_fmap, ?found, ?Hj; cbn; congruence.
  - intros [-> | [[j Hj]%list_elem_of_lookup Hne]].
    + apply list_elem_of_lookup. exists i. by rewrite list_lookup_alter_eq, found.
    + apply list_elem_of_lookup. exists j. rewrite list_lookup_alter_ne; [done|]. intros ->. congruence.
Qed.

Lemma delete_elem r : r ∈ delete i l ↔ r ∈ l ∧ key_of r ≠ key_of rule.
Proof.
  pose proof (take_drop_middle _ _ _ found) as E. rewrite delete_take_drop. rewrite <- E in unique. rewrite <- E at 3.
  rewrite fmap_app, fmap_cons in unique. apply NoDup_app in unique as (_ & Hd & Hn). apply NoDup_cons in Hn as [Hn _].
  rewrite !elem_of_app, elem_of_cons. split.
  - intros [H|H]; (split; [tauto|]); intros Ek.
    + apply (Hd (key_of r)); [by apply list_elem_of_fmap_2|]. rewrite Ek. by left.
    + apply Hn. rewrite <- Ek. by apply list_elem_of_fmap_2.
  - intros [[H|[-> | H]] Hne]; [by left|done|by right].
Qed.
End Updated.

Lemma same_keys_in (l l' : list RuleData) rule : key_of <$> l = key_of <$> l' → rule ∈ l → ∃ rule', rule' ∈ l' ∧ key_of rule' = key_of rule.
Proof.
  intros E H. assert (Hk : key_of rule ∈ key_of <$> l') by (rewrite <- E; by apply list_elem_of_fmap_2).
  apply list_elem_of_fmap in Hk as (rule' & Ek & H'). by exists rule'.
Qed.

Lemma key_fields r r' : key_of r = key_of r' → path r = path r' ∧ is_namespace r = is_namespace r' ∧ (asks_more r ↔ asks_more r').
Proof. destruct r, r'. unfold key_of, asks_more. cbn. intros E. by simplify_eq. Qed.

(** The counts of the rules do not matter for the shortcuts. *)
Lemma compiled_keys l l' s : key_of <$> l = key_of <$> l' → compiled l s → compiled l' s.
Proof.
  intros E [H1 H2 H3 H4 H5 H6].
  assert (He : ∀ P : RuleData → Prop, (∀ r r', key_of r = key_of r' → P r → P r') → (∃ r, r ∈ l ∧ P r) ↔ (∃ r, r ∈ l' ∧ P r)).
  { intros P HP. split; intros (r & Hr & Hp).
    - destruct (same_keys_in _ _ _ E Hr) as (r' & ? & ?). exists r'. split; [done|]. by apply (HP r).
    - destruct (same_keys_in _ _ _ (eq_sym E) Hr) as (r' & ? & ?). exists r'. split; [done|]. by apply (HP r). }
  constructor; try done; intros.
  - rewrite H1. apply bool_decide_ext. apply (f_equal length) in E. rewrite !length_fmap in E. by destruct l, l'.
  - rewrite H2. apply He. intros r r' (-> & -> & _)%key_fields. done.
  - rewrite H3. apply He. intros r r' (-> & -> & _)%key_fields. done.
  - rewrite H5. apply He. intros r r' (-> & -> & _)%key_fields. done.
  - rewrite H6. split; intros Hall r Hr Ha.
    + destruct (same_keys_in _ _ _ (eq_sym E) Hr) as (r' & Hr' & (_ & _ & Hk)%key_fields). apply (Hall r' Hr'). tauto.
    + destruct (same_keys_in _ _ _ E Hr) as (r' & Hr' & (_ & _ & Hk)%key_fields). apply (Hall r' Hr'). tauto.
Qed.

(** *** Each operation *)

Lemma recompile_all s : all (recompile_rules s) = all s.
Proof.
  unfold recompile_rules. generalize (all s) at 2 as l. intros l. set (s0 := mkRules _ _ _ _ _ _). change (all s) with (all s0). clearbody s0.
  revert s0. induction l as [|rule l IH]; intros s0; cbn; [done|]. rewrite IH. unfold recompile_rule.
  by destruct (is_namespace rule), (bool_decide _).
Qed.

Lemma recompile_compiled s : compiled (all s) (recompile_rules s).
Proof. exact (recompile_fold (all s) (all s)). Qed.

Lemma lookup_nothing keys s counts key : rules_of keys s counts →
  (if nothing s then None else rule_lookup g_str_hash g_int_hash s key) = rule_lookup g_str_hash g_int_hash s key.
Proof.
  intros R. destruct (nothing s) eqn:E; [|done]. destruct (ru_compiled _ _ _ R) as [C| ->]; [|done].
  rewrite (co_nothing _ _ C) in E. apply bool_decide_eq_true in E. unfold rule_lookup. by rewrite E.
Qed.

Lemma counts_none keys s counts key : rules_of keys s counts → (∀ rule, rule ∈ all s → key_of rule ≠ key) → counts !! key = None.
Proof.
  intros R H. destruct (counts !! key) as [n|] eqn:E; [|done]. apply (ru_counts _ _ _ R) in E as (rule & Hr & Hk & _). by destruct (H rule).
Qed.

Lemma counts_some keys s counts rule : rules_of keys s counts → rule ∈ all s → counts !! key_of rule = Some (refs rule).
Proof. intros R H. apply (ru_counts _ _ _ R). by exists rule. Qed.

(** A rule gets another count. *)
Lemma rules_altered keys s counts i rule f n : rules_of keys s counts → all s !! i = Some rule →
  (∀ r, key_of (f r) = key_of r) → refs (f rule) = n → 0 < n →
  rules_of keys (s <| all ::= alter f i |>) (<[key_of rule := n]> counts).
Proof.
  intros [C Hk Hu Hc Hp] Hi Hf Hn Hpos. pose proof (alter_keys (all s) i rule f Hi Hf) as Ek.
  pose proof (alter_elem (all s) i rule f Hu Hi) as He. constructor.
  - left. eapply compiled_keys; [symmetry; exact Ek|]. destruct C as [C| ->]; [by destruct C|done].
  - intros r [-> | [Hr _]]%He; [rewrite Hf; apply Hk; by eapply list_elem_of_lookup_2|by apply Hk].
  - change (NoDup (key_of <$> alter f i (all s))). by rewrite Ek.
  - intros key m. change (all (s <| all ::= alter f i |>)) with (alter f i (all s)). setoid_rewrite He.
    destruct (decide (key_of rule = key)) as [<-|Hne].
    + rewrite lookup_insert_eq. split.
      * intros [= <-]. exists (f rule). rewrite Hf. by auto.
      * intros (r & [-> | [_ Hne]] & E & <-); [by rewrite Hn|done].
    + rewrite lookup_insert_ne, Hc by done. split.
      * intros (r & Hr & <- & <-). exists r. split; [right; split; [done|congruence]|done].
      * intros (r & [-> | [Hr _]] & <- & <-); [by rewrite Hf in Hne|by exists r].
  - intros r [-> | [Hr _]]%He; [lia|by apply Hp].
Qed.

Lemma rules_added keys s counts key : rules_of keys s counts → key ∈ keys → key_of key = key → (∀ rule, rule ∈ all s → key_of rule ≠ key) →
  rules_of keys (recompile_rules (s <| all ::= λ l, l ++ [key <| refs := 1 |>] |>)) (<[key := 1]> counts).
Proof.
  intros [C Hk Hu Hc Hp] Hkey Ek Hn. set (s' := s <| all ::= _ |>). assert (Ea : all s' = all s ++ [key <| refs := 1 |>]) by done.
  assert (He : ∀ r, r ∈ all s' ↔ r ∈ all s ∨ r = key <| refs := 1 |>) by (intros r; rewrite Ea, elem_of_app, list_elem_of_singleton; done).
  assert (Ek1 : key_of (key <| refs := 1 |>) = key) by (rewrite <- Ek; done).
  constructor; rewrite recompile_all.
  - left. apply recompile_compiled.
  - intros r [Hr | ->]%He; [by apply Hk|by rewrite Ek1].
  - rewrite Ea, fmap_app. apply NoDup_app. split; [done|]. split; [|apply NoDup_singleton]. cbn [fmap list_fmap]. rewrite Ek1.
    intros k (r & -> & Hr)%list_elem_of_fmap E%list_elem_of_singleton. by apply (Hn r).
  - intros k n. setoid_rewrite He. destruct (decide (key = k)) as [<-|Hne].
    + rewrite lookup_insert_eq. split.
      * intros [= <-]. eexists. split; [by right|done].
      * intros (r & [Hr | ->] & E & <-); [by destruct (Hn r)|done].
    + rewrite lookup_insert_ne, Hc by done. split.
      * intros (r & Hr & E & E'). exists r. auto.
      * intros (r & [Hr | ->] & E & E'); [by exists r|congruence].
  - intros r [Hr | ->]%He; [by apply Hp|done].
Qed.

Lemma rules_deleted keys s counts i rule : rules_of keys s counts → all s !! i = Some rule →
  rules_of keys (recompile_rules (s <| all ::= delete i |>)) (delete (key_of rule) counts).
Proof.
  intros [C Hk Hu Hc Hp] Hi. pose proof (delete_elem (all s) i rule Hu Hi) as He. set (s' := s <| all ::= _ |>).
  assert (Ea : all s' = delete i (all s)) by done. rewrite <- Ea in He. constructor; rewrite recompile_all.
  - left. apply recompile_compiled.
  - intros r [Hr _]%He. by apply Hk.
  - rewrite Ea, delete_take_drop, fmap_app. rewrite <- (take_drop_middle _ _ _ Hi), fmap_app, fmap_cons in Hu.
    apply NoDup_app in Hu as (? & Hd & [_ ?]%NoDup_cons). apply NoDup_app. split_and!; try done. intros x Hx Hx'. apply (Hd x Hx). by right.
  - intros k n. setoid_rewrite He. destruct (decide (key_of rule = k)) as [<-|Hne].
    + rewrite lookup_delete_eq. split; [done|]. intros (r & [_ Hne] & E & _). by rewrite E in Hne.
    + rewrite lookup_delete_ne, Hc by done. split; intros (r & Hr & E & E'); [|by exists r; destruct Hr]. exists r. split; [split; [done|congruence]|done].
  - intros r [Hr _]%He. by apply Hp.
Qed.

Lemma add_ok keys s counts p n i m a : told_apart keys → rules_of keys s counts → rule_key p n i m a ∈ keys →
  let '(s', result) := cockpit_dbus_rules_add g_str_hash g_int_hash s p n i m a in
  let '(counts', result') := count_step counts (AddRule p n i m a) in result = result' ∧ rules_of keys s' counts'.
Proof.
  intros Ht R Hkey. unfold cockpit_dbus_rules_add, count_step. cbn [op_key]. rewrite (lookup_nothing _ _ _ _ R).
  set (key := rule_key p n i m a) in *. assert (Ek : key_of key = key) by apply (key_of_op (AddRule p n i m a)).
  pose proof (rule_lookup_spec keys s key Ht (ru_keys _ _ _ R) Hkey Ek) as Hl.
  destruct (rule_lookup g_str_hash g_int_hash s key) as [j|].
  - destruct Hl as (rule & Hj & Er). rewrite <- Er.
    rewrite (counts_some _ _ _ rule R) by (by eapply list_elem_of_lookup_2). split; [done|].
    apply rules_altered; try done. pose proof (ru_pos _ _ _ R rule) as Hp. apply list_elem_of_lookup_2 in Hj. specialize (Hp Hj). lia.
  - rewrite (counts_none _ _ _ _ R Hl). split; [done|]. by apply rules_added.
Qed.

Lemma remove_ok keys s counts p n i m a : told_apart keys → rules_of keys s counts → rule_key p n i m a ∈ keys →
  let '(s', result) := cockpit_dbus_rules_remove g_str_hash g_int_hash s p n i m a in
  let '(counts', result') := count_step counts (RemoveRule p n i m a) in result = result' ∧ rules_of keys s' counts'.
Proof.
  intros Ht R Hkey. unfold cockpit_dbus_rules_remove, count_step. cbn [op_key]. pose proof (lookup_nothing _ _ _ (rule_key p n i m a) R) as Hno.
  set (key := rule_key p n i m a) in *. assert (Ek : key_of key = key) by apply (key_of_op (RemoveRule p n i m a)).
  pose proof (rule_lookup_spec keys s key Ht (ru_keys _ _ _ R) Hkey Ek) as Hl. rewrite <- Hno in Hl.
  destruct (nothing s) eqn:En; [by rewrite (counts_none _ _ _ _ R Hl)|].
  destruct (rule_lookup g_str_hash g_int_hash s key) as [j|]; [|by rewrite (counts_none _ _ _ _ R Hl)].
  destruct Hl as (rule & Hj & Er). assert (Hin : rule ∈ all s) by (by eapply list_elem_of_lookup_2).
  rewrite <- Er, (counts_some _ _ _ rule R Hin). pose proof (ru_pos _ _ _ R rule Hin) as Hp.
  set (dec := λ r : RuleData, r <| refs ::= Z.pred |>). change (all (s <| all ::= alter dec j |>)) with (alter dec j (all s)).
  rewrite list_lookup_alter_eq, Hj. cbn [fmap option_fmap option_map]. change (refs (dec rule)) with (Z.pred (refs rule)).
  destruct (decide (refs rule = 1)) as [E1|E1].
  - rewrite bool_decide_eq_true_2 by (rewrite E1; done). split; [done|]. 
    assert (Ed : delete j (alter dec j (all s)) = delete j (all s)) by (by rewrite !delete_take_drop, take_alter_ge, drop_alter_lt by lia).
    pose proof (rules_deleted _ _ _ _ _ R Hj) as Rd. cbn. cbn in Rd. by rewrite Ed.
  - rewrite bool_decide_eq_false_2 by (intros [=]; lia). split; [done|]. apply rules_altered; try done. lia.
Qed.

(** C31: rules count.  After any additions and removals of rules that the table can tell apart: each has returned whether the rule was
    not there before, or was there for the last time; and a signal matches, by the shortcuts, exactly if a rule matches it
    that has been added more often than it has been removed. *)
Theorem rules_counted ops p i m a : let s := (rules_run ops).1 in let counts := (count_run ops).1 in
  told_apart (op_key <$> ops) → Forall (λ op, absolute (path (op_key op))) ops → absolute p →
  (rules_run ops).2 = (count_run ops).2 ∧
  (cockpit_dbus_rules_match s p i m a = true ↔ ∃ key n, counts !! key = Some n ∧ rule_match key p i m a = true).
Proof.
  intros s counts Ht Ho Hp.
  enough (H : (rules_run ops).2 = (count_run ops).2 ∧ rules_of (op_key <$> ops) s counts).
  { destruct H as [H R]. split; [done|]. assert (Hl : Forall (λ rule, absolute (path rule)) (all s)).
    { apply Forall_forall. intros rule Hr. apply (ru_keys _ _ _ R) in Hr. apply list_elem_of_fmap in Hr as (op & E & Hop).
      rewrite Forall_forall in Ho. specialize (Ho op Hop). by rewrite <- E in Ho. }
    assert (Hm : cockpit_dbus_rules_match s p i m a = existsb (λ rule, rule_match rule p i m a) (all s)).
    { destruct (ru_compiled _ _ _ R) as [C|E]; [by apply match_compiled|by rewrite E]. }
    rewrite Hm, existsb_exists. clear Hm. split.
    - intros (rule & Hr%list_elem_of_In & Hm). exists (key_of rule), (refs rule). by rewrite (counts_some _ _ _ rule R).
    - intros (key & n & Hk & Hm). apply (ru_counts _ _ _ R) in Hk as (rule & Hr & <- & _). exists rule. by rewrite <- list_elem_of_In. }
  subst s counts. clear Ho Hp. unfold rules_run, count_run. set (keys := op_key <$> ops) in *.
  assert (Hk : ∀ op, op ∈ ops → op_key op ∈ keys) by (intros op Hop; by apply list_elem_of_fmap_2).
  clearbody keys. induction ops as [|op ops IH] using rev_ind.
  { split; [done|]. constructor; cbn.
    - by right.
    - by intros ? ?%elem_of_nil.
    - apply NoDup_nil_2.
    - intros key n'. rewrite lookup_empty. split; [done|by intros (? & ?%elem_of_nil & _)].
    - by intros ? ?%elem_of_nil.  }
  rewrite !foldl_app. cbn [foldl]. assert (Hop : op_key op ∈ keys) by (apply Hk, elem_of_app; right; by left).
  specialize (IH ltac:(intros op' Hop'; apply Hk, elem_of_app; by left)). destruct (foldl _ (cockpit_dbus_rules_new, []) ops) as [s results].
  destruct (foldl _ (∅, []) ops) as [counts results']. cbn in IH. destruct IH as [-> R].
  destruct op as [q n i' m' a'|q n i' m' a'].
  - pose proof (add_ok keys s counts q n i' m' a' Ht R Hop) as H. destruct (cockpit_dbus_rules_add _ _ _ _ _ _ _ _), (count_step _ _).
    by destruct H as [-> H].
  - pose proof (remove_ok keys s counts q n i' m' a' Ht R Hop) as H. destruct (cockpit_dbus_rules_remove _ _ _ _ _ _ _ _), (count_step _ _).
    by destruct H as [-> H].
Qed.
End Counted.

(** ** Examples *)

Definition no_hash (s : list Z) : Z := 0.

Definition example_rules : list rules_op :=
  [ AddRule (Some (bs "/org")) true (Some (bs "org.Interface")) None None;
    AddRule (Some (bs "/com/one")) false None (Some (bs "Changed")) None;
    AddRule (Some (bs "/org")) true (Some (bs "org.Interface")) None None;
    AddRule None false (Some (bs "com.Other")) None (Some (bs "arg"));
    RemoveRule (Some (bs "/org")) true (Some (bs "org.Interface")) None None;
    RemoveRule (Some (bs "/com/one")) false None (Some (bs "Changed")) None ].

#[local] Instance example_balanced : Balanced := {| balance A := comb; flatten_balance A := flatten_comb |}.

Lemma told_apart_forall h1 h2 keys :
  Forall (λ k1, Forall (λ k2, same_key h1 h2 k1 k2 = true → k1 = k2) keys) keys → told_apart h1 h2 keys.
Proof. intros H k1 k2 H1 H2. rewrite Forall_forall in H. specialize (H k1 H1). rewrite Forall_forall in H. by apply H. Qed.

Lemma rules_counted_witness :
  let s := (rules_run no_hash (λ _, 0) example_rules).1 in let counts := (count_run example_rules).1 in
  (rules_run no_hash (λ _, 0) example_rules).2 = (count_run example_rules).2 ∧
  (cockpit_dbus_rules_match s (bs "/org/one") (Some (bs "org.Interface")) None None = true ↔
    ∃ key n, counts !! key = Some n ∧ rule_match key (bs "/org/one") (Some (bs "org.Interface")) None None = true).
Proof.
  apply (rules_counted no_hash (λ _, 0) example_rules (bs "/org/one")).
  - apply told_apart_forall. by_decide.
  - repeat constructor; cbn; done.
  - by_decide.
Defined.

Lemma same_key_swapped g_str_hash g_int_hash p n i a b :
  same_key g_str_hash g_int_hash (mkRule 1 p n i (Some a) (Some b)) (mkRule 0 p n i (Some b) (Some a)) = true.
Proof.
  unfold same_key. apply andb_true_iff. split; [|unfold rule_equal; cbn; by rewrite !bool_decide_eq_true_2].
  apply Z.eqb_eq. unfold rule_hash. cbn -[Z.lxor]. rewrite !Z.lxor_assoc. do 3 f_equal. apply Z.lxor_comm.
Qed.

(** Two rules of which one has as its member what the other has as its argument are taken for the same, whatever the hash
    functions are: the second one is not added, and its signals do not match. *)
Lemma swapped_not_added g_str_hash g_int_hash : let one := bs "One" in let two := bs "Two" in let p := bs "/path" in
  let ops := [AddRule (Some p) false None (Some one) (Some two); AddRule (Some p) false None (Some two) (Some one)] in
  (rules_run g_str_hash g_int_hash ops).2 = [true; false] ∧
  cockpit_dbus_rules_match (rules_run g_str_hash g_int_hash ops).1 p (Some (bs "org.Interface")) (Some two) (Some one) = false.
Proof.
  intros one two p ops. unfold rules_run. cbn [foldl ops cockpit_dbus_rules_add]. unfold cockpit_dbus_rules_add, rule_lookup.
  cbn [foldl nothing cockpit_dbus_rules_new rule_key app]. cbn -[same_key bs]. rewrite same_key_swapped. split; [done|by vm_compute].
Qed.

(** Its removal takes the other one away. *)
Lemma swapped_removed g_str_hash g_int_hash : let one := bs "One" in let two := bs "Two" in let p := bs "/path" in
  let ops := [AddRule (Some p) false None (Some one) (Some two); RemoveRule (Some p) false None (Some two) (Some one)] in
  (rules_run g_str_hash g_int_hash ops).2 = [true; true] ∧ nothing (rules_run g_str_hash g_int_hash ops).1 = true.
Proof.
  intros one two p ops. unfold rules_run. cbn [foldl ops]. unfold cockpit_dbus_rules_add, cockpit_dbus_rules_remove, rule_lookup.
  cbn -[same_key bs]. rewrite same_key_swapped. done.
Qed.
