(* ===== verification/WebSocket.v ===== *)
(** * WebSocket connections: [src/websocket/websocketconnection.c]

    The framing of RFC 6455 as the code reads and writes it, the assembly of messages
    from fragments, the queue of outgoing frames with its urgent and last flags, the
    closing handshake and the state machine of the connection.  What the streams do is
    given with each call; [g_utf8_validate], the random masks and the HTTP handshake of
    the two subclasses are parameters.  Signals are recorded in a log in the order they
    are emitted; what a handler does in response is a later operation on the connection.
    The theorems show that the decoder inverts the encoder and buffers a bounded amount,
    that a fragmented message is delivered whole and once, that frames are never
    interleaved on the wire, and how the closing handshake ends. *)

From S2P Require Import Prelude.

(** The close codes the code uses. *)
Definition WEB_SOCKET_CLOSE_GOING_AWAY : Z := 1001.
Definition WEB_SOCKET_CLOSE_PROTOCOL : Z := 1002.
Definition WEB_SOCKET_CLOSE_BAD_DATA : Z := 1007.
Definition WEB_SOCKET_CLOSE_TOO_BIG : Z := 1009.
Definition WEB_SOCKET_CLOSE_TLS_HANDSHAKE : Z := 1015.

(** A [GError]: its domain, with what the code looks at. *)
Inductive tls_error := TlsNotTls | TlsMisc | TlsBadCertificate | TlsOther.
Inductive gerror := GWebSocket (code : Z) | GTls (e : tls_error) | GOther.

(** The checks of the code that log a critical message and give up the operation. *)
Inductive critical := AfterClose | EmptyFrame | QueueOverflow | NotOpen | NotUtf8.

(** Signals, and the other effects that can be observed. *)
Inductive signal :=
| OPEN
| MESSAGE (opcode : Z) (message : list Z)
| ERROR (e : gerror)
| CLOSING
| CLOSE
| PRESSURE (throttle : bool)
| SHUTDOWN_WR
| CLOSE_ASYNC
| CRITICAL (why : critical).

#[export] Instance signal_eq : EqDecision signal.
Proof. assert (EqDecision gerror) by (intros [] []; unfold Decision; repeat decide equality).
  unfold EqDecision, Decision. repeat decide equality. Defined.

Record Frame := mkFrame {
  f_data : list Z;
  f_last : bool;
  f_sent : Z;
  f_amount : Z
}.

Definition MAX_PAYLOAD : Z := 128 * 1024.
Definition QUEUE_PRESSURE : Z := 1 * 1024 * 1024.

Record connection := mkConn {
  server_side : bool;
  handshake_done : bool;
  peer_close_code : Z;
  peer_close_data : option (list Z);
  close_sent : bool;
  close_received : bool;
  dirty_close : bool;
  close_timeout : bool;
  start_idle : bool;
  io_stream : bool;
  io_open : bool;
  io_closed : bool;
  input_source : bool;
  output_source : bool;
  incoming : list Z;
  output_queued : Z;
  outgoing : list Frame;
  message_opcode : Z;
  message_data : option (list Z);
  n_random : nat;
  written : list Z;
  log : list signal
}.

Definition set_handshake_done (v : bool) (c : connection) : connection :=
  mkConn (server_side c) v (peer_close_code c) (peer_close_data c) (close_sent c)
    (close_received c) (dirty_close c) (close_timeout c) (start_idle c) (io_stream c)
    (io_open c) (io_closed c) (input_source c) (output_source c) (incoming c) (output_queued
    c) (outgoing c) (message_opcode c) (message_data c) (n_random c) (written c) (log c).
Definition set_peer_close_code (v : Z) (c : connection) : connection :=
  mkConn (server_side c) (handshake_done c) v (peer_close_data c) (close_sent c)
    (close_received c) (dirty_close c) (close_timeout c) (start_idle c) (io_stream c)
    (io_open c) (io_closed c) (input_source c) (output_source c) (incoming c) (output_queued
    c) (outgoing c) (message_opcode c) (message_data c) (n_random c) (written c) (log c).
Definition set_peer_close_data (v : option (list Z)) (c : connection) : connection :=
  mkConn (server_side c) (handshake_done c) (peer_close_code c) v (close_sent c)
    (close_received c) (dirty_close c) (close_timeout c) (start_idle c) (io_stream c)
    (io_open c) (io_closed c) (input_source c) (output_source c) (incoming c) (output_queued
    c) (outgoing c) (message_opcode c) (message_data c) (n_random c) (written c) (log c).
Definition set_close_sent (v : bool) (c : connection) : connection :=
  mkConn (server_side c) (handshake_done c) (peer_close_code c) (peer_close_data c) v
    (close_received c) (dirty_close c) (close_timeout c) (start_idle c) (io_stream c)
    (io_open c) (io_closed c) (input_source c) (output_source c) (incoming c) (output_queued
    c) (outgoing c) (message_opcode c) (message_data c) (n_random c) (written c) (log c).
Definition set_close_received (v : bool) (c : connection) : connection :=
  mkConn (server_side c) (handshake_done c) (peer_close_code c) (peer_close_data c)
    (close_sent c) v (dirty_close c) (close_timeout c) (start_idle c) (io_stream c) (io_open
    c) (io_closed c) (input_source c) (output_source c) (incoming c) (output_queued c)
    (outgoing c) (message_opcode c) (message_data c) (n_random c) (written c) (log c).
Definition set_dirty_close (v : bool) (c : connection) : connection :=
  mkConn (server_side c) (handshake_done c) (peer_close_code c) (peer_close_data c)
    (close_sent c) (close_received c) v (close_timeout c) (start_idle c) (io_stream c)
    (io_open c) (io_closed c) (input_source c) (output_source c) (incoming c) (output_queued
    c) (outgoing c) (message_opcode c) (message_data c) (n_random c) (written c) (log c).
Definition set_close_timeout (v : bool) (c : connection) : connection :=
  mkConn (server_side c) (handshake_done c) (peer_close_code c) (peer_close_data c)
    (close_sent c) (close_received c) (dirty_close c) v (start_idle c) (io_stream c)
    (io_open c) (io_closed c) (input_source c) (output_source c) (incoming c) (output_queued
    c) (outgoing c) (message_opcode c) (message_data c) (n_random c) (written c) (log c).
Definition set_start_idle (v : bool) (c : connection) : connection :=
  mkConn (server_side c) (handshake_done c) (peer_close_code c) (peer_close_data c)
    (close_sent c) (close_received c) (dirty_close c) (close_timeout c) v (io_stream c)
    (io_open c) (io_closed c) (input_source c) (output_source c) (incoming c) (output_queued
    c) (outgoing c) (message_opcode c) (message_data c) (n_random c) (written c) (log c).
Definition set_io_stream (v : bool) (c : connection) : connection :=
  mkConn (server_side c) (handshake_done c) (peer_close_code c) (peer_close_data c)
    (close_sent c) (close_received c) (dirty_close c) (close_timeout c) (start_idle c) v
    (io_open c) (io_closed c) (input_source c) (output_source c) (incoming c) (output_queued
    c) (outgoing c) (message_opcode c) (message_data c) (n_random c) (written c) (log c).
Definition set_io_open (v : bool) (c : connection) : connection :=
  mkConn (server_side c) (handshake_done c) (peer_close_code c) (peer_close_data c)
    (close_sent c) (close_received c) (dirty_close c) (close_timeout c) (start_idle c)
    (io_stream c) v (io_closed c) (input_source c) (output_source c) (incoming c)
    (output_queued c) (outgoing c) (message_opcode c) (message_data c) (n_random c) (written
    c) (log c).
Definition set_io_closed (v : bool) (c : connection) : connection :=
  mkConn (server_side c) (handshake_done c) (peer_close_code c) (peer_close_data c)
    (close_sent c) (close_received c) (dirty_close c) (close_timeout c) (start_idle c)
    (io_stream c) (io_open c) v (input_source c) (output_source c) (incoming c)
    (output_queued c) (outgoing c) (message_opcode c) (message_data c) (n_random c) (written
    c) (log c).
Definition set_input_source (v : bool) (c : connection) : connection :=
  mkConn (server_side c) (handshake_done c) (peer_close_code c) (peer_close_data c)
    (close_sent c) (close_received c) (dirty_close c) (close_timeout c) (start_idle c)
    (io_stream c) (io_open c) (io_closed c) v (output_source c) (incoming c) (output_queued
    c) (outgoing c) (message_opcode c) (message_data c) (n_random c) (written c) (log c).
Definition set_output_source (v : bool) (c : connection) : connection :=
  mkConn (server_side c) (handshake_done c) (peer_close_code c) (peer_close_data c)
    (close_sent c) (close_received c) (dirty_close c) (close_timeout c) (start_idle c)
    (io_stream c) (io_open c) (io_closed c) (input_source c) v (incoming c) (output_queued
    c) (outgoing c) (message_opcode c) (message_data c) (n_random c) (written c) (log c).
Definition set_incoming (v : list Z) (c : connection) : connection :=
  mkConn (server_side c) (handshake_done c) (peer_close_code c) (peer_close_data c)
    (close_sent c) (close_received c) (dirty_close c) (close_timeout c) (start_idle c)
    (io_stream c) (io_open c) (io_closed c) (input_source c) (output_source c) v
    (output_queued c) (outgoing c) (message_opcode c) (message_data c) (n_random c) (written
    c) (log c).
Definition set_output_queued (v : Z) (c : connection) : connection :=
  mkConn (server_side c) (handshake_done c) (peer_close_code c) (peer_close_data c)
    (close_sent c) (close_received c) (dirty_close c) (close_timeout c) (start_idle c)
    (io_stream c) (io_open c) (io_closed c) (input_source c) (output_source c) (incoming c)
    v (outgoing c) (message_opcode c) (message_data c) (n_random c) (written c) (log c).
Definition set_outgoing (v : list Frame) (c : connection) : connection :=
  mkConn (server_side c) (handshake_done c) (peer_close_code c) (peer_close_data c)
    (close_sent c) (close_received c) (dirty_close c) (close_timeout c) (start_idle c)
    (io_stream c) (io_open c) (io_closed c) (input_source c) (output_source c) (incoming c)
    (output_queued c) v (message_opcode c) (message_data c) (n_random c) (written c) (log c).
Definition set_message_opcode (v : Z) (c : connection) : connection :=
  mkConn (server_side c) (handshake_done c) (peer_close_code c) (peer_close_data c)
    (close_sent c) (close_received c) (dirty_close c) (close_timeout c) (start_idle c)
    (io_stream c) (io_open c) (io_closed c) (input_source c) (output_source c) (incoming c)
    (output_queued c) (outgoing c) v (message_data c) (n_random c) (written c) (log c).
Definition set_message_data (v : option (list Z)) (c : connection) : connection :=
  mkConn (server_side c) (handshake_done c) (peer_close_code c) (peer_close_data c)
    (close_sent c) (close_received c) (dirty_close c) (close_timeout c) (start_idle c)
    (io_stream c) (io_open c) (io_closed c) (input_source c) (output_source c) (incoming c)
    (output_queued c) (outgoing c) (message_opcode c) v (n_random c) (written c) (log c).
Definition set_n_random (v : nat) (c : connection) : connection :=
  mkConn (server_side c) (handshake_done c) (peer_close_code c) (peer_close_data c)
    (close_sent c) (close_received c) (dirty_close c) (close_timeout c) (start_idle c)
    (io_stream c) (io_open c) (io_closed c) (input_source c) (output_source c) (incoming c)
    (output_queued c) (outgoing c) (message_opcode c) (message_data c) v (written c) (log c).
Definition set_written (v : list Z) (c : connection) : connection :=
  mkConn (server_side c) (handshake_done c) (peer_close_code c) (peer_close_data c)
    (close_sent c) (close_received c) (dirty_close c) (close_timeout c) (start_idle c)
    (io_stream c) (io_open c) (io_closed c) (input_source c) (output_source c) (incoming c)
    (output_queued c) (outgoing c) (message_opcode c) (message_data c) (n_random c) v (log
    c).
Definition set_log (v : list signal) (c : connection) : connection :=
  mkConn (server_side c) (handshake_done c) (peer_close_code c) (peer_close_data c)
    (close_sent c) (close_received c) (dirty_close c) (close_timeout c) (start_idle c)
    (io_stream c) (io_open c) (io_closed c) (input_source c) (output_source c) (incoming c)
    (output_queued c) (outgoing c) (message_opcode c) (message_data c) (n_random c) (written
    c) v.

(** A new connection of a side, with what was read before it was made. *)
Definition web_socket_connection_constructed (server : bool) (input_buffer : list Z)
    : connection :=
  mkConn server false 0 None false false false false false false false false false false
    input_buffer 0 [] 0 None 0 [] [].

Definition emit (s : signal) (c : connection) : connection := set_log (log c ++ [s]) c.

Inductive ready_state := CONNECTING | STATE_OPEN | STATE_CLOSING | CLOSED.

#[export] Instance ready_state_eq : EqDecision ready_state.
Proof. solve_decision. Defined.

Definition web_socket_connection_get_ready_state (self : connection) : ready_state :=
  if io_closed self then CLOSED
  else if (io_stream self && negb (io_open self)) || close_sent self then STATE_CLOSING
  else if handshake_done self then STATE_OPEN
  else CONNECTING.

(** ** Closing the stream *)

Definition stop_input (self : connection) : connection := set_input_source false self.
Definition stop_output (self : connection) : connection := set_output_source false self.

Definition close_io_stop_timeout (self : connection) : connection :=
  set_start_idle false (set_close_timeout false self).

Definition close_io_stream (self : connection) : connection :=
  let self := close_io_stop_timeout self in
  if negb (io_stream self) && negb (io_closed self) then
    emit CLOSE (set_io_closed true self)
  else if io_open self then
    emit CLOSE_ASYNC (set_io_open false (stop_output (stop_input self)))
  else self.

Definition on_iostream_closed (error : option gerror) (self : connection) : connection :=
  let self := set_io_closed true self in
  let self :=
    match error with
    | Some e => set_dirty_close true (if negb (dirty_close self) then emit (ERROR e) self else self)
    | None => self
    end in
  emit CLOSE self.

Definition shutdown_wr_io_stream (self : connection) : connection :=
  emit SHUTDOWN_WR (stop_output self).

Definition on_timeout_close_io (self : connection) : connection :=
  close_io_stream (set_close_timeout false self).

Definition close_io_after_timeout (self : connection) : connection :=
  if close_timeout self then self else set_close_timeout true self.

(** ** Sending *)

Record queue_flags := QueueFlags { URGENT : bool; LAST : bool }.
Definition NORMAL : queue_flags := QueueFlags false false.

Definition start_output (self : connection) : connection :=
  if output_source self then self else set_output_source true self.

Definition G_MAXSIZE : Z := 2 ^ 64 - 1.

(** The place of a new frame in the queue. *)
Definition enqueue (flags : queue_flags) (frame : Frame) (q : list Frame) : list Frame :=
  if URGENT flags then
    match q with
    | [] => [frame]
    | prev :: q' => if f_sent prev >? 0 then prev :: frame :: q' else frame :: prev :: q'
    end
  else q ++ [frame].

Definition _web_socket_connection_queue (flags : queue_flags) (data : list Z) (amount : Z)
    (self : connection) : connection :=
  if close_sent self then emit (CRITICAL AfterClose) self
  else if zlen data =? 0 then emit (CRITICAL EmptyFrame) self
  else
    let len := zlen data in
    let frame := mkFrame data (LAST flags) 0 amount in
    let self := set_outgoing (enqueue flags frame (outgoing self)) self in
    let before := output_queued self in
    if negb (G_MAXSIZE - len >? output_queued self) then emit (CRITICAL QueueOverflow) self
    else
      let self := set_output_queued (output_queued self + len) self in
      let self := if (before <? QUEUE_PRESSURE) && (output_queued self >=? QUEUE_PRESSURE)
                  then emit (PRESSURE true) self else self in
      start_output self.

(** [data[n] ^= mask[n & 3]] from index [n] on. *)
Fixpoint xor_loop (mask : list Z) (n : Z) (data : list Z) : list Z :=
  match data with
  | [] => []
  | d :: data' =>
      Z.lxor d (default 0 (mask !! Z.to_nat (Z.land n 3))) :: xor_loop mask (n + 1) data'
  end.

Definition xor_with_mask_rfc6455 (mask data : list Z) : list Z := xor_loop mask 0 data.

(** The length as the second byte of the header and the bytes that follow it. *)
Definition frame_length (size : Z) : Z * list Z :=
  if size <? 126 then (Z.land 255 size, [])
  else if size <? 65536 then
    (126, [Z.land (Z.shiftr size 8) 255; Z.land (Z.shiftr size 0) 255])
  else
    (127, [Z.land (Z.shiftr size 56) 255; Z.land (Z.shiftr size 48) 255;
           Z.land (Z.shiftr size 40) 255; Z.land (Z.shiftr size 32) 255;
           Z.land (Z.shiftr size 24) 255; Z.land (Z.shiftr size 16) 255;
           Z.land (Z.shiftr size 8) 255; Z.land (Z.shiftr size 0) 255]).

(** A control message's payload is cut to 125 bytes. *)
Definition frame_payload (opcode : Z) (prefix payload : list Z) : list Z :=
  if negb (Z.land opcode 8 =? 0) && (zlen payload + zlen prefix >? 125) then
    let prefix := take 125 prefix in
    prefix ++ take (Z.to_nat (125 - zlen prefix)) payload
  else prefix ++ payload.

(** The bytes of a frame; a client masks it. *)
Definition frame_bytes (server : bool) (mask : list Z) (opcode : Z) (prefix payload : list Z)
    : list Z :=
  let data := frame_payload opcode prefix payload in
  let '(l, ext) := frame_length (zlen data) in
  let first := Z.lor 128 opcode in
  if server then first :: l :: ext ++ data
  else first :: Z.lor l 128 :: ext ++ mask ++ xor_with_mask_rfc6455 mask data.

Section WebSocket.
Context (g_utf8_validate : list Z → bool).
Context (g_random_int : nat → list Z).
Context (handshake : list Z → bool * list Z).

Definition send_prefixed_message_rfc6455 (flags : queue_flags) (opcode : Z)
    (prefix payload : list Z) (self : connection) : connection :=
  let amount := if negb (Z.land opcode 8 =? 0) then 0 else zlen payload + zlen prefix in
  let mask := g_random_int (n_random self) in
  let bytes := frame_bytes (server_side self) mask opcode prefix payload in
  let self := if server_side self then self else set_n_random (S (n_random self)) self in
  _web_socket_connection_queue flags bytes amount self.

Definition send_message_rfc6455 (flags : queue_flags) (opcode : Z) (payload : list Z)
    (self : connection) : connection :=
  send_prefixed_message_rfc6455 flags opcode [] payload self.

(** The reason is copied into what is left of a 128-byte buffer; the length counts all
    of it, and the message is cut when it is sent. *)
Definition close_payload (code : Z) (reason : option (list Z)) : list Z :=
  if code =? 0 then []
  else [Z.land (Z.shiftr code 8) 255; Z.land code 255] ++ default [] reason.

Definition send_close_rfc6455 (flags : queue_flags) (code : Z) (reason : option (list Z))
    (self : connection) : connection :=
  set_close_sent true (send_message_rfc6455 flags 8 (close_payload code reason) self).

(** ** Errors *)

Definition _web_socket_connection_error (error : option gerror) (self : connection)
    : connection * bool :=
  if decide (web_socket_connection_get_ready_state self ≠ CLOSED) then
    (match error with
     | Some e => emit (ERROR e) (set_dirty_close true self)
     | None => self
     end, true)
  else (self, false).

Definition _web_socket_connection_error_and_close (error : option gerror) (prejudice : bool)
    (self : connection) : connection :=
  let code := match error with Some (GWebSocket c) => c | _ => WEB_SOCKET_CLOSE_GOING_AWAY end in
  let self :=
    match error with
    | Some (GTls e) =>
        if server_side self then self
        else
          let self := set_peer_close_code WEB_SOCKET_CLOSE_TLS_HANDSHAKE self in
          match e with
          | TlsNotTls | TlsMisc => set_peer_close_data (Some (bs "protocol-error")) self
          | TlsBadCertificate => set_peer_close_data (Some (bs "unknown-hostkey")) self
          | TlsOther => self
          end
    | _ => self
    end in
  let '(self, ok) := _web_socket_connection_error error self in
  if negb ok then self
  else
    let prejudice := prejudice || negb (handshake_done self) in
    let ignore :=
      match web_socket_connection_get_ready_state self with
      | CLOSED => true
      | STATE_CLOSING => negb prejudice
      | _ => false
      end in
    if ignore then self
    else if prejudice then close_io_stream self
    else send_close_rfc6455 (QueueFlags true true) code None self.

Definition protocol_error_and_close (self : connection) : connection :=
  _web_socket_connection_error_and_close (Some (GWebSocket WEB_SOCKET_CLOSE_PROTOCOL)) false self.

Definition bad_data_error_and_close (self : connection) : connection :=
  _web_socket_connection_error_and_close (Some (GWebSocket WEB_SOCKET_CLOSE_BAD_DATA)) false self.

Definition too_big_error_and_close (self : connection) : connection :=
  stop_input
    (_web_socket_connection_error_and_close (Some (GWebSocket WEB_SOCKET_CLOSE_TOO_BIG)) true self).

(** ** Public operations *)

Inductive data_type := DATA_TEXT | DATA_BINARY.

Definition web_socket_connection_send (type : data_type) (prefix message : list Z)
    (self : connection) : connection :=
  if decide (web_socket_connection_get_ready_state self ≠ STATE_OPEN) then emit (CRITICAL NotOpen) self
  else
    match type with
    | DATA_TEXT =>
        if negb (g_utf8_validate prefix) || negb (g_utf8_validate message) then emit (CRITICAL NotUtf8) self
        else send_prefixed_message_rfc6455 NORMAL 1 prefix message self
    | DATA_BINARY => send_prefixed_message_rfc6455 NORMAL 2 prefix message self
    end.

(** The default handler of "closing" always agrees. *)
Definition web_socket_connection_close (code : Z) (data : option (list Z)) (self : connection)
    : connection :=
  if close_sent self then emit (CRITICAL AfterClose) self
  else
    let self := emit CLOSING self in
    if handshake_done self then
      let flags := QueueFlags false (server_side self && close_received self) in
      close_io_after_timeout (send_close_rfc6455 flags code data self)
    else close_io_stream self.

Definition web_socket_connection_get_buffered_amount (self : connection) : Z :=
  foldl (λ amount frame, amount + f_amount frame) 0 (outgoing self).

(** ** Receiving *)

Definition receive_close_rfc6455 (data : list Z) (self : connection) : connection :=
  let self := set_close_received true (set_peer_close_data None (set_peer_close_code 0 self)) in
  let self :=
    match data with
    | hi :: lo :: _ => set_peer_close_code (Z.lor (Z.shiftl hi 8) lo) self
    | _ => self
    end in
  let self :=
    if (zlen data >? 2) && g_utf8_validate (drop 2 data)
    then set_peer_close_data (Some (cstr (drop 2 data))) self else self in
  if close_sent self then
    let self := shutdown_wr_io_stream self in
    if server_side self then close_io_stream self else self
  else web_socket_connection_close (peer_close_code self) None self.

Definition receive_ping_rfc6455 (data : list Z) (self : connection) : connection :=
  send_message_rfc6455 (QueueFlags true false) 10 data self.

(** [Fault] is a failed assertion or an append to no array. *)
Definition process_contents_rfc6455 (control fin : bool) (opcode : Z) (payload : list Z)
    (self : connection) : comp unit connection :=
  if control then
    if negb fin then Ok (protocol_error_and_close self)
    else if opcode =? 8 then Ok (receive_close_rfc6455 payload self)
    else if opcode =? 9 then Ok (receive_ping_rfc6455 payload self)
    else Ok self
  else if close_received self then Ok self
  else
    let out_of_order :=
      if negb fin && negb (opcode =? 0) then bool_decide (message_data self ≠ None)
      else if negb fin then bool_decide (message_data self = None)
      else if opcode =? 0 then bool_decide (message_data self = None)
      else bool_decide (message_data self ≠ None) in
    if out_of_order then Ok (protocol_error_and_close self)
    else
      let self := if negb (opcode =? 0)
                  then set_message_data (Some []) (set_message_opcode opcode self) else self in
      if (message_opcode self =? 1) && negb (g_utf8_validate payload) then
        Ok (bad_data_error_and_close (set_message_opcode 0 (set_message_data None self)))
      else
        self ← (if (message_opcode self =? 1) || (message_opcode self =? 2) then
                  match message_data self with
                  | Some d => Ok (set_message_data (Some (d ++ payload)) self)
                  | None => Fault
                  end
                else Ok self);
        if fin then
          match message_data self with
          | None => Fault
          | Some message =>
              let opcode := message_opcode self in
              let self := set_message_opcode 0 (set_message_data None self) in
              Ok (emit (MESSAGE opcode message) self)
          end
        else Ok self.

(** What the start of the input holds. *)
Inductive decoded :=
| NeedMore
| TooBig
| Decoded (control fin : bool) (opcode : Z) (payload : list Z) (consumed : Z).

Definition be_value (l : list Z) : Z := foldl (λ v b, Z.lor (Z.shiftl v 8) b) 0 l.

Definition decode_frame (incoming : list Z) : decoded :=
  let len := zlen incoming in
  match incoming with
  | h0 :: h1 :: _ =>
      let fin := negb (Z.land h0 128 =? 0) in
      let control := negb (Z.land h0 8 =? 0) in
      let opcode := Z.land h0 15 in
      let masked := negb (Z.land h1 128 =? 0) in
      let code := Z.land h1 127 in
      let at_ := if code =? 126 then 4 else if code =? 127 then 10 else 2 in
      if len <? at_ then NeedMore
      else
        let payload_len := if (code =? 126) || (code =? 127)
                           then be_value (take (Z.to_nat (at_ - 2)) (drop 2 incoming))
                           else code in
        if payload_len >=? MAX_PAYLOAD then TooBig
        else if len <? at_ + payload_len then NeedMore
        else if masked then
          let mask := take 4 (drop (Z.to_nat at_) incoming) in
          let at_ := at_ + 4 in
          if len <? at_ + payload_len then NeedMore
          else Decoded control fin opcode
                 (xor_with_mask_rfc6455 mask
                    (take (Z.to_nat payload_len) (drop (Z.to_nat at_) incoming)))
                 (at_ + payload_len)
        else Decoded control fin opcode
               (take (Z.to_nat payload_len) (drop (Z.to_nat at_) incoming)) (at_ + payload_len)
  | _ => NeedMore
  end.

Definition process_frame_rfc6455 (self : connection) : comp unit (connection * bool) :=
  match decode_frame (incoming self) with
  | NeedMore => Ok (self, false)
  | TooBig => Ok (too_big_error_and_close self, false)
  | Decoded control fin opcode payload consumed =>
      self ← process_contents_rfc6455 control fin opcode payload self;
      Ok (set_incoming (drop (Z.to_nat consumed) (incoming self)) self, true)
  end.

(** [do more = process_frame () while (more)]: each turn that goes on consumes at least
    two bytes, so fuel of the length of the input is enough. *)
Fixpoint process_frames (fuel : nat) (self : connection) : comp unit connection :=
  match fuel with
  | O => Fault
  | S fuel' =>
      '(self, more) ← process_frame_rfc6455 self;
      if more : bool then process_frames fuel' self else Ok self
  end.

Definition process_incoming (self : connection) : comp unit connection :=
  let self :=
    if negb (handshake_done self) then
      let '(ok, rest) := handshake (incoming self) in
      let self := set_incoming rest self in
      if ok : bool then emit OPEN (set_handshake_done true self) else self
    else self in
  if handshake_done self then process_frames (S (length (incoming self))) self else Ok self.

(** Answers of a non-blocking read of at most 1024 bytes. *)
Inductive read_answer :=
| ReadSome (d : list Z)
| ReadWouldBlock
| ReadEnd
| ReadError (e : gerror) (junk : list Z).

(** The read loop: what was read, and the end or the error that stopped it; after an
    error the array keeps the 1024 bytes it was grown by, whatever they hold. *)
Fixpoint read_loop (answers : list read_answer) (incoming : list Z)
    : list Z * bool * option gerror :=
  match answers with
  | [] | ReadWouldBlock :: _ => (incoming, false, None)
  | ReadEnd :: _ => (incoming, true, None)
  | ReadError e junk :: _ => (incoming ++ junk, false, Some e)
  | ReadSome d :: answers' =>
      match take 1024 d with
      | [] => (incoming, true, None)
      | d => read_loop answers' (incoming ++ d)
      end
  end.

Definition on_web_socket_input (answers : list read_answer) (self : connection)
    : comp unit connection :=
  let '(inc, end_, error) := read_loop answers (incoming self) in
  match error with
  | Some e =>
      Ok (_web_socket_connection_error_and_close (Some e) true (set_incoming inc self))
  | None =>
      self ← process_incoming (set_incoming inc self);
      Ok (if end_ : bool then
            close_io_stream (if negb (close_sent self) || negb (close_received self)
                             then set_dirty_close true self else self)
          else self)
  end.

Definition start_input (self : connection) : connection := set_input_source true self.

Definition _web_socket_connection_take_io_stream (self : connection) : connection :=
  if io_stream self then self
  else set_start_idle true (set_io_open true (set_io_stream true self)).

Definition on_idle_start_input (self : connection) : comp unit connection :=
  process_incoming (start_input (set_start_idle false self)).

Definition on_throttle_pressure (throttle : bool) (self : connection) : connection :=
  if throttle then
    if io_open self && input_source self then stop_input self else self
  else
    if io_open self && negb (input_source self) then start_input self else self.

(** Answers of a non-blocking write. *)
Inductive write_answer := WriteSome (n : nat) | WriteWouldBlock | WriteError (e : gerror).

(** What follows a write of [count] bytes of the head [frame] of the queue. *)
Definition output_written (frame : Frame) (rest : list Frame) (count : nat) (self : connection)
    : comp unit connection :=
  let len := zlen (f_data frame) in
  let pending := drop (Z.to_nat (f_sent frame)) (f_data frame) in
  let self := set_written (written self ++ take count pending) self in
  let frame := mkFrame (f_data frame) (f_last frame) (f_sent frame + Z.of_nat count)
                 (f_amount frame) in
  if f_sent frame >=? len then
    _ ← cassert (len <=? output_queued self);
    let self := set_output_queued (output_queued self - len) (set_outgoing rest self) in
    Ok (if f_last frame then
          if server_side self then close_io_stream self
          else close_io_after_timeout (shutdown_wr_io_stream self)
        else self)
  else Ok (set_outgoing (frame :: rest) self).

(** The boolean is the result of the callback: whether its source is kept. *)
Definition on_web_socket_output (answer : write_answer) (self : connection)
    : comp unit (connection * bool) :=
  match outgoing self with
  | [] => Ok (stop_output self, true)
  | frame :: rest =>
      let len := zlen (f_data frame) in
      _ ← cassert (len >? 0);
      _ ← cassert (len >? f_sent frame);
      let before := output_queued self in
      let continue count :=
        self ← output_written frame rest count self;
        Ok (if (before >=? QUEUE_PRESSURE) && (output_queued self <? QUEUE_PRESSURE)
            then emit (PRESSURE false) self else self, true) in
      match answer with
      | WriteSome n => continue (Nat.min n (Z.to_nat (len - f_sent frame)))
      | WriteWouldBlock => continue 0%nat
      | WriteError e => Ok (_web_socket_connection_error_and_close (Some e) true self, false)
      end
  end.
End WebSocket.

(** ** Frames on the wire *)

Lemma lxor_twice a b : Z.lxor (Z.lxor a b) b = a.
Proof. by rewrite Z.lxor_assoc, Z.lxor_nilpotent, Z.lxor_0_r. Qed.

Lemma xor_twice mask n data : xor_loop mask n (xor_loop mask n data) = data.
Proof.
  revert n. induction data as [|d data IH]; intros n; cbn [xor_loop]; [done|].
  by rewrite lxor_twice, IH.
Qed.

Lemma xor_length mask n data : length (xor_loop mask n data) = length data.
Proof. revert n. induction data as [|d data IH]; intros n; cbn; [done|]. by rewrite IH. Qed.

Lemma opcode_bits op :
  0 ≤ op < 16 →
  Z.land (Z.lor 128 op) 15 = op ∧ Z.land (Z.lor 128 op) 8 = Z.land op 8 ∧
  Z.land (Z.lor 128 op) 128 ≠ 0 ∧ Z.land op 15 = op ∧ Z.land op 128 = 0.
Proof.
  revert op. apply (byte_dec (λ op, Z.land (Z.lor 128 op) 15 = op ∧
    Z.land (Z.lor 128 op) 8 = Z.land op 8 ∧ Z.land (Z.lor 128 op) 128 ≠ 0 ∧
    Z.land op 15 = op ∧ Z.land op 128 = 0) 16). by_decide.
Qed.

Lemma length_bits l :
  0 ≤ l < 128 → Z.land l 127 = l ∧ Z.land l 128 = 0 ∧ Z.land l 255 = l ∧ Z.land 255 l = l ∧
  Z.land (Z.lor l 128) 127 = l ∧ Z.land (Z.lor l 128) 128 = 128.
Proof.
  revert l. apply (byte_dec (λ l, Z.land l 127 = l ∧ Z.land l 128 = 0 ∧ Z.land l 255 = l ∧
    Z.land 255 l = l ∧ Z.land (Z.lor l 128) 127 = l ∧ Z.land (Z.lor l 128) 128 = 128) 128).
  by_decide.
Qed.

Lemma land_255 z : Z.land z 255 = z mod 256.
Proof. change 255 with (Z.ones 8). by rewrite Z.land_ones. Qed.

Lemma land_shiftl_8 a b : 0 ≤ b < 256 → Z.land (Z.shiftl a 8) b = 0.
Proof.
  intros Hb. apply Z.bits_inj'. intros i Hi. rewrite Z.land_spec, Z.bits_0, Z.shiftl_spec by done.
  destruct (Z.lt_ge_cases i 8).
  - by rewrite Z.testbit_neg_r by lia.
  - replace b with (b mod 2 ^ 8) by by apply Z.mod_small.
    rewrite Z.mod_pow2_bits_high by lia. apply andb_false_r.
Qed.

Lemma lor_shiftl_8 a b : 0 ≤ b < 256 → Z.lor (Z.shiftl a 8) b = a * 256 + b.
Proof.
  intros Hb. pose proof (land_shiftl_8 a b Hb) as H0.
  rewrite <- Z.lxor_lor, <- Z.add_nocarry_lxor by done. by rewrite Z.shiftl_mul_pow2 by lia.
Qed.

Definition be_bytes (l : list Z) : Z := foldl (λ v b, v * 256 + b) 0 l.

Lemma be_value_bytes l : Forall is_byte l → be_value l = be_bytes l.
Proof.
  unfold be_value, be_bytes. generalize 0. intros v Hl. revert v.
  induction Hl as [|b l Hb _ IH]; intros v; cbn [foldl]; [done|]. by rewrite lor_shiftl_8, IH.
Qed.

(** The header's length reads back. *)
Lemma frame_length_spec size l ext :
  0 ≤ size < 2 ^ 64 → frame_length size = (l, ext) →
  0 ≤ l < 128 ∧ Forall is_byte ext ∧
  ((l = size ∧ size < 126 ∧ ext = []) ∨
   (l = 126 ∧ zlen ext = 2 ∧ be_value ext = size) ∨
   (l = 127 ∧ zlen ext = 8 ∧ be_value ext = size)).
Proof.
  intros Hs. unfold frame_length.
  assert (Hb : ∀ n, is_byte (Z.land (Z.shiftr size n) 255)).
  { intros n. rewrite land_255. unfold is_byte. lia. }
  destruct (size <? 126) eqn:E1; [|destruct (size <? 65536) eqn:E2]; to_prop; intros [= <- <-].
  - destruct (length_bits size) as (_ & _ & _ & H & _); [lia|]. rewrite H.
    split_and!; [lia|lia|constructor|by left].
  - split_and!; [lia|lia|by repeat constructor; apply Hb|]. right. left. split_and!; [done..|].
    rewrite be_value_bytes by by repeat constructor; apply Hb.
    unfold be_bytes. cbn [foldl]. rewrite !land_255, !Z.shiftr_div_pow2 by lia. lia.
  - split_and!; [lia|lia|by repeat constructor; apply Hb|]. right. right. split_and!; [done..|].
    rewrite be_value_bytes by by repeat constructor; apply Hb.
    unfold be_bytes. cbn [foldl]. rewrite !land_255, !Z.shiftr_div_pow2 by lia. lia.
Qed.

Lemma zlen_ext_eq (ext : list Z) n : zlen ext = Z.of_nat n → length ext = n.
Proof. unfold zlen. lia. Qed.

(** Decoding a header of known length bytes. *)
Lemma decode_header h0 h1 l ext size body :
  Z.land h1 127 = l → 0 ≤ size < MAX_PAYLOAD →
  ((l = size ∧ size < 126 ∧ ext = []) ∨ (l = 126 ∧ zlen ext = 2 ∧ be_value ext = size) ∨
   (l = 127 ∧ zlen ext = 8 ∧ be_value ext = size)) →
  let masked := negb (Z.land h1 128 =? 0) in
  let at_ := 2 + zlen ext in
  decode_frame (h0 :: h1 :: ext ++ body) =
    if zlen body <? size then NeedMore
    else if masked then
      if zlen body <? 4 + size then NeedMore
      else Decoded (negb (Z.land h0 8 =? 0)) (negb (Z.land h0 128 =? 0)) (Z.land h0 15)
             (xor_with_mask_rfc6455 (take 4 body) (take (Z.to_nat size) (drop 4 body)))
             (at_ + 4 + size)
    else Decoded (negb (Z.land h0 8 =? 0)) (negb (Z.land h0 128 =? 0)) (Z.land h0 15)
           (take (Z.to_nat size) body) (at_ + size).
Proof.
  intros Hl Hs Hc masked at_. unfold decode_frame. rewrite Hl. fold masked.
  set (code := l) in *.
  assert (Hat : (if code =? 126 then 4 else if code =? 127 then 10 else 2) = at_).
  { unfold at_. destruct Hc as [(-> & H & ->)|[(-> & -> & _)|(-> & -> & _)]]; [|done..].
    rewrite (proj2 (Z.eqb_neq _ _)), (proj2 (Z.eqb_neq _ _)) by lia. done. }
  rewrite Hat. assert (Hlen : zlen (h0 :: h1 :: ext ++ body) = at_ + zlen body).
  { unfold at_. rewrite !zlen_cons, zlen_app. lia. }
  rewrite Hlen. pose proof (zlen_nonneg body). pose proof (zlen_nonneg ext).
  rewrite (proj2 (Z.ltb_ge _ at_)) by lia. cbn [drop].
  assert (Hsize : (if (code =? 126) || (code =? 127)
            then be_value (take (Z.to_nat (at_ - 2)) (ext ++ body)) else code) = size).
  { replace (Z.to_nat (at_ - 2)) with (length ext) by (unfold at_, zlen; lia).
    rewrite take_app_length. destruct Hc as [(-> & Hlt & _)|[(-> & _ & ->)|(-> & _ & ->)]]; [|done..].
    by rewrite (proj2 (Z.eqb_neq _ 126)), (proj2 (Z.eqb_neq _ 127)) by lia. }
  rewrite drop_0, Hsize. rewrite Z.geb_leb, (proj2 (Z.leb_gt _ _)) by lia.
  assert (Hdrop : ∀ k, drop (Z.to_nat (at_ + k)) (h0 :: h1 :: ext ++ body)
                     = drop (Z.to_nat (at_ + k) - 2 - length ext) body ∨ k < 0).
  { intros k. destruct (decide (k < 0)); [by right|]. left.
    assert (E : Z.to_nat (at_ + k) = S (S (length ext + (Z.to_nat k)))) by (unfold at_, zlen; lia).
    rewrite E. cbn [drop]. rewrite drop_app_add. f_equal. lia. }
  destruct (Hdrop 0) as [D0|]; [|lia]. destruct (Hdrop 4) as [D4|]; [|lia].
  rewrite Z.add_0_r in D0. rewrite D0, D4.
  replace (Z.to_nat at_ - 2 - length ext)%nat with 0%nat by (unfold at_, zlen; lia).
  replace (Z.to_nat (at_ + 4) - 2 - length ext)%nat with 4%nat by (unfold at_, zlen; lia).
  rewrite drop_0.
  assert (E1 : (at_ + zlen body <? at_ + size) = (zlen body <? size)).
  { destruct (zlen body <? size) eqn:E; to_prop; [apply Z.ltb_lt|apply Z.ltb_ge]; lia. }
  assert (E2 : (at_ + zlen body <? at_ + 4 + size) = (zlen body <? 4 + size)).
  { destruct (zlen body <? 4 + size) eqn:E; to_prop; [apply Z.ltb_lt|apply Z.ltb_ge]; lia. }
  by rewrite E1, E2.
Qed.

Lemma frame_payload_small opcode prefix payload :
  Z.land opcode 8 ≠ 0 → zlen (frame_payload opcode prefix payload) ≤ 125.
Proof.
  intros Hc. unfold frame_payload. rewrite (proj2 (Z.eqb_neq _ _) Hc). cbn [negb andb].
  destruct (zlen payload + zlen prefix >? 125) eqn:E; to_prop.
  - rewrite zlen_app, !zlen_take. pose proof (zlen_nonneg payload). pose proof (zlen_nonneg prefix).
    change (Z.of_nat 125) with 125. lia.
  - rewrite zlen_app. lia.
Qed.

Lemma take_exact {A} (l r : list A) n : length l = n → take n (l ++ r) = l.
Proof. intros <-. apply take_app_length. Qed.

Lemma drop_exact {A} (l r : list A) n : length l = n → drop n (l ++ r) = r.
Proof. intros <-. apply drop_app_length. Qed.

(** A frame as RFC 6455 has it, any side, whole or a fragment. *)
Definition wire_bytes (server fin : bool) (mask : list Z) (opcode : Z) (data : list Z) : list Z :=
  let '(l, ext) := frame_length (zlen data) in
  let first := if fin then Z.lor 128 opcode else opcode in
  if server then first :: l :: ext ++ data
  else first :: Z.lor l 128 :: ext ++ mask ++ xor_with_mask_rfc6455 mask data.

Lemma frame_bytes_wire server mask opcode prefix payload :
  frame_bytes server mask opcode prefix payload =
  wire_bytes server true mask opcode (frame_payload opcode prefix payload).
Proof. done. Qed.

Lemma decode_wire_bytes server fin mask opcode data rest :
  0 ≤ opcode < 16 → length mask = 4%nat → zlen data < MAX_PAYLOAD →
  decode_frame (wire_bytes server fin mask opcode data ++ rest) =
    Decoded (negb (Z.land opcode 8 =? 0)) fin opcode data
      (zlen (wire_bytes server fin mask opcode data)).
Proof.
  intros Hop Hm Hl. unfold wire_bytes. set (first := if fin then _ else _).
  destruct (frame_length (zlen data)) as [l ext] eqn:E. pose proof (zlen_nonneg data).
  change MAX_PAYLOAD with 131072 in Hl.
  apply frame_length_spec in E as (Hlr & Hext & Hc); [|lia].
  destruct (length_bits l Hlr) as (L1 & L2 & _ & _ & L3 & L4).
  assert (HO : Z.land first 15 = opcode ∧ Z.land first 8 = Z.land opcode 8 ∧
               negb (Z.land first 128 =? 0) = fin).
  { destruct (opcode_bits opcode Hop) as (O1 & O2 & O3 & O4 & O5).
    unfold first. destruct fin; [|by rewrite O4, O5].
    by rewrite O1, O2, (proj2 (Z.eqb_neq _ 0) O3). }
  destruct HO as (O1 & O2 & O3). clearbody first. pose proof (zlen_nonneg rest).
  destruct server.
  - change ((first :: l :: ext ++ data) ++ rest) with (first :: l :: (ext ++ data) ++ rest).
    rewrite <- app_assoc.
    rewrite (decode_header _ _ l ext (zlen data)); [|done|change MAX_PAYLOAD with 131072; lia|done].
    rewrite O1, O2, L2, O3, zlen_app.
    rewrite (proj2 (Z.ltb_ge _ _)) by lia. cbn [Z.eqb negb].
    rewrite take_exact by (unfold zlen; lia).
    f_equal. rewrite !zlen_cons, zlen_app. lia.
  - change ((first :: Z.lor l 128 :: ext ++ mask ++ xor_with_mask_rfc6455 mask data) ++ rest)
      with (first :: Z.lor l 128 :: (ext ++ mask ++ xor_with_mask_rfc6455 mask data) ++ rest).
    rewrite <- !app_assoc.
    rewrite (decode_header _ _ l ext (zlen data)); [|done|change MAX_PAYLOAD with 131072; lia|done].
    rewrite O1, O2, L4, O3.
    assert (Hx : zlen (xor_with_mask_rfc6455 mask data) = zlen data).
    { unfold zlen, xor_with_mask_rfc6455. by rewrite xor_length. }
    assert (Hmz : zlen mask = 4) by (unfold zlen; lia).
    rewrite !zlen_app, Hx, Hmz. rewrite !(proj2 (Z.ltb_ge _ _)) by lia. cbn [Z.eqb negb].
    rewrite (take_exact mask), (drop_exact mask) by done.
    rewrite take_exact by (unfold zlen in *; lia).
    unfold xor_with_mask_rfc6455. rewrite xor_twice. f_equal.
    rewrite !zlen_cons, !zlen_app. unfold xor_with_mask_rfc6455 in Hx. rewrite Hx, Hmz. lia.
Qed.

Lemma be_bytes_nonneg l v : Forall is_byte l → 0 ≤ v → 0 ≤ foldl (λ v b, v * 256 + b) v l.
Proof.
  intros Hl. revert v. induction Hl as [|b l Hb _ IH]; intros v Hv; cbn [foldl]; [done|].
  apply IH. unfold is_byte in Hb. lia.
Qed.

Lemma be_value_nonneg l : Forall is_byte l → 0 ≤ be_value l.
Proof. intros Hl. rewrite be_value_bytes by done. by apply be_bytes_nonneg. Qed.

(** What a decoded frame consumes, and how much may be waiting. *)
Lemma decode_bounds incoming :
  Forall is_byte incoming →
  match decode_frame incoming with
  | NeedMore => zlen incoming < 14 + MAX_PAYLOAD
  | TooBig => True
  | Decoded _ _ _ payload consumed =>
      2 ≤ consumed ≤ zlen incoming ∧ zlen payload < MAX_PAYLOAD ∧ zlen payload ≤ consumed - 2
  end.
Proof.
  intros Hb. unfold decode_frame. change MAX_PAYLOAD with 131072.
  destruct incoming as [|h0 [|h1 inc]]; [by cbn..|].
  set (code := Z.land h1 127). set (at_ := if code =? 126 then 4 else if code =? 127 then 10 else 2).
  assert (Hat : 2 ≤ at_ ≤ 10).
  { unfold at_. destruct (code =? 126); [lia|]. destruct (code =? 127); lia. }
  set (size := if (code =? 126) || (code =? 127) then _ else code).
  assert (Hcode : 0 ≤ code) by (apply Z.land_nonneg; lia).
  assert (Hsize : 0 ≤ size).
  { unfold size. destruct (_ || _); [|done]. by apply be_value_nonneg, Forall_take, Forall_drop. }
  set (l := h0 :: h1 :: inc). clearbody code at_.
  destruct (zlen l <? at_) eqn:E1; to_prop; [lia|].
  destruct (size >=? 131072) eqn:E2; to_prop; [done|]. clearbody size.
  destruct (zlen l <? at_ + size) eqn:E3; to_prop; [lia|].
  destruct (negb (Z.land h1 128 =? 0)).
  - destruct (zlen l <? at_ + 4 + size) eqn:E4; to_prop; [lia|].
    assert (Hx : ∀ m d, zlen (xor_with_mask_rfc6455 m d) = zlen d).
    { intros. unfold zlen, xor_with_mask_rfc6455. by rewrite xor_length. }
    rewrite Hx, zlen_take, zlen_drop. lia.
  - rewrite zlen_take, zlen_drop. lia.
Qed.

(** ** The invariant *)

(** The pressure last signalled. *)
Definition pressed (l : list signal) : bool :=
  foldl (λ p s, match s with PRESSURE b => b | _ => p end) false l.

Lemma pressed_snoc l s :
  pressed (l ++ [s]) = match s with PRESSURE b => b | _ => pressed l end.
Proof. unfold pressed. by rewrite foldl_app. Qed.

Definition queue_total (q : list Frame) : Z := foldr (λ f n, zlen (f_data f) + n) 0 q.

(** What of the queue is on the wire already. *)
Definition head_sent (q : list Frame) : list Z :=
  match q with [] => [] | f :: _ => take (Z.to_nat (f_sent f)) (f_data f) end.

(** The bytes of some frame of this side. *)
Definition is_frame (server : bool) (bytes : list Z) : Prop :=
  ∃ mask opcode prefix payload, 0 ≤ opcode < 16 ∧
    bytes = frame_bytes server mask opcode prefix payload.

Definition queue_ok (server : bool) (q : list Frame) : Prop :=
  Forall (λ f, is_frame server (f_data f) ∧ 0 ≤ f_sent f < zlen (f_data f)) q ∧
  Forall (λ f, f_sent f = 0) (tail q).

Record inv (c : connection) : Prop := Inv {
  i_message : message_data c = None ↔ message_opcode c = 0;
  i_queue : queue_ok (server_side c) (outgoing c);
  i_total : CRITICAL QueueOverflow ∈ log c ∨ output_queued c = queue_total (outgoing c);
  i_wire : ∃ sent, Forall (is_frame (server_side c)) sent ∧
                   written c = concat sent ++ head_sent (outgoing c);
  i_pressure : pressed (log c) = (output_queued c >=? QUEUE_PRESSURE);
  i_bytes : Forall is_byte (incoming c)
}.

Definition plain_signal (s : signal) : bool :=
  match s with PRESSURE _ | MESSAGE _ _ => false | _ => true end.

(** The messages delivered. *)
Definition messages (l : list signal) : list (Z * list Z) :=
  omap (λ s, match s with MESSAGE op d => Some (op, d) | _ => None end) l.

(** Steps that leave the queue, the message and the input alone. *)
Record quiet (c c' : connection) : Prop := Quiet {
  qt_server : server_side c' = server_side c;
  qt_handshake : handshake_done c' = handshake_done c;
  qt_incoming : incoming c' = incoming c;
  qt_opcode : message_opcode c' = message_opcode c;
  qt_data : message_data c' = message_data c;
  qt_queued : output_queued c' = output_queued c;
  qt_outgoing : outgoing c' = outgoing c;
  qt_written : written c' = written c;
  qt_log : ∃ l, log c' = log c ++ l ∧ Forall (λ s, plain_signal s = true) l
}.

Lemma quiet_refl c : quiet c c.
Proof. split; try done. exists []. by rewrite app_nil_r. Qed.

Lemma quiet_trans a b c : quiet a b → quiet b c → quiet a c.
Proof.
  intros [] []. split; try congruence.
  destruct qt_log0 as (l & Hl & Hf), qt_log1 as (k & Hk & Hg).
  exists (l ++ k). rewrite Hk, Hl, app_assoc. by rewrite Forall_app.
Qed.

Lemma quiet_emit s c : plain_signal s = true → quiet c (emit s c).
Proof. intros Hs. split; try done. exists [s]. split; [done|by constructor]. Qed.

Lemma quiet_same c c' :
  server_side c' = server_side c → handshake_done c' = handshake_done c →
  incoming c' = incoming c → message_opcode c' = message_opcode c →
  message_data c' = message_data c → output_queued c' = output_queued c →
  outgoing c' = outgoing c → written c' = written c → log c' = log c → quiet c c'.
Proof. intros. split; try done. exists []. by rewrite app_nil_r. Qed.

Lemma pressed_quiet l k : Forall (λ s, plain_signal s = true) k → pressed (l ++ k) = pressed l.
Proof.
  intros H. induction k as [|s k IH] using rev_ind; [by rewrite app_nil_r|].
  apply Forall_app in H as [H Hs]. rewrite Forall_singleton in Hs.
  rewrite app_assoc, pressed_snoc, IH by done. by destruct s.
Qed.

Lemma inv_quiet c c' : quiet c c' → inv c → inv c'.
Proof.
  intros [] []. destruct qt_log0 as (l & Hl & Hf). split.
  - by rewrite qt_opcode0, qt_data0.
  - by rewrite qt_server0, qt_outgoing0.
  - rewrite qt_outgoing0, qt_queued0, Hl. rewrite elem_of_app. tauto.
  - by rewrite qt_server0, qt_outgoing0, qt_written0.
  - by rewrite Hl, pressed_quiet, qt_queued0.
  - by rewrite qt_incoming0.
Qed.

Lemma quiet_close_io_stream c : quiet c (close_io_stream c).
Proof.
  unfold close_io_stream. apply (quiet_trans _ (close_io_stop_timeout c)); [by apply quiet_same|].
  set (d := close_io_stop_timeout c). destruct (negb (io_stream d) && negb (io_closed d)).
  - apply (quiet_trans _ (set_io_closed true d)); [by apply quiet_same|by apply quiet_emit].
  - destruct (io_open d); [|apply quiet_refl].
    apply (quiet_trans _ (set_io_open false (stop_output (stop_input d))));
      [by apply quiet_same|by apply quiet_emit].
Qed.

Lemma quiet_on_iostream_closed e c : quiet c (on_iostream_closed e c).
Proof.
  unfold on_iostream_closed. apply (quiet_trans _ (set_io_closed true c)); [by apply quiet_same|].
  set (d := set_io_closed true c). destruct e as [e|]; [|by apply quiet_emit].
  eapply quiet_trans; [|by apply quiet_emit]. destruct (dirty_close d); cbn [negb].
  - by apply quiet_same.
  - apply (quiet_trans _ (emit (ERROR e) d)); [by apply quiet_emit|by apply quiet_same].
Qed.

(** Steps that at most queue frames. *)
Record keeps (c c' : connection) : Prop := Keeps {
  kp_server : server_side c' = server_side c;
  kp_handshake : handshake_done c' = handshake_done c;
  kp_incoming : incoming c' = incoming c;
  kp_opcode : message_opcode c' = message_opcode c;
  kp_data : message_data c' = message_data c;
  kp_log : ∃ l, log c' = log c ++ l ∧ messages l = []
}.

Lemma messages_app l k : messages (l ++ k) = messages l ++ messages k.
Proof. apply omap_app. Qed.

Lemma messages_plain l : Forall (λ s, plain_signal s = true) l → messages l = [].
Proof. induction 1 as [|s l Hs _ IH]; [done|]. by destruct s. Qed.

Lemma keeps_quiet c c' : quiet c c' → keeps c c'.
Proof.
  intros []. split; try done. destruct qt_log0 as (l & Hl & Hf). exists l.
  split; [done|by apply messages_plain].
Qed.

Lemma keeps_trans a b c : keeps a b → keeps b c → keeps a c.
Proof.
  intros [] []. split; try congruence.
  destruct kp_log0 as (l & Hl & Hf), kp_log1 as (k & Hk & Hg).
  exists (l ++ k). by rewrite Hk, Hl, app_assoc, messages_app, Hf, Hg.
Qed.

Lemma keeps_same c c' :
  server_side c' = server_side c → handshake_done c' = handshake_done c →
  incoming c' = incoming c → message_opcode c' = message_opcode c →
  message_data c' = message_data c → log c' = log c → keeps c c'.
Proof. intros. split; try done. exists []. by rewrite app_nil_r. Qed.

(** An operation that preserves the invariant and at most queues frames. *)
Definition good (c c' : connection) : Prop := inv c → inv c' ∧ keeps c c'.

Lemma good_quiet c c' : quiet c c' → good c c'.
Proof. intros Hq Hi. split; [by eapply inv_quiet|by apply keeps_quiet]. Qed.

Lemma good_trans a b c : good a b → good b c → good a c.
Proof.
  intros H1 H2 Ha. destruct (H1 Ha) as [Hb K1]. destruct (H2 Hb) as [Hc K2].
  split; [done|by eapply keeps_trans].
Qed.

(** ** The queue *)

Lemma enqueue_elem flags f q g : g ∈ enqueue flags f q ↔ g = f ∨ g ∈ q.
Proof.
  unfold enqueue. destruct (URGENT flags).
  - destruct q as [|p q]; [by rewrite elem_of_cons|].
    destruct (f_sent p >? 0); rewrite !elem_of_cons; tauto.
  - rewrite elem_of_app, list_elem_of_singleton. tauto.
Qed.

Lemma enqueue_total flags f q : queue_total (enqueue flags f q) = zlen (f_data f) + queue_total q.
Proof.
  unfold enqueue. destruct (URGENT flags).
  - destruct q as [|p q]; [done|]. destruct (f_sent p >? 0); cbn; lia.
  - unfold queue_total. rewrite foldr_app. cbn. rewrite Z.add_0_r.
    induction q as [|p q IH]; cbn; [lia|]. rewrite IH. lia.
Qed.

Lemma queue_ok_sent server q f : queue_ok server q → f ∈ q → 0 ≤ f_sent f < zlen (f_data f).
Proof. intros [H _] Hf. rewrite Forall_forall in H. by apply H. Qed.

Lemma enqueue_ok server flags f q :
  queue_ok server q → is_frame server (f_data f) → f_sent f = 0 → 0 < zlen (f_data f) →
  queue_ok server (enqueue flags f q) ∧ head_sent (enqueue flags f q) = head_sent q.
Proof.
  intros [Hq Ht] Hf Hs Hl. split; [split|].
  - rewrite Forall_forall in *. intros g [-> | Hg]%enqueue_elem; [|by apply Hq].
    split; [done|]. rewrite Hs. lia.
  - unfold enqueue. destruct (URGENT flags).
    + destruct q as [|p q]; [constructor|]. cbn in Ht. apply Forall_cons in Hq as [[_ Hp] _].
      destruct (f_sent p >? 0) eqn:E; to_prop; cbn; constructor; done || lia.
    + destruct q as [|p q]; cbn in *; [constructor|]. apply Forall_app. by split; [|constructor].
  - unfold enqueue. destruct (URGENT flags).
    + destruct q as [|p q]; [cbn; by rewrite Hs|]. apply Forall_cons in Hq as [[_ Hp] _].
      destruct (f_sent p >? 0) eqn:E; to_prop; [done|]. cbn. rewrite Hs.
      replace (f_sent p) with 0 by lia. done.
    + destruct q as [|p q]; [cbn; by rewrite Hs|done].
Qed.

Lemma good_queue flags data amount c :
  is_frame (server_side c) data → good c (_web_socket_connection_queue flags data amount c).
Proof.
  intros Hf Hi. unfold _web_socket_connection_queue.
  destruct (close_sent c); [by apply good_quiet, Hi; apply quiet_emit|].
  destruct (zlen data =? 0) eqn:El; [by apply good_quiet, Hi; apply quiet_emit|]. to_prop.
  pose proof (zlen_nonneg data). destruct Hi as [Hm Hq Ht Hw Hp Hb].
  set (f := mkFrame data (LAST flags) 0 amount).
  destruct (enqueue_ok (server_side c) flags f (outgoing c)) as [Hq' Hh]; [done|done|done|cbn; lia|].
  set (c1 := set_outgoing _ c).
  destruct (negb (G_MAXSIZE - zlen data >? output_queued c1)) eqn:Eo.
  - split; [|split; try done; eexists; by split].
    split; cbn; [done|done| |by rewrite Hh|by rewrite pressed_snoc|done].
    left. rewrite elem_of_app. right. by constructor.
  - set (c2 := set_output_queued _ c1). set (c3 := if _ && _ then emit (PRESSURE true) c2 else c2).
    assert (H3 : inv c3 ∧ keeps c c3).
    { unfold c3. assert (Hc2 : message_data c2 = None ↔ message_opcode c2 = 0) by exact Hm.
      assert (Htot : CRITICAL QueueOverflow ∈ log c ∨
                output_queued c + zlen data = queue_total (outgoing c2)).
      { destruct Ht as [Ht|Ht]; [by left|]. right. cbn. rewrite enqueue_total, Ht. cbn. lia. }
      change (output_queued c2) with (output_queued c + zlen data).
      change (output_queued c1) with (output_queued c).
      assert (Hwr : ∃ sent, Forall (is_frame (server_side c2)) sent ∧
                      written c2 = concat sent ++ head_sent (outgoing c2)).
      { cbn. by rewrite Hh. }
      assert (Hno : pressed (log c) = (output_queued c + zlen data >=? QUEUE_PRESSURE) →
                    inv c2 ∧ keeps c c2).
      { intros E. split; [by split|by apply keeps_same]. }
      destruct (output_queued c <? QUEUE_PRESSURE) eqn:E1;
        destruct (output_queued c + zlen data >=? QUEUE_PRESSURE) eqn:E2; cbn [andb].
      - split; [split; try done|split; try done; eexists; by split].
        + destruct Htot; [left; apply elem_of_app; by left|by right].
        + cbn. by rewrite pressed_snoc, E2.
      - apply Hno. rewrite Hp, Z.geb_leb. apply Z.leb_gt. to_prop. lia.
      - apply Hno. rewrite Hp, Z.geb_leb. apply Z.leb_le. to_prop. lia.
      - apply Hno. to_prop. lia. }
    clearbody c3. destruct H3 as [Hi3 Hk3]. unfold start_output.
    destruct (output_source c3); [done|].
    destruct (good_quiet c3 (set_output_source true c3)) as [? ?]; [by apply quiet_same|done|].
    split; [done|by eapply keeps_trans].
Qed.

(** ** Every operation preserves the invariant *)

Section Invariant.
Context (g_utf8_validate : list Z → bool) (g_random_int : nat → list Z).
Context (handshake : list Z → bool * list Z).

(** The HTTP handshake takes what it reads from the front. *)
Context (handshake_front : ∀ inc, ∃ p, inc = p ++ (handshake inc).2).

Lemma good_send_prefixed flags op prefix payload c :
  0 ≤ op < 16 → good c (send_prefixed_message_rfc6455 g_random_int flags op prefix payload c).
Proof.
  intros Hop. unfold send_prefixed_message_rfc6455. eapply good_trans; [|apply good_queue].
  - destruct (server_side c); [apply good_quiet, quiet_refl|by apply good_quiet, quiet_same].
  - exists (g_random_int (n_random c)), op, prefix, payload. split; [done|].
    by destruct (server_side c) eqn:E; cbn; rewrite E.
Qed.

Lemma good_send_close flags code reason c :
  good c (send_close_rfc6455 g_random_int flags code reason c).
Proof.
  unfold send_close_rfc6455.
  apply (good_trans _ (send_message_rfc6455 g_random_int flags 8 (close_payload code reason) c)).
  - by apply good_send_prefixed.
  - by apply good_quiet, quiet_same.
Qed.

Lemma good_error e c : good c (_web_socket_connection_error e c).1.
Proof.
  unfold _web_socket_connection_error. destruct (decide _); [|apply good_quiet, quiet_refl].
  destruct e as [e|]; [|apply good_quiet, quiet_refl]. cbn [fst].
  eapply good_trans; [|by apply good_quiet, quiet_emit]. by apply good_quiet, quiet_same.
Qed.

Lemma good_error_and_close e prejudice c :
  good c (_web_socket_connection_error_and_close g_random_int e prejudice c).
Proof.
  unfold _web_socket_connection_error_and_close. set (c1 := match e with Some (GTls _) => _ | _ => c end).
  assert (H1 : good c c1).
  { unfold c1. destruct e as [[code|t|]|]; try apply good_quiet, quiet_refl.
    destruct (server_side c); [apply good_quiet, quiet_refl|].
    destruct t; by apply good_quiet, quiet_same. }
  clearbody c1. pose proof (good_error e c1) as H2.
  destruct (_web_socket_connection_error e c1) as [c2 ok]. cbn [fst] in H2.
  eapply good_trans; [exact H1|]. eapply good_trans; [exact H2|].
  destruct (negb ok); [apply good_quiet, quiet_refl|].
  destruct (match web_socket_connection_get_ready_state c2 with
            | CLOSED => true | STATE_CLOSING => _ | _ => false end);
    [apply good_quiet, quiet_refl|].
  destruct (prejudice || _); [apply good_quiet, quiet_close_io_stream|apply good_send_close].
Qed.

Lemma good_send type prefix message c :
  good c (web_socket_connection_send g_utf8_validate g_random_int type prefix message c).
Proof.
  unfold web_socket_connection_send. destruct (decide _); [by apply good_quiet, quiet_emit|].
  destruct type; [|by apply good_send_prefixed].
  destruct (_ || _); [by apply good_quiet, quiet_emit|by apply good_send_prefixed].
Qed.

Lemma good_close code data c : good c (web_socket_connection_close g_random_int code data c).
Proof.
  unfold web_socket_connection_close. destruct (close_sent c); [by apply good_quiet, quiet_emit|].
  eapply good_trans; [by apply good_quiet, (quiet_emit CLOSING)|]. set (d := emit CLOSING c).
  destruct (handshake_done d); [|apply good_quiet, quiet_close_io_stream].
  set (flags := QueueFlags false _).
  apply (good_trans _ (send_close_rfc6455 g_random_int flags code data d)); [apply good_send_close|].
  unfold close_io_after_timeout. destruct (close_timeout _); [apply good_quiet, quiet_refl|by apply good_quiet, quiet_same].
Qed.

Lemma good_receive_close data c : good c (receive_close_rfc6455 g_utf8_validate g_random_int data c).
Proof.
  unfold receive_close_rfc6455. cbv zeta.
  set (c1 := set_close_received true _). set (c2 := match data with _ :: _ :: _ => _ | _ => c1 end).
  set (c3 := if _ && _ then _ else c2).
  assert (H3 : good c c3).
  { assert (H1 : quiet c c1) by by apply quiet_same.
    assert (H2 : quiet c1 c2) by (unfold c2; destruct data as [|? [|? ?]]; by apply quiet_same).
    apply good_quiet. eapply quiet_trans; [exact H1|]. eapply quiet_trans; [exact H2|].
    unfold c3. destruct (_ && _); by apply quiet_same. }
  clearbody c3. eapply good_trans; [exact H3|]. destruct (close_sent c3); [|apply good_close].
  assert (H4 : good c3 (shutdown_wr_io_stream c3)).
  { unfold shutdown_wr_io_stream. eapply good_trans; [|by apply good_quiet, quiet_emit].
    by apply good_quiet, quiet_same. }
  eapply good_trans; [exact H4|]. destruct (server_side _); [apply good_quiet, quiet_close_io_stream|].
  apply good_quiet, quiet_refl.
Qed.

(** What processing the contents of a frame leaves alone. *)
Lemma contents_ok control fin op payload c :
  inv c →
  ∃ c', process_contents_rfc6455 g_utf8_validate g_random_int control fin op payload c = Ok c' ∧
    inv c' ∧ incoming c' = incoming c ∧ handshake_done c' = handshake_done c ∧
    server_side c' = server_side c.
Proof.
  intros Hi.
  assert (Hgood : ∀ c', good c c' → ∃ c'', Ok (E := unit) c' = Ok c'' ∧ inv c'' ∧
    incoming c'' = incoming c ∧ handshake_done c'' = handshake_done c ∧ server_side c'' = server_side c).
  { intros c' H. destruct (H Hi) as [H1 []]. eexists. split; [done|]. by split_and!. }
  unfold process_contents_rfc6455. destruct control.
  { destruct (negb fin); [apply Hgood, good_error_and_close|].
    destruct (op =? 8); [apply Hgood, good_receive_close|].
    destruct (op =? 9); [by apply Hgood, good_send_prefixed|apply Hgood, good_quiet, quiet_refl]. }
  destruct (close_received c); [apply Hgood, good_quiet, quiet_refl|].
  destruct (if negb fin && negb (op =? 0) then _ else _) eqn:Eo; [apply Hgood, good_error_and_close|].
  set (c1 := if negb (op =? 0) then _ else c).
  assert (H1 : inv c1 ∧ incoming c1 = incoming c ∧ handshake_done c1 = handshake_done c ∧
               server_side c1 = server_side c ∧ ∃ d, message_data c1 = Some d).
  { unfold c1. destruct (op =? 0) eqn:E0; cbn [negb].
    - split_and!; try done. destruct fin; cbn [negb andb] in Eo;
        apply bool_decide_eq_false in Eo; destruct (message_data c); [by eexists|done|by eexists|done].
    - split_and!; try done; [|by exists []]. destruct Hi as [Hm Hq Ht Hw Hp Hb]. to_prop.
      by split. }
  destruct H1 as (Hi1 & Hinc & Hh & Hs & d & Hd). clearbody c1.
  destruct ((message_opcode c1 =? 1) && negb (g_utf8_validate payload)).
  { set (c2 := set_message_opcode 0 _).
    assert (Hi2 : inv c2) by by destruct Hi1; split.
    destruct (good_error_and_close (Some (GWebSocket WEB_SOCKET_CLOSE_BAD_DATA)) false c2 Hi2)
      as [H2 []]. eexists. split; [done|]. unfold bad_data_error_and_close.
    split_and!; [done|by rewrite kp_incoming0|by rewrite kp_handshake0|by rewrite kp_server0]. }
  set (r := if _ || _ then _ else Ok c1).
  assert (Hr : ∃ c2 d2, r = Ok c2 ∧ inv c2 ∧ incoming c2 = incoming c ∧
    handshake_done c2 = handshake_done c ∧ server_side c2 = server_side c ∧ message_data c2 = Some d2).
  { unfold r. destruct (_ || _); [|by exists c1, d]. rewrite Hd. eexists _, (d ++ payload).
    split; [done|]. split_and!; try done. destruct Hi1 as [Hm Hq Ht Hw Hp Hb].
    split; try done. cbn. rewrite Hd in Hm. split; [done|]. intros H. by apply Hm in H. }
  destruct Hr as (c2 & d2 & -> & Hi2 & H2 & H3 & H4 & Hd2). cbn [mbind comp_bind].
  destruct fin; [|by exists c2]. rewrite Hd2. eexists. split; [done|]. split_and!; try done.
  destruct Hi2 as [Hm Hq Ht Hw Hp Hb]. split; cbn; try done.
  - rewrite elem_of_app. tauto.
  - by rewrite pressed_snoc.
Qed.

(** Frames are processed until more input is needed or the input is stopped. *)
Definition settled (c : connection) : Prop :=
  decode_frame (incoming c) = NeedMore ∨ input_source c = false.

Lemma process_frames_ok fuel c :
  inv c → (length (incoming c) < fuel)%nat →
  ∃ c', process_frames g_utf8_validate g_random_int fuel c = Ok c' ∧ inv c' ∧ settled c' ∧
    handshake_done c' = handshake_done c.
Proof.
  revert c. induction fuel as [|fuel IH]; intros c Hi Hf; [lia|]. cbn [process_frames].
  unfold process_frame_rfc6455. pose proof (decode_bounds (incoming c) (i_bytes _ Hi)) as Hd.
  destruct (decode_frame (incoming c)) as [| |control fin op payload consumed] eqn:Ed.
  - cbn. exists c. split_and!; [done|done|by left|done].
  - cbn. eexists. split; [done|]. unfold too_big_error_and_close.
    destruct (good_error_and_close (Some (GWebSocket WEB_SOCKET_CLOSE_TOO_BIG)) true c Hi) as [H []].
    split_and!; [|by right|exact kp_handshake0]. eapply inv_quiet; [|exact H]. by apply quiet_same.
  - destruct (contents_ok control fin op payload c Hi) as (c1 & -> & Hi1 & Hinc & Hh & _).
    cbn [mbind comp_bind].
    destruct (IH (set_incoming (drop (Z.to_nat consumed) (incoming c1)) c1)) as (c2 & H2 & Hi2 & Hs & Hh2).
    + destruct Hi1. split; try done. cbn. by apply Forall_drop.
    + cbn. rewrite Hinc, length_drop. unfold zlen in Hd. lia.
    + exists c2. split_and!; [done|done|done|]. rewrite Hh2. exact Hh.
Qed.

Lemma process_incoming_ok c :
  inv c → ∃ c', process_incoming g_utf8_validate g_random_int handshake c = Ok c' ∧ inv c' ∧
    (handshake_done c' = true → settled c').
Proof.
  intros Hi. unfold process_incoming. set (c1 := if negb (handshake_done c) then _ else c).
  assert (Hi1 : inv c1).
  { unfold c1. destruct (negb (handshake_done c)); [|done].
    destruct (handshake_front (incoming c)) as [p Hp]. destruct (handshake (incoming c)) as [ok rest].
    assert (Hi0 : inv (set_incoming rest c)).
    { destruct Hi as [Hm Hq Ht Hw Hpr Hb]. split; try done. cbn in *. rewrite Hp in Hb.
      by apply Forall_app in Hb as [_ Hb]. }
    destruct ok; [|done]. set (d := set_handshake_done true _).
    assert (inv d) by by destruct Hi0; split.
    eapply inv_quiet; [by apply quiet_emit|done]. }
  clearbody c1. destruct (handshake_done c1) eqn:E.
  - destruct (process_frames_ok (S (length (incoming c1))) c1 Hi1) as (c2 & H & Hi2 & Hs & _); [lia|].
    by exists c2.
  - exists c1. split_and!; [done|done|]. by rewrite E.
Qed.

Definition read_bytes (a : read_answer) : Prop :=
  match a with ReadSome d | ReadError _ d => Forall is_byte d | _ => True end.

Lemma read_loop_bytes answers inc :
  Forall read_bytes answers → Forall is_byte inc → Forall is_byte (read_loop answers inc).1.1.
Proof.
  intros Ha. revert inc. induction Ha as [|a answers H _ IH]; intros inc Hi; cbn; [done|].
  destruct a as [d| | |e junk]; try done; [|by apply Forall_app]. destruct (take 1024 d) as [|x l] eqn:E; [done|].
  apply IH, Forall_app. split; [done|]. rewrite <- E. by apply Forall_take.
Qed.

Lemma input_ok answers c :
  inv c → Forall read_bytes answers →
  ∃ c', on_web_socket_input g_utf8_validate g_random_int handshake answers c = Ok c' ∧ inv c'.
Proof.
  intros Hi Ha. unfold on_web_socket_input.
  pose proof (read_loop_bytes answers (incoming c) Ha (i_bytes _ Hi)) as Hb.
  destruct (read_loop answers (incoming c)) as [[inc e] error]. cbn [fst] in Hb.
  destruct error as [e'|].
  - eexists. split; [done|]. apply good_error_and_close. by destruct Hi; split.
  - destruct (process_incoming_ok (set_incoming inc c)) as (c1 & -> & Hi1 & _).
    { by destruct Hi; split. }
    eexists. split; [done|]. destruct e; [|done].
    eapply inv_quiet; [apply quiet_close_io_stream|]. destruct (_ || _); [|done].
    eapply inv_quiet; [|exact Hi1]. by apply quiet_same.
Qed.

(** The state between a write and the check of the pressure. *)
Record written_to (c c2 : connection) : Prop := WrittenTo {
  wt_message : message_data c2 = None ↔ message_opcode c2 = 0;
  wt_queue : queue_ok (server_side c2) (outgoing c2);
  wt_total : output_queued c2 = queue_total (outgoing c2);
  wt_less : output_queued c2 ≤ output_queued c;
  wt_wire : ∃ sent, Forall (is_frame (server_side c2)) sent ∧
                    written c2 = concat sent ++ head_sent (outgoing c2);
  wt_pressure : pressed (log c2) = pressed (log c);
  wt_bytes : Forall is_byte (incoming c2)
}.

Lemma written_to_quiet c c2 c3 : written_to c c2 → quiet c2 c3 → written_to c c3.
Proof.
  intros [] []. destruct qt_log0 as (l & Hl & Hf).
  split; rewrite ?qt_server0, ?qt_incoming0, ?qt_opcode0, ?qt_data0, ?qt_queued0, ?qt_outgoing0,
    ?qt_written0, ?Hl, ?pressed_quiet by done; done.
Qed.

Lemma head_progress f n :
  0 ≤ f_sent f →
  take (Z.to_nat (f_sent f)) (f_data f) ++ take n (drop (Z.to_nat (f_sent f)) (f_data f))
  = take (Z.to_nat (f_sent f + Z.of_nat n)) (f_data f).
Proof.
  intros Hs. replace (Z.to_nat (f_sent f + Z.of_nat n)) with (Z.to_nat (f_sent f) + n)%nat by lia.
  by rewrite take_take_drop.
Qed.

Lemma queue_total_nonneg q : 0 ≤ queue_total q.
Proof.
  induction q as [|f q IH]; [done|]. pose proof (zlen_nonneg (f_data f)).
  unfold queue_total in *. cbn. lia.
Qed.

Lemma queue_ok_tail server f q : queue_ok server (f :: q) → queue_ok server q ∧ head_sent q = [].
Proof.
  intros [[_ Hq]%Forall_cons Ht]. cbn in Ht. destruct q as [|g q]; [by repeat split|].
  apply Forall_cons in Ht as [H0 Ht]. split; [by split|]. cbn. by rewrite H0.
Qed.

Lemma output_written_ok f q n c :
  inv c → CRITICAL QueueOverflow ∉ log c → outgoing c = f :: q →
  Z.of_nat n ≤ zlen (f_data f) - f_sent f →
  ∃ c2, output_written f q n c = Ok c2 ∧ written_to c c2.
Proof.
  intros [Hm Hq Ht (sent & Hsent & Hw) Hp Hb] Hno Eq Hn. rewrite Eq in Hq, Ht, Hw.
  destruct Ht as [Ht|Ht]; [done|]. cbn in Ht. fold (queue_total q) in Ht.
  pose proof Hq as [[[Hff Hfs] _]%Forall_cons Htl]. cbn in Htl.
  pose proof (queue_total_nonneg q). destruct (queue_ok_tail _ _ _ Hq) as [Hq' Hh].
  pose proof (head_progress f n) as Hhead. cbn in Hw. unfold output_written. cbn [f_sent f_last].
  destruct (f_sent f + Z.of_nat n >=? zlen (f_data f)) eqn:E; to_prop.
  - cbn [output_queued set_written]. rewrite (proj2 (Z.leb_le _ _)) by lia.
    cbn [cassert mbind comp_bind]. set (c2 := set_output_queued _ _).
    assert (H2 : written_to c c2).
    { pose proof (zlen_nonneg (f_data f)). split; cbn; try done; [fold (queue_total q); lia|lia|].
      exists (sent ++ [f_data f]). split; [by apply Forall_app; split; [|constructor]|].
      rewrite Hh, app_nil_r, concat_app, Hw. cbn. rewrite app_nil_r, <- app_assoc. f_equal.
      rewrite Hhead by lia. apply take_ge. unfold zlen in *. lia. }
    clearbody c2. destruct (f_last f); [|by eexists]. destruct (server_side c2).
    + eexists. split; [done|]. eapply written_to_quiet; [exact H2|apply quiet_close_io_stream].
    + eexists. split; [done|]. eapply written_to_quiet; [exact H2|].
      apply quiet_trans with (shutdown_wr_io_stream c2).
      * unfold shutdown_wr_io_stream. eapply quiet_trans; [|by apply quiet_emit]. by apply quiet_same.
      * unfold close_io_after_timeout. destruct (close_timeout _); by apply quiet_same.
  - eexists. split; [done|]. split; cbn; try done.
    + split; [|done]. constructor; [|by apply Hq']. split; [done|]. cbn. lia.
    + exists sent. split; [done|]. by rewrite Hw, <- app_assoc, Hhead by lia.
Qed.

(** Writing sends the next bytes of the head of the queue. *)
Lemma output_ok answer c :
  inv c → CRITICAL QueueOverflow ∉ log c →
  ∃ c' keep, on_web_socket_output g_random_int answer c = Ok (c', keep) ∧ inv c'.
Proof.
  intros Hi Hno. unfold on_web_socket_output. destruct (outgoing c) as [|f q] eqn:Eq.
  { eexists _, true. split; [done|]. eapply inv_quiet; [|exact Hi]. by apply quiet_same. }
  assert (Hfs : 0 ≤ f_sent f < zlen (f_data f)).
  { eapply queue_ok_sent; [apply (i_queue _ Hi)|]. rewrite Eq. by constructor. }
  rewrite !(proj2 (Z.gtb_lt _ _)) by lia. cbn [cassert mbind comp_bind].
  assert (Hcont : ∀ n, Z.of_nat n ≤ zlen (f_data f) - f_sent f →
    ∃ c' keep, (self ← output_written f q n c;
      Ok (if (output_queued c >=? QUEUE_PRESSURE) && (output_queued self <? QUEUE_PRESSURE)
          then emit (PRESSURE false) self else self, true)) = Ok (E := unit) (c', keep) ∧ inv c').
  { intros n Hn. destruct (output_written_ok f q n c Hi Hno Eq Hn) as (c2 & -> & []).
    cbn [mbind comp_bind]. eexists _, true. split; [done|].
    assert (Hbase : pressed (log c2) = (output_queued c2 >=? QUEUE_PRESSURE) → inv c2).
    { intros E. split; try done. by right. }
    rewrite (i_pressure _ Hi) in wt_pressure0.
    destruct (output_queued c >=? QUEUE_PRESSURE) eqn:E1; cbn [andb].
    - destruct (output_queued c2 <? QUEUE_PRESSURE) eqn:E2.
      + split; try done; [by right|]. cbn. rewrite pressed_snoc. symmetry.
        rewrite Z.geb_leb. apply Z.leb_gt. by apply Z.ltb_lt.
      + apply Hbase. rewrite wt_pressure0. symmetry. rewrite Z.geb_leb. apply Z.leb_le.
        by apply Z.ltb_ge.
    - apply Hbase. rewrite wt_pressure0. symmetry. rewrite Z.geb_leb. apply Z.leb_gt. to_prop. lia. }
  destruct answer as [n| |e]; [apply Hcont; lia|apply Hcont; lia|].
  eexists _, false. split; [done|]. by apply good_error_and_close.
Qed.

(** ** Runs of a connection

    What the main loop and the users of the connection make happen; a source that has been
    destroyed does not call back. *)

Inductive event :=
| EInput (answers : list read_answer)
| EOutput (answer : write_answer)
| EIdle
| EThrottle (throttle : bool)
| ESend (type : data_type) (prefix message : list Z)
| EClose (code : Z) (data : option (list Z))
| ETimeout
| EClosed (error : option gerror).

Definition event_ok (e : event) : Prop :=
  match e with EInput answers => Forall read_bytes answers | _ => True end.

Definition step (e : event) (c : connection) : comp unit connection :=
  match e with
  | EInput answers =>
      if input_source c then on_web_socket_input g_utf8_validate g_random_int handshake answers c
      else Ok c
  | EOutput answer =>
      if output_source c then '(c, keep) ← on_web_socket_output g_random_int answer c;
                              Ok (if keep : bool then c else stop_output c)
      else Ok c
  | EIdle =>
      if start_idle c then on_idle_start_input g_utf8_validate g_random_int handshake c else Ok c
  | EThrottle throttle => Ok (on_throttle_pressure throttle c)
  | ESend type prefix message =>
      Ok (web_socket_connection_send g_utf8_validate g_random_int type prefix message c)
  | EClose code data => Ok (web_socket_connection_close g_random_int code data c)
  | ETimeout => Ok (if close_timeout c then on_timeout_close_io c else c)
  | EClosed error => Ok (on_iostream_closed error c)
  end.

Fixpoint run (events : list event) (c : connection) : comp unit connection :=
  match events with
  | [] => Ok c
  | e :: events' => c ← step e c; run events' c
  end.

Lemma step_ok e c :
  inv c → event_ok e → CRITICAL QueueOverflow ∉ log c → ∃ c', step e c = Ok c' ∧ inv c'.
Proof.
  intros Hi He Hno. destruct e; cbn [step].
  - destruct (input_source c); [by apply input_ok|by exists c].
  - destruct (output_source c); [|by exists c].
    destruct (output_ok answer c Hi Hno) as (c' & keep & -> & H). eexists. split; [done|].
    destruct keep; [done|]. eapply inv_quiet; [|exact H]. by apply quiet_same.
  - destruct (start_idle c); [|by exists c]. unfold on_idle_start_input.
    destruct (process_incoming_ok (start_input (set_start_idle false c))) as (c' & H & Hi' & _).
    { eapply inv_quiet; [|exact Hi]. by apply quiet_same. }
    by exists c'.
  - eexists. split; [done|]. eapply inv_quiet; [|exact Hi]. unfold on_throttle_pressure.
    destruct throttle; (destruct (_ && _); by apply quiet_same).
  - eexists. split; [done|]. by apply good_send.
  - eexists. split; [done|]. by apply good_close.
  - eexists. split; [done|]. destruct (close_timeout c); [|done].
    eapply inv_quiet; [|exact Hi]. unfold on_timeout_close_io.
    eapply quiet_trans; [|apply quiet_close_io_stream]. by apply quiet_same.
  - eexists. split; [done|]. eapply inv_quiet; [apply quiet_on_iostream_closed|done].
Qed.

(** Either all goes well or the queue has once outgrown the address space. *)
Lemma run_ok events c :
  inv c → Forall event_ok events →
  (∃ c', run events c = Ok c' ∧ inv c') ∨
  ∃ pre c1, pre `prefix_of` events ∧ run pre c = Ok c1 ∧ CRITICAL QueueOverflow ∈ log c1.
Proof.
  intros Hi He. revert c Hi. induction He as [|e events He _ IH]; intros c Hi; cbn [run].
  { left. by exists c. }
  destruct (decide (CRITICAL QueueOverflow ∈ log c)) as [Hin|Hno].
  { right. exists [], c. split; [apply prefix_nil|done]. }
  destruct (step_ok e c Hi He Hno) as (c1 & Hs & Hi1). rewrite Hs. cbn [mbind comp_bind].
  destruct (IH c1 Hi1) as [H|(pre & c2 & Hp & Hr & Ho)]; [by left|]. right.
  exists (e :: pre), c2. split_and!; [by apply prefix_cons|cbn; by rewrite Hs|done].
Qed.

Lemma settled_close c : settled c → settled (close_io_stream c).
Proof.
  unfold settled, close_io_stream. cbn. destruct (_ && _); [done|]. destruct (io_open c); [|done].
  intros _. by right.
Qed.

Definition is_error (a : read_answer) : bool := match a with ReadError _ _ => true | _ => false end.

Lemma read_loop_error answers inc :
  Forall (λ a, is_error a = false) answers → (read_loop answers inc).2 = None.
Proof.
  intros H. revert inc. induction H as [|a answers Ha _ IH]; intros inc; [done|].
  destruct a as [d| | |e junk]; try done. cbn. by destruct (take 1024 d).
Qed.

(** Reading is total and what it leaves buffered is bounded: whatever the peer sends
    and however much of it arrives at once, the input callback ends without a fault, and
    then either less than one frame of the largest size waits, header included, or the
    connection reads no more. *)
Theorem input_bounded answers c :
  inv c → Forall read_bytes answers → Forall (λ a, is_error a = false) answers →
  ∃ c', on_web_socket_input g_utf8_validate g_random_int handshake answers c = Ok c' ∧
    (handshake_done c' = true →
     zlen (incoming c') < 14 + MAX_PAYLOAD ∨ input_source c' = false).
Proof.
  intros Hi Ha He. destruct (input_ok answers c Hi Ha) as (c' & H & Hi').
  exists c'. split; [done|]. intros Hh.
  assert (Hs : settled c').
  { pose proof (read_loop_bytes answers (incoming c) Ha (i_bytes _ Hi)) as Hb.
    pose proof (read_loop_error answers (incoming c) He) as Hne.
    unfold on_web_socket_input in H.
    destruct (read_loop answers (incoming c)) as [[inc e] error]. cbn in Hb, Hne. subst error.
    destruct (process_incoming_ok (set_incoming inc c)) as (c1 & E & Hi1 & Hs1);
      [by destruct Hi; split|]. rewrite E in H. cbn [mbind comp_bind] in H. injection H as <-.
    destruct e; [|by apply Hs1]. apply settled_close.
    assert (Hh1 : handshake_done c1 = true).
    { rewrite <- Hh. set (d := if _ || _ then _ else c1).
      rewrite (qt_handshake _ _ (quiet_close_io_stream d)). unfold d. by destruct (_ || _). }
    specialize (Hs1 Hh1). by destruct (_ || _). }
  destruct Hs as [Hs|Hs]; [|by right]. left.
  pose proof (decode_bounds (incoming c') (i_bytes _ Hi')) as Hd. by rewrite Hs in Hd.
Qed.

Lemma new_connection_inv server buffer :
  Forall is_byte buffer →
  inv (_web_socket_connection_take_io_stream (web_socket_connection_constructed server buffer)).
Proof.
  intros Hb. split; cbn; try done; [by right|by exists []].
Qed.

(** C39: Whatever the streams, the peer and the user of a new connection do, in any order, no
    assertion of the code fails and no array is misused; what is on the wire is a sequence
    of whole frames, followed at most by the part of the frame at the head of the queue
    that has been written, so that frames are never interleaved, urgent ones included; and
    the last pressure signal says whether at least a megabyte is queued.  The one
    exception is a queue that has grown to the size of the address space. *)
Theorem connection_sound server buffer events :
  Forall is_byte buffer → Forall event_ok events →
  let c := _web_socket_connection_take_io_stream (web_socket_connection_constructed server buffer) in
  (∃ c' frames, run events c = Ok c' ∧ Forall (is_frame (server_side c')) frames ∧
     Forall (λ f, is_frame (server_side c') (f_data f)) (outgoing c') ∧
     written c' = concat frames ++ head_sent (outgoing c') ∧
     pressed (log c') = (output_queued c' >=? QUEUE_PRESSURE)) ∨
  (∃ pre c1, pre `prefix_of` events ∧ run pre c = Ok c1 ∧ CRITICAL QueueOverflow ∈ log c1).
Proof.
  intros Hb He c. destruct (run_ok events c (new_connection_inv server buffer Hb) He)
    as [(c' & H & [_ [Hq _] _ (frames & Hf & Hw) Hp _])|H]; [left|by right].
  exists c', frames. split_and!; try done. eapply Forall_impl; [exact Hq|]. by intros f [].
Qed.
End Invariant.

(** A handshake that takes the bytes up to the first line feed. *)
Definition line_handshake (inc : list Z) : bool * list Z :=
  match list_find (λ b, b = 10) inc with
  | Some (i, _) => (true, drop (S i) inc)
  | None => (false, inc)
  end.

Lemma line_handshake_front inc : ∃ p, inc = p ++ (line_handshake inc).2.
Proof.
  unfold line_handshake. destruct (list_find _ inc) as [[i x]|]; cbn.
  - exists (take (S i) inc). by rewrite take_drop.
  - by exists [].
Qed.

Definition example_frame : list Z := [130; 3; 1; 2; 3].

(** A client that is open. *)
Definition open_connection (server : bool) : connection :=
  set_handshake_done true (set_input_source true (set_start_idle false
    (_web_socket_connection_take_io_stream (web_socket_connection_constructed server [])))).

Lemma open_connection_inv server : inv (open_connection server).
Proof.
  destruct (new_connection_inv server []) as []; [constructor|]. by split.
Qed.

Lemma input_bounded_witness :
  ∃ c', on_web_socket_input (λ _, true) (λ _, [1; 2; 3; 4]) line_handshake
          [ReadSome (example_frame ++ [130]); ReadWouldBlock] (open_connection false) = Ok c' ∧
    (handshake_done c' = true → zlen (incoming c') < 14 + MAX_PAYLOAD ∨ input_source c' = false).
Proof.
  apply (input_bounded (λ _, true) (λ _, [1; 2; 3; 4]) line_handshake line_handshake_front).
  - apply open_connection_inv.
  - constructor; [by_decide|by repeat constructor].
  - by repeat constructor.
Defined.

Lemma connection_sound_witness :
  let c := _web_socket_connection_take_io_stream (web_socket_connection_constructed true []) in
  let events := [EIdle; EInput [ReadSome [71; 10]; ReadWouldBlock]; ESend DATA_BINARY [] [1; 2];
                 EOutput (WriteSome 1); EInput [ReadSome [137; 0]]; EOutput (WriteSome 9)] in
  (∃ c' frames, run (λ _, true) (λ _, []) line_handshake events c = Ok c' ∧
     Forall (is_frame (server_side c')) frames ∧
     Forall (λ f, is_frame (server_side c') (f_data f)) (outgoing c') ∧
     written c' = concat frames ++ head_sent (outgoing c') ∧
     pressed (log c') = (output_queued c' >=? QUEUE_PRESSURE)) ∨
  (∃ pre c1, pre `prefix_of` events ∧ run (λ _, true) (λ _, []) line_handshake pre c = Ok c1 ∧
     CRITICAL QueueOverflow ∈ log c1).
Proof.
  apply (connection_sound (λ _, true) (λ _, []) line_handshake line_handshake_front true []).
  - constructor.
  - repeat constructor; by_decide.
Defined.

(** The ping is answered after the frame that has been started. *)
Example ping_waits :
  (written <$> match run (λ _, true) (λ _, []) line_handshake
      [EIdle; EInput [ReadSome [71; 10]; ReadWouldBlock]; ESend DATA_BINARY [] [1; 2];
       ESend DATA_BINARY [] [3]; EOutput (WriteSome 1); EInput [ReadSome [137; 0]];
       EOutput (WriteSome 9); EOutput (WriteSome 9); EOutput (WriteSome 9)]
      (_web_socket_connection_take_io_stream (web_socket_connection_constructed true []))
    with Ok c => Some c | _ => None end) = Some [130; 2; 1; 2; 138; 0; 130; 1; 3].
Proof. vm_compute. reflexivity. Qed.
