(* ===== verification/WebSocketDelivery.v ===== *)
(** * What a WebSocket connection promises: delivery and closing

    The theorems about [src/websocket/websocketconnection.c] that concern more than one
    operation of [WebSocket.v]: a peer's messages are delivered whole, in order and once,
    however they are cut into fragments, frames and reads; what one side sends is what the
    other delivers; the closing handshake ends; nothing is sent after a close frame. *)

From S2P Require Import Prelude WebSocket.

(** A frame of a peer. *)
Record wire := Wire { w_mask : list Z; w_fin : bool; w_opcode : Z; w_data : list Z }.

Definition encode (server : bool) (w : wire) : list Z :=
  wire_bytes server (w_fin w) (w_mask w) (w_opcode w) (w_data w).

Definition wire_ok (w : wire) : Prop :=
  0 ≤ w_opcode w < 16 ∧ length (w_mask w) = 4%nat ∧ zlen (w_data w) < MAX_PAYLOAD.

(** A message of a peer: its opcode and its fragments, each with the control frames sent
    before it. *)
Record message := Message { m_opcode : Z; m_parts : list (list (Z * list Z) * list Z) }.

Fixpoint part_frames (opcode : Z) (parts : list (list (Z * list Z) * list Z))
    : list (bool * Z * list Z) :=
  match parts with
  | [] => []
  | (controls, data) :: parts' =>
      ((λ k, (true, k.1, k.2)) <$> controls) ++
      (bool_decide (parts' = []), opcode, data) :: part_frames 0 parts'
  end.

Definition message_frames (m : message) : list (bool * Z * list Z) :=
  part_frames (m_opcode m) (m_parts m).

Definition message_bytes (m : message) : Z * list Z := (m_opcode m, concat (m_parts m).*2).

(** ** Decoding a stream *)

Lemma zlen_ltb_app {A} (l r : list A) n : n ≤ zlen l → (zlen (l ++ r) <? n) = false.
Proof. intros H. apply Z.ltb_ge. rewrite zlen_app. pose proof (zlen_nonneg r). lia. Qed.

Lemma take_drop_app_l {A} (l r : list A) (a n : Z) :
  0 ≤ a → 0 ≤ n → a + n ≤ zlen l →
  take (Z.to_nat n) (drop (Z.to_nat a) (l ++ r)) = take (Z.to_nat n) (drop (Z.to_nat a) l).
Proof.
  intros Ha Hn Hl. unfold zlen in Hl. rewrite drop_app_le by lia.
  rewrite take_app_le; [done|]. rewrite length_drop. lia.
Qed.

(** What has been decoded does not depend on what comes later. *)
Lemma decode_stable inc more :
  Forall is_byte inc → decode_frame inc ≠ NeedMore → decode_frame (inc ++ more) = decode_frame inc.
Proof.
  intros Hb. destruct inc as [|h0 [|h1 inc]]; [done..|].
  change ((h0 :: h1 :: inc) ++ more) with (h0 :: h1 :: (inc ++ more)).
  unfold decode_frame. set (l := h0 :: h1 :: inc) in *.
  change (h0 :: h1 :: inc ++ more) with (l ++ more).
  set (code := Z.land h1 127). set (at_ := if code =? 126 then 4 else _).
  assert (Hat : 2 ≤ at_ ≤ 10).
  { unfold at_. destruct (code =? 126); [lia|]. destruct (code =? 127); lia. }
  assert (Hcode : 0 ≤ code) by (apply Z.land_nonneg; lia). clearbody code at_.
  destruct (zlen l <? at_) eqn:E1; [done|]. to_prop.
  rewrite zlen_ltb_app by done.
  replace (take (Z.to_nat (at_ - 2)) (drop 2 (l ++ more)))
    with (take (Z.to_nat (at_ - 2)) (drop 2 l)).
  2: { symmetry. apply (take_drop_app_l l more 2); lia. }
  set (size := if (code =? 126) || (code =? 127) then _ else code).
  assert (Hsize : 0 ≤ size).
  { unfold size. destruct (_ || _); [|done]. by apply be_value_nonneg, Forall_take, Forall_drop. }
  clearbody size. destruct (size >=? MAX_PAYLOAD); [done|].
  destruct (zlen l <? at_ + size) eqn:E2; [done|]. to_prop.
  rewrite zlen_ltb_app by done.
  destruct (negb (Z.land h1 128 =? 0)); [|by rewrite take_drop_app_l by lia].
  destruct (zlen l <? at_ + 4 + size) eqn:E3; [done|]. to_prop. intros _.
  rewrite zlen_ltb_app by done.
  change 4%nat with (Z.to_nat 4). by rewrite !take_drop_app_l by lia.
Qed.

(** A part of a frame is not decoded. *)
Lemma decode_partial server w inc more rest :
  wire_ok w → Forall is_byte inc → inc ++ more = encode server w ++ rest →
  zlen inc < zlen (encode server w) → decode_frame inc = NeedMore.
Proof.
  intros (Ho & Hm & Hd) Hb E Hl.
  assert (H : decode_frame inc ≠ NeedMore → False); [|by destruct (decode_frame inc); [|destruct H..]].
  intros Hn. pose proof (decode_stable inc more Hb Hn) as Hs.
  unfold encode in *. rewrite E, decode_wire_bytes in Hs by done.
  pose proof (decode_bounds inc Hb) as H. rewrite <- Hs in H. lia.
Qed.

(** ** Assembling messages *)

Section Delivery.
Context (g_utf8_validate : list Z → bool) (g_random_int : nat → list Z).
Context (handshake : list Z → bool * list Z).

(** What a receiver has to do with one frame: the message in progress, and what is
    delivered; the result is [None] where the connection is closed instead. *)
Definition assemble (st : option (Z * list Z)) (f : bool * Z * list Z)
    : option (option (Z * list Z) * list (Z * list Z)) :=
  let '(fin, op, d) := f in
  let next o acc := if (o =? 1) && negb (g_utf8_validate d) then None
                    else if fin : bool then Some (None, [(o, acc)]) else Some (Some (o, acc), []) in
  if (op =? 9) || (op =? 10) then if fin then Some (st, []) else None
  else if op =? 0 then
    match st with Some (o, acc) => next o (acc ++ d) | None => None end
  else if (op =? 1) || (op =? 2) then
    match st with Some _ => None | None => next op d end
  else None.

Fixpoint assemble_all (st : option (Z * list Z)) (fs : list (bool * Z * list Z))
    : option (option (Z * list Z) * list (Z * list Z)) :=
  match fs with
  | [] => Some (st, [])
  | f :: fs' => '(st, out) ← assemble st f; '(st, out') ← assemble_all st fs'; Some (st, out ++ out')
  end.

(** The connection is open for messages, with [st] in progress. *)
Definition ready (c : connection) (st : option (Z * list Z)) : Prop :=
  close_received c = false ∧ input_source c = true ∧
  match st with
  | None => message_opcode c = 0 ∧ message_data c = None
  | Some (o, acc) => (o = 1 ∨ o = 2) ∧ message_opcode c = o ∧ message_data c = Some acc
  end.

Lemma queue_input flags data amount c :
  close_received (_web_socket_connection_queue flags data amount c) = close_received c ∧
  input_source (_web_socket_connection_queue flags data amount c) = input_source c.
Proof.
  unfold _web_socket_connection_queue, start_output.
  repeat (first [progress cbn|match goal with |- context [if ?b then _ else _] => destruct b end]);
    done.
Qed.

Lemma ping_input d c :
  close_received (receive_ping_rfc6455 g_random_int d c) = close_received c ∧
  input_source (receive_ping_rfc6455 g_random_int d c) = input_source c.
Proof.
  unfold receive_ping_rfc6455, send_message_rfc6455, send_prefixed_message_rfc6455. cbv zeta.
  set (c1 := if server_side c then _ else _).
  match goal with |- context [_web_socket_connection_queue ?f ?b ?a c1] =>
    destruct (queue_input f b a c1) as [-> ->] end.
  unfold c1. by destruct (server_side c).
Qed.

Lemma contents_assemble fin op d c st st' out :
  inv c → ready c st → assemble st (fin, op, d) = Some (st', out) →
  ∃ c', process_contents_rfc6455 g_utf8_validate g_random_int (negb (Z.land op 8 =? 0)) fin op d c
        = Ok c' ∧ ready c' st' ∧ messages (log c') = messages (log c) ++ out.
Proof.
  intros Hi (Hc & Hin & Hst). unfold assemble.
  destruct ((op =? 9) || (op =? 10)) eqn:E9.
  { destruct fin; [|done]. intros [= <- <-]. unfold process_contents_rfc6455.
    assert (Hop : op = 9 ∨ op = 10) by (to_prop; lia). rewrite app_nil_r.
    destruct Hop as [-> | ->]; cbn.
    - destruct (good_send_prefixed g_random_int (QueueFlags true false) 10 [] d c) as [_ []];
        [lia|done|]. destruct (ping_input d c) as [E1 E2]. eexists. split; [done|].
      unfold ready. fold (send_message_rfc6455 g_random_int (QueueFlags true false) 10 d c) in *.
      fold (receive_ping_rfc6455 g_random_int d c) in *. rewrite E1, E2, kp_opcode, kp_data.
      destruct kp_log as (l & -> & Hl). by rewrite messages_app, Hl, app_nil_r.
    - eexists. done. }
  destruct (op =? 0) eqn:E0.
  - destruct st as [[o acc]|]; [|done]. destruct Hst as (Ho & Hop & Hd). to_prop. subst op.
    change (negb (Z.land 0 8 =? 0)) with false. unfold process_contents_rfc6455. rewrite Hc, Hd.
    cbn [negb Z.eqb]. rewrite Hop.
    destruct ((o =? 1) && negb (g_utf8_validate d)) eqn:Eu; [done|].
    replace (if negb fin && _ then _ else _) with false by by destruct fin.
    rewrite ?Eu.
    replace ((o =? 1) || (o =? 2)) with true by (destruct Ho as [-> | ->]; done).
    rewrite Hd. cbn [mbind comp_bind]. destruct fin; intros [= <- <-].
    + eexists. split; [done|]. cbn. rewrite Hop. split; [done|]. by rewrite messages_app.
    + eexists. split; [done|]. cbn. by rewrite app_nil_r.
  - destruct ((op =? 1) || (op =? 2)) eqn:E1; [|done]. destruct st; [done|]. destruct Hst as [Hop Hd].
    assert (Ho : op = 1 ∨ op = 2) by (to_prop; lia). unfold process_contents_rfc6455.
    rewrite Hc, Hd. replace (negb (Z.land op 8 =? 0)) with false by by destruct Ho as [-> | ->].
    rewrite E0. replace (if negb fin && _ then _ else _) with false by by destruct fin.
    cbn [negb]. cbn [message_opcode set_message_opcode set_message_data message_data].
    destruct ((op =? 1) && negb (g_utf8_validate d)) eqn:Eu; [done|]. rewrite E1.
    cbn [mbind comp_bind message_data set_message_data]. destruct fin; intros [= <- <-].
    + eexists. split; [done|]. cbn. split; [done|]. by rewrite messages_app.
    + eexists. split; [done|]. cbn. by rewrite app_nil_r.
Qed.

(** ** Receiving a stream in pieces *)

Definition triple (w : wire) : bool * Z * list Z := (w_fin w, w_opcode w, w_data w).

(** The connection [c], with [more] of the stream to come, has [out] left to deliver. *)
Definition expects (server : bool) (c : connection) (more : list Z) (out : list (Z * list Z))
    : Prop :=
  ∃ st ws, inv c ∧ ready c st ∧ handshake_done c = true ∧ Forall wire_ok ws ∧
    incoming c ++ more = concat (encode server <$> ws) ∧
    assemble_all st (triple <$> ws) = Some (None, out).

Lemma encode_two server w : 2 ≤ zlen (encode server w).
Proof.
  unfold encode, wire_bytes. destruct (frame_length _) as [l ext].
  destruct server; rewrite !zlen_cons; [pose proof (zlen_nonneg (ext ++ w_data w))|
    pose proof (zlen_nonneg (ext ++ w_mask w ++ xor_with_mask_rfc6455 (w_mask w) (w_data w)))]; lia.
Qed.

Lemma process_frames_expects server fuel c more out :
  expects server c more out → (length (incoming c) < fuel)%nat →
  ∃ c' out1 out2, process_frames g_utf8_validate g_random_int fuel c = Ok c' ∧
    expects server c' more out2 ∧ out = out1 ++ out2 ∧
    messages (log c') = messages (log c) ++ out1 ∧ decode_frame (incoming c') = NeedMore.
Proof.
  revert c out. induction fuel as [|fuel IH]; intros c out; [lia|].
  intros (st & ws & Hi & Hr & Hh & Hok & E & Ha) Hf. cbn [process_frames].
  unfold process_frame_rfc6455. destruct ws as [|w ws].
  { apply app_eq_nil in E as [E ->]. rewrite E. cbn. exists c, [], out.
    rewrite app_nil_r, E. split_and!; try done. exists st, []. by rewrite E. }
  cbn [fmap list_fmap concat] in E. apply Forall_cons in Hok as [Hw Hok].
  destruct (Z.lt_ge_cases (zlen (incoming c)) (zlen (encode server w))) as [Hlt|Hge].
  { rewrite (decode_partial server w _ more _ Hw (i_bytes _ Hi) E Hlt). cbn. exists c, [], out.
    rewrite app_nil_r. split_and!; try done.
    - exists st, (w :: ws). split_and!; try done. by constructor.
    - exact (decode_partial server w _ more _ Hw (i_bytes _ Hi) E Hlt). }
  assert (Hin : ∃ rest, incoming c = encode server w ++ rest).
  { exists (drop (length (encode server w)) (incoming c)).
    apply (f_equal (take (length (encode server w)))) in E.
    rewrite take_app_length, take_app_le in E by (unfold zlen in Hge; lia).
    rewrite <- E at 1. by rewrite take_drop. }
  destruct Hin as [rest Hin]. destruct Hw as (Ho & Hm & Hd).
  assert (Hdec : decode_frame (incoming c) =
    Decoded (negb (Z.land (w_opcode w) 8 =? 0)) (w_fin w) (w_opcode w) (w_data w)
      (zlen (encode server w))) by (rewrite Hin; by apply decode_wire_bytes).
  rewrite Hdec.
  cbn [fmap list_fmap assemble_all] in Ha.
  destruct (assemble st (triple w)) as [[st1 o1]|] eqn:E1; [|done]. cbn in Ha.
  destruct (assemble_all st1 (triple <$> ws)) as [[st2 o2]|] eqn:E2; [|done].
  injection Ha as -> <-.
  destruct (contents_assemble _ _ _ _ _ _ _ Hi Hr E1) as (c1 & H1 & Hr1 & Hm1).
  destruct (contents_ok g_utf8_validate g_random_int (negb (Z.land (w_opcode w) 8 =? 0)) (w_fin w)
    (w_opcode w) (w_data w) c Hi) as (c1' & H1' & Hi1 & Hinc & Hh1 & _).
  rewrite H1 in H1'. injection H1' as <-. rewrite H1. cbn [mbind comp_bind].
  set (c2 := set_incoming _ c1).
  assert (Hinc2 : incoming c2 = rest).
  { cbn. rewrite Hinc, Hin. apply drop_exact. unfold zlen. lia. }
  destruct (IH c2 o2) as (c' & out1 & out2 & Hp & He & -> & Hmsg & Hlast).
  - exists st1, ws. split_and!; try done.
    + pose proof (i_bytes _ Hi) as Hb. rewrite Hin in Hb. apply Forall_app in Hb as [_ Hb].
      destruct Hi1. split; try done. by rewrite Hinc2.
    + cbn. by rewrite Hh1.
    + rewrite Hinc2. rewrite Hin, <- app_assoc in E. by apply app_inv_head in E.
  - pose proof (encode_two server w) as Hn. rewrite Hinc2.
    rewrite Hin, length_app in Hf. unfold zlen in Hn. lia.
  - exists c', (o1 ++ out1), out2. split_and!; try done; [by rewrite app_assoc|].
    rewrite Hmsg. change (log c2) with (log c1). by rewrite Hm1, app_assoc.
Qed.

(** One turn of the input callback: non-empty reads of at most 1024 bytes until there is
    nothing to read. *)
Definition read_event (ds : list (list Z)) : event := EInput ((ReadSome <$> ds) ++ [ReadWouldBlock]).

Definition read_ok (d : list Z) : Prop := 0 < zlen d ≤ 1024 ∧ Forall is_byte d.

Lemma reads_bytes reads : Forall (Forall read_ok) reads → Forall is_byte (concat (concat reads)).
Proof.
  intros H. apply Forall_concat, Forall_concat. eapply Forall_impl; [exact H|]. intros ds Hds.
  eapply Forall_impl; [exact Hds|]. by intros d [].
Qed.

Lemma read_loop_reads ds inc :
  Forall read_ok ds →
  read_loop ((ReadSome <$> ds) ++ [ReadWouldBlock]) inc = (inc ++ concat ds, false, None).
Proof.
  intros Hd. revert inc. induction Hd as [|d ds [[H0 H1] _] _ IH]; intros inc; cbn.
  { by rewrite app_nil_r. }
  unfold zlen in *. rewrite take_ge by lia. destruct d as [|x d]; [cbn in H0; lia|].
  by rewrite IH, <- app_assoc.
Qed.

Lemma expects_shift server c d more out :
  Forall is_byte d → expects server c (d ++ more) out →
  expects server (set_incoming (incoming c ++ d) c) more out.
Proof.
  intros Hd (st & ws & [] & Hr & Hh & Hok & E & Ha). exists st, ws. split_and!; try done.
  - split; try done. cbn. by apply Forall_app.
  - cbn. by rewrite <- app_assoc.
Qed.

Lemma feed_expects server reads c more out :
  Forall (Forall read_ok) reads → Forall is_byte (concat (concat reads)) →
  expects server c (concat (concat reads) ++ more) out → decode_frame (incoming c) = NeedMore →
  ∃ c' out1 out2, run g_utf8_validate g_random_int handshake (read_event <$> reads) c = Ok c' ∧
    expects server c' more out2 ∧ out = out1 ++ out2 ∧
    messages (log c') = messages (log c) ++ out1 ∧ decode_frame (incoming c') = NeedMore.
Proof.
  intros Hr Hb. revert c out.
  induction Hr as [|ds reads Hds _ IH]; intros c out He Hn.
  { exists c, [], out. cbn. by rewrite app_nil_r. }
  cbn [fmap list_fmap run]. cbn [concat] in Hb, He. rewrite concat_app in Hb, He.
  apply Forall_app in Hb as [Hb1 Hb2]. rewrite <- app_assoc in He.
  cbn [step read_event]. pose proof He as (st & ws & _ & (_ & Hin & _) & Hh & _).
  rewrite Hin. unfold on_web_socket_input. rewrite read_loop_reads by done.
  apply expects_shift in He; [|done]. unfold process_incoming.
  cbn [handshake_done set_incoming]. rewrite Hh. cbn [negb].
  destruct (process_frames_expects _ (S (length (incoming c ++ concat ds))) _ _ _ He)
    as (c1 & o1 & o2 & H1 & He1 & -> & Hm1 & Hl1); [cbn; lia|].
  cbn [incoming set_incoming]. rewrite H1.
  replace (handshake_done (set_incoming (incoming c ++ concat ds) c)) with true by done.
  cbn [mbind comp_bind].
  destruct (IH Hb2 c1 o2 He1 Hl1) as (c2 & p1 & p2 & H2 & He2 & -> & Hm2 & Hl2).
  exists c2, (o1 ++ p1), p2. split_and!; try done; [by rewrite app_assoc|].
  rewrite Hm2, Hm1. cbn. by rewrite app_assoc.
Qed.

Lemma expects_done server c out :
  expects server c [] out → decode_frame (incoming c) = NeedMore → out = [] ∧ incoming c = [].
Proof.
  intros (st & ws & _ & _ & _ & Hok & E & Ha) Hd. rewrite app_nil_r in E. destruct ws as [|w ws].
  { split; [by injection Ha|done]. }
  apply Forall_cons in Hok as [(Ho & Hm & Hl) _]. rewrite E in Hd. cbn in Hd.
  unfold encode at 1 in Hd. by rewrite decode_wire_bytes in Hd.
Qed.

(** ** Messages in fragments *)

Definition message_ok (m : message) : Prop :=
  (m_opcode m = 1 ∨ m_opcode m = 2) ∧ m_parts m ≠ [] ∧
  Forall (λ p, Forall (λ k, k.1 = 9 ∨ k.1 = 10) p.1) (m_parts m) ∧
  (m_opcode m = 1 → Forall (λ p, g_utf8_validate p.2 = true) (m_parts m)).

Lemma assemble_app st fs gs :
  assemble_all st (fs ++ gs) =
  '(st, out) ← assemble_all st fs; '(st, out') ← assemble_all st gs; Some (st, out ++ out').
Proof.
  revert st. induction fs as [|f fs IH]; intros st; cbn.
  { by destruct (assemble_all st gs) as [[]|]. }
  destruct (assemble st f) as [[st1 o1]|]; cbn; [|done]. rewrite IH.
  destruct (assemble_all st1 fs) as [[st2 o2]|]; cbn; [|done].
  destruct (assemble_all st2 gs) as [[st3 o3]|]; cbn; [|done]. by rewrite app_assoc.
Qed.

Lemma assemble_controls st (ks : list (Z * list Z)) :
  Forall (λ k, k.1 = 9 ∨ k.1 = 10) ks →
  assemble_all st ((λ k, (true, k.1, k.2)) <$> ks) = Some (st, []).
Proof.
  induction 1 as [|[o d] ks Ho _ IH]; [done|]. cbn [fmap list_fmap assemble_all fst snd].
  cbn in Ho. unfold assemble. by destruct Ho as [-> | ->]; cbn; rewrite IH.
Qed.

(** The fragments after the first. *)
Lemma assemble_parts o acc parts :
  o = 1 ∨ o = 2 → parts ≠ [] → Forall (λ p, Forall (λ k, k.1 = 9 ∨ k.1 = 10) p.1) parts →
  (o = 1 → Forall (λ p, g_utf8_validate p.2 = true) parts) →
  assemble_all (Some (o, acc)) (part_frames 0 parts) = Some (None, [(o, acc ++ concat parts.*2)]).
Proof.
  intros Ho Hne Hk Hu. revert acc Hne. induction Hk as [|[ks d] parts Hks _ IH]; intros acc Hne; [done|].
  cbn [part_frames]. rewrite assemble_app, assemble_controls by done. cbn [mbind option_bind assemble_all].
  assert (Hd : (o =? 1) && negb (g_utf8_validate d) = false).
  { destruct Ho as [-> | ->]; [|done]. specialize (Hu eq_refl). apply Forall_cons in Hu as [Hu _].
    cbn in Hu. by rewrite Hu. }
  unfold assemble at 1. cbn [Z.eqb orb]. rewrite Hd. destruct parts as [|p parts].
  - cbn. by rewrite app_nil_r.
  - rewrite bool_decide_eq_false_2 by done. cbn [mbind option_bind].
    rewrite IH; [cbn; by rewrite <- app_assoc| |done].
    intros H1. specialize (Hu H1). by apply Forall_cons in Hu as [_ Hu].
Qed.

Lemma assemble_message m :
  message_ok m → assemble_all None (message_frames m) = Some (None, [message_bytes m]).
Proof.
  destruct m as [o parts]. intros (Ho & Hne & Hk & Hu). unfold message_frames, message_bytes. cbn in *.
  destruct parts as [|[ks d] parts]; [done|]. apply Forall_cons in Hk as [Hks Hk].
  cbn [part_frames]. rewrite assemble_app, assemble_controls by done. cbn [mbind option_bind assemble_all].
  assert (Hd : (o =? 1) && negb (g_utf8_validate d) = false).
  { destruct Ho as [-> | ->]; [|done]. specialize (Hu eq_refl). apply Forall_cons in Hu as [Hu _].
    cbn in Hu. by rewrite Hu. }
  unfold assemble at 1. rewrite Hd.
  replace ((o =? 9) || (o =? 10)) with false by (by destruct Ho as [-> | ->]).
  replace (o =? 0) with false by (by destruct Ho as [-> | ->]).
  replace ((o =? 1) || (o =? 2)) with true by (by destruct Ho as [-> | ->]).
  destruct parts as [|p parts].
  - cbn. by rewrite app_nil_r.
  - rewrite bool_decide_eq_false_2 by done. cbn [mbind option_bind].
    rewrite (assemble_parts o d (p :: parts)); try done.
    intros H1. specialize (Hu H1). by apply Forall_cons in Hu as [_ Hu].
Qed.

Lemma assemble_messages ms :
  Forall message_ok ms →
  assemble_all None (concat (message_frames <$> ms)) = Some (None, message_bytes <$> ms).
Proof.
  induction 1 as [|m ms Hm _ IH]; [done|]. cbn [fmap list_fmap concat].
  rewrite assemble_app, assemble_message by done. cbn [mbind option_bind]. by rewrite IH.
Qed.

(** A connection at rest: open, with no input waiting and no message in progress. *)
Definition at_rest (c : connection) : Prop :=
  inv c ∧ ready c None ∧ handshake_done c = true ∧ incoming c = [].

Lemma deliver_frames server ws ms reads c :
  at_rest c → Forall wire_ok ws → triple <$> ws = concat (message_frames <$> ms) →
  Forall message_ok ms → Forall (Forall read_ok) reads →
  concat (concat reads) = concat (encode server <$> ws) →
  ∃ c', run g_utf8_validate g_random_int handshake (read_event <$> reads) c = Ok c' ∧
    messages (log c') = messages (log c) ++ (message_bytes <$> ms) ∧ incoming c' = [].
Proof.
  intros (Hi & Hr & Hh & Hinc) Hw Ht Hm Hrd E. pose proof (reads_bytes _ Hrd) as Hb.
  destruct (feed_expects server reads c [] (message_bytes <$> ms) Hrd Hb)
    as (c' & o1 & o2 & H & He & -> & Hl & Hd).
  - exists None, ws. rewrite Hinc, app_nil_r, Ht. split_and!; try done. by apply assemble_messages.
  - by rewrite Hinc.
  - destruct (expects_done _ _ _ He Hd) as [-> Hc]. exists c'. split_and!; try done.
    by rewrite app_nil_r.
Qed.

(** ** Sending *)

(** What is still to be written, and all that was or will be. *)
Definition pending (q : list Frame) : list Z :=
  concat ((λ f, drop (Z.to_nat (f_sent f)) (f_data f)) <$> q).

Definition stream (c : connection) : list Z := written c ++ pending (outgoing c).

(** The pressure signals aside, the state outside the queue is the same. *)
Record same_flags (c c' : connection) : Prop := SameFlags {
  sf_server : server_side c' = server_side c;
  sf_handshake : handshake_done c' = handshake_done c;
  sf_sent : close_sent c' = close_sent c;
  sf_stream : io_stream c' = io_stream c;
  sf_open : io_open c' = io_open c;
  sf_closed : io_closed c' = io_closed c;
  sf_received : close_received c' = close_received c;
  sf_code : peer_close_code c' = peer_close_code c;
  sf_incoming : incoming c' = incoming c;
  sf_log : ∃ l, log c' = log c ++ l ∧ Forall (λ s, ∃ b, s = PRESSURE b) l
}.

Lemma pending_cons f q :
  pending (f :: q) = drop (Z.to_nat (f_sent f)) (f_data f) ++ pending q.
Proof. done. Qed.

Lemma stream_written f q k c :
  outgoing c = f :: q → 0 ≤ f_sent f →
  let n := Nat.min k (Z.to_nat (zlen (f_data f) - f_sent f)) in
  let sent := f_sent f + Z.of_nat n in
  written c ++ take n (drop (Z.to_nat (f_sent f)) (f_data f)) ++
    (if sent >=? zlen (f_data f) then pending q
     else pending (mkFrame (f_data f) (f_last f) sent (f_amount f) :: q)) = stream c.
Proof.
  intros Eq Hs n sent. unfold stream. f_equal. rewrite Eq, (pending_cons f).
  destruct (sent >=? zlen (f_data f)) eqn:E; to_prop.
  - f_equal. apply take_ge. rewrite length_drop. unfold sent, zlen in *. lia.
  - rewrite pending_cons, app_assoc. f_equal. cbn [f_sent f_data].
    replace (Z.to_nat sent) with (Z.to_nat (f_sent f) + n)%nat by lia.
    by rewrite <- drop_drop, take_drop.
Qed.

Lemma same_flags_pressure c c' (b : bool) :
  same_flags c c' → same_flags c (if b then emit (PRESSURE false) c' else c').
Proof.
  intros []. destruct b; [|by split]. split; try done. destruct sf_log0 as (l & Hl & Hf).
  exists (l ++ [PRESSURE false]). cbn. rewrite Hl, <- app_assoc. split; [done|].
  apply Forall_app. split; [done|]. constructor; [by eexists|done].
Qed.

Lemma close_io_open c :
  io_stream c = true → io_open c = true →
  io_open (close_io_stream c) = false ∧ output_source (close_io_stream c) = false ∧
  log (close_io_stream c) = log c ++ [CLOSE_ASYNC].
Proof. intros Hs Ho. unfold close_io_stream. cbn. by rewrite Hs, Ho. Qed.

(** A write of part of the first frame, and one that completes it. *)
Lemma output_step f q k c :
  inv c → CRITICAL QueueOverflow ∉ log c → outgoing c = f :: q →
  let n := Nat.min k (Z.to_nat (zlen (f_data f) - f_sent f)) in
  let f' := mkFrame (f_data f) (f_last f) (f_sent f + Z.of_nat n) (f_amount f) in
  ∃ c', on_web_socket_output g_random_int (WriteSome k) c = Ok (c', true) ∧ inv c' ∧
    stream c' = stream c ∧
    ((f_sent f' < zlen (f_data f) ∧ outgoing c' = f' :: q ∧ same_flags c c' ∧
      output_source c' = output_source c) ∨
     (zlen (f_data f) ≤ f_sent f' ∧ outgoing c' = q ∧ f_last f = false ∧ same_flags c c' ∧
      output_source c' = output_source c) ∨
     (zlen (f_data f) ≤ f_sent f' ∧ outgoing c' = q ∧ f_last f = true ∧
      (server_side c = true → io_stream c = true → io_open c = true →
       io_open c' = false ∧ output_source c' = false ∧ CLOSE_ASYNC ∈ log c'))).
Proof.
  intros Hi Hno Eq n f'. pose proof (i_queue _ Hi) as Hq. rewrite Eq in Hq.
  assert (Hfs : 0 ≤ f_sent f < zlen (f_data f)) by (eapply queue_ok_sent; [exact Hq|constructor]).
  destruct (output_ok g_utf8_validate g_random_int (WriteSome k) c Hi Hno) as (c' & keep & H & Hi').
  pose proof (stream_written f q k c Eq (proj1 Hfs)) as Hst. cbv zeta in Hst. fold n in Hst.
  exists c'. pose proof H as H0. unfold on_web_socket_output in H0. rewrite Eq in H0.
  rewrite !(proj2 (Z.gtb_lt _ _)) in H0 by lia. cbn [cassert mbind comp_bind] in H0. fold n in H0.
  unfold output_written in H0. fold f' in H0. change (f_sent f') with (f_sent f + Z.of_nat n) in H0 |- *.
  destruct (f_sent f + Z.of_nat n >=? zlen (f_data f)) eqn:E; to_prop.
  - assert (Ht : zlen (f_data f) ≤ output_queued c).
    { destruct (i_total _ Hi) as [|Ht]; [done|]. rewrite Ht, Eq.
      pose proof (queue_total_nonneg q). unfold queue_total in *. cbn. lia. }
    cbn [output_queued set_written] in H0. rewrite (proj2 (Z.leb_le _ _)) in H0 by done.
    cbn [cassert mbind comp_bind] in H0. set (c2 := set_output_queued _ _) in H0.
    assert (Hs2 : stream c2 = stream c) by (rewrite <- Hst; cbn; by rewrite <- app_assoc).
    assert (Hf2 : same_flags c c2) by (split; try done; exists []; by rewrite app_nil_r).
    change (f_last f') with (f_last f) in H0. destruct (f_last f) eqn:El.
    + assert (Hpress : ∀ (b : bool) d, quiet c2 d →
        let e := if b then emit (PRESSURE false) d else d in
        stream e = stream c ∧ outgoing e = q).
      { intros b d [] e. rewrite <- Hs2. unfold stream, e.
        destruct b; cbn; by rewrite qt_outgoing, qt_written. }
      destruct (server_side c2) eqn:Esv; injection H0 as <- <-.
      * destruct (Hpress ((output_queued c >=? QUEUE_PRESSURE) && (output_queued (close_io_stream c2) <? QUEUE_PRESSURE))
          (close_io_stream c2) (quiet_close_io_stream c2)) as [Hs3 Ho3].
        split_and!; try done. right. right. split_and!; try done. intros _ Hst' Hop.
        destruct (close_io_open c2 Hst' Hop) as (H1 & H2 & H3).
        set (d := close_io_stream c2) in *. clearbody d.
        destruct (_ && _); cbn; rewrite H1, H2, H3, !elem_of_app; split_and!; try done.
        -- left. right. by constructor.
        -- right. by constructor.
      * set (d := close_io_after_timeout _).
        assert (Hd : quiet c2 d).
        { apply quiet_trans with (shutdown_wr_io_stream c2).
          - unfold shutdown_wr_io_stream. eapply quiet_trans; [|by apply quiet_emit]. by apply quiet_same.
          - unfold d, close_io_after_timeout. destruct (close_timeout _); by apply quiet_same. }
        destruct (Hpress ((output_queued c >=? QUEUE_PRESSURE) && (output_queued d <? QUEUE_PRESSURE))
          d Hd) as [Hs3 Ho3].
        split_and!; try done. right. right. split_and!; try done. intros Hsv.
        change (server_side c2) with (server_side c) in Esv. congruence.
    + injection H0 as <- <-. split_and!; try done.
      * destruct (_ && _); done.
      * right. left. split_and!; try done; [by destruct (_ && _)|by apply same_flags_pressure|
          by destruct (_ && _)].
  - cbn [mbind comp_bind] in H0. set (c2 := set_outgoing _ _) in H0.
    assert (Hs2 : stream c2 = stream c) by (rewrite <- Hst; cbn; by rewrite <- app_assoc).
    injection H0 as <- <-. split_and!; try done; [by destruct (_ && _)|].
    left. split_and!; try done; [by destruct (_ && _)| |by destruct (_ && _)].
    apply same_flags_pressure. split; try done. exists []. by rewrite app_nil_r.
Qed.

Lemma same_flags_over c c' :
  same_flags c c' → CRITICAL QueueOverflow ∉ log c → CRITICAL QueueOverflow ∉ log c'.
Proof.
  intros [] Hno. destruct sf_log0 as (l & -> & Hl). rewrite elem_of_app. intros [|H]; [done|].
  rewrite Forall_forall in Hl. by destruct (Hl _ H).
Qed.

(** Without a source for output nothing is written. *)
Lemma run_no_output ks c :
  output_source c = false →
  run g_utf8_validate g_random_int handshake (EOutput ∘ WriteSome <$> ks) c = Ok c.
Proof. intros H. induction ks as [|k ks IH]; cbn; [done|]. by rewrite H. Qed.

(** The queue ends with a last frame, and only there. *)
Definition ends_last (q : list Frame) : Prop :=
  ∃ q' f, q = q' ++ [f] ∧ f_last f = true ∧ Forall (λ g, f_last g = false) q'.

(** The stream of a server can take output. *)
Definition writing (c : connection) : Prop :=
  io_stream c = true ∧ io_open c = true ∧ output_source c = true.

Lemma pending_head f q :
  0 ≤ f_sent f < zlen (f_data f) →
  length (pending (f :: q)) = (Z.to_nat (zlen (f_data f) - f_sent f) + length (pending q))%nat.
Proof. intros H. rewrite pending_cons, length_app, length_drop. unfold zlen in *. lia. Qed.

(** A queue that ends with a last frame is written out, and then the stream is closed. *)
Lemma drain ks c :
  inv c → CRITICAL QueueOverflow ∉ log c → server_side c = true → writing c →
  ends_last (outgoing c) → Forall (λ k, 0 < k)%nat ks →
  (length (pending (outgoing c)) ≤ length ks)%nat →
  ∃ c', run g_utf8_validate g_random_int handshake (EOutput ∘ WriteSome <$> ks) c = Ok c' ∧
    written c' = stream c ∧ io_open c' = false ∧ CLOSE_ASYNC ∈ log c'.
Proof.
  intros Hi Hno Hsv Hw Hl Hks. revert c Hi Hno Hsv Hw Hl.
  induction Hks as [|k ks Hk _ IH]; intros c Hi Hno Hsv (Hs & Ho & Hsrc) Hl Hlen.
  - destruct (outgoing c) as [|f q] eqn:Eq; [by destruct Hl as ([|] & ? & ? & _)|].
    assert (Hfs : 0 ≤ f_sent f < zlen (f_data f)).
    { eapply queue_ok_sent; [apply (i_queue _ Hi)|]. rewrite Eq. by constructor. }
    rewrite pending_head in Hlen by done. cbn in Hlen. lia.
  - destruct (outgoing c) as [|f q] eqn:Eq; [by destruct Hl as ([|] & ? & ? & _)|].
    assert (Hfs : 0 ≤ f_sent f < zlen (f_data f)).
    { eapply queue_ok_sent; [apply (i_queue _ Hi)|]. rewrite Eq. by constructor. }
    rewrite pending_head in Hlen by done. cbn [length] in Hlen.
    cbn [fmap list_fmap run step compose]. rewrite Hsrc.
    destruct (output_step f q k c Hi Hno Eq) as (c' & -> & Hi' & Hst & Hcase). cbn [mbind comp_bind].
    destruct Hcase as [(Hlt & Eq' & Hf & Hsrc')|[(Hge & Eq' & Hlf & Hf & Hsrc')|(Hge & Eq' & Hlf & Hend)]].
    + pose proof (same_flags_over _ _ Hf Hno). destruct Hf. rewrite <- Hst.
      apply IH; try done; [congruence|split_and!; congruence| |].
      * rewrite Eq'. destruct Hl as ([|g q'] & f1 & E & Hl1 & Hl2); cbn in E; injection E as -> ->.
        -- by eexists [], _.
        -- apply Forall_cons in Hl2 as [? ?]. eexists (_ :: q'), f1. split_and!; [done|done|].
           by constructor.
      * rewrite Eq', pending_head by (cbn in *; lia). cbn [f_sent f_data]. lia.
    + pose proof (same_flags_over _ _ Hf Hno). destruct Hf. rewrite <- Hst.
      apply IH; try done; [congruence|split_and!; congruence| |rewrite Eq'; lia].
      rewrite Eq'. destruct Hl as ([|g q'] & f1 & E & Hl1 & Hl2); cbn in E; injection E as -> ->;
        [congruence|]. apply Forall_cons in Hl2 as [? ?]. by exists q', f1.
    + destruct (Hend Hsv Hs Ho) as (H1 & H2 & H3). rewrite run_no_output by done.
      exists c'. split_and!; try done. rewrite <- Hst. unfold stream. rewrite Eq'.
      destruct Hl as ([|g q'] & f1 & E & Hl1 & Hl2); cbn in E; injection E as -> ->;
        [by rewrite app_nil_r|]. apply Forall_cons in Hl2 as [? ?]. congruence.
Qed.

(** Queueing a frame that is not urgent. *)
Lemma queue_step last data amount c :
  close_sent c = false → 0 < zlen data → output_queued c + zlen data < G_MAXSIZE →
  let c' := _web_socket_connection_queue (QueueFlags false last) data amount c in
  outgoing c' = outgoing c ++ [mkFrame data last 0 amount] ∧ output_source c' = true ∧
  written c' = written c ∧ same_flags c c'.
Proof.
  intros Hc Hd Ho c'. unfold c', _web_socket_connection_queue.
  rewrite Hc, (proj2 (Z.eqb_neq _ 0)) by lia. cbn [output_queued set_outgoing].
  rewrite (proj2 (Z.gtb_lt _ _)) by lia. cbn [negb].
  set (c2 := set_output_queued _ _). set (c3 := if (_ && _) then _ else c2).
  assert (H3 : outgoing c3 = outgoing c ++ [mkFrame data last 0 amount] ∧
               written c3 = written c ∧ same_flags c c3).
  { unfold c3. destruct (_ && _); (split_and!; [done|done|]; split; try done).
    - eexists. split; [done|]. constructor; [by eexists|done].
    - exists []. by rewrite app_nil_r. }
  clearbody c3. destruct H3 as (H1 & H2 & []). unfold start_output.
  destruct (output_source c3) eqn:E; split_and!; try done; by split.
Qed.

Lemma pending_snoc q f : f_sent f = 0 → pending (q ++ [f]) = pending q ++ f_data f.
Proof. intros H. unfold pending. rewrite fmap_app, concat_app. cbn. by rewrite H, app_nil_r. Qed.

Lemma same_flags_refl c : same_flags c c.
Proof. split; try done. exists []. by rewrite app_nil_r. Qed.

Lemma same_flags_trans a b c : same_flags a b → same_flags b c → same_flags a c.
Proof.
  intros [] []. split; try congruence.
  destruct sf_log0 as (l & Hl & Hf), sf_log1 as (k & Hk & Hg).
  exists (l ++ k). rewrite Hk, Hl, app_assoc. by rewrite Forall_app.
Qed.

Lemma frame_bytes_nonempty server mask op prefix payload :
  2 ≤ zlen (frame_bytes server mask op prefix payload).
Proof.
  rewrite frame_bytes_wire.
  apply (encode_two server (Wire mask true op (frame_payload op prefix payload))).
Qed.

Lemma frame_length_ext size : zlen (frame_length size).2 ≤ 8.
Proof. unfold frame_length. destruct (size <? 126); [done|]. by destruct (size <? 65536). Qed.

Lemma frame_bytes_bound server mask op prefix payload :
  length mask = 4%nat →
  zlen (frame_bytes server mask op prefix payload) ≤ zlen prefix + zlen payload + 14.
Proof.
  intros Hm. unfold frame_bytes. set (data := frame_payload op prefix payload).
  assert (Hd : zlen data ≤ zlen prefix + zlen payload).
  { unfold data, frame_payload. pose proof (zlen_nonneg prefix). pose proof (zlen_nonneg payload).
    destruct (_ && _); rewrite zlen_app, ?zlen_take; lia. }
  pose proof (frame_length_ext (zlen data)) as He.
  destruct (frame_length (zlen data)) as [l ext]. cbn [snd] in He.
  destruct server; rewrite !zlen_cons, !zlen_app.
  - lia.
  - assert (zlen mask = 4) by (unfold zlen; lia).
    assert (zlen (xor_with_mask_rfc6455 mask data) = zlen data)
      by (unfold zlen, xor_with_mask_rfc6455; by rewrite xor_length). lia.
Qed.

(** A sent message as the peer gets it. *)
Definition type_opcode (type : data_type) : Z :=
  match type with DATA_TEXT => 1 | DATA_BINARY => 2 end.

Lemma send_prefixed_step last op prefix payload c :
  close_sent c = false → length (g_random_int (n_random c)) = 4%nat →
  output_queued c + zlen prefix + zlen payload + 14 < G_MAXSIZE →
  let bytes := frame_bytes (server_side c) (g_random_int (n_random c)) op prefix payload in
  let c' := send_prefixed_message_rfc6455 g_random_int (QueueFlags false last) op prefix payload c in
  (∃ amount, outgoing c' = outgoing c ++ [mkFrame bytes last 0 amount]) ∧ output_source c' = true ∧
  written c' = written c ∧ same_flags c c'.
Proof.
  intros Hc Hm Hl bytes c'. unfold c', send_prefixed_message_rfc6455. cbv zeta. fold bytes.
  set (c1 := if server_side c then c else _).
  set (amount := if negb _ then 0 else _).
  assert (H1 : close_sent c1 = false ∧ outgoing c1 = outgoing c ∧ written c1 = written c ∧
               output_queued c1 = output_queued c ∧ same_flags c c1).
  { unfold c1. destruct (server_side c) eqn:E; split_and!; try done; [apply same_flags_refl|].
    split; try done. exists []. by rewrite app_nil_r. }
  destruct H1 as (H1 & H2 & H3 & H4 & H5). clearbody c1.
  pose proof (frame_bytes_nonempty (server_side c) (g_random_int (n_random c)) op prefix payload).
  pose proof (frame_bytes_bound (server_side c) (g_random_int (n_random c)) op prefix payload Hm).
  fold bytes in H, H0.
  destruct (queue_step last bytes amount c1) as (G1 & G2 & G3 & G4); [done|lia|lia|].
  rewrite H2 in G1. rewrite H3 in G3. split_and!; [by exists amount|done|done|].
  by eapply same_flags_trans.
Qed.

(** Open for messages, with no close frame queued. *)
Record sending (c : connection) : Prop := Sending {
  sd_inv : inv c;
  sd_over : CRITICAL QueueOverflow ∉ log c;
  sd_closed : io_closed c = false;
  sd_open : io_stream c && negb (io_open c) = false;
  sd_sent : close_sent c = false;
  sd_handshake : handshake_done c = true;
  sd_last : Forall (λ f, f_last f = false) (outgoing c)
}.

Definition sender_event (e : event) : Prop :=
  match e with
  | ESend type prefix message =>
      zlen (prefix ++ message) < MAX_PAYLOAD ∧
      (type = DATA_TEXT → g_utf8_validate prefix = true ∧ g_utf8_validate message = true)
  | EOutput (WriteSome _) | EOutput WriteWouldBlock => True
  | _ => False
  end.

(** The messages sent. *)
Definition sent (es : list event) : list (Z * list Z) :=
  omap (λ e, match e with
             | ESend type prefix message => Some (type_opcode type, prefix ++ message)
             | _ => None
             end) es.

Definition whole (m : Z * list Z) : message := Message m.1 [([], m.2)].

Lemma sending_flags c c' :
  sending c → same_flags c c' → inv c' → Forall (λ f, f_last f = false) (outgoing c') → sending c'.
Proof.
  intros [] Hf Hi Hl. pose proof (same_flags_over _ _ Hf sd_over0). destruct Hf.
  split; try done; congruence.
Qed.

Lemma sending_open c : sending c → web_socket_connection_get_ready_state c = STATE_OPEN.
Proof. intros []. unfold web_socket_connection_get_ready_state. by rewrite sd_closed0, sd_open0, sd_sent0, sd_handshake0. Qed.

Lemma queue_total_app q r : queue_total (q ++ r) = queue_total q + queue_total r.
Proof. induction q as [|f q IH]; [done|]. unfold queue_total in *. cbn. lia. Qed.

Context (masks : ∀ n, length (g_random_int n) = 4%nat).

Lemma sending_send type prefix message c :
  sending c → sender_event (ESend type prefix message) →
  queue_total (outgoing c) + 200000 < G_MAXSIZE →
  let c' := web_socket_connection_send g_utf8_validate g_random_int type prefix message c in
  let w := Wire (g_random_int (n_random c)) true (type_opcode type) (prefix ++ message) in
  sending c' ∧ server_side c' = server_side c ∧ stream c' = stream c ++ encode (server_side c) w ∧
  queue_total (outgoing c') ≤ queue_total (outgoing c) + 200000.
Proof.
  intros Hs [Hlen Hutf] Hroom c' w. pose proof (sending_open c Hs) as Hop.
  assert (E : c' = send_prefixed_message_rfc6455 g_random_int NORMAL (type_opcode type) prefix message c).
  { unfold c', web_socket_connection_send. rewrite Hop. rewrite decide_False by (intros H; by apply H).
    destruct type; [|done]. destruct Hutf as [-> ->]; done. }
  pose proof (good_send g_utf8_validate g_random_int type prefix message c (sd_inv _ Hs)) as [Hi _].
  fold c' in Hi. change MAX_PAYLOAD with 131072 in Hlen. rewrite zlen_app in Hlen.
  assert (Ht : output_queued c = queue_total (outgoing c)).
  { destruct (i_total _ (sd_inv _ Hs)) as [H|H]; [by destruct (sd_over _ Hs)|done]. }
  destruct (send_prefixed_step false (type_opcode type) prefix message c) as ((amount & H1) & _ & H3 & H4);
    [apply Hs|apply masks|rewrite Ht; lia|]. change (QueueFlags false false) with NORMAL in *.
  rewrite <- E in H1, H3, H4.
  pose proof (frame_bytes_bound (server_side c) (g_random_int (n_random c)) (type_opcode type) prefix
    message (masks _)) as Hb.
  split_and!.
  - eapply sending_flags; [exact Hs|done|done|]. rewrite H1. apply Forall_app.
    split; [apply Hs|by constructor].
  - apply H4.
  - unfold stream. rewrite H1, H3, pending_snoc, app_assoc by done. f_equal. cbn [f_data].
    rewrite frame_bytes_wire. unfold encode. cbn. f_equal. by destruct type.
  - rewrite H1, queue_total_app. cbn. lia.
Qed.

Lemma would_block_zero c :
  on_web_socket_output g_random_int WriteWouldBlock c = on_web_socket_output g_random_int (WriteSome 0) c.
Proof. done. Qed.

Lemma sending_output k c :
  sending c →
  ∃ c', on_web_socket_output g_random_int (WriteSome k) c = Ok (c', true) ∧ sending c' ∧
    server_side c' = server_side c ∧ stream c' = stream c ∧
    queue_total (outgoing c') ≤ queue_total (outgoing c).
Proof.
  intros Hs. pose proof Hs as []. destruct (outgoing c) as [|f q] eqn:Eq.
  { unfold on_web_socket_output. rewrite Eq. eexists. split; [done|].
    split_and!; [|done|done|cbn; by rewrite Eq].
    apply (sending_flags c); [done| | |cbn; by rewrite Eq].
    - split; try done. exists []. by rewrite app_nil_r.
    - eapply inv_quiet; [|exact sd_inv0]. by apply quiet_same. }
  destruct (output_step f q k c sd_inv0 sd_over0 Eq) as (c' & H & Hi & Hst & Hc).
  apply Forall_cons in sd_last0 as [Hf Hq]. exists c'. split; [done|].
  destruct Hc as [(_ & Eq' & Hsf & _)|[(_ & Eq' & _ & Hsf & _)|(_ & _ & Hl & _)]]; [| |congruence].
  - split_and!; [|apply Hsf|done|rewrite Eq'; done].
    eapply sending_flags; try done. rewrite Eq'. by constructor.
  - split_and!; [|apply Hsf|done|].
    + eapply sending_flags; try done. by rewrite Eq'.
    + rewrite Eq'. pose proof (zlen_nonneg (f_data f)). unfold queue_total. cbn. lia.
Qed.

Lemma sending_run es c :
  sending c → Forall sender_event es →
  queue_total (outgoing c) + 200000 * zlen es < G_MAXSIZE →
  ∃ c' ws, run g_utf8_validate g_random_int handshake es c = Ok c' ∧ Forall wire_ok ws ∧
    stream c' = stream c ++ concat (encode (server_side c) <$> ws) ∧
    triple <$> ws = concat (message_frames <$> (whole <$> sent es)).
Proof.
  intros Hs He. revert c Hs. induction He as [|e es He _ IH]; intros c Hs Hroom.
  { exists c, []. cbn. by rewrite app_nil_r. }
  rewrite zlen_cons in Hroom. pose proof (zlen_nonneg es) as Hz. cbn [run].
  assert (Hout : ∀ k, (∃ keep, e = EOutput keep ∧ (keep = WriteSome k ∨ k = 0%nat ∧ keep = WriteWouldBlock)) →
    ∃ c' ws, (c ← step g_utf8_validate g_random_int handshake e c;
              run g_utf8_validate g_random_int handshake es c) = Ok c' ∧ Forall wire_ok ws ∧
    stream c' = stream c ++ concat (encode (server_side c) <$> ws) ∧
    triple <$> ws = concat (message_frames <$> (whole <$> sent (e :: es)))).
  { intros k (a & -> & Ha). cbn [step]. destruct (output_source c).
    - replace (on_web_socket_output g_random_int a c)
        with (on_web_socket_output g_random_int (WriteSome k) c)
        by (destruct Ha as [-> |[-> ->]]; done).
      destruct (sending_output k c Hs) as (c1 & -> & Hs1 & Hsv & Hst & Hq). cbn [mbind comp_bind].
      destruct (IH c1 Hs1) as (c2 & ws & H2 & Hw & Hst2 & Ht); [lia|]. exists c2, ws.
      rewrite Hst2, Hst, Hsv. done.
    - cbn [mbind comp_bind]. destruct (IH c Hs) as (c2 & ws & H2 & Hw & Hst2 & Ht); [lia|].
      exists c2, ws. done. }
  destruct e as [?|[k| |?]| |?|type prefix message|? ?| |?]; try done.
  - apply (Hout k). eexists. split; [done|]. by left.
  - apply (Hout 0%nat). eexists. split; [done|]. by right.
  - clear Hout. cbn [step mbind comp_bind].
    destruct (sending_send type prefix message c Hs He) as (Hs1 & Hsv & Hst & Hq); [lia|].
    destruct (IH _ Hs1) as (c2 & ws & H2 & Hw & Hst2 & Ht); [lia|].
    exists c2, (Wire (g_random_int (n_random c)) true (type_opcode type) (prefix ++ message) :: ws).
    split_and!; [done| | |].
    + constructor; [|done]. destruct He as [Hl _]. split_and!; [by destruct type..|apply masks|done].
    + rewrite Hst2, Hst, Hsv, <- app_assoc. done.
    + cbn [fmap list_fmap]. rewrite Ht. done.
Qed.

Lemma whole_ok es :
  (∀ p m, g_utf8_validate p = true → g_utf8_validate m = true → g_utf8_validate (p ++ m) = true) →
  Forall sender_event es → Forall message_ok (whole <$> sent es).
Proof.
  intros Hu. induction 1 as [|e es He _ IH]; [constructor|].
  destruct e as [?|[k| |?]| |?|type prefix message|? ?| |?]; try done.
  cbn. constructor; [|done]. destruct He as [_ He]. split_and!; cbn.
  - destruct type; [by left|by right].
  - done.
  - by repeat constructor.
  - intros H. constructor; [|done]. cbn. destruct type; [|done].
    destruct (He eq_refl). by apply Hu.
Qed.

Lemma whole_bytes (l : list (Z * list Z)) : message_bytes <$> (whole <$> l) = l.
Proof.
  induction l as [|[o d] l IH]; [done|]. cbn [fmap list_fmap]. f_equal; [|done].
  unfold message_bytes, whole. cbn. by rewrite app_nil_r.
Qed.

(** ** Closing *)

(** Once a close frame is queued nothing more is. *)
Definition frozen (c c' : connection) : Prop :=
  close_sent c = true →
  close_sent c' = true ∧ written c' = written c ∧ outgoing c' = outgoing c.

Lemma frozen_same c c' :
  close_sent c' = close_sent c → written c' = written c → outgoing c' = outgoing c → frozen c c'.
Proof. intros H1 H2 H3 Hc. by rewrite H1. Qed.

Lemma frozen_refl c : frozen c c.
Proof. by apply frozen_same. Qed.

Lemma frozen_trans a b c : frozen a b → frozen b c → frozen a c.
Proof.
  intros H1 H2 Ha. destruct (H1 Ha) as (Hb & E1 & E2). destruct (H2 Hb) as (Hc & E3 & E4).
  split_and!; congruence.
Qed.

Lemma frozen_close_io_stream c : frozen c (close_io_stream c).
Proof.
  unfold close_io_stream. set (d := close_io_stop_timeout c).
  apply frozen_trans with d; [by apply frozen_same|].
  destruct (_ && _); [by apply frozen_same|]. destruct (io_open d); by apply frozen_same.
Qed.

Lemma frozen_send_prefixed flags op prefix payload c :
  frozen c (send_prefixed_message_rfc6455 g_random_int flags op prefix payload c).
Proof.
  unfold send_prefixed_message_rfc6455. cbv zeta. set (c1 := if server_side c then c else _).
  apply frozen_trans with c1; [unfold c1; destruct (server_side c); by apply frozen_same|].
  intros Hc. unfold _web_socket_connection_queue. by rewrite Hc.
Qed.

Lemma frozen_send_close flags code reason c :
  frozen c (send_close_rfc6455 g_random_int flags code reason c).
Proof.
  unfold send_close_rfc6455.
  apply frozen_trans with (send_message_rfc6455 g_random_int flags 8 (close_payload code reason) c).
  - apply frozen_send_prefixed.
  - by intros Hc.
Qed.

Lemma frozen_error_and_close e prejudice c :
  frozen c (_web_socket_connection_error_and_close g_random_int e prejudice c).
Proof.
  unfold _web_socket_connection_error_and_close. set (c1 := match e with Some (GTls _) => _ | _ => c end).
  apply frozen_trans with c1.
  { unfold c1. destruct e as [[code|t|]|]; try apply frozen_refl.
    destruct (server_side c); [apply frozen_refl|]. destruct t; by apply frozen_same. }
  clearbody c1. destruct (_web_socket_connection_error e c1) as [c2 ok] eqn:E.
  apply frozen_trans with c2.
  { unfold _web_socket_connection_error in E. destruct (decide _); [|injection E as <- <-; apply frozen_refl].
    destruct e; injection E as <- <-; by apply frozen_same. }
  destruct (negb ok); [apply frozen_refl|].
  destruct (match web_socket_connection_get_ready_state c2 with
            | CLOSED => true | STATE_CLOSING => _ | _ => false end); [apply frozen_refl|].
  destruct (prejudice || _); [apply frozen_close_io_stream|apply frozen_send_close].
Qed.

Lemma frozen_send type prefix message c :
  frozen c (web_socket_connection_send g_utf8_validate g_random_int type prefix message c).
Proof.
  unfold web_socket_connection_send. destruct (decide _); [by apply frozen_same|].
  destruct type; [|by apply frozen_send_prefixed].
  destruct (_ || _); [by apply frozen_same|by apply frozen_send_prefixed].
Qed.

Lemma frozen_close code data c : frozen c (web_socket_connection_close g_random_int code data c).
Proof. intros Hc. unfold web_socket_connection_close. by rewrite Hc. Qed.

Lemma frozen_receive_close data c :
  frozen c (receive_close_rfc6455 g_utf8_validate g_random_int data c).
Proof.
  unfold receive_close_rfc6455. cbv zeta. set (c1 := set_close_received true _).
  set (c2 := match data with _ :: _ :: _ => _ | _ => c1 end). set (c3 := if _ && _ then _ else c2).
  apply frozen_trans with c3.
  { apply frozen_trans with c1; [by apply frozen_same|]. apply frozen_trans with c2.
    - unfold c2. destruct data as [|? [|? ?]]; by apply frozen_same.
    - unfold c3. destruct (_ && _); by apply frozen_same. }
  destruct (close_sent c3); [|apply frozen_close].
  apply frozen_trans with (shutdown_wr_io_stream c3); [by apply frozen_same|].
  destruct (server_side _); [apply frozen_close_io_stream|apply frozen_refl].
Qed.

Lemma frozen_contents control fin op payload c c' :
  process_contents_rfc6455 g_utf8_validate g_random_int control fin op payload c = Ok c' → frozen c c'.
Proof.
  unfold process_contents_rfc6455. destruct control.
  { destruct (negb fin); [intros [= <-]; apply frozen_error_and_close|].
    destruct (op =? 8); [intros [= <-]; apply frozen_receive_close|].
    destruct (op =? 9); intros [= <-]; [apply frozen_send_prefixed|apply frozen_refl]. }
  destruct (close_received c); [intros [= <-]; apply frozen_refl|].
  destruct (if negb fin && _ then _ else _); [intros [= <-]; apply frozen_error_and_close|].
  set (c1 := if negb (op =? 0) then _ else c).
  assert (H1 : frozen c c1) by (unfold c1; destruct (negb (op =? 0)); by apply frozen_same).
  intros H. eapply frozen_trans; [exact H1|]. clearbody c1. revert H.
  destruct (_ && _).
  { intros [= <-]. unfold bad_data_error_and_close.
    apply frozen_trans with (set_message_opcode 0 (set_message_data None c1));
      [by apply frozen_same|apply frozen_error_and_close]. }
  destruct (_ || _); [destruct (message_data c1) as [d|]; [|done]|]; cbn [mbind comp_bind];
    (destruct fin; [|intros [= <-]; by apply frozen_same]).
  - intros [= <-]. by apply frozen_same.
  - destruct (message_data c1); [|done]. intros [= <-]. by apply frozen_same.
Qed.

Lemma frozen_frames fuel c c' :
  process_frames g_utf8_validate g_random_int fuel c = Ok c' → frozen c c'.
Proof.
  revert c. induction fuel as [|fuel IH]; intros c; [done|]. cbn [process_frames].
  unfold process_frame_rfc6455.
  destruct (decode_frame (incoming c)) as [| |control fin op payload consumed]; cbn [mbind comp_bind].
  - intros [= <-]. apply frozen_refl.
  - intros [= <-]. unfold too_big_error_and_close.
    eapply frozen_trans; [apply frozen_error_and_close|by apply frozen_same].
  - destruct (process_contents_rfc6455 _ _ control fin op payload c) as [c1| |] eqn:E; [|done..].
    cbn [mbind comp_bind]. intros H. apply frozen_contents in E. apply IH in H.
    eapply frozen_trans; [exact E|]. eapply frozen_trans; [|exact H]. by apply frozen_same.
Qed.

Lemma frozen_incoming c c' :
  process_incoming g_utf8_validate g_random_int handshake c = Ok c' → frozen c c'.
Proof.
  unfold process_incoming. set (c1 := if negb (handshake_done c) then _ else c).
  assert (H1 : frozen c c1).
  { unfold c1. destruct (negb (handshake_done c)); [|apply frozen_refl].
    destruct (handshake (incoming c)) as [[] rest]; by apply frozen_same. }
  intros H. eapply frozen_trans; [exact H1|]. destruct (handshake_done c1).
  - by eapply frozen_frames.
  - injection H as <-. apply frozen_refl.
Qed.

Lemma frozen_input answers c c' :
  on_web_socket_input g_utf8_validate g_random_int handshake answers c = Ok c' → frozen c c'.
Proof.
  unfold on_web_socket_input. destruct (read_loop answers (incoming c)) as [[inc e] error].
  destruct error as [e'|].
  { intros [= <-]. eapply frozen_trans; [|apply frozen_error_and_close]. by apply frozen_same. }
  destruct (process_incoming _ _ _ _) as [c1| |] eqn:E; [|done..]. cbn [mbind comp_bind].
  apply frozen_incoming in E. intros [= <-].
  apply frozen_trans with c1; [eapply frozen_trans; [|exact E]; by apply frozen_same|].
  destruct e; [|apply frozen_refl].
  eapply frozen_trans; [|apply frozen_close_io_stream]. destruct (_ || _); by apply frozen_same.
Qed.

Definition unsent (c : connection) : Prop := Forall (λ f, 0 ≤ f_sent f) (outgoing c).

Lemma inv_unsent c : inv c → unsent c.
Proof.
  intros Hi. unfold unsent. apply Forall_forall. intros f Hf.
  apply (queue_ok_sent _ _ f (i_queue _ Hi)) in Hf. lia.
Qed.

(** Once a close frame is queued, what has been or will be written stays the same. *)
Definition held (c c' : connection) : Prop :=
  close_sent c = true → unsent c → close_sent c' = true ∧ unsent c' ∧ stream c' = stream c.

Lemma held_frozen c c' : frozen c c' → held c c'.
Proof.
  intros H Hc Hu. destruct (H Hc) as (H1 & H2 & H3). unfold unsent, stream. by rewrite H2, H3.
Qed.

Lemma held_trans a b c : held a b → held b c → held a c.
Proof.
  intros H1 H2 Ha Hu. destruct (H1 Ha Hu) as (Hb & Hu1 & E1). destruct (H2 Hb Hu1) as (Hc & Hu2 & E2).
  split_and!; congruence.
Qed.

Lemma held_written f q k c c' :
  outgoing c = f :: q →
  output_written f q (Nat.min k (Z.to_nat (zlen (f_data f) - f_sent f))) c = Ok c' → held c c'.
Proof.
  intros Eq. unfold output_written. set (n := Nat.min _ _). intros H Hc Hu. pose proof Hu as Hu'.
  unfold unsent in Hu'. rewrite Eq in Hu'. apply Forall_cons in Hu' as [Hf Hq].
  pose proof (stream_written f q k c Eq Hf) as Hst. cbv zeta in Hst. fold n in Hst. revert H.
  cbn [f_sent f_last]. destruct (f_sent f + Z.of_nat n >=? zlen (f_data f)).
  - set (c2 := set_output_queued _ _). intros H.
    assert (Hs : held c c2).
    { intros _ _. split_and!; [done|done|]. rewrite <- Hst. unfold stream. cbn. by rewrite <- app_assoc. }
    assert (H2 : frozen c2 c'); [|by apply (held_trans _ _ _ Hs (held_frozen _ _ H2))].
    destruct (cassert _); [|done..]. cbn [mbind comp_bind] in H. injection H as <-.
    destruct (f_last f); [|apply frozen_refl].
    change (server_side c2) with (server_side c). destruct (server_side c); [apply frozen_close_io_stream|].
    unfold close_io_after_timeout. destruct (close_timeout _); by apply frozen_same.
  - intros [= <-]. split_and!; [done| |].
    + apply Forall_cons. split; [cbn; lia|done].
    + rewrite <- Hst. unfold stream. cbn [outgoing written set_outgoing set_written].
      by rewrite <- app_assoc.
Qed.

Lemma held_output answer c c' keep :
  on_web_socket_output g_random_int answer c = Ok (c', keep) → held c c'.
Proof.
  unfold on_web_socket_output. destruct (outgoing c) as [|f q] eqn:Eq.
  { intros [= <- _]. by apply held_frozen, frozen_same. }
  unfold cassert. destruct (zlen (f_data f) >? 0); [|done]. cbn [mbind comp_bind].
  destruct (zlen (f_data f) >? f_sent f); [|done]. cbn [mbind comp_bind].
  assert (Hk : ∀ k, (self ← output_written f q (Nat.min k (Z.to_nat (zlen (f_data f) - f_sent f))) c;
      Ok (E := unit) (if (output_queued c >=? QUEUE_PRESSURE) && (output_queued self <? QUEUE_PRESSURE)
          then emit (PRESSURE false) self else self, true)) = Ok (c', keep) → held c c').
  { intros k. destruct (output_written _ _ _ _) as [c2| |] eqn:E; [|done..]. cbn [mbind comp_bind].
    apply held_written in E; [|done]. intros [= <- _]. eapply held_trans; [exact E|].
    apply held_frozen. destruct (_ && _); by apply frozen_same. }
  destruct answer as [k| |e]; [apply Hk|apply (Hk 0%nat)|].
  intros [= <- _]. apply held_frozen, frozen_error_and_close.
Qed.

Lemma held_step e c c' : step g_utf8_validate g_random_int handshake e c = Ok c' → held c c'.
Proof.
  assert (Hid : Ok (E := unit) c = Ok c' → held c c') by (intros [= <-]; apply held_frozen, frozen_refl).
  destruct e; cbn [step].
  - destruct (input_source c); [|done]. intros H. by eapply held_frozen, frozen_input.
  - destruct (output_source c); [|done].
    destruct (on_web_socket_output _ _ _) as [[c1 keep]| |] eqn:E; [|done..]. cbn [mbind comp_bind].
    apply held_output in E. intros [= <-]. eapply held_trans; [exact E|]. apply held_frozen.
    destruct keep; by apply frozen_same.
  - destruct (start_idle c); [|done]. intros H. apply frozen_incoming in H. apply held_frozen.
    eapply frozen_trans; [|exact H]. by apply frozen_same.
  - intros [= <-]. apply held_frozen. unfold on_throttle_pressure.
    destruct throttle; (destruct (_ && _); by apply frozen_same).
  - intros [= <-]. apply held_frozen, frozen_send.
  - intros [= <-]. apply held_frozen, frozen_close.
  - intros [= <-]. apply held_frozen. destruct (close_timeout c); [|apply frozen_refl].
    eapply frozen_trans; [|apply frozen_close_io_stream]. by apply frozen_same.
  - intros [= <-]. apply held_frozen. unfold on_iostream_closed.
    destruct error; [destruct (negb _)|]; by apply frozen_same.
Qed.

Lemma held_run es c c' : run g_utf8_validate g_random_int handshake es c = Ok c' → held c c'.
Proof.
  revert c. induction es as [|e es IH]; intros c; cbn [run].
  { intros [= <-]. apply held_frozen, frozen_refl. }
  destruct (step _ _ _ e c) as [c1| |] eqn:E; [|done..]. cbn [mbind comp_bind]. intros H.
  eapply held_trans; [by eapply held_step|by apply IH].
Qed.

(** The code a close frame carries. *)
Definition closing_code (d : list Z) : Z :=
  match d with hi :: lo :: _ => Z.lor (Z.shiftl hi 8) lo | _ => 0 end.

Lemma receive_close_step d c :
  sending c → server_side c = true → io_stream c = true → output_queued c + 200 < G_MAXSIZE →
  let c' := receive_close_rfc6455 g_utf8_validate g_random_int d c in
  stream c' = stream c ++ frame_bytes true (g_random_int (n_random c)) 8 []
                           (close_payload (closing_code d) None) ∧
  ends_last (outgoing c') ∧ CRITICAL QueueOverflow ∉ log c' ∧ server_side c' = true ∧ writing c' ∧
  written c' = written c ∧ close_received c' = true ∧ peer_close_code c' = closing_code d ∧
  incoming c' = incoming c.
Proof.
  intros [] Hsv Hio Hroom c'. unfold c', receive_close_rfc6455. cbv zeta.
  set (c1 := set_close_received true _). set (c2 := match d with _ :: _ :: _ => _ | _ => c1 end).
  set (c3 := if _ && _ then _ else c2).
  assert (H3 : (server_side c3 = server_side c ∧ handshake_done c3 = handshake_done c ∧
    close_sent c3 = close_sent c ∧ io_stream c3 = io_stream c ∧ io_open c3 = io_open c ∧
    log c3 = log c) ∧ outgoing c3 = outgoing c ∧ written c3 = written c ∧
    output_queued c3 = output_queued c ∧ n_random c3 = n_random c ∧ close_received c3 = true ∧
    peer_close_code c3 = closing_code d ∧ incoming c3 = incoming c).
  { unfold c3, c2, closing_code. clear c3 c2. destruct d as [|? [|? ?]]; (destruct ((_ >? 2) && _); by split_and!). }
  clearbody c3. destruct H3 as ((S3 & A3 & C3 & T3 & X3 & L3) & O3 & W3 & Q3 & N3 & R3 & P3 & I3).
  rewrite C3, sd_sent0. unfold web_socket_connection_close. rewrite C3, sd_sent0.
  set (c4 := emit CLOSING c3). change (handshake_done c4) with (handshake_done c3).
  rewrite A3, sd_handshake0. change (server_side c4) with (server_side c3).
  change (close_received c4) with (close_received c3). rewrite S3, Hsv, R3. cbn [andb].
  unfold send_close_rfc6455, send_message_rfc6455. rewrite P3.
  set (payload := close_payload (closing_code d) None).
  assert (Hp : zlen payload ≤ 2) by (unfold payload, close_payload; by destruct (_ =? _)).
  destruct (send_prefixed_step true 8 [] payload c4) as ((amount & H1) & H2 & H4 & H5);
    [change (close_sent c4) with (close_sent c3); congruence|apply masks|
     change (output_queued c4) with (output_queued c3); rewrite Q3; change (zlen (@nil Z)) with 0; lia|].
  set (c5 := send_prefixed_message_rfc6455 _ _ _ _ _ _) in *. clearbody c5.
  change (server_side c4) with (server_side c3) in H1. change (n_random c4) with (n_random c3) in H1.
  change (outgoing c4) with (outgoing c3) in H1. change (written c4) with (written c3) in H4.
  rewrite S3, Hsv, N3, O3 in H1. rewrite W3 in H4.
  assert (Hover5 : CRITICAL QueueOverflow ∉ log c5).
  { apply (same_flags_over c4); [done|]. cbn. rewrite L3, elem_of_app. intros [?|Hx]; [done|].
    apply list_elem_of_singleton in Hx. done. }
  set (c6 := close_io_after_timeout _).
  assert (H6 : outgoing c6 = outgoing c5 ∧ written c6 = written c5 ∧ log c6 = log c5 ∧
    server_side c6 = server_side c5 ∧ io_stream c6 = io_stream c5 ∧ io_open c6 = io_open c5 ∧
    output_source c6 = output_source c5 ∧ close_sent c6 = true ∧
    close_received c6 = close_received c5 ∧ peer_close_code c6 = peer_close_code c5 ∧
    incoming c6 = incoming c5).
  { unfold c6, close_io_after_timeout. by destruct (close_timeout _). }
  clearbody c6. destruct H6 as (E1 & E2 & E3 & E4 & E5 & E6 & E7 & E8 & E9 & E10 & E11).
  destruct H5. cbn in sf_server0, sf_stream0, sf_open0, sf_received0, sf_code0, sf_incoming0.
  assert (Hopen : io_open c = true) by (rewrite Hio in sd_open0; by destruct (io_open c)).
  split_and!; try congruence.
  - unfold stream. rewrite E1, E2, H1, H4, pending_snoc, app_assoc by done. done.
  - rewrite E1, H1. eexists _, _. split_and!; [done|done|exact sd_last0].
  - split_and!; congruence.
Qed.

(** ** What the connection promises *)

(** C6: Messages are delivered whole, in order and once.  A peer sends messages cut into any
    number of fragments, with pings and pongs between and inside them, each frame masked or
    not as its side has it; however the stream is cut into reads and input callbacks, a
    connection at rest delivers exactly these messages, each the concatenation of its
    fragments, and no input is left over.  Every fragment of a text message has to be
    valid UTF-8 by itself. *)
Theorem fragments_delivered server ws ms reads c :
  at_rest c → Forall wire_ok ws → triple <$> ws = concat (message_frames <$> ms) →
  Forall message_ok ms → Forall (Forall read_ok) reads →
  concat (concat reads) = concat (encode server <$> ws) →
  ∃ c', run g_utf8_validate g_random_int handshake (read_event <$> reads) c = Ok c' ∧
    messages (log c') = messages (log c) ++ (message_bytes <$> ms) ∧ incoming c' = [].
Proof. apply deliver_frames. Qed.

(** C7: What one side sends the other delivers.  Whatever the turns in which the messages are
    sent and the stream takes bytes, the sending side does not fault; and when its queue has
    been written out, a receiver that reads these bytes, in any pieces, delivers the same
    messages in the same order, each its prefix followed by its contents.  The messages are
    below the limit of the receiver's frames, which the sender does not check. *)
Theorem sent_is_delivered es reads c r :
  (∀ p m, g_utf8_validate p = true → g_utf8_validate m = true → g_utf8_validate (p ++ m) = true) →
  sending c → written c = [] → outgoing c = [] → Forall sender_event es →
  200000 * zlen es < G_MAXSIZE →
  at_rest r → Forall (Forall read_ok) reads →
  ∃ c', run g_utf8_validate g_random_int handshake es c = Ok c' ∧
    (outgoing c' = [] → concat (concat reads) = written c' →
     ∃ r', run g_utf8_validate g_random_int handshake (read_event <$> reads) r = Ok r' ∧
       messages (log r') = messages (log r) ++ sent es ∧ incoming r' = []).
Proof.
  intros Hu Hs Hw Ho He Hn Hr Hrd.
  destruct (sending_run es c Hs He) as (c' & ws & H & Hws & Hst & Ht); [rewrite Ho; cbn; lia|].
  exists c'. split; [done|]. intros Ho' E. rewrite <- (whole_bytes (sent es)).
  apply (deliver_frames (server_side c) ws); try done; [by apply whole_ok|].
  rewrite E. unfold stream in Hst. rewrite Ho, Ho', Hw in Hst. by rewrite app_nil_r in Hst.
Qed.

(** Nothing follows a close frame.  Once a close frame has been queued, what has been
    written and what is queued form a sequence of bytes that no later operation changes,
    whatever the user, the peer and the streams do: later messages, pings and a second
    close are not sent, and what is on the wire stays a beginning of that sequence. *)
Theorem nothing_after_close es c c' :
  inv c → close_sent c = true →
  run g_utf8_validate g_random_int handshake es c = Ok c' →
  stream c' = stream c ∧ written c' `prefix_of` stream c.
Proof.
  intros Hi Hc H.
  destruct (held_run es c c' H Hc (inv_unsent _ Hi)) as (_ & _ & Hst).
  split; [done|]. rewrite <- Hst. unfold stream. by eexists.
Qed.

(** The closing handshake of a server ends.  When a close frame arrives at an open
    server, the server records the peer's code and queues, behind everything queued
    before, a close frame with that code; and once the stream has taken bytes often
    enough, everything queued is on the wire, ended by this frame, and the stream is
    closed. *)
Theorem close_completes server mask d ds ks c :
  sending c → server_side c = true → io_stream c = true → input_source c = true →
  incoming c = [] → output_queued c + 200 < G_MAXSIZE →
  wire_ok (Wire mask true 8 d) → Forall read_ok ds →
  concat ds = encode server (Wire mask true 8 d) →
  let reply := frame_bytes true (g_random_int (n_random c)) 8 []
                 (close_payload (closing_code d) None) in
  Forall (λ k, 0 < k)%nat ks → (length (pending (outgoing c)) + length reply ≤ length ks)%nat →
  ∃ c1 c', run g_utf8_validate g_random_int handshake [read_event ds] c = Ok c1 ∧
    peer_close_code c1 = closing_code d ∧ close_received c1 = true ∧
    stream c1 = stream c ++ reply ∧
    run g_utf8_validate g_random_int handshake (EOutput ∘ WriteSome <$> ks) c1 = Ok c' ∧
    written c' = stream c ++ reply ∧ io_open c' = false ∧ CLOSE_ASYNC ∈ log c'.
Proof.
  intros Hs Hsv Hio Hin Hinc Hroom Hw Hds E reply Hks Hlen.
  set (b := concat ds) in *. set (c0 := set_incoming b c).
  assert (Hb : Forall is_byte b).
  { apply Forall_concat. eapply Forall_impl; [exact Hds|]. by intros x []. }
  assert (Hs0 : sending c0) by (destruct Hs; split; try done; destruct sd_inv0; by split).
  destruct (receive_close_step d c0 Hs0 Hsv Hio Hroom) as (H1 & H2 & H3 & H4 & H5 & H6 & H7 & H8 & H9).
  destruct (good_receive_close g_utf8_validate g_random_int d c0 (sd_inv _ Hs0)) as [Hi1 _].
  set (c1 := receive_close_rfc6455 g_utf8_validate g_random_int d c0) in *.
  set (c2 := set_incoming [] c1).
  assert (Hrun : run g_utf8_validate g_random_int handshake [read_event ds] c = Ok c2).
  { cbn [run step read_event]. rewrite Hin. unfold on_web_socket_input.
    rewrite read_loop_reads, Hinc by done. change ([] ++ concat ds) with b. fold c0.
    unfold process_incoming. change (handshake_done c0) with (handshake_done c).
    rewrite (sd_handshake _ Hs). cbn [negb]. change (handshake_done c0) with (handshake_done c).
    rewrite (sd_handshake _ Hs). change (incoming c0) with b.
    assert (Hlb : (2 ≤ length b)%nat).
    { pose proof (encode_two server (Wire mask true 8 d)) as He. rewrite <- E in He.
      unfold zlen in He. lia. }
    assert (Hpf : process_frame_rfc6455 g_utf8_validate g_random_int c0 = Ok (c2, true)).
    { unfold process_frame_rfc6455. replace (decode_frame (incoming c0))
        with (Decoded true true 8 d (zlen (encode server (Wire mask true 8 d)))).
      2: { change (incoming c0) with b. rewrite E. destruct Hw as (Hwo & Hwm & Hwd).
           pose proof (decode_wire_bytes server true mask 8 d [] Hwo Hwm Hwd) as Hdec.
           rewrite app_nil_r in Hdec. by symmetry. }
      replace (process_contents_rfc6455 _ _ _ _ _ _ _) with (Ok (E := unit) c1) by done.
      cbn [mbind comp_bind]. rewrite H9. change (incoming c0) with b. rewrite E, drop_ge; [done|].
      unfold zlen. lia. }
    destruct (length b) as [|[|n]]; [lia..|]. cbn [process_frames]. rewrite Hpf. done. }
  assert (Hi2 : inv c2) by (destruct Hi1; split; try done; constructor).
  destruct (drain ks c2 Hi2 H3 H4 H5 H2 Hks) as (c' & G1 & G2 & G3 & G4).
  { change (outgoing c2) with (outgoing c1).
    assert (Hp : length (stream c1) = (length (written c1) + length (pending (outgoing c1)))%nat)
      by (unfold stream; by rewrite length_app).
    rewrite H1, H6 in Hp. unfold stream in Hp. rewrite !length_app in Hp.
    change (written c0) with (written c) in Hp. change (outgoing c0) with (outgoing c) in Hp.
    change (n_random c0) with (n_random c) in Hp. fold reply in Hp. lia. }
  exists c2, c'. split_and!; try done.
  rewrite G2. exact H1.
Qed.
(** A character must not be split between fragments.  RFC 6455 allows the fragments of a
    text message to be cut anywhere; the code validates each by itself, so that a first
    fragment that ends inside a character ends the connection with an error, whatever
    the rest of the message is. *)
Theorem split_character_refused d c :
  sending c → ready c None → g_utf8_validate d = false →
  ∃ c', process_contents_rfc6455 g_utf8_validate g_random_int false false 1 d c = Ok c' ∧
    ERROR (GWebSocket WEB_SOCKET_CLOSE_BAD_DATA) ∈ log c' ∧ close_sent c' = true ∧
    messages (log c') = messages (log c).
Proof.
  intros Hs (Hrc & _ & Hop & Hd) Hu. unfold process_contents_rfc6455. rewrite Hrc, Hd.
  cbn [negb andb Z.eqb Pos.eqb]. rewrite bool_decide_eq_false_2 by (intros H; by apply H).
  cbn [message_opcode set_message_opcode set_message_data]. rewrite Hu. cbn [Z.eqb Pos.eqb negb andb].
  eexists. split; [done|]. set (c1 := set_message_opcode 0 _).
  assert (Hs1 : sending c1) by (destruct Hs; split; try done; destruct sd_inv0; by split).
  destruct (good_error_and_close g_random_int (Some (GWebSocket WEB_SOCKET_CLOSE_BAD_DATA)) false c1
    (sd_inv _ Hs1)) as [_ [_ _ _ _ _ (l & Hl & Hm)]].
  unfold bad_data_error_and_close. split_and!.
  - clear Hl Hm. unfold _web_socket_connection_error_and_close, _web_socket_connection_error.
    pose proof (sending_open c1 Hs1) as Ho. rewrite Ho, decide_True by done. cbn [negb].
    destruct Hs1. set (c2 := emit (ERROR _) (set_dirty_close true c1)).
    assert (H2 : web_socket_connection_get_ready_state c2 = STATE_OPEN) by exact Ho.
    rewrite H2. change (handshake_done c2) with (handshake_done c1). rewrite sd_handshake0.
    cbn [negb orb].
    match goal with |- _ ∈ log (send_close_rfc6455 _ ?f ?k ?r _) =>
      destruct (good_send_close g_random_int f k r c2) as [_ [_ _ _ _ _ (l2 & -> & _)]] end.
    { eapply inv_quiet; [|exact sd_inv0]. unfold c2.
      eapply quiet_trans; [|by apply quiet_emit]. by apply quiet_same. }
    rewrite elem_of_app. left. cbn. rewrite elem_of_app. right. by constructor.
  - clear Hl Hm. unfold _web_socket_connection_error_and_close, _web_socket_connection_error.
    pose proof (sending_open c1 Hs1) as Ho. rewrite Ho, decide_True by done. cbn [negb].
    destruct Hs1. set (c2 := emit (ERROR _) (set_dirty_close true c1)).
    assert (H2 : web_socket_connection_get_ready_state c2 = STATE_OPEN) by exact Ho.
    rewrite H2. change (handshake_done c2) with (handshake_done c1). by rewrite sd_handshake0.
  - rewrite Hl, messages_app, Hm, app_nil_r. done.
Qed.
End Delivery.

(** ** Instances *)

(** Valid strings of characters of one or two bytes. *)
Fixpoint utf8_short (l : list Z) : bool :=
  match l with
  | [] => true
  | a :: l' =>
      if a <? 128 then utf8_short l'
      else match l' with
           | b :: l'' => (194 <=? a) && (a <? 224) && (128 <=? b) && (b <? 192) && utf8_short l''
           | [] => false
           end
  end.

Lemma utf8_short_app p m :
  utf8_short p = true → utf8_short m = true → utf8_short (p ++ m) = true.
Proof.
  intros Hp Hm. revert Hp. remember (length p) as n eqn:En. revert p En.
  induction n as [n IH] using lt_wf_ind. intros [|a [|b p]] ->; cbn; [done| |].
  - destruct (a <? 128); [done|done].
  - destruct (a <? 128); [|rewrite !andb_true_iff; intros [Ha H]; split; [done|]].
    + intros H. change (utf8_short (b :: p) = true) in H.
      change (utf8_short ((b :: p) ++ m) = true). by apply (IH (length (b :: p))); [cbn; lia|..].
    + by apply (IH (length p)); [cbn; lia|..].
Qed.

Definition example_masks (n : nat) : list Z := [1; 2; 3; Z.of_nat n].

(** A text message in two fragments with a ping between them, from a client. *)
Definition example_wires : list wire :=
  [Wire [9; 8; 7; 6] false 1 (bs "Co"); Wire [5; 4; 3; 2] true 9 [1];
   Wire [1; 2; 3; 4] true 0 (bs "ck")].

Definition example_message : message := Message 1 [([], bs "Co"); ([(9, [1])], bs "ck")].

Lemma open_connection_at_rest server : at_rest (open_connection server).
Proof. split_and!; try done. apply open_connection_inv. Qed.

Lemma open_connection_sending server : sending (open_connection server).
Proof.
  split; first [apply open_connection_inv|done|by intros H%elem_of_nil|constructor].
Qed.

Lemma fragments_delivered_witness :
  let stream := concat (encode false <$> example_wires) in
  let reads := [[take 3 stream]; [take 9 (drop 3 stream); drop 12 stream]] in
  ∃ c', run utf8_short example_masks line_handshake (read_event <$> reads) (open_connection true)
        = Ok c' ∧
    messages (log c') = messages (log (open_connection true)) ++ (message_bytes <$> [example_message]) ∧
    incoming c' = [].
Proof.
  intros stream reads.
  exact (fragments_delivered utf8_short example_masks line_handshake false example_wires
    [example_message] reads (open_connection true) (open_connection_at_rest true)
    ltac:(repeat constructor; vm_compute; congruence) ltac:(reflexivity)
    ltac:(constructor; [|constructor]; unfold message_ok; cbn; split_and!;
          [by left|done|repeat constructor|intros _; repeat constructor])
    ltac:(repeat constructor; vm_compute; congruence) ltac:(reflexivity)).
Defined.

Lemma example_masks_length n : length (example_masks n) = 4%nat.
Proof. done. Qed.

(** A client sends two messages; the stream takes a byte, nothing, and then the rest. *)
Definition example_sends : list event :=
  [ESend DATA_TEXT (bs "5") (bs "hi"); EOutput (WriteSome 1); EOutput WriteWouldBlock;
   ESend DATA_BINARY [] [0; 255]; EOutput (WriteSome 99); EOutput (WriteSome 99)].

Lemma example_sends_ok : Forall (sender_event utf8_short) example_sends.
Proof.
  repeat (apply Forall_cons; split); try exact I; try (split; [reflexivity|done]). constructor.
Qed.

Definition example_written : list Z :=
  match run utf8_short example_masks line_handshake example_sends (open_connection false) with
  | Ok c => written c
  | _ => []
  end.

Lemma example_written_ok : Forall (Forall read_ok) [[example_written]].
Proof. unfold read_ok. by_decide. Qed.

Lemma example_room : 200000 * zlen example_sends < G_MAXSIZE.
Proof. by_decide. Qed.

Lemma sent_is_delivered_witness :
  ∃ c', run utf8_short example_masks line_handshake example_sends (open_connection false) = Ok c' ∧
    (outgoing c' = [] → concat (concat [[example_written]]) = written c' →
     ∃ r', run utf8_short example_masks line_handshake (read_event <$> [[example_written]])
             (open_connection true) = Ok r' ∧
       messages (log r') = messages (log (open_connection true)) ++ sent example_sends ∧
       incoming r' = []).
Proof.
  exact (sent_is_delivered utf8_short example_masks line_handshake example_masks_length
    example_sends [[example_written]] (open_connection false) (open_connection true)
    utf8_short_app (open_connection_sending false) eq_refl eq_refl
    example_sends_ok example_room (open_connection_at_rest true) example_written_ok).
Defined.

(** The premises of the receiving side hold there too. *)
Example example_drained :
  match run utf8_short example_masks line_handshake example_sends (open_connection false) with
  | Ok c => outgoing c = [] ∧ concat (concat [[example_written]]) = written c ∧
            sent example_sends = [(1, bs "5hi"); (2, [0; 255])]
  | _ => False
  end.
Proof. vm_compute. done. Qed.

(** A server that has sent its close frame. *)
Definition closed_connection : connection :=
  web_socket_connection_close example_masks 1000 None
    (web_socket_connection_send utf8_short example_masks DATA_BINARY [] [7] (open_connection true)).

Lemma closed_connection_inv : inv closed_connection.
Proof.
  apply (good_close example_masks 1000 None),
    (good_send utf8_short example_masks DATA_BINARY [] [7]), open_connection_inv.
Qed.

Lemma nothing_after_close_witness :
  let es := [EOutput (WriteSome 2); ESend DATA_BINARY [] [8]; EInput [ReadSome [137; 0]];
             EOutput (WriteSome 9)] in
  ∃ c', run utf8_short example_masks line_handshake es closed_connection = Ok c' ∧
    stream c' = stream closed_connection ∧ written c' `prefix_of` stream closed_connection.
Proof.
  intros es. eexists. split; [vm_compute; reflexivity|].
  apply (nothing_after_close utf8_short example_masks line_handshake es closed_connection).
  - exact closed_connection_inv.
  - vm_compute. reflexivity.
  - vm_compute. reflexivity.
Defined.

Lemma close_completes_witness :
  let d := [3; 232] in
  let c := web_socket_connection_send utf8_short example_masks DATA_BINARY [] [7]
             (open_connection true) in
  let ds := [encode false (Wire [1; 2; 3; 4] true 8 d)] in
  let reply := frame_bytes true (example_masks (n_random c)) 8 []
                 (close_payload (closing_code d) None) in
  ∃ c1 c', run utf8_short example_masks line_handshake [read_event ds] c = Ok c1 ∧
    peer_close_code c1 = closing_code d ∧ close_received c1 = true ∧
    stream c1 = stream c ++ reply ∧
    run utf8_short example_masks line_handshake (EOutput ∘ WriteSome <$> replicate 7 3%nat) c1
      = Ok c' ∧
    written c' = stream c ++ reply ∧ io_open c' = false ∧ CLOSE_ASYNC ∈ log c'.
Proof.
  intros d c ds.
  assert (Hs : sending c).
  { split; try (vm_compute; reflexivity).
    - apply (good_send utf8_short example_masks DATA_BINARY [] [7]), open_connection_inv.
    - vm_compute. intros H. by apply elem_of_nil in H.
    - vm_compute. by repeat constructor. }
  exact (close_completes utf8_short example_masks line_handshake example_masks_length false
    [1; 2; 3; 4] d ds (replicate 7 3%nat) c Hs eq_refl eq_refl eq_refl eq_refl ltac:(reflexivity)
    ltac:(repeat constructor; vm_compute; congruence)
    ltac:(repeat constructor; vm_compute; congruence) ltac:(reflexivity)
    ltac:(repeat constructor) ltac:(vm_compute; repeat constructor)).
Defined.

(** The first byte of "é" alone is refused, although the two bytes are valid. *)
Lemma split_character_refused_witness :
  utf8_short [195; 169] = true ∧
  ∃ c', process_contents_rfc6455 utf8_short example_masks false false 1 [195] (open_connection true)
        = Ok c' ∧
    ERROR (GWebSocket WEB_SOCKET_CLOSE_BAD_DATA) ∈ log c' ∧ close_sent c' = true ∧
    messages (log c') = messages (log (open_connection true)).
Proof.
  split; [reflexivity|].
  apply (split_character_refused utf8_short example_masks [195] (open_connection true)).
  - apply open_connection_sending.
  - by split_and!.
  - reflexivity.
Defined.
