(* ===== verification/Handshake.v ===== *)
(** * The handshake of WebSockets

    [src/websocket/websocketserver.c], [src/websocket/websocketclient.c] and the choice of a
    protocol in [src/websocket/websocketconnection.c].  Both ends speak HTTP (see [Http]) until they
    have agreed; then what follows belongs to the connection of [WebSocket], whose parameter
    [handshake] the server provides.

    SHA-1 and GLib's Base64 are parameters, as is [g_utf8_validate]. *)

From S2P Require Import Prelude Http WebSocket.
#[local] Open Scope Z_scope.

(** ** The choice of a protocol *)

(** [g_strsplit_set] *)
Fixpoint strsplit_set_loop (cur : list Z) (string delimiters : list Z) : list (list Z) :=
  match string with
  | [] => [rev cur]
  | c :: s =>
      if bool_decide (c ∈ delimiters) then rev cur :: strsplit_set_loop [] s delimiters
      else strsplit_set_loop (c :: cur) s delimiters
  end.

Definition strsplit_set (string delimiters : list Z) : list (list Z) :=
  match string with [] => [] | _ => strsplit_set_loop [] string delimiters end.

(** [g_strjoinv] *)
Fixpoint strjoinv (separator : list Z) (l : list (list Z)) : list Z :=
  match l with
  | [] => []
  | [s] => s
  | s :: l => s ++ separator ++ strjoinv separator l
  end.

(** Whether there is an agreement, and the protocol that has been chosen. *)
Definition _web_socket_connection_choose_protocol (protocols : option (list (list Z)))
    (value : option (list Z)) : bool * option (list Z) :=
  match value with
  | None => (true, p ← protocols; head p)
  | Some value =>
      if negb (forallb (λ c, c <? 128) value) then (false, None)
      else
        let values := strsplit_set value (bs ", ") in
        match protocols with
        | None => (true, head values)
        | Some protocols =>
            match list_find (λ v, v ∈ protocols) values with
            | Some (_, v) => (true, Some v)
            | None => (false, None)
            end
        end
  end.

Section Handshake.
Context (g_utf8_validate : list Z → bool).
Context (sha1 : list Z → list Z).
Context (g_base64_encode g_base64_decode : list Z → list Z).

(** The proof that the server has seen the key. *)
Definition _web_socket_complete_accept_key_rfc6455 (key : list Z) : list Z :=
  g_base64_encode (sha1 (key ++ bs "258EAFA5-E914-47DA-95CA-C5AB0DC85B11")).

Local Notation accept_key := _web_socket_complete_accept_key_rfc6455.

Notation parse_headers := (web_socket_util_parse_headers g_utf8_validate).

(** ** The server *)

Record WebSocketServer := mkServer {
  protocol_chosen : bool;
  allowed_origins : option (list (list Z));
  allowed_protocols : option (list (list Z));
  request_headers : option headers                         (* that have been parsed already *)
}.

Definition set_request_headers (h : option headers) (s : WebSocketServer) : WebSocketServer :=
  mkServer (protocol_chosen s) (allowed_origins s) (allowed_protocols s) h.
Definition set_protocol_chosen (b : bool) (s : WebSocketServer) : WebSocketServer :=
  mkServer b (allowed_origins s) (allowed_protocols s) (request_headers s).

(** What the server does: it waits, it refuses with a response that is the last thing it sends, it
    gives up without one, or it agrees with a response, on a protocol. *)
Inductive verdict :=
| Waiting
| Refused (response : list Z)
| Unanswered
| Agreed (response : list Z) (protocol : option (list Z)).

Definition forbidden_response : list Z :=
  bs "HTTP/1.1 403 Forbidden" ++ crlf ++ bs "Connection: close" ++ crlf ++ crlf ++
  bs "<html><head><title>403 Forbidden</title></head>" ++ crlf ++
  bs "<body>Received invalid WebSocket request</body></html>" ++ crlf.

Definition bad_response : list Z :=
  bs "HTTP/1.1 400 Bad Request" ++ crlf ++ bs "Connection: close" ++ crlf ++ crlf ++
  bs "<html><head><title>400 Bad Request</title></head>" ++ crlf ++
  bs "<body>Received invalid WebSocket request</body></html>" ++ crlf.

Definition respond_handshake_forbidden : verdict := Refused forbidden_response.
Definition respond_handshake_bad : verdict := Refused bad_response.

Definition validate_rfc6455_websocket_key (key : list Z) : bool :=
  negb ((zlen key =? 0) || (zlen key >? 1024)) && (zlen (g_base64_decode key) =? 16).

Definition agreed_response (key : list Z) (protocol : option (list Z)) : list Z :=
  bs "HTTP/1.1 101 Switching Protocols" ++ crlf ++ bs "Upgrade: websocket" ++ crlf ++
  bs "Connection: Upgrade" ++ crlf ++ bs "Sec-WebSocket-Accept: " ++ accept_key key ++ crlf ++
  match protocol with
  | Some p => bs "Sec-WebSocket-Protocol: " ++ p ++ crlf
  | None => []
  end ++ crlf.

Definition origin_allowed (self : WebSocketServer) (t : headers) : bool :=
  match allowed_origins self with
  | None => true
  | Some origins =>
      match table_lookup t (bs "Origin") with
      | None => false
      | Some origin => existsb (strcasecmp_eq origin) origins
      end
  end.

Definition respond_handshake_rfc6455 (self : WebSocketServer) (t : headers) : verdict * WebSocketServer :=
  let '(agreed, protocol) :=
    _web_socket_connection_choose_protocol (allowed_protocols self)
      (table_lookup t (bs "Sec-WebSocket-Protocol")) in
  if negb (_web_socket_util_header_equals t (bs "Upgrade") (bs "websocket")) ||
     negb (_web_socket_util_header_contains t (bs "Connection") (bs "upgrade")) ||
     negb (_web_socket_util_header_equals t (bs "Sec-WebSocket-Version") (bs "13")) ||
     negb agreed
  then (respond_handshake_bad, self)
  else
    let self := set_protocol_chosen true self in
    match table_lookup t (bs "Sec-WebSocket-Key"), table_lookup t (bs "Host") with
    | Some key, Some _ =>
        if negb (validate_rfc6455_websocket_key key) then (respond_handshake_bad, self)
        else if negb (origin_allowed self t) then (respond_handshake_forbidden, self)
        else (Agreed (agreed_response key protocol) protocol, self)
    | _, _ => (respond_handshake_bad, self)
    end.

(** The verdict, what is left of the input, and the server. *)
Definition parse_handshake_request (self : WebSocketServer) (incoming : list Z)
    : verdict * list Z * WebSocketServer :=
  match request_headers self with
  | Some t =>
      let '(v, self) := respond_handshake_rfc6455 (set_request_headers None self) t in (v, incoming, self)
  | None =>
      match web_socket_util_parse_req_line incoming with
      | Truncated => (Waiting, incoming, self)
      | Invalid => (respond_handshake_bad, incoming, self)
      | Parsed in1 (method, _) =>
          match parse_headers (drop in1 incoming) with
          | Truncated => (Waiting, incoming, self)
          | Invalid => (respond_handshake_bad, incoming, self)
          | Parsed in2 t =>
              let rest := drop (in1 + in2) incoming in
              if bool_decide (method = bs "GET") then
                let '(v, self) := respond_handshake_rfc6455 self t in (v, rest, self)
              else (Unanswered, rest, self)
          end
      end
  end.

Definition agreed (v : verdict) : bool := match v with Agreed _ _ => true | _ => false end.

(** The parameter of [WebSocket], of a server that reads the request itself. *)
Definition web_socket_server_handshake (self : WebSocketServer) (incoming : list Z) : bool * list Z :=
  let '(v, rest, _) := parse_handshake_request self incoming in (agreed v, rest).

(** ** The client *)

Record WebSocketClient := mkClient {
  origin : option (list Z);
  possible_protocols : option (list (list Z));
  include_headers : list (list Z * option (list Z));
  client_accept_key : option (list Z);
  response_headers : option headers
}.

Definition web_socket_client_include_header (self : WebSocketClient) (name : list Z)
    (value : option (list Z)) : WebSocketClient :=
  mkClient (origin self) (possible_protocols self)
    (filter (λ h, strcasecmp_eq h.1 name = false) (include_headers self) ++ [(name, value)])
    (client_accept_key self) (response_headers self).

Inductive client_verdict :=
| ClientWaiting
| ClientRefused (status : option Z)              (* the status of a refusal, none of a protocol error *)
| ClientOpen (protocol : option (list Z)).

Definition include_custom_headers (self : WebSocketClient) : list Z :=
  include_headers self ≫= λ h, match h.2 with
                               | Some value => h.1 ++ bs ": " ++ value ++ crlf
                               | None => []
                               end.

(** [raw]: 16 random bytes. *)
Definition request_handshake_rfc6455 (self : WebSocketClient) (raw host path : list Z)
    : list Z * WebSocketClient :=
  let key := g_base64_encode raw in
  (bs "GET " ++ path ++ bs " HTTP/1.1" ++ crlf ++ bs "Host: " ++ host ++ crlf ++
   bs "Upgrade: websocket" ++ crlf ++ bs "Connection: Upgrade" ++ crlf ++
   bs "Sec-WebSocket-Key: " ++ key ++ crlf ++ bs "Sec-WebSocket-Version: 13" ++ crlf ++
   bs "Origin: " ++ default (bs "null") (origin self) ++ crlf ++
   match possible_protocols self with
   | Some protocols => bs "Sec-WebSocket-Protocol: " ++ strjoinv (bs ", ") protocols ++ crlf
   | None => []
   end ++
   include_custom_headers self ++ crlf,
   mkClient (origin self) (possible_protocols self) (include_headers self) (Some (accept_key key))
     (response_headers self)).

(** [None] if the URL is not valid. *)
Definition request_handshake (self : WebSocketClient) (url raw : list Z)
    : comp unit (list Z * WebSocketClient) :=
  '(_, host, path) ← _web_socket_util_parse_url url;
  Ok (request_handshake_rfc6455 self raw host path).

Definition verify_handshake_rfc6455 (self : WebSocketClient) (t : headers) : client_verdict :=
  let '(agreed, protocol) :=
    _web_socket_connection_choose_protocol (possible_protocols self)
      (table_lookup t (bs "Sec-Websocket-Protocol")) in
  if negb (_web_socket_util_header_equals t (bs "Upgrade") (bs "websocket")) ||
     negb (_web_socket_util_header_contains t (bs "Connection") (bs "upgrade")) ||
     negb agreed ||
     negb (_web_socket_util_header_empty t (bs "Sec-WebSocket-Extensions"))
  then ClientRefused None
  else
    match table_lookup t (bs "Sec-WebSocket-Accept"), client_accept_key self with
    | Some value, Some key => if strcasecmp_eq key value then ClientOpen protocol else ClientRefused None
    | _, _ => ClientRefused None
    end.

Definition parse_handshake_response (self : WebSocketClient) (incoming : list Z)
    : comp unit (client_verdict * list Z * WebSocketClient) :=
  line ← web_socket_util_parse_status_line incoming;
  match line with
  | Truncated => Ok (ClientWaiting, incoming, self)
  | Invalid => Ok (ClientRefused None, incoming, self)
  | Parsed in1 (_, status, _) =>
      match parse_headers (drop in1 incoming) with
      | Truncated => Ok (ClientWaiting, incoming, self)
      | Invalid => Ok (ClientRefused None, incoming, self)
      | Parsed in2 t =>
          let self := mkClient (origin self) (possible_protocols self) (include_headers self)
                        (client_accept_key self) (Some t) in
          let rest := drop (in1 + in2) incoming in
          if status =? 101 then Ok (verify_handshake_rfc6455 self t, rest, self)
          else Ok (ClientRefused (Some status), rest, self)
      end
  end.
(** ** The handshake as the parameter of a connection *)

(** What the server leaves of its input is the end of it. *)
Lemma server_handshake_front self incoming : ∃ p, incoming = p ++ (web_socket_server_handshake self incoming).2.
Proof.
  unfold web_socket_server_handshake, parse_handshake_request.
  destruct (request_headers self) as [t|].
  { destruct (respond_handshake_rfc6455 _ _). by exists []. }
  destruct (web_socket_util_parse_req_line incoming) as [| |in1 [method path]]; [by exists []..|].
  destruct (parse_headers (drop in1 incoming)) as [| |in2 t]; [by exists []..|].
  exists (take (in1 + in2) incoming). case_bool_decide; [destruct (respond_handshake_rfc6455 _ _)|];
    symmetry; apply take_drop.
Qed.

(** ** Who is accepted *)

(** A case in which neither side holds. *)
Local Ltac refuted := split; [done|intros ((? & ? & ? & ?) & ? & ? & ? & ? & ? & ?); congruence].

(** A server agrees exactly with requests to upgrade to version 13 of the protocol, with a key of
    16 bytes, for a host, from an origin that is allowed when origins are restricted, and
    in a protocol that both sides know; the response proves that the server has seen the key, and
    no other request changes the state of the connection. *)
Theorem server_agrees_iff self t response protocol :
  (respond_handshake_rfc6455 self t).1 = Agreed response protocol ↔
  (∃ key, table_lookup t (bs "Sec-WebSocket-Key") = Some key ∧ validate_rfc6455_websocket_key key = true ∧
     response = agreed_response key protocol) ∧
  _web_socket_util_header_equals t (bs "Upgrade") (bs "websocket") = true ∧
  _web_socket_util_header_contains t (bs "Connection") (bs "upgrade") = true ∧
  _web_socket_util_header_equals t (bs "Sec-WebSocket-Version") (bs "13") = true ∧
  is_Some (table_lookup t (bs "Host")) ∧
  _web_socket_connection_choose_protocol (allowed_protocols self)
    (table_lookup t (bs "Sec-WebSocket-Protocol")) = (true, protocol) ∧
  (∀ origins, allowed_origins self = Some origins →
     ∃ o allowed, table_lookup t (bs "Origin") = Some o ∧ allowed ∈ origins ∧ strcasecmp_eq o allowed = true).
Proof.
  unfold respond_handshake_rfc6455.
  assert (Horigin : origin_allowed self t = true ↔ ∀ origins, allowed_origins self = Some origins →
     ∃ o allowed, table_lookup t (bs "Origin") = Some o ∧ allowed ∈ origins ∧ strcasecmp_eq o allowed = true).
  { unfold origin_allowed. destruct (allowed_origins self) as [origins|]; [|by split].
    destruct (table_lookup t (bs "Origin")) as [o|].
    - rewrite existsb_exists. split.
      + intros (a & Ha & E) ? [= <-]. exists o, a. by rewrite list_elem_of_In.
      + intros H. destruct (H origins eq_refl) as (o' & a & [= <-] & Ha & E). exists a. by rewrite <- list_elem_of_In.
    - split; [done|]. intros H. by destruct (H origins eq_refl) as (? & ? & ? & _). }
  rewrite <- Horigin. clear Horigin.
  change (origin_allowed (set_protocol_chosen true self) t) with (origin_allowed self t).
  destruct (_web_socket_connection_choose_protocol _ _) as [b p].
  destruct (_web_socket_util_header_equals t (bs "Upgrade") _); cbn [negb orb fst];
    [|refuted].
  destruct (_web_socket_util_header_contains t _ _); cbn [negb orb fst]; [|refuted].
  destruct (_web_socket_util_header_equals t (bs "Sec-WebSocket-Version") _); cbn [negb orb fst];
    [|refuted].
  destruct b; cbn [negb fst]; [|refuted].
  destruct (table_lookup t (bs "Sec-WebSocket-Key")) as [key|]; [|refuted].
  destruct (table_lookup t (bs "Host")) as [host|]; [|split; [done|by intros (_ & _ & _ & _ & [? ?] & _)]].
  destruct (validate_rfc6455_websocket_key key) eqn:Ek; cbn [negb fst]; [|refuted].
  destruct (origin_allowed self t); cbn [negb fst]; [|refuted].
  split.
  - intros [= <- <-]. split; [by exists key|by split_and!].
  - intros ((k & [= <-] & _ & ->) & _ & _ & _ & _ & [= ->] & _). done.
Qed.

(** ** Both ends together *)

(** A name of a protocol. *)
Definition protocol_name (p : list Z) : Prop := word p ∧ 44 ∉ p.

Lemma not_delimiter c : c ≠ 44 → c ≠ 32 → c ∉ bs ", ".
Proof. change (bs ", ") with [44; 32]. rewrite !not_elem_of_cons.
  pose proof (not_elem_of_nil c). tauto. Qed.

Lemma split_set_word cur p r : protocol_name p →
  strsplit_set_loop cur (p ++ bs ", " ++ r) (bs ", ") =
  (rev cur ++ p) :: [] :: strsplit_set_loop [] r (bs ", ").
Proof.
  intros [[_ H] Hc]. revert cur. induction H as [|c p Hr _ IH]; intros cur; [by rewrite app_nil_r|].
  apply not_elem_of_cons in Hc as [H44 Hc]. cbn [app strsplit_set_loop].
  rewrite bool_decide_eq_false_2, IH by (done || by apply not_delimiter; lia).
  cbn [rev]. by rewrite <- app_assoc.
Qed.

Lemma split_set_last cur p : protocol_name p → strsplit_set_loop cur p (bs ", ") = [rev cur ++ p].
Proof.
  intros [[_ H] Hc]. revert cur. induction H as [|c p Hr _ IH]; intros cur; [by rewrite app_nil_r|].
  apply not_elem_of_cons in Hc as [H44 Hc]. cbn [app strsplit_set_loop].
  rewrite bool_decide_eq_false_2, IH by (done || by apply not_delimiter; lia).
  cbn [rev]. by rewrite <- app_assoc.
Qed.

(** The parts of a list of protocols are the protocols, with empty strings between them. *)
Fixpoint with_gaps (ps : list (list Z)) : list (list Z) :=
  match ps with [] => [] | [p] => [p] | p :: ps => p :: [] :: with_gaps ps end.

Lemma split_joined ps : ps ≠ [] → Forall protocol_name ps →
  strsplit_set (strjoinv (bs ", ") ps) (bs ", ") = with_gaps ps.
Proof.
  intros Hne H. destruct ps as [|p ps]; [done|].
  assert (E : strsplit_set_loop [] (strjoinv (bs ", ") (p :: ps)) (bs ", ") = with_gaps (p :: ps)).
  { clear Hne. revert p H. induction ps as [|q ps IH]; intros p [Hp H]%Forall_cons.
    - by apply split_set_last.
    - change (strjoinv (bs ", ") (p :: q :: ps)) with (p ++ bs ", " ++ strjoinv (bs ", ") (q :: ps)).
      rewrite split_set_word, IH by done. done. }
  unfold strsplit_set. rewrite <- E. apply Forall_cons in H as [[[Hp _] _] _].
  by destruct p as [|c p], ps as [|q ps].
Qed.

Lemma find_with_gaps (ps qs : list (list Z)) : [] ∉ qs →
  (snd <$> list_find (λ v, v ∈ qs) (with_gaps ps)) = (snd <$> list_find (λ v, v ∈ qs) ps).
Proof.
  intros Hq. induction ps as [|p [|q ps] IH]; [done..|].
  change (with_gaps (p :: q :: ps)) with (p :: [] :: with_gaps (q :: ps)). cbn [list_find].
  destruct (decide (p ∈ qs)); [done|]. rewrite decide_False by done.
  cbn [list_find] in IH. revert IH. generalize (list_find (λ v, v ∈ qs) (with_gaps (q :: ps))).
  intros [[i x]|]; destruct (decide (q ∈ qs)); cbn; try done; by destruct (list_find _ ps) as [[]|].
Qed.

(** The protocol that a client and a server agree on: the first of the client's that the server knows;
    whoever has no list takes what the other names first. *)
Definition common_protocol (client server : option (list (list Z))) : option (option (list Z)) :=
  match client, server with
  | None, server => Some (server ≫= head)
  | Some ps, None => Some (head ps)
  | Some ps, Some qs => (λ v, Some v.2) <$> list_find (λ v, v ∈ qs) ps
  end.

Definition protocols_ok (ps : option (list (list Z))) : Prop :=
  ∀ l, ps = Some l → l ≠ [] ∧ Forall protocol_name l.

Lemma word_ascii s : Forall (λ c, 32 ≤ c < 128) s → forallb (λ c, c <? 128) s = true.
Proof. intros H. apply forallb_forall. intros c Hc%list_elem_of_In. rewrite Forall_forall in H. specialize (H c Hc). lia. Qed.

Lemma joined_chars ps : Forall protocol_name ps → Forall (λ c, 32 ≤ c < 128) (strjoinv (bs ", ") ps).
Proof.
  induction 1 as [|p ps [[_ Hp] _] Hps IH]; [constructor|].
  assert (Hp' : Forall (λ c, 32 ≤ c < 128) p) by (eapply Forall_impl; [exact Hp|]; cbn; lia).
  destruct ps; [done|]. change (strjoinv (bs ", ") (p :: l :: ps)) with (p ++ bs ", " ++ strjoinv (bs ", ") (l :: ps)).
  rewrite !Forall_app. split_and!; [done| |done]. by_decide.
Qed.

Lemma server_chooses ps qs p : protocols_ok ps → protocols_ok qs → common_protocol ps qs = Some p →
  _web_socket_connection_choose_protocol qs (strjoinv (bs ", ") <$> ps) = (true, p).
Proof.
  intros Hp Hq. destruct ps as [ps|]; [|by intros [= <-]]. destruct (Hp ps eq_refl) as [Hne Hps].
  cbn [fmap option_fmap option_map _web_socket_connection_choose_protocol].
  rewrite word_ascii by by apply joined_chars. cbn [negb]. rewrite split_joined by done.
  destruct qs as [qs|].
  - destruct (Hq qs eq_refl) as [_ Hqs]. cbn [common_protocol]. intros H.
    assert (H0 : [] ∉ qs).
    { intros Hin. rewrite Forall_forall in Hqs. by destruct (Hqs _ Hin) as [[? _] _]. }
    pose proof (find_with_gaps ps qs H0) as E.
    destruct (list_find _ ps) as [[i x]|]; [|done]. injection H as <-.
    destruct (list_find _ (with_gaps ps)) as [[j y]|]; [|done]. by injection E as ->.
  - intros [= <-]. destruct ps as [|x [|]]; done.
Qed.

Lemma client_chooses ps qs p : protocols_ok ps → protocols_ok qs → common_protocol ps qs = Some p →
  _web_socket_connection_choose_protocol ps p = (true, p) ∧ ∀ x, p = Some x → protocol_name x.
Proof.
  intros Hp Hq Hc.
  assert (Hx : ∀ x, p = Some x → protocol_name x ∧ ∀ l, ps = Some l → x ∈ l).
  { intros x ->. destruct ps as [ps|], qs as [qs|]; cbn in Hc.
    - destruct (list_find _ ps) as [[i y]|] eqn:E; [|done]. injection Hc as ->.
      apply list_find_Some in E as (E & _ & _). apply list_elem_of_lookup_2 in E.
      destruct (Hp ps eq_refl) as [_ H]. rewrite Forall_forall in H. split; [by apply H|]. by intros ? [= <-].
    - destruct (Hp ps eq_refl) as [_ H]. destruct ps as [|y ps]; [done|]. injection Hc as ->.
      apply Forall_cons in H as [H _]. split; [done|]. intros ? [= <-]. left.
    - destruct (Hq qs eq_refl) as [_ H]. destruct qs as [|y qs]; [done|]. injection Hc as ->.
      apply Forall_cons in H as [H _]. by split.
    - done. }
  split; [|intros x Ex; by apply Hx]. destruct p as [x|].
  - destruct (Hx x eq_refl) as [Hn Hin]. cbn. rewrite word_ascii.
    2:{ destruct Hn as [[_ H] _]. eapply Forall_impl; [exact H|]. cbn. lia. }
    cbn [negb]. pose proof (split_joined [x]) as E. cbn in E. rewrite E by (done || by constructor).
    destruct ps as [ps|]; [|done]. cbn. by rewrite decide_True by by apply Hin.
  - destruct ps as [ps|]; [|done]. destruct (Hp ps eq_refl) as [Hne _]. destruct qs as [qs|]; cbn in Hc.
    + by destruct (list_find _ ps) as [[]|].
    + by destruct ps.
Qed.

Definition custom_headers (c : WebSocketClient) : headers :=
  omap (λ h, pair h.1 <$> h.2) (include_headers c).

Definition protocol_header (value : option (list Z)) : headers :=
  match value with Some v => [(bs "Sec-WebSocket-Protocol", v)] | None => [] end.

Definition client_headers (c : WebSocketClient) (key host : list Z) : headers :=
  [(bs "Host", host); (bs "Upgrade", bs "websocket"); (bs "Connection", bs "Upgrade");
   (bs "Sec-WebSocket-Key", key); (bs "Sec-WebSocket-Version", bs "13");
   (bs "Origin", default (bs "null") (origin c))] ++
  protocol_header (strjoinv (bs ", ") <$> possible_protocols c) ++ custom_headers c.

Definition server_headers (key : list Z) (protocol : option (list Z)) : headers :=
  [(bs "Upgrade", bs "websocket"); (bs "Connection", bs "Upgrade"); (bs "Sec-WebSocket-Accept", accept_key key)] ++
  protocol_header protocol.

Lemma header_lines_app a b : header_lines (a ++ b) = header_lines a ++ header_lines b.
Proof. apply bind_app. Qed.

Lemma custom_header_lines c : include_custom_headers c = header_lines (custom_headers c).
Proof.
  unfold include_custom_headers, custom_headers. induction (include_headers c) as [|[n [v|]] l IH]; [done| |done].
  cbn [omap list_omap fst snd fmap option_fmap option_map]. rewrite header_lines_cons, <- IH. done.
Qed.

Lemma request_is_text c raw host path :
  (request_handshake_rfc6455 c raw host path).1 =
  request_text (bs "GET") path (client_headers c (g_base64_encode raw) host).
Proof.
  unfold request_text, client_headers. rewrite !header_lines_app, <- custom_header_lines.
  unfold request_handshake_rfc6455. cbn [fst]. generalize (include_custom_headers c) as inc.
  intros inc. unfold req_line, header_lines, protocol_header, header_line.
  destruct (possible_protocols c); cbn; repeat (rewrite <- ?app_assoc; cbn); reflexivity.
Qed.

Lemma response_is_text key protocol :
  agreed_response key protocol =
  (bs "HTTP/1.1 101 Switching Protocols" ++ crlf) ++ header_lines (server_headers key protocol) ++ crlf.
Proof.
  unfold agreed_response, server_headers, header_lines, protocol_header, header_line.
  destruct protocol; cbn; repeat (rewrite <- ?app_assoc; cbn); reflexivity.
Qed.

(** Names of headers that the handshake gives a meaning. *)
Definition reserved : list (list Z) :=
  [bs "Host"; bs "Upgrade"; bs "Connection"; bs "Sec-WebSocket-Key"; bs "Sec-WebSocket-Version"; bs "Origin";
   bs "Sec-WebSocket-Protocol"].

(** A client and a server that can agree on a protocol: what the client sends are words of ASCII, its
    key is the Base64 of 16 bytes, its origin is allowed, and its own headers do not interfere. *)
Record ready (c : WebSocketClient) (s : WebSocketServer) (raw host path : list Z)
    (protocol : option (list Z)) : Prop := {
  ready_path : word path;
  ready_host : word host;
  ready_origin : word (default (bs "null") (origin c));
  ready_key : word (g_base64_encode raw);
  ready_key_length : zlen (g_base64_encode raw) ≤ 1024;
  ready_key_decodes : zlen (g_base64_decode (g_base64_encode raw)) = 16;
  ready_accept : word (accept_key (g_base64_encode raw));
  ready_custom : Forall (header_ok g_utf8_validate) (custom_headers c);
  ready_names r : r ∈ reserved → Forall (λ h, strcasecmp_eq h.1 r = false) (custom_headers c);
  ready_client : protocols_ok (possible_protocols c);
  ready_server : protocols_ok (allowed_protocols s);
  ready_reads : request_headers s = None;
  ready_protocol : common_protocol (possible_protocols c) (allowed_protocols s) = Some protocol;
  ready_allowed : origin_allowed s [(bs "Origin", default (bs "null") (origin c))] = true
}.

Context (utf8_ascii : ∀ s, Forall (λ c, 0 < c < 128) s → g_utf8_validate s = true).

Lemma header_ok_ascii name value : Forall (λ c, 32 ≤ c < 128 ∧ c ≠ 58) name → g_strstrip name = name →
  Forall (λ c, 32 ≤ c < 128) value → g_strstrip value = value → header_ok g_utf8_validate (name, value).
Proof.
  intros Hn Hns Hv Hvs. constructor; cbn [fst snd]; try done.
  - eapply Forall_impl; [exact Hv|]. cbn. lia.
  - apply utf8_ascii. eapply Forall_impl; [exact Hv|]. cbn. lia.
Qed.

Lemma word_chars s : word s → Forall (λ c, 32 ≤ c < 128) s.
Proof. intros [_ H]. eapply Forall_impl; [exact H|]. cbn. lia. Qed.

Lemma header_ok_word name value : Forall (λ c, 32 ≤ c < 128 ∧ c ≠ 58) name → g_strstrip name = name →
  word value → header_ok g_utf8_validate (name, value).
Proof. intros Hn Hns Hv. apply header_ok_ascii; [done..|by apply word_chars|by apply word_stripped]. Qed.

Lemma joined_stripped ps : Forall protocol_name ps →
  g_strstrip (strjoinv (bs ", ") ps) = strjoinv (bs ", ") ps.
Proof.
  intros H. apply strstrip_id.
  - destruct H as [|p ps [Hp _] _]; [done|]. intros c Hc. apply (word_nonspace p c Hp).
    destruct Hp as [Hne _]. destruct p as [|x p]; [done|]. destruct ps; injection Hc as <-; left.
  - induction H as [|p ps [Hp _] Hps IH]; [done|]. intros c Hc. destruct ps as [|q ps].
    + apply (word_nonspace p c Hp). by apply last_Some_elem_of.
    + apply IH. change (strjoinv (bs ", ") (p :: q :: ps)) with (p ++ bs ", " ++ strjoinv (bs ", ") (q :: ps)) in Hc.
      rewrite app_assoc, last_app in Hc. destruct (last (strjoinv (bs ", ") (q :: ps))) eqn:E; [done|].
      apply last_None in E. apply Forall_cons in Hps as [[[Hne _] _] _]. by destruct q, ps.
Qed.

Lemma protocol_header_ok value : (∀ v, value = Some v → Forall (λ c, 32 ≤ c < 128) v ∧ g_strstrip v = v) →
  Forall (header_ok g_utf8_validate) (protocol_header value).
Proof.
  intros H. destruct value as [v|]; [|constructor]. destruct (H v eq_refl). constructor; [|constructor].
  apply header_ok_ascii; [by_decide|done|done|done].
Qed.

Lemma client_headers_ok c s raw host path protocol : ready c s raw host path protocol →
  Forall (header_ok g_utf8_validate) (client_headers c (g_base64_encode raw) host).
Proof.
  intros R. unfold client_headers. rewrite !Forall_app. split_and!.
  - repeat (apply List.Forall_cons; [apply header_ok_word; [by_decide|done|]|]); [apply R| | |apply R| |apply R|constructor];
      split; (done || by_decide).
  - apply protocol_header_ok. intros v Hv. destruct (possible_protocols c) as [ps|] eqn:E; [|done].
    injection Hv as <-. destruct (ready_client _ _ _ _ _ _ R ps E) as [_ H].
    split; [by apply joined_chars|by apply joined_stripped].
  - apply R.
Qed.

Lemma client_lookup c s raw host path protocol name : ready c s raw host path protocol → name ∈ reserved →
  table_lookup (table_of (client_headers c (g_base64_encode raw) host)) name =
  table_lookup (table_of
    ([(bs "Host", host); (bs "Upgrade", bs "websocket"); (bs "Connection", bs "Upgrade");
      (bs "Sec-WebSocket-Key", g_base64_encode raw); (bs "Sec-WebSocket-Version", bs "13");
      (bs "Origin", default (bs "null") (origin c))] ++
     protocol_header (strjoinv (bs ", ") <$> possible_protocols c))) name.
Proof.
  intros R Hn. unfold client_headers. rewrite app_assoc, table_of_app.
  apply table_insert_others. by apply (ready_names _ _ _ _ _ _ R).
Qed.

(** What the parties read in the headers of each other. *)
Lemma client_values c s raw host path protocol : ready c s raw host path protocol →
  let t := table_of (client_headers c (g_base64_encode raw) host) in
  table_lookup t (bs "Host") = Some host ∧
  table_lookup t (bs "Upgrade") = Some (bs "websocket") ∧
  table_lookup t (bs "Connection") = Some (bs "Upgrade") ∧
  table_lookup t (bs "Sec-WebSocket-Key") = Some (g_base64_encode raw) ∧
  table_lookup t (bs "Sec-WebSocket-Version") = Some (bs "13") ∧
  table_lookup t (bs "Origin") = Some (default (bs "null") (origin c)) ∧
  table_lookup t (bs "Sec-WebSocket-Protocol") = strjoinv (bs ", ") <$> possible_protocols c.
Proof.
  intros R t. unfold t. rewrite !(client_lookup c s raw host path protocol) by (done || (unfold reserved; by_decide)).
  unfold protocol_header. destruct (possible_protocols c); cbn [fmap option_fmap option_map];
    lookup_headers; done.
Qed.

Lemma server_values key protocol :
  let t := table_of (server_headers key protocol) in
  table_lookup t (bs "Upgrade") = Some (bs "websocket") ∧
  table_lookup t (bs "Connection") = Some (bs "Upgrade") ∧
  table_lookup t (bs "Sec-WebSocket-Accept") = Some (accept_key key) ∧
  table_lookup t (bs "Sec-WebSocket-Extensions") = None ∧
  table_lookup t (bs "Sec-Websocket-Protocol") = protocol.
Proof.
  intros t. unfold t, server_headers, protocol_header. destruct protocol; lookup_headers; done.
Qed.

Lemma server_responds c s raw host path protocol : ready c s raw host path protocol →
  (respond_handshake_rfc6455 s (table_of (client_headers c (g_base64_encode raw) host))).1 =
  Agreed (agreed_response (g_base64_encode raw) protocol) protocol.
Proof.
  intros R. destruct (client_values c s raw host path protocol R) as (E1 & E2 & E3 & E4 & E5 & E6 & E7).
  assert (Ho := ready_allowed _ _ _ _ _ _ R).
  unfold respond_handshake_rfc6455, _web_socket_util_header_equals, _web_socket_util_header_contains.
  rewrite E7, (server_chooses _ _ _ (ready_client _ _ _ _ _ _ R) (ready_server _ _ _ _ _ _ R)
                  (ready_protocol _ _ _ _ _ _ R)), E2, E3, E4, E5, E1.
  unfold validate_rfc6455_websocket_key. rewrite (ready_key_decodes _ _ _ _ _ _ R).
  assert (Ho' : origin_allowed (set_protocol_chosen true s)
    (table_of (client_headers c (g_base64_encode raw) host)) = true).
  { revert Ho. unfold origin_allowed. by rewrite E6. }
  rewrite Ho'.
  assert (Hk : (zlen (g_base64_encode raw) =? 0) || (zlen (g_base64_encode raw) >? 1024) = false).
  { pose proof (ready_key_length _ _ _ _ _ _ R). destruct (ready_key _ _ _ _ _ _ R) as [Hne _].
    rewrite orb_false_iff, Z.eqb_neq. split; [by intros ?%zlen_0_inv|]. rewrite Z.gtb_ltb. by apply Z.ltb_ge. }
  by rewrite Hk.
Qed.

Lemma server_accepts c s raw host path protocol rest : ready c s raw host path protocol →
  (parse_handshake_request s
     (request_text (bs "GET") path (client_headers c (g_base64_encode raw) host) ++ rest)).1 =
  (Agreed (agreed_response (g_base64_encode raw) protocol) protocol, rest).
Proof.
  intros R. unfold parse_handshake_request. rewrite (ready_reads _ _ _ _ _ _ R).
  assert (Hget : word (bs "GET")) by (split; [done|by_decide]).
  destruct (request_parsed g_utf8_validate (bs "GET") path (client_headers c (g_base64_encode raw) host) rest Hget
    (ready_path _ _ _ _ _ _ R) (client_headers_ok _ _ _ _ _ _ R)) as (n1 & n2 & E1 & E2 & E3).
  rewrite E1, E2, E3. cbv beta iota. rewrite bool_decide_eq_true_2 by done.
  pose proof (server_responds _ _ _ _ _ _ R) as H. destruct (respond_handshake_rfc6455 _ _). cbn in *. by rewrite H.
Qed.

Lemma server_headers_ok c s raw host path protocol : ready c s raw host path protocol →
  Forall (header_ok g_utf8_validate) (server_headers (g_base64_encode raw) protocol).
Proof.
  intros R. destruct (client_chooses _ _ _ (ready_client _ _ _ _ _ _ R) (ready_server _ _ _ _ _ _ R)
    (ready_protocol _ _ _ _ _ _ R)) as [_ Hp].
  unfold server_headers. rewrite Forall_app. split.
  - repeat (apply List.Forall_cons; [apply header_ok_word; [by_decide|done|]|]); [| |apply R|constructor];
      split; (done || by_decide).
  - apply protocol_header_ok. intros v Hv. destruct (Hp v Hv) as [Hw _].
    split; [by apply word_chars|by apply word_stripped].
Qed.

Lemma response_line rest :
  web_socket_util_parse_status_line ((bs "HTTP/1.1 101 Switching Protocols" ++ crlf) ++ rest) =
  Ok (Parsed 34 (bs "HTTP/1.1", 101, bs "Switching Protocols")).
Proof. done. Qed.

Lemma client_verifies c s raw host path protocol hs : ready c s raw host path protocol →
  let c1 := (request_handshake_rfc6455 c raw host path).2 in
  verify_handshake_rfc6455
    (mkClient (origin c1) (possible_protocols c1) (include_headers c1) (client_accept_key c1) hs)
    (table_of (server_headers (g_base64_encode raw) protocol)) = ClientOpen protocol.
Proof.
  intros R c1. destruct (server_values (g_base64_encode raw) protocol) as (E1 & E2 & E3 & E4 & E5).
  destruct (client_chooses _ _ _ (ready_client _ _ _ _ _ _ R) (ready_server _ _ _ _ _ _ R)
    (ready_protocol _ _ _ _ _ _ R)) as [Ep _].
  unfold verify_handshake_rfc6455, _web_socket_util_header_equals, _web_socket_util_header_contains,
    _web_socket_util_header_empty.
  rewrite E1, E2, E3, E4, E5. change (possible_protocols (mkClient _ ?p _ _ _)) with p.
  change (possible_protocols c1) with (possible_protocols c). rewrite Ep.
  change (client_accept_key (mkClient _ _ _ ?k _)) with k.
  change (client_accept_key c1) with (Some (accept_key (g_base64_encode raw))).
  match goal with |- (if ?b then _ else _) = _ => change b with false end.
  cbv beta iota. by rewrite strcasecmp_refl.
Qed.

Lemma client_opens c s raw host path protocol rest : ready c s raw host path protocol →
  ∃ c2, parse_handshake_response (request_handshake_rfc6455 c raw host path).2
    (agreed_response (g_base64_encode raw) protocol ++ rest) = Ok (ClientOpen protocol, rest, c2).
Proof.
  intros R. unfold parse_handshake_response. rewrite response_is_text.
  pose proof (server_headers_ok _ _ _ _ _ _ R) as Hh.
  rewrite <- !app_assoc, (app_assoc (bs "HTTP/1.1 101 Switching Protocols") crlf), response_line.
  cbn [comp_bind mbind].
  rewrite (drop_app_length' (bs "HTTP/1.1 101 Switching Protocols" ++ crlf)) by done.
  rewrite parse_headers_written by done. cbv zeta.
  change (101 =? 101) with true. cbv iota. rewrite (client_verifies c s) by done. eexists. do 3 f_equal.
  rewrite !app_assoc. apply drop_app_length'. rewrite !length_app. cbn. lia.
Qed.

(** C17: a client and a server of this program agree.  The request of the client is accepted by the
    server, whose response opens the connection of the client; both have chosen the same
    protocol, and what either sends after that is left to the connection. *)
Theorem handshake_agrees c s raw host path protocol rest rest' :
  ready c s raw host path protocol →
  let '(request, c1) := request_handshake_rfc6455 c raw host path in
  let response := agreed_response (g_base64_encode raw) protocol in
  (parse_handshake_request s (request ++ rest)).1 = (Agreed response protocol, rest) ∧
  web_socket_server_handshake s (request ++ rest) = (true, rest) ∧
  ∃ c2, parse_handshake_response c1 (response ++ rest') = Ok (ClientOpen protocol, rest', c2).
Proof.
  intros R. pose proof (server_accepts _ _ _ _ _ _ rest R) as Hs.
  pose proof (client_opens _ _ _ _ _ _ rest' R) as Hc. pose proof (request_is_text c raw host path) as Ereq.
  destruct (request_handshake_rfc6455 c raw host path) as [request c1]. cbn in Ereq. rewrite Ereq.
  split_and!; [done| |done]. unfold web_socket_server_handshake.
  destruct (parse_handshake_request s _) as [[v r] s']. by injection Hs as -> ->.
Qed.

End Handshake.

(** ** An example *)

Definition example_client : WebSocketClient :=
  mkClient (Some (bs "https://host")) (Some [bs "base64.channel"; bs "cockpit1"])
    [(bs "Cookie", Some (bs "k=v")); (bs "User-Agent", None)] None None.

Definition example_server : WebSocketServer :=
  mkServer false (Some [bs "https://HOST"]) (Some [bs "cockpit1"; bs "cockpit2"]) None.

Definition example_raw : list Z := seqZ 0 16.
Definition example_sha1 : list Z → list Z := λ _, replicate 20 0.
Definition example_encode (s : list Z) : list Z :=
  if (length s =? 16)%nat then bs "AAECAwQFBgcICQoLDA0ODw==" else bs "AAAAAAAAAAAAAAAAAAAAAAAAAAA=".

Lemma handshake_agrees_witness :
  let '(request, c1) :=
    request_handshake_rfc6455 example_sha1 example_encode example_client example_raw (bs "host") (bs "/socket") in
  let response := agreed_response example_sha1 example_encode (example_encode example_raw) (Some (bs "cockpit1")) in
  (parse_handshake_request (λ _, true) example_sha1 example_encode (λ _, example_raw) example_server (request ++ [1; 2])).1 =
    (Agreed response (Some (bs "cockpit1")), [1; 2]) ∧
  web_socket_server_handshake (λ _, true) example_sha1 example_encode (λ _, example_raw) example_server (request ++ [1; 2]) =
    (true, [1; 2]) ∧
  ∃ c2, parse_handshake_response (λ _, true) c1 (response ++ [3]) =
    Ok (ClientOpen (Some (bs "cockpit1")), [3], c2).
Proof.
  apply (handshake_agrees (λ _, true) example_sha1 example_encode (λ _, example_raw)); [done|].
  constructor; try (split; [done|by_decide]); try done.
  - repeat constructor; by_decide || done.
  - intros r Hr. unfold reserved in Hr. rewrite !elem_of_cons, elem_of_nil in Hr.
    destruct_or!; subst; done || by repeat constructor.
  - intros l [= <-]. split; [done|]. repeat constructor; done || by_decide.
  - intros l [= <-]. split; [done|]. repeat constructor; done || by_decide.
Defined.

(** ** Findings *)

(** A request with another method than [GET] is dropped without an answer. *)
Lemma post_unanswered :
  web_socket_server_handshake (λ _, true) example_sha1 example_encode (λ _, example_raw) example_server
    (request_text (bs "POST") (bs "/socket") example_headers) = (false, []) ∧
  (parse_handshake_request (λ _, true) example_sha1 example_encode (λ _, example_raw) example_server
    (request_text (bs "POST") (bs "/socket") example_headers)).1.1 = Unanswered.
Proof. by vm_compute. Qed.
