(* ===== verification/WebService.v ===== *)
(** * The web service of a session: [src/ws/cockpitwebservice.c]

    A web service stands between the WebSockets of browsers and the transport of a session
    process.  It routes the messages of channels to the WebSocket that has opened the channel,
    answers challenges of the session process with the password while it may be used, and
    is disposed when the session ends.

    WebSockets are connections of [WebSocket], numbered; a [CockpitSocket] has the number of
    its connection, and using one that is gone is a [Fault].  The transport is what has been
    sent to it and asked of it, in [outputs].  The order in which GLib goes through a hash
    table is that of [map_to_list].  The parser of json-glib, [crypt_r], the environment and
    the conversions of WebSockets and numbers are parameters.  With it comes the answer to
    crypt1 challenges of [src/ws/cockpitcompat.c]. *)

From S2P Require Import Prelude Hex Json Conf Authorize Http WebServer Creds Transport WebSocket.
From Stdlib Require Import Floats.SpecFloat.
#[local] Open Scope Z_scope.

(** ** Data *)

Record CockpitSocket := mkSocket {
  socket_id : list Z;
  channels : gmap (list Z) data_type;
  socket_init : option object
}.

Definition set_channels (x : gmap (list Z) data_type) (s : CockpitSocket) : CockpitSocket :=
  mkSocket (socket_id s) x (socket_init s).
Definition set_socket_init (x : option object) (s : CockpitSocket) : CockpitSocket :=
  mkSocket (socket_id s) (channels s) x.

(** What the service does to the transport, and the signals that it emits. *)
Inductive output :=
| ToTransport (channel : option (list Z)) (payload : list Z)
| CloseTransport (problem : option (list Z))
| Idling
| Destroy.

Record service := mkService {
  creds : CockpitCreds;
  by_channel : gmap (list Z) nat;
  by_connection : gmap nat CockpitSocket;
  next_socket_id : Z;
  connections : gmap nat connection;
  closing : bool;
  callers : Z;
  next_internal_id : Z;
  hooked : bool;                          (* the three handlers on the transport *)
  init_received : option object;
  sent_done : bool;
  credentials_timeout : option nat;
  timeouts : gset nat;                    (* of the main loop, for [poison_creds] *)
  next_timeout : nat;
  checksum_by_host : gmap (list Z) (list Z);
  host_by_checksum : gmap (list Z) (list Z);
  outputs : list output
}.

Definition set_creds (x : CockpitCreds) (s : service) : service :=
  mkService x (by_channel s) (by_connection s) (next_socket_id s) (connections s) (closing s)
    (callers s) (next_internal_id s) (hooked s) (init_received s) (sent_done s)
    (credentials_timeout s) (timeouts s) (next_timeout s) (checksum_by_host s)
    (host_by_checksum s) (outputs s).
Definition set_by_channel (x : gmap (list Z) nat) (s : service) : service :=
  mkService (creds s) x (by_connection s) (next_socket_id s) (connections s) (closing s)
    (callers s) (next_internal_id s) (hooked s) (init_received s) (sent_done s)
    (credentials_timeout s) (timeouts s) (next_timeout s) (checksum_by_host s)
    (host_by_checksum s) (outputs s).
Definition set_by_connection (x : gmap nat CockpitSocket) (s : service) : service :=
  mkService (creds s) (by_channel s) x (next_socket_id s) (connections s) (closing s)
    (callers s) (next_internal_id s) (hooked s) (init_received s) (sent_done s)
    (credentials_timeout s) (timeouts s) (next_timeout s) (checksum_by_host s)
    (host_by_checksum s) (outputs s).
Definition set_next_socket_id (x : Z) (s : service) : service :=
  mkService (creds s) (by_channel s) (by_connection s) x (connections s) (closing s)
    (callers s) (next_internal_id s) (hooked s) (init_received s) (sent_done s)
    (credentials_timeout s) (timeouts s) (next_timeout s) (checksum_by_host s)
    (host_by_checksum s) (outputs s).
Definition set_connections (x : gmap nat connection) (s : service) : service :=
  mkService (creds s) (by_channel s) (by_connection s) (next_socket_id s) x (closing s)
    (callers s) (next_internal_id s) (hooked s) (init_received s) (sent_done s)
    (credentials_timeout s) (timeouts s) (next_timeout s) (checksum_by_host s)
    (host_by_checksum s) (outputs s).
Definition set_callers (x : Z) (s : service) : service :=
  mkService (creds s) (by_channel s) (by_connection s) (next_socket_id s) (connections s)
    (closing s) x (next_internal_id s) (hooked s) (init_received s) (sent_done s)
    (credentials_timeout s) (timeouts s) (next_timeout s) (checksum_by_host s)
    (host_by_checksum s) (outputs s).
Definition set_next_internal_id (x : Z) (s : service) : service :=
  mkService (creds s) (by_channel s) (by_connection s) (next_socket_id s) (connections s)
    (closing s) (callers s) x (hooked s) (init_received s) (sent_done s)
    (credentials_timeout s) (timeouts s) (next_timeout s) (checksum_by_host s)
    (host_by_checksum s) (outputs s).
Definition set_init_received (x : option object) (s : service) : service :=
  mkService (creds s) (by_channel s) (by_connection s) (next_socket_id s) (connections s)
    (closing s) (callers s) (next_internal_id s) (hooked s) x (sent_done s)
    (credentials_timeout s) (timeouts s) (next_timeout s) (checksum_by_host s)
    (host_by_checksum s) (outputs s).
(** What [cockpit_web_service_dispose] sets before it closes anything. *)
Definition set_disposed (s : service) : service :=
  mkService (creds s) (by_channel s) (by_connection s) (next_socket_id s) (connections s)
    true (callers s) (next_internal_id s) false (init_received s) true
    None (timeouts s) (next_timeout s) (checksum_by_host s)
    (host_by_checksum s) (outputs s).
Definition set_timeouts (tag : option nat) (x : gset nat) (n : nat) (s : service) : service :=
  mkService (creds s) (by_channel s) (by_connection s) (next_socket_id s) (connections s)
    (closing s) (callers s) (next_internal_id s) (hooked s) (init_received s) (sent_done s)
    tag x n (checksum_by_host s) (host_by_checksum s) (outputs s).
Definition set_hosts (c h : gmap (list Z) (list Z)) (s : service) : service :=
  mkService (creds s) (by_channel s) (by_connection s) (next_socket_id s) (connections s)
    (closing s) (callers s) (next_internal_id s) (hooked s) (init_received s) (sent_done s)
    (credentials_timeout s) (timeouts s) (next_timeout s) c h (outputs s).
Definition set_outputs (x : list output) (s : service) : service :=
  mkService (creds s) (by_channel s) (by_connection s) (next_socket_id s) (connections s)
    (closing s) (callers s) (next_internal_id s) (hooked s) (init_received s) (sent_done s)
    (credentials_timeout s) (timeouts s) (next_timeout s) (checksum_by_host s)
    (host_by_checksum s) x.

(** ** The monad *)

Definition ws (A : Type) : Type := prog service unit A.

#[export] Instance ws_ret : MRet ws := λ A a, prog_ret A a.
#[export] Instance ws_bind : MBind ws := λ A B f m, prog_bind A B f m.

Definition get {A} (f : service → A) : ws A := λ st, (Ok (f st), st).
Definition modify (f : service → service) : ws unit := λ st, (Ok tt, f st).
Definition when (b : bool) (m : ws unit) : ws unit := if b then m else mret tt.
Definition out (o : output) : ws unit := modify (λ st, set_outputs (outputs st ++ [o]) st).

(** Using a socket through its pointer. *)
Definition get_socket (k : nat) : ws CockpitSocket := λ st,
  match by_connection st !! k with Some s => (Ok s, st) | None => (Fault, st) end.

Definition upd_socket (k : nat) (f : CockpitSocket → CockpitSocket) : ws unit := λ st,
  match by_connection st !! k with
  | Some s => (Ok tt, set_by_connection (<[k := f s]> (by_connection st)) st)
  | None => (Fault, st)
  end.

Definition get_connection (k : nat) : ws connection := λ st,
  match connections st !! k with Some c => (Ok c, st) | None => (Fault, st) end.

Definition upd_connection (k : nat) (f : connection → connection) : ws unit := λ st,
  match connections st !! k with
  | Some c => (Ok tt, set_connections (<[k := f c]> (connections st)) st)
  | None => (Fault, st)
  end.

Fixpoint for_each {A} (l : list A) (m : A → ws unit) : ws unit :=
  match l with [] => mret tt | a :: l => _ ← m a; for_each l m end.

(** ** Answers to crypt1 challenges: [src/ws/cockpitcompat.c] *)

(** The length of the salt, [None] for -1. *)
Definition parse_salt (input : list Z) : option Z :=
  match input with
  | c :: input' =>
      if c =? 36 then
        pos ← strchr input' 36;
        if pos =? 0 then None
        else
          end_ ← strchr (drop (Z.to_nat pos + 1) input') 36;
          if end_ + 1 <? 8 then None else Some (1 + pos + 1 + end_ + 1)
      else None
  | [] => None
  end.

Section Crypt.
Context (crypt_r : list Z → list Z → option (list Z)).

Definition cockpit_compat_reply_crypt1 (challenge password : list Z) : option (list Z) :=
  match cockpit_authorize_subject (Some challenge) with
  | Ok (_, challenge) =>
      spos ← strchr challenge 58;
      let nonce := take (Z.to_nat spos) challenge in
      let salt := drop (Z.to_nat spos + 1) challenge in
      _ ← parse_salt nonce;
      _ ← parse_salt salt;
      secret ← crypt_r password salt;
      resp ← crypt_r secret nonce;
      Some (bs "crypt1:" ++ resp)
  | _ => None
  end.
End Crypt.

(** Whether the user of the credentials is the one that the challenge is for. *)
Definition authorize_check_user (c : CockpitCreds) (challenge : list Z) : bool :=
  match cockpit_authorize_subject (Some challenge) with
  | Ok (subject, _) =>
      if bool_decide (subject = []) then true
      else
        match user c with
        | None => true
        | Some u =>
            let is_subject u := match cockpit_hex_encode u (-1) with
                                | Ok encoded => bool_decide (encoded = subject) | _ => false end in
            is_subject u || is_subject (tolower <$> u)
        end
  | _ => false
  end.

(** ** The WebSocket of a request *)

(** [printf] of a string that may be missing. *)
Definition or_null (s : option (list Z)) : list Z := default (bs "(null)") s.

(** The URL and the origins that [cockpit_web_service_create_socket] makes a server of WebSockets
    with, for the host of the request. *)
Definition create_socket_url (host : option (list Z)) (protocol path : list Z) : list Z :=
  let is_https := negb (bool_decide (protocol = bs "https")) in
  (if is_https then bs "wss" else bs "ws") ++ bs "://" ++ default (bs "localhost") host ++ path.

Definition create_socket_origins `{Config} (host : option (list Z)) (protocol : list Z) : list (list Z) :=
  match conf_strv (bs "WebService") (bs "Origins") 32 with
  | Some origins => origins
  | None => [protocol ++ bs "://" ++ or_null host]
  end.

Definition cockpit_web_service_create_socket `{Config} (for_tls_proxy : bool)
    (protocol_header host : option (list Z)) (r : CockpitWebRequest) : list Z * list (list Z) :=
  let protocol := cockpit_web_request_get_protocol for_tls_proxy protocol_header r in
  (create_socket_url host protocol (req_path r), create_socket_origins host protocol).

(** ** Sockets and channels *)

Definition control_prefix : list Z := [10].
Definition WEB_SOCKET_CLOSE_SERVER_ERROR : Z := 1011.

Section Service.
Context (json_parser : list Z → option (option json)) (dtostr : spec_float → list Z).
Context (json_node_get_int_of_double : spec_float → Z).
Context (g_utf8_validate : list Z → bool) (g_random_int : nat → list Z).
Context (crypt_r : list Z → list Z → option (list Z)).
Context (malloc : nat → list Z) (malloc_length : ∀ n, length (malloc n) = n).
Context (superuser_env : option (list Z)).              (* COCKPIT_SUPERUSER *)
Context (package_version : list Z).

Notation write_bytes := (cockpit_json_write_bytes dtostr).
Notation build_control := (cockpit_transport_build_control dtostr).
Notation get_int := (cockpit_json_get_int json_node_get_int_of_double).

Definition transport_send (channel : option (list Z)) (payload : list Z) : ws unit :=
  out (ToTransport channel payload).

(** [if (!self->sent_done) cockpit_transport_send (...)] *)
Definition send_unless_done (channel : option (list Z)) (payload : list Z) : ws unit :=
  done ← get sent_done; when (negb done) (transport_send channel payload).

(** A message on a WebSocket that is open; the connection checks its text. *)
Definition socket_send (k : nat) (type : data_type) (prefix payload : list Z) : ws unit :=
  upd_connection k (web_socket_connection_send g_utf8_validate g_random_int type prefix payload).

Definition socket_open (k : nat) : ws bool :=
  c ← get_connection k;
  mret (bool_decide (web_socket_connection_get_ready_state c = STATE_OPEN)).

Definition cockpit_socket_lookup_by_channel (channel : list Z) : ws (option nat) :=
  get (λ st, by_channel st !! channel).

Definition cockpit_socket_remove_channel (k : nat) (channel : list Z) : ws unit :=
  _ ← modify (λ st, set_by_channel (delete channel (by_channel st)) st);
  upd_socket k (λ s, set_channels (delete channel (channels s)) s).

Definition cockpit_socket_add_channel (k : nat) (channel : list Z) (type : data_type) : ws unit :=
  _ ← modify (λ st, set_by_channel (<[channel := k]> (by_channel st)) st);
  upd_socket k (λ s, set_channels (<[channel := type]> (channels s)) s).

Definition cockpit_socket_track (k : nat) (c : connection) : ws unit :=
  id ← get next_socket_id;
  _ ← modify (λ st, set_next_socket_id (u32 (id + 1)) st);
  modify (λ st,
    set_by_connection (<[k := mkSocket (render_u32 id ++ [58]) ∅ None]> (by_connection st))
      (set_connections (<[k := c]> (connections st)) st)).

Definition cockpit_socket_destroy (k : nat) : ws unit :=
  s ← get_socket k;
  _ ← for_each (map_to_list (channels s)).*1
        (λ chan, modify (λ st, set_by_channel (delete chan (by_channel st)) st));
  modify (λ st, set_by_connection (delete k (by_connection st))
                  (set_connections (delete k (connections st)) st)).

(** The handler of "closing": the channels of the WebSocket are closed. *)
Definition on_web_socket_closing (k : nat) : ws unit :=
  done ← get sent_done;
  when (negb done) (
    socket ← get (λ st, by_connection st !! k);
    let snapshot := match socket with Some s => (map_to_list (channels s)).*1 | None => [] end in
    for_each snapshot (λ channel,
      transport_send None (build_control [(bs "command", Some (bs "close"));
                                          (bs "channel", Some channel);
                                          (bs "problem", Some (bs "disconnected"))]))).

(** [web_socket_connection_close], with the signal that it emits first. *)
Definition socket_close (k : nat) (code : Z) (reason : list Z) : ws unit :=
  c ← get_connection k;
  _ ← when (negb (close_sent c)) (on_web_socket_closing k);
  upd_connection k (web_socket_connection_close g_random_int code (Some reason)).

Definition cockpit_sockets_close (problem : option (list Z)) : ws unit :=
  let problem := default (bs "terminated") problem in
  ks ← get (λ st, (map_to_list (by_connection st)).*1);
  for_each ks (λ k,
    c ← get_connection k;
    when (bool_decide (web_socket_connection_get_ready_state c = CONNECTING) ||
          bool_decide (web_socket_connection_get_ready_state c = STATE_OPEN))
      (socket_close k WEB_SOCKET_CLOSE_GOING_AWAY problem)).

(** ** The life of the service *)

(** [g_object_run_dispose]: the handlers on the transport and the timeout go. *)
Definition cockpit_web_service_dispose : ws unit :=
  done ← get sent_done;
  was_closing ← get closing;
  _ ← modify (λ st,
        set_disposed (set_timeouts None
          (match credentials_timeout st with Some t => timeouts st ∖ {[t]} | None => timeouts st end)
          (next_timeout st) st));
  _ ← when (negb done) (out (CloseTransport None));
  _ ← cockpit_sockets_close None;
  when (negb was_closing) (out Destroy).

(** ["0:%d"] *)
Definition cockpit_web_service_unique_channel : ws (list Z) :=
  id ← get next_internal_id;
  _ ← modify (set_next_internal_id (u32 (id + 1)));
  mret (bs "0:" ++ (if id <? 2 ^ 31 then render_u32 id else bs "-" ++ render_u32 (2 ^ 32 - id))).

Definition caller_begin : ws unit := modify (λ st, set_callers (callers st + 1) st).

Definition caller_end : ws unit :=
  n ← get callers;
  if n >? 0 then
    _ ← modify (set_callers (n - 1));
    when (n - 1 =? 0) (out Idling)
  else mret tt.

Definition outbound_protocol_error (problem : option (list Z)) : ws unit :=
  out (CloseTransport (Some (default (bs "protocol-error") problem))).

Definition poison_creds : ws unit :=
  _ ← modify (λ st, set_creds (cockpit_creds_poison (creds st)) st);
  modify (λ st, set_timeouts None (timeouts st) (next_timeout st) st).

(** ** Messages of the session process *)

Definition process_close (socket : option nat) (channel : list Z) : ws unit :=
  match socket with Some k => cockpit_socket_remove_channel k channel | None => mret tt end.

(** The answer to the challenge; [None] is none, which is sent as the empty string. *)
Definition authorize_response (c : CockpitCreds) (challenge : list Z) : option (list Z) :=
  match cockpit_authorize_type (Some challenge) with
  | Ok (type, _) =>
      if decide (type ∈ [bs "plain1"; bs "crypt1"; bs "basic"]) then
        match cockpit_creds_get_password c with
        | None => None
        | Some password =>
            if bool_decide (type ≠ bs "basic") && negb (authorize_check_user c challenge) then None
            else if decide (type = bs "crypt1") then cockpit_compat_reply_crypt1 crypt_r challenge password
            else if decide (type = bs "basic") then
              match cockpit_authorize_build_basic malloc (user c) (Some password) with
              | Ok response => Some response
              | _ => None
              end
            else Some password
        end
      else None
  | _ => None
  end.

Definition process_transport_authorize (options : object) : ws bool :=
  match cockpit_json_get_string options (bs "challenge") None,
        cockpit_json_get_string options (bs "cookie") None,
        cockpit_json_get_string options (bs "host") None with
  | Some (Some challenge), Some (Some cookie), Some host =>
      c ← get creds;
      let response := authorize_response c challenge in
      _ ← send_unless_done None
            (build_control [(bs "command", Some (bs "authorize")); (bs "cookie", Some cookie);
                            (bs "response", Some (default [] response)); (bs "host", host)]);
      mret true
  | _, _, _ => mret false
  end.

Definition explicit_superuser (options : object) : bool :=
  match cockpit_json_get_object options (bs "capabilities") None with
  | Some (Some capabilities) =>
      default false (cockpit_json_get_bool capabilities (bs "explicit-superuser") false)
  | _ => false
  end.

(** The superuser bridge that is asked for, if one is. *)
Definition wanted_superuser (c : CockpitCreds) : option (list Z) :=
  match (match superuser_env with Some e => Some e | None => superuser c end) with
  | Some s => if bool_decide (s = []) || bool_decide (s = bs "none") then None else Some s
  | None => None
  end.

(** The problem, if there is one. *)
Definition process_transport_init (options : object) : ws (option (list Z)) :=
  match get_int options (bs "version") (-1) with
  | None => mret (Some (bs "protocol-error"))
  | Some version =>
      if version =? 1 then
        _ ← modify (set_init_received (Some options));
        _ ← modify (λ st, set_timeouts (Some (next_timeout st)) ({[next_timeout st]} ∪ timeouts st)
                            (S (next_timeout st)) st);
        let object := cockpit_transport_build_json [(bs "command", Some (bs "init"))] in
        let object := json_object_set_member object (bs "version") (JInt 1) in
        let object := json_object_set_member object (bs "host") (JString (bs "localhost")) in
        c ← get creds;
        object ←
          (if explicit_superuser options then
             match wanted_superuser c with
             | Some s =>
                 mret (json_object_set_member object (bs "superuser") (JObject [(bs "id", JString s)]))
             | None =>
                 _ ← modify (λ st, set_creds (cockpit_creds_poison (creds st)) st);
                 mret (json_object_set_member object (bs "superuser") (JBool false))
             end
           else mret object);
        _ ← transport_send None (write_bytes object);
        mret None
      else mret (Some (bs "not-supported"))
  end.

(** The handlers on the transport, while they are connected. *)
Definition on_transport_control (command : list Z) (channel : option (list Z)) (options : object)
    (payload : list Z) : ws unit :=
  match channel with
  | None =>
      problem ←
        (if decide (command = bs "init") then process_transport_init options
         else
           received ← get init_received;
           match received with
           | None => mret (Some (bs "protocol-error"))
           | Some _ =>
               if decide (command = bs "authorize") then
                 valid ← process_transport_authorize options;
                 mret (if valid : bool then None else Some (bs "protocol-error"))
               else if decide (command = bs "superuser-init-done") then
                 _ ← modify (λ st, set_creds (cockpit_creds_poison (creds st)) st); mret None
               else mret None
           end);
      match problem with Some p => outbound_protocol_error (Some p) | None => mret tt end
  | Some channel =>
      socket ← cockpit_socket_lookup_by_channel channel;
      _ ← when (bool_decide (command = bs "close")) (process_close socket channel);
      match socket with
      | Some k =>
          open ← socket_open k;
          when open (socket_send k DATA_TEXT control_prefix payload)
      | None => mret tt
      end
  end.

(** Whether the message has been handled. *)
Definition on_transport_recv (channel : option (list Z)) (payload : list Z) : ws bool :=
  match channel with
  | None => mret false
  | Some channel =>
      socket ← cockpit_socket_lookup_by_channel channel;
      match socket with
      | Some k =>
          open ← socket_open k;
          if open : bool then
            s ← get_socket k;
            match channels s !! channel with
            | Some data_type => _ ← socket_send k data_type (channel ++ [10]) payload; mret true
            | None => λ st, (Fault, st)
            end
          else mret false
      | None => mret false
      end
  end.

Definition on_transport_closed (problem : option (list Z)) : ws unit :=
  _ ← cockpit_sockets_close problem; cockpit_web_service_dispose.

(** A message that the transport has received, on its way through the signals: the transport
    itself answers pings before the service sees them. *)
Definition on_transport_message (channel : option (list Z)) (payload : list Z) : ws unit :=
  match channel with
  | Some _ => _ ← on_transport_recv channel payload; mret tt
  | None =>
      match cockpit_transport_parse_command json_parser payload with
      | None => out (CloseTransport (Some (bs "protocol-error")))
      | Some (command, channel, options) =>
          let '(handled, answer) := cockpit_transport_default_control dtostr command channel options in
          _ ← match answer with Some m => transport_send None m | None => mret tt end;
          when (negb handled) (on_transport_control command channel options payload)
      end
  end.

(** ** Messages of browsers *)

Definition cockpit_web_service_parse_binary (options : object) : option data_type :=
  match cockpit_json_get_string options (bs "binary") None with
  | None => None
  | Some (Some binary) => Some (if bool_decide (binary = bs "raw") then DATA_BINARY else DATA_TEXT)
  | Some None => Some DATA_TEXT
  end.

Definition process_and_relay_open (k : nat) (channel : option (list Z)) (options : object) : ws bool :=
  closing_ ← get closing;
  if closing_ : bool then mret true
  else
    match channel with
    | None => mret false
    | Some channel =>
        opened ← cockpit_socket_lookup_by_channel channel;
        match opened with
        | Some _ => mret false
        | None =>
            match cockpit_web_service_parse_binary options with
            | None => mret false
            | Some type =>
                _ ← cockpit_socket_add_channel k channel type;
                _ ← send_unless_done None (write_bytes options);
                mret true
            end
        end
    end.

Definition process_and_relay_close (k : nat) (channel payload : list Z) : ws bool :=
  _ ← process_close (Some k) channel;
  _ ← send_unless_done None payload;
  mret true.

Definition process_kill (payload : list Z) : ws bool :=
  _ ← send_unless_done None payload; mret true.

Definition process_ping (k : nat) (options : object) : ws bool :=
  let payload := write_bytes (json_object_set_member options (bs "command") (JString (bs "pong"))) in
  open ← socket_open k;
  _ ← when open (socket_send k DATA_TEXT control_prefix payload);
  mret true.

(** The user and the password of a response to an authorize command; a password without a user
    is not used.  The outer [None]: the response is of another type, and nothing is set. *)
Definition basic_response (response : list Z) : comp unit (option (option (list Z) * option (list Z))) :=
  match cockpit_authorize_type (Some response) with
  | Ok (type, _) =>
      if bool_decide (type ≠ bs "basic") then Ok None
      else
        match cockpit_authorize_parse_basic malloc (Some response) with
        | Ok (password, Some user) => Ok (Some (Some user, Some (cstr password)))
        | Ok (_, None) | Err _ => Ok (Some (None, None))
        | Fault => Fault
        end
  | Err _ => Ok None
  | Fault => Fault
  end.

(** Whether the command is valid, and what is left in the memory of the message. *)
Definition process_socket_authorize (options : object) (payload : list Z) : ws (bool * list Z) :=
  match cockpit_json_get_string options (bs "response") None with
  | None => mret (false, payload)
  | Some None => mret (true, payload)
  | Some (Some response) =>
      given ← lift (basic_response response);
      match given with
      | None => mret (true, payload)
      | Some (user, password) =>
          _ ← modify (λ st, set_creds (cockpit_creds_set_password
                              (cockpit_creds_set_user (creds st) user) password) st);
          mret (true, cockpit_memory_clear payload)
      end
  end.

Definition process_logout : ws unit :=
  _ ← modify (λ st, set_creds (cockpit_creds_poison (creds st)) st);
  cockpit_web_service_dispose.

(** The problem, if there is one. *)
Definition process_socket_init (k : nat) (options : object) : ws (option (list Z)) :=
  match get_int options (bs "version") (-1) with
  | None => mret (Some (bs "protocol-error"))
  | Some version =>
      if version =? 1 then _ ← upd_socket k (set_socket_init (Some options)); mret None
      else mret (Some (bs "not-supported"))
  end.

Definition inbound_protocol_error (k : nat) (problem : option (list Z)) : ws unit :=
  let problem := default (bs "protocol-error") problem in
  open ← socket_open k;
  when open (
    _ ← socket_send k DATA_TEXT control_prefix
          (build_control [(bs "command", Some (bs "close")); (bs "problem", Some problem)]);
    socket_close k WEB_SOCKET_CLOSE_SERVER_ERROR problem).

(** The commands after "init": whether they are valid, and the memory of the message. *)
Definition dispatch_command (k : nat) (command : list Z) (channel : option (list Z)) (options : object)
    (payload : list Z) : ws (bool * list Z) :=
  let keep (m : ws bool) : ws (bool * list Z) := valid ← m; mret (valid, payload) in
  if decide (command = bs "open") then keep (process_and_relay_open k channel options)
  else if decide (command = bs "authorize") then process_socket_authorize options payload
  else if decide (command = bs "logout") then keep (_ ← process_logout; mret true)
  else if decide (command = bs "close") then
    match channel with
    | None => mret (false, payload)
    | Some channel => keep (process_and_relay_close k channel payload)
    end
  else if decide (command = bs "kill") then keep (process_kill payload)
  else
    match channel with
    | None => if decide (command = bs "ping") then keep (process_ping k options) else mret (true, payload)
    | Some _ => keep (_ ← send_unless_done None payload; mret true)
    end.

(** What is left in the memory of the message. *)
Definition dispatch_inbound_command (k : nat) (payload : list Z) : ws (list Z) :=
  match cockpit_transport_parse_command json_parser payload with
  | None => _ ← inbound_protocol_error k (Some (bs "protocol-error")); mret payload
  | Some (command, channel, options) =>
      if decide (command = bs "init") then
        problem ← process_socket_init k options;
        _ ← match problem with Some p => inbound_protocol_error k (Some p) | None => mret tt end;
        mret payload
      else
        s ← get_socket k;
        match socket_init s with
        | None => _ ← inbound_protocol_error k (Some (bs "protocol-error")); mret payload
        | Some _ =>
            '(valid, memory) ← dispatch_command k command channel options payload;
            _ ← when (negb valid) (inbound_protocol_error k (Some (bs "protocol-error")));
            mret memory
        end
  end.

(** The handlers on a WebSocket.  The first two give up when it is not known. *)
Definition on_web_socket_message (k : nat) (message : list Z) : ws unit :=
  socket ← get (λ st, by_connection st !! k);
  match socket with
  | None => mret tt
  | Some _ =>
      match cockpit_transport_parse_frame message with
      | None => mret tt
      | Some (None, payload) => _ ← dispatch_inbound_command k payload; mret tt
      | Some (Some channel, payload) =>
          closing_ ← get closing;
          when (negb closing_) (send_unless_done (Some channel) payload)
      end
  end.

Definition init_message (s : CockpitSocket) (c : CockpitCreds) : object :=
  let o := json_object_set_member [] (bs "command") (JString (bs "init")) in
  let o := json_object_set_member o (bs "version") (JInt 1) in
  let o := json_object_set_member o (bs "channel-seed") (JString (socket_id s)) in
  let o := json_object_set_member o (bs "host") (JString (bs "localhost")) in
  let o := json_object_set_member o (bs "csrf-token")
             match csrf_token c with Some t => JString t | None => JNull end in
  let o := json_object_set_member o (bs "capabilities")
             (JArray [JString (bs "multi"); JString (bs "credentials"); JString (bs "binary")]) in
  json_object_set_member o (bs "system") (JObject [(bs "version", JString package_version)]).

Definition on_web_socket_open (k : nat) : ws unit :=
  socket ← get (λ st, by_connection st !! k);
  match socket with
  | None => mret tt
  | Some s =>
      c ← get creds;
      socket_send k DATA_TEXT control_prefix (write_bytes (init_message s c))
  end.

Definition on_web_socket_close (k : nat) : ws unit :=
  socket ← get (λ st, by_connection st !! k);
  match socket with
  | None => mret tt
  | Some _ => _ ← cockpit_socket_destroy k; caller_end
  end.

Definition on_ping_time : ws unit :=
  let payload := build_control [(bs "command", Some (bs "ping"))] in
  ks ← get (λ st, (map_to_list (by_connection st)).*1);
  for_each ks (λ k, open ← socket_open k; when open (socket_send k DATA_TEXT control_prefix payload)).

(** ** The service and its callers *)

Definition cockpit_web_service_new (c : CockpitCreds) : service :=
  mkService c ∅ ∅ 1 ∅ false 0 0 true None false None ∅ 0 ∅ ∅ [].

(** [c] is the connection of [cockpit_web_service_create_socket], [k] its number. *)
Definition cockpit_web_service_socket (k : nat) (c : connection) : ws unit :=
  _ ← cockpit_socket_track k c; caller_begin.

Definition cockpit_web_service_disconnect : ws unit := cockpit_web_service_dispose.

Definition cockpit_web_service_get_idling (st : service) : bool := callers st =? 0.

Definition cockpit_web_service_get_host (st : service) (checksum : list Z) : option (list Z) :=
  host_by_checksum st !! checksum.

Definition cockpit_web_service_get_checksum (st : service) (host : list Z) : option (list Z) :=
  checksum_by_host st !! host.

Definition cockpit_web_service_set_host_checksum (host checksum : list Z) (st : service) : service :=
  let old_checksum := checksum_by_host st !! host in
  let old_host := host_by_checksum st !! checksum in
  if decide (old_checksum = Some checksum) then st
  else
    let by_checksum := match old_checksum with
                       | Some old => delete old (host_by_checksum st)
                       | None => host_by_checksum st
                       end in
    let by_checksum := if decide (old_host = Some (bs "localhost")) then by_checksum
                       else <[checksum := host]> by_checksum in
    set_hosts (<[host := checksum]> (checksum_by_host st)) by_checksum st.

(** ** What happens to a service *)

Inductive event :=
| NewSocket (k : nat) (c : connection)
| SocketChanged (k : nat) (c : connection)     (* what the connection does by itself *)
| SocketOpened (k : nat)
| SocketMessage (k : nat) (message : list Z)
| SocketClosing (k : nat)
| SocketClosed (k : nat)
| TransportMessage (channel : option (list Z)) (payload : list Z)
| TransportClosed (problem : option (list Z))
| PoisonTimeout (tag : nat)
| PingTimeout
| Disconnect
| SetHostChecksum (host checksum : list Z).

Definition handle (e : event) : ws unit :=
  match e with
  | NewSocket k c => cockpit_web_service_socket k c
  | SocketChanged k c => upd_connection k (λ _, c)
  | SocketOpened k => on_web_socket_open k
  | SocketMessage k message => on_web_socket_message k message
  | SocketClosing k => on_web_socket_closing k
  | SocketClosed k => on_web_socket_close k
  | TransportMessage channel payload => on_transport_message channel payload
  | TransportClosed problem => on_transport_closed problem
  | PoisonTimeout tag =>
      _ ← modify (λ st, set_timeouts (credentials_timeout st) (timeouts st ∖ {[tag]}) (next_timeout st) st);
      poison_creds
  | PingTimeout => on_ping_time
  | Disconnect => cockpit_web_service_disconnect
  | SetHostChecksum host checksum => modify (cockpit_web_service_set_host_checksum host checksum)
  end.

(** Signals reach the handlers that are connected; a new connection has a number of its own,
    and the streams of connections are there until they are closed. *)
Definition possible (e : event) (st : service) : Prop :=
  match e with
  | NewSocket k c => by_connection st !! k = None ∧ io_stream c = true
  | SocketChanged k c => is_Some (by_connection st !! k) ∧ io_stream c = true
  | SocketOpened k | SocketClosing k | SocketClosed k => is_Some (by_connection st !! k)
  | TransportMessage _ _ | TransportClosed _ => hooked st = true
  | PoisonTimeout tag => tag ∈ timeouts st
  | SocketMessage _ _ | PingTimeout | Disconnect | SetHostChecksum _ _ => True
  end.

Fixpoint run (events : list event) (st : service) : comp unit unit * service :=
  match events with
  | [] => (Ok tt, st)
  | e :: events => (_ ← handle e; (run events : ws unit)) st
  end.

Fixpoint possible_run (events : list event) (st : service) : Prop :=
  match events with
  | [] => True
  | e :: events => possible e st ∧ possible_run events (handle e st).2
  end.

(** ** Post-conditions of computations that do not fault *)

Definition post {A} (m : ws A) (Q : A → service → Prop) (st : service) : Prop :=
  match m st with (Ok a, st') => Q a st' | _ => False end.

Lemma post_ret {A} (a : A) Q st : Q a st → post (mret a) Q st.
Proof. done. Qed.

Lemma post_bind {A B} (m : ws A) (f : A → ws B) Q st :
  post m (λ a, post (f a) Q) st → post (m ≫= f) Q st.
Proof. unfold post, mbind, ws_bind, prog_bind. by destruct (m st) as [[a|e|] st']. Qed.

Lemma post_assoc {A B C} (m : ws A) (f : A → ws B) (g : B → ws C) Q st :
  post ((m ≫= f) ≫= g) Q st → post (m ≫= λ a, f a ≫= g) Q st.
Proof. unfold post, mbind, ws_bind, prog_bind. by destruct (m st) as [[a|e|] st']. Qed.

Lemma post_mono {A} (m : ws A) (Q R : A → service → Prop) st :
  post m Q st → (∀ a st', Q a st' → R a st') → post m R st.
Proof. unfold post. destruct (m st) as [[a|e|] st']; auto. Qed.

Lemma post_get {A} (f : service → A) Q st : Q (f st) st → post (get f) Q st.
Proof. done. Qed.

Lemma post_modify f Q st : Q tt (f st) → post (modify f) Q st.
Proof. done. Qed.

Lemma post_when b m Q st : (b = true → post m Q st) → (b = false → Q tt st) → post (when b m) Q st.
Proof. destruct b; cbn; auto. Qed.

Lemma post_get_socket k s Q st : by_connection st !! k = Some s → Q s st → post (get_socket k) Q st.
Proof. unfold post, get_socket. by intros ->. Qed.

Lemma post_upd_socket k f s Q st : by_connection st !! k = Some s →
  Q tt (set_by_connection (<[k := f s]> (by_connection st)) st) → post (upd_socket k f) Q st.
Proof. unfold post, upd_socket. by intros ->. Qed.

Lemma post_get_connection k c Q st : connections st !! k = Some c → Q c st →
  post (get_connection k) Q st.
Proof. unfold post, get_connection. by intros ->. Qed.

Lemma post_upd_connection k f c Q st : connections st !! k = Some c →
  Q tt (set_connections (<[k := f c]> (connections st)) st) → post (upd_connection k f) Q st.
Proof. unfold post, upd_connection. by intros ->. Qed.

(** A property that every turn keeps is kept by the loop. *)
Lemma post_for_each {A} (l : list A) (m : A → ws unit) (P : service → Prop) st :
  (∀ x st, x ∈ l → P st → post (m x) (λ _, P) st) → P st → post (for_each l m) (λ _, P) st.
Proof.
  revert st. induction l as [|x l IH]; intros st Hm HP; [done|]. cbn [for_each].
  apply post_bind. eapply post_mono; [apply Hm; [left|done]|]. intros [] st' HP'.
  apply IH; [|done]. intros y st2 Hy. apply Hm. by right.
Qed.

(** ** The invariant *)

Definition count (o : output → bool) (st : service) : nat := length (filter o (outputs st)).

Definition is_destroy (o : output) : bool := match o with Destroy => true | _ => false end.
Definition to_transport (o : output) : bool :=
  match o with ToTransport _ _ | CloseTransport _ => true | _ => false end.

Record core (st : service) : Prop := Core {
  inv_channel c k : by_channel st !! c = Some k →
    ∃ s, by_connection st !! k = Some s ∧ is_Some (channels s !! c);
  inv_connection k : is_Some (connections st !! k) ↔ is_Some (by_connection st !! k);
  inv_callers : callers st = Z.of_nat (size (by_connection st));
  inv_hooked : hooked st = negb (sent_done st);
  inv_timeout t : credentials_timeout st = Some t → t ∈ timeouts st;
  inv_timeouts t : t ∈ timeouts st → (t < next_timeout st)%nat;
  inv_host c h : host_by_checksum st !! c = Some h → checksum_by_host st !! h = Some c
}.

Record inv (st : service) : Prop := Inv {
  inv_core : core st;
  inv_closing : closing st = sent_done st;
  inv_destroy : count is_destroy st = Nat.b2n (closing st)
}.

(** What operations do to the state besides keeping the invariant: a password that has been
    poisoned stays so, a service that is done with its transport says nothing more to it, and
    a channel only gets another socket when it is [new]. *)
Record keeps (new : list Z → nat → Prop) (st st' : service) : Prop := Keeps {
  keeps_poisoned : poisoned (creds st) = true → poisoned (creds st') = true;
  keeps_done : sent_done st = true → sent_done st' = true;
  keeps_silent : sent_done st = true → count to_transport st' = count to_transport st;
  keeps_channel c k : by_channel st' !! c = Some k →
    by_channel st !! c = Some k ∨ (by_channel st !! c = None ∧ new c k)
}.

Definition no_new : list Z → nat → Prop := λ _ _, False.

Definition good (st st' : service) : Prop := inv st' ∧ keeps no_new st st'.

Lemma keeps_refl new st : keeps new st st.
Proof. constructor; auto. Qed.

Lemma keeps_more new st1 st2 st3 : keeps new st1 st2 → keeps no_new st2 st3 → keeps new st1 st3.
Proof.
  intros [P1 D1 S1 C1] [P2 D2 S2 C2]. constructor; [auto..| |].
  - intros H. rewrite S2; auto.
  - intros c k Hc. destruct (C2 c k Hc) as [H|[_ []]]. auto.
Qed.

Lemma good_refl st : inv st → good st st.
Proof. split; [done|apply keeps_refl]. Qed.

Lemma good_then st1 st2 st3 : good st1 st2 → good st2 st3 → good st1 st3.
Proof. intros [_ H1] [I H2]. split; [done|by eapply keeps_more]. Qed.

(** A computation that is good wherever the invariant holds. *)
Definition fine {A} (m : ws A) : Prop := ∀ st, inv st → post m (λ _ st', good st st') st.

Lemma fine_ret {A} (a : A) : fine (mret a).
Proof. intros st I. by apply post_ret, good_refl. Qed.

Lemma fine_bind {A B} (m : ws A) (f : A → ws B) : fine m → (∀ a, fine (f a)) → fine (m ≫= f).
Proof.
  intros Hm Hf st I. apply post_bind. eapply post_mono; [exact (Hm st I)|].
  intros a st1 G1. cbn beta in G1.
  eapply post_mono; [apply (Hf a st1); exact (proj1 G1)|].
  intros b st2 G2. by eapply good_then.
Qed.

Lemma fine_get {A B} (f : service → A) (k : A → ws B) : (∀ a, fine (k a)) → fine (get f ≫= k).
Proof. intros H st I. apply post_bind, post_get. by apply H. Qed.

Lemma fine_when b m : (b = true → fine m) → fine (when b m).
Proof. intros H st I. apply post_when; [by intros ->; apply H|intros _; by apply good_refl]. Qed.

(** Chains a computation that is good from the present state. *)
Lemma post_good {A B} (m : ws A) (f : A → ws B) st0 st :
  good st0 st → fine m → (∀ a st', good st0 st' → post (f a) (λ _ st', good st0 st') st') →
  post (m ≫= f) (λ _ st', good st0 st') st.
Proof.
  intros G Hm Hf. apply post_bind. eapply post_mono; [apply Hm, G|]. intros a st1 G1.
  by apply Hf; eapply good_then.
Qed.

(** An operation that only talks: to WebSockets and to the transport, which leaves the sockets
    and the channels as they are. *)
Record talks (st st' : service) : Prop := Talks {
  talks_sockets : by_connection st' = by_connection st;
  talks_channels : by_channel st' = by_channel st;
  talks_connections k : is_Some (connections st' !! k) ↔ is_Some (connections st !! k);
  talks_callers : callers st' = callers st;
  talks_closing : closing st' = closing st;
  talks_hooked : hooked st' = hooked st;
  talks_done : sent_done st' = sent_done st;
  talks_creds : creds st' = creds st;
  talks_timeouts : credentials_timeout st' = credentials_timeout st ∧ timeouts st' = timeouts st ∧
    next_timeout st' = next_timeout st;
  talks_hosts : checksum_by_host st' = checksum_by_host st ∧ host_by_checksum st' = host_by_checksum st;
  talks_destroy : count is_destroy st' = count is_destroy st;
  talks_silent : sent_done st = true → count to_transport st' = count to_transport st
}.

(** Every socket has its connection. *)
Definition linked (st : service) : Prop :=
  ∀ k, is_Some (connections st !! k) ↔ is_Some (by_connection st !! k).

Definition talking (m : ws unit) (st : service) : Prop := linked st → post m (λ _ st', talks st st') st.

Lemma talks_refl st : talks st st.
Proof. by constructor. Qed.

Lemma talks_trans st1 st2 st3 : talks st1 st2 → talks st2 st3 → talks st1 st3.
Proof.
  intros [] []. constructor; try congruence; try (by destruct_and?; split_and?; congruence).
  - intros k. etransitivity; eauto.
  - intros H. rewrite talks_silent1; [by auto|congruence].
Qed.

Lemma talks_linked st st' : talks st st' → linked st → linked st'.
Proof. intros [ES _ EC _ _ _ _ _ _ _ _ _] L k. by rewrite EC, ES. Qed.

Lemma talks_core st st' : talks st st' → core st → core st'.
Proof.
  intros [ES EC EK Ec Ecl Eh Ed Ecr (Et & Ets & En) (H1 & H2) EN Esil] [].
  constructor; rewrite ?ES, ?EC, ?Ec, ?Eh, ?Ed, ?Et, ?Ets, ?En, ?H1, ?H2; try done.
  intros k. by rewrite EK.
Qed.

Lemma talks_good st st' : talks st st' → inv st → good st st'.
Proof.
  intros T [I H1 H2]. pose proof (talks_core _ _ T I).
  destruct T as [ES EC EK Ec Ecl Eh Ed Ecr Et Eh' EN Esil]. split.
  - constructor; rewrite ?Ecl, ?Ed, ?EN; done.
  - constructor; rewrite ?EC, ?Ed, ?Ecr; auto.
Qed.

Lemma talking_ret st : talking (mret tt) st.
Proof. intros _. apply talks_refl. Qed.

Lemma talking_bind (m : ws unit) (f : unit → ws unit) st :
  talking m st → (∀ st', talks st st' → talking (f tt) st') → talking (m ≫= f) st.
Proof.
  intros Hm Hf I. apply post_bind. eapply post_mono; [by apply Hm|]. intros [] st1 T1. cbn beta in T1.
  eapply post_mono; [apply (Hf st1 T1)|]; [by eapply talks_linked|].
  intros [] st2 T2. by eapply talks_trans.
Qed.

Lemma talking_get {A} (f : service → A) (k : A → ws unit) st :
  talking (k (f st)) st → talking (get f ≫= k) st.
Proof. intros H I. apply post_bind, post_get. by apply H. Qed.

Lemma talking_when b m st : (b = true → talking m st) → talking (when b m) st.
Proof. intros H I. apply post_when; intros; [by apply H|apply talks_refl]. Qed.

Lemma talking_for_each {A} (l : list A) (m : A → ws unit) st :
  (∀ x st', x ∈ l → talks st st' → talking (m x) st') → talking (for_each l m) st.
Proof.
  intros Hm I. apply post_for_each; [|apply talks_refl]. intros x st' Hx T.
  eapply post_mono; [apply (Hm x st' Hx T)|]; [by eapply talks_linked|].
  intros [] st2 T2. by eapply talks_trans.
Qed.

Lemma count_snoc f o st : count f (set_outputs (outputs st ++ [o]) st) = (count f st + if f o then 1 else 0)%nat.
Proof.
  unfold count. cbn [outputs set_outputs]. rewrite filter_app, length_app. f_equal.
  rewrite filter_cons, filter_nil. destruct (f o) eqn:E; case_decide as D; try done; by rewrite E in D.
Qed.

Lemma talking_out o st : is_destroy o = false → (to_transport o = true → sent_done st = false) →
  talking (out o) st.
Proof.
  intros Hd Ht I. apply post_modify. constructor; try done.
  - by rewrite count_snoc, Hd, Nat.add_0_r.
  - intros Hs. rewrite count_snoc. destruct (to_transport o); [|lia]. rewrite Ht in Hs by done. done.
Qed.

Lemma talking_upd_connection k f st : is_Some (by_connection st !! k) → talking (upd_connection k f) st.
Proof.
  intros Hk I. pose proof Hk as Hk2. apply I in Hk2 as [c Hc].
  apply (post_upd_connection k f c); [done|]. constructor; try done. intros k'. cbn.
  destruct (decide (k = k')) as [<-|Hne]; [|by rewrite lookup_insert_ne].
  rewrite lookup_insert_eq. split; by eexists.
Qed.

Lemma talking_transport_send channel payload st : sent_done st = false →
  talking (transport_send channel payload) st.
Proof. intros H. by apply talking_out. Qed.

Lemma talking_send_unless_done channel payload st : talking (send_unless_done channel payload) st.
Proof.
  apply talking_get, talking_when. intros H%negb_true_iff. by apply talking_transport_send.
Qed.

Lemma talking_socket_send k type prefix payload st : is_Some (by_connection st !! k) →
  talking (socket_send k type prefix payload) st.
Proof. apply talking_upd_connection. Qed.

Lemma talking_with_connection k (f : connection → ws unit) st : is_Some (by_connection st !! k) →
  (∀ c, talking (f c) st) → talking (c ← get_connection k; f c) st.
Proof.
  intros Hk Hf I. pose proof Hk as Hk2. apply I in Hk2 as [c Hc].
  apply post_bind, (post_get_connection k c); [done|]. by apply Hf.
Qed.

Lemma talking_if_open k m st : is_Some (by_connection st !! k) → talking m st →
  talking (open ← socket_open k; when open m) st.
Proof.
  intros Hk Hm I. unfold socket_open. pose proof Hk as Hk2. apply I in Hk2 as [c Hc].
  apply post_bind, post_bind, (post_get_connection k c); [done|]. apply post_ret. by apply talking_when.
Qed.

Lemma talking_closing k st : talking (on_web_socket_closing k) st.
Proof.
  apply talking_get, talking_when. intros Hd%negb_true_iff. apply talking_get, talking_for_each.
  intros c st' _ T. apply talking_transport_send. by rewrite (talks_done _ _ T).
Qed.

Lemma talking_close k code reason st : is_Some (by_connection st !! k) →
  talking (socket_close k code reason) st.
Proof.
  intros Hk. apply talking_with_connection; [done|]. intros c. apply talking_bind.
  - apply talking_when. intros _. apply talking_closing.
  - intros st' T. apply talking_upd_connection. by rewrite (talks_sockets _ _ T).
Qed.

Lemma elem_of_keys {A} (m : gmap nat A) k : k ∈ (map_to_list m).*1 → is_Some (m !! k).
Proof. intros ([k' x] & -> & H)%list_elem_of_fmap. apply elem_of_map_to_list in H. by eexists. Qed.

Lemma talking_sockets_close problem st : talking (cockpit_sockets_close problem) st.
Proof.
  unfold cockpit_sockets_close. cbv zeta. apply talking_get, talking_for_each. intros k st' Hk T.
  apply elem_of_keys in Hk. rewrite <- (talks_sockets _ _ T) in Hk.
  apply talking_with_connection; [done|]. intros c. apply talking_when. intros _. by apply talking_close.
Qed.

Lemma core_linked st : core st → linked st.
Proof. intros I k. apply (inv_connection _ I). Qed.

Lemma inv_linked st : inv st → linked st.
Proof. intros I. apply core_linked, I. Qed.

(** What only talks is good. *)
Lemma post_talking m st0 st : talking m st → good st0 st → post m (λ _ st', good st0 st') st.
Proof.
  intros Hm G. eapply post_mono; [apply Hm, inv_linked, G|]. intros [] st' T.
  eapply good_then; [exact G|]. by apply talks_good; [|apply G].
Qed.

(** ** What every operation keeps *)

(** The invariant of a state that differs from one with [I] only elsewhere. *)
Ltac by_inv I := destruct I as [[] ? ?]; constructor; [by constructor|done..].

Lemma fine_talking m : (∀ st, inv st → talking m st) → fine m.
Proof. intros H st I. by apply post_talking; [apply H|apply good_refl]. Qed.

(** Nothing of the service but the sockets is linked to them. *)
Lemma fine_poison : fine (modify (λ st, set_creds (cockpit_creds_poison (creds st)) st)).
Proof.
  intros st I. apply post_modify. split; [by_inv I|]. constructor; auto.
Qed.

Lemma core_disposed st tag : core st → (tag = timeouts st ∨ ∃ t, tag = timeouts st ∖ {[t]}) →
  core (set_disposed (set_timeouts None tag (next_timeout st) st)).
Proof.
  intros [] Ht. constructor; try done. cbn. intros t H. destruct Ht as [->|[t' ->]]; [auto|].
  apply elem_of_difference in H as [H _]. auto.
Qed.

Lemma post_dispose st : inv st →
  post cockpit_web_service_dispose (λ _ st', good st st' ∧ by_connection st' = by_connection st) st.
Proof.
  intros [I Hc Hd]. unfold cockpit_web_service_dispose.
  apply post_bind, post_get, post_bind, post_get, post_bind, post_modify.
  set (st1 := set_disposed _).
  assert (I1 : core st1).
  { apply core_disposed; [done|]. destruct (credentials_timeout st); [right; by eexists|by left]. }
  apply post_bind. eapply (post_mono _ (λ _ st2, core st2 ∧ closing st2 = true ∧ sent_done st2 = true ∧
    creds st2 = creds st ∧ by_channel st2 = by_channel st ∧
    by_connection st2 = by_connection st ∧ count is_destroy st2 = count is_destroy st ∧
    (sent_done st = true → count to_transport st2 = count to_transport st))).
  { apply post_when; intros H; [apply post_modify|done]. split; [by destruct I1; constructor|]. split_and!; try done.
    - by rewrite count_snoc, Nat.add_0_r.
    - intros Hs. by rewrite Hs in H. }
  intros [] st2 (I2 & Hc2 & Hs2 & HC2 & HB2 & HK2 & HD2 & HT2). apply post_bind.
  eapply post_mono; [by apply (talking_sockets_close None), core_linked|].
  intros [] st3 T. pose proof (talks_core _ _ T I2) as I3.
  destruct T as [ES EC _ _ Ecl _ Ed Ecr _ _ EN Esil].
  apply post_when; intros Hw; [apply post_modify|];
    (split; [|by rewrite <- HK2, <- ES]); split; constructor;
    cbn [closing sent_done creds by_channel set_outputs]; rewrite ?Ecl, ?Ed, ?EC, ?Ecr, ?HC2, ?HB2; auto; try congruence.
  - by destruct I3; constructor.
  - apply negb_true_iff in Hw. etransitivity; [apply count_snoc|]. by rewrite EN, HD2, Hd, Hw, Hc2.
  - intros Hs. etransitivity; [apply count_snoc|]. by rewrite Nat.add_0_r, Esil, HT2.
  - apply negb_false_iff in Hw. by rewrite EN, HD2, Hd, Hw, Hc2.
  - intros Hs. by rewrite Esil, HT2.
Qed.

Lemma fine_dispose : fine cockpit_web_service_dispose.
Proof. intros st I. eapply post_mono; [by apply post_dispose|]. by intros [] st' []. Qed.

Lemma fine_modify f : (∀ st, inv st → good st (f st)) → fine (modify f).
Proof. intros H st I. by apply post_modify, H. Qed.

(** Channels are only forgotten. *)
Lemma good_forget st m : inv st → m ⊆ by_channel st → good st (set_by_channel m st).
Proof.
  intros I Hm. split.
  - destruct I as [[] ? ?]. constructor; [constructor|..]; try done. cbn. intros c k H.
    apply inv_channel0. by eapply lookup_weaken.
  - constructor; try done. cbn. intros c k H. left. by eapply lookup_weaken.
Qed.

Lemma fine_delete_channel c : fine (modify (λ st, set_by_channel (delete c (by_channel st)) st)).
Proof. apply fine_modify. intros st I. apply good_forget; [done|apply delete_subseteq]. Qed.

(** A socket that loses a channel which is no longer routed to it, or gets one. *)
Lemma post_set_channels k f st0 st s : good st0 st → by_connection st !! k = Some s →
  (∀ c, by_channel st !! c = Some k → is_Some (channels s !! c) → is_Some (channels (f s) !! c)) →
  post (upd_socket k f) (λ _ st', good st0 st') st.
Proof.
  intros G Hk Hf. apply (post_upd_socket k f s); [done|]. eapply good_then; [exact G|].
  destruct G as [[[] ? ?] _]. split; [|by constructor; auto].
  constructor; [constructor|..]; try done; cbn.
  - intros c k' H. destruct (inv_channel0 c k' H) as (s' & Hs & Hc).
    destruct (decide (k' = k)) as [->|Hne]; [|rewrite lookup_insert_ne by done; eauto].
    rewrite lookup_insert_eq. eexists. split; [done|]. assert (s' = s) as -> by congruence. auto.
  - intros k'. rewrite inv_connection0. destruct (decide (k' = k)) as [->|Hne]; [|by rewrite lookup_insert_ne].
    rewrite lookup_insert_eq, Hk. split; by eexists.
  - rewrite inv_callers0. by rewrite map_size_insert, Hk.
Qed.

(** The socket [k] is known. *)
Definition known (k : nat) (st : service) : Prop := is_Some (by_connection st !! k).

Lemma post_process_close k c (Q : unit → service → Prop) st0 st : good st0 st → known k st →
  (∀ st', good st0 st' → known k st' → sent_done st' = sent_done st → Q tt st') →
  post (process_close (Some k) c) Q st.
Proof.
  intros G [s Hk] HQ. unfold process_close, cockpit_socket_remove_channel.
  apply post_bind, post_modify. set (st1 := set_by_channel _ st).
  assert (G1 : good st0 st1).
  { eapply good_then; [exact G|]. apply good_forget; [apply G|apply delete_subseteq]. }
  assert (Hk1 : by_connection st1 !! k = Some s) by done.
  eapply (post_mono _ (λ _ st', good st0 st' ∧ known k st' ∧ sent_done st' = sent_done st)).
  - apply (post_upd_socket k _ s); [done|]. split_and!; [| |done].
    + pose proof (post_set_channels k (λ s, set_channels (delete c (channels s)) s) st0 st1 s G1 Hk1) as H.
      unfold post, upd_socket in H. rewrite Hk1 in H. apply H. intros c' Hc' Hs. cbn in *.
      apply lookup_delete_Some in Hc' as [Hne _]. by rewrite lookup_delete_ne.
    + unfold known. cbn. rewrite lookup_insert_eq. by eexists.
  - intros [] st' (? & ? & ?). auto.
Qed.

Lemma known_talks k st st' : talks st st' → known k st → known k st'.
Proof. intros T. unfold known. by rewrite (talks_sockets _ _ T). Qed.

(** ** Handlers on the transport *)

(** A computation that may use the transport, and leaves it in use. *)
Definition calm {A} (m : ws A) : Prop := ∀ st, inv st → sent_done st = false →
  post m (λ _ st', good st st' ∧ sent_done st' = false) st.

Lemma calm_ret {A} (a : A) : calm (mret a).
Proof. intros st I H. apply post_ret. by split; [apply good_refl|]. Qed.

Lemma calm_bind {A B} (m : ws A) (f : A → ws B) : calm m → (∀ a, calm (f a)) → calm (m ≫= f).
Proof.
  intros Hm Hf st I H. apply post_bind. eapply post_mono; [exact (Hm st I H)|].
  intros a st1 [G1 H1]. eapply post_mono; [apply (Hf a st1); [apply G1|done]|].
  intros b st2 [G2 H2]. split; [by eapply good_then|done].
Qed.

Lemma calm_get {A B} (f : service → A) (k : A → ws B) : (∀ a, calm (k a)) → calm (get f ≫= k).
Proof. intros H st I Hd. apply post_bind, post_get. by apply H. Qed.

Lemma calm_modify f : (∀ st, inv st → good st (f st)) → (∀ st, sent_done (f st) = sent_done st) →
  calm (modify f).
Proof. intros H1 H2 st I Hd. apply post_modify. split; [by apply H1|by rewrite H2]. Qed.

Lemma calm_talking m : (∀ st, inv st → sent_done st = false → talking m st) → calm m.
Proof.
  intros H st I Hd. eapply post_mono; [apply (H st I Hd), inv_linked, I|]. intros [] st' T.
  split; [by apply talks_good|by rewrite (talks_done _ _ T)].
Qed.

Lemma calm_transport_send channel payload : calm (transport_send channel payload).
Proof. apply calm_talking. intros st _ H. by apply talking_transport_send. Qed.

Lemma calm_send_unless_done channel payload : calm (send_unless_done channel payload).
Proof. apply calm_talking. intros st _ _. apply talking_send_unless_done. Qed.

Lemma calm_poison : calm (modify (λ st, set_creds (cockpit_creds_poison (creds st)) st)).
Proof.
  apply calm_modify; [|done]. intros st I. split; [by_inv I|]. constructor; auto.
Qed.

Lemma calm_transport_authorize options : calm (process_transport_authorize options).
Proof.
  unfold process_transport_authorize. repeat (split_match; try apply calm_ret).
  apply calm_get. intros c. cbv zeta. apply calm_bind; [apply calm_send_unless_done|intros []; apply calm_ret].
Qed.

Lemma good_start_timeout st : inv st →
  good st (set_timeouts (Some (next_timeout st)) ({[next_timeout st]} ∪ timeouts st) (S (next_timeout st)) st).
Proof.
  intros I. split; [|constructor; auto]. destruct I as [[] ? ?].
  constructor; [constructor|..]; try done; cbn.
  - intros t [= <-]. by apply elem_of_union_l, elem_of_singleton.
  - intros t [->%elem_of_singleton|H]%elem_of_union; [lia|]. specialize (inv_timeouts0 t H). lia.
Qed.

Lemma calm_transport_init options : calm (process_transport_init options).
Proof.
  unfold process_transport_init. destruct (get_int options (bs "version") (-1)) as [v|]; [|apply calm_ret].
  destruct (v =? 1); [|apply calm_ret]. apply calm_bind.
  { apply calm_modify; [|done]. intros st I. split; [by_inv I|]. constructor; auto. }
  intros []. apply calm_bind; [apply calm_modify; [|done]; apply good_start_timeout|]. intros [].
  cbv zeta. apply calm_get. intros c. apply calm_bind.
  - destruct (explicit_superuser options); [|apply calm_ret].
    destruct (wanted_superuser c); [apply calm_ret|].
    apply calm_bind; [apply calm_poison|intros []; apply calm_ret].
  - intros o. apply calm_bind; [apply calm_transport_send|intros []; apply calm_ret].
Qed.

Lemma inv_known st c k : inv st → by_channel st !! c = Some k → known k st.
Proof. intros [I _ _] H. apply (inv_channel _ I) in H as (s & Hs & _). by eexists. Qed.

Lemma calm_transport_control command channel options payload :
  calm (on_transport_control command channel options payload).
Proof.
  unfold on_transport_control. destruct channel as [channel|].
  - intros st I Hd. apply post_bind, post_get.
    destruct (by_channel st !! channel) as [k|] eqn:Ek; cbn [process_close].
    + pose proof (inv_known st channel k I Ek) as Hk. apply post_bind.
      eapply (post_mono _ (λ _ st', (good st st' ∧ sent_done st' = false) ∧ known k st')).
      { apply post_when; intros _; [|by split; [split; [apply good_refl|]|]].
        eapply post_process_close; [by apply good_refl|done|]. intros st' G K D. by rewrite D. }
      intros [] st1 [[G1 D1] K1]. eapply post_mono; [apply (talking_if_open k); [done| |]|].
      * by apply talking_socket_send.
      * apply inv_linked, G1.
      * intros [] st2 T. split; [|by rewrite (talks_done _ _ T)].
        eapply good_then; [exact G1|]. apply talks_good; [done|apply G1].
    + apply post_bind, post_when; intros _; by (split; [apply good_refl|]).
  - apply calm_bind.
    + destruct (decide _); [apply calm_transport_init|]. apply calm_get. intros [o|]; [|apply calm_ret].
      destruct (decide _).
      { apply calm_bind; [apply calm_transport_authorize|intros a; apply calm_ret]. }
      destruct (decide _); [|apply calm_ret]. apply calm_bind; [apply calm_poison|intros []; apply calm_ret].
    + intros [p|]; [|apply calm_ret]. apply calm_talking. intros st _ H. by apply talking_out.
Qed.

(** Where a channel is routed to. *)
Lemma inv_route st channel k : inv st → by_channel st !! channel = Some k →
  ∃ s c type, by_connection st !! k = Some s ∧ connections st !! k = Some c ∧ channels s !! channel = Some type.
Proof.
  intros [I _ _] H. destruct (inv_channel _ I channel k H) as (s & Hs & [type Ht]).
  assert (Hc : is_Some (connections st !! k)) by (apply (inv_connection _ I); by eexists).
  destruct Hc as [c Hc]. by exists s, c, type.
Qed.

Lemma calm_transport_recv channel payload : calm (on_transport_recv channel payload).
Proof.
  intros st I Hd. destruct channel as [channel|]; [|by apply calm_ret]. unfold on_transport_recv.
  apply post_bind, post_get. destruct (by_channel st !! channel) as [k|] eqn:Ek; [|by apply calm_ret].
  destruct (inv_route st channel k I Ek) as (s & c & type & Hs & Hc & Ht). unfold socket_open.
  apply post_bind, post_bind, (post_get_connection k c); [done|]. apply post_ret.
  destruct (bool_decide _); [|by apply calm_ret].
  apply post_bind, (post_get_socket k s); [done|]. rewrite Ht. apply post_bind.
  eapply post_mono; [apply (talking_socket_send k); [by eexists|by apply inv_linked]|].
  intros [] st' T. apply post_ret. split; [by apply talks_good|by rewrite (talks_done _ _ T)].
Qed.

Lemma calm_transport_message channel payload : calm (on_transport_message channel payload).
Proof.
  destruct channel as [channel|]; cbn [on_transport_message].
  { apply calm_bind; [apply calm_transport_recv|intros b; apply calm_ret]. }
  destruct (cockpit_transport_parse_command _ _) as [[[command channel] options]|].
  - destruct (cockpit_transport_default_control _ _ _ _) as [handled answer]. apply calm_bind.
    + destruct answer; [apply calm_transport_send|apply calm_ret].
    + intros []. destruct handled; [apply calm_ret|apply calm_transport_control].
  - apply calm_talking. intros st _ H. by apply talking_out.
Qed.

Lemma fine_transport_closed problem : fine (on_transport_closed problem).
Proof.
  apply fine_bind; [|intros []; apply fine_dispose]. apply fine_talking. intros st _.
  apply talking_sockets_close.
Qed.

(** ** Handlers on WebSockets *)

Lemma fine_send_unless_done channel payload : fine (send_unless_done channel payload).
Proof. apply fine_talking. intros st _. apply talking_send_unless_done. Qed.

Lemma talking_protocol_error k problem st : known k st → talking (inbound_protocol_error k problem) st.
Proof.
  intros Hk. unfold inbound_protocol_error. cbv zeta. apply talking_if_open; [done|]. apply talking_bind.
  - by apply talking_socket_send.
  - intros st' T. apply talking_close. by apply (known_talks k st).
Qed.

(** What a message may open: channels for the socket that it comes from. *)
Definition opens (st : service) (k : nat) (payload c : list Z) : Prop :=
  closing st = false ∧ (∃ s, by_connection st !! k = Some s ∧ is_Some (socket_init s)) ∧
  ∃ options, cockpit_transport_parse_command json_parser payload = Some (bs "open", Some c, options).

(** The state is sound, and the socket is there if it is still to be used. *)
Definition served (new : list Z → nat → Prop) (k : nat) (st st' : service) : Prop :=
  inv st' ∧ keeps new st st' ∧ known k st'.

Lemma served_good new k st st' : good st st' → known k st' → served new k st st'.
Proof.
  intros [I [K1 K2 K3 K4]] Hk. split; [done|split; [|done]]. constructor; try done.
  intros c k' H. destruct (K4 c k' H) as [H'|[_ []]]. by left.
Qed.

Lemma post_protocol_error new k problem st0 st : served new k st0 st →
  post (inbound_protocol_error k problem) (λ _ st', served new k st0 st') st.
Proof.
  intros (I & K & Hk). eapply post_mono; [by apply talking_protocol_error, inv_linked|].
  intros [] st' T. destruct (talks_good _ _ T I) as [I' K']. split; [done|].
  split; [by eapply keeps_more|by eapply known_talks].
Qed.

Lemma post_relay new k channel payload st : inv st → known k st →
  post (send_unless_done channel payload) (λ _ st', served new k st st') st.
Proof.
  intros I Hk. eapply post_mono; [apply talking_send_unless_done, inv_linked, I|]. intros [] st' T.
  apply served_good; [by apply talks_good|by eapply known_talks].
Qed.

Lemma post_add_channel k c type (new : list Z → nat → Prop) st : inv st → known k st →
  by_channel st !! c = None → new c k →
  post (cockpit_socket_add_channel k c type) (λ _ st', served new k st st') st.
Proof.
  intros I [s Hk] Hc Hn. unfold cockpit_socket_add_channel. apply post_bind, post_modify.
  apply (post_upd_socket k _ s); [done|]. split; [|split].
  - destruct I as [[] ? ?]. constructor; [constructor|..]; try done; cbn.
    + intros c' k' H. destruct (decide (c' = c)) as [->|Hne].
      * rewrite lookup_insert_eq in H. injection H as <-. rewrite lookup_insert_eq. eexists. split; [done|].
        cbn. rewrite lookup_insert_eq. by eexists.
      * rewrite lookup_insert_ne in H by done. destruct (inv_channel0 c' k' H) as (s' & Hs & Hc').
        destruct (decide (k' = k)) as [->|]; [|rewrite lookup_insert_ne by done; eauto].
        rewrite lookup_insert_eq. eexists. split; [done|]. assert (s' = s) as -> by congruence.
        cbn. by rewrite lookup_insert_ne.
    + intros k'. rewrite inv_connection0. destruct (decide (k' = k)) as [->|]; [|by rewrite lookup_insert_ne].
      rewrite lookup_insert_eq, Hk. split; by eexists.
    + rewrite inv_callers0. by rewrite map_size_insert, Hk.
  - constructor; try done. cbn. intros c' k'. destruct (decide (c' = c)) as [->|Hne].
    + rewrite lookup_insert_eq. intros [= <-]. by right.
    + rewrite lookup_insert_ne by done. by left.
  - unfold known. cbn. rewrite lookup_insert_eq. by eexists.
Qed.

Definition claims (st : service) (k : nat) (channel : option (list Z)) : list Z → nat → Prop :=
  λ c k', k' = k ∧ channel = Some c ∧ closing st = false.

Lemma served_refl new k st : inv st → known k st → served new k st st.
Proof. intros I Hk. split; [done|]. split; [apply keeps_refl|done]. Qed.

Lemma post_relay_open k channel options st : inv st → known k st →
  post (process_and_relay_open k channel options) (λ _ st', served (claims st k channel) k st st') st.
Proof.
  intros I Hk. apply post_bind, post_get. destruct (closing st) eqn:Ec; [by apply post_ret, served_refl|].
  destruct channel as [c|]; [|by apply post_ret, served_refl]. apply post_bind, post_get.
  destruct (by_channel st !! c) eqn:Ek; [by apply post_ret, served_refl|].
  destruct (cockpit_web_service_parse_binary options) as [type|]; [|by apply post_ret, served_refl].
  apply post_bind. eapply post_mono; [by apply (post_add_channel k c type (claims st k (Some c)))|].
  intros [] st1 (I1 & K1 & Hk1). apply post_bind. eapply post_mono; [by apply (post_relay no_new k)|].
  intros [] st2 (I2 & K2 & Hk2). apply post_ret. split; [done|]. split; [by eapply keeps_more|done].
Qed.

Lemma post_socket_authorize new k options payload st : inv st → known k st →
  post (process_socket_authorize options payload) (λ _ st', served new k st st') st.
Proof.
  intros I Hk. unfold process_socket_authorize.
  destruct (cockpit_json_get_string _ _ _) as [[response|]|]; try by apply post_ret, served_refl.
  apply post_bind. unfold lift, post at 1.
  assert (Hb : ∃ g, basic_response response = Ok g).
  { unfold basic_response. pose proof (parse_basic_safe malloc malloc_length (Some response)) as Hs.
    pose proof (authorize_type_safe (Some response)) as Hs2.
    destruct (cockpit_authorize_type _) as [[type r]|e|]; [|by eexists|done].
    destruct (bool_decide _); [by eexists|].
    destruct (cockpit_authorize_parse_basic _ _) as [[p [u|]]|e|]; try done; by eexists. }
  destruct Hb as [g ->]. destruct g as [[user password]|]; [|by apply post_ret, served_refl].
  apply post_bind, post_modify, post_ret. split; [by_inv I|]. split; [by constructor; auto|done].
Qed.

Definition opening (st : service) (k : nat) (command : list Z) (channel : option (list Z))
    : list Z → nat → Prop := λ c k', claims st k channel c k' ∧ command = bs "open".

Lemma post_dispatch_command k command channel options payload st : inv st → known k st →
  post (dispatch_command k command channel options payload)
    (λ _ st', served (opening st k command channel) k st st') st.
Proof.
  intros I Hk. unfold dispatch_command. cbv zeta.
  assert (Hclose : ∀ c, post (process_and_relay_close k c payload)
            (λ _ st', served (opening st k command channel) k st st') st).
  { intros c. apply post_bind. eapply post_process_close; [by apply good_refl|done|]. intros st1 G1 K1 _.
    apply post_bind. eapply post_mono; [apply (post_relay no_new k); [apply G1|done]|].
    intros [] st2 (I2 & K2 & Hk2). apply post_ret. apply served_good; [|done].
    split; [done|]. by eapply keeps_more; [apply G1|]. }
  assert (Hrelay : post (valid ← (_ ← send_unless_done None payload; mret true); mret (valid, payload))
            (λ _ st', served (opening st k command channel) k st st') st).
  { apply post_bind, post_bind. eapply post_mono; [by apply (post_relay (opening st k command channel) k)|].
    intros [] st' H'. by do 2 apply post_ret. }
  repeat case_decide; try (apply post_bind).
  - eapply post_mono; [by apply (post_relay_open k)|]. intros v st' (I' & [K1 K2 K3 K4] & Hk').
    apply post_ret. split; [done|]. split; [|done]. constructor; try done.
    intros c k' Hc. destruct (K4 c k' Hc) as [|[? ?]]; [by left|right]. split; [done|by split].
  - by apply post_socket_authorize.
  - apply post_bind. unfold process_logout. apply post_bind, post_modify.
    eapply post_mono; [apply post_dispose; by_inv I|].
    intros [] st' [G Hs]. do 2 apply post_ret.
    assert (G0 : good st (set_creds (cockpit_creds_poison (creds st)) st)).
    { split; [by_inv I|]. constructor; auto. }
    apply served_good; [by eapply good_then|]. unfold known. by rewrite Hs.
  - destruct channel as [c|]; [|by apply post_ret, served_refl]. apply post_bind.
    eapply post_mono; [apply Hclose|]. intros v st' H'. by apply post_ret.
  - unfold process_kill. apply post_bind. eapply post_mono; [by apply (post_relay (opening st k command channel) k)|].
    intros [] st' H'. by do 2 apply post_ret.
  - destruct channel as [c|]; [by apply Hrelay|]. apply post_bind. unfold process_ping. cbv zeta.
    apply post_assoc, post_bind. eapply post_mono; [apply (talking_if_open k); [done| |]|].
    + by apply talking_socket_send.
    + by apply inv_linked.
    + intros [] st' T. do 2 apply post_ret. apply served_good; [by apply talks_good|by eapply known_talks].
  - destruct channel as [c|]; [by apply Hrelay|by apply post_ret, served_refl].
Qed.

Lemma served_weaken (new new' : list Z → nat → Prop) k st st' :
  (∀ c k', new c k' → new' c k') → served new k st st' → served new' k st st'.
Proof.
  intros H (I & [K1 K2 K3 K4] & Hk). split; [done|]. split; [|done]. constructor; try done.
  intros c k' Hc. destruct (K4 c k' Hc) as [|[]]; auto.
Qed.

Lemma post_dispatch_inbound k payload st : inv st → known k st →
  post (dispatch_inbound_command k payload)
    (λ _ st', served (λ c k', k' = k ∧ opens st k payload c) k st st') st.
Proof.
  intros I Hk. unfold dispatch_inbound_command.
  assert (Herr : ∀ (problem : option (list Z)) st1,
    served (λ c k', k' = k ∧ opens st k payload c) k st st1 →
    post (_ ← inbound_protocol_error k problem; mret payload)
      (λ _ st', served (λ c k', k' = k ∧ opens st k payload c) k st st') st1).
  { intros problem st1 S. apply post_bind. eapply post_mono; [by apply post_protocol_error|].
    intros [] st' S'. by apply post_ret. }
  destruct (cockpit_transport_parse_command _ _) as [[[command channel] options]|] eqn:Ep.
  2:{ by apply Herr, served_refl. }
  case_decide as Hi.
  - apply post_bind. eapply (post_mono _ (λ _ st', served no_new k st st')).
    { unfold process_socket_init. destruct (get_int _ _ _) as [v|]; [|by apply post_ret, served_refl].
      destruct (v =? 1); [|by apply post_ret, served_refl]. destruct Hk as [s Hk].
      apply post_bind, (post_upd_socket k _ s); [done|]. apply post_ret.
      pose proof (post_set_channels k (set_socket_init (Some options)) st st s (good_refl _ I) Hk) as H.
      unfold post, upd_socket in H. rewrite Hk in H. apply served_good; [by apply H|].
      unfold known. cbn. rewrite lookup_insert_eq. by eexists. }
    intros problem st1 S1.
    assert (S1' : served (λ c k', k' = k ∧ opens st k payload c) k st st1).
    { by eapply served_weaken; [|exact S1]; intros ? ? []. }
    destruct problem; [by apply Herr|]. by apply post_bind, post_ret, post_ret.
  - destruct Hk as [s Hs]. apply post_bind, (post_get_socket k s); [done|].
    destruct (socket_init s) eqn:Ei; [|by apply Herr, served_refl; [|eexists]].
    apply post_bind. eapply post_mono; [apply post_dispatch_command; [done|by eexists]|].
    intros [valid memory] st1 S1.
    assert (S1' : served (λ c k', k' = k ∧ opens st k payload c) k st st1).
    { eapply served_weaken; [|exact S1]. intros c k' [(-> & -> & Hc) ->]. split; [done|].
      split; [done|]. split; [|by eexists]. exists s. rewrite Ei. split; [done|by eexists]. }
    apply post_bind, post_when; intros _; [|by apply post_ret].
    eapply post_mono; [by apply post_protocol_error|]. intros [] st2 S2. by apply post_ret.
Qed.

Definition message_opens (st : service) (k : nat) (message : list Z) : list Z → nat → Prop :=
  λ c k', k' = k ∧ ∃ payload, cockpit_transport_parse_frame message = Some (None, payload) ∧
                              opens st k payload c.

Definition sound (new : list Z → nat → Prop) (st st' : service) : Prop := inv st' ∧ keeps new st st'.

Lemma sound_good new st st' : good st st' → sound new st st'.
Proof.
  intros [I [K1 K2 K3 K4]]. split; [done|]. constructor; try done.
  intros c k H. destruct (K4 c k H) as [|[_ []]]. by left.
Qed.

Lemma fine_sound new {A} (m : ws A) st : fine m → inv st → post m (λ _ st', sound new st st') st.
Proof. intros H I. eapply post_mono; [by apply H|]. intros a st'. apply sound_good. Qed.

Lemma post_web_socket_message k message st : inv st →
  post (on_web_socket_message k message) (λ _ st', sound (message_opens st k message) st st') st.
Proof.
  intros I. apply post_bind, post_get. destruct (by_connection st !! k) as [s|] eqn:Es.
  2:{ by apply (fine_sound _ (mret tt)); [apply fine_ret|]. }
  destruct (cockpit_transport_parse_frame message) as [[[channel|] payload]|] eqn:Ep.
  - apply fine_sound; [|done]. apply fine_get. intros b. apply fine_when. intros _.
    apply fine_send_unless_done.
  - apply post_bind. eapply post_mono; [apply post_dispatch_inbound; [done|by eexists]|].
    intros memory st' (I' & [K1 K2 K3 K4] & _). apply post_ret. split; [done|]. constructor; try done.
    intros c k' Hc. destruct (K4 c k' Hc) as [|[H0 [-> H1]]]; [by left|right]. split; [done|].
    split; [done|]. by exists payload.
  - by apply (fine_sound _ (mret tt)); [apply fine_ret|].
Qed.

Lemma fine_web_socket_open k : fine (on_web_socket_open k).
Proof.
  intros st I. apply post_bind, post_get. destruct (by_connection st !! k) as [s|] eqn:Es.
  - apply post_bind, post_get, post_talking; [|by apply good_refl]. apply talking_socket_send. by eexists.
  - by apply post_ret, good_refl.
Qed.

(** The loop of [cockpit_socket_destroy]. *)
Lemma forget_channels l st st0 :
  good st0 st →
  post (for_each l (λ chan, modify (λ st, set_by_channel (delete chan (by_channel st)) st)))
    (λ _ st', good st0 st' ∧ by_connection st' = by_connection st ∧ callers st' = callers st ∧
              connections st' = connections st ∧ by_channel st' ⊆ by_channel st ∧
              ∀ c, c ∈ l → by_channel st' !! c = None) st.
Proof.
  revert st. induction l as [|c l IH]; intros st G.
  { apply post_ret. split_and!; try done. by intros c []%elem_of_nil. }
  cbn [for_each]. apply post_bind, post_modify. set (st1 := set_by_channel _ st).
  assert (G1 : good st0 st1).
  { eapply good_then; [exact G|]. apply good_forget; [apply G|apply delete_subseteq]. }
  eapply post_mono; [by apply IH|]. intros [] st' (G' & Hs & Hc & Hn & Hsub & Hl).
  split_and!; try done.
  - etransitivity; [exact Hsub|apply delete_subseteq].
  - intros c' [->|H]%elem_of_cons; [|by apply Hl].
    apply eq_None_not_Some. intros [k Hk]. apply (lookup_weaken _ _ _ _ Hk) in Hsub.
    cbn in Hsub. by rewrite lookup_delete_eq in Hsub.
Qed.

Lemma elem_of_channels {A} (m : gmap (list Z) A) c : c ∈ (map_to_list m).*1 ↔ is_Some (m !! c).
Proof.
  split.
  - intros ([c' x] & -> & H)%list_elem_of_fmap. apply elem_of_map_to_list in H. by eexists.
  - intros [x H]. apply list_elem_of_fmap. exists (c, x). by rewrite elem_of_map_to_list.
Qed.

(** The state after a socket and its reference to the service are gone. *)
Definition without (k : nat) (st : service) : service :=
  set_callers (callers st - 1)
    (set_by_connection (delete k (by_connection st)) (set_connections (delete k (connections st)) st)).

Lemma good_without st0 st k s : good st0 st → by_connection st !! k = Some s →
  (∀ c, is_Some (channels s !! c) → by_channel st !! c = None) → good st0 (without k st).
Proof.
  intros G Hk Hn. eapply good_then; [exact G|]. destruct G as [[[] ? ?] _].
  split; [|by constructor; auto]. constructor; [constructor|..]; try done; cbn.
  - intros c k' H. destruct (inv_channel0 c k' H) as (s' & Hs & Hc). exists s'. split; [|done].
    rewrite lookup_delete_ne; [done|]. intros <-. assert (s' = s) as -> by congruence.
    by rewrite (Hn c Hc) in H.
  - intros k'. destruct (decide (k' = k)) as [->|Hne].
    + by rewrite !lookup_delete_eq.
    + by rewrite !lookup_delete_ne.
  - rewrite inv_callers0, map_size_delete, Hk. assert (size (by_connection st) ≠ 0%nat); [|lia].
    intros E%map_size_empty_inv. by rewrite E, lookup_empty in Hk.
Qed.

Lemma good_idling st0 st : good st0 st → good st0 (set_outputs (outputs st ++ [Idling]) st).
Proof.
  intros G. eapply good_then; [exact G|]. apply talks_good; [|apply G]. constructor; try done.
  - etransitivity; [apply count_snoc|]. by rewrite Nat.add_0_r.
  - intros _. etransitivity; [apply count_snoc|]. by rewrite Nat.add_0_r.
Qed.

Lemma fine_web_socket_close k : fine (on_web_socket_close k).
Proof.
  intros st I. apply post_bind, post_get. destruct (by_connection st !! k) as [s|] eqn:Hk.
  2:{ by apply post_ret, good_refl. }
  apply post_bind. unfold cockpit_socket_destroy. apply post_bind, (post_get_socket k s); [done|].
  apply post_bind. eapply post_mono; [by apply forget_channels, good_refl|].
  intros [] st1 (G1 & Hs1 & Hc1 & Hn1 & _ & Hl). apply post_modify.
  assert (G2 : good st (without k st1)).
  { apply (good_without st st1 k s); [done|by rewrite Hs1|]. intros c Hc. by apply Hl, elem_of_channels. }
  assert (Hpos : callers st1 > 0).
  { rewrite Hc1, (inv_callers _ (inv_core _ I)).
    assert (size (by_connection st) ≠ 0%nat); [|lia].
    intros E%map_size_empty_inv. by rewrite E, lookup_empty in Hk. }
  unfold caller_end. apply post_bind, post_get. cbn [callers set_by_connection set_connections].
  rewrite (proj2 (Z.gtb_lt _ _)) by lia. apply post_bind, post_modify, post_when; intros _; [|exact G2].
  apply post_modify. apply good_idling in G2. exact G2.
Qed.

Lemma fine_ping_time : fine on_ping_time.
Proof.
  apply fine_talking. intros st _. unfold on_ping_time. cbv zeta. apply talking_get, talking_for_each.
  intros k st' Hk T. apply elem_of_keys in Hk.
  assert (Hk' : known k st') by by apply (known_talks k st).
  apply talking_if_open; [done|]. by apply talking_socket_send.
Qed.

Lemma post_new_socket k c st : inv st → by_connection st !! k = None →
  post (cockpit_web_service_socket k c) (λ _ st', good st st') st.
Proof.
  intros I Hk. unfold cockpit_web_service_socket, cockpit_socket_track.
  apply post_bind, post_bind, post_get, post_bind, post_modify, post_modify, post_modify.
  split; [|by constructor; auto]. destruct I as [[] ? ?]. constructor; [constructor|..]; try done; cbn.
  - intros c' k' H. destruct (inv_channel0 c' k' H) as (s & Hs & Hc).
    rewrite lookup_insert_ne; [by eauto|]. by intros <-; rewrite Hk in Hs.
  - intros k'. destruct (decide (k' = k)) as [->|Hne].
    + rewrite !lookup_insert_eq. split; by eexists.
    + by rewrite !lookup_insert_ne.
  - rewrite inv_callers0, map_size_insert, Hk. lia.
Qed.

Lemma good_host_checksum host checksum st : inv st →
  good st (cockpit_web_service_set_host_checksum host checksum st).
Proof.
  intros I. unfold cockpit_web_service_set_host_checksum. case_decide as Hold; [by apply good_refl|].
  split; [|by constructor; auto]. destruct I as [[] ? ?]. constructor; [constructor|..]; try done.
  cbn [checksum_by_host host_by_checksum set_hosts]. set (m := match checksum_by_host st !! host with
    | Some old => delete old (host_by_checksum st) | None => _ end).
  assert (Hm : ∀ c h, m !! c = Some h → h ≠ host ∧ checksum_by_host st !! h = Some c).
  { intros c h H. assert (Hh : host_by_checksum st !! c = Some h).
    { subst m. destruct (checksum_by_host st !! host); [|done]. by apply lookup_delete_Some in H as [_ H]. }
    split; [|by apply inv_host0]. intros ->. apply inv_host0 in Hh. subst m. rewrite Hh in H.
    by rewrite lookup_delete_eq in H. }
  intros c h. case_decide; [|rewrite lookup_insert_Some; intros [[-> ->]|[_ H']]].
  - intros [Hne Hc]%Hm. by rewrite lookup_insert_ne.
  - by rewrite lookup_insert_eq.
  - apply Hm in H' as [Hne Hc]. by rewrite lookup_insert_ne.
Qed.

Definition event_opens (e : event) (st : service) : list Z → nat → Prop :=
  match e with SocketMessage k message => message_opens st k message | _ => no_new end.

Lemma post_poison_timeout tag st : inv st → post (handle (PoisonTimeout tag)) (λ _ st', good st st') st.
Proof.
  intros I. cbn [handle]. unfold poison_creds.
  apply post_bind, post_modify, post_bind, post_modify, post_modify. split; [|by constructor; auto].
  destruct I as [[] ? ?]. constructor; [constructor|..]; try done. cbn.
  intros t [Ht _]%elem_of_difference. auto.
Qed.

(** Every event that is possible is handled without a fault. *)
Lemma handle_ok e st : inv st → possible e st →
  post (handle e) (λ _ st', sound (event_opens e st) st st') st.
Proof.
  intros I Hp.
  assert (Hcalm : ∀ m : ws unit, calm m → hooked st = true → post m (λ _ st', sound no_new st st') st).
  { intros m Hm Hh. eapply post_mono; [apply (Hm st I)|by intros [] st' []].
    rewrite (inv_hooked _ (inv_core _ I)) in Hh. by apply negb_true_iff in Hh. }
  destruct e; cbn [handle event_opens].
  - eapply post_mono; [by apply post_new_socket, Hp|]. intros [] st'. apply sound_good.
  - eapply post_mono; [apply post_talking; [by apply talking_upd_connection, Hp|by apply good_refl]|].
    intros [] st'. apply sound_good.
  - by apply fine_sound; [apply fine_web_socket_open|].
  - by apply post_web_socket_message.
  - apply fine_sound; [|done]. apply fine_talking. intros st1 _. apply talking_closing.
  - by apply fine_sound; [apply fine_web_socket_close|].
  - by apply Hcalm; [apply calm_transport_message|].
  - by apply fine_sound; [apply fine_transport_closed|].
  - eapply post_mono; [by apply post_poison_timeout|]. intros [] st'. apply sound_good.
  - by apply fine_sound; [apply fine_ping_time|].
  - by apply fine_sound; [apply fine_dispose|].
  - apply post_modify, sound_good. by apply good_host_checksum.
Qed.

Lemma run_cons e events st st' : handle e st = (Ok tt, st') → run (e :: events) st = run events st'.
Proof. intros H. cbn [run]. unfold mbind, ws_bind, prog_bind. by rewrite H. Qed.

Lemma handle_step e st : inv st → possible e st →
  ∃ st', handle e st = (Ok tt, st') ∧ sound (event_opens e st) st st'.
Proof.
  intros I Hp. pose proof (handle_ok e st I Hp) as H. unfold post in H.
  destruct (handle e st) as [[[]|u|] st']; [by exists st'|done..].
Qed.

(** What holds of every step holds of a run. *)
Lemma service_run_ok (P : service → service → Prop) events st :
  (∀ st, P st st) → (∀ a b c, P a b → P b c → P a c) →
  (∀ e st st', sound (event_opens e st) st st' → P st st') →
  inv st → possible_run events st → ∃ st', run events st = (Ok tt, st') ∧ inv st' ∧ P st st'.
Proof.
  intros Hr Ht Hs. revert st. induction events as [|e events IH]; intros st I Hp; [by exists st|].
  destruct Hp as [He Hp]. destruct (handle_step e st I He) as (st1 & E & S). rewrite E in Hp.
  destruct (IH st1 (proj1 S) Hp) as (st2 & E2 & I2 & P2). exists st2.
  rewrite (run_cons e events st st1 E). split_and!; [done..|]. eapply Ht; [by eapply Hs|done].
Qed.

Lemma inv_new c : inv (cockpit_web_service_new c).
Proof. constructor; [|done..]. constructor; try done. intros k. cbn. by rewrite !lookup_empty. Qed.

Lemma service_run_inv events st : inv st → possible_run events st → inv (run events st).2.
Proof.
  intros I Hp. destruct (service_run_ok (λ _ _, True) events st ltac:(done) ltac:(done) ltac:(done) I Hp)
    as (st' & -> & I' & _). exact I'.
Qed.

(** ** What the service promises *)

(** C12: whatever browsers and the session process send, in whatever order WebSockets come and go
    and timeouts fire, the service uses no WebSocket that is gone; every channel belongs to a
    WebSocket that is there, the service counts its users, every timeout that it would remove is
    one that it has, and "destroy" is emitted exactly once, when the service is disposed. *)
Theorem web_service_safe c events :
  possible_run events (cockpit_web_service_new c) →
  ∃ st, run events (cockpit_web_service_new c) = (Ok tt, st) ∧ inv st.
Proof.
  intros Hp. destruct (service_run_ok (λ _ _, True) events _ ltac:(done) ltac:(done) ltac:(done) (inv_new c) Hp)
    as (st & E & I & _). by exists st.
Qed.

(** After the service is done with its transport, because it was disposed, because the
    user has logged out or because the session process has gone, it neither sends to it nor
    closes it again, whatever happens. *)
Theorem web_service_silent_after_close events st :
  inv st → sent_done st = true → possible_run events st →
  ∃ st', run events st = (Ok tt, st') ∧ sent_done st' = true ∧
         count to_transport st' = count to_transport st.
Proof.
  intros I Hd Hp.
  destruct (service_run_ok (λ a b, sent_done a = true → sent_done b = true ∧ count to_transport b = count to_transport a)
              events st) as (st' & E & _ & P); try done.
  - intros a b d H1 H2 H. destruct (H1 H) as [Hb E1]. destruct (H2 Hb) as [Hd2 E2]. split; [done|congruence].
  - intros e a b [_ K] H. split; [by apply (keeps_done _ _ _ K)|by apply (keeps_silent _ _ _ K)].
  - exists st'. split; [done|]. by apply P.
Qed.

(** C13: a channel is only ever given to the WebSocket that has sent a well-formed "open" for it,
    after its "init" and while no other WebSocket had the channel; so in any step a channel that
    is in use stays where it is or is closed, and no WebSocket takes over the channel of another. *)
Theorem channel_never_taken_over e st st' channel k :
  inv st → possible e st → handle e st = (Ok tt, st') → by_channel st' !! channel = Some k →
  by_channel st !! channel = Some k ∨
  (by_channel st !! channel = None ∧ ∃ message, e = SocketMessage k message ∧
     message_opens st k message channel k).
Proof.
  intros I Hp E Hk. destruct (handle_step e st I Hp) as (st1 & E1 & [_ K]).
  rewrite E in E1. injection E1 as <-. destruct (keeps_channel _ _ _ K channel k Hk) as [H|[Hn H]]; [by left|].
  right. split; [done|]. destruct e; try done. cbn in H. exists message. destruct H as [-> H].
  split; [done|by split].
Qed.

(** C14: a message of the session process for a channel goes to the WebSocket that has the channel,
    as the kind of data that it was opened with, under the name of the channel, if the WebSocket
    is open; nothing else changes, and messages for other channels go nowhere. *)
Theorem messages_routed channel payload st :
  inv st →
  match by_channel st !! channel with
  | None => on_transport_message (Some channel) payload st = (Ok tt, st)
  | Some k =>
      ∃ s c type, by_connection st !! k = Some s ∧ channels s !! channel = Some type ∧
        connections st !! k = Some c ∧
        on_transport_message (Some channel) payload st =
          (Ok tt, if decide (web_socket_connection_get_ready_state c = STATE_OPEN) then
             set_connections (<[k := web_socket_connection_send g_utf8_validate g_random_int type
                                       (channel ++ [10]) payload c]> (connections st)) st
           else st)
  end.
Proof.
  intros I. cbn [on_transport_message]. unfold on_transport_recv, cockpit_socket_lookup_by_channel.
  unfold mbind, ws_bind, prog_bind, get.
  destruct (by_channel st !! channel) as [k|] eqn:Ek; [|done].
  destruct (inv_route st channel k I Ek) as (s & c & type & Hs & Hc & Ht). exists s, c, type.
  split_and!; [done..|]. unfold socket_open, get_connection, mbind, ws_bind, prog_bind. rewrite Hc.
  cbn [mret ws_ret prog_ret]. case_decide as Ho.
  - rewrite bool_decide_eq_true_2 by done. unfold get_socket. rewrite Hs, Ht.
    unfold socket_send, upd_connection. by rewrite Hc.
  - by rewrite bool_decide_eq_false_2.
Qed.

(** When a WebSocket closes, the session process is told, once each, of every channel that is
    routed to the WebSocket, and of no channel that the WebSocket has not opened. *)
Theorem closing_reports_channels k s st :
  inv st → sent_done st = false → by_connection st !! k = Some s →
  ∃ l, NoDup l ∧ (∀ c, c ∈ l ↔ is_Some (channels s !! c)) ∧ (∀ c, by_channel st !! c = Some k → c ∈ l) ∧
    on_web_socket_closing k st =
      (Ok tt, set_outputs (outputs st ++ ((λ c, ToTransport None
        (build_control [(bs "command", Some (bs "close")); (bs "channel", Some c);
                        (bs "problem", Some (bs "disconnected"))])) <$> l)) st).
Proof.
  intros I Hd Hs. exists (map_to_list (channels s)).*1. split_and!.
  - apply NoDup_fst_map_to_list.
  - intros c. apply elem_of_channels.
  - intros c Hc. apply elem_of_channels. destruct (inv_route st c k I Hc) as (s' & _ & type & Hs' & _ & Ht).
    assert (s' = s) as -> by congruence. by eexists.
  - unfold on_web_socket_closing, mbind, ws_bind, prog_bind, get. rewrite Hd. cbn [negb when].
    unfold mbind, ws_bind, prog_bind. rewrite Hs. generalize (map_to_list (channels s)).*1 as l.
    intros l. clear. revert st. induction l as [|c l IH]; intros st.
    + cbn. rewrite app_nil_r. by destruct st.
    + cbn [for_each]. unfold mbind, ws_bind, prog_bind. cbn. rewrite IH. cbn. by rewrite <- app_assoc.
Qed.

(** C15: the answer to a plain1 or crypt1 challenge is made from the password of the credentials
    that may still be used, and when the challenge names a user, only if that is the user of the
    credentials, as it is or in lower case. *)
Theorem password_only_for_its_user c challenge response type rest subject rest' u :
  authorize_response c challenge = Some response →
  cockpit_authorize_type (Some challenge) = Ok (type, rest) → type ≠ bs "basic" →
  cockpit_authorize_subject (Some challenge) = Ok (subject, rest') → subject ≠ [] → user c = Some u →
  (∃ who, who ∈ [u; tolower <$> u] ∧ cockpit_hex_encode who (-1) = Ok subject) ∧
  ∃ password, cockpit_creds_get_password c = Some password ∧ poisoned c = false ∧
    (response = password ∨ cockpit_compat_reply_crypt1 crypt_r challenge password = Some response).
Proof.
  unfold authorize_response, authorize_check_user. intros Hr Hty Hb Hsub Hs Hu. rewrite Hty, Hsub, Hu in Hr.
  case_decide as Ht; [|done]. destruct (cockpit_creds_get_password c) as [password|] eqn:Ep; [|done].
  rewrite (bool_decide_eq_true_2 (type ≠ _)), (bool_decide_eq_false_2 (subject = [])) in Hr by done.
  cbn [andb] in Hr. match type of Hr with context [negb ?b] => destruct b eqn:Ec end; [|done].
  cbn [negb] in Hr. split.
  - apply orb_true_iff in Ec as [E|E].
    + destruct (cockpit_hex_encode u (-1)) as [e| |] eqn:Ex; [|done..]. apply bool_decide_eq_true in E as ->.
      exists u. split; [left|done].
    + destruct (cockpit_hex_encode (tolower <$> u) (-1)) as [e| |] eqn:Ex; [|done..].
      apply bool_decide_eq_true in E as ->. eexists. split; [right; left|done].
  - exists password. split; [done|]. split.
    + unfold cockpit_creds_get_password in Ep. by destruct (poisoned c).
    + destruct (decide (type = bs "crypt1")); [by right|]. rewrite decide_False in Hr by done.
      left. congruence.
Qed.

Lemma poisoned_no_response c challenge : poisoned c = true → authorize_response c challenge = None.
Proof.
  intros H. unfold authorize_response, cockpit_creds_get_password. rewrite H.
  destruct (cockpit_authorize_type _) as [[type rest]| |]; [|done..]. by case_decide.
Qed.

(** Once the password has been poisoned, because two minutes have passed, the session process
    is done with it or the user has logged out, no challenge is ever answered again, whatever
    browsers send: a password that they give later is not used either. *)
Theorem poisoned_never_answers events st :
  inv st → poisoned (creds st) = true → possible_run events st →
  ∃ st', run events st = (Ok tt, st') ∧ ∀ challenge, authorize_response (creds st') challenge = None.
Proof.
  intros I Hc Hp.
  destruct (service_run_ok (λ a b, poisoned (creds a) = true → poisoned (creds b) = true) events st)
    as (st' & E & _ & P); try done; [by auto|intros e a b [_ K]; apply (keeps_poisoned _ _ _ K)|].
  exists st'. split; [done|]. intros challenge. by apply poisoned_no_response, P.
Qed.

Lemma send_handshake type prefix message c :
  handshake_done (web_socket_connection_send g_utf8_validate g_random_int type prefix message c) =
  handshake_done c.
Proof.
  unfold web_socket_connection_send, send_prefixed_message_rfc6455, _web_socket_connection_queue, start_output.
  destruct c; cbn. repeat (case_decide || split_match; cbn); done.
Qed.

Lemma close_sends_close code data c : handshake_done c = true →
  close_sent (web_socket_connection_close g_random_int code data c) = true.
Proof.
  unfold web_socket_connection_close. intros H. destruct (close_sent c) eqn:E; [done|].
  cbn [emit handshake_done set_log]. rewrite H. unfold close_io_after_timeout. by destruct (close_timeout _).
Qed.

Lemma open_handshake c : web_socket_connection_get_ready_state c = STATE_OPEN → handshake_done c = true.
Proof. unfold web_socket_connection_get_ready_state. by repeat case_match. Qed.

Lemma close_sent_not_open c : close_sent c = true → web_socket_connection_get_ready_state c ≠ STATE_OPEN.
Proof. intros H. unfold web_socket_connection_get_ready_state. rewrite H, orb_true_r. by destruct (io_closed c). Qed.

Lemma ws_bind_eq {A B} (m : ws A) (f : A → ws B) st :
  (m ≫= f) st = match m st with (Ok a, st') => f a st' | (Err e, st') => (Err e, st') | (Fault, st') => (Fault, st') end.
Proof. done. Qed.

(** What the session process is told of a WebSocket that closes: that its channels are closed *)
Definition close_notices (st : service) (s : CockpitSocket) : list output :=
  if sent_done st then []
  else (λ channel, ToTransport None (build_control [(bs "command", Some (bs "close")); (bs "channel", Some channel);
                                                    (bs "problem", Some (bs "disconnected"))]))
       <$> (map_to_list (channels s)).*1.

(** The WebSocket is told of the problem, and closed for it. *)
Definition refused (problem : list Z) (c : connection) : connection :=
  web_socket_connection_close g_random_int WEB_SOCKET_CLOSE_SERVER_ERROR (Some problem)
    (web_socket_connection_send g_utf8_validate g_random_int DATA_TEXT control_prefix
       (build_control [(bs "command", Some (bs "close")); (bs "problem", Some problem)]) c).

Lemma send_close_sent type prefix message c :
  close_sent (web_socket_connection_send g_utf8_validate g_random_int type prefix message c) = close_sent c.
Proof.
  unfold web_socket_connection_send, send_prefixed_message_rfc6455, _web_socket_connection_queue, start_output.
  destruct c; cbn. repeat (case_decide || split_match; cbn); done.
Qed.

Lemma for_each_transport_send (f : list Z → list Z) l st :
  for_each l (λ x, transport_send None (f x)) st = (Ok tt, set_outputs (outputs st ++ ((λ x, ToTransport None (f x)) <$> l)) st).
Proof.
  revert st. induction l as [|x l IH]; intros st; cbn [for_each].
  - cbn. rewrite app_nil_r. by destruct st.
  - rewrite ws_bind_eq. unfold transport_send at 1, out, modify. rewrite IH. cbn [fmap list_fmap].
    change (outputs (set_outputs (outputs st ++ [ToTransport None (f x)]) st)) with (outputs st ++ [ToTransport None (f x)]).
    by rewrite <- app_assoc.
Qed.

Lemma closing_notices k s st : by_connection st !! k = Some s →
  on_web_socket_closing k st = (Ok tt, set_outputs (outputs st ++ close_notices st s) st).
Proof.
  intros Hs. unfold on_web_socket_closing, close_notices. rewrite ws_bind_eq. unfold get at 1.
  destruct (sent_done st); cbn [negb when].
  - rewrite app_nil_r. by destruct st.
  - rewrite ws_bind_eq. unfold get at 1. rewrite Hs. by rewrite for_each_transport_send.
Qed.

(** What a protocol error does, exactly *)
Lemma protocol_error_eq k problem st s c : by_connection st !! k = Some s → connections st !! k = Some c →
  inbound_protocol_error k (Some problem) st =
    (Ok tt, if bool_decide (web_socket_connection_get_ready_state c = STATE_OPEN)
            then set_outputs (outputs st ++ close_notices st s) (set_connections (<[k := refused problem c]> (connections st)) st)
            else st).
Proof.
  intros Hs Hc. unfold inbound_protocol_error, socket_open. cbn [default].
  rewrite ws_bind_eq, ws_bind_eq. unfold get_connection at 1. rewrite Hc. cbn [mret ws_ret prog_ret].
  destruct (bool_decide _) eqn:Ho; cbn [when]; [|done]. apply bool_decide_eq_true in Ho.
  rewrite ws_bind_eq. unfold socket_send, upd_connection at 1. rewrite Hc.
  unfold socket_close. rewrite ws_bind_eq. unfold get_connection at 1. cbn [connections set_connections]. rewrite lookup_insert_eq.
  rewrite send_close_sent. assert (close_sent c = false) as ->.
  { destruct (close_sent c) eqn:E; [|done]. by apply close_sent_not_open in E. }
  cbn [negb when]. rewrite ws_bind_eq, (closing_notices k s) by done. unfold upd_connection.
  cbn [connections set_outputs set_connections]. rewrite lookup_insert_eq, insert_insert_eq. done.
Qed.

Lemma refused_not_open problem c : web_socket_connection_get_ready_state c = STATE_OPEN →
  web_socket_connection_get_ready_state (refused problem c) ≠ STATE_OPEN.
Proof.
  intros Ho. apply close_sent_not_open, close_sends_close. rewrite send_handshake. by apply open_handshake.
Qed.

(** C16: a WebSocket that sends any control message before its "init" is closed, and its message
    has no other effect.  If it is open, it is sent the problem "protocol-error" and closed for
    it, the session process is told of the closing of the channels that it has, unless that has
    been told that the service is done, and nothing else of the service changes: nothing of the
    message is passed on, no channel is opened or closed, no timeout is set and no password is
    taken.  If it is not open any more, nothing changes at all. *)
Theorem commands_need_init k message payload st s :
  inv st → by_connection st !! k = Some s → socket_init s = None →
  cockpit_transport_parse_frame message = Some (None, payload) →
  (∀ channel options, cockpit_transport_parse_command json_parser payload ≠ Some (bs "init", channel, options)) →
  ∃ c, connections st !! k = Some c ∧
    (web_socket_connection_get_ready_state c ≠ STATE_OPEN → on_web_socket_message k message st = (Ok tt, st)) ∧
    (web_socket_connection_get_ready_state c = STATE_OPEN →
     on_web_socket_message k message st =
       (Ok tt, set_outputs (outputs st ++ close_notices st s)
                 (set_connections (<[k := refused (bs "protocol-error") c]> (connections st)) st)) ∧
     web_socket_connection_get_ready_state (refused (bs "protocol-error") c) ≠ STATE_OPEN).
Proof.
  intros I Hs Hi Hf Hp.
  assert (Hc : is_Some (connections st !! k)) by (apply inv_linked; [done|by eexists]).
  destruct Hc as [c Hc]. exists c. split; [done|].
  assert (H : on_web_socket_message k message st = inbound_protocol_error k (Some (bs "protocol-error")) st).
  { unfold on_web_socket_message. rewrite ws_bind_eq. unfold get at 1. rewrite Hs, Hf, ws_bind_eq. unfold dispatch_inbound_command.
    destruct (cockpit_transport_parse_command _ _) as [[[command channel] options]|] eqn:Ep.
    - rewrite decide_False by (intros ->; by eapply Hp). rewrite ws_bind_eq. unfold get_socket. rewrite Hs, Hi, ws_bind_eq.
      by rewrite (protocol_error_eq k _ st s c).
    - rewrite ws_bind_eq. by rewrite (protocol_error_eq k _ st s c). }
  rewrite H, (protocol_error_eq k _ st s c) by done. split; intros Ho.
  - by rewrite bool_decide_eq_false_2.
  - rewrite bool_decide_eq_true_2 by done. split; [done|]. by apply refused_not_open.
Qed.

End Service.

(** ** Examples *)

Module ServiceDemo.

Definition parser (s : list Z) : option (option json) := Some <$> read_text (λ _, None) s.
Definition dtostr (_ : spec_float) : list Z := [].
Definition to_int (_ : spec_float) : Z := 0.
Definition utf8 (_ : list Z) : bool := true.
Definition random (_ : nat) : list Z := [1; 2; 3; 4].
Definition crypt (key salt : list Z) : option (list Z) := Some (salt ++ key).
Definition memory (n : nat) : list Z := replicate n 205.
Definition version : list Z := bs "300".

Lemma memory_length n : length (memory n) = n.
Proof. apply length_replicate. Qed.

Notation service_run := (run parser dtostr to_int utf8 random crypt memory None version).
Notation service_possible := (possible_run parser dtostr to_int utf8 random crypt memory None version).
Notation service_handle := (handle parser dtostr to_int utf8 random crypt memory None version).

Definition alice : CockpitCreds :=
  mkCreds false (Some (bs "Alice")) (bs "cockpit") true None (Some (bs "token")) None [bs "secret"] None.

Definition start : service := cockpit_web_service_new alice.

Definition text (members : list (list Z * json)) : list Z := cockpit_json_write_bytes dtostr members.
Definition control (members : list (list Z * json)) : list Z := 10 :: text members.

Definition browser_init : list Z := control [(bs "command", JString (bs "init")); (bs "version", JInt 1)].
Definition browser_open (c : list Z) : list Z :=
  control [(bs "command", JString (bs "open")); (bs "channel", JString c)].
Definition browser_close (c : list Z) : list Z :=
  control [(bs "command", JString (bs "close")); (bs "channel", JString c)].
Definition bridge_init : list Z := text [(bs "command", JString (bs "init")); (bs "version", JInt 1)].
Definition logout : list Z := control [(bs "command", JString (bs "logout"))].

Definition two_browsers : list event :=
  [NewSocket 0 (open_connection true); SocketOpened 0; NewSocket 1 (open_connection true); SocketOpened 1;
   TransportMessage None bridge_init; SocketMessage 0 browser_init; SocketMessage 1 browser_init;
   SocketMessage 0 (browser_open (bs "a")); SocketMessage 1 (browser_open (bs "b"))].

Definition session_events : list event :=
  two_browsers ++
  [TransportMessage (Some (bs "a")) (bs "hello"); SocketMessage 1 (bs "b" ++ [10] ++ bs "hello");
   PingTimeout; SocketMessage 1 (browser_close (bs "b")); PoisonTimeout 0; SocketClosing 0; SocketClosed 0;
   SetHostChecksum (bs "localhost") (bs "c1"); SocketMessage 1 logout; SocketClosed 1].

(** Decides whether an event is possible. *)
Ltac possible_event := vm_compute; first [reflexivity | exact I | by eexists | by repeat split; eexists].

Lemma two_browsers_possible : service_possible two_browsers start.
Proof. repeat (split; [possible_event|]). exact I. Qed.

Definition two : service := (service_run two_browsers start).2.

Example two_routes : by_channel two = {[bs "a" := 0%nat; bs "b" := 1%nat]}.
Proof. vm_compute. reflexivity. Qed.

Lemma session_possible : service_possible session_events start.
Proof. repeat (split; [possible_event|]). exact I. Qed.

Lemma two_inv : inv two.
Proof. apply service_run_inv; [apply memory_length|apply inv_new|apply two_browsers_possible]. Qed.

Lemma web_service_safe_witness :
  service_possible session_events start ∧
  ∃ st, service_run session_events start = (Ok tt, st) ∧ inv st.
Proof.
  split; [exact session_possible|].
  apply (web_service_safe parser dtostr to_int utf8 random crypt memory memory_length None version alice
           session_events). exact session_possible.
Defined.

Definition gone : service := (service_run [Disconnect] two).2.

Lemma gone_inv : inv gone.
Proof.
  apply (service_run_inv parser dtostr to_int utf8 random crypt memory memory_length None version [Disconnect] two two_inv).
  by split.
Qed.

Definition late_events : list event :=
  [SocketMessage 0 (browser_open (bs "c")); SocketMessage 1 (bs "b" ++ [10] ++ bs "hello"); SocketClosing 0;
   SocketClosed 0; Disconnect].

Lemma late_possible : service_possible late_events gone.
Proof. repeat (split; [possible_event|]). exact I. Qed.

Lemma web_service_silent_after_close_witness :
  sent_done gone = true ∧
  ∃ st, service_run late_events gone = (Ok tt, st) ∧ sent_done st = true ∧
        count to_transport st = count to_transport gone.
Proof.
  split; [vm_compute; reflexivity|].
  apply (web_service_silent_after_close parser dtostr to_int utf8 random crypt memory memory_length None
           version late_events gone gone_inv); [vm_compute; reflexivity|exact late_possible].
Defined.

Lemma channel_never_taken_over_witness :
  let e := SocketMessage 1 (browser_open (bs "c")) in
  by_channel (service_handle e two).2 !! bs "c" = Some 1%nat ∧
  (by_channel two !! bs "c" = Some 1%nat ∨
   (by_channel two !! bs "c" = None ∧ ∃ message, e = SocketMessage 1 message ∧
      message_opens parser two 1 message (bs "c") 1)).
Proof.
  intros e. split; [vm_compute; reflexivity|].
  apply (channel_never_taken_over parser dtostr to_int utf8 random crypt memory memory_length None version
           e two (service_handle e two).2 (bs "c") 1 two_inv); [exact I|vm_compute; reflexivity..].
Defined.

Lemma messages_routed_witness :
  inv two ∧
  match by_channel two !! bs "a" with
  | None => on_transport_message parser dtostr to_int utf8 random crypt memory None (Some (bs "a")) (bs "hi") two
            = (Ok tt, two)
  | Some k =>
      ∃ s c type, by_connection two !! k = Some s ∧ channels s !! bs "a" = Some type ∧
        connections two !! k = Some c ∧
        on_transport_message parser dtostr to_int utf8 random crypt memory None (Some (bs "a")) (bs "hi") two =
          (Ok tt, if decide (web_socket_connection_get_ready_state c = STATE_OPEN) then
             set_connections (<[k := web_socket_connection_send utf8 random type
                                       (bs "a" ++ [10]) (bs "hi") c]> (connections two)) two
           else two)
  end.
Proof.
  split; [exact two_inv|].
  exact (messages_routed parser dtostr to_int utf8 random crypt memory None (bs "a") (bs "hi") two two_inv).
Defined.

Definition socket0 : CockpitSocket := default (mkSocket [] ∅ None) (by_connection two !! 0%nat).

Lemma closing_reports_channels_witness :
  sent_done two = false ∧
  ∃ l, NoDup l ∧ (∀ c, c ∈ l ↔ is_Some (channels socket0 !! c)) ∧
    (∀ c, by_channel two !! c = Some 0%nat → c ∈ l) ∧
    on_web_socket_closing dtostr 0 two =
      (Ok tt, set_outputs (outputs two ++ ((λ c, ToTransport None
        (cockpit_transport_build_control dtostr
           [(bs "command", Some (bs "close")); (bs "channel", Some c);
            (bs "problem", Some (bs "disconnected"))])) <$> l)) two).
Proof.
  split; [vm_compute; reflexivity|].
  apply (closing_reports_channels dtostr 0 socket0 two two_inv); vm_compute; reflexivity.
Defined.

Definition challenge : list Z := bs "plain1:616c696365:".

Lemma password_only_for_its_user_witness :
  authorize_response crypt memory alice challenge = Some (bs "secret") ∧
  (∃ who, who ∈ [bs "Alice"; tolower <$> bs "Alice"] ∧ cockpit_hex_encode who (-1) = Ok (bs "616c696365")) ∧
  ∃ password, cockpit_creds_get_password alice = Some password ∧ poisoned alice = false ∧
    (bs "secret" = password ∨ cockpit_compat_reply_crypt1 crypt challenge password = Some (bs "secret")).
Proof.
  split; [vm_compute; reflexivity|].
  apply (password_only_for_its_user crypt memory alice challenge (bs "secret") (bs "plain1")
           (bs "616c696365:") (bs "616c696365") []); try (vm_compute; reflexivity); by_decide.
Defined.

Definition logged_out : service := (service_run [SocketMessage 0 logout] two).2.

Lemma logged_out_inv : inv logged_out.
Proof.
  apply (service_run_inv parser dtostr to_int utf8 random crypt memory memory_length None version
           [SocketMessage 0 logout] two two_inv). by split.
Qed.

Definition new_password : list event :=
  [SocketMessage 1 (control [(bs "command", JString (bs "authorize"));
                             (bs "response", JString (bs "basic YWxpY2U6c2VjcmV0"))])].

Lemma poisoned_never_answers_witness :
  poisoned (creds logged_out) = true ∧
  ∃ st, service_run new_password logged_out = (Ok tt, st) ∧
    ∀ challenge, authorize_response crypt memory (creds st) challenge = None.
Proof.
  split; [vm_compute; reflexivity|].
  apply (poisoned_never_answers parser dtostr to_int utf8 random crypt memory memory_length None version
           new_password logged_out logged_out_inv); [vm_compute; reflexivity|by split].
Defined.

Definition one_browser : list event := [NewSocket 0 (open_connection true)].
Definition one : service := (service_run one_browser start).2.

Lemma one_inv : inv one.
Proof.
  apply (service_run_inv parser dtostr to_int utf8 random crypt memory memory_length None version);
    [apply inv_new|split; [by split|done]].
Qed.

Lemma commands_need_init_witness :
  socket_init <$> by_connection one !! 0%nat = Some None ∧
  ∃ c, connections one !! 0%nat = Some c ∧
    (web_socket_connection_get_ready_state c ≠ STATE_OPEN →
     on_web_socket_message parser dtostr to_int utf8 random memory 0 (browser_open (bs "a")) one = (Ok tt, one)) ∧
    (web_socket_connection_get_ready_state c = STATE_OPEN →
     on_web_socket_message parser dtostr to_int utf8 random memory 0 (browser_open (bs "a")) one =
       (Ok tt, set_outputs (outputs one ++ close_notices dtostr one (mkSocket (bs "1:") ∅ None))
                 (set_connections (<[0%nat := refused dtostr utf8 random (bs "protocol-error") c]> (connections one)) one)) ∧
     web_socket_connection_get_ready_state (refused dtostr utf8 random (bs "protocol-error") c) ≠ STATE_OPEN).
Proof.
  split; [vm_compute; reflexivity|].
  apply (commands_need_init parser dtostr to_int utf8 random memory 0 (browser_open (bs "a"))
           (tail (browser_open (bs "a"))) one (mkSocket (bs "1:") ∅ None) one_inv);
    [vm_compute; reflexivity..|].
  intros channel options. by vm_compute.
Defined.

(** ** Findings *)

(** A second "init" of the session process starts a second timeout and forgets the first, which
    is still there when the service has been disposed; it will use a service that has been freed. *)
Lemma second_init_leaves_timeout :
  let '(r, st) := service_run [TransportMessage None bridge_init; TransportMessage None bridge_init; Disconnect] start in
  r = Ok tt ∧ closing st = true ∧ cockpit_web_service_get_idling st = true ∧ timeouts st = {[0%nat]}.
Proof. vm_compute. by split_and!. Qed.

(** [cockpit_web_service_set_host_checksum] forgets who has a checksum when another host with the
    same checksum gets a new one. *)
Lemma host_checksum_forgotten :
  let st := cockpit_web_service_set_host_checksum (bs "other") (bs "c2")
             (cockpit_web_service_set_host_checksum (bs "other") (bs "c1")
               (cockpit_web_service_set_host_checksum (bs "localhost") (bs "c1") start)) in
  cockpit_web_service_get_checksum st (bs "localhost") = Some (bs "c1") ∧
  cockpit_web_service_get_host st (bs "c1") = None.
Proof. vm_compute. by split. Qed.

(** A WebSocket can close the channel of another, which still counts it as its own: when it closes,
    the session process is told to close the channel of the WebSocket that has it by then. *)
Lemma foreign_channel_closed :
  let '(r, st) := service_run [SocketMessage 1 (browser_close (bs "a")); SocketMessage 1 (browser_open (bs "a"));
                              SocketClosing 0] two in
  by_channel two !! bs "a" = Some 0%nat ∧ r = Ok tt ∧ by_channel st !! bs "a" = Some 1%nat ∧
  last (outputs st) = Some (ToTransport None (text [(bs "command", JString (bs "close"));
    (bs "channel", JString (bs "a")); (bs "problem", JString (bs "disconnected"))])).
Proof. vm_compute. by split_and!. Qed.

(** The scheme of the URL is the wrong way round: "wss" for requests that are not encrypted. *)
Lemma socket_scheme_inverted :
  create_socket_url (Some (bs "host")) (bs "https") (bs "/socket") = bs "ws://host/socket" ∧
  create_socket_url (Some (bs "host")) (bs "http") (bs "/socket") = bs "wss://host/socket".
Proof. by vm_compute. Qed.

End ServiceDemo.
